(* ===== verification/_CoqProject ===== *)
-Q . S2P
Prelude.v
Meta.v
Names.v
Cidr.v
Conditions.v
Api.v
VRGStatus.v
PeerClasses.v
PolicyPeers.v
PolicyPeersSpec.v
Events.v
Telemetry.v
NetworkMapping.v
NetworkMappingSpec.v
Hub.v
HubObjects.v
Secrets.v
SecretsSpec.v
ManifestWorks.v
Views.v
ClassViews.v
DRClusters.v
Fencing.v
Scenario.v
Placement.v
PlacementSpec.v
VRGBuild.v
DRPCStatus.v
DRPCWorks.v
DRPCVolSync.v
DRPC.v
FencingSpec.v
FencingLiveness.v
Frames.v
Safety.v
ActionSpec.v
HubRecovery.v
RecoverySpec.v
ProtectedCondition.v
Conflicts.v
StatusRefresh.v
DRPCLifecycle.v
Reconcile.v
ReconcileSpec.v
MaintenanceModes.v
DRClusterDeploy.v
DRClusterReconcile.v
PolicySecrets.v
DRPolicies.v
DRPoliciesSpec.v
DRClusterSpec.v
ModesSpec.v
Workflows.v
Volumes.v
VolRepStatus.v
VolRepClasses.v
VolRep.v
ObjectStores.v
VolGroupRep.v
VolRepReconcile.v
VolRepRestore.v
VRGAggregate.v
ClaimSelection.v
VirtualMachines.v
VolSyncReconcile.v
Velero.v
KubeObjects.v
VRGReconcile.v
VolScenario.v
VRGAggregateSpec.v
VolRepStatusSpec.v
VolFrames.v
VolRepSpec.v
ClusterDataSpec.v
VolInvariant.v
VirtualMachinesSpec.v
KubeObjectsSpec.v
VRGReconcileSpec.v
ClusterConfigs.v
ClusterConfigsSpec.v
