(* ===== verification/Prelude.v ===== *)
(** * RamenDR: a verification library

    Ramen protects an application that runs on one of two managed Kubernetes clusters
    and moves it to the other: a planned relocation, a failover after a disaster, or a
    test failover.  This library models the hub side of it (the controllers of the
    DRPlacementControl (DRPC), DRCluster and DRPolicy resources) and, on a managed
    cluster, those of the DRClusterConfig, which reports the cluster's classes, and of the
    VolumeReplicationGroup (VRG): how it replicates
    volumes, keeps their cluster data and the application's Kubernetes objects in object
    stores, and reports its state.  It proves what makes them correct; above all, when a
    cluster's copy of the application's volumes is allowed to become primary, and what a
    VRG's reports, on which that relies, are worth.  Paths are relative to src/.

    ** The program's parts

    The user's DRPC names a policy (DRPolicy) with its clusters (DRCluster), a
    placement (an OCM Placement or PlacementRule) and an action.  The hub drives each
    managed cluster by ManifestWorks, the most important of which carries a
    VRG asked to be primary or secondary; it sees the
    cluster's VRG through ManagedClusterViews and object stores, and places the
    application by writing the placement's decisions.  [Reconcile]
    (internal/controller/drplacementcontrol_controller.go) reads all this, recovers a
    lost status, creates a [DRPCInstance], runs its action
    (internal/controller/drplacementcontrol.go) and refreshes the DRPC's status.  A
    metro failover relies on the DRCluster's Fenced condition, which the DRCluster
    controller (drcluster_controller.go) sets from the NetworkFences it has created on
    the peer; a regional one on the maintenance modes that the same controller activates
    (drcluster_mmode.go).  A VRG's peer classes come from the DRPolicy's status, which the
    policy controller (drpolicy_controller.go) computes from the classes its clusters
    report in a DRClusterConfig (drclusterconfig_controller.go, drpolicy_peerclass.go); it
    also delivers the clusters' S3 secrets to them
    (drpolicy.go, util/secrets_util.go).

    On a managed cluster the VRG's controller protects each claim of the application by a
    VolumeReplication, or a VolumeGroupReplication for a consistency group
    (vrg_volrep.go, vrg_volgrouprep.go), uploads claims and volumes to the S3 stores
    (s3utils.go), restores them from there when the VRG becomes primary, and sums the
    conditions of the claims up to those of the VRG (volumereplicationgroup_controller.go),
    which the hub sees in its views.  Claims of other storage go through VolSync
    (vrg_volsync.go).  As primary it also captures the application's Kubernetes objects as
    its recipe says, by Velero's backups, in two captures that alternate
    (vrg_kubeobjects.go, vrg_recipe.go, kubeobjects/); as secondary it takes down virtual
    machines that are left over (vrg_volrep.go, util/vm_util.go).

    ** How the code is modelled

    A Go method is a function of type [Op A], a state transformer on [World] (Hub.v)
    that returns the method's results; errors are values ([option GoError], or a sum
    where there is also a result), and an early return keeps the changes made before
    it, as in Go.  [World] holds the in-memory DRPC, views and placement next to the
    server's DRPC, ManifestWorks, decisions and placement; writes go to the server's
    copy and refresh the in-memory one, as the API client does.

    What the program does not determine is answered by classes, each call taking a
    tick of a clock: [Env] (the clock, the failure of each API call, the views, the
    object stores, the order of a range over a map, the formatting of values),
    [HubReads], [Snapshot], [LifecycleEnv], [ReconcileEnv], [ClusterReads], [ModeReads] and
    [ConfigEnv] (reads of other objects), [StoreChecks] (checks of an object store),
    [KeyOrder] (orders of ranges), [MappingEnv] (ConfigMaps, regular expressions, YAML),
    [ServerVersions] (resource versions), [ViewCodec] (decoding of what a view reports).
    Theorems hold for every instance, so for every failure, every interleaving with
    the managed clusters and every map order; a witness evaluates each at a concrete
    hub (Scenario.v).  [DRPCInstance] is the class of the values fixed for one
    reconcile.  The reconcile of a DRCluster is a function of type [COp A] on
    [ClusterWorld], the hub's state with the DRCluster; that of a DRPolicy one of type
    [POp A] on [PolicyWorld], which has an [ObjectStore] of secrets and OCM policies.  Go
    maps are [gmap], slices lists, nil pointers [None]; a nil and an empty slice or map are
    one.  A panic is an error value, or [None] where a function has no error.  Generations,
    times and byte counts are [Z]; the 64-bit action counts wrap explicitly (Telemetry.v),
    so does the multiplication of the sync interval in [isGroupSyncLagging] (DRPC.v), and
    so does the sum of synchronised bytes (VRGAggregate.v).

    A method of [VRGInstance] is a function of type [VOp A] on [Volumes] (Volumes.v), the
    managed cluster's objects by kind next to the fields of the instance.  A claim that the
    source passes by pointer is a location of a heap, so that two lists of pointers share
    it.  [VolEnv] answers for the API server and the stores, [VRGConfig] has what the
    configuration fixes; an API call is generic in the kind ([kGet], [kUpdate], ...), with
    the server's part (versions, deletion with the last finalizer) written out; so is the
    deletion of a ManifestWork on the hub ([Delete_mw], Hub.v), which only marks one that
    has finalizers.  A store holds bytes: [VolEnv] has the JSON encoder and decoders and
    gzip, of which only the theorem on reading back assumes laws ([CodecLaws]).  Where the
    code dereferences a pointer it does not check, the object is taken to have the field
    (VolRepRestore.v says which).  Interfaces of the source are classes: [VSHandler]
    (VolSync's handler and that of consistency groups), [RequestsManager] (requests to
    capture and recover Kubernetes objects, which [velero_requests] implements); [VMEnv],
    [KubeEnv], [ListCodec] and [LoopEnv] have parsers and encoders, the execution of hooks
    and the configuration.  A theorem on clients of an interface names what it asks of it
    ([KubeFrame], [DeletionFrame]), and the implementation of Velero is shown to have it.
    The DRClusterConfig controller is of type [KOp A] on [ConfigWorld]; [ManagedCluster]
    answers for its cluster.

    ** Files

    - Prelude: record update, the state monad, frames ([preserves]) and their tactics,
      list lemmas.  Meta: errors, object metadata, labels and finalizers, the
      ResourceUpdater (util/misc.go).  Names: generated names with their CRC-32
      (util/misc.go, util/mw_util.go).  Conditions: util/conditions.go and the DRPC's
      wrappers.  Api: the types of api/v1alpha1.
    - PeerClasses: how a VRG's peer classes follow the policy, metro detection.
      Events: util/events.go.  Telemetry: dr_telemetry_metrics.go.  NetworkMapping:
      drpc_networkmapping.go, with NetworkMappingSpec.
    - PolicyPeers: the peer classes of a policy (drpolicy_peerclass.go), and ClassViews:
      the classes of a cluster (the same, util/managedcluster.go) read through Views:
      ManagedClusterViews (util/mcv_util.go).
    - DRClusters: a DRCluster's conditions, phases, writes and ManifestWorks; Fencing:
      [clusterFenceHandle] and what it calls; MaintenanceModes: drcluster_mmode.go;
      DRClusterDeploy: drclusters.go with ramenconfig.go's settings; Cidr: addresses and
      networks of package net; DRClusterReconcile: the loop (drcluster_controller.go).
    - HubObjects: secrets, OCM policies, rules and bindings on the server; Secrets:
      util/secrets_util.go; PolicySecrets: drpolicy.go; DRPolicies: drpolicy_controller.go.
    - Hub: the state, the API calls, the classes [Env] and [DRPCInstance].
      ManifestWorks: util/mw_util.go.  Placement: placement decisions.
    - VRGBuild, DRPCStatus, DRPCWorks, DRPCVolSync, DRPC: drplacementcontrol.go,
      drplacementcontrolvolsync.go and drplacementcontrol_global.go: building VRGs,
      status and readiness, ManifestWorks of a DRPC, VolSync, and the actions
      [RunInitialDeployment], [RunFailover], [RunRelocate] with cleanup.
    - HubRecovery, ProtectedCondition, Conflicts, StatusRefresh, DRPCLifecycle,
      Reconcile: drplacementcontrol_controller.go and protected_condition.go: the
      recovery of a DRPC's state, the Protected condition, conflicting DRPCs, the
      status refresh, ownership and deletion, and the loop itself.
    - VRGStatus: conditions of a VRG and the entries of its claims (status.go,
      vrg_status_pvcs.go).  Volumes: the managed cluster, the API calls.  VolRepStatus: the
      reading of a replication resource's status; VolRepClasses: classes and their choice;
      VolRep: protecting, replicating and giving up a claim; ObjectStores: s3utils.go and
      uploads; VolGroupRep: consistency groups; VolRepReconcile: the loops and dry-run
      snapshots; VolRepRestore: restoring from the stores (vrg_volrep.go,
      vrg_volgrouprep.go, vrg_volgrouprep_global.go).  VRGAggregate: the VRG's conditions and
      state (volumereplicationgroup_controller.go, vrg_volrep.go, vrg_volsync.go).
    - Workflows: recipes, steps and Velero's objects (kubeobjects/requests.go,
      hooks/common/hook_spec_builder.go, part of vrg_kubeobjects.go).  Velero: the manager of
      requests (kubeobjects/velero/).  KubeObjects: captures and recovery
      (vrg_kubeobjects.go, vrg_recipe.go, vrg_pvc_selector.go, vrg_vrgobject.go,
      s3_store_accessors.go).
    - ClaimSelection: the claims of a VRG and how each is replicated
      (volumereplicationgroup_controller.go, vrg_offloaded.go, util/pvcs_util.go).
      VirtualMachines: machines and static addresses (vrg_volrep.go, vrg_staticip.go,
      util/vm_util.go).  VolSyncReconcile: vrg_volsync.go.  VRGReconcile: the loop
      (volumereplicationgroup_controller.go).
    - ClusterConfigs: drclusterconfig_controller.go, with ClusterConfigsSpec.
    - VolScenario: a concrete managed cluster.  VolFrames: what the operations on volumes
      may change.  VRGAggregateSpec, VolRepStatusSpec, VolRepSpec, ClusterDataSpec,
      VolInvariant, VirtualMachinesSpec, KubeObjectsSpec, VRGReconcileSpec: theorems about
      these files.
    - Scenario: the concrete hub of the witnesses.  Frames: what each
      method may change.  PolicyPeersSpec, FencingSpec, FencingLiveness,
      DRClusterSpec, ModesSpec, SecretsSpec, DRPoliciesSpec,
      PlacementSpec, Safety, ActionSpec, RecoverySpec,
      ReconcileSpec: theorems about the files above.

    ** What the theorems show

    - Promotion (Safety, ReconcileSpec): a relocation, failover or deployment makes a
      VRG primary only on its target and only after the checks that make it safe were
      observed in the same reconcile; an action makes at most one primary; the whole
      reconcile adds nothing but the adoption of primaries it found.
    - Data (ActionSpec): a relocation waits for both phases of the
      final sync; a test failover touches no VRG but the failover cluster's; what
      [updateVRGState] writes on every path.
    - Peers (ActionSpec, ReconcileSpec): cleanup ends with clean peers; a deletion removes
      secondaries before primaries before the rest, and the DRPC last, once the clusters
      that answered show no VRG.
    - Placement (PlacementSpec): the operations on PlacementDecision objects refine
      their counterparts on a list of decisions; a decision set is read back.
    - Fencing (FencingSpec, FencingLiveness): a DRCluster reports Fenced
      only once the views of all NetworkFences show them in place, it gets there in two
      reconciles when calls succeed and agents enact the works, and unfencing ends with
      those works gone or being deleted.
    - Maintenance modes (ModesSpec): a mode reads as activated only because its view shows
      it so, and is withdrawn only when no failover needs it.
    - DRClusters (DRClusterSpec): when CIDRs are valid; a DRCluster goes only when no policy
      has it and its works are gone or being deleted, and one asked to be fenced never
      goes.
    - Policies (DRPoliciesSpec): conflicts are found exactly, and validity is reported as
      it is.  Secrets (SecretsSpec, DRPoliciesSpec): propagated secrets are delivered,
      deleting a policy takes none that another needs, as long as names do not collide,
      and a binding lost by an interrupted removal is not restored.
    - Peer classes (PolicyPeersSpec): the computed synchronous and asynchronous peers
      are exactly those the definitions call for, and the status follows them.
    - Network mapping (NetworkMappingSpec): addresses print and parse back, explicit pairs
      are a bijection, subnets translate within 32 bits, a translation is undone by the
      other direction, and the documentation's example where it is not.
    - Recovery (RecoverySpec): when an action may continue after the hub lost its
      state, that adoption keeps VRG specs, that a pause is reported.
    - Status (ProtectedCondition, StatusRefresh, ReconcileSpec): the Protected
      condition exactly characterised, conflicts keep it from being true, a status
      update is stored, when the next one is due.
    - Parts (Conditions, Events, Telemetry, PeerClasses, Names, Meta, Conflicts):
      merging and setting conditions, event suppression, exact action counts, peer
      class stability, name lengths, no lost metadata updates, conflict checks.

    - Reports of a VRG (VRGAggregateSpec, VolRepStatusSpec): a VRG reports Secondary only
      if it and its claims are ready and, in a relocation, protected at its generation; a
      VolumeReplication is accepted exactly if its status shows the state asked for; a claim is protected only when in sync.
    - Claims (VolRepSpec): demoted only when unused, given up only after the
      replication is gone, the reclaim policy restored; the reconciles of a primary and a
      secondary change a shared group only by consensus.
    - Cluster data (ClusterDataSpec): an upload reaches every store, a download
      reads it back through JSON, compression and the pages of a list, a restore has every claim on the cluster; a store whose volumes and
      claims do not match looks empty.
    - Shape (VolInvariant): one entry per claim, one condition per type, through every
      operation of the reconcile.

    - Kubernetes objects (KubeObjectsSpec): a capture spares the one to recover from, which
      advances only with the VRG in every store; failed steps are not reported.
    - Machines (VirtualMachinesSpec): the walk over owners ends when ownership is acyclic,
      and never on a cycle; a machine is deleted only if the claims are a machine's.
    - Deletion of a VRG (VRGReconcileSpec): the finalizer goes only with the stores clean,
      and goes whenever no further reconcile is asked for.
    - Reports of a cluster (ClusterConfigsSpec): a DRClusterConfig that says it was processed
      has exactly the marked classes that were found; a listing that fails empties the
      report, which the hub takes for a cluster without classes.

    ** Bounds and fuel

    Loops are structural recursions over the lists they range over.  Two have bounds that
    are the source's: [RetryOnConflict] makes at most four attempts (client-go's default
    back-off) and [create_pd_loop] tries five names ([MaxPlacementDecisionConflictCount]).
    Three have fuel: [list_pages] (ObjectStores.v), as much as the bucket has keys and one,
    which [ListKeys_run] (ClusterDataSpec.v) shows to be enough for any sizes of pages;
    [expand] (KubeObjects.v), as much as the text is long, of which every
    step takes a character; and [walk_owners] (VirtualMachines.v), whose loop need not end:
    [vme_fuel] is a parameter, running out is a result of its own, and
    [owner_walk_terminates] says how much is enough.

    ** Not modelled

    VolSync's handler (volsync/) and the consistency groups of CephFS (cephfscg/ and their
    two controllers), which drive other operators' objects and are behind an interface
    here; the executors of hooks, which run commands in pods; the list of protected VRGs,
    which only reports; VolSync's secrets.
    Watches and predicates, metrics, logging and start-up are left out: the theorems hold
    for any order of reconciles. *)

From stdpp Require Export base gmap strings list fin_maps.
From stdpp Require Import sorting.

(** ** Record update

    Go assigns struct fields in place ([vrg.Spec.DryRun = false]).  Each record of
    the model declares its eta expansion once; [r <| field := v |>] is then the
    assignment and [r <| field ::= f |>] its functional form. *)

Class Eta (R : Type) := eta_expand : R → R.
Class Setter {R T : Type} (proj : R → T) := upd_field : (T → T) → R → R.
Arguments upd_field {R T} proj {_} _ _ /.

Ltac derive_setter :=
  lazymatch goal with
  | |- @Setter ?R ?T ?proj =>
      let e := constr:(_ : Eta R) in
      let body := eval hnf in e in
      lazymatch eval pattern proj in body with
      | ?k _ =>
          let s := eval cbv beta in (λ (f : T → T), k (λ r, f (proj r))) in
          exact s
      end
  end.

#[global] Hint Extern 0 (Setter _) => derive_setter : typeclass_instances.

Declare Scope record_scope.
Notation "r <| p := v |>" := (upd_field p (λ _, v) r)
  (at level 12, left associativity, p at level 9) : record_scope.
Notation "r <| p ::= f |>" := (upd_field p f r)
  (at level 12, left associativity, p at level 9) : record_scope.
#[global] Open Scope record_scope.
Bind Scope string_scope with string.

(** ** The monad of a Go method

    A method with a mutable receiver is a state transformer.  Go's multiple
    results, its [error] included, are the value: an early [return] keeps every
    state change made before it, which an exception monad would lose. *)

Definition M (W A : Type) : Type := W → A * W.

#[global] Instance M_ret W : MRet (M W) := λ _ a w, (a, w).
#[global] Instance M_bind W : MBind (M W) := λ _ _ f m w, let '(a, w') := m w in f a w'.

Definition gets {W A} (f : W → A) : M W A := λ w, (f w, w).
Definition modify {W} (f : W → W) : M W unit := λ w, ((), f w).

Section monad.
Context {W A B : Type}.

Lemma run_bind (m : M W A) (f : A → M W B) w : (m ≫= f) w = f (m w).1 (m w).2.
Proof. unfold mbind, M_bind. by destruct (m w). Qed.

Lemma run_ret (a : A) (w : W) : mret (M := M W) a w = (a, w).
Proof. done. Qed.
End monad.

(** ** Frames: what a method may change

    [preserves R m] says that [m] moves the state only along [R], a preorder on
    states; such facts compose along a method's body. *)

Definition preserves {W A : Type} (R : relation W) (m : M W A) : Prop :=
  ∀ w, R w (m w).2.

(** ** Hoare triples *)

Definition triple {W A : Type} (P : W → Prop) (m : M W A) (Q : A → W → Prop) : Prop :=
  ∀ w, P w → Q (m w).1 (m w).2.

Section frames.
Context {W : Type} (R : relation W) `{!PreOrder R}.

Lemma preserves_ret {A} (a : A) : preserves R (mret a).
Proof. intros w. simpl. reflexivity. Qed.

Lemma preserves_gets {A} (f : W → A) : preserves R (gets f).
Proof. intros w. simpl. reflexivity. Qed.

Lemma preserves_modify f : (∀ w, R w (f w)) → preserves R (modify f).
Proof. intros H w. apply H. Qed.

Lemma preserves_bind {A B} (m : M W A) (f : A → M W B) :
  preserves R m → (∀ a, preserves R (f a)) → preserves R (m ≫= f).
Proof. intros Hm Hf w. rewrite run_bind. etransitivity; [apply Hm|apply Hf]. Qed.
End frames.

Lemma preserves_mono {W A} (R S : relation W) (m : M W A) :
  (∀ w w', R w w' → S w w') → preserves R m → preserves S m.
Proof. intros HRS Hm w. apply HRS, Hm. Qed.

Section triples.
Context {W : Type}.
Implicit Types P : W → Prop.

Lemma triple_ret {A} (a : A) (Q : A → W → Prop) : triple (Q a) (mret a) Q.
Proof. by intros w. Qed.

Lemma triple_bind {A B} (m : M W A) (f : A → M W B) P (R : A → W → Prop) Q :
  triple P m R → (∀ a, triple (R a) (f a) Q) → triple P (m ≫= f) Q.
Proof. intros Hm Hf w Hw. rewrite run_bind. by apply Hf, Hm. Qed.

Lemma triple_conseq {A} (m : M W A) P P' (Q Q' : A → W → Prop) :
  triple P' m Q' → (∀ w, P w → P' w) → (∀ a w, Q' a w → Q a w) → triple P m Q.
Proof. intros Hm HP HQ w Hw. by apply HQ, Hm, HP. Qed.

Lemma triple_conj {A} (m : M W A) P P' (Q Q' : A → W → Prop) :
  triple P m Q → triple P' m Q' → triple (λ w, P w ∧ P' w) m (λ a w, Q a w ∧ Q' a w).
Proof. intros H1 H2 w [??]. by split; [apply H1|apply H2]. Qed.
End triples.

Create HintDb quiet discriminated.
#[export] Hint Constants Opaque : quiet.

(** ** Lists with at most one element of a kind *)

Section first_index.
Context {A : Type} (P : A → bool).

(** [for i := range l { if P(l[i]) { return &l[i] } }] *)
Fixpoint find_first (l : list A) : option A :=
  match l with
  | [] => None
  | x :: l' => if P x then Some x else find_first l'
  end.

(** The in-place update through the pointer such a loop returns. *)
Fixpoint update_first (f : A → A) (l : list A) : list A :=
  match l with
  | [] => []
  | x :: l' => if P x then f x :: l' else x :: update_first f l'
  end.

Lemma find_first_Some l x : find_first l = Some x → x ∈ l ∧ P x = true.
Proof.
  induction l as [|y l IH]; simpl; [done|].
  destruct (P y) eqn:E; intros H.
  - simplify_eq. set_solver.
  - apply IH in H. set_solver.
Qed.

Lemma find_first_None l : find_first l = None ↔ ∀ x, x ∈ l → P x = false.
Proof.
  induction l as [|y l IH]; simpl; [set_solver|].
  destruct (P y) eqn:E; split; try done.
  - intros H. specialize (H y (list_elem_of_here _ _)). congruence.
  - intros H x [->|Hx]%elem_of_cons; [done|]. by apply IH.
  - intros H. apply IH. set_solver.
Qed.

Lemma find_first_app l1 l2 :
  find_first (l1 ++ l2) = match find_first l1 with Some x => Some x | None => find_first l2 end.
Proof. induction l1 as [|y l1 IH]; simpl; [done|]. by destruct (P y). Qed.

Lemma find_first_update f l :
  (∀ x, P x = true → P (f x) = true) →
  find_first (update_first f l) = f <$> find_first l.
Proof.
  intros Hf. induction l as [|y l IH]; simpl; [done|].
  destruct (P y) eqn:E; simpl; [by rewrite Hf|by rewrite E].
Qed.

Lemma update_first_length f l : length (update_first f l) = length l.
Proof. induction l as [|y l IH]; simpl; [done|]. destruct (P y); simpl; auto. Qed.

Lemma update_first_id f l :
  (∀ x, find_first l = Some x → f x = x) → update_first f l = l.
Proof.
  induction l as [|y l IH]; simpl; [done|].
  destruct (P y) eqn:E; intros H; f_equal; auto.
Qed.

Lemma update_first_none f l : find_first l = None → update_first f l = l.
Proof. intros H. apply update_first_id. congruence. Qed.

Lemma update_first_fmap {B} (g : A → B) f l :
  (∀ x, P x = true → g (f x) = g x) → g <$> update_first f l = g <$> l.
Proof.
  intros Hg. induction l as [|y l IH]; simpl; [done|].
  destruct (P y) eqn:E; simpl; f_equal; auto.
Qed.
End first_index.

Lemma find_first_update_other {A} (P Q : A → bool) f (l : list A) :
  (∀ x, P x = true → Q x = false ∧ Q (f x) = false) →
  find_first Q (update_first P f l) = find_first Q l.
Proof.
  intros H. induction l as [|y l IH]; simpl; [done|].
  destruct (P y) eqn:E; simpl.
  - by destruct (H y E) as [-> ->].
  - by rewrite IH.
Qed.

Lemma find_first_ext {A} (P Q : A → bool) (l : list A) :
  (∀ x, x ∈ l → P x = Q x) → find_first P l = find_first Q l.
Proof.
  induction l as [|y l IH]; simpl; [done|].
  intros H. rewrite (H y) by set_solver. destruct (Q y); [done|]. apply IH. set_solver.
Qed.

Lemma filter_none {A} (P : A → Prop) `{∀ x, Decision (P x)} (l : list A) :
  (∀ x, x ∈ l → ¬ P x) → filter P l = [].
Proof.
  induction l as [|y l IH]; [done|]. intros Hn.
  rewrite filter_cons_False by set_solver. apply IH. set_solver.
Qed.

(** ** Sets of strings *)

(** [sets.String.List]: sorted. *)
Definition string_le (a b : string) : Prop := String.leb a b = true.
#[export] Instance string_le_dec : RelDecision string_le.
Proof. intros a b. unfold string_le. apply _. Defined.
Definition set_List (s : gset string) : list string := merge_sort string_le (elements s).

Lemma elem_of_set_List (s : gset string) x : x ∈ set_List s ↔ x ∈ s.
Proof. unfold set_List. by rewrite merge_sort_Permutation, elem_of_elements. Qed.

(** ** Booleans of decidable comparisons *)

Notation "x =? y" := (bool_decide (x = y)) (at level 70, no associativity) : record_scope.
Notation "x ≠? y" := (negb (bool_decide (x = y))) (at level 70, no associativity) : record_scope.

Lemma bd_true (P : Prop) `{Decision P} : bool_decide P = true ↔ P.
Proof. apply bool_decide_eq_true. Qed.

Lemma bd_false (P : Prop) `{Decision P} : bool_decide P = false ↔ ¬ P.
Proof. apply bool_decide_eq_false. Qed.

Lemma bd_refl {A} `{EqDecision A} (x : A) : bool_decide (x = x) = true.
Proof. by apply bool_decide_eq_true. Qed.

Create Rewrite HintDb bools.
#[export] Hint Rewrite @bd_refl : bools.
#[export] Hint Rewrite andb_true_r andb_false_r orb_true_r orb_false_r : bools.
#[export] Hint Rewrite negb_involutive : bools.

(** Case analysis on the conditions of a branching body. *)
Ltac case_bool :=
  match goal with
  | |- context [bool_decide ?P] => destruct (bool_decide_reflect P)
  | H : context [bool_decide ?P] |- _ => destruct (bool_decide_reflect P)
  end.

(** Turn boolean hypotheses into propositions. *)
Ltac bools :=
  repeat match goal with
  | H : andb _ _ = true |- _ => apply andb_true_iff in H as [??]
  | H : orb _ _ = false |- _ => apply orb_false_iff in H as [??]
  | H : negb _ = true |- _ => apply negb_true_iff in H
  | H : negb _ = false |- _ => apply negb_false_iff in H
  | H : bool_decide _ = true |- _ => apply bool_decide_eq_true in H
  | H : bool_decide _ = false |- _ => apply bool_decide_eq_false in H
  end.

(** Compose frame facts along a method's body. *)
Ltac preserves_step solver :=
  lazymatch goal with
  | |- preserves _ (mret _) => apply preserves_ret; apply _
  | |- preserves _ (gets _) => apply preserves_gets; apply _
  | |- preserves _ (mbind _ _) => first [ solver | apply preserves_bind; [apply _| |intro] ]
  | |- preserves _ (if ?b then _ else _) => destruct b
  | |- preserves _ (match ?x with _ => _ end) => destruct x
  | |- preserves _ (let _ := _ in _) => cbv zeta
  | _ => solver
  end.
Ltac quiet_solver := solve [auto with quiet nocore].
Ltac quiet := repeat preserves_step quiet_solver.
