(* ===== verification/Meta.v ===== *)
(** * Kubernetes object metadata, errors and the map helpers

    The parts of apimachinery the hub code reads and writes — [error] values with
    [%w] wrapping, [metav1.ObjectMeta], [metav1.Condition] — and the label,
    annotation, finalizer and [ResourceUpdater] helpers of
    internal/controller/util/misc.go and objectmeta.go. *)

From S2P Require Import Prelude.

(** ** Errors

    A Go [error] is [option GoError], [nil] being [None].  [Errorf msg w] is the
    error [fmt.Errorf] builds; [w] is the operand of [%w].  apimachinery's
    predicates look through the wrapping.  [AwsError] is an [awserr.Error] of the S3
    client. *)

Inductive StatusReason := ReasonNotFound | ReasonAlreadyExists | ReasonConflict | ReasonOther.
#[export] Instance StatusReason_eq : EqDecision StatusReason.
Proof. solve_decision. Defined.

Inductive GoError :=
  | StatusError (reason : StatusReason) (msg : string)
  | AwsError (code msg : string)
  | Errorf (msg : string) (wrapped : option GoError).

Definition error_text (e : GoError) : string :=
  match e with StatusError _ m => m | AwsError c m => c +:+ ": " +:+ m | Errorf m _ => m end.

Fixpoint reason_of (e : GoError) : option StatusReason :=
  match e with
  | StatusError r _ => Some r
  | AwsError _ _ => None
  | Errorf _ (Some e') => reason_of e'
  | Errorf _ None => None
  end.

Definition IsNotFound (e : GoError) : bool := bool_decide (reason_of e = Some ReasonNotFound).
Definition IsAlreadyExists (e : GoError) : bool :=
  bool_decide (reason_of e = Some ReasonAlreadyExists).

(** [fmt.Errorf(msg)], [fmt.Errorf("... %w", ...)]. *)
Definition errorf (msg : string) : option GoError := Some (Errorf msg None).
Definition wrapf (msg : string) (e : GoError) : option GoError := Some (Errorf msg (Some e)).

(** [if err := m(); err != nil { return r }], and the same for a call with a result. *)
Definition or_return {W A} (m : M W (option GoError)) (r : GoError → M W A) (k : M W A) : M W A :=
  err ← m; match err with Some e => r e | None => k end.
Definition result_or_return {W A B} (m : M W (B + GoError)) (r : GoError → M W A) (k : B → M W A) : M W A :=
  res ← m; match res with inl b => k b | inr e => r e end.

Notation "'err?' m 'then' e => r ; k" := (or_return m (λ e, r) k)
  (at level 100, m at level 99, e name, r at level 99, k at level 200, right associativity) : record_scope.
Notation "'get?' x := m 'then' e => r ; k" := (result_or_return m (λ e, r) (λ x, k))
  (at level 100, x name, m at level 99, e name, r at level 99, k at level 200, right associativity) : record_scope.

Lemma or_return_run {W A} (m : M W (option GoError)) (r : GoError → M W A) k w :
  or_return m r k w = match (m w).1 with Some e => r e (m w).2 | None => k (m w).2 end.
Proof. unfold or_return. rewrite run_bind. by destruct (m w).1. Qed.

Lemma result_or_return_run {W A B} (m : M W (B + GoError)) (r : GoError → M W A) k w :
  result_or_return m r k w = match (m w).1 with inl b => k b (m w).2 | inr e => r e (m w).2 end.
Proof. unfold result_or_return. rewrite run_bind. by destruct (m w).1. Qed.

Lemma preserves_or_return {W A} (R : relation W) `{!PreOrder R} (m : M W (option GoError)) (r : GoError → M W A) k :
  preserves R m → (∀ e, preserves R (r e)) → preserves R k → preserves R (or_return m r k).
Proof. intros Hm Hr Hk w. rewrite or_return_run. etransitivity; [apply Hm|]. destruct (m w).1; [apply Hr|apply Hk]. Qed.

Lemma preserves_result_or_return {W A B} (R : relation W) `{!PreOrder R} (m : M W (B + GoError))
    (r : GoError → M W A) k :
  preserves R m → (∀ e, preserves R (r e)) → (∀ b, preserves R (k b)) → preserves R (result_or_return m r k).
Proof. intros Hm Hr Hk w. rewrite result_or_return_run. etransitivity; [apply Hm|]. destruct (m w).1; [apply Hk|apply Hr]. Qed.

(** Frame facts along a body with early returns; [solver] has those of the calls. *)
Ltac frame_step solver :=
  lazymatch goal with
  | |- preserves _ (or_return _ _ _) => first [solver | apply preserves_or_return; [apply _| |intro|]]
  | |- preserves _ (result_or_return _ _ _) => first [solver | apply preserves_result_or_return; [apply _| |intro|intro]]
  | _ => preserves_step solver
  end.

Lemma IsNotFound_wrap m e : IsNotFound (Errorf m (Some e)) = IsNotFound e.
Proof. done. Qed.

(** ** Conditions *)

Inductive ConditionStatus := ConditionTrue | ConditionFalse | ConditionUnknown | ConditionUnset.
#[export] Instance ConditionStatus_eq : EqDecision ConditionStatus.
Proof. solve_decision. Defined.

Record Condition := mkCondition {
  cond_Type : string;
  cond_Status : ConditionStatus;
  cond_ObservedGeneration : Z;
  cond_LastTransitionTime : Z;
  cond_Reason : string;
  cond_Message : string;
}.
#[export] Instance eta_Condition : Eta Condition := λ c,
  mkCondition (cond_Type c) (cond_Status c) (cond_ObservedGeneration c)
    (cond_LastTransitionTime c) (cond_Reason c) (cond_Message c).
#[export] Instance Condition_eq : EqDecision Condition.
Proof. solve_decision. Defined.

(** [metav1.Condition{}] *)
Definition zero_condition : Condition := mkCondition "" ConditionUnset 0 0 "" "".

(** ** Object metadata

    A nil Go map and an empty one are read alike by all the code below, so both
    are the empty [gmap]. *)

(** metav1.OwnerReference, as far as the controller looks at it. *)
Record OwnerReference := mkOwnerReference {
  or_APIVersion : string;
  or_Kind : string;
  or_Name : string;
  or_UID : string;
  or_Controller : bool;
}.
#[export] Instance OwnerReference_eq : EqDecision OwnerReference.
Proof. solve_decision. Defined.

Record ObjectMeta := mkObjectMeta {
  om_Name : string;
  om_Namespace : string;
  om_UID : string;
  om_ResourceVersion : string;
  om_Generation : Z;
  om_CreationTimestamp : Z;
  om_DeletionTimestamp : option Z;
  om_Labels : gmap string string;
  om_Annotations : gmap string string;
  om_OwnerReferences : list OwnerReference;
  om_Finalizers : list string;
}.
#[export] Instance eta_ObjectMeta : Eta ObjectMeta := λ m,
  mkObjectMeta (om_Name m) (om_Namespace m) (om_UID m) (om_ResourceVersion m)
    (om_Generation m) (om_CreationTimestamp m) (om_DeletionTimestamp m) (om_Labels m) (om_Annotations m)
    (om_OwnerReferences m) (om_Finalizers m).
#[export] Instance ObjectMeta_eq : EqDecision ObjectMeta.
Proof. solve_decision. Defined.

(** corev1's. *)
Record ConfigMap := mkConfigMap { cfm_Meta : ObjectMeta; cfm_Data : gmap string string }.
#[export] Instance eta_ConfigMap : Eta ConfigMap := λ x, mkConfigMap (cfm_Meta x) (cfm_Data x).

Definition zero_meta : ObjectMeta := mkObjectMeta "" "" "" "" 0 0 None ∅ ∅ [] [].
Definition named_meta (name namespace : string) : ObjectMeta :=
  zero_meta <| om_Name := name |> <| om_Namespace := namespace |>.

(** Reading a missing key of a Go map yields the zero value. *)
Definition map_get (m : gmap string string) (k : string) : string := default "" (m !! k).

Definition ResourceIsDeleted (m : ObjectMeta) : bool := bool_decide (om_DeletionTimestamp m ≠ None).

(** ** Labels and annotations (util/misc.go) *)

Definition AddLabel (obj : ObjectMeta) (key value : string) : bool * ObjectMeta :=
  if bool_decide (om_Labels obj !! key = Some value)
  then (false, obj)
  else (true, obj <| om_Labels ::= <[key := value]> |>).

Definition HasLabel (obj : ObjectMeta) (key : string) : bool :=
  bool_decide (is_Some (om_Labels obj !! key)).

Definition HasLabelWithValue (obj : ObjectMeta) (key value : string) : bool :=
  bool_decide (om_Labels obj !! key = Some value).

Definition HasAnnotation (obj : ObjectMeta) (key : string) : bool :=
  bool_decide (is_Some (om_Annotations obj !! key)).

Definition RemoveLabel (obj : ObjectMeta) (key : string) (value : option string)
    : bool * ObjectMeta :=
  let present := match value with
                 | None => HasLabel obj key
                 | Some v => HasLabelWithValue obj key v
                 end in
  if negb present then (false, obj) else (true, obj <| om_Labels ::= delete key |>).

Definition UpdateLabel (obj : ObjectMeta) (key newValue : string) : bool * ObjectMeta :=
  match om_Labels obj !! key with
  | Some currValue =>
      if bool_decide (currValue ≠ newValue)
      then (true, obj <| om_Labels ::= <[key := newValue]> |>)
      else (false, obj)
  | None => (false, obj)
  end.

Definition AddAnnotation (obj : ObjectMeta) (key value : string) : bool * ObjectMeta :=
  if bool_decide (om_Annotations obj !! key = Some value)
  then (false, obj)
  else (true, obj <| om_Annotations ::= <[key := value]> |>).

(** controllerutil's [ContainsFinalizer] and [AddFinalizer] are list membership and append. *)
Definition AddFinalizer (obj : ObjectMeta) (finalizer : string) : bool * ObjectMeta :=
  if bool_decide (finalizer ∈ om_Finalizers obj)
  then (false, obj)
  else (true, obj <| om_Finalizers ::= λ l, l ++ [finalizer] |>).

Definition RemoveOwnerReference (obj : ObjectMeta) : bool * ObjectMeta :=
  if bool_decide (length (om_OwnerReferences obj) < 1)
  then (false, obj)
  else (true, obj <| om_OwnerReferences := [] |>).

Definition RemoveFinalizer (obj : ObjectMeta) (finalizer : string) : ObjectMeta :=
  obj <| om_Finalizers ::= List.filter (λ f, negb (bool_decide (f = finalizer))) |>.

Definition ContainsFinalizer (obj : ObjectMeta) (finalizer : string) : bool :=
  bool_decide (finalizer ∈ om_Finalizers obj).

(** The API version and the kind that the scheme has for an object. *)
Abbreviation GVK := (string * string)%type.

(** controllerutil's [SetControllerReference]: no owner across namespaces, no second
    controller.  References are of one object if kind and name are the same; the versions
    of a group that the source uses are one each. *)
Definition SetControllerReference (gvk : GVK) (owner obj : ObjectMeta) : ObjectMeta + GoError :=
  let same := λ r, bool_decide (or_APIVersion r = gvk.1) && bool_decide (or_Kind r = gvk.2) &&
                   bool_decide (or_Name r = om_Name owner) in
  if bool_decide (om_Namespace owner ≠ "") && bool_decide (om_Namespace owner ≠ om_Namespace obj)
  then inr (Errorf "cross-namespace owner references are disallowed" None)
  else if existsb (λ r, or_Controller r && negb (same r)) (om_OwnerReferences obj)
  then inr (Errorf ("Object " +:+ om_Name obj +:+ " is already owned by another controller") None)
  else
    let ref := mkOwnerReference gvk.1 gvk.2 (om_Name owner) (om_UID owner) true in
    inl (obj <| om_OwnerReferences ::= λ l, if existsb same l then update_first same (λ _, ref) l else l ++ [ref] |>).

(** ** Owners (util/labels.go, util/maps.go)

    The owner of an object in another namespace is recorded in two labels. *)

Definition LabelOwnerNamespaceName : string := "ramendr.openshift.io/owner-namespace-name".
Definition LabelOwnerName : string := "ramendr.openshift.io/owner-name".

Definition OwnerLabels (owner : ObjectMeta) : gmap string string :=
  <[LabelOwnerNamespaceName := om_Namespace owner]> {[LabelOwnerName := om_Name owner]}.

Definition OwnerNamespaceNameAndName (labels : gmap string string) : string * string * bool :=
  (map_get labels LabelOwnerNamespaceName, map_get labels LabelOwnerName,
   bool_decide (is_Some (labels !! LabelOwnerNamespaceName)) && bool_decide (is_Some (labels !! LabelOwnerName))).

Definition OwnerNamespacedName (owner : ObjectMeta) : string * string :=
  (OwnerNamespaceNameAndName (om_Labels owner)).1.

Inductive Comparison := Different | Same | Absent.
#[export] Instance Comparison_eq : EqDecision Comparison.
Proof. solve_decision. Defined.

(** A loop over a map that looks for a difference finds it in any order. *)
Definition MapInsertOnlyAll (src dst : gmap string string) : Comparison * gmap string string :=
  if bool_decide (map_Forall (λ k v, dst !! k = None ∨ dst !! k = Some v) src) then
    if bool_decide (map_Forall (λ k v, dst !! k = Some v) src) then (Same, dst) else (Absent, src ∪ dst)
  else (Different, dst).

(** The keys whose value is the given one, or that are absent, are deleted and reported;
    nothing is for a nil map. *)
Definition MapDelete (src dst : gmap string string) : bool * gmap string string :=
  if bool_decide (dst = ∅) then (false, dst)
  else (bool_decide (map_Exists (λ k v, dst !! k = None ∨ dst !! k = Some v) src),
        filter (λ kv, src !! kv.1 ≠ Some kv.2) dst).

Definition ObjectOwnerSetIfNotAlready (object owner : ObjectMeta) : Comparison * ObjectMeta :=
  let r := MapInsertOnlyAll (OwnerLabels owner) (om_Labels object) in
  (r.1, object <| om_Labels := r.2 |>).

Definition ObjectOwnerUnsetIfSet (object owner : ObjectMeta) : bool * ObjectMeta :=
  let r := MapDelete (OwnerLabels owner) (om_Labels object) in
  (r.1, object <| om_Labels := r.2 |>).

(** [DeleteKey] reports whether the length of the map changed. *)
Definition DeleteKey (keys : gmap string string) (key : string) : bool * gmap string string :=
  let keys' := delete key keys in
  (bool_decide (size keys ≠ size keys'), keys').

Definition UpdateStringMap (dst src : gmap string string) : gmap string string :=
  map_fold (λ k v acc, <[k := v]> acc) dst src.

Definition OptionalEqual (a b : string) : bool :=
  bool_decide (a = "") || bool_decide (b = "") || bool_decide (a = b).

(** ** ResourceUpdater (util/misc.go): a builder that remembers whether it changed anything *)

Record ResourceUpdater := mkResourceUpdater {
  ru_obj : ObjectMeta;
  ru_objModified : bool;
  ru_err : option GoError;
}.
#[export] Instance eta_ResourceUpdater : Eta ResourceUpdater := λ u,
  mkResourceUpdater (ru_obj u) (ru_objModified u) (ru_err u).

Definition NewResourceUpdater (obj : ObjectMeta) : ResourceUpdater :=
  mkResourceUpdater obj false None.

Definition ru_record (u : ResourceUpdater) (r : bool * ObjectMeta) : ResourceUpdater :=
  u <| ru_obj := r.2 |> <| ru_objModified := ru_objModified u || r.1 |>.

Definition ru_AddLabel (u : ResourceUpdater) (key value : string) : ResourceUpdater :=
  ru_record u (AddLabel (ru_obj u) key value).

Definition ru_DeleteLabel (u : ResourceUpdater) (key : string) : ResourceUpdater :=
  let '(deleted, labels) := DeleteKey (om_Labels (ru_obj u)) key in
  if negb deleted then u
  else ru_record u (deleted, ru_obj u <| om_Labels := labels |>).

Definition ru_AddAnnotation (u : ResourceUpdater) (key value : string) : ResourceUpdater :=
  ru_record u (AddAnnotation (ru_obj u) key value).

Definition ru_DeleteAnnotation (u : ResourceUpdater) (key : string) : ResourceUpdater :=
  let '(deleted, annotations) := DeleteKey (om_Annotations (ru_obj u)) key in
  if negb deleted then u
  else ru_record u (deleted, ru_obj u <| om_Annotations := annotations |>).

Definition ru_AddFinalizer (u : ResourceUpdater) (finalizerName : string) : ResourceUpdater :=
  ru_record u (AddFinalizer (ru_obj u) finalizerName).

(** [RemoveOwnerReference] never errs, so [u.err] is left alone. *)
Definition ru_RemoveOwner (u : ResourceUpdater) : ResourceUpdater :=
  ru_record u (RemoveOwnerReference (ru_obj u)).

(** controllerutil's [RemoveFinalizer] drops every occurrence and reports a change in length. *)
Definition ru_RemoveFinalizer (u : ResourceUpdater) (finalizerName : string) : ResourceUpdater :=
  let fs := filter (.≠ finalizerName) (om_Finalizers (ru_obj u)) in
  ru_record u (bool_decide (length fs ≠ length (om_Finalizers (ru_obj u))),
               ru_obj u <| om_Finalizers := fs |>).

(** [Update]: [write] is the client's [Update], called only on a change. *)
Definition ru_Update (u : ResourceUpdater) (write : ObjectMeta → option GoError) : option GoError :=
  match ru_err u with
  | Some e => Some e
  | None => if ru_objModified u then write (ru_obj u) else None
  end.

(** ** Lemmas *)

Lemma AddAnnotation_lookup obj k v :
  om_Annotations (AddAnnotation obj k v).2 = <[k := v]> (om_Annotations obj).
Proof.
  unfold AddAnnotation. case_bool_decide as E; [|done]. simpl. by rewrite insert_id.
Qed.

Lemma AddAnnotation_false obj k v :
  (AddAnnotation obj k v).1 = false ↔ om_Annotations obj !! k = Some v.
Proof. unfold AddAnnotation. case_bool_decide; simpl; naive_solver. Qed.

Lemma AddLabel_lookup obj k v :
  om_Labels (AddLabel obj k v).2 = <[k := v]> (om_Labels obj).
Proof. unfold AddLabel. case_bool_decide as E; [|done]. simpl. by rewrite insert_id. Qed.

Lemma DeleteKey_reports m k : (DeleteKey m k).1 = true ↔ is_Some (m !! k).
Proof.
  unfold DeleteKey; simpl. rewrite bool_decide_eq_true.
  destruct (m !! k) eqn:E.
  - split; [by eauto|]. intros _. rewrite map_size_delete, E.
    assert (size m ≠ 0) by (intros H0%map_size_empty_inv; set_solver). lia.
  - rewrite delete_id by done. split; [done|]. intros [? ?]; congruence.
Qed.

(** A builder that changed nothing holds the object it was given. *)
Definition ru_faithful (orig : ObjectMeta) (u : ResourceUpdater) : Prop :=
  ru_objModified u = false → ru_obj u = orig.

Lemma ru_record_faithful orig u r :
  ru_faithful orig u → (r.1 = false → r.2 = ru_obj u) → ru_faithful orig (ru_record u r).
Proof.
  intros Hu Hr. unfold ru_faithful; simpl. intros [H1 H2]%orb_false_iff.
  rewrite Hr by done. by apply Hu.
Qed.

(** ** Chains of builder calls

    The controllers use a [ResourceUpdater] as a chain of calls ended by
    [Update]; a chain is a list of operations applied in order. *)

Inductive ru_op :=
  | OpAddLabel (key value : string)
  | OpDeleteLabel (key : string)
  | OpAddAnnotation (key value : string)
  | OpDeleteAnnotation (key : string)
  | OpAddFinalizer (name : string)
  | OpRemoveFinalizer (name : string)
  | OpRemoveOwner.

Definition ru_apply (u : ResourceUpdater) (op : ru_op) : ResourceUpdater :=
  match op with
  | OpAddLabel k v => ru_AddLabel u k v
  | OpDeleteLabel k => ru_DeleteLabel u k
  | OpAddAnnotation k v => ru_AddAnnotation u k v
  | OpDeleteAnnotation k => ru_DeleteAnnotation u k
  | OpAddFinalizer n => ru_AddFinalizer u n
  | OpRemoveFinalizer n => ru_RemoveFinalizer u n
  | OpRemoveOwner => ru_RemoveOwner u
  end.

Definition ru_chain (obj : ObjectMeta) (ops : list ru_op) : ResourceUpdater :=
  foldl ru_apply (NewResourceUpdater obj) ops.

Lemma filter_same_length {A} (P : A → Prop) `{∀ x, Decision (P x)} (l : list A) :
  length (filter P l) = length l → filter P l = l.
Proof.
  induction l as [|x l IH]; [done|]. rewrite filter_cons.
  case_decide; simpl; intros E.
  - f_equal. apply IH. lia.
  - pose proof (length_filter P l). lia.
Qed.

Lemma ru_apply_faithful orig u op : ru_faithful orig u → ru_faithful orig (ru_apply u op).
Proof.
  intros Hu. destruct op; simpl;
    [| unfold ru_DeleteLabel; destruct (DeleteKey _ _) as [[] ?]; simpl; [|done]
     | | unfold ru_DeleteAnnotation; destruct (DeleteKey _ _) as [[] ?]; simpl; [|done] | | |];
    (apply ru_record_faithful; [done|]); try done.
  - unfold AddLabel. by case_bool_decide.
  - unfold AddAnnotation. by case_bool_decide.
  - unfold AddFinalizer. by case_bool_decide.
  - simpl. rewrite bool_decide_eq_false. intros E%dec_stable%filter_same_length.
    rewrite E. by destruct (ru_obj u).
  - unfold RemoveOwnerReference. by case_bool_decide.
Qed.

Lemma ru_chain_err obj ops : ru_err (ru_chain obj ops) = None.
Proof.
  unfold ru_chain. change None with (ru_err (NewResourceUpdater obj)).
  generalize (NewResourceUpdater obj). induction ops as [|op ops IH]; intros u; [done|].
  simpl. rewrite IH. destruct op; simpl; try done.
  - unfold ru_DeleteLabel. by destruct (DeleteKey _ _) as [[] ?].
  - unfold ru_DeleteAnnotation. by destruct (DeleteKey _ _) as [[] ?].
Qed.

Lemma ru_chain_faithful obj ops : ru_faithful obj (ru_chain obj ops).
Proof.
  unfold ru_chain. assert (H : ru_faithful obj (NewResourceUpdater obj)) by done.
  revert H. generalize (NewResourceUpdater obj).
  induction ops as [|op ops IH]; intros u Hu; [done|]. by apply IH, ru_apply_faithful.
Qed.

(** A chain of builder calls on a resource never loses a change and never writes
    without one: ending it with [Update] either writes exactly the object the chain
    built and returns the write's error, or the chain left the resource as it was and
    nothing is written. *)
Theorem resource_updater_writes_changes obj ops write :
  let u := ru_chain obj ops in
  (ru_Update u write = write (ru_obj u)) ∨ (ru_obj u = obj ∧ ∀ write', ru_Update u write' = None).
Proof.
  cbv zeta. unfold ru_Update. rewrite ru_chain_err.
  destruct (ru_objModified (ru_chain obj ops)) eqn:E; [by left|right]. split; [|done].
  by apply ru_chain_faithful.
Qed.
