(* ===== verification/Names.v ===== *)
(** * Resource names and their length limits

    The name builders of internal/controller/util/misc.go and mw_util.go.
    Kubernetes names and label values are at most 63 characters; the builders
    below trim, shorten with a CRC-32, or hash to stay within it.  CRC-32 and the
    [%08x] verb are Go's standard library ([hash/crc32], [fmt]) and are defined
    here so that names can be computed. *)

From Stdlib Require Import ZArith.
From S2P Require Import Prelude.
#[local] Open Scope Z_scope.

(** ** hash/crc32: the IEEE polynomial, reflected *)

Definition crc32_step (crc : Z) : Z :=
  if Z.testbit crc 0 then Z.lxor (Z.shiftr crc 1) 0xEDB88320 else Z.shiftr crc 1.

Definition crc32_byte (crc : Z) (b : Z) : Z :=
  Nat.iter 8 crc32_step (Z.lxor crc b).

Fixpoint crc32_update (crc : Z) (s : string) : Z :=
  match s with
  | EmptyString => crc
  | String c s' => crc32_update (crc32_byte crc (Z.of_N (Ascii.N_of_ascii c))) s'
  end.

Definition ChecksumIEEE (s : string) : Z :=
  Z.lxor (crc32_update 0xFFFFFFFF s) 0xFFFFFFFF.

(** ** fmt's [%08x] *)

Definition hex_digit (d : Z) : Ascii.ascii :=
  Ascii.ascii_of_N (Z.to_N (if d <? 10 then 48 + d else 87 + d)).

Fixpoint hex_digits (n : nat) (z : Z) : string :=
  match n with
  | O => ""
  | S n' => (hex_digits n' (Z.shiftr z 4)) +:+ String (hex_digit (Z.land z 15)) ""
  end.

(** [%08x] of a [uint32]: eight digits always suffice. *)
Definition fmt_08x (z : Z) : string := hex_digits 8 z.

Definition GetHashedName (name : string) : string := fmt_08x (ChecksumIEEE name).

(** ** strings *)

Definition slen (s : string) : Z := Z.of_nat (String.length s).

(** [s[:n]] for [n] within the string. *)
Definition prefix_of (n : nat) (s : string) : string := String.substring 0 n s.

Definition rev_string (s : string) : string :=
  String.string_of_list_ascii (rev (String.list_ascii_of_string s)).

Fixpoint trim_left (cut : list Ascii.ascii) (l : list Ascii.ascii) : list Ascii.ascii :=
  match l with
  | [] => []
  | c :: l' => if bool_decide (c ∈ cut) then trim_left cut l' else l
  end.

(** [strings.TrimRight(s, cutset)] *)
Definition TrimRight (s cutset : string) : string :=
  String.string_of_list_ascii
    (rev (trim_left (String.list_ascii_of_string cutset) (rev (String.list_ascii_of_string s)))).

Definition lower_ascii (c : Ascii.ascii) : Ascii.ascii :=
  let n := Ascii.N_of_ascii c in
  if (65 <=? n)%N && (n <=? 90)%N then Ascii.ascii_of_N (n + 32)%N else c.

(** [strings.ToLower] on ASCII text. *)
Definition ToLower (s : string) : string :=
  String.string_of_list_ascii (lower_ascii <$> String.list_ascii_of_string s).

(** ** util/misc.go *)

Definition MaxK8sLabelLength : Z := 63.
Definition MaxK8sNameLength : Z := 63.

Definition TrimToK8sResourceNameLength (name : string) : string :=
  let maxLength := 63%nat in
  if bool_decide (Z.of_nat maxLength < slen name)
  then TrimRight (prefix_of maxLength name) "-."
  else name.

Definition CreateVGRName (pfx suffix : string) : string :=
  TrimToK8sResourceNameLength ("vgr-" +:+ ToLower pfx +:+ "-" +:+ ToLower suffix).

Definition GlobalVGRName (groupReplicationID : string) : string :=
  TrimToK8sResourceNameLength ("global-" +:+ ToLower groupReplicationID).

Definition getShortenedResourceName (namePrefix ownerName : string) (maxLength : Z) : string :=
  let name := namePrefix +:+ ownerName in
  if bool_decide (maxLength < slen name) then namePrefix +:+ GetHashedName ownerName else name.

Definition GetJobName (namePrefix ownerName : string) : string :=
  getShortenedResourceName namePrefix ownerName MaxK8sNameLength.

Definition GetServiceName (namePrefix ownerName : string) : string :=
  getShortenedResourceName namePrefix ownerName MaxK8sNameLength.

Definition GenerateCombinedName (name storageID : string) : string :=
  let labelSeparator := "-" in
  let combined := name +:+ labelSeparator +:+ storageID in
  if bool_decide (slen combined <= MaxK8sLabelLength) then combined
  else
    let maxNameLength := MaxK8sLabelLength - slen storageID - slen labelSeparator in
    let nameHash := GetHashedName name in
    if bool_decide (maxNameLength <= 0)
    then nameHash +:+ labelSeparator +:+ GetHashedName storageID
    else nameHash +:+ labelSeparator +:+ storageID.

Definition GetReplicationDestinationName (pvcName : string) : string := pvcName.
Definition GetLocalReplicationName (pvcName : string) : string := pvcName +:+ "-local".

Definition GetLocalServiceNameForRD (rdName : string) : string :=
  GetServiceName "volsync-rsync-tls-dst-" rdName.

Definition getLocalServiceNameForRDFromPVCName (pvcName : string) : string :=
  GetLocalServiceNameForRD (GetReplicationDestinationName pvcName).

Definition GetRemoteServiceNameForRDFromPVCName (pvcName rdNamespace : string) : string :=
  getLocalServiceNameForRDFromPVCName pvcName +:+ "." +:+ rdNamespace +:+ ".svc.clusterset.local".

Definition GetLocalServiceNameForDiffRD (rdName : string) : string :=
  GetServiceName "ceph-volsync-dst-" rdName.

Definition GetRemoteServiceNameForDiffRDFromPVCName (pvcName rdNamespace : string) : string :=
  GetLocalServiceNameForDiffRD (GetReplicationDestinationName pvcName)
    +:+ "." +:+ rdNamespace +:+ ".svc.clusterset.local".

(** ** ManifestWork names (util/mw_util.go) *)

Definition MWTypeVRG : string := "vrg".
Definition MWTypeNS : string := "ns".
Definition MWTypeRecipe : string := "recipe".
Definition MWTypeDRCConfig : string := "drcconfig".
Definition MWTypeNF : string := "nf".
Definition MWTypeMMode : string := "mmode".
Definition MWTypeSClass : string := "sc".
Definition MWTypeNFClass : string := "nfc".
Definition MWTypeVSClass : string := "vsc".
Definition MWTypeVGSClass : string := "vgsc".
Definition MWTypeVRClass : string := "vrc".
Definition MWTypeVGRClass : string := "vgrc".

Definition ManifestWorkName (name namespace mwType : string) : string :=
  name +:+ "-" +:+ namespace +:+ "-" +:+ mwType +:+ "-mw".

Definition BuildManifestWorkName (instName targetNamespace mwType : string) : string :=
  if bool_decide (mwType = MWTypeDRCConfig)
  then MWTypeDRCConfig +:+ "-mw"
  else ManifestWorkName instName targetNamespace mwType.

(** ** Lengths *)

Lemma length_string_app s t : String.length (s +:+ t) = (String.length s + String.length t)%nat.
Proof. induction s as [|c s IH]; simpl; [done|]. f_equal. exact IH. Qed.

Lemma slen_app s t : slen (s +:+ t) = slen s + slen t.
Proof. unfold slen. rewrite length_string_app. lia. Qed.

Lemma hex_digits_length n z : String.length (hex_digits n z) = n.
Proof.
  revert z. induction n as [|n IH]; intros z; simpl; [done|].
  rewrite length_string_app, IH. simpl. lia.
Qed.

Lemma GetHashedName_length name : slen (GetHashedName name) = 8.
Proof. unfold slen, GetHashedName, fmt_08x. by rewrite hex_digits_length. Qed.

Lemma length_string_of_list l : String.length (String.string_of_list_ascii l) = length l.
Proof. induction l; simpl; auto. Qed.

Lemma length_list_of_string s : length (String.list_ascii_of_string s) = String.length s.
Proof. induction s; simpl; auto. Qed.

Lemma trim_left_suffix cut l : ∃ k, l = k ++ trim_left cut l.
Proof.
  induction l as [|c l [k IH]]; simpl; [by exists []|].
  case_bool_decide; [|by exists []]. exists (c :: k). simpl. by f_equal.
Qed.

Lemma TrimRight_length s cut : (String.length (TrimRight s cut) ≤ String.length s)%nat.
Proof.
  unfold TrimRight. rewrite length_string_of_list, length_rev.
  destruct (trim_left_suffix (String.list_ascii_of_string cut)
              (rev (String.list_ascii_of_string s))) as [k Hk].
  apply (f_equal length) in Hk.
  rewrite length_rev, length_app, length_list_of_string in Hk. lia.
Qed.

Lemma trim_left_head cut l c l' : trim_left cut l = c :: l' → c ∉ cut.
Proof.
  induction l as [|d l IH]; simpl; [done|]. case_bool_decide; [done|]. congruence.
Qed.

Lemma substring_length n s : (String.length (prefix_of n s) ≤ n)%nat.
Proof.
  unfold prefix_of. revert n. induction s as [|c s IH]; intros [|n]; simpl; try lia.
  specialize (IH n). lia.
Qed.

Create HintDb names discriminated.
#[export] Hint Resolve GetHashedName_length TrimRight_length substring_length : names.

(** CRC-32's check value: the implementation computes the standard's. *)
Example crc32_check : GetHashedName "123456789" = "cbf43926".
Proof. vm_compute. reflexivity. Qed.

(** ** Suffixes: names of different ManifestWork types never collide *)

Lemma string_app_assoc (s t u : string) : (s +:+ t) +:+ u = s +:+ (t +:+ u).
Proof. induction s as [|c s IH]; [done|]. exact (f_equal (String c) IH). Qed.

Lemma string_app_cons c (s t : string) : String c s +:+ t = String c (s +:+ t).
Proof. done. Qed.

Lemma string_app_inj_len (s s' t t' : string) :
  s +:+ t = s' +:+ t' → String.length t = String.length t' → t = t'.
Proof.
  revert s'. induction s as [|c s IH]; intros [|c' s'] E Hl.
  - exact E.
  - change ("" +:+ t) with t in E. rewrite E, length_string_app in Hl. simpl in Hl. lia.
  - change ("" +:+ t') with t' in E. rewrite <- E, length_string_app in Hl. simpl in Hl. lia.
  - rewrite !string_app_cons in E. simplify_eq. eauto.
Qed.

Lemma string_app_inj_r (s s' t : string) : s +:+ t = s' +:+ t → s = s'.
Proof.
  revert s'. induction s as [|c s IH]; intros [|c' s'] E; [done| | |].
  - apply (f_equal String.length) in E. rewrite !length_string_app in E. simpl in E. lia.
  - apply (f_equal String.length) in E. rewrite !length_string_app in E. simpl in E. lia.
  - rewrite !string_app_cons in E. injection E as -> E. f_equal. by apply IH.
Qed.

Lemma string_app_last (s s' t t' : string) n :
  s +:+ t = s' +:+ t' → String.length t = n → String.length t' = n → t = t'.
Proof. intros E H1 H2. eapply string_app_inj_len; [exact E|congruence]. Qed.

Lemma mw_name_vrg_ns n ns n' ns' :
  ManifestWorkName n ns MWTypeVRG ≠ ManifestWorkName n' ns' MWTypeNS.
Proof.
  unfold ManifestWorkName, MWTypeVRG, MWTypeNS. intros E.
  assert (n +:+ "-" +:+ ns +:+ "-" +:+ "vrg" +:+ "-mw" = (n +:+ "-" +:+ ns +:+ "-vr") +:+ "g-mw")
    as E1 by by rewrite !string_app_assoc.
  assert (n' +:+ "-" +:+ ns' +:+ "-" +:+ "ns" +:+ "-mw" = (n' +:+ "-" +:+ ns' +:+ "-n") +:+ "s-mw")
    as E2 by by rewrite !string_app_assoc.
  rewrite E1, E2 in E. by apply (string_app_last _ _ _ _ 4) in E.
Qed.

Lemma mw_name_vrg_recipe n ns n' ns' :
  ManifestWorkName n ns MWTypeVRG ≠ ManifestWorkName n' ns' MWTypeRecipe.
Proof.
  unfold ManifestWorkName, MWTypeVRG, MWTypeRecipe. intros E.
  assert (n +:+ "-" +:+ ns +:+ "-" +:+ "vrg" +:+ "-mw" = (n +:+ "-" +:+ ns +:+ "-vr") +:+ "g-mw")
    as E1 by by rewrite !string_app_assoc.
  assert (n' +:+ "-" +:+ ns' +:+ "-" +:+ "recipe" +:+ "-mw"
          = (n' +:+ "-" +:+ ns' +:+ "-recip") +:+ "e-mw")
    as E2 by by rewrite !string_app_assoc.
  rewrite E1, E2 in E. by apply (string_app_last _ _ _ _ 4) in E.
Qed.

(** ** The length limit *)

Lemma trim_bound name : slen (TrimToK8sResourceNameLength name) <= 63.
Proof.
  unfold TrimToK8sResourceNameLength. case_bool_decide as E; [|unfold slen in *; lia].
  unfold slen. pose proof (TrimRight_length (prefix_of 63 name) "-.").
  pose proof (substring_length 63 name). lia.
Qed.

(** the lengths of generated names: a trimmed name and the VolumeGroupReplication
    names have at most 63 characters; a name combined with a storage ID stays within
    the label limit exactly if it needs no shortening, or the storage ID has at most 54
    characters, or at least 62 (then it is hashed as well).  Storage IDs of 55 to 61
    characters break the limit. *)
Theorem generated_names_bounded name sid pfx sfx :
  slen (TrimToK8sResourceNameLength name) <= 63 ∧ slen (CreateVGRName pfx sfx) <= 63 ∧
  slen (GlobalVGRName sid) <= 63 ∧
  (slen (GenerateCombinedName name sid) <= MaxK8sLabelLength ↔
   slen name + 1 + slen sid <= MaxK8sLabelLength ∨ slen sid <= 54 ∨ 62 <= slen sid).
Proof.
  split_and!; [apply trim_bound..|]. unfold GenerateCombinedName.
  case_bool_decide as E1; rewrite !slen_app in E1; unfold MaxK8sLabelLength in *;
    change (slen "-") with 1 in *.
  - rewrite !slen_app. change (slen "-") with 1. lia.
  - case_bool_decide; rewrite !slen_app, !GetHashedName_length; change (slen "-") with 1; lia.
Qed.

(** ManifestWork names join a name and a namespace with the character both may
    contain: two DRPCs can share one. *)
Lemma mw_name_ambiguous : ManifestWorkName "app" "b-c" MWTypeVRG = ManifestWorkName "app-b" "c" MWTypeVRG.
Proof. reflexivity. Qed.
