(* ===== verification/Cidr.v ===== *)
(** * Addresses and networks of package net

    [net.ParseIP], [net.ParseCIDR] and the methods of [net.IP] and [net.IPNet] that the
    program uses, of the Go standard library: an address is its bytes, four or sixteen, as
    [netip.ParseAddr] reads them.  A mask here is always one of [CIDRMask], and is kept as
    its number of ones and of bits. *)

From Stdlib Require Import ZArith Ascii.
From stdpp Require Import pretty.
From S2P Require Import Prelude.

Definition is_digit (c : ascii) : bool :=
  bool_decide (48 <= nat_of_ascii c)%nat && bool_decide (nat_of_ascii c <= 57)%nat.
Definition digit (c : ascii) : nat := nat_of_ascii c - 48.
(** The value of a hexadecimal digit. *)
Definition hex_value (c : ascii) : option Z :=
  let n := nat_of_ascii c in
  if is_digit c then Some (Z.of_nat (digit c))
  else if bool_decide (97 <= n)%nat && bool_decide (n <= 102)%nat then Some (Z.of_nat (n - 87))
  else if bool_decide (65 <= n)%nat && bool_decide (n <= 70)%nat then Some (Z.of_nat (n - 55))
  else None.

(** [strings.Cut(s, "/")] *)
Fixpoint cut_slash (s : string) : option (string * string) :=
  match s with
  | EmptyString => None
  | String c s' => if bool_decide (c = "/"%char) then Some ("", s')
                   else match cut_slash s' with
                        | Some (a, b) => Some (String c a, b)
                        | None => None
                        end
  end.

(** ** IPv4 *)

(** [parseIPv4Fields]: four decimal octets without leading zeros, added to [fields]. *)
Fixpoint parseIPv4Fields (s : string) (prev : option ascii) (val digLen : nat) (fields : list Z) : option (list Z) :=
  match s with
  | EmptyString => if bool_decide (length fields < 3)%nat then None else Some (fields ++ [Z.of_nat val])
  | String c s' =>
      if is_digit c then
        if bool_decide (digLen = 1%nat) && bool_decide (val = 0%nat) then None
        else
          let val' := (val * 10 + digit c)%nat in
          if bool_decide (255 < val')%nat then None
          else parseIPv4Fields s' (Some c) val' (S digLen) fields
      else if bool_decide (c = "."%char) then
        if bool_decide (prev = None) || bool_decide (s' = "") || bool_decide (prev = Some "."%char) then None
        else if bool_decide (length fields = 3%nat) then None
        else parseIPv4Fields s' (Some c) 0 0 (fields ++ [Z.of_nat val])
      else None
  end.
Definition parseIPv4 (s : string) : option (list Z) := parseIPv4Fields s None 0 0 [].

(** ** IPv6 *)

(** A group of at most four hexadecimal digits: their number, their value and the rest. *)
Fixpoint hex_group (s : string) (off : nat) (acc : Z) : option (nat * Z * string) :=
  match s with
  | EmptyString => Some (off, acc, s)
  | String c s' =>
      match hex_value c with
      | Some x => if bool_decide (3 < off)%nat then None else hex_group s' (S off) (acc * 16 + x)
      | None => Some (off, acc, s)
      end
  end.

(** All text used, and sixteen bytes or an ellipsis that stands for some zeros. *)
Definition ipv6_ends (ip : list Z) (ellipsis : option nat) (s : string) : option (list Z) :=
  if bool_decide (s ≠ "") then None
  else if bool_decide (length ip < 16)%nat then
    match ellipsis with
    | None => None
    | Some e => Some (take e ip ++ replicate (16 - length ip) 0%Z ++ drop e ip)
    end
  else if bool_decide (ellipsis = None) then Some ip else None.

(** The loop over groups, of which [n] more fit. *)
Fixpoint ipv6_groups (n : nat) (ip : list Z) (ellipsis : option nat) (s : string) : option (list Z) :=
  match n with
  | O => ipv6_ends ip ellipsis s
  | S n' =>
      match hex_group s 0 0 with
      | None => None
      | Some (off, acc, rest) =>
          if bool_decide (off = 0%nat) then None
          else
            let ip' := ip ++ [(acc / 256)%Z; (acc mod 256)%Z] in
            match rest with
            | EmptyString => ipv6_ends ip' ellipsis ""
            | String c s1 =>
                if bool_decide (c = "."%char) then
                  if bool_decide (ellipsis = None) && negb (bool_decide (length ip = 12%nat)) then None
                  else if bool_decide (16 < length ip + 4)%nat then None
                  else match parseIPv4 s with
                       | None => None
                       | Some fields => ipv6_ends (ip ++ fields) ellipsis ""
                       end
                else if negb (bool_decide (c = ":"%char)) then None
                else
                  match s1 with
                  | EmptyString => None
                  | String c2 s2 =>
                      if bool_decide (c2 = ":"%char) then
                        if bool_decide (ellipsis ≠ None) then None
                        else if bool_decide (s2 = "") then ipv6_ends ip' (Some (length ip')) ""
                        else ipv6_groups n' ip' (Some (length ip')) s2
                      else ipv6_groups n' ip' ellipsis s1
                  end
            end
      end
  end.

(** A zone makes the address none for the callers below. *)
Fixpoint has_percent (s : string) : bool :=
  match s with
  | EmptyString => false
  | String c s' => bool_decide (c = "%"%char) || has_percent s'
  end.

Definition parseIPv6 (s : string) : option (list Z) :=
  if has_percent s then None
  else match s with
       | String ":"%char (String ":"%char s') =>
           if bool_decide (s' = "") then Some (replicate 16 0%Z) else ipv6_groups 8 [] (Some 0%nat) s'
       | _ => ipv6_groups 8 [] None s
       end.

(** ** Addresses *)

Fixpoint addr_kind (s : string) : option bool :=
  match s with
  | EmptyString => None
  | String c s' => if bool_decide (c = "."%char) then Some true
                   else if bool_decide (c = ":"%char) then Some false
                   else if bool_decide (c = "%"%char) then None
                   else addr_kind s'
  end.

(** [netip.ParseAddr]: four or sixteen bytes. *)
Definition ParseAddr (s : string) : option (list Z) :=
  match addr_kind s with
  | Some true => parseIPv4 s
  | Some false => parseIPv6 s
  | None => None
  end.

Definition v4InV6Prefix : list Z := replicate 10 0%Z ++ [255; 255]%Z.
Definition As16 (addr : list Z) : list Z := if bool_decide (length addr = 4%nat) then v4InV6Prefix ++ addr else addr.
Definition ParseIP (s : string) : option (list Z) := As16 <$> ParseAddr s.

(** [IP.To4] *)
Definition To4 (ip : list Z) : option (list Z) :=
  if bool_decide (length ip = 4%nat) then Some ip
  else if bool_decide (length ip = 16%nat) && bool_decide (take 12 ip = v4InV6Prefix) then Some (drop 12 ip)
  else None.

(** [IP.String] of four bytes. *)
Definition dotted (ip4 : list Z) : string := String.concat "." (pretty <$> ip4).

(** ** Networks *)

(** [CIDRMask]: a byte of a mask with [n] more ones. *)
Definition mask_byte (n : nat) : Z := (256 - 2 ^ (8 - Z.of_nat (n `min` 8)))%Z.
Fixpoint mask_bytes (ones len : nat) : list Z :=
  match len with
  | O => []
  | S len' => mask_byte ones :: mask_bytes (ones - 8) len'
  end.

Record IPNet := mkIPNet { net_IP : list Z; net_ones : nat; net_bits : nat }.
Definition net_Mask (n : IPNet) : list Z := mask_bytes (net_ones n) (net_bits n / 8).

Definition and_bytes (a b : list Z) : list Z := zip_with Z.land a b.

(** [dtoi] of all of a text: [None] if it is not a number below 0xFFFFFF. *)
Fixpoint dtoi_from (s : string) (n : N) : option N :=
  match s with
  | EmptyString => Some n
  | String c s' => if is_digit c then
                     let n' := (n * 10 + N.of_nat (digit c))%N in
                     if bool_decide (16777215 <= n')%N then None else dtoi_from s' n'
                   else None
  end.
Definition dtoi (s : string) : option N := if bool_decide (s = "") then None else dtoi_from s 0.

(** The address is masked by its own bytes: [IP.Mask] takes four of the sixteen for a mask
    of four. *)
Definition ParseCIDR (s : string) : option IPNet :=
  match cut_slash s with
  | None => None
  | Some (addr, mask) =>
      match ParseAddr addr, dtoi mask with
      | Some ip, Some n =>
          if bool_decide (n <= N.of_nat (8 * length ip))%N
          then Some (mkIPNet (and_bytes ip (mask_bytes (N.to_nat n) (length ip))) (N.to_nat n) (8 * length ip))
          else None
      | _, _ => None
      end
  end.

(** [IPNet.Contains], with [networkNumberAndMask]. *)
Definition number_and_mask (n : IPNet) : list Z * list Z :=
  match To4 (net_IP n) with
  | Some ip4 => (ip4, if bool_decide (net_bits n = 128%nat) then drop 12 (net_Mask n) else net_Mask n)
  | None => (net_IP n, net_Mask n)
  end.
Definition Contains (n : IPNet) (ip : list Z) : bool :=
  let '(nn, m) := number_and_mask n in
  let ip := default ip (To4 ip) in
  bool_decide (length ip = length nn) && bool_decide (and_bytes nn m = and_bytes ip m).

Definition valid_CIDR (s : string) : bool := bool_decide (is_Some (ParseCIDR s)).

Example valid_CIDR_cases :
  valid_CIDR <$> ["10.0.0.0/8"; "192.168.10.1/32"; "10.0.0.0/33"; "10.0.0/8"; "10.0.00.1/8"; "256.0.0.1/8"; "10.0.0.0";
                 "2001:db8::/32"; "::/0"; "::1/128"; "1:2:3:4:5:6:7:8/64"; "1:2:3:4:5:6:7:8:9/64"; "::ffff:10.0.0.1/96";
                 "1::2::3/64"; "fe80::1%eth0/64"; "12345::/16"; ":1::/16"; "10.0.0.0/8/8"] =
  [true; true; false; false; false; false; false; true; true; true; true; false; true; false; false; false; false; false].
Proof. vm_compute. reflexivity. Qed.

Example ParseCIDR_networks :
  ParseCIDR <$> ["10.1.2.3/12"; "::ffff:10.1.2.3/120"] =
  [Some (mkIPNet [10; 0; 0; 0]%Z 12 32); Some (mkIPNet (v4InV6Prefix ++ [10; 1; 2; 0]%Z) 120 128)] ∧
  ParseIP <$> ["1::a"; "10.0.0.256"] = [Some ([0; 1] ++ replicate 13 0 ++ [10])%Z; None] ∧
  (n ← ParseCIDR "10.1.2.3/12"; Some (Contains n [10; 15; 255; 255]%Z, Contains n [10; 16; 0; 0]%Z)) = Some (true, false).
Proof. vm_compute. done. Qed.
