(* ===== verification/Conditions.v ===== *)
(** * Status conditions

    internal/controller/util/conditions.go, and the wrappers around it in
    internal/controller/drplacementcontrol_controller.go
    ([addOrUpdateCondition], [ensureDRPCConditionsInited],
    [setConflictStatusCondition], [findConflictCondition]).

    A condition list is an ordered slice with at most one entry per type; a
    pointer into the slice is the first entry of that type.  [now] is the value
    of the clock during the call ([time.Now()]). *)

From S2P Require Import Prelude Meta.
#[local] Open Scope Z_scope.

Definition has_type (t : string) (c : Condition) : bool := bool_decide (cond_Type c = t).

Definition FindCondition (conds : list Condition) (conditionType : string) : option Condition :=
  find_first (has_type conditionType) conds.

(** ** Setting one condition *)

Definition ConditionUpdate (generation now : Z) (status : ConditionStatus) (reason message : string)
    (c : Condition) : Condition :=
  c <| cond_Status := status |> <| cond_ObservedGeneration := generation |>
    <| cond_LastTransitionTime := now |> <| cond_Reason := reason |> <| cond_Message := message |>.

Definition ConditionAppend (generation now : Z) (conds : list Condition) (conditionType : string)
    (status : ConditionStatus) (reason message : string) : list Condition :=
  conds ++ [mkCondition conditionType status generation now reason message].

(** Returns whether the list was changed. *)
Definition GenericStatusConditionSet (generation now : Z) (conds : list Condition)
    (conditionType : string) (status : ConditionStatus) (reason message : string)
    : bool * list Condition :=
  match FindCondition conds conditionType with
  | Some c =>
      if bool_decide (cond_Status c = status) && bool_decide (cond_Reason c = reason) &&
         bool_decide (cond_Message c = message) &&
         bool_decide (cond_ObservedGeneration c = generation)
      then (false, conds)
      else (true, update_first (has_type conditionType)
                    (ConditionUpdate generation now status reason message) conds)
  | None => (true, ConditionAppend generation now conds conditionType status reason message)
  end.

Definition SetStatusConditionIfNotFound (now : Z) (conds : list Condition) (new : Condition)
    : list Condition :=
  match FindCondition conds (cond_Type new) with
  | None => conds ++ [new <| cond_LastTransitionTime := now |>]
  | Some _ => conds
  end.

(** The assignments through [existingCondition], in source order. *)
Definition overwrite_condition (now : Z) (new existing : Condition) : Condition :=
  let existing :=
    if bool_decide (cond_Status existing ≠ cond_Status new)
    then existing <| cond_Status := cond_Status new |> <| cond_LastTransitionTime := now |>
    else existing in
  let defaultValue := "none" in
  let reason := if bool_decide (cond_Reason new = "") then defaultValue else cond_Reason new in
  let message := if bool_decide (cond_Message new = "") then defaultValue else cond_Message new in
  let existing := existing <| cond_Reason := reason |> <| cond_Message := message |> in
  if bool_decide (cond_ObservedGeneration existing ≠ cond_ObservedGeneration new)
  then existing <| cond_ObservedGeneration := cond_ObservedGeneration new |>
                <| cond_LastTransitionTime := now |>
  else existing.

Definition SetStatusCondition (now : Z) (conds : list Condition) (new : Condition)
    : Condition * list Condition :=
  match FindCondition conds (cond_Type new) with
  | None =>
      let new := new <| cond_LastTransitionTime := now |> in (new, conds ++ [new])
  | Some existing =>
      (overwrite_condition now new existing,
       update_first (has_type (cond_Type new)) (overwrite_condition now new) conds)
  end.

Definition addOrUpdateCondition (now : Z) (conds : list Condition) (conditionType : string)
    (observedGeneration : Z) (status : ConditionStatus) (reason msg : string)
    : bool * list Condition :=
  let newCondition := mkCondition conditionType status observedGeneration now reason msg in
  let stale :=
    match FindCondition conds conditionType with
    | None => true
    | Some existing =>
        bool_decide (cond_Status existing ≠ status) ||
        bool_decide (cond_ObservedGeneration existing ≠ observedGeneration) ||
        bool_decide (cond_Reason existing ≠ reason) ||
        bool_decide (cond_Message existing ≠ msg)
    end in
  if stale then (true, (SetStatusCondition now conds newCondition).2) else (false, conds).

(** DRPC condition types and reasons (api/v1alpha1/drplacementcontrol_types.go). *)
Definition ConditionAvailable : string := "Available".
Definition ConditionPeerReady : string := "PeerReady".
Definition ConditionProtected : string := "Protected".
Definition ConditionReplicationHealthy : string := "ReplicationHealthy".
Definition ConditionGlobalAction : string := "GlobalAction".
Definition ReasonProgressing : string := "Progressing".
Definition ReasonCleaning : string := "Cleaning".
Definition ReasonSuccess : string := "Success".
Definition ReasonNotStarted : string := "NotStarted".
Definition ReasonPaused : string := "Paused".
Definition ReasonProtectedUnknown : string := "Unknown".

Definition ensureDRPCConditionsInited (now : Z) (conds : list Condition) (observedGeneration : Z)
    (message : string) : list Condition :=
  let conds := SetStatusConditionIfNotFound now conds
    (mkCondition ConditionAvailable ConditionTrue observedGeneration now "Initiating" message) in
  let conds := SetStatusConditionIfNotFound now conds
    (mkCondition ConditionPeerReady ConditionFalse observedGeneration now "Initiating" message) in
  SetStatusConditionIfNotFound now conds
    (mkCondition ConditionProtected ConditionFalse observedGeneration now ReasonProtectedUnknown message).

(** ** Merging the conditions of the volume replication back ends *)

Definition oldestConditions (new : Condition) (conds : list Condition) : list Condition :=
  match conds with
  | [] => [new]
  | c0 :: _ =>
      if bool_decide (cond_ObservedGeneration c0 < cond_ObservedGeneration new) then conds
      else if bool_decide (cond_ObservedGeneration c0 = cond_ObservedGeneration new)
           then conds ++ [new]
           else [new]
  end.

Definition merge_step (ignoreReasons : list string) (merged sub : Condition) : Condition :=
  if bool_decide (cond_Type merged = "") then sub
  else if bool_decide (cond_Reason sub = cond_Reason merged)
  then merged <| cond_Message := cond_Message merged +:+ ". " +:+ cond_Message sub |>
  else if bool_decide (cond_Reason sub ∈ ignoreReasons) then merged
  else if bool_decide (cond_Reason merged ∈ ignoreReasons) then sub
  else merged <| cond_Message := cond_Message merged +:+ ". " +:+ cond_Message sub |>.

Definition mergedCondition (conds : list Condition) (ignoreReasons : list string) : Condition :=
  foldl (merge_step ignoreReasons) zero_condition conds.

(** The three accumulators of [MergeConditions]: (false, unknown, true). *)
Definition merge_bucket (acc : list Condition * list Condition * list Condition)
    (sub : option Condition) : list Condition * list Condition * list Condition :=
  match sub with
  | None => acc
  | Some c =>
      let '(fs, us, ts) := acc in
      match cond_Status c with
      | ConditionFalse => (oldestConditions c fs, us, ts)
      | ConditionUnknown => (fs, oldestConditions c us, ts)
      | ConditionTrue => (fs, us, oldestConditions c ts)
      | ConditionUnset => acc
      end
  end.

Definition MergeConditions
    (conditionSet : list Condition → Condition → Condition * list Condition)
    (conds : list Condition) (ignoreReasons : list string) (subs : list (option Condition))
    : Condition * list Condition :=
  let '(fs, us, ts) := foldl merge_bucket ([], [], []) subs in
  if bool_decide (fs ≠ []) then conditionSet conds (mergedCondition fs ignoreReasons)
  else if bool_decide (us ≠ []) then conditionSet conds (mergedCondition us ignoreReasons)
  else if bool_decide (ts ≠ []) then conditionSet conds (mergedCondition ts ignoreReasons)
  else (zero_condition, conds).

(** ** Propagating a conflict condition (drplacementcontrol_controller.go)

    Unlike [SetStatusCondition], the observed generation is only compared, never
    copied: on a difference the transition time moves and the generation stays. *)

Definition overwrite_conflict (now : Z) (new existing : Condition) : Condition :=
  let existing :=
    if bool_decide (cond_Status existing ≠ cond_Status new) ||
       bool_decide (cond_Reason existing ≠ cond_Reason new)
    then existing <| cond_Status := cond_Status new |> <| cond_Reason := cond_Reason new |>
                  <| cond_LastTransitionTime := now |>
    else existing in
  let defaultValue := "none" in
  let reason := if bool_decide (cond_Reason new = "") then defaultValue else cond_Reason new in
  let message := if bool_decide (cond_Message new = "") then defaultValue else cond_Message new in
  let existing := existing <| cond_Reason := reason |> <| cond_Message := message |> in
  if bool_decide (cond_ObservedGeneration existing ≠ cond_ObservedGeneration new)
  then existing <| cond_LastTransitionTime := now |>
  else existing.

Definition setConflictStatusCondition (now : Z) (conds : list Condition) (new : Condition)
    : Condition * list Condition :=
  match FindCondition conds (cond_Type new) with
  | None =>
      let new := new <| cond_LastTransitionTime := now |> in (new, conds ++ [new])
  | Some existing =>
      (overwrite_conflict now new existing,
       update_first (has_type (cond_Type new)) (overwrite_conflict now new) conds)
  end.

(** ** Lemmas: one entry per type *)

Definition wf_conds (conds : list Condition) : Prop := NoDup (cond_Type <$> conds).

Lemma overwrite_condition_type now new c : cond_Type (overwrite_condition now new c) = cond_Type c.
Proof. unfold overwrite_condition. by repeat case_bool_decide. Qed.

Lemma overwrite_conflict_type now new c : cond_Type (overwrite_conflict now new c) = cond_Type c.
Proof. unfold overwrite_conflict. repeat case_bool_decide; by simpl. Qed.

Lemma FindCondition_type conds t c : FindCondition conds t = Some c → cond_Type c = t.
Proof. intros [_ H]%find_first_Some. unfold has_type in H. by bools. Qed.

Lemma FindCondition_elem conds t c : FindCondition conds t = Some c → c ∈ conds.
Proof. by intros [H _]%find_first_Some. Qed.

Lemma FindCondition_app_other conds c t :
  cond_Type c ≠ t → FindCondition (conds ++ [c]) t = FindCondition conds t.
Proof.
  intros H. unfold FindCondition. rewrite find_first_app. simpl.
  unfold has_type at 2. rewrite bool_decide_eq_false_2 by done.
  by destruct (find_first _ _).
Qed.

Lemma FindCondition_app_same conds c :
  FindCondition conds (cond_Type c) = None → FindCondition (conds ++ [c]) (cond_Type c) = Some c.
Proof.
  unfold FindCondition. intros H. rewrite find_first_app, H. simpl. unfold has_type.
  by rewrite bool_decide_eq_true_2.
Qed.

Section update_by_type.
Context (f : Condition → Condition) (Hf : ∀ c, cond_Type (f c) = cond_Type c).

Lemma FindCondition_update_same conds t :
  FindCondition (update_first (has_type t) f conds) t = f <$> FindCondition conds t.
Proof.
  apply find_first_update. intros x. unfold has_type. by rewrite Hf.
Qed.

Lemma FindCondition_update_other conds t t' :
  t ≠ t' → FindCondition (update_first (has_type t) f conds) t' = FindCondition conds t'.
Proof.
  intros Hne. apply find_first_update_other. intros x. unfold has_type.
  rewrite Hf, bool_decide_eq_true. intros ->. by rewrite bool_decide_eq_false_2.
Qed.

Lemma update_types conds t : cond_Type <$> update_first (has_type t) f conds = cond_Type <$> conds.
Proof. apply update_first_fmap. auto. Qed.
End update_by_type.

Lemma FindCondition_None_types conds t : FindCondition conds t = None ↔ t ∉ cond_Type <$> conds.
Proof.
  unfold FindCondition. rewrite find_first_None. unfold has_type. split.
  - intros H (c & -> & Hc)%list_elem_of_fmap. specialize (H c Hc). by bools.
  - intros H c Hc. rewrite bool_decide_eq_false. intros <-. apply H.
    apply list_elem_of_fmap. eauto.
Qed.

Lemma wf_app_new conds c :
  wf_conds conds → FindCondition conds (cond_Type c) = None → wf_conds (conds ++ [c]).
Proof.
  unfold wf_conds. intros Hwf Hn%FindCondition_None_types. rewrite fmap_app. simpl.
  apply NoDup_app. split_and!; [done| |by apply NoDup_singleton]. set_solver.
Qed.

Lemma SetStatusCondition_find now conds new :
  FindCondition (SetStatusCondition now conds new).2 (cond_Type new)
  = Some (SetStatusCondition now conds new).1.
Proof.
  unfold SetStatusCondition. destruct (FindCondition conds (cond_Type new)) eqn:E; simpl.
  - rewrite FindCondition_update_same by apply overwrite_condition_type. by rewrite E.
  - by apply (FindCondition_app_same conds (mkCondition (cond_Type new) _ _ _ _ _)).
Qed.

Lemma SetStatusCondition_other now conds new t :
  t ≠ cond_Type new →
  FindCondition (SetStatusCondition now conds new).2 t = FindCondition conds t.
Proof.
  intros Hne. unfold SetStatusCondition. destruct (FindCondition conds (cond_Type new)); simpl.
  - apply FindCondition_update_other; [apply overwrite_condition_type|done].
  - by apply FindCondition_app_other.
Qed.

Lemma SetStatusCondition_wf now conds new :
  wf_conds conds → wf_conds (SetStatusCondition now conds new).2.
Proof.
  intros Hwf. unfold SetStatusCondition.
  destruct (FindCondition conds (cond_Type new)) eqn:E; simpl.
  - unfold wf_conds. by rewrite update_types by apply overwrite_condition_type.
  - by apply wf_app_new.
Qed.

(** What [SetStatusCondition] leaves in place of the old entry. *)
Lemma SetStatusCondition_fields now conds new c :
  (SetStatusCondition now conds new).1 = c → cond_Reason new ≠ "" → cond_Message new ≠ "" →
  cond_Status c = cond_Status new ∧ cond_ObservedGeneration c = cond_ObservedGeneration new ∧
  cond_Reason c = cond_Reason new ∧ cond_Message c = cond_Message new.
Proof.
  intros <- Hr Hm. unfold SetStatusCondition.
  destruct (FindCondition conds (cond_Type new)) as [e|]; simpl; [|done].
  unfold overwrite_condition. rewrite (bool_decide_eq_false_2 (_ = "")) by done.
  rewrite (bool_decide_eq_false_2 (_ = "")) by done.
  repeat case_bool_decide; simpl in *; split_and!; try done;
    by apply dec_stable.
Qed.

Lemma addOrUpdateCondition_stale now conds t g s r m :
  (addOrUpdateCondition now conds t g s r m).1 = false ↔
  ∃ c, FindCondition conds t = Some c ∧ cond_Status c = s ∧ cond_ObservedGeneration c = g ∧
       cond_Reason c = r ∧ cond_Message c = m.
Proof.
  unfold addOrUpdateCondition. destruct (FindCondition conds t) as [c|] eqn:E; simpl.
  - destruct (_ || _ || _ || _) eqn:B; simpl.
    + split; [done|]. intros (? & [= <-] & ? & ? & ? & ?).
      rewrite !orb_true_iff, !bool_decide_eq_true in B. naive_solver.
    + split; [intros _|done]. rewrite !orb_false_iff, !bool_decide_eq_false in B.
      destruct B as [[[?%dec_stable ?%dec_stable] ?%dec_stable] ?%dec_stable]. by exists c.
  - split; [done|]. intros (? & ? & _). done.
Qed.

Lemma addOrUpdateCondition_other now conds t g s r m t' :
  t' ≠ t →
  FindCondition (addOrUpdateCondition now conds t g s r m).2 t' = FindCondition conds t'.
Proof.
  intros Hne. unfold addOrUpdateCondition.
  destruct (match FindCondition _ _ with Some _ => _ | None => _ end); [|done].
  by apply SetStatusCondition_other.
Qed.

Lemma addOrUpdateCondition_wf now conds t g s r m :
  wf_conds conds → wf_conds (addOrUpdateCondition now conds t g s r m).2.
Proof.
  unfold addOrUpdateCondition.
  destruct (match FindCondition _ _ with Some _ => _ | None => _ end); [|done].
  apply SetStatusCondition_wf.
Qed.

Lemma addOrUpdateCondition_find now conds t g s r m :
  r ≠ "" → m ≠ "" →
  ∃ c, FindCondition (addOrUpdateCondition now conds t g s r m).2 t = Some c ∧
       cond_Status c = s ∧ cond_ObservedGeneration c = g ∧ cond_Reason c = r ∧ cond_Message c = m.
Proof.
  intros Hr Hm. destruct (addOrUpdateCondition now conds t g s r m) as [[] l] eqn:E.
  - unfold addOrUpdateCondition in E.
    destruct (match FindCondition conds t with Some _ => _ | None => _ end); [|by simplify_eq].
    injection E as <-.
    set (new := mkCondition t s g now r m).
    exists (SetStatusCondition now conds new).1. split.
    + apply (SetStatusCondition_find now conds new).
    + by apply (SetStatusCondition_fields now conds new).
  - pose proof (addOrUpdateCondition_stale now conds t g s r m) as [H _].
    rewrite E in H. specialize (H eq_refl).
    unfold addOrUpdateCondition in E.
    destruct (match FindCondition conds t with Some _ => _ | None => _ end); by simplify_eq.
Qed.

(** The [Status] and [Reason] of the entry, whatever the text of the message. *)
Lemma addOrUpdateCondition_status now conds t g s r m c :
  FindCondition (addOrUpdateCondition now conds t g s r m).2 t = Some c → cond_Status c = s.
Proof.
  intros Hc. destruct (addOrUpdateCondition now conds t g s r m).1 eqn:E.
  - revert E Hc. unfold addOrUpdateCondition.
    destruct (match FindCondition conds t with Some _ => _ | None => _ end); [|done].
    intros _. simpl. pose proof (SetStatusCondition_find now conds (mkCondition t s g now r m)) as F.
    simpl in F. rewrite F. intros [= <-]. unfold SetStatusCondition; simpl.
    destruct (FindCondition conds t); simpl; [|done].
    unfold overwrite_condition. repeat case_bool_decide; simpl in *; try done; by apply dec_stable.
  - pose proof E as (c' & Hc' & Hs & _)%addOrUpdateCondition_stale.
    revert E Hc. unfold addOrUpdateCondition.
    destruct (match FindCondition conds t with Some _ => _ | None => _ end); [done|].
    simpl. intros _. congruence.
Qed.

(** The entry is there afterwards. *)
Lemma addOrUpdateCondition_sets now conds t g s r m :
  ∃ c, FindCondition (addOrUpdateCondition now conds t g s r m).2 t = Some c ∧ cond_Status c = s.
Proof.
  assert (is_Some (FindCondition (addOrUpdateCondition now conds t g s r m).2 t)) as [c Hc];
    [|exists c; split; [done|by eapply addOrUpdateCondition_status]].
  destruct (addOrUpdateCondition now conds t g s r m).1 eqn:E.
  - revert E. unfold addOrUpdateCondition.
    destruct (match FindCondition conds t with Some _ => _ | None => _ end); [|done]. intros _. simpl.
    pose proof (SetStatusCondition_find now conds (mkCondition t s g now r m)) as F. simpl in F. by rewrite F.
  - pose proof E as (c&Hc&_)%addOrUpdateCondition_stale. revert E. unfold addOrUpdateCondition.
    destruct (match FindCondition conds t with Some _ => _ | None => _ end); [done|]. simpl. by rewrite Hc.
Qed.

Create HintDb conds discriminated.
#[export] Hint Resolve SetStatusCondition_wf addOrUpdateCondition_wf : conds.

(** ** Merging: the reference definition

    [min_gen l] is the lowest observed generation of [l], [oldest l] the entries
    that have it, in order. *)

Definition min_gen (l : list Condition) : Z :=
  match cond_ObservedGeneration <$> l with [] => 0 | g :: gs => foldr Z.min g gs end.

Definition oldest (l : list Condition) : list Condition :=
  filter (λ c, cond_ObservedGeneration c = min_gen l) l.

Lemma foldr_min_le g gs : foldr Z.min g gs <= g ∧ (∀ x, x ∈ gs → foldr Z.min g gs <= x).
Proof.
  induction gs as [|y gs [IH1 IH2]]; simpl; [set_solver by lia|]. split; [lia|].
  intros x [->|Hx]%elem_of_cons; [lia|]. specialize (IH2 x Hx). lia.
Qed.

Lemma foldr_min_in g gs : foldr Z.min g gs = g ∨ foldr Z.min g gs ∈ gs.
Proof.
  induction gs as [|y gs [IH|IH]]; simpl; [by left| |];
    destruct (Z.min_spec y (foldr Z.min g gs)) as [[_ ->]|[_ ->]]; set_solver.
Qed.

Lemma min_gen_cons d l :
  min_gen (d :: l) = foldr Z.min (cond_ObservedGeneration d) (cond_ObservedGeneration <$> l).
Proof. done. Qed.

Lemma min_gen_le l c : c ∈ l → min_gen l <= cond_ObservedGeneration c.
Proof.
  destruct l as [|d l]; [set_solver|]. rewrite min_gen_cons.
  destruct (foldr_min_le (cond_ObservedGeneration d) (cond_ObservedGeneration <$> l)) as [H1 H2].
  intros [->|H]%elem_of_cons; [done|]. apply H2, list_elem_of_fmap. eauto.
Qed.

Lemma min_gen_in l : l ≠ [] → ∃ c, c ∈ l ∧ cond_ObservedGeneration c = min_gen l.
Proof.
  destruct l as [|d l]; [done|]. intros _. rewrite min_gen_cons.
  destruct (foldr_min_in (cond_ObservedGeneration d) (cond_ObservedGeneration <$> l)) as [->|H].
  - exists d. set_solver.
  - apply list_elem_of_fmap in H as (c & -> & Hc). exists c. set_solver.
Qed.

Lemma min_gen_app l c :
  l ≠ [] → min_gen (l ++ [c]) = Z.min (min_gen l) (cond_ObservedGeneration c).
Proof.
  destruct l as [|d l]; [done|]. intros _. change ((d :: l) ++ [c]) with (d :: (l ++ [c])).
  rewrite !min_gen_cons, fmap_app, foldr_app. simpl. generalize (cond_ObservedGeneration <$> l).
  generalize (cond_ObservedGeneration d) (cond_ObservedGeneration c).
  intros a b gs. induction gs as [|y gs IH]; simpl; lia.
Qed.

Lemma oldest_nonempty l : l ≠ [] → oldest l ≠ [].
Proof.
  intros H E. destruct (min_gen_in l H) as (c & Hc & Hg).
  assert (c ∈ oldest l) as Hin by by apply list_elem_of_filter.
  rewrite E in Hin. set_solver.
Qed.

Lemma oldest_head l c l' : oldest l = c :: l' → cond_ObservedGeneration c = min_gen l.
Proof.
  intros E. assert (c ∈ oldest l) as H by (rewrite E; set_solver).
  by apply list_elem_of_filter in H as [? _].
Qed.

Lemma oldestConditions_oldest l c : oldestConditions c (oldest l) = oldest (l ++ [c]).
Proof.
  destruct (decide (l = [])) as [->|Hl].
  { unfold oldest, min_gen. simpl. rewrite filter_cons_True by done. done. }
  destruct (oldest l) as [|d l'] eqn:E; [by apply oldest_nonempty in E|].
  pose proof (oldest_head _ _ _ E) as Hd. unfold oldestConditions. rewrite Hd, <- E.
  unfold oldest at 3. rewrite filter_app, (min_gen_app l c Hl).
  case_bool_decide as Hlt; [|case_bool_decide as Heq].
  - rewrite Z.min_l by lia. rewrite (filter_cons_False _ c) by lia.
    by rewrite app_nil_r.
  - rewrite Z.min_l by lia. by rewrite (filter_cons_True _ c) by lia.
  - rewrite Z.min_r by lia. rewrite (filter_cons_True _ c) by lia.
    assert (filter (λ c0, cond_ObservedGeneration c0 = cond_ObservedGeneration c) l = []) as ->;
      [|done].
    apply filter_none. intros x Hx Hg.
    pose proof (min_gen_le l x Hx). lia.
Qed.

Lemma oldest_fold l : foldl (λ acc c, oldestConditions c acc) [] l = oldest l.
Proof.
  induction l as [|c l IH] using rev_ind; [done|].
  rewrite foldl_app, IH. simpl. apply oldestConditions_oldest.
Qed.

(** The three buckets are the oldest entries of each status. *)
Definition with_status (s : ConditionStatus) (subs : list (option Condition)) : list Condition :=
  filter (λ c, cond_Status c = s) (omap id subs).

Lemma merge_buckets subs :
  foldl merge_bucket ([], [], []) subs
  = (oldest (with_status ConditionFalse subs), oldest (with_status ConditionUnknown subs),
     oldest (with_status ConditionTrue subs)).
Proof.
  induction subs as [|o subs IH] using rev_ind; [done|].
  rewrite foldl_app, IH. unfold with_status. rewrite omap_app, !filter_app.
  destruct o as [c|]; simpl; [|by rewrite !app_nil_r].
  destruct (cond_Status c) eqn:Hs; rewrite !filter_cons, !filter_nil;
    repeat case_decide; try congruence; rewrite ?app_nil_r, ?oldestConditions_oldest; done.
Qed.

(** *** One merged condition *)

Section merged.
Context (ignore : list string) (s : ConditionStatus) (g : Z).

Definition mergeable (c : Condition) : Prop :=
  cond_Type c ≠ "" ∧ cond_Status c = s ∧ cond_ObservedGeneration c = g.

Lemma merge_step_mergeable m c :
  mergeable m → mergeable c → mergeable (merge_step ignore m c).
Proof.
  unfold mergeable, merge_step. intros (?&?&?) (?&?&?). rewrite bool_decide_eq_false_2 by done.
  repeat case_bool_decide; simpl; auto.
Qed.

Lemma merge_fold_mergeable m l :
  mergeable m → Forall mergeable l → mergeable (foldl (merge_step ignore) m l).
Proof.
  revert m. induction l as [|c l IH]; intros m Hm; [done|].
  rewrite Forall_cons. intros [Hc Hl]. simpl. by apply IH; [apply merge_step_mergeable|].
Qed.

Lemma mergedCondition_mergeable c l :
  mergeable c → Forall mergeable l → mergeable (mergedCondition (c :: l) ignore).
Proof. intros Hc Hl. unfold mergedCondition. simpl. by apply merge_fold_mergeable. Qed.

(** A reason that is not to be ignored survives the merge. *)
Lemma merge_fold_reason m l :
  mergeable m → Forall mergeable l →
  (cond_Reason m ∉ ignore ∨ ∃ c, c ∈ l ∧ cond_Reason c ∉ ignore) →
  cond_Reason (foldl (merge_step ignore) m l) ∉ ignore.
Proof.
  revert m. induction l as [|c l IH]; intros m Hm; simpl; [set_solver|].
  rewrite Forall_cons. intros [Hc Hl] Hex. apply IH; [by apply merge_step_mergeable|done|].
  destruct Hm as (Ht & _). unfold merge_step. rewrite (bool_decide_eq_false_2 _ Ht).
  destruct Hex as [?|(c' & [->|?]%elem_of_cons & ?)];
    repeat case_bool_decide; simpl; naive_solver congruence.
Qed.
End merged.

(** ** Properties *)

(** The most severe status among the given conditions: False over Unknown over True. *)
Definition worst (subs : list (option Condition)) : option ConditionStatus :=
  if bool_decide (with_status ConditionFalse subs ≠ []) then Some ConditionFalse
  else if bool_decide (with_status ConditionUnknown subs ≠ []) then Some ConditionUnknown
  else if bool_decide (with_status ConditionTrue subs ≠ []) then Some ConditionTrue
  else None.

Lemma oldest_nil_iff l : oldest l ≠ [] ↔ l ≠ [].
Proof. split; [by intros H ->|apply oldest_nonempty]. Qed.

Lemma oldest_elem l c : c ∈ oldest l → c ∈ l ∧ cond_ObservedGeneration c = min_gen l.
Proof. by intros [? ?]%list_elem_of_filter. Qed.

Lemma MergeConditions_pick set conds ig subs s :
  worst subs = Some s →
  MergeConditions set conds ig subs = set conds (mergedCondition (oldest (with_status s subs)) ig)
  ∧ with_status s subs ≠ [].
Proof.
  unfold worst, MergeConditions. rewrite merge_buckets.
  rewrite !(bool_decide_ext _ _ (oldest_nil_iff _)).
  repeat case_bool_decide; intros [= <-]; done.
Qed.

(** merging the conditions of several replication back ends reports the most
    severe status present (False over Unknown over True), at the lowest observed
    generation among the conditions of that status, and a reason outside
    [ignoreReasons] whenever one of the merged conditions has one; the callback is
    handed exactly that condition. *)
Theorem MergeConditions_worst_oldest set conds ig subs s
    (Hworst : worst subs = Some s)
    (Htyped : Forall (λ c, cond_Type c ≠ "") (omap id subs)) :
  ∃ c, MergeConditions set conds ig subs = set conds c ∧
       cond_Status c = s ∧
       cond_ObservedGeneration c = min_gen (with_status s subs) ∧
       ((∃ c', c' ∈ oldest (with_status s subs) ∧ cond_Reason c' ∉ ig) → cond_Reason c ∉ ig).
Proof.
  destruct (MergeConditions_pick set conds ig subs s Hworst) as [-> Hne].
  eexists. split; [done|].
  set (l := with_status s subs) in *.
  assert (Forall (mergeable s (min_gen l)) (oldest l)) as Hall.
  { apply Forall_forall. intros c [Hc Hg]%oldest_elem.
    apply list_elem_of_filter in Hc as [Hs Hin]. rewrite Forall_forall in Htyped.
    repeat split; auto. }
  destruct (oldest l) as [|c0 l'] eqn:E; [by apply oldest_nil_iff in Hne|].
  apply Forall_cons in Hall as [H0 Hl].
  destruct (mergedCondition_mergeable ig s (min_gen l) c0 l' H0 Hl) as (_ & Hs & Hg).
  split_and!; [done|done|]. intros (c' & Hin & Hr).
  apply (merge_fold_reason ig s (min_gen l) c0 l' H0 Hl). set_solver.
Qed.

Definition sample_cond (s : ConditionStatus) (g : Z) (r : string) : option Condition :=
  Some (mkCondition "DataReady" s g 0 r "m").

Lemma MergeConditions_worst_oldest_witness :
  ∃ c, MergeConditions (SetStatusCondition 7) [] ["Unused"]
         [sample_cond ConditionTrue 3 "Ready"; sample_cond ConditionFalse 4 "Unused"; None;
          sample_cond ConditionFalse 4 "Error"]
       = SetStatusCondition 7 [] c ∧ cond_Status c = ConditionFalse ∧
       cond_ObservedGeneration c = 4 ∧ cond_Reason c ∉ ["Unused"].
Proof.
  edestruct (MergeConditions_worst_oldest (SetStatusCondition 7) [] ["Unused"]
    [sample_cond ConditionTrue 3 "Ready"; sample_cond ConditionFalse 4 "Unused"; None;
     sample_cond ConditionFalse 4 "Error"] ConditionFalse) as (c & H1 & H2 & H3 & H4);
    [vm_compute; reflexivity|by repeat constructor|].
  exists c. split_and!; [exact H1|exact H2|exact H3|].
  apply H4. exists (mkCondition "DataReady" ConditionFalse 4 0 "Error" "m").
  split; [|set_solver]. vm_compute. right. left.
Defined.

(** [addOrUpdateCondition] leaves the condition of the given type with exactly
    the given status, generation, reason and message, leaves every other type
    alone, keeps one entry per type, and reports no change when repeated. *)
Theorem addOrUpdateCondition_correct now now' conds t g s r m
    (Hwf : wf_conds conds) (Hr : r ≠ "") (Hm : m ≠ "") :
  let l := (addOrUpdateCondition now conds t g s r m).2 in
  (∃ c, FindCondition l t = Some c ∧ cond_Status c = s ∧ cond_ObservedGeneration c = g ∧
        cond_Reason c = r ∧ cond_Message c = m) ∧
  (∀ t', t' ≠ t → FindCondition l t' = FindCondition conds t') ∧
  wf_conds l ∧
  addOrUpdateCondition now' l t g s r m = (false, l).
Proof.
  simpl. set (l := (addOrUpdateCondition now conds t g s r m).2).
  destruct (addOrUpdateCondition_find now conds t g s r m Hr Hm) as (c & Hc & ? & ? & ? & ?).
  split_and!; [by exists c|intros; by apply addOrUpdateCondition_other|
               by apply addOrUpdateCondition_wf|].
  assert ((addOrUpdateCondition now' l t g s r m).1 = false) as E
    by (apply addOrUpdateCondition_stale; by exists c).
  unfold addOrUpdateCondition in *.
  destruct (match FindCondition l t with Some _ => _ | None => _ end); by simplify_eq/=.
Qed.

Lemma addOrUpdateCondition_correct_witness :
  addOrUpdateCondition 9
    (addOrUpdateCondition 5 (ensureDRPCConditionsInited 1 [] 2 "Initialization")
       ConditionAvailable 3 ConditionFalse "FailingOver" "Starting failover").2
    ConditionAvailable 3 ConditionFalse "FailingOver" "Starting failover"
  = (false, (addOrUpdateCondition 5 (ensureDRPCConditionsInited 1 [] 2 "Initialization")
       ConditionAvailable 3 ConditionFalse "FailingOver" "Starting failover").2).
Proof.
  apply (addOrUpdateCondition_correct 5 9
    (ensureDRPCConditionsInited 1 [] 2 "Initialization") ConditionAvailable 3
    ConditionFalse "FailingOver" "Starting failover"); [|done|done].
  unfold wf_conds. vm_compute. repeat constructor; set_solver.
Defined.
