(* ===== verification/Api.v ===== *)
(** * The hub's custom resources

    The types of api/v1alpha1 the orchestrator reads and writes, with the source's
    field and constant names (fields carry their type's prefix).  A Go string type
    with declared constants is an inductive type with those constants and, where
    the code meets the empty string, a constructor for it.  Values of third-party
    types that are only copied (security contexts, resource requirements, access
    modes) are kept as text. *)

From S2P Require Import Prelude Meta.

(** ** Selectors *)

Record LabelSelector := mkLabelSelector {
  ls_MatchLabels : gmap string string;
  ls_MatchExpressions : list (string * string * list string);
}.
#[export] Instance eta_LabelSelector : Eta LabelSelector := λ x,
  mkLabelSelector (ls_MatchLabels x) (ls_MatchExpressions x).
#[export] Instance LabelSelector_eq : EqDecision LabelSelector.
Proof. solve_decision. Defined.
Definition zero_selector : LabelSelector := mkLabelSelector ∅ [].

(** ** DRPlacementControl (drplacementcontrol_types.go) *)

(** [ActionNone] is the empty string: no action requested. *)
Inductive DRAction := | ActionNone | ActionFailover | ActionRelocate.
#[export] Instance DRAction_eq : EqDecision DRAction.
Proof. solve_decision. Defined.

Definition DRAction_string (x : DRAction) : string :=
  match x with
  | ActionNone => ""
  | ActionFailover => "Failover"
  | ActionRelocate => "Relocate"
  end.

(** [PhaseUnset] is the empty string, the phase of a new DRPC. *)
Inductive DRState := | PhaseUnset | WaitForUser | Initiating | Deploying | Deployed
  | FailingOver | FailedOver | Relocating | Relocated | Deleting.
#[export] Instance DRState_eq : EqDecision DRState.
Proof. solve_decision. Defined.

Definition DRState_string (x : DRState) : string :=
  match x with
  | PhaseUnset => ""
  | WaitForUser => "WaitForUser"
  | Initiating => "Initiating"
  | Deploying => "Deploying"
  | Deployed => "Deployed"
  | FailingOver => "FailingOver"
  | FailedOver => "FailedOver"
  | Relocating => "Relocating"
  | Relocated => "Relocated"
  | Deleting => "Deleting"
  end.

Inductive ProgressionStatus := | ProgressionUnset | ProgressionCompleted
  | ProgressionCreatingMW | ProgressionUpdatingPlRule | ProgressionWaitForReadiness
  | ProgressionCleanupReadiness | ProgressionCleaningUp | ProgressionWaitOnUserToCleanUp
  | ProgressionCheckingFailoverPrerequisites | ProgressionFailingOverToCluster
  | ProgressionWaitForFencing | ProgressionWaitForStorageMaintenanceActivation
  | ProgressionPreparingFinalSync | ProgressionClearingPlacement | ProgressionRunningFinalSync
  | ProgressionFinalSyncComplete | ProgressionEnsuringVolumesAreSecondary
  | ProgressionWaitOnGlobalAction | ProgressionWaitingForResourceRestore
  | ProgressionUpdatedPlacement | ProgressionEnsuringSecondarySetup
  | ProgressionSettingupVolsyncDest | ProgressionDeleting | ProgressionDeleted
  | ProgressionActionPaused | ProgressionTestingFailover.
#[export] Instance ProgressionStatus_eq : EqDecision ProgressionStatus.
Proof. solve_decision. Defined.

Definition ProgressionStatus_string (x : ProgressionStatus) : string :=
  match x with
  | ProgressionUnset => ""
  | ProgressionCompleted => "Completed"
  | ProgressionCreatingMW => "CreatingMW"
  | ProgressionUpdatingPlRule => "UpdatingPlRule"
  | ProgressionWaitForReadiness => "WaitForReadiness"
  | ProgressionCleanupReadiness => "CleanupReadiness"
  | ProgressionCleaningUp => "Cleaning Up"
  | ProgressionWaitOnUserToCleanUp => "WaitOnUserToCleanUp"
  | ProgressionCheckingFailoverPrerequisites => "CheckingFailoverPrerequisites"
  | ProgressionFailingOverToCluster => "FailingOverToCluster"
  | ProgressionWaitForFencing => "WaitForFencing"
  | ProgressionWaitForStorageMaintenanceActivation => "WaitForStorageMaintenanceActivation"
  | ProgressionPreparingFinalSync => "PreparingFinalSync"
  | ProgressionClearingPlacement => "ClearingPlacement"
  | ProgressionRunningFinalSync => "RunningFinalSync"
  | ProgressionFinalSyncComplete => "FinalSyncComplete"
  | ProgressionEnsuringVolumesAreSecondary => "EnsuringVolumesAreSecondary"
  | ProgressionWaitOnGlobalAction => "WaitOnGlobalAction"
  | ProgressionWaitingForResourceRestore => "WaitingForResourceRestore"
  | ProgressionUpdatedPlacement => "UpdatedPlacement"
  | ProgressionEnsuringSecondarySetup => "EnsuringSecondarySetup"
  | ProgressionSettingupVolsyncDest => "SettingUpVolSyncDest"
  | ProgressionDeleting => "Deleting"
  | ProgressionDeleted => "Deleted"
  | ProgressionActionPaused => "Paused"
  | ProgressionTestingFailover => "TestingFailover"
  end.

Record RecipeRef := mkRecipeRef {
  rr_Namespace : string;
  rr_Name : string;
}.
#[export] Instance eta_RecipeRef : Eta RecipeRef := λ x,
  mkRecipeRef (rr_Namespace x) (rr_Name x).
#[export] Instance RecipeRef_eq : EqDecision RecipeRef.
Proof. solve_decision. Defined.

Record KubeObjectProtectionSpec := mkKubeObjectProtectionSpec {
  kop_CaptureInterval : option Z;
  kop_RecipeRef : option RecipeRef;
  kop_RecipeParameters : gmap string (list string);
  kop_KubeObjectSelector : option LabelSelector;
}.
#[export] Instance eta_KubeObjectProtectionSpec : Eta KubeObjectProtectionSpec := λ x,
  mkKubeObjectProtectionSpec (kop_CaptureInterval x) (kop_RecipeRef x) (kop_RecipeParameters x)
    (kop_KubeObjectSelector x).
#[export] Instance KubeObjectProtectionSpec_eq : EqDecision KubeObjectProtectionSpec.
Proof. solve_decision. Defined.

Record MoverConfig := mkMoverConfig {
  mc_MoverSecurityContext : option string;
  mc_MoverServiceAccount : option string;
  mc_PVCName : string;
  mc_PVCNameSpace : string;
}.
#[export] Instance eta_MoverConfig : Eta MoverConfig := λ x,
  mkMoverConfig (mc_MoverSecurityContext x) (mc_MoverServiceAccount x) (mc_PVCName x)
    (mc_PVCNameSpace x).
#[export] Instance MoverConfig_eq : EqDecision MoverConfig.
Proof. solve_decision. Defined.

(** ** VolumeReplicationGroup (volumereplicationgroup_types.go) *)

(** The desired state of a VRG. *)
Inductive ReplicationState := | ReplicationUnset | Primary | Secondary.
#[export] Instance ReplicationState_eq : EqDecision ReplicationState.
Proof. solve_decision. Defined.

Definition ReplicationState_string (x : ReplicationState) : string :=
  match x with
  | ReplicationUnset => ""
  | Primary => "primary"
  | Secondary => "secondary"
  end.

(** The reported state of a VRG. *)
Inductive State := | StateUnset | PrimaryState | SecondaryState | UnknownState.
#[export] Instance State_eq : EqDecision State.
Proof. solve_decision. Defined.

Definition State_string (x : State) : string :=
  match x with
  | StateUnset => ""
  | PrimaryState => "Primary"
  | SecondaryState => "Secondary"
  | UnknownState => "Unknown"
  end.

Inductive VRGAction := | VRGActionNone | VRGActionFailover | VRGActionRelocate.
#[export] Instance VRGAction_eq : EqDecision VRGAction.
Proof. solve_decision. Defined.

Definition VRGAction_string (x : VRGAction) : string :=
  match x with
  | VRGActionNone => ""
  | VRGActionFailover => "Failover"
  | VRGActionRelocate => "Relocate"
  end.

(** The conversion [rmn.DRAction(vrg.Spec.Action)]. *)
Definition DRAction_of_VRGAction (a : VRGAction) : DRAction :=
  match a with
  | VRGActionNone => ActionNone
  | VRGActionFailover => ActionFailover
  | VRGActionRelocate => ActionRelocate
  end.

(** Maintenance modes (maintenancemode_types.go). *)
Definition MMode := string.
Definition MModeFailover : MMode := "Failover".
Definition MModeConditionFailoverActivated : string := "FailoverActivated".

(** A storage class common to a pair of clusters (drpolicy_types.go). *)
Record PeerClass := mkPeerClass {
  pc_ReplicationID : string;
  pc_GroupReplicationID : string;
  pc_StorageID : list string;
  pc_StorageClassName : string;
  pc_ClusterIDs : list string;
  pc_Grouping : bool;
  pc_Offloaded : bool;
  pc_Global : bool;
}.
#[export] Instance eta_PeerClass : Eta PeerClass := λ x,
  mkPeerClass (pc_ReplicationID x) (pc_GroupReplicationID x) (pc_StorageID x)
    (pc_StorageClassName x) (pc_ClusterIDs x) (pc_Grouping x) (pc_Offloaded x) (pc_Global x).
#[export] Instance PeerClass_eq : EqDecision PeerClass.
Proof. solve_decision. Defined.

Record VRGAsyncSpec := mkVRGAsyncSpec {
  va_ReplicationClassSelector : LabelSelector;
  va_VolumeSnapshotClassSelector : LabelSelector;
  va_VolumeGroupSnapshotClassSelector : LabelSelector;
  va_SchedulingInterval : string;
  va_PeerClasses : list PeerClass;
}.
#[export] Instance eta_VRGAsyncSpec : Eta VRGAsyncSpec := λ x,
  mkVRGAsyncSpec (va_ReplicationClassSelector x) (va_VolumeSnapshotClassSelector x)
    (va_VolumeGroupSnapshotClassSelector x) (va_SchedulingInterval x) (va_PeerClasses x).
#[export] Instance VRGAsyncSpec_eq : EqDecision VRGAsyncSpec.
Proof. solve_decision. Defined.

Record VRGSyncSpec := mkVRGSyncSpec {
  vs_PeerClasses : list PeerClass;
}.
#[export] Instance eta_VRGSyncSpec : Eta VRGSyncSpec := λ x,
  mkVRGSyncSpec (vs_PeerClasses x).
#[export] Instance VRGSyncSpec_eq : EqDecision VRGSyncSpec.
Proof. solve_decision. Defined.

Record Identifier := mkIdentifier {
  idf_ID : string;
  idf_Modes : list MMode;
}.
#[export] Instance eta_Identifier : Eta Identifier := λ x,
  mkIdentifier (idf_ID x) (idf_Modes x).
#[export] Instance Identifier_eq : EqDecision Identifier.
Proof. solve_decision. Defined.

Record StorageIdentifiers := mkStorageIdentifiers {
  si_StorageProvisioner : string;
  si_StorageID : Identifier;
  si_ReplicationID : Identifier;
}.
#[export] Instance eta_StorageIdentifiers : Eta StorageIdentifiers := λ x,
  mkStorageIdentifiers (si_StorageProvisioner x) (si_StorageID x) (si_ReplicationID x).
#[export] Instance StorageIdentifiers_eq : EqDecision StorageIdentifiers.
Proof. solve_decision. Defined.

Record ProtectedPVC := mkProtectedPVC {
  pp_Namespace : string;
  pp_Name : string;
  pp_ProtectedByVolSync : bool;
  pp_StorageIdentifiers : StorageIdentifiers;
  pp_StorageClassName : option string;
  pp_Annotations : gmap string string;
  pp_Labels : gmap string string;
  pp_AccessModes : list string;
  pp_Resources : string;
  pp_Conditions : list Condition;
  pp_LastSyncTime : option Z;
  pp_LastSyncDuration : option Z;
  pp_LastSyncBytes : option Z;
  pp_VolumeMode : option string;
}.
#[export] Instance eta_ProtectedPVC : Eta ProtectedPVC := λ x,
  mkProtectedPVC (pp_Namespace x) (pp_Name x) (pp_ProtectedByVolSync x)
    (pp_StorageIdentifiers x) (pp_StorageClassName x) (pp_Annotations x) (pp_Labels x)
    (pp_AccessModes x) (pp_Resources x) (pp_Conditions x) (pp_LastSyncTime x)
    (pp_LastSyncDuration x) (pp_LastSyncBytes x) (pp_VolumeMode x).
#[export] Instance ProtectedPVC_eq : EqDecision ProtectedPVC.
Proof. solve_decision. Defined.

Record RsyncTLSConfig := mkRsyncTLSConfig {
  rt_Address : string;
  rt_TLSSecretRef : option string;
}.
#[export] Instance eta_RsyncTLSConfig : Eta RsyncTLSConfig := λ x,
  mkRsyncTLSConfig (rt_Address x) (rt_TLSSecretRef x).
#[export] Instance RsyncTLSConfig_eq : EqDecision RsyncTLSConfig.
Proof. solve_decision. Defined.

Record VolSyncReplicationDestinationSpec := mkVolSyncReplicationDestinationSpec {
  rd_ProtectedPVC : ProtectedPVC;
  rd_MoverConfig : option MoverConfig;
}.
#[export] Instance eta_VolSyncReplicationDestinationSpec : Eta VolSyncReplicationDestinationSpec := λ x,
  mkVolSyncReplicationDestinationSpec (rd_ProtectedPVC x) (rd_MoverConfig x).
#[export] Instance VolSyncReplicationDestinationSpec_eq : EqDecision VolSyncReplicationDestinationSpec.
Proof. solve_decision. Defined.

Record VolSyncReplicationSourceSpec := mkVolSyncReplicationSourceSpec {
  rs_ProtectedPVC : ProtectedPVC;
  rs_RsyncTLS : option RsyncTLSConfig;
  rs_MoverConfig : option MoverConfig;
}.
#[export] Instance eta_VolSyncReplicationSourceSpec : Eta VolSyncReplicationSourceSpec := λ x,
  mkVolSyncReplicationSourceSpec (rs_ProtectedPVC x) (rs_RsyncTLS x) (rs_MoverConfig x).
#[export] Instance VolSyncReplicationSourceSpec_eq : EqDecision VolSyncReplicationSourceSpec.
Proof. solve_decision. Defined.

Record VolSyncReplicationDestinationInfo := mkVolSyncReplicationDestinationInfo {
  ri_ProtectedPVC : ProtectedPVC;
  ri_RsyncTLS : option RsyncTLSConfig;
}.
#[export] Instance eta_VolSyncReplicationDestinationInfo : Eta VolSyncReplicationDestinationInfo := λ x,
  mkVolSyncReplicationDestinationInfo (ri_ProtectedPVC x) (ri_RsyncTLS x).
#[export] Instance VolSyncReplicationDestinationInfo_eq : EqDecision VolSyncReplicationDestinationInfo.
Proof. solve_decision. Defined.

Record VolSyncSpec := mkVolSyncSpec {
  vss_RDSpec : list VolSyncReplicationDestinationSpec;
  vss_RSSpec : list VolSyncReplicationSourceSpec;
  vss_Disabled : bool;
  vss_MoverConfig : list MoverConfig;
}.
#[export] Instance eta_VolSyncSpec : Eta VolSyncSpec := λ x,
  mkVolSyncSpec (vss_RDSpec x) (vss_RSSpec x) (vss_Disabled x) (vss_MoverConfig x).
#[export] Instance VolSyncSpec_eq : EqDecision VolSyncSpec.
Proof. solve_decision. Defined.
Definition zero_volsync : VolSyncSpec := mkVolSyncSpec [] [] false [].

Record ResourceReference := mkResourceReference {
  rref_APIVersion : string;
  rref_Kind : string;
  rref_Namespace : string;
  rref_Name : string;
}.
#[export] Instance eta_ResourceReference : Eta ResourceReference := λ x,
  mkResourceReference (rref_APIVersion x) (rref_Kind x) (rref_Namespace x) (rref_Name x).
#[export] Instance ResourceReference_eq : EqDecision ResourceReference.
Proof. solve_decision. Defined.

Record AddressTranslation := mkAddressTranslation {
  at_TargetIP : string;
}.
#[export] Instance eta_AddressTranslation : Eta AddressTranslation := λ x,
  mkAddressTranslation (at_TargetIP x).
#[export] Instance AddressTranslation_eq : EqDecision AddressTranslation.
Proof. solve_decision. Defined.

Record NetworkTranslation := mkNetworkTranslation {
  nt_NetworkName : string;
  nt_Addresses : list AddressTranslation;
}.
#[export] Instance eta_NetworkTranslation : Eta NetworkTranslation := λ x,
  mkNetworkTranslation (nt_NetworkName x) (nt_Addresses x).
#[export] Instance NetworkTranslation_eq : EqDecision NetworkTranslation.
Proof. solve_decision. Defined.

Record IPTranslationSpec := mkIPTranslationSpec {
  ipt_ResourceRef : ResourceReference;
  ipt_Networks : list NetworkTranslation;
}.
#[export] Instance eta_IPTranslationSpec : Eta IPTranslationSpec := λ x,
  mkIPTranslationSpec (ipt_ResourceRef x) (ipt_Networks x).
#[export] Instance IPTranslationSpec_eq : EqDecision IPTranslationSpec.
Proof. solve_decision. Defined.

Record StaticIPTranslationSpec := mkStaticIPTranslationSpec {
  sit_IPTranslations : list IPTranslationSpec;
}.
#[export] Instance eta_StaticIPTranslationSpec : Eta StaticIPTranslationSpec := λ x,
  mkStaticIPTranslationSpec (sit_IPTranslations x).
#[export] Instance StaticIPTranslationSpec_eq : EqDecision StaticIPTranslationSpec.
Proof. solve_decision. Defined.

Record DiscoveredNetwork := mkDiscoveredNetwork {
  dn_NetworkName : string;
  dn_Addresses : list string;
}.
#[export] Instance eta_DiscoveredNetwork : Eta DiscoveredNetwork := λ x,
  mkDiscoveredNetwork (dn_NetworkName x) (dn_Addresses x).
#[export] Instance DiscoveredNetwork_eq : EqDecision DiscoveredNetwork.
Proof. solve_decision. Defined.

Record DiscoveredResource := mkDiscoveredResource {
  dr_ResourceRef : ResourceReference;
  dr_Networks : list DiscoveredNetwork;
}.
#[export] Instance eta_DiscoveredResource : Eta DiscoveredResource := λ x,
  mkDiscoveredResource (dr_ResourceRef x) (dr_Networks x).
#[export] Instance DiscoveredResource_eq : EqDecision DiscoveredResource.
Proof. solve_decision. Defined.

Record StaticIPDiscoveryStatus := mkStaticIPDiscoveryStatus {
  sid_Resources : list DiscoveredResource;
}.
#[export] Instance eta_StaticIPDiscoveryStatus : Eta StaticIPDiscoveryStatus := λ x,
  mkStaticIPDiscoveryStatus (sid_Resources x).
#[export] Instance StaticIPDiscoveryStatus_eq : EqDecision StaticIPDiscoveryStatus.
Proof. solve_decision. Defined.

Record VolumeReplicationGroupSpec := mkVolumeReplicationGroupSpec {
  vsp_PVCSelector : LabelSelector;
  vsp_ReplicationState : ReplicationState;
  vsp_S3Profiles : list string;
  vsp_Async : option VRGAsyncSpec;
  vsp_Sync : option VRGSyncSpec;
  vsp_VolSync : VolSyncSpec;
  vsp_PrepareForFinalSync : bool;
  vsp_RunFinalSync : bool;
  vsp_Action : VRGAction;
  vsp_DryRun : bool;
  vsp_KubeObjectProtection : option KubeObjectProtectionSpec;
  vsp_ProtectedNamespaces : option (list string);
  vsp_StaticIPTranslationSpec : option StaticIPTranslationSpec;
}.
#[export] Instance eta_VolumeReplicationGroupSpec : Eta VolumeReplicationGroupSpec := λ x,
  mkVolumeReplicationGroupSpec (vsp_PVCSelector x) (vsp_ReplicationState x) (vsp_S3Profiles x)
    (vsp_Async x) (vsp_Sync x) (vsp_VolSync x) (vsp_PrepareForFinalSync x) (vsp_RunFinalSync x)
    (vsp_Action x) (vsp_DryRun x) (vsp_KubeObjectProtection x) (vsp_ProtectedNamespaces x)
    (vsp_StaticIPTranslationSpec x).
#[export] Instance VolumeReplicationGroupSpec_eq : EqDecision VolumeReplicationGroupSpec.
Proof. solve_decision. Defined.
Definition zero_vrgspec : VolumeReplicationGroupSpec := mkVolumeReplicationGroupSpec zero_selector ReplicationUnset [] None None zero_volsync false false
    VRGActionNone false None None None.

Record KubeObjectsCaptureIdentifier := mkKubeObjectsCaptureIdentifier {
  kc_Number : Z;
  kc_StartTime : Z;
  kc_EndTime : Z;
  kc_StartGeneration : Z;
}.
#[export] Instance eta_KubeObjectsCaptureIdentifier : Eta KubeObjectsCaptureIdentifier := λ x,
  mkKubeObjectsCaptureIdentifier (kc_Number x) (kc_StartTime x) (kc_EndTime x)
    (kc_StartGeneration x).
#[export] Instance KubeObjectsCaptureIdentifier_eq : EqDecision KubeObjectsCaptureIdentifier.
Proof. solve_decision. Defined.

Record VolumeReplicationGroupStatus := mkVolumeReplicationGroupStatus {
  vst_State : State;
  vst_ProtectedPVCs : list ProtectedPVC;
  vst_PVCGroups : list (list string);
  vst_RDInfo : list VolSyncReplicationDestinationInfo;
  vst_Conditions : list Condition;
  vst_ObservedGeneration : Z;
  vst_LastUpdateTime : Z;
  vst_CaptureToRecoverFrom : option KubeObjectsCaptureIdentifier;
  vst_PrepareForFinalSyncComplete : bool;
  vst_FinalSyncComplete : bool;
  vst_LastGroupSyncTime : option Z;
  vst_LastGroupSyncDuration : option Z;
  vst_LastGroupSyncBytes : option Z;
  vst_StaticIPDiscoveryStatus : option StaticIPDiscoveryStatus;
}.
#[export] Instance eta_VolumeReplicationGroupStatus : Eta VolumeReplicationGroupStatus := λ x,
  mkVolumeReplicationGroupStatus (vst_State x) (vst_ProtectedPVCs x) (vst_PVCGroups x)
    (vst_RDInfo x) (vst_Conditions x) (vst_ObservedGeneration x) (vst_LastUpdateTime x)
    (vst_CaptureToRecoverFrom x) (vst_PrepareForFinalSyncComplete x) (vst_FinalSyncComplete x)
    (vst_LastGroupSyncTime x) (vst_LastGroupSyncDuration x) (vst_LastGroupSyncBytes x)
    (vst_StaticIPDiscoveryStatus x).
#[export] Instance VolumeReplicationGroupStatus_eq : EqDecision VolumeReplicationGroupStatus.
Proof. solve_decision. Defined.
Definition zero_vrgstatus : VolumeReplicationGroupStatus := mkVolumeReplicationGroupStatus StateUnset [] [] [] [] 0 0 None false false None None None None.

Record VolumeReplicationGroup := mkVolumeReplicationGroup {
  vrg_Kind : string;
  vrg_APIVersion : string;
  vrg_Meta : ObjectMeta;
  vrg_Spec : VolumeReplicationGroupSpec;
  vrg_Status : VolumeReplicationGroupStatus;
}.
#[export] Instance eta_VolumeReplicationGroup : Eta VolumeReplicationGroup := λ x,
  mkVolumeReplicationGroup (vrg_Kind x) (vrg_APIVersion x) (vrg_Meta x) (vrg_Spec x)
    (vrg_Status x).
#[export] Instance VolumeReplicationGroup_eq : EqDecision VolumeReplicationGroup.
Proof. solve_decision. Defined.

(** ** DRPlacementControl spec and status

    Of the references, [PlacementRef] keeps its namespace and name and [DRPolicyRef],
    to a cluster-scoped resource, its name. *)

Record DRPlacementControlSpec := mkDRPlacementControlSpec {
  dsp_PlacementRef : string * string;
  dsp_ProtectedNamespaces : option (list string);
  dsp_DRPolicyRef : string;
  dsp_PreferredCluster : string;
  dsp_FailoverCluster : string;
  dsp_PVCSelector : LabelSelector;
  dsp_Action : DRAction;
  dsp_DryRun : bool;
  dsp_KubeObjectProtection : option KubeObjectProtectionSpec;
  dsp_VolSyncSpec : option VolSyncSpec;
  dsp_RetainNamespaceSCCAcrossPeers : bool;
}.
#[export] Instance eta_DRPlacementControlSpec : Eta DRPlacementControlSpec := λ x,
  mkDRPlacementControlSpec (dsp_PlacementRef x) (dsp_ProtectedNamespaces x) (dsp_DRPolicyRef x)
    (dsp_PreferredCluster x) (dsp_FailoverCluster x) (dsp_PVCSelector x) (dsp_Action x)
    (dsp_DryRun x) (dsp_KubeObjectProtection x) (dsp_VolSyncSpec x)
    (dsp_RetainNamespaceSCCAcrossPeers x).
#[export] Instance DRPlacementControlSpec_eq : EqDecision DRPlacementControlSpec.
Proof. solve_decision. Defined.

Record PlacementDecision := mkPlacementDecision {
  pd_ClusterName : string;
  pd_ClusterNamespace : string;
}.
#[export] Instance eta_PlacementDecision : Eta PlacementDecision := λ x,
  mkPlacementDecision (pd_ClusterName x) (pd_ClusterNamespace x).
#[export] Instance PlacementDecision_eq : EqDecision PlacementDecision.
Proof. solve_decision. Defined.
Definition zero_decision : PlacementDecision := mkPlacementDecision "" "".

Record VRGResourceMeta := mkVRGResourceMeta {
  vrm_Kind : string;
  vrm_Name : string;
  vrm_Namespace : string;
  vrm_Generation : Z;
  vrm_ProtectedPVCs : list string;
  vrm_PVCGroups : list (list string);
  vrm_ResourceVersion : string;
  vrm_ProtectedStaticIPVMs : list DiscoveredResource;
}.
#[export] Instance eta_VRGResourceMeta : Eta VRGResourceMeta := λ x,
  mkVRGResourceMeta (vrm_Kind x) (vrm_Name x) (vrm_Namespace x) (vrm_Generation x)
    (vrm_ProtectedPVCs x) (vrm_PVCGroups x) (vrm_ResourceVersion x)
    (vrm_ProtectedStaticIPVMs x).
#[export] Instance VRGResourceMeta_eq : EqDecision VRGResourceMeta.
Proof. solve_decision. Defined.

Record VRGConditions := mkVRGConditions {
  vc_ResourceMeta : VRGResourceMeta;
  vc_Conditions : list Condition;
}.
#[export] Instance eta_VRGConditions : Eta VRGConditions := λ x,
  mkVRGConditions (vc_ResourceMeta x) (vc_Conditions x).
#[export] Instance VRGConditions_eq : EqDecision VRGConditions.
Proof. solve_decision. Defined.
Definition zero_vrgconditions : VRGConditions := mkVRGConditions (mkVRGResourceMeta "" "" "" 0 [] [] "" []) [].

Record DRPlacementControlStatus := mkDRPlacementControlStatus {
  dst_Phase : DRState;
  dst_ObservedGeneration : Z;
  dst_ActionStartTime : option Z;
  dst_ActionDuration : option Z;
  dst_Progression : ProgressionStatus;
  dst_PreferredDecision : PlacementDecision;
  dst_Conditions : list Condition;
  dst_ResourceConditions : VRGConditions;
  dst_LastUpdateTime : option Z;
  dst_LastGroupSyncTime : option Z;
  dst_LastGroupSyncDuration : option Z;
  dst_LastGroupSyncBytes : option Z;
  dst_LastKubeObjectProtectionTime : option Z;
}.
#[export] Instance eta_DRPlacementControlStatus : Eta DRPlacementControlStatus := λ x,
  mkDRPlacementControlStatus (dst_Phase x) (dst_ObservedGeneration x) (dst_ActionStartTime x)
    (dst_ActionDuration x) (dst_Progression x) (dst_PreferredDecision x) (dst_Conditions x)
    (dst_ResourceConditions x) (dst_LastUpdateTime x) (dst_LastGroupSyncTime x)
    (dst_LastGroupSyncDuration x) (dst_LastGroupSyncBytes x)
    (dst_LastKubeObjectProtectionTime x).
#[export] Instance DRPlacementControlStatus_eq : EqDecision DRPlacementControlStatus.
Proof. solve_decision. Defined.
Definition zero_drpcstatus : DRPlacementControlStatus := mkDRPlacementControlStatus PhaseUnset 0 None None ProgressionUnset zero_decision [] zero_vrgconditions
    None None None None None.

Record DRPlacementControl := mkDRPlacementControl {
  drpc_Meta : ObjectMeta;
  drpc_Spec : DRPlacementControlSpec;
  drpc_Status : DRPlacementControlStatus;
}.
#[export] Instance eta_DRPlacementControl : Eta DRPlacementControl := λ x,
  mkDRPlacementControl (drpc_Meta x) (drpc_Spec x) (drpc_Status x).
#[export] Instance DRPlacementControl_eq : EqDecision DRPlacementControl.
Proof. solve_decision. Defined.

(** ** DRPolicy (drpolicy_types.go) *)

Record DRPolicySpec := mkDRPolicySpec {
  dps_SchedulingInterval : string;
  dps_ReplicationClassSelector : LabelSelector;
  dps_VolumeSnapshotClassSelector : LabelSelector;
  dps_VolumeGroupSnapshotClassSelector : LabelSelector;
  dps_DRClusters : list string;
  dps_NetworkMappingRef : option string;
}.
#[export] Instance eta_DRPolicySpec : Eta DRPolicySpec := λ x,
  mkDRPolicySpec (dps_SchedulingInterval x) (dps_ReplicationClassSelector x)
    (dps_VolumeSnapshotClassSelector x) (dps_VolumeGroupSnapshotClassSelector x)
    (dps_DRClusters x) (dps_NetworkMappingRef x).
#[export] Instance DRPolicySpec_eq : EqDecision DRPolicySpec.
Proof. solve_decision. Defined.

Record NetworkPeer := mkNetworkPeer {
  np_NADName : string;
  np_NADNamespace : string;
  np_ClusterCNITypes : gmap string string;
}.
#[export] Instance eta_NetworkPeer : Eta NetworkPeer := λ x,
  mkNetworkPeer (np_NADName x) (np_NADNamespace x) (np_ClusterCNITypes x).
#[export] Instance NetworkPeer_eq : EqDecision NetworkPeer.
Proof. solve_decision. Defined.

(** [Async] and [Sync] hold the [PeerClasses] of the source's one-field structs. *)
Record DRPolicyStatus := mkDRPolicyStatus {
  dpt_Conditions : list Condition;
  dpt_Async : list PeerClass;
  dpt_Sync : list PeerClass;
  dpt_NetworkPeers : list NetworkPeer;
}.
#[export] Instance eta_DRPolicyStatus : Eta DRPolicyStatus := λ x,
  mkDRPolicyStatus (dpt_Conditions x) (dpt_Async x) (dpt_Sync x) (dpt_NetworkPeers x).
#[export] Instance DRPolicyStatus_eq : EqDecision DRPolicyStatus.
Proof. solve_decision. Defined.

Record DRPolicy := mkDRPolicy {
  drp_Meta : ObjectMeta;
  drp_Spec : DRPolicySpec;
  drp_Status : DRPolicyStatus;
}.
#[export] Instance eta_DRPolicy : Eta DRPolicy := λ x,
  mkDRPolicy (drp_Meta x) (drp_Spec x) (drp_Status x).
#[export] Instance DRPolicy_eq : EqDecision DRPolicy.
Proof. solve_decision. Defined.

(** ** DRCluster (drcluster_types.go) *)

Inductive ClusterFenceState := | ClusterFenceStateUnset | ClusterFenceStateUnfenced
  | ClusterFenceStateFenced | ClusterFenceStateManuallyFenced
  | ClusterFenceStateManuallyUnfenced.
#[export] Instance ClusterFenceState_eq : EqDecision ClusterFenceState.
Proof. solve_decision. Defined.

Inductive DRClusterPhase := | DRClusterPhaseUnset | Available | Starting | Fencing | Fenced
  | Unfencing | Unfenced.
#[export] Instance DRClusterPhase_eq : EqDecision DRClusterPhase.
Proof. solve_decision. Defined.

Record DRClusterSpec := mkDRClusterSpec {
  dcs_CIDRs : list string;
  dcs_ClusterFence : ClusterFenceState;
  dcs_Region : string;
  dcs_S3ProfileName : string;
}.
#[export] Instance eta_DRClusterSpec : Eta DRClusterSpec := λ x,
  mkDRClusterSpec (dcs_CIDRs x) (dcs_ClusterFence x) (dcs_Region x) (dcs_S3ProfileName x).
#[export] Instance DRClusterSpec_eq : EqDecision DRClusterSpec.
Proof. solve_decision. Defined.

Record ClusterMaintenanceMode := mkClusterMaintenanceMode {
  cmm_StorageProvisioner : string;
  cmm_TargetID : string;
  cmm_State : string;
  cmm_Conditions : list Condition;
}.
#[export] Instance eta_ClusterMaintenanceMode : Eta ClusterMaintenanceMode := λ x,
  mkClusterMaintenanceMode (cmm_StorageProvisioner x) (cmm_TargetID x) (cmm_State x)
    (cmm_Conditions x).
#[export] Instance ClusterMaintenanceMode_eq : EqDecision ClusterMaintenanceMode.
Proof. solve_decision. Defined.

Record DRClusterStatus := mkDRClusterStatus {
  dct_Phase : DRClusterPhase;
  dct_Conditions : list Condition;
  dct_MaintenanceModes : list ClusterMaintenanceMode;
}.
#[export] Instance eta_DRClusterStatus : Eta DRClusterStatus := λ x,
  mkDRClusterStatus (dct_Phase x) (dct_Conditions x) (dct_MaintenanceModes x).
#[export] Instance DRClusterStatus_eq : EqDecision DRClusterStatus.
Proof. solve_decision. Defined.

Record DRCluster := mkDRCluster {
  dc_Meta : ObjectMeta;
  dc_Spec : DRClusterSpec;
  dc_Status : DRClusterStatus;
}.
#[export] Instance eta_DRCluster : Eta DRCluster := λ x,
  mkDRCluster (dc_Meta x) (dc_Spec x) (dc_Status x).
#[export] Instance DRCluster_eq : EqDecision DRCluster.
Proof. solve_decision. Defined.

(** DRCluster conditions. *)
Definition DRClusterValidated : string := "Validated".
Definition DRClusterConditionTypeClean : string := "Clean".
Definition DRClusterConditionTypeCIDRsValidated : string := "CIDRsValidated".
Definition ReasonCIDRsValidationSucceeded : string := "Succeeded".
Definition ReasonInvalidCIDRsFormat : string := "InvalidCIDRsFormat".
Definition ReasonDetectedCIDRsUnconfigured : string := "DetectedCIDRsUnconfigured".
Definition ReasonUndetectedCIDRsFound : string := "UndetectedCIDRsFound".

Definition ClusterFenceState_string (x : ClusterFenceState) : string :=
  match x with
  | ClusterFenceStateUnset => ""
  | ClusterFenceStateUnfenced => "Unfenced"
  | ClusterFenceStateFenced => "Fenced"
  | ClusterFenceStateManuallyFenced => "ManuallyFenced"
  | ClusterFenceStateManuallyUnfenced => "ManuallyUnfenced"
  end.

(** ** MaintenanceMode (maintenancemode_types.go) *)

Record MaintenanceModeSpec := mkMaintenanceModeSpec {
  mms_StorageProvisioner : string;
  mms_TargetID : string;
  mms_Modes : list MMode;
}.
#[export] Instance eta_MaintenanceModeSpec : Eta MaintenanceModeSpec := λ x,
  mkMaintenanceModeSpec (mms_StorageProvisioner x) (mms_TargetID x) (mms_Modes x).
#[export] Instance MaintenanceModeSpec_eq : EqDecision MaintenanceModeSpec.
Proof. solve_decision. Defined.

Record MaintenanceModeStatus := mkMaintenanceModeStatus {
  mmt_State : string;
  mmt_ObservedGeneration : Z;
  mmt_Conditions : list Condition;
}.
#[export] Instance eta_MaintenanceModeStatus : Eta MaintenanceModeStatus := λ x,
  mkMaintenanceModeStatus (mmt_State x) (mmt_ObservedGeneration x) (mmt_Conditions x).
#[export] Instance MaintenanceModeStatus_eq : EqDecision MaintenanceModeStatus.
Proof. solve_decision. Defined.

Record MaintenanceMode := mkMaintenanceMode {
  mm_Meta : ObjectMeta;
  mm_Spec : MaintenanceModeSpec;
  mm_Status : MaintenanceModeStatus;
}.
#[export] Instance eta_MaintenanceMode : Eta MaintenanceMode := λ x,
  mkMaintenanceMode (mm_Meta x) (mm_Spec x) (mm_Status x).
#[export] Instance MaintenanceMode_eq : EqDecision MaintenanceMode.
Proof. solve_decision. Defined.

Definition MModeStateUnknown : string := "Unknown".
Definition MModeStateError : string := "Error".
Definition MModeStateProgressing : string := "Progressing".
Definition MModeStateCompleted : string := "Completed".

(** ** DRClusterConfig (drclusterconfig_types.go) *)

Record DRClusterConfigSpec := mkDRClusterConfigSpec {
  dccs_ReplicationSchedules : list string;
  dccs_ClusterID : string;
}.
#[export] Instance eta_DRClusterConfigSpec : Eta DRClusterConfigSpec := λ x,
  mkDRClusterConfigSpec (dccs_ReplicationSchedules x) (dccs_ClusterID x).
#[export] Instance DRClusterConfigSpec_eq : EqDecision DRClusterConfigSpec.
Proof. solve_decision. Defined.

Record NetworkAttachment := mkNetworkAttachment {
  na_Name : string;
  na_Namespace : string;
  na_CNIType : string;
}.
#[export] Instance eta_NetworkAttachment : Eta NetworkAttachment := λ x,
  mkNetworkAttachment (na_Name x) (na_Namespace x) (na_CNIType x).
#[export] Instance NetworkAttachment_eq : EqDecision NetworkAttachment.
Proof. solve_decision. Defined.

Record StorageAccessDetail := mkStorageAccessDetail {
  sad_StorageProvisioner : string;
  sad_CIDRs : list string;
}.
#[export] Instance eta_StorageAccessDetail : Eta StorageAccessDetail := λ x,
  mkStorageAccessDetail (sad_StorageProvisioner x) (sad_CIDRs x).
#[export] Instance StorageAccessDetail_eq : EqDecision StorageAccessDetail.
Proof. solve_decision. Defined.

Record DRClusterConfigStatus := mkDRClusterConfigStatus {
  dcct_Conditions : list Condition;
  dcct_StorageClasses : list string;
  dcct_VolumeSnapshotClasses : list string;
  dcct_VolumeGroupSnapshotClasses : list string;
  dcct_VolumeReplicationClasses : list string;
  dcct_VolumeGroupReplicationClasses : list string;
  dcct_NetworkFenceClasses : list string;
  dcct_StorageAccessDetails : list StorageAccessDetail;
  dcct_NetworkAttachments : list NetworkAttachment;
}.
#[export] Instance eta_DRClusterConfigStatus : Eta DRClusterConfigStatus := λ x,
  mkDRClusterConfigStatus (dcct_Conditions x) (dcct_StorageClasses x) (dcct_VolumeSnapshotClasses x)
    (dcct_VolumeGroupSnapshotClasses x) (dcct_VolumeReplicationClasses x)
    (dcct_VolumeGroupReplicationClasses x) (dcct_NetworkFenceClasses x) (dcct_StorageAccessDetails x)
    (dcct_NetworkAttachments x).
#[export] Instance DRClusterConfigStatus_eq : EqDecision DRClusterConfigStatus.
Proof. solve_decision. Defined.

Record DRClusterConfig := mkDRClusterConfig {
  dcc_Meta : ObjectMeta;
  dcc_Spec : DRClusterConfigSpec;
  dcc_Status : DRClusterConfigStatus;
}.
#[export] Instance eta_DRClusterConfig : Eta DRClusterConfig := λ x,
  mkDRClusterConfig (dcc_Meta x) (dcc_Spec x) (dcc_Status x).
#[export] Instance DRClusterConfig_eq : EqDecision DRClusterConfig.
Proof. solve_decision. Defined.
Definition zero_dccstatus : DRClusterConfigStatus := mkDRClusterConfigStatus [] [] [] [] [] [] [] [] [].

Definition DRClusterConfigConfigurationProcessed : string := "Processed".
Definition DRClusterConfigS3Reachable : string := "Reachable".

(** [DRClusterConditionTypeFenced] *)
Definition DRClusterConditionTypeFenced : string := "Fenced".

(** The VRG condition types and reasons the hub inspects (internal/controller/status.go). *)
Definition VRGConditionTypeDataReady : string := "DataReady".
Definition VRGConditionTypeDataProtected : string := "DataProtected".
Definition VRGConditionTypeClusterDataReady : string := "ClusterDataReady".
Definition VRGConditionTypeClusterDataProtected : string := "ClusterDataProtected".
Definition VRGConditionTypeAutoCleanup : string := "AutoCleanup".
Definition VRGConditionTypeNoClusterDataConflict : string := "NoClusterDataConflict".
Definition VRGConditionReasonAutoCleanupProgressing : string := "Progressing".
Definition VRGConditionReasonAutoCleanupCompleted : string := "Completed".

(** ** Annotation and label keys *)
Definition DRPCNameAnnotation : string := "drplacementcontrol.ramendr.openshift.io/drpc-name".
Definition DRPCNamespaceAnnotation : string := "drplacementcontrol.ramendr.openshift.io/drpc-namespace".
Definition DRPCUIDAnnotation : string := "drplacementcontrol.ramendr.openshift.io/drpc-uid".
Definition LastAppDeploymentCluster : string :=
  "drplacementcontrol.ramendr.openshift.io/last-app-deployment-cluster".
Definition DRPCTestFailoverDryRunAnnotation : string :=
  "drplacementcontrol.ramendr.openshift.io/test-failover-dryrun".
Definition DRPCLastAction : string := "drplacementcontrol.ramendr.openshift.io/last-action".
Definition DestinationClusterAnnotationKey : string :=
  "drplacementcontrol.ramendr.openshift.io/destination-cluster".
Definition IsCGEnabledAnnotation : string := "drplacementcontrol.ramendr.openshift.io/is-cg-enabled".
Definition IsSubmarinerEnabledAnnotation : string :=
  "drplacementcontrol.ramendr.openshift.io/is-submariner-enabled".
Definition UseVolSyncAnnotation : string :=
  "drplacementcontrol.ramendr.openshift.io/use-volsync-for-pvc-protection".
Definition EnableDiffAnnotation : string := "drplacementcontrol.ramendr.openshift.io/enable-diff".
Definition GlobalVGRLabel : string := "ramendr.openshift.io/global-vgr".
Definition CreatedByRamenLabel : string := "ramendr.openshift.io/created-by-ramen".
Definition OCMBackupLabelKey : string := "cluster.open-cluster-management.io/backup".
Definition VMRecipeName : string := "vm-recipe".

(** ** Small predicates on the resources *)

Definition DRPolicyClusterNames (p : DRPolicy) : list string := dps_DRClusters (drp_Spec p).

Definition isVRGPrimary (v : VolumeReplicationGroup) : bool :=
  bool_decide (vsp_ReplicationState (vrg_Spec v) = Primary).
Definition isVRGSecondary (v : VolumeReplicationGroup) : bool :=
  bool_decide (vsp_ReplicationState (vrg_Spec v) = Secondary).

Definition isDiscoveredApp (d : DRPlacementControl) : bool :=
  match dsp_ProtectedNamespaces (drpc_Spec d) with
  | Some ns => bool_decide (ns ≠ [])
  | None => false
  end.

Definition IsVMRecipe (kop : option KubeObjectProtectionSpec) : bool :=
  match kop with
  | Some k => match kop_RecipeRef k with
              | Some r => bool_decide (rr_Name r = VMRecipeName)
              | None => false
              end
  | None => false
  end.

Definition IsSubmarinerEnabled (annotations : gmap string string) : bool :=
  bool_decide (map_get annotations IsSubmarinerEnabledAnnotation ≠ "false").

Definition IsPVCMarkedForVolSync (annotations : gmap string string) : bool :=
  bool_decide (map_get annotations UseVolSyncAnnotation = "true").

Definition IsDiffSyncEnabled (annotations : gmap string string) : bool :=
  bool_decide (map_get annotations EnableDiffAnnotation = "true").

(** [vrgAction]: the action a VRG is given for a DRPC action. *)
Definition vrgAction (a : DRAction) : VRGAction :=
  match a with
  | ActionFailover => VRGActionFailover
  | ActionRelocate => VRGActionRelocate
  | ActionNone => VRGActionNone
  end.

Definition IsPreRelocateProgression (status : ProgressionStatus) : bool :=
  bool_decide (status ∈ [ProgressionPreparingFinalSync; ProgressionClearingPlacement;
    ProgressionRunningFinalSync; ProgressionFinalSyncComplete;
    ProgressionEnsuringVolumesAreSecondary; ProgressionWaitOnUserToCleanUp]).
