(* ===== verification/VRGStatus.v ===== *)
(** * The status of a VRG

    internal/controller/status.go: the condition types and reasons of a VRG and its
    protected PVCs, and the setters of the conditions; vrg_status_pvcs.go: the list of
    protected PVCs; and the setters of vrg_volrep.go that turn a reason into the
    condition of a protected PVC.  [now] is the clock when the condition is set. *)

From Stdlib Require Import ZArith.
From S2P Require Import Prelude Meta Conditions Api.

(** ** Condition types and reasons *)

Definition VRGConditionTypeKubeObjectsReady : string := "KubeObjectsReady".
Definition VRGConditionTypeVolSyncRepSourceSetup : string := "ReplicationSourceSetup".
Definition VRGConditionTypeVolSyncFinalSyncInProgress : string := "FinalSyncInProgress".
Definition VRGConditionTypeVolSyncRepDestinationSetup : string := "ReplicationDestinationSetup".
Definition VRGConditionTypeVolSyncPVsRestored : string := "PVsRestored".
Definition VRGConditionTypeGlobalState : string := "GlobalState".
Definition VRGConditionTypeGlobalSecondary : string := "GlobalSecondary".
Definition VRGConditionReasonUnused : string := "Unused".
Definition VRGConditionReasonInitializing : string := "Initializing".
Definition VRGConditionReasonReplicated : string := "Replicated".
Definition VRGConditionReasonReady : string := "Ready".
Definition VRGConditionReasonDataProtected : string := "DataProtected".
Definition VRGConditionReasonProgressing : string := "Progressing".
Definition VRGConditionReasonClusterDataRestored : string := "Restored".
Definition VRGConditionReasonClusterDataUnused : string := "Unused".
Definition VRGConditionReasonKubeObjectsRestored : string := "KubeObjectsRestored".
Definition VRGConditionReasonKubeObjectsUnused : string := "Unused".
Definition VRGConditionReasonError : string := "Error".
Definition VRGConditionReasonErrorUnknown : string := "UnknownError".
Definition VRGConditionReasonUploading : string := "Uploading".
Definition VRGConditionReasonUploaded : string := "Uploaded".
Definition VRGConditionReasonUploadError : string := "UploadError".
Definition VRGConditionReasonVolSyncRepSourceInited : string := "SourceInitialized".
Definition VRGConditionReasonVolSyncRepDestInited : string := "DestinationInitialized".
Definition VRGConditionReasonVolSyncPVsRestored : string := "Restored".
Definition VRGConditionReasonVolSyncFinalSyncInProgress : string := "Syncing".
Definition VRGConditionReasonVolSyncFinalSyncComplete : string := "Synced".
Definition VRGConditionReasonClusterDataAnnotationFailed : string := "AnnotationFailed".
Definition VRGConditionReasonPeerClassNotFound : string := "PeerClassNotFound".
Definition VRGConditionReasonStorageIDNotFound : string := "StorageIDNotFound".
Definition VRGConditionReasonClusterDataConflictPrimary : string := "ClusterDataConflictPrimary".
Definition VRGConditionReasonClusterDataConflictSecondary : string :=
  "ClusterDataConflictSecondary".
Definition VRGConditionReasonNoConflictDetected : string := "NoConflictDetected".
Definition VRGConditionReasonAutoCleanupNotFeasible : string := "NotFeasible".
Definition ConditionReasonConsensusReached : string := "ConsensusReached".
Definition ConditionReasonConsensusNotReached : string := "ConsensusNotReached".
Definition VRGConditionReasonPVCsNotInUse : string := "PVCsNotInUse".
Definition VRGConditionReasonPVCsInUse : string := "PVCsInUse".
Definition VRGConditionReasonHookExecuted : string := "HookExecuted".
Definition vrgClusterDataProtectedTrueMessage : string := "VRG object protected".
Definition kubeObjectsClusterDataProtectedTrueMessage : string := "Kube objects protected".
Definition VRGConditionTypeHooksReady : string := "HooksReady".
Definition VRGConditionTypeDestinationInfoAvailable : string := "DestinationInfoAvailable".
Definition VRGConditionTypeReplicationHealthy : string := "ReplicationHealthy".
Definition VRGConditionReasonReplicating : string := "Replicating".
Definition VRGConditionReasonHookFailed : string := "HookFailed".

(** ** New conditions

    The transition time is left unset: setting the condition sets it. *)

Definition new_condition (type : string) (status : ConditionStatus) (reason : string)
    (observedGeneration : Z) (message : string) : Condition :=
  mkCondition type status observedGeneration 0 reason message.

Definition newVRGDataReplicatingCondition (observedGeneration : Z) (reason message : string) : Condition :=
  new_condition VRGConditionTypeDataReady ConditionTrue reason observedGeneration message.
Definition newVRGDataReplicatedCondition (observedGeneration : Z) (message : string) : Condition :=
  new_condition VRGConditionTypeDataReady ConditionTrue VRGConditionReasonReplicated observedGeneration message.
Definition newVRGAsDataProtectedCondition (observedGeneration : Z) (message : string) : Condition :=
  new_condition VRGConditionTypeDataProtected ConditionTrue VRGConditionReasonDataProtected observedGeneration message.
Definition newVRGAsDataProtectedUnusedCondition (observedGeneration : Z) (message : string) : Condition :=
  new_condition VRGConditionTypeDataProtected ConditionTrue VRGConditionReasonUnused observedGeneration message.
Definition newVRGAsDataNotProtectedCondition (observedGeneration : Z) (message : string) : Condition :=
  new_condition VRGConditionTypeDataProtected ConditionFalse VRGConditionReasonError observedGeneration message.
Definition newVRGDataProtectionProgressCondition (observedGeneration : Z) (message : string) : Condition :=
  new_condition VRGConditionTypeDataProtected ConditionFalse VRGConditionReasonReplicating observedGeneration message.
Definition newVRGAsPrimaryReadyCondition (observedGeneration : Z) (reason message : string) : Condition :=
  new_condition VRGConditionTypeDataReady ConditionTrue reason observedGeneration message.
Definition newVRGDataProgressingCondition (observedGeneration : Z) (message : string) : Condition :=
  new_condition VRGConditionTypeDataReady ConditionFalse VRGConditionReasonProgressing observedGeneration message.
Definition newVRGDataErrorCondition (observedGeneration : Z) (message : string) : Condition :=
  new_condition VRGConditionTypeDataReady ConditionFalse VRGConditionReasonError observedGeneration message.
Definition newVRGClusterDataProtectedCondition (observedGeneration : Z) (message : string) : Condition :=
  new_condition VRGConditionTypeClusterDataProtected ConditionTrue VRGConditionReasonUploaded observedGeneration message.
Definition newVRGClusterDataProtectedUnusedCondition (observedGeneration : Z) (message : string) : Condition :=
  new_condition VRGConditionTypeClusterDataProtected ConditionTrue VRGConditionReasonUnused observedGeneration message.
Definition newVRGClusterDataProtectingCondition (observedGeneration : Z) (message : string) : Condition :=
  new_condition VRGConditionTypeClusterDataProtected ConditionFalse VRGConditionReasonUploading observedGeneration message.
Definition newVRGClusterDataUnprotectedCondition (observedGeneration : Z) (reason message : string) : Condition :=
  new_condition VRGConditionTypeClusterDataProtected ConditionFalse reason observedGeneration message.
Definition updateVRGNoClusterDataConflictCondition (observedGeneration : Z) (status : ConditionStatus)
    (reason message : string) : Condition :=
  new_condition VRGConditionTypeNoClusterDataConflict status reason observedGeneration message.

(** ** Setters *)

Section setters.
Context (now : Z).

Definition set_condition (conditions : list Condition) (c : Condition) : list Condition :=
  (SetStatusCondition now conditions c).2.

Definition setVRGInitialCondition (conditions : list Condition) (observedGeneration : Z) (message : string)
    : list Condition :=
  foldl (λ conditions conditionType,
           SetStatusConditionIfNotFound now conditions
             (mkCondition conditionType ConditionUnknown observedGeneration now
                VRGConditionReasonInitializing message))
    conditions
    [VRGConditionTypeDataReady; VRGConditionTypeDataProtected; VRGConditionTypeClusterDataReady;
     VRGConditionTypeKubeObjectsReady; VRGConditionTypeClusterDataProtected; VRGConditionTypeAutoCleanup;
     VRGConditionTypeNoClusterDataConflict; VRGConditionTypeHooksReady].

Definition setVRGDataReplicatingCondition (conditions : list Condition) (observedGeneration : Z)
    (message : string) : list Condition :=
  set_condition conditions
    (newVRGDataReplicatingCondition observedGeneration VRGConditionReasonReplicating message).
Definition setVRGDataReplicatedCondition (conditions : list Condition) (observedGeneration : Z)
    (message : string) : list Condition :=
  set_condition conditions
    (newVRGDataReplicatedCondition observedGeneration message).
Definition setVRGAsDataProtectedCondition (conditions : list Condition) (observedGeneration : Z)
    (message : string) : list Condition :=
  set_condition conditions
    (newVRGAsDataProtectedCondition observedGeneration message).
Definition setVRGAsDataNotProtectedCondition (conditions : list Condition) (observedGeneration : Z)
    (message : string) : list Condition :=
  set_condition conditions
    (newVRGAsDataNotProtectedCondition observedGeneration message).
Definition setVRGDataProtectionProgressCondition (conditions : list Condition) (observedGeneration : Z)
    (message : string) : list Condition :=
  set_condition conditions
    (newVRGDataProtectionProgressCondition observedGeneration message).
Definition setVRGAsPrimaryReadyCondition (conditions : list Condition) (observedGeneration : Z)
    (message : string) : list Condition :=
  set_condition conditions
    (newVRGAsPrimaryReadyCondition observedGeneration VRGConditionReasonReady message).
Definition setVRGDataProgressingCondition (conditions : list Condition) (observedGeneration : Z)
    (message : string) : list Condition :=
  set_condition conditions
    (newVRGDataProgressingCondition observedGeneration message).
Definition setVRGDataErrorCondition (conditions : list Condition) (observedGeneration : Z)
    (message : string) : list Condition :=
  set_condition conditions
    (newVRGDataErrorCondition observedGeneration message).
Definition setVRGDataErrorUnknownCondition (conditions : list Condition) (observedGeneration : Z)
    (message : string) : list Condition :=
  set_condition conditions
    (new_condition VRGConditionTypeDataReady ConditionUnknown VRGConditionReasonErrorUnknown observedGeneration message).
Definition setVRGDataStorageIDNotFoundCondition (conditions : list Condition) (observedGeneration : Z)
    (message : string) : list Condition :=
  set_condition conditions
    (new_condition VRGConditionTypeDataReady ConditionUnknown VRGConditionReasonStorageIDNotFound observedGeneration message).
Definition setVRGDataPeerClassNotFoundCondition (conditions : list Condition) (observedGeneration : Z)
    (message : string) : list Condition :=
  set_condition conditions
    (new_condition VRGConditionTypeDataReady ConditionUnknown VRGConditionReasonPeerClassNotFound observedGeneration message).
Definition setVRGClusterDataReadyCondition (conditions : list Condition) (observedGeneration : Z)
    (message : string) : list Condition :=
  set_condition conditions
    (new_condition VRGConditionTypeClusterDataReady ConditionTrue VRGConditionReasonClusterDataRestored observedGeneration message).
Definition setVRGClusterDataReadyConditionUnused (conditions : list Condition) (observedGeneration : Z)
    (message : string) : list Condition :=
  set_condition conditions
    (new_condition VRGConditionTypeClusterDataReady ConditionTrue VRGConditionReasonClusterDataUnused observedGeneration message).
Definition setVRGClusterDataErrorCondition (conditions : list Condition) (observedGeneration : Z)
    (message : string) : list Condition :=
  set_condition conditions
    (new_condition VRGConditionTypeClusterDataReady ConditionFalse VRGConditionReasonError observedGeneration message).
Definition setVRGClusterDataProtectedCondition (conditions : list Condition) (observedGeneration : Z)
    (message : string) : list Condition :=
  set_condition conditions
    (newVRGClusterDataProtectedCondition observedGeneration message).
Definition setVRGClusterDataProtectingCondition (conditions : list Condition) (observedGeneration : Z)
    (message : string) : list Condition :=
  set_condition conditions
    (newVRGClusterDataProtectingCondition observedGeneration message).
Definition setVRGKubeObjectsReadyCondition (conditions : list Condition) (observedGeneration : Z)
    (message : string) : list Condition :=
  set_condition conditions
    (new_condition VRGConditionTypeKubeObjectsReady ConditionTrue VRGConditionReasonKubeObjectsRestored observedGeneration message).
Definition setVRGKubeObjectsReadyConditionUnused (conditions : list Condition) (observedGeneration : Z)
    (message : string) : list Condition :=
  set_condition conditions
    (new_condition VRGConditionTypeKubeObjectsReady ConditionTrue VRGConditionReasonKubeObjectsUnused observedGeneration message).
Definition setVRGKubeObjectsErrorCondition (conditions : list Condition) (observedGeneration : Z)
    (message : string) : list Condition :=
  set_condition conditions
    (new_condition VRGConditionTypeKubeObjectsReady ConditionFalse VRGConditionReasonError observedGeneration message).
Definition setVRGConditionTypeVolSyncRepSourceSetupComplete (conditions : list Condition) (observedGeneration : Z)
    (message : string) : list Condition :=
  set_condition conditions
    (new_condition VRGConditionTypeVolSyncRepSourceSetup ConditionTrue VRGConditionReasonVolSyncRepSourceInited observedGeneration message).
Definition setVRGConditionTypeVolSyncRepSourceSetupError (conditions : list Condition) (observedGeneration : Z)
    (message : string) : list Condition :=
  set_condition conditions
    (new_condition VRGConditionTypeVolSyncRepSourceSetup ConditionFalse VRGConditionReasonError observedGeneration message).
Definition setVRGConditionTypeVolSyncPVRestoreComplete (conditions : list Condition) (observedGeneration : Z)
    (message : string) : list Condition :=
  set_condition conditions
    (new_condition VRGConditionTypeVolSyncPVsRestored ConditionTrue VRGConditionReasonVolSyncPVsRestored observedGeneration message).
Definition setVRGConditionTypeVolSyncPVRestoreError (conditions : list Condition) (observedGeneration : Z)
    (message : string) : list Condition :=
  set_condition conditions
    (new_condition VRGConditionTypeVolSyncPVsRestored ConditionFalse VRGConditionReasonError observedGeneration message).
Definition setVRGHookExecutedCondition (conditions : list Condition) (observedGeneration : Z)
    (message : string) : list Condition :=
  set_condition conditions
    (new_condition VRGConditionTypeHooksReady ConditionTrue VRGConditionReasonHookExecuted observedGeneration message).
Definition setVRGHookFailedCondition (conditions : list Condition) (observedGeneration : Z)
    (message : string) : list Condition :=
  set_condition conditions
    (new_condition VRGConditionTypeHooksReady ConditionFalse VRGConditionReasonHookFailed observedGeneration message).
Definition setVRGClusterDataUnprotectedCondition (conditions : list Condition) (observedGeneration : Z)
    (reason message : string) : list Condition :=
  set_condition conditions (newVRGClusterDataUnprotectedCondition observedGeneration reason message).
Definition setVRGAutoCleanupCondition (conditions : list Condition) (observedGeneration : Z)
    (status : ConditionStatus) (reason message : string) : list Condition :=
  set_condition conditions (new_condition VRGConditionTypeAutoCleanup status reason observedGeneration message).

(** ** The conditions of a protected PVC (vrg_volrep.go) *)

Definition setPVCDataReadyCondition (protectedPVC : ProtectedPVC) (reason message : string)
    (observedGeneration : Z) : ProtectedPVC :=
  protectedPVC <| pp_Conditions ::= λ conditions,
    if reason =? VRGConditionReasonError
    then setVRGDataErrorCondition conditions observedGeneration message
    else if reason =? VRGConditionReasonReplicating
    then setVRGDataReplicatingCondition conditions observedGeneration message
    else if reason =? VRGConditionReasonReplicated
    then setVRGDataReplicatedCondition conditions observedGeneration message
    else if reason =? VRGConditionReasonReady
    then setVRGAsPrimaryReadyCondition conditions observedGeneration message
    else if reason =? VRGConditionReasonProgressing
    then setVRGDataProgressingCondition conditions observedGeneration message
    else if reason =? VRGConditionReasonErrorUnknown
    then setVRGDataErrorUnknownCondition conditions observedGeneration message
    else if reason =? VRGConditionReasonPeerClassNotFound
    then setVRGDataPeerClassNotFoundCondition conditions observedGeneration message
    else if reason =? VRGConditionReasonStorageIDNotFound
    then setVRGDataStorageIDNotFoundCondition conditions observedGeneration message
    else setVRGDataErrorCondition conditions observedGeneration ("Unknown reason: " +:+ reason) |>.

(** The last two cases set the [DataReady] condition, not [DataProtected]. *)
Definition setPVCDataProtectedCondition (protectedPVC : ProtectedPVC) (reason message : string)
    (observedGeneration : Z) : ProtectedPVC :=
  protectedPVC <| pp_Conditions ::= λ conditions,
    if reason =? VRGConditionReasonError
    then setVRGAsDataNotProtectedCondition conditions observedGeneration message
    else if reason =? VRGConditionReasonReplicating
    then setVRGDataProtectionProgressCondition conditions observedGeneration message
    else if reason =? VRGConditionReasonReady
    then setVRGDataProtectionProgressCondition conditions observedGeneration message
    else if reason =? VRGConditionReasonDataProtected
    then setVRGAsDataProtectedCondition conditions observedGeneration message
    else if reason =? VRGConditionReasonProgressing
    then setVRGAsDataNotProtectedCondition conditions observedGeneration message
    else if reason =? VRGConditionReasonErrorUnknown
    then setVRGDataErrorUnknownCondition conditions observedGeneration message
    else setVRGDataErrorUnknownCondition conditions observedGeneration ("Unknown reason: " +:+ reason) |>.

Definition setPVCClusterDataProtectedCondition (protectedPVC : ProtectedPVC) (reason message : string)
    (observedGeneration : Z) : ProtectedPVC :=
  protectedPVC <| pp_Conditions ::= λ conditions,
    if reason =? VRGConditionReasonUploaded
    then setVRGClusterDataProtectedCondition conditions observedGeneration message
    else if reason =? VRGConditionReasonUploading
    then setVRGClusterDataProtectingCondition conditions observedGeneration message
    else if (reason =? VRGConditionReasonUploadError) ||
            (reason =? VRGConditionReasonClusterDataAnnotationFailed)
    then setVRGClusterDataUnprotectedCondition conditions observedGeneration reason message
    else setVRGDataErrorUnknownCondition conditions observedGeneration ("Unknown reason: " +:+ reason) |>.

Definition setPVCDestinationInfoAvailableCondition (protectedPVC : ProtectedPVC) (reason message : string)
    (observedGeneration : Z) : ProtectedPVC :=
  let status := if reason =? VRGConditionReasonReady then ConditionTrue else ConditionFalse in
  protectedPVC <| pp_Conditions ::= λ conditions,
    set_condition conditions
      (new_condition VRGConditionTypeDestinationInfoAvailable status reason observedGeneration message) |>.
End setters.

(** ** The list of protected PVCs (vrg_status_pvcs.go) *)

Definition is_pvc (pvcNamespaceName pvcName : string) (p : ProtectedPVC) : bool :=
  (pp_Namespace p =? pvcNamespaceName) && (pp_Name p =? pvcName).

(** The pointer is the entry, and its index. *)
Fixpoint find_from (pvcNamespaceName pvcName : string) (index : nat) (l : list ProtectedPVC)
    : option ProtectedPVC * nat :=
  match l with
  | [] => (None, index)
  | p :: l' =>
      if is_pvc pvcNamespaceName pvcName p then (Some p, index)
      else find_from pvcNamespaceName pvcName (S index) l'
  end.
Definition FindProtectedPvcAndIndex (vrg : VolumeReplicationGroup) (pvcNamespaceName pvcName : string)
    : option ProtectedPVC * nat :=
  find_from pvcNamespaceName pvcName 0 (vst_ProtectedPVCs (vrg_Status vrg)).

Definition FindProtectedPVC (vrg : VolumeReplicationGroup) (pvcNamespaceName pvcName : string)
    : option ProtectedPVC :=
  (FindProtectedPvcAndIndex vrg pvcNamespaceName pvcName).1.

Definition new_protected_pvc (pvcNamespace pvcName : string) : ProtectedPVC :=
  mkProtectedPVC pvcNamespace pvcName false (mkStorageIdentifiers "" (mkIdentifier "" []) (mkIdentifier "" []))
    None ∅ ∅ [] "" [] None None None None.

Definition addProtectedPVC (vrg : VolumeReplicationGroup) (pvcNamespace pvcName : string)
    : VolumeReplicationGroup :=
  vrg <| vrg_Status ::= λ s, s <| vst_ProtectedPVCs ::= λ l, l ++ [new_protected_pvc pvcNamespace pvcName] |> |>.

(** [s[i] = s[len(s)-1]; return s[:len(s)-1]] *)
Definition sliceUnorderedElementDelete {T} (s : list T) (i : nat) : list T :=
  match last s with
  | Some x => take (length s - 1) (<[i := x]> s)
  | None => s
  end.

Definition pvcStatusDeleteIfPresent (vrg : VolumeReplicationGroup) (pvcNamespaceName pvcName : string)
    : VolumeReplicationGroup :=
  match FindProtectedPvcAndIndex vrg pvcNamespaceName pvcName with
  | (None, _) => vrg
  | (Some _, i) =>
      vrg <| vrg_Status ::= λ s, s <| vst_ProtectedPVCs ::= λ l, sliceUnorderedElementDelete l i |> |>
  end.

Definition vrgStatusPvcNamespacesSetIfUnset (vrg : VolumeReplicationGroup) : VolumeReplicationGroup :=
  vrg <| vrg_Status ::= λ s, s <| vst_ProtectedPVCs ::= fmap (λ p,
    if pp_Namespace p ≠? "" then p else p <| pp_Namespace := om_Namespace (vrg_Meta vrg) |>) |> |>.

(** Update a PVC's entry through the pointer [findProtectedPVC] returns, which is a new
    one if there is none. *)
Definition with_protected_pvc (vrg : VolumeReplicationGroup) (pvcNamespace pvcName : string)
    (f : ProtectedPVC → ProtectedPVC) : VolumeReplicationGroup :=
  let vrg := match FindProtectedPVC vrg pvcNamespace pvcName with
             | Some _ => vrg
             | None => addProtectedPVC vrg pvcNamespace pvcName
             end in
  vrg <| vrg_Status ::= λ s, s <| vst_ProtectedPVCs ::= update_first (is_pvc pvcNamespace pvcName) f |> |>.
