(* ===== verification/PeerClasses.v ===== *)
(** * Peer classes

    How a VRG's peer classes follow the DRPolicy's
    (internal/controller/drplacementcontrol.go, [equalClusterIDSlices] to
    [updatePeers]), and how the DR type is derived from a policy
    ([dRPolicySupportsMetro] and its helpers, [allVRGPeerClassesOffloaded],
    util/drpolicy_util.go's [GetSecondsFromSchedulingInterval]). *)

From Stdlib Require Import ZArith Ascii.
From S2P Require Import Prelude Meta Api.

(** ** Matching and updating *)

Definition equalClusterIDSlices (a b : list string) : bool :=
  if bool_decide (length a ≠ length b) then false
  else forallb (λ v, bool_decide (v ∈ a)) b && forallb (λ v, bool_decide (v ∈ b)) a.

(** The loop's match: same storage class, same pair of clusters. *)
Definition peer_matches (scName : string) (clusterIDs : list string) (p : PeerClass) : bool :=
  bool_decide (pc_StorageClassName p = scName) && equalClusterIDSlices (pc_ClusterIDs p) clusterIDs.

(** The body of the loop at the first match; every path breaks out of the loop. *)
Definition replace_peer (from : PeerClass) (cgAnnotationExists : bool) (to : PeerClass) : PeerClass :=
  let updated := if cgAnnotationExists then from <| pc_Grouping := true |> else from in
  if bool_decide (pc_Offloaded to ≠ pc_Offloaded from) then to
  else if bool_decide (pc_Global to ≠ pc_Global from) then to
  else if bool_decide (pc_ReplicationID to = "") && bool_decide (pc_ReplicationID from = "") &&
          bool_decide (pc_Grouping to = pc_Grouping from) then updated
  else if bool_decide (pc_ReplicationID to ≠ "") && bool_decide (pc_ReplicationID from ≠ "") &&
          bool_decide (pc_Grouping to = pc_Grouping from) then updated
  else to.

Definition updatePeerClass (to : list PeerClass) (from : PeerClass) (scName : string)
    (cgAnnotationExists : bool) : list PeerClass :=
  update_first (peer_matches scName (pc_ClusterIDs from)) (replace_peer from cgAnnotationExists) to.

Definition hasPeerClass (vrgPeerClasses : list PeerClass) (scName : string) (clusterIDs : list string)
    : bool :=
  existsb (peer_matches scName clusterIDs) vrgPeerClasses.

(** The inner loop of [updatePeers], over the policy's peer classes for one PVC.
    [vrgPeerClasses] is the slice the VRG came with; [peerClasses] the one being
    built. *)
Fixpoint updatePeers_policy (vrgPeerClasses : list PeerClass) (scName : string)
    (cgAnnotationExists : bool) (policy peerClasses : list PeerClass) : list PeerClass :=
  match policy with
  | [] => peerClasses
  | p :: policy' =>
      if bool_decide (pc_StorageClassName p ≠ scName)
      then updatePeers_policy vrgPeerClasses scName cgAnnotationExists policy' peerClasses
      else if hasPeerClass vrgPeerClasses scName (pc_ClusterIDs p)
      then updatePeerClass peerClasses p scName cgAnnotationExists
      else if hasPeerClass peerClasses scName (pc_ClusterIDs p)
      then peerClasses
      else updatePeers_policy vrgPeerClasses scName cgAnnotationExists policy' (peerClasses ++ [p])
  end.

(** One round of the outer loop. *)
Definition updatePeers_pvc (vrgPeerClasses policyPeerClasses : list PeerClass)
    (cgAnnotationExists : bool) (peerClasses : list PeerClass) (pvc : ProtectedPVC)
    : list PeerClass :=
  match pp_StorageClassName pvc with
  | None => peerClasses
  | Some scName =>
      if bool_decide (scName = "") then peerClasses
      else updatePeers_policy vrgPeerClasses scName cgAnnotationExists policyPeerClasses peerClasses
  end.

Definition updatePeers (protectedPVCs : list ProtectedPVC)
    (vrgPeerClasses policyPeerClasses : list PeerClass) (cgAnnotationExists : bool)
    : list PeerClass :=
  foldl (updatePeers_pvc vrgPeerClasses policyPeerClasses cgAnnotationExists)
    vrgPeerClasses protectedPVCs.

(** ** The scheduling interval

    The CRD admits the empty string and [\d+[mhd]]; on those the interval is a
    whole number of seconds.  Any other text is an error here. *)

Fixpoint parse_digits (acc : Z) (l : list Ascii.ascii) : option Z :=
  match l with
  | [] => Some acc
  | c :: l' =>
      let n := Z.of_N (Ascii.N_of_ascii c) in
      if ((48 <=? n) && (n <=? 57))%Z then parse_digits (acc * 10 + (n - 48))%Z l' else None
  end.

Definition split_last (l : list Ascii.ascii) : option (list Ascii.ascii * Ascii.ascii) :=
  match rev l with [] => None | c :: r => Some (rev r, c) end.

Definition GetSecondsFromSchedulingInterval (p : DRPolicy) : Z + GoError :=
  let schedulingInterval := dps_SchedulingInterval (drp_Spec p) in
  match split_last (String.list_ascii_of_string schedulingInterval) with
  | None => inl 0%Z
  | Some ([], _) => inr (Errorf "invalid scheduling interval" None)
  | Some (interval, unit) =>
      match parse_digits 0 interval with
      | None => inr (Errorf "invalid scheduling interval" None)
      | Some s =>
          if bool_decide (unit = "d"%char) then inl (s * (24 * 60 * 60))%Z
          else if bool_decide (unit = "h"%char) then inl (s * (60 * 60))%Z
          else if bool_decide (unit = "m"%char) then inl (s * 60)%Z
          else inr (Errorf "invalid scheduling interval" None)
      end
  end.

(** ** Metro or regional *)

Definition checkMetroSupportUsingSchedulingInterval (p : DRPolicy) : bool * option GoError :=
  match GetSecondsFromSchedulingInterval p with
  | inr e => (false, Some e)
  | inl secs => if bool_decide (secs = 0%Z) then (true, None) else (false, None)
  end.

(** [drClusterIDsToNames] is [None] for a nil map.  A loop over the sync peer
    classes; [None] as the second result is the early [return false, nil]. *)
Fixpoint metro_names (ids : gmap string string) (pcs : list PeerClass) (acc : list (list string))
    : option (list (list string)) :=
  match pcs with
  | [] => Some acc
  | p :: pcs' =>
      if bool_decide (length (pc_StorageID p) ≠ 1) then metro_names ids pcs' acc
      else if bool_decide (length (pc_ClusterIDs p) = 0) then None
      else
        let peerClusterNames := map_get ids <$> pc_ClusterIDs p in
        if bool_decide (length peerClusterNames ≠ length (pc_ClusterIDs p)) then None
        else metro_names ids pcs' (acc ++ [peerClusterNames])
  end.

Definition checkMetroSupportUsingPeerClass (p : DRPolicy) (ids : option (gmap string string))
    : bool * list (list string) :=
  let sync := dpt_Sync (drp_Status p) in
  if bool_decide (sync = []) then (false, [])
  else match ids with
       | None => (true, [])
       | Some m => match metro_names m sync [] with
                   | None => (false, [])
                   | Some l => (true, l)
                   end
       end.

Definition dRPolicySupportsMetro (p : DRPolicy) (ids : option (gmap string string))
    : bool * list (list string) * option GoError :=
  if bool_decide (dpt_Sync (drp_Status p) = []) && bool_decide (dpt_Async (drp_Status p) = [])
  then let '(result, err) := checkMetroSupportUsingSchedulingInterval p in (result, [], err)
  else if bool_decide (dpt_Sync (drp_Status p) ≠ [])
  then let '(result, names) := checkMetroSupportUsingPeerClass p ids in (result, names, None)
  else (false, [], None).

(** [vrgs] in the order the map is ranged over. *)
Definition allVRGPeerClassesOffloaded (vrgs : list VolumeReplicationGroup) : bool :=
  let classes := vrgs ≫= λ v, match vsp_Async (vrg_Spec v) with
                               | Some a => va_PeerClasses a
                               | None => []
                               end in
  if existsb (λ p, negb (pc_Offloaded p)) classes then false else bool_decide (classes ≠ []).

(** ** Lemmas *)

Lemma equalClusterIDSlices_spec a b :
  equalClusterIDSlices a b = true ↔ length a = length b ∧ (∀ x, x ∈ a ↔ x ∈ b).
Proof.
  unfold equalClusterIDSlices. case_bool_decide as Hl.
  - split; [done|]. intros [? _]; lia.
  - rewrite andb_true_iff, !forallb_forall. setoid_rewrite bool_decide_eq_true.
    setoid_rewrite <- list_elem_of_In. naive_solver lia.
Qed.

Lemma equalClusterIDSlices_refl a : equalClusterIDSlices a a = true.
Proof. by apply equalClusterIDSlices_spec. Qed.

Lemma equalClusterIDSlices_ext a b c :
  equalClusterIDSlices a b = true → equalClusterIDSlices a c = equalClusterIDSlices b c.
Proof.
  rewrite equalClusterIDSlices_spec. intros [Hl He].
  apply eq_bool_prop_intro. rewrite !Is_true_true, !equalClusterIDSlices_spec, Hl.
  by setoid_rewrite He.
Qed.

(** [p'] stands for the replication scheme of [p]: the class of the same storage
    class and clusters, offloaded and global alike, replicating natively (with a
    replication ID) alike; [Grouping] may only be turned on, and only under the
    consistency-group annotation. *)
Definition same_scheme (cg : bool) (p p' : PeerClass) : Prop :=
  pc_StorageClassName p' = pc_StorageClassName p ∧
  equalClusterIDSlices (pc_ClusterIDs p') (pc_ClusterIDs p) = true ∧
  pc_Offloaded p' = pc_Offloaded p ∧ pc_Global p' = pc_Global p ∧
  (pc_ReplicationID p' = "" ↔ pc_ReplicationID p = "") ∧
  (pc_Grouping p' = pc_Grouping p ∨ (cg = true ∧ pc_Grouping p' = true)).

Lemma replace_peer_cases from cg to :
  replace_peer from cg to = to ∨
  (replace_peer from cg to = (if cg then from <| pc_Grouping := true |> else from) ∧
   pc_Offloaded to = pc_Offloaded from ∧ pc_Global to = pc_Global from ∧
   pc_Grouping to = pc_Grouping from ∧
   bool_decide (pc_ReplicationID to = "") = bool_decide (pc_ReplicationID from = "")).
Proof.
  unfold replace_peer. repeat (case_bool_decide; simpl; try by left); right;
    split_and!; try done; by apply dec_stable.
Qed.

Lemma peer_matches_spec sc ids p :
  peer_matches sc ids p = true ↔
  pc_StorageClassName p = sc ∧ equalClusterIDSlices (pc_ClusterIDs p) ids = true.
Proof. unfold peer_matches. by rewrite andb_true_iff, bool_decide_eq_true. Qed.

Lemma peer_matches_ext sc ids ids' p :
  equalClusterIDSlices ids ids' = true → peer_matches sc ids p = peer_matches sc ids' p.
Proof.
  intros H. unfold peer_matches. f_equal.
  apply eq_bool_prop_intro. rewrite !Is_true_true, !equalClusterIDSlices_spec.
  apply equalClusterIDSlices_spec in H as [Hl He]. rewrite Hl. by setoid_rewrite He.
Qed.

(** Replacing a matching class by the policy's keeps every match, so the slice
    the VRG came with answers [hasPeerClass] alike before and after. *)
Lemma replace_peer_matches from cg to sc ids sc' :
  peer_matches sc' (pc_ClusterIDs from) to = true → pc_StorageClassName from = sc' →
  peer_matches sc ids (replace_peer from cg to) = peer_matches sc ids to.
Proof.
  intros [Hn He]%peer_matches_spec Hf.
  destruct (replace_peer_cases from cg to) as [->|[-> _]]; [done|].
  transitivity (peer_matches sc ids from); [by destruct cg|].
  unfold peer_matches. rewrite Hn, Hf. f_equal. symmetry. by apply equalClusterIDSlices_ext.
Qed.

Lemma updatePeerClass_has to from cg sc ids :
  hasPeerClass (updatePeerClass to from (pc_StorageClassName from) cg) sc ids
  = hasPeerClass to sc ids.
Proof.
  unfold hasPeerClass, updatePeerClass. induction to as [|p to IH]; simpl; [done|].
  destruct (peer_matches _ _ p) eqn:E; simpl.
  - by rewrite (replace_peer_matches _ _ _ _ _ _ E).
  - by rewrite IH.
Qed.

Lemma same_scheme_refl cg p : same_scheme cg p p.
Proof. unfold same_scheme. rewrite equalClusterIDSlices_refl. naive_solver. Qed.

Lemma same_scheme_trans cg p q r :
  same_scheme cg p q → same_scheme cg q r → same_scheme cg p r.
Proof.
  intros (?&E1&?&?&?&?) (?&E2&?&?&?&?).
  assert (equalClusterIDSlices (pc_ClusterIDs r) (pc_ClusterIDs p) = true)
    by (by rewrite (equalClusterIDSlices_ext _ _ _ E2)).
  unfold same_scheme. split_and!; try congruence; naive_solver congruence.
Qed.

Lemma replace_peer_scheme from cg to :
  peer_matches (pc_StorageClassName from) (pc_ClusterIDs from) to = true →
  same_scheme cg to (replace_peer from cg to).
Proof.
  intros [Hn He]%peer_matches_spec.
  destruct (replace_peer_cases from cg to) as [->|[-> (Ho&Hg&Hgr&Hr)]];
    [apply same_scheme_refl|].
  assert (Hr' : pc_ReplicationID from = "" ↔ pc_ReplicationID to = "")
    by (repeat case_bool_decide; naive_solver).
  assert (He' : equalClusterIDSlices (pc_ClusterIDs from) (pc_ClusterIDs to) = true)
    by (rewrite <- (equalClusterIDSlices_ext _ _ _ He); apply equalClusterIDSlices_refl).
  destruct cg; unfold same_scheme; simpl; rewrite ?He'; naive_solver.
Qed.

Section update_peers.
Context (l policy : list PeerClass) (scs : list string) (cg : bool).

(** What the slice being built always looks like: the VRG's own classes, each
    standing for its scheme, then policy classes for reported storage classes
    that the VRG had no class for. *)
Definition peers_inv (peers : list PeerClass) : Prop :=
  ∃ own added, peers = own ++ added ∧ Forall2 (same_scheme cg) l own ∧
    (∀ sc ids, hasPeerClass own sc ids = hasPeerClass l sc ids) ∧
    Forall (λ p, p ∈ policy ∧ pc_StorageClassName p ∈ scs ∧
                 hasPeerClass l (pc_StorageClassName p) (pc_ClusterIDs p) = false) added.

Lemma peers_inv_init : peers_inv l.
Proof.
  exists l, []. rewrite app_nil_r. split_and!; [done| |done|by constructor].
  apply Forall_Forall2_diag, Forall_true. apply same_scheme_refl.
Qed.

Lemma updatePeerClass_own own p :
  Forall2 (same_scheme cg) l own →
  Forall2 (same_scheme cg) l (updatePeerClass own p (pc_StorageClassName p) cg).
Proof.
  unfold updatePeerClass. induction 1 as [|x y l' own' Hxy Hl IH]; simpl; [constructor|].
  destruct (peer_matches _ _ y) eqn:E; constructor; try done.
  eapply same_scheme_trans; [done|]. by apply replace_peer_scheme.
Qed.

Lemma updatePeerClass_app own added p :
  hasPeerClass own (pc_StorageClassName p) (pc_ClusterIDs p) = true →
  updatePeerClass (own ++ added) p (pc_StorageClassName p) cg =
  updatePeerClass own p (pc_StorageClassName p) cg ++ added.
Proof.
  unfold updatePeerClass, hasPeerClass. induction own as [|x own IH]; simpl; [done|].
  destruct (peer_matches _ _ x); simpl; [done|]. intros. by rewrite IH.
Qed.

Lemma peers_inv_policy sc ps peers :
  sc ∈ scs → ps ⊆ policy → peers_inv peers →
  peers_inv (updatePeers_policy l sc cg ps peers).
Proof.
  intros Hsc. revert peers. induction ps as [|p ps IH]; simpl; intros peers Hps Hinv; [done|].
  case_bool_decide as E; [apply IH; [set_solver|done]|].
  subst sc.
  destruct (hasPeerClass l _ _) eqn:Hl.
  - destruct Hinv as (own&added&->&Ho&Hh&Ha).
    rewrite updatePeerClass_app by (by rewrite Hh).
    eexists _, added. split_and!; [done|by apply updatePeerClass_own| |done].
    intros. by rewrite updatePeerClass_has.
  - destruct (hasPeerClass peers _ _); [done|].
    apply IH; [set_solver|]. destruct Hinv as (own&added&->&Ho&Hh&Ha).
    exists own, (added ++ [p]). rewrite app_assoc. split_and!; [done..|].
    apply Forall_app; split; [done|]. repeat constructor; [set_solver|done|done].
Qed.
End update_peers.

(** [updatePeers] never changes the replication scheme of a class the VRG
    already has.  The result is the VRG's own classes in their order, each
    standing for the scheme it had (same storage class and clusters, offloaded,
    global and natively replicated as before, grouping turned on only by the
    annotation), followed only by classes of the policy, for storage classes of
    protected PVCs, for which the VRG had no class. *)
Theorem updatePeers_keeps_schemes pvcs l policy cg :
  ∃ own added,
    updatePeers pvcs l policy cg = own ++ added ∧
    Forall2 (same_scheme cg) l own ∧
    Forall (λ p, p ∈ policy ∧
                 Some (pc_StorageClassName p) ∈ pp_StorageClassName <$> pvcs ∧
                 hasPeerClass l (pc_StorageClassName p) (pc_ClusterIDs p) = false) added.
Proof.
  set (scs := omap pp_StorageClassName pvcs).
  assert (Hscs : ∀ sc, sc ∈ scs → Some sc ∈ pp_StorageClassName <$> pvcs).
  { intros sc (pvc&?&?)%list_elem_of_omap. apply list_elem_of_fmap. eauto. }
  assert (H : ∀ ps peers, ps ⊆ pvcs → peers_inv l policy scs cg peers →
                peers_inv l policy scs cg (foldl (updatePeers_pvc l policy cg) peers ps)).
  { induction ps as [|pvc ps IH]; intros peers Hsub Hinv; simpl; [done|].
    apply IH; [set_solver|]. unfold updatePeers_pvc.
    destruct (pp_StorageClassName pvc) eqn:E; [|done].
    case_bool_decide; [done|]. apply peers_inv_policy; [|done|done].
    apply list_elem_of_omap. exists pvc. split; [set_solver|done]. }
  destruct (H pvcs l (reflexivity _) (peers_inv_init _ _ _ _)) as (own&added&Heq&Ho&_&Ha).
  exists own, added. split_and!; [done..|].
  eapply Forall_impl; [exact Ha|]. naive_solver.
Qed.
