(* ===== verification/PolicyPeers.v ===== *)
(** * The peer classes of a DRPolicy

    internal/controller/drpolicy_peerclass.go: from the storage, snapshot and
    replication classes the clusters of a policy list, the pairs of clusters that
    share a storage class and how that class is replicated between them, and how the
    policy's status follows them.  Loops over indices that only read the element at
    the index are loops over the elements; an index out of range is [None]. *)

From S2P Require Import Prelude Meta Api PeerClasses.

(** ** The classes of a cluster *)

Definition StorageIDLabel : string := "ramendr.openshift.io/storageid".
Definition StorageOffloadedLabel : string := "ramendr.openshift.io/offloaded".
Definition ReplicationIDLabel : string := "ramendr.openshift.io/replicationid".
Definition GroupReplicationIDLabel : string := "ramendr.openshift.io/groupreplicationid".
Definition GlobalReplicationLabel : string := "ramendr.openshift.io/global".
Definition ReplicationClassScheduleKey : string := "schedulingInterval".

(** The fields the computation reads of the storage API's types. *)
Record StorageClass := mkStorageClass {
  sc_Meta : ObjectMeta;
  sc_Provisioner : string;
  sc_Parameters : gmap string string;
}.

(** A VolumeSnapshotClass, and what the wrapper of a VolumeGroupSnapshotClass gives. *)
Record SnapshotClass := mkSnapshotClass {
  ssc_Meta : ObjectMeta;
  ssc_Driver : string;
}.

(** A VolumeReplicationClass or a VolumeGroupReplicationClass. *)
Record ReplicationClass := mkReplicationClass {
  rc_Meta : ObjectMeta;
  rc_Provisioner : string;
  rc_Parameters : gmap string string;
}.

Record classLists := mkClassLists {
  clusterID : string;
  sClasses : list StorageClass;
  vsClasses : list SnapshotClass;
  vrClasses : list ReplicationClass;
  vgrClasses : list ReplicationClass;
  vgsClasses : list SnapshotClass;
}.

Record peerInfo := mkPeerInfo {
  pi_replicationID : string;
  pi_groupReplicationID : string;
  pi_storageIDs : list string;
  pi_storageClassName : string;
  pi_clusterIDs : list string;
  pi_grouping : bool;
  pi_offloaded : bool;
  pi_global : bool;
}.
#[export] Instance peerInfo_eq : EqDecision peerInfo.
Proof. solve_decision. Defined.

Definition label (m : ObjectMeta) (key : string) : string := map_get (om_Labels m) key.
Definition sc_Name (x : StorageClass) : string := om_Name (sc_Meta x).
Definition sc_sid (x : StorageClass) : string := label (sc_Meta x) StorageIDLabel.

(** ** The status of the policy *)

Definition peerClassMatchesPeer (pc : PeerClass) (peer : peerInfo) : bool :=
  let mtch :=
    if bool_decide (pc_GroupReplicationID pc ≠ "") && bool_decide (pi_groupReplicationID peer ≠ "")
    then bool_decide (pc_GroupReplicationID pc = pi_groupReplicationID peer) &&
         bool_decide (pc_StorageClassName pc = pi_storageClassName peer)
    else bool_decide (pc_StorageClassName pc = pi_storageClassName peer) in
  mtch && equalClusterIDSlices (pc_ClusterIDs pc) (pi_clusterIDs peer).

(** [None] for not found. *)
Definition findStatusPeerInPeers (pc : PeerClass) (peers : list peerInfo) : option peerInfo :=
  find_first (peerClassMatchesPeer pc) peers.

Definition findPeerInStatusPeer (peer : peerInfo) (pcs : list PeerClass) : bool :=
  existsb (λ pc, peerClassMatchesPeer pc peer) pcs.

Definition peerClassFromPeer (peer : peerInfo) : PeerClass := {|
  pc_ReplicationID := pi_replicationID peer;
  pc_GroupReplicationID := pi_groupReplicationID peer;
  pc_StorageID := pi_storageIDs peer;
  pc_StorageClassName := pi_storageClassName peer;
  pc_ClusterIDs := pi_clusterIDs peer;
  pc_Grouping := pi_grouping peer;
  pc_Offloaded := pi_offloaded peer;
  pc_Global := pi_global peer |}.

Definition pruneAndUpdateStatusPeers (statusPeers : list PeerClass) (peers : list peerInfo)
    : list PeerClass :=
  let outStatusPeers :=
    omap (λ peerClass, peerClassFromPeer <$> findStatusPeerInPeers peerClass peers) statusPeers in
  outStatusPeers ++
    omap (λ peer, if findPeerInStatusPeer peer statusPeers then None
                  else Some (peerClassFromPeer peer)) peers.

(** The policy the status update writes. *)
Definition updatePeerClassStatus (u : DRPolicy) (syncPeers asyncPeers : list peerInfo) : DRPolicy :=
  u <| drp_Status ::= λ s,
       s <| dpt_Async ::= λ l, pruneAndUpdateStatusPeers l asyncPeers |>
         <| dpt_Sync ::= λ l, pruneAndUpdateStatusPeers l syncPeers |> |>.

(** ** Classes that go with a storage class *)

Definition named (scName : string) (x : StorageClass) : bool := bool_decide (sc_Name x = scName).

Definition provisionerMatchesSC (scName : string) (cl : classLists) (driver : string) : bool :=
  match find_first (named scName) (sClasses cl) with
  | Some x => bool_decide (sc_Provisioner x = driver)
  | None => false
  end.

Definition snapshot_matches (scName : string) (cl : classLists) (sID : string) (c : SnapshotClass)
    : bool :=
  let sid := label (ssc_Meta c) StorageIDLabel in
  if bool_decide (sid = "") || bool_decide (sid ≠ sID) then false
  else provisionerMatchesSC scName cl (ssc_Driver c).

Definition hasVSClassMatchingSID (scName : string) (cl : classLists) (sID : string) : bool :=
  existsb (snapshot_matches scName cl sID) (vsClasses cl).

Definition hasVGSClassMatchingSID (scName : string) (cl : classLists) (sID : string) : bool :=
  existsb (snapshot_matches scName cl sID) (vgsClasses cl).

Definition isAsyncVSClassPeer (scName : string) (clA clB : classLists) (sIDA sIDB : string) : bool :=
  hasVSClassMatchingSID scName clA sIDA && hasVSClassMatchingSID scName clB sIDB.

Definition isAsyncVGSClassPeer (scName : string) (clA clB : classLists) (sIDA sIDB : string) : bool :=
  hasVGSClassMatchingSID scName clA sIDA && hasVGSClassMatchingSID scName clB sIDB.

Definition getVRID (scName : string) (cl : classLists) (vrc : ReplicationClass)
    (inSID schedule : string) : string :=
  let sID := label (rc_Meta vrc) StorageIDLabel in
  if bool_decide (sID = "") || bool_decide (inSID ≠ sID) then ""
  else if bool_decide (map_get (rc_Parameters vrc) ReplicationClassScheduleKey ≠ schedule) then ""
  else if negb (provisionerMatchesSC scName cl (rc_Provisioner vrc)) then ""
  else label (rc_Meta vrc) ReplicationIDLabel.

Definition getVGRID (scName : string) (cl : classLists) (vgrc : ReplicationClass)
    (inSID schedule scGrID : string) : string :=
  let sID := label (rc_Meta vgrc) StorageIDLabel in
  if bool_decide (sID = "") || bool_decide (inSID ≠ sID) then ""
  else if bool_decide (map_get (rc_Parameters vgrc) ReplicationClassScheduleKey ≠ schedule) then ""
  else if negb (provisionerMatchesSC scName cl (rc_Provisioner vgrc)) then ""
  else
    let grID := label (rc_Meta vgrc) GroupReplicationIDLabel in
    if bool_decide (scGrID ≠ "") && bool_decide (scGrID ≠ grID) then "" else grID.

(** The two nested loops of both searches for a common ID. *)
Fixpoint common_id {A B} (idA : A → string) (idB : B → string) (la : list A) (lb : list B)
    : string :=
  match la with
  | [] => ""
  | a :: la' =>
      if bool_decide (idA a = "") then common_id idA idB la' lb
      else if existsb (λ b, bool_decide (idB b ≠ "") && bool_decide (idA a = idB b)) lb then idA a
      else common_id idA idB la' lb
  end.

Definition getAsyncVRClassPeer (scName : string) (clA clB : classLists)
    (sIDA sIDB schedule : string) : string :=
  common_id (λ a, getVRID scName clA a sIDA schedule) (λ b, getVRID scName clB b sIDB schedule)
    (vrClasses clA) (vrClasses clB).

Definition getAsyncVGRClassPeer (scName : string) (clA clB : classLists)
    (sIDA sIDB schedule scGrID : string) : string :=
  common_id (λ a, getVGRID scName clA a sIDA schedule scGrID)
    (λ b, getVGRID scName clB b sIDB schedule scGrID) (vgrClasses clA) (vgrClasses clB).

Definition hasGlobal (grID : string) (cl : classLists) : bool :=
  match find_first (λ c, bool_decide (label (rc_Meta c) GroupReplicationIDLabel = grID))
          (vgrClasses cl) with
  | Some c => HasLabelWithValue (rc_Meta c) GlobalReplicationLabel "true"
  | None => false
  end.

Definition isAsyncVGRClassPeerGlobal (clA clB : classLists) (grID : string) : bool :=
  hasGlobal grID clA && hasGlobal grID clB.

(** ** Peers of a storage class *)

(** The loop over the storage classes of one other cluster [cl]: the peer it appends,
    if any, before it breaks. *)
Fixpoint async_peer_in (scName clID sID : string) (offloaded : bool) (cl0 cl : classLists)
    (schedule : string) (l : list StorageClass) : option peerInfo :=
  match l with
  | [] => None
  | y :: l' =>
      let next := async_peer_in scName clID sID offloaded cl0 cl schedule l' in
      if bool_decide (sc_Name y ≠ scName) then next
      else
        let sIDcl := sc_sid y in
        if bool_decide (sID = sIDcl) then None
        else if bool_decide (offloaded ≠ HasLabel (sc_Meta y) StorageOffloadedLabel) then next
        else
          let scGrID := match find_first (named scName) (sClasses cl0) with
                        | Some x => label (sc_Meta x) GroupReplicationIDLabel
                        | None => ""
                        end in
          let grID := getAsyncVGRClassPeer scName cl0 cl sID sIDcl schedule scGrID in
          let peer rID grID grouping global :=
            Some (mkPeerInfo rID grID [sID; sIDcl] scName [clID; clusterID cl] grouping offloaded
                    global) in
          if offloaded && bool_decide (grID = "") then next
          else if offloaded then peer "" grID true (isAsyncVGRClassPeerGlobal cl0 cl grID)
          else
            let rID := getAsyncVRClassPeer scName cl0 cl sID sIDcl schedule in
            let grouping := bool_decide (rID ≠ "") && bool_decide (grID ≠ "") in
            if bool_decide (rID = "") then
              if isAsyncVGSClassPeer scName cl0 cl sID sIDcl then peer rID "" true false
              else if negb (isAsyncVSClassPeer scName cl0 cl sID sIDcl) then next
              else peer rID "" grouping false
            else peer rID grID grouping false
  end.

Definition getAsyncPeers (scName clID sID : string) (offloaded : bool) (cls : list classLists)
    (schedule : string) : option (list peerInfo) :=
  match cls with
  | [] => None
  | cl0 :: rest =>
      Some (omap (λ cl, async_peer_in scName clID sID offloaded cl0 cl schedule (sClasses cl)) rest)
  end.

Definition sync_peer_in (scName clID sID : string) (cl : classLists) : option peerInfo :=
  match find_first (named scName) (sClasses cl) with
  | Some y =>
      if bool_decide (sID ≠ sc_sid y) then None
      else Some (mkPeerInfo "" "" [sID] scName [clID; clusterID cl] false false false)
  | None => None
  end.

Definition getSyncPeers (scName clID sID : string) (cls : list classLists) : list peerInfo :=
  omap (sync_peer_in scName clID sID) cls.

(** Where the search [for scIdx = range] of [findPeers] stops: at the first class of
    that name, or at the last class. *)
Fixpoint stop_at (scName : string) (l : list StorageClass) : option StorageClass :=
  match l with
  | [] => None
  | x :: l' =>
      if named scName x then Some x
      else match l' with [] => Some x | _ => stop_at scName l' end
  end.

Definition findPeers (cls : list classLists) (scName : string) (startClsIdx : nat)
    (schedule : string) : option (list peerInfo * list peerInfo) :=
  cl ← cls !! startClsIdx;
  sc ← stop_at scName (sClasses cl);
  if negb (HasLabel (sc_Meta sc) StorageIDLabel) then Some ([], [])
  else
    let sID := sc_sid sc in
    let syncPeers := getSyncPeers scName (clusterID cl) sID (drop (S startClsIdx) cls) in
    let offloaded := HasLabel (sc_Meta sc) StorageOffloadedLabel in
    asyncPeers ← (if bool_decide (schedule ≠ "")
                  then getAsyncPeers scName (clusterID cl) sID offloaded (drop startClsIdx cls) schedule
                  else Some []);
    Some (syncPeers, asyncPeers).

Definition unionStorageClasses (cls : list classLists) : list string :=
  foldl (λ allSCs x, if bool_decide (sc_Name x ∈ allSCs) then allSCs else allSCs ++ [sc_Name x])
    [] (cls ≫= sClasses).

(** One round of the loop over the storage classes of a cluster ... *)
Definition add_peers (cls : list classLists) (names : list string) (schedule : string) (clsIdx : nat)
    (acc : option (list peerInfo * list peerInfo)) (x : StorageClass)
    : option (list peerInfo * list peerInfo) :=
  '(syncPeers, asyncPeers) ← acc;
  if negb (bool_decide (sc_Name x ∈ names)) then Some (syncPeers, asyncPeers)
  else
    '(sPeers, aPeers) ← findPeers cls (sc_Name x) clsIdx schedule;
    Some (syncPeers ++ sPeers, asyncPeers ++ aPeers).

(** ... and of the loop over the clusters but the last. *)
Definition add_cluster_peers (cls : list classLists) (names : list string) (schedule : string)
    (acc : option (list peerInfo * list peerInfo)) (clsIdx : nat)
    : option (list peerInfo * list peerInfo) :=
  match cls !! clsIdx with
  | None => None
  | Some cl => foldl (add_peers cls names schedule clsIdx) acc (sClasses cl)
  end.

Definition findAllPeers (cls : list classLists) (schedule : string)
    : option (list peerInfo * list peerInfo) :=
  if bool_decide (length cls <= 1) then Some ([], [])
  else
    let sClassNames := unionStorageClasses cls in
    foldl (add_cluster_peers cls sClassNames schedule) (Some ([], [])) (seq 0 (length cls - 1)).
