(* ===== verification/PolicyPeersSpec.v ===== *)
(** * What the peer classes of a policy mean

    The search of [findAllPeers] is a function of each pair of clusters and storage
    class name ([findAllPeers_pairs]); a pair is synchronous when both classes have
    one storage ID, asynchronous exactly when a replication mechanism connects them;
    and the status that follows the peers lists each of them once. *)

From S2P Require Import Prelude Meta Api PeerClasses PolicyPeers.

(** ** The search as a function of pairs *)

Definition first_named (n : string) (a : classLists) : option StorageClass :=
  find_first (named n) (sClasses a).

Definition sync_peer (a : classLists) (n : string) (b : classLists) : option peerInfo :=
  x ← first_named n a;
  if HasLabel (sc_Meta x) StorageIDLabel
  then sync_peer_in n (clusterID a) (sc_sid x) b else None.

Definition async_peer (schedule : string) (a : classLists) (n : string) (b : classLists)
    : option peerInfo :=
  x ← first_named n a;
  if HasLabel (sc_Meta x) StorageIDLabel && bool_decide (schedule ≠ "")
  then async_peer_in n (clusterID a) (sc_sid x) (HasLabel (sc_Meta x) StorageOffloadedLabel) a b
         schedule (sClasses b)
  else None.

Definition of_cluster (f : classLists → string → classLists → option peerInfo) (a : classLists)
    (rest : list classLists) (l : list StorageClass) : list peerInfo :=
  l ≫= λ x, omap (f a (sc_Name x)) rest.

Fixpoint pairs (f : classLists → string → classLists → option peerInfo) (cls : list classLists)
    : list peerInfo :=
  match cls with
  | [] => []
  | a :: rest => of_cluster f a rest (sClasses a) ++ pairs f rest
  end.

Lemma named_spec n x : named n x = true ↔ sc_Name x = n.
Proof. unfold named. apply bool_decide_eq_true. Qed.

Lemma stop_at_named n l : n ∈ sc_Name <$> l → stop_at n l = find_first (named n) l.
Proof.
  induction l as [|x l IH]; simpl; [by intros ?%elem_of_nil|].
  rewrite elem_of_cons. destruct (named n x) eqn:E; [done|].
  intros [Hn|Hn]; [by rewrite (proj2 (named_spec n x)) in E|].
  destruct l; [by apply elem_of_nil in Hn|]. by apply IH.
Qed.

Lemma first_named_is_Some n a : n ∈ sc_Name <$> sClasses a → is_Some (first_named n a).
Proof.
  intros [x [-> Hx]]%list_elem_of_fmap. unfold first_named. destruct (find_first _ _) eqn:E; [done|].
  rewrite find_first_None in E. specialize (E _ Hx). by rewrite (proj2 (named_spec _ _)) in E.
Qed.

Lemma omap_none {A B} (l : list A) : omap (λ _, None : option B) l = [].
Proof. by induction l. Qed.

Lemma omap_ext' {A B} (f g : A → option B) (l : list A) : (∀ x, f x = g x) → omap f l = omap g l.
Proof. intros H. induction l as [|x l IH]; csimpl; [done|]. by rewrite H, IH. Qed.

Lemma findPeers_pairs pre a rest n schedule :
  n ∈ sc_Name <$> sClasses a →
  findPeers (pre ++ a :: rest) n (length pre) schedule =
    Some (omap (sync_peer a n) rest, omap (async_peer schedule a n) rest).
Proof.
  intros Hn. unfold findPeers. rewrite list_lookup_middle by done. csimpl.
  rewrite stop_at_named by done. destruct (first_named_is_Some _ _ Hn) as [x Hx].
  unfold first_named in Hx. rewrite Hx. csimpl.
  rewrite (omap_ext' (sync_peer a n) (λ b, if HasLabel (sc_Meta x) StorageIDLabel
    then sync_peer_in n (clusterID a) (sc_sid x) b else None))
    by (intros b; unfold sync_peer, first_named; by rewrite Hx).
  rewrite (omap_ext' (async_peer schedule a n) (λ b, if HasLabel (sc_Meta x) StorageIDLabel &&
    bool_decide (schedule ≠ "") then async_peer_in n (clusterID a) (sc_sid x)
      (HasLabel (sc_Meta x) StorageOffloadedLabel) a b schedule (sClasses b) else None))
    by (intros b; unfold async_peer, first_named; by rewrite Hx).
  destruct (HasLabel (sc_Meta x) StorageIDLabel); simpl; [|by rewrite !omap_none].
  rewrite drop_app_length. rewrite drop_app_ge, Nat.sub_succ_l, Nat.sub_diag by lia. csimpl.
  destruct (bool_decide (schedule ≠ "")); simpl; [done|by rewrite omap_none].
Qed.

Lemma union_fold l acc :
  acc ⊆ foldl (λ allSCs x, if bool_decide (sc_Name x ∈ allSCs) then allSCs
               else allSCs ++ [sc_Name x]) acc l ∧
  (sc_Name <$> l) ⊆ foldl (λ allSCs x, if bool_decide (sc_Name x ∈ allSCs) then allSCs
                           else allSCs ++ [sc_Name x]) acc l.
Proof.
  revert acc. induction l as [|x l IH]; intros acc; csimpl; [set_solver|].
  edestruct IH as [H1 H2]. split; [|apply list_subseteq_cons_iff; split; [|exact H2]].
  - etrans; [|exact H1]. case_bool_decide; set_solver.
  - apply H1. case_bool_decide; set_solver.
Qed.

Lemma union_names cls a x : a ∈ cls → x ∈ sClasses a → sc_Name x ∈ unionStorageClasses cls.
Proof.
  intros Ha Hx. apply (proj2 (union_fold (cls ≫= sClasses) [])), list_elem_of_fmap_2.
  apply list_elem_of_bind. eauto.
Qed.

Lemma of_cluster_nil f a l : of_cluster f a [] l = [].
Proof. unfold of_cluster. by induction l as [|x l IH]; csimpl. Qed.

Section Search.
Context (schedule : string).

Lemma add_peers_pairs pre a rest names l acc :
  (∀ x, x ∈ l → x ∈ sClasses a ∧ sc_Name x ∈ names) →
  foldl (add_peers (pre ++ a :: rest) names schedule (length pre)) (Some acc) l =
    Some (acc.1 ++ of_cluster sync_peer a rest l,
          acc.2 ++ of_cluster (async_peer schedule) a rest l).
Proof.
  revert acc. induction l as [|x l IH]; simpl; intros [s r] H; [by rewrite !app_nil_r|].
  destruct (H x) as [Hx Hn]; [by left|].
  rewrite (bool_decide_eq_true_2 _ Hn). simpl.
  rewrite findPeers_pairs by (apply list_elem_of_fmap; eauto). simpl.
  rewrite IH by (intros y Hy; apply H; by right). simpl.
  unfold of_cluster. csimpl. by rewrite !assoc by apply _.
Qed.

Lemma add_cluster_peers_pairs pre suf names acc :
  suf ≠ [] → (∀ a x, a ∈ suf → x ∈ sClasses a → sc_Name x ∈ names) →
  foldl (add_cluster_peers (pre ++ suf) names schedule) (Some acc) (seq (length pre) (length suf - 1)) =
    Some (acc.1 ++ pairs sync_peer suf, acc.2 ++ pairs (async_peer schedule) suf).
Proof.
  revert pre acc. induction suf as [|a rest IH]; intros pre acc Hne Hn; [done|].
  destruct rest as [|b rest].
  - destruct acc. simpl. by rewrite !of_cluster_nil, !app_nil_r.
  - replace (length (a :: b :: rest) - 1) with (S (length rest)) by (simpl; lia). simpl seq. simpl foldl.
    unfold add_cluster_peers at 2. rewrite list_lookup_middle by done.
    rewrite add_peers_pairs by (intros x Hx; split; [done|]; apply (Hn a); [by left|done]).
    specialize (IH (pre ++ [a]) (acc.1 ++ of_cluster sync_peer a (b :: rest) (sClasses a),
      acc.2 ++ of_cluster (async_peer schedule) a (b :: rest) (sClasses a))).
    rewrite <- app_assoc, length_app, Nat.add_1_r in IH. simpl length in IH. simpl app in IH.
    replace (S (length rest) - 1) with (length rest) in IH by lia.
    rewrite IH; [|done|by intros a' x Ha; apply Hn; right]. simpl. by rewrite !assoc by apply _.
Qed.

Lemma findAllPeers_pairs cls :
  findAllPeers cls schedule = Some (pairs sync_peer cls, pairs (async_peer schedule) cls).
Proof.
  unfold findAllPeers. case_bool_decide as Hl.
  - destruct cls as [|a [|]]; [done| |simpl in Hl; lia].
    apply (add_cluster_peers_pairs [] [a] (unionStorageClasses [a]) ([], [])); [done|].
    intros b x Hb Hx. by apply union_names with b.
  - apply (add_cluster_peers_pairs [] cls _ ([], [])); [by destruct cls; simpl in *; [lia|]|].
    intros a x Ha Hx. by apply union_names with a.
Qed.
End Search.

(** ** Members of the search *)

Lemma elem_of_cluster f a rest l p :
  p ∈ of_cluster f a rest l ↔ ∃ x b, x ∈ l ∧ b ∈ rest ∧ f a (sc_Name x) b = Some p.
Proof.
  unfold of_cluster. rewrite list_elem_of_bind. setoid_rewrite list_elem_of_omap. naive_solver.
Qed.

(** [x] of cluster [i] and [y] of cluster [j], further down the list. *)
Definition in_clusters (cls : list classLists) (a b : classLists) : Prop :=
  ∃ i j, i < j ∧ cls !! i = Some a ∧ cls !! j = Some b.

Lemma in_clusters_cons c cls a b :
  in_clusters (c :: cls) a b ↔ (a = c ∧ b ∈ cls) ∨ in_clusters cls a b.
Proof.
  split.
  - intros ([|i] & [|j] & ? & Hi & Hj); try lia; simplify_eq/=.
    + left. split; [done|]. by eapply list_elem_of_lookup_2.
    + right. exists i, j. split; [lia|done].
  - intros [[-> [j Hj]%list_elem_of_lookup]|(i & j & ? & ? & ?)].
    + exists 0, (S j). split; [lia|done].
    + exists (S i), (S j). split; [lia|done].
Qed.

Lemma in_clusters_elem cls a b : in_clusters cls a b → a ∈ cls ∧ b ∈ cls.
Proof. intros (i & j & _ & ? & ?). split; by eapply list_elem_of_lookup_2. Qed.

Lemma elem_of_pairs f cls p :
  p ∈ pairs f cls ↔
    ∃ a b x, in_clusters cls a b ∧ x ∈ sClasses a ∧ f a (sc_Name x) b = Some p.
Proof.
  induction cls as [|c cls IH]; simpl.
  - split; [by intros ?%elem_of_nil|]. by intros (a & b & x & (i & j & _ & ? & _) & _).
  - rewrite elem_of_app, elem_of_cluster, IH. setoid_rewrite in_clusters_cons. naive_solver.
Qed.

(** ** Uniqueness *)

(** As on a cluster, no two storage classes have one name; as for clusters, no two
    have one ID. *)
Definition unique_names (cls : list classLists) : Prop :=
  ∀ a, a ∈ cls → NoDup (sc_Name <$> sClasses a).
Definition unique_ids (cls : list classLists) : Prop := NoDup (clusterID <$> cls).

(** The same storage class between the same clusters. *)
Definition same_pair (n n' : string) (ids ids' : list string) : Prop :=
  n = n' ∧ equalClusterIDSlices ids ids' = true.

Definition peers_unique (l : list peerInfo) : Prop :=
  NoDup l ∧ ∀ p q, p ∈ l → q ∈ l →
    same_pair (pi_storageClassName p) (pi_storageClassName q) (pi_clusterIDs p) (pi_clusterIDs q) →
    p = q.

Definition status_unique (l : list PeerClass) : Prop :=
  NoDup l ∧ ∀ p q, p ∈ l → q ∈ l →
    same_pair (pc_StorageClassName p) (pc_StorageClassName q) (pc_ClusterIDs p) (pc_ClusterIDs q) →
    p = q.

Definition keyed (f : classLists → string → classLists → option peerInfo) : Prop :=
  ∀ a n b p, f a n b = Some p → pi_storageClassName p = n ∧ pi_clusterIDs p = [clusterID a; clusterID b].

Lemma NoDup_fmap_inj {A B} (g : A → B) l x y :
  NoDup (g <$> l) → x ∈ l → y ∈ l → g x = g y → x = y.
Proof.
  induction l as [|z l IH]; csimpl; [by intros _ ?%elem_of_nil|].
  rewrite NoDup_cons, !elem_of_cons. intros [Hz Hn] [->|Hx] [->|Hy] E; [done| | |by apply IH].
  - destruct Hz. rewrite E. by apply list_elem_of_fmap_2.
  - destruct Hz. rewrite <- E. by apply list_elem_of_fmap_2.
Qed.

Lemma NoDup_omap_inj {A B} (g : A → option B) l :
  (∀ x y z, x ∈ l → y ∈ l → g x = Some z → g y = Some z → x = y) → NoDup l → NoDup (omap g l).
Proof.
  intros Hg. induction 1 as [|x l Hx Hl IH]; csimpl; [constructor|].
  assert (NoDup (omap g l)) by (apply IH; intros; eapply Hg; eauto; by right).
  destruct (g x) as [z|] eqn:E; [|done]. constructor; [|done].
  intros (y & Hy & Ez)%list_elem_of_omap. assert (x = y) as -> by (eapply Hg; eauto; [by left|by right]).
  done.
Qed.

Lemma pairs_NoDup f cls : keyed f → unique_names cls → unique_ids cls → NoDup (pairs f cls).
Proof.
  intros Hf. induction cls as [|a rest IH]; intros Hn Hi; simpl; [constructor|].
  unfold unique_ids in Hi. csimpl in Hi. apply NoDup_cons in Hi as [Ha Hi].
  apply NoDup_app. split_and!; [| |apply IH; [intros b Hb; apply Hn; by right|done]].
  - unfold of_cluster. apply NoDup_bind; [| |by eapply NoDup_fmap_1, Hn; left].
    + intros x1 x2 p H1 H2 (b1 & _ & E1)%list_elem_of_omap (b2 & _ & E2)%list_elem_of_omap.
      apply (NoDup_fmap_inj sc_Name (sClasses a)); [by apply Hn; left|done|done|].
      by rewrite <- (proj1 (Hf _ _ _ _ E1)), <- (proj1 (Hf _ _ _ _ E2)).
    + intros x Hx. apply NoDup_omap_inj; [|by eapply NoDup_fmap_1].
      intros b1 b2 p H1 H2 [_ E1]%Hf [_ E2]%Hf.
      apply (NoDup_fmap_inj clusterID rest); [done..|]. congruence.
  - intros p (x & b & _ & _ & [_ E]%Hf)%elem_of_cluster (a' & b' & y & Hin & _ & [_ E']%Hf)%elem_of_pairs.
    destruct Ha. assert (clusterID a = clusterID a') as -> by congruence.
    apply list_elem_of_fmap_2. by apply in_clusters_elem in Hin as [? _].
Qed.

(** An unordered pair of IDs determines the two clusters: their order is the list's. *)
Lemma in_clusters_inj cls a b a' b' :
  unique_ids cls → in_clusters cls a b → in_clusters cls a' b' →
  equalClusterIDSlices [clusterID a; clusterID b] [clusterID a'; clusterID b'] = true →
  a = a' ∧ b = b'.
Proof.
  intros Hu (i & j & Hij & Hi & Hj) (i' & j' & Hij' & Hi' & Hj') [_ E]%equalClusterIDSlices_spec.
  assert (Hinj : ∀ k l c d, cls !! k = Some c → cls !! l = Some d → clusterID c = clusterID d → k = l).
  { intros k l c d Hk Hl Hid. eapply (NoDup_lookup _ _ _ (clusterID c) Hu);
      rewrite list_lookup_fmap; [by rewrite Hk|by rewrite Hl, Hid]. }
  assert (Ha : clusterID a ∈ [clusterID a'; clusterID b']) by (apply E; set_solver).
  assert (Hb : clusterID b ∈ [clusterID a'; clusterID b']) by (apply E; set_solver).
  rewrite !elem_of_cons, elem_of_nil in Ha, Hb.
  assert (i = i' ∨ i = j') as Ei by (destruct Ha as [?|[?|[]]]; eauto).
  assert (j = i' ∨ j = j') as Ej by (destruct Hb as [?|[?|[]]]; eauto).
  assert (i ≠ j) by lia.
  assert (i = i' ∧ j = j') as [-> ->] by lia. split; congruence.
Qed.

Lemma pairs_unique f cls :
  keyed f → unique_names cls → unique_ids cls → peers_unique (pairs f cls).
Proof.
  intros Hf Hn Hi. split; [by apply pairs_NoDup|].
  intros p q (a & b & x & Hin & Hx & E)%elem_of_pairs (a' & b' & y & Hin' & Hy & E')%elem_of_pairs [Es Ec].
  pose proof (Hf _ _ _ _ E) as [E1 E2]. pose proof (Hf _ _ _ _ E') as [E1' E2'].
  rewrite E2, E2' in Ec. destruct (in_clusters_inj cls a b a' b') as [-> ->]; [done..|].
  congruence.
Qed.

(** ** How a storage class is replicated *)

(** A class of storage [x]: labelled with its storage ID and of its provisioner. *)
Definition goes_with (x : StorageClass) (m : ObjectMeta) (driver : string) : Prop :=
  label m StorageIDLabel = sc_sid x ∧ sc_sid x ≠ "" ∧ driver = sc_Provisioner x.

Definition snapshots_of (x : StorageClass) (l : list SnapshotClass) : Prop :=
  ∃ c, c ∈ l ∧ goes_with x (ssc_Meta c) (ssc_Driver c).

(** A replication class of [x] at the schedule, whose label [key] is [r]. *)
Definition replicates (schedule key : string) (x : StorageClass) (r : string) (l : list ReplicationClass)
    : Prop :=
  ∃ c, c ∈ l ∧ goes_with x (rc_Meta c) (rc_Provisioner c) ∧
    map_get (rc_Parameters c) ReplicationClassScheduleKey = schedule ∧ label (rc_Meta c) key = r.

Section Pair.
Context (schedule : string) (a : classLists) (x : StorageClass) (b : classLists) (y : StorageClass).

(** A replication ID, or group replication ID, common to both clusters; the storage
    class may name the group it wants. *)
Definition common_replication (r : string) : Prop :=
  r ≠ "" ∧ replicates schedule ReplicationIDLabel x r (vrClasses a) ∧
  replicates schedule ReplicationIDLabel y r (vrClasses b).

Definition wanted_group : string := label (sc_Meta x) GroupReplicationIDLabel.

Definition common_group (g : string) : Prop :=
  g ≠ "" ∧ (wanted_group = "" ∨ wanted_group = g) ∧
  replicates schedule GroupReplicationIDLabel x g (vgrClasses a) ∧
  replicates schedule GroupReplicationIDLabel y g (vgrClasses b).

Definition offloaded_as (o : bool) : Prop :=
  HasLabel (sc_Meta x) StorageOffloadedLabel = o ∧ HasLabel (sc_Meta y) StorageOffloadedLabel = o.

Definition async_info (r g : string) (grouping offloaded global : bool) : peerInfo :=
  mkPeerInfo r g [sc_sid x; sc_sid y] (sc_Name x) [clusterID a; clusterID b] grouping offloaded global.

(** The ways a storage class is replicated between two clusters: by the storage
    itself, by replication classes (in groups, if there are group classes as well),
    by group snapshots or by snapshots, the first that is there. *)
Inductive async_pair : peerInfo → Prop :=
| by_storage g :
    offloaded_as true → common_group g →
    async_pair (async_info "" g true true (isAsyncVGRClassPeerGlobal a b g))
| by_replication r g :
    offloaded_as false → common_replication r →
    common_group g ∨ (g = "" ∧ ∀ g', ¬ common_group g') →
    async_pair (async_info r g (bool_decide (g ≠ "")) false false)
| by_group_snapshots :
    offloaded_as false → (∀ r, ¬ common_replication r) →
    snapshots_of x (vgsClasses a) → snapshots_of y (vgsClasses b) →
    async_pair (async_info "" "" true false false)
| by_snapshots :
    offloaded_as false → (∀ r, ¬ common_replication r) →
    ¬ (snapshots_of x (vgsClasses a) ∧ snapshots_of y (vgsClasses b)) →
    snapshots_of x (vsClasses a) → snapshots_of y (vsClasses b) →
    async_pair (async_info "" "" false false false).
End Pair.

Lemma common_id_spec {A B} (idA : A → string) (idB : B → string) la lb :
  let r := common_id idA idB la lb in
  (r ≠ "" ∧ ∃ a b, a ∈ la ∧ b ∈ lb ∧ idA a = r ∧ idB b = r) ∨
  (r = "" ∧ ∀ a b, a ∈ la → b ∈ lb → idA a ≠ "" → idA a ≠ idB b).
Proof.
  induction la as [|a la IH]; simpl; [right; split; [done|]; by intros ?? ?%elem_of_nil|].
  case_bool_decide as Ha.
  { destruct IH as [(? & a' & b & ? & ?)|[? IH]]; [left; split; [done|]; exists a', b; set_solver|].
    right. split; [done|]. intros a' b [->|Hin]%elem_of_cons; [done|by apply IH]. }
  destruct (existsb _ lb) eqn:E.
  - left. split; [done|]. apply existsb_exists in E as (b & Hb%list_elem_of_In & E).
    bools. exists a, b. split_and!; [by left|done|done|congruence].
  - destruct IH as [(? & a' & b & ? & ?)|[? IH]]; [left; split; [done|]; exists a', b; set_solver|].
    right. split; [done|]. intros a' b [->|Hin]%elem_of_cons Hb; [|by apply IH].
    intros _ Hab. assert (existsb (λ b, bool_decide (idB b ≠ "") && bool_decide (idA a = idB b)) lb = true)
      as Ht; [|by rewrite Ht in E].
    apply existsb_exists. exists b. split; [by apply list_elem_of_In|].
    rewrite <- Hab. by rewrite !bool_decide_eq_true_2.
Qed.

(** What [getVRID] and [getVGRID] have in common: the label [key] of a class, if it is
    the storage ID's, the schedule's and the provisioner's. *)
Definition class_id (n : string) (cl : classLists) (c : ReplicationClass) (sid schedule key : string)
    : string :=
  if bool_decide (label (rc_Meta c) StorageIDLabel = "") ||
     bool_decide (sid ≠ label (rc_Meta c) StorageIDLabel) then ""
  else if bool_decide (map_get (rc_Parameters c) ReplicationClassScheduleKey ≠ schedule) then ""
  else if negb (provisionerMatchesSC n cl (rc_Provisioner c)) then ""
  else label (rc_Meta c) key.

Section Classes.
Context (n : string) (a : classLists) (x : StorageClass) (Hx : first_named n a = Some x).

Lemma provisioner_spec d : provisionerMatchesSC n a d = true ↔ d = sc_Provisioner x.
Proof.
  unfold provisionerMatchesSC. unfold first_named in Hx. rewrite Hx, bool_decide_eq_true. naive_solver.
Qed.

Lemma snapshots_spec l :
  existsb (snapshot_matches n a (sc_sid x)) l = true ↔ snapshots_of x l.
Proof.
  rewrite existsb_exists. unfold snapshots_of, goes_with, snapshot_matches.
  setoid_rewrite list_elem_of_In. split.
  - intros (c & Hc & E). exists c. destruct (_ || _) eqn:Eo; [done|]. bools.
    apply provisioner_spec in E. assert (label (ssc_Meta c) StorageIDLabel = sc_sid x) as Es by by apply dec_stable.
    split_and!; [done|done|by rewrite <- Es|done].
  - intros (c & Hc & Es & Hne & Ed). exists c. split; [done|].
    rewrite Es. rewrite (bool_decide_eq_false_2 _ Hne), bool_decide_eq_false_2 by naive_solver. simpl.
    by apply provisioner_spec.
Qed.

Lemma replication_spec schedule key c r :
  r ≠ "" →
  (class_id n a c (sc_sid x) schedule key = r ↔
   goes_with x (rc_Meta c) (rc_Provisioner c) ∧
    map_get (rc_Parameters c) ReplicationClassScheduleKey = schedule ∧ label (rc_Meta c) key = r).
Proof.
  intros Hr. unfold goes_with, class_id. split.
  - destruct (_ || _) eqn:Eo; [naive_solver|].
    bools. case_bool_decide as Es; [naive_solver|].
    destruct (provisionerMatchesSC _ _ _) eqn:Ep; [|naive_solver]. simpl.
    apply provisioner_spec in Ep.
    assert (sc_sid x = label (rc_Meta c) StorageIDLabel) as E1 by by apply dec_stable.
    intros. split_and!; [done|by rewrite E1|done..].
  - intros [(E1 & E2 & E3) [E4 E5]]. rewrite E1, (bool_decide_eq_false_2 _ E2). simpl.
    rewrite bool_decide_eq_false_2 by naive_solver. rewrite bool_decide_eq_false_2 by naive_solver.
    by rewrite (proj2 (provisioner_spec _) E3).
Qed.
End Classes.

Lemma getVGRID_pinned n cl c sid schedule gr :
  getVGRID n cl c sid schedule gr =
    let g := class_id n cl c sid schedule GroupReplicationIDLabel in
    if bool_decide (gr ≠ "") && bool_decide (gr ≠ g) then "" else g.
Proof.
  unfold getVGRID, class_id. cbv zeta. destruct (_ || _); [by destruct (_ && _)|].
  case_match; [by destruct (_ && _)|]. by destruct (negb _); [destruct (_ && _)|].
Qed.

Section TwoClusters.
Context (schedule n : string) (a : classLists) (x : StorageClass) (b : classLists) (y : StorageClass).
Context (Hx : first_named n a = Some x) (Hy : first_named n b = Some y).

Lemma first_named_name c z : first_named n c = Some z → z ∈ sClasses c ∧ sc_Name z = n.
Proof. intros [? ?%named_spec]%find_first_Some. done. Qed.

Lemma common_replication_spec :
  let r := getAsyncVRClassPeer n a b (sc_sid x) (sc_sid y) schedule in
  common_replication schedule a x b y r ∨
  (r = "" ∧ ∀ r', ¬ common_replication schedule a x b y r').
Proof.
  intros r. unfold r, getAsyncVRClassPeer.
  destruct (common_id_spec (λ c, getVRID n a c (sc_sid x) schedule)
    (λ c, getVRID n b c (sc_sid y) schedule) (vrClasses a) (vrClasses b))
    as [(Hr & c & d & Hc & Hd & Ec & Ed)|[Hr Hno]]; [left|right]; (split; [done|]).
  - split; [exists c|exists d]; (split; [done|]);
      [by apply (replication_spec n a x Hx)|by apply (replication_spec n b y Hy)].
  - intros r' (Hne & (c & Hc & Pc) & (d & Hd & Pd)).
    apply (replication_spec n a x Hx) in Pc; [|done]. apply (replication_spec n b y Hy) in Pd; [|done].
    change (getVRID n a c (sc_sid x) schedule = r') in Pc.
    change (getVRID n b d (sc_sid y) schedule = r') in Pd.
    apply (Hno c d); [done|done|by rewrite Pc|by rewrite Pc, Pd].
Qed.

Lemma getVGRID_spec cl z c g gr :
  first_named n cl = Some z → g ≠ "" →
  getVGRID n cl c (sc_sid z) schedule gr = g ↔
    (gr = "" ∨ gr = g) ∧ goes_with z (rc_Meta c) (rc_Provisioner c) ∧
    map_get (rc_Parameters c) ReplicationClassScheduleKey = schedule ∧
    label (rc_Meta c) GroupReplicationIDLabel = g.
Proof.
  intros Hz Hg. rewrite <- (replication_spec n cl z Hz schedule GroupReplicationIDLabel c g Hg).
  rewrite getVGRID_pinned. cbv zeta.
  generalize (class_id n cl c (sc_sid z) schedule GroupReplicationIDLabel). intros g'.
  destruct (decide (gr = "")), (decide (gr = g'));
    repeat first [rewrite bool_decide_eq_true_2 by done | rewrite bool_decide_eq_false_2 by naive_solver];
    naive_solver.
Qed.

Lemma common_group_spec :
  let g := getAsyncVGRClassPeer n a b (sc_sid x) (sc_sid y) schedule (wanted_group x) in
  common_group schedule a x b y g ∨ (g = "" ∧ ∀ g', ¬ common_group schedule a x b y g').
Proof.
  intros g. unfold g, getAsyncVGRClassPeer.
  destruct (common_id_spec (λ c, getVGRID n a c (sc_sid x) schedule (wanted_group x))
    (λ c, getVGRID n b c (sc_sid y) schedule (wanted_group x)) (vgrClasses a) (vgrClasses b))
    as [(Hr & c & d & Hc & Hd & Ec & Ed)|[Hr Hno]]; [left|right]; (split; [done|]).
  - apply (getVGRID_spec a x) in Ec as [? Ec]; [|done|done].
    apply (getVGRID_spec b y) in Ed as [? Ed]; [|done|done].
    split_and!; [done|by exists c|by exists d].
  - intros g' (Hne & Hw & (c & Hc & Pc) & (d & Hd & Pd)).
    assert (getVGRID n a c (sc_sid x) schedule (wanted_group x) = g') as Ec
      by by apply (getVGRID_spec a x).
    assert (getVGRID n b d (sc_sid y) schedule (wanted_group x) = g') as Ed
      by by apply (getVGRID_spec b y).
    apply (Hno c d); [done|done|by rewrite Ec|by rewrite Ec, Ed].
Qed.

Lemma vgs_spec :
  isAsyncVGSClassPeer n a b (sc_sid x) (sc_sid y) = true ↔
    snapshots_of x (vgsClasses a) ∧ snapshots_of y (vgsClasses b).
Proof.
  unfold isAsyncVGSClassPeer, hasVGSClassMatchingSID.
  by rewrite andb_true_iff, (snapshots_spec n a x Hx), (snapshots_spec n b y Hy).
Qed.

Lemma vs_spec :
  isAsyncVSClassPeer n a b (sc_sid x) (sc_sid y) = true ↔
    snapshots_of x (vsClasses a) ∧ snapshots_of y (vsClasses b).
Proof.
  unfold isAsyncVSClassPeer, hasVSClassMatchingSID.
  by rewrite andb_true_iff, (snapshots_spec n a x Hx), (snapshots_spec n b y Hy).
Qed.
End TwoClusters.

(** ** The peer of a pair of clusters *)

Section Unique.
Context (schedule n clID sID : string) (off : bool) (a b : classLists).

Lemma async_in_none l :
  n ∉ sc_Name <$> l → async_peer_in n clID sID off a b schedule l = None.
Proof.
  induction l as [|z l IH]; csimpl; [done|]. rewrite not_elem_of_cons. intros [Hz Hl].
  rewrite bool_decide_eq_true_2 by done. by apply IH.
Qed.

Lemma async_in_unique l y :
  NoDup (sc_Name <$> l) → find_first (named n) l = Some y →
  async_peer_in n clID sID off a b schedule l = async_peer_in n clID sID off a b schedule [y].
Proof.
  induction l as [|z l IH]; csimpl; [done|]. rewrite NoDup_cons. intros [Hz Hl] Hf.
  destruct (named n z) eqn:E.
  - apply named_spec in E. injection Hf as ->. rewrite async_in_none by congruence. done.
  - assert (sc_Name z ≠ n) as Hne by (intros ?%named_spec; congruence).
    rewrite (bool_decide_eq_true_2 (sc_Name z ≠ n)) by done. by apply IH.
Qed.
End Unique.

Section PairOf.
Context (schedule : string) (a : classLists) (x : StorageClass) (b : classLists) (y : StorageClass).
Context (Hx : first_named (sc_Name x) a = Some x) (Hy : first_named (sc_Name x) b = Some y).

Lemma async_in_pair :
  match async_peer_in (sc_Name x) (clusterID a) (sc_sid x) (HasLabel (sc_Meta x) StorageOffloadedLabel)
          a b schedule [y] with
  | Some p => sc_sid x ≠ sc_sid y ∧ async_pair schedule a x b y p
  | None => sc_sid x = sc_sid y ∨ ∀ p, ¬ async_pair schedule a x b y p
  end.
Proof.
  assert (Hn : sc_Name y = sc_Name x) by by apply (first_named_name (sc_Name x) b).
  pose proof (common_group_spec schedule _ a x b y Hx Hy) as Hg.
  pose proof (common_replication_spec schedule _ a x b y Hx Hy) as Hr.
  pose proof (vgs_spec _ a x b y Hx Hy) as Hvgs. pose proof (vs_spec _ a x b y Hx Hy) as Hvs.
  simpl. rewrite bool_decide_eq_false_2 by naive_solver. case_bool_decide as Hs; [by left|].
  case_bool_decide as Ho; [right; intros p Hp; destruct Hp as [? []|?? []|[]|[]]; congruence|].
  unfold first_named in Hx at 1. rewrite Hx.
  change (label (sc_Meta x) GroupReplicationIDLabel) with (wanted_group x). simpl in Hg, Hr.
  generalize dependent (getAsyncVGRClassPeer (sc_Name x) a b (sc_sid x) (sc_sid y) schedule (wanted_group x)).
  generalize dependent (getAsyncVRClassPeer (sc_Name x) a b (sc_sid x) (sc_sid y) schedule).
  intros r Hr g Hg. destruct (HasLabel (sc_Meta x) StorageOffloadedLabel) eqn:Eo; simpl.
  { case_bool_decide as Hg0.
    - right. destruct Hg as [[? _]|[_ Hno]]; [done|].
      intros p Hp. destruct Hp as [g' _ Hg'|?? []|[]|[]]; [by apply (Hno g')|congruence..].
    - split; [done|]. apply by_storage; [done|]. naive_solver. }
  assert (Hoff : offloaded_as x y false) by done.
  case_bool_decide as Hr0.
  - assert (∀ r', ¬ common_replication schedule a x b y r') as Hnor.
    { destruct Hr as [[? _]|[_ ?]]; [done|done]. }
    rewrite Hr0. destruct (isAsyncVGSClassPeer _ _ _ _ _).
    + split; [done|]. destruct (proj1 Hvgs eq_refl). by apply by_group_snapshots.
    + assert (¬ (snapshots_of x (vgsClasses a) ∧ snapshots_of y (vgsClasses b))) as Hnov
        by (by intros ?%Hvgs).
      destruct (isAsyncVSClassPeer _ _ _ _ _); simpl.
      * split; [done|]. destruct (proj1 Hvs eq_refl). by apply by_snapshots.
      * right. intros p Hp. destruct Hp as [? []|r' ? _ Hc|? ? ??|? ? ? H1 H2];
          [congruence|by apply (Hnor r')|by apply Hnov|by assert (false = true) by (by apply Hvs)].
  - split; [done|]. destruct Hr as [Hr|[? _]]; [|done].
    rewrite (bool_decide_eq_true_2 (r ≠ "")) by done. by apply by_replication.
Qed.
End PairOf.

Lemma first_named_unique cls a x :
  unique_names cls → a ∈ cls → x ∈ sClasses a → first_named (sc_Name x) a = Some x.
Proof.
  intros Hu Ha Hx. destruct (first_named_is_Some (sc_Name x) a) as [z Hz];
    [by apply list_elem_of_fmap_2|].
  rewrite Hz. apply first_named_name in Hz as [Hz E].
  f_equal. by apply (NoDup_fmap_inj sc_Name (sClasses a)); [apply Hu|..].
Qed.

(** [x] and [y]: one storage class name on two clusters of the list, on storage with
    an ID that differs. *)
Record apart (cls : list classLists) (a : classLists) (x : StorageClass) (b : classLists) (y : StorageClass)
    : Prop := mkApart {
  ap_clusters : in_clusters cls a b;
  ap_x : x ∈ sClasses a;
  ap_y : y ∈ sClasses b;
  ap_name : sc_Name y = sc_Name x;
  ap_labelled : HasLabel (sc_Meta x) StorageIDLabel = true;
  ap_sids : sc_sid x ≠ sc_sid y;
}.

Section Peers.
Context (cls : list classLists) (schedule : string).
Context (Hun : unique_names cls).

Lemma async_peer_apart a x b y :
  apart cls a x b y → schedule ≠ "" →
  async_peer schedule a (sc_Name x) b =
    async_peer_in (sc_Name x) (clusterID a) (sc_sid x) (HasLabel (sc_Meta x) StorageOffloadedLabel)
      a b schedule [y].
Proof.
  intros [Hin Hx Hy Hn Hl _] Hs. apply in_clusters_elem in Hin as [Ha Hb].
  unfold async_peer. rewrite (first_named_unique cls a x) by done. simpl.
  rewrite Hl, (bool_decide_eq_true_2 _ Hs). simpl.
  apply async_in_unique; [by apply Hun|]. rewrite <- Hn. by apply (first_named_unique cls b y).
Qed.

Lemma async_peer_found a n b p :
  in_clusters cls a b → async_peer schedule a n b = Some p →
  schedule ≠ "" ∧ ∃ x y, apart cls a x b y ∧ sc_Name x = n ∧ async_pair schedule a x b y p.
Proof.
  intros Hin. pose proof Hin as [Ha Hb]%in_clusters_elem. unfold async_peer.
  destruct (first_named n a) as [x|] eqn:Hx; [simpl|done].
  destruct (HasLabel _ _) eqn:Hl; simpl; [|done]. case_bool_decide as Hs; [|done].
  intros Hp. destruct (decide (n ∈ sc_Name <$> sClasses b)) as [Hy|Hy];
    [|by rewrite async_in_none in Hp].
  apply first_named_is_Some in Hy as [y Hy].
  rewrite (async_in_unique _ _ _ _ _ _ _ _ y) in Hp; [|by apply Hun|done].
  pose proof (first_named_name _ _ _ Hx) as [Hxa Hxn]. pose proof (first_named_name _ _ _ Hy) as [Hyb Hyn].
  rewrite <- Hxn in Hp, Hx, Hy.
  pose proof (async_in_pair schedule a x b y Hx Hy) as H. rewrite Hp in H. destruct H as [Hne Hpair].
  split; [done|]. exists x, y. split; [|done]. split; [done..|congruence|done|done].
Qed.

Lemma async_peer_complete a x b y :
  apart cls a x b y → schedule ≠ "" → (∃ p, async_pair schedule a x b y p) →
  ∃ p, async_peer schedule a (sc_Name x) b = Some p ∧ async_pair schedule a x b y p.
Proof.
  intros Hap Hs [q Hq]. rewrite (async_peer_apart a x b y) by done.
  pose proof Hap as [Hin Hx Hy Hn Hl Hne]. apply in_clusters_elem in Hin as [Ha Hb].
  pose proof (async_in_pair schedule a x b y) as H.
  specialize (H (first_named_unique cls a x Hun Ha Hx)). rewrite <- Hn in H at 1.
  specialize (H (first_named_unique cls b y Hun Hb Hy)).
  destruct (async_peer_in _ _ _ _ _ _ _ _) as [p|]; [exists p; naive_solver|].
  destruct H as [|H]; [done|]. by destruct (H q).
Qed.

Lemma sync_peer_found a n b p :
  in_clusters cls a b →
  sync_peer a n b = Some p ↔
    ∃ x y, x ∈ sClasses a ∧ y ∈ sClasses b ∧ sc_Name x = n ∧ sc_Name y = n ∧
      HasLabel (sc_Meta x) StorageIDLabel = true ∧ sc_sid x = sc_sid y ∧
      p = mkPeerInfo "" "" [sc_sid x] n [clusterID a; clusterID b] false false false.
Proof.
  intros [Ha Hb]%in_clusters_elem. unfold sync_peer, sync_peer_in. split.
  - destruct (first_named n a) as [x|] eqn:Hx; [simpl|done].
    destruct (HasLabel _ _) eqn:Hl; [|done].
    change (find_first (named n) (sClasses b)) with (first_named n b).
    destruct (first_named n b) as [y|] eqn:Hy; [|done]. case_bool_decide as Hs; [done|].
    apply first_named_name in Hx as [? ?], Hy as [? ?]. intros. simplify_eq. exists x, y. done.
  - intros (x & y & Hx & Hy & <- & Hn & Hl & Hs & ->).
    rewrite (first_named_unique cls a x) by done. simpl. rewrite Hl.
    change (find_first (named (sc_Name x)) (sClasses b)) with (first_named (sc_Name x) b).
    rewrite <- Hn, (first_named_unique cls b y), Hn by done.
    by rewrite bool_decide_eq_false_2 by (by intros []).
Qed.
End Peers.

Lemma keyed_sync : keyed sync_peer.
Proof.
  intros a n b p. unfold sync_peer, sync_peer_in. destruct (first_named n a); simpl; [|done].
  destruct (HasLabel _ _); [|done]. destruct (find_first _ _); [|done].
  case_bool_decide; [done|]. by intros [= <-].
Qed.

Lemma async_in_keyed n clID sID off a b schedule l p :
  async_peer_in n clID sID off a b schedule l = Some p →
  pi_storageClassName p = n ∧ pi_clusterIDs p = [clID; clusterID b].
Proof.
  induction l as [|z l IH]; simpl; [done|]. repeat case_match; try done; by intros [= <-].
Qed.

Lemma keyed_async schedule : keyed (async_peer schedule).
Proof.
  intros a n b p. unfold async_peer. destruct (first_named n a); simpl; [|done].
  destruct (_ && _); [|done]. apply async_in_keyed.
Qed.

(** ** The status follows the peers *)

Lemma matches_same_pair pc p :
  peerClassMatchesPeer pc p = true →
  same_pair (pc_StorageClassName pc) (pi_storageClassName p) (pc_ClusterIDs pc) (pi_clusterIDs p).
Proof. unfold peerClassMatchesPeer. cbv zeta. case_match; intros; bools; split; done. Qed.

Lemma from_peer_matches p : peerClassMatchesPeer (peerClassFromPeer p) p = true.
Proof.
  unfold peerClassMatchesPeer. simpl. rewrite !bd_refl, equalClusterIDSlices_refl. by case_match.
Qed.

Lemma same_pair_sym n n' l l' : same_pair n n' l l' → same_pair n' n l' l.
Proof. intros [-> [? ?]%equalClusterIDSlices_spec]. split; [done|]. by apply equalClusterIDSlices_spec. Qed.

Lemma same_pair_trans n1 n2 n3 l1 l2 l3 :
  same_pair n1 n2 l1 l2 → same_pair n2 n3 l2 l3 → same_pair n1 n3 l1 l3.
Proof. intros [-> H1] [-> H2]. split; [done|]. by rewrite (equalClusterIDSlices_ext l1 l2). Qed.

Section Status.
Context (status : list PeerClass) (peers : list peerInfo).

Definition retained : list peerInfo := omap (λ pc, findStatusPeerInPeers pc peers) status.
Definition added : list peerInfo :=
  filter (λ p, findPeerInStatusPeer p status = false) peers.

Lemma prune_split :
  pruneAndUpdateStatusPeers status peers = peerClassFromPeer <$> (retained ++ added).
Proof.
  unfold pruneAndUpdateStatusPeers, retained, added. rewrite fmap_app. f_equal.
  - induction status as [|pc l IH]; csimpl; [done|].
    destruct (findStatusPeerInPeers pc peers); csimpl; by rewrite IH.
  - induction peers as [|p l IH]; csimpl; [done|]. rewrite filter_cons.
    destruct (findPeerInStatusPeer p status); simpl; by rewrite ?IH.
Qed.

Lemma retained_NoDup : status_unique status → NoDup retained.
Proof.
  intros [Hn Hk]. unfold retained. apply NoDup_omap_inj; [|done].
  intros pc pc' p Hpc Hpc' [_ M]%find_first_Some [_ M']%find_first_Some.
  apply Hk; [done|done|]. eapply same_pair_trans; [by apply matches_same_pair|].
  apply same_pair_sym. by apply matches_same_pair.
Qed.

Lemma found_in_status p :
  findPeerInStatusPeer p status = true ↔ ∃ pc, pc ∈ status ∧ peerClassMatchesPeer pc p = true.
Proof.
  unfold findPeerInStatusPeer. rewrite existsb_exists. by setoid_rewrite list_elem_of_In.
Qed.

Lemma retained_spec p :
  peers_unique peers → p ∈ retained ↔ p ∈ peers ∧ findPeerInStatusPeer p status = true.
Proof.
  intros [_ Hk]. unfold retained. rewrite list_elem_of_omap, found_in_status. split.
  - intros (pc & Hpc & [Hp M]%find_first_Some). eauto.
  - intros [Hp (pc & Hpc & M)]. exists pc. split; [done|]. unfold findStatusPeerInPeers.
    destruct (find_first _ peers) as [q|] eqn:E.
    + f_equal. apply find_first_Some in E as [Hq Mq]. apply Hk; [done|done|].
      eapply same_pair_trans; [|by apply matches_same_pair].
      apply same_pair_sym. by apply matches_same_pair.
    + rewrite find_first_None in E. rewrite E in M by done. done.
Qed.

Lemma prune_permutation :
  status_unique status → peers_unique peers →
  pruneAndUpdateStatusPeers status peers ≡ₚ peerClassFromPeer <$> peers.
Proof.
  intros Hs Hp. rewrite prune_split. apply fmap_Permutation, NoDup_Permutation.
  - apply NoDup_app. split_and!; [by apply retained_NoDup| |by apply NoDup_filter, Hp].
    intros p [_ H]%retained_spec [H' _]%list_elem_of_filter; [congruence|done].
  - apply Hp.
  - intros p. rewrite elem_of_app, retained_spec by done. unfold added. rewrite list_elem_of_filter.
    destruct (findPeerInStatusPeer p status); naive_solver.
Qed.
End Status.

Lemma from_peer_inj p q : peerClassFromPeer p = peerClassFromPeer q → p = q.
Proof. destruct p, q. simpl. by intros [= -> -> -> -> -> -> -> ->]. Qed.

Lemma from_peers_unique peers l :
  peers_unique peers → l ≡ₚ peerClassFromPeer <$> peers → status_unique l.
Proof.
  intros [Hn Hk] Hl. split.
  - rewrite Hl. apply NoDup_fmap; [|done]. intros p q. apply from_peer_inj.
  - intros pc pc'. rewrite Hl. intros (p & -> & Hp)%list_elem_of_fmap (q & -> & Hq)%list_elem_of_fmap Hs.
    f_equal. by apply Hk.
Qed.

(** Once the status lists the peers, pruning it against them changes nothing, not even
    the order. *)
Lemma prune_stable l peers :
  peers_unique peers → l ≡ₚ peerClassFromPeer <$> peers → pruneAndUpdateStatusPeers l peers = l.
Proof.
  intros Hp Hl. unfold pruneAndUpdateStatusPeers.
  assert (Hadd : omap (λ p, if findPeerInStatusPeer p l then None else Some (peerClassFromPeer p)) peers = []).
  { apply elem_of_nil_inv. intros pc (p & Hin & E)%list_elem_of_omap.
    assert (findPeerInStatusPeer p l = true) as Hf; [|by rewrite Hf in E].
    apply found_in_status. exists (peerClassFromPeer p). split; [|apply from_peer_matches].
    rewrite Hl. by apply list_elem_of_fmap_2. }
  rewrite Hadd, app_nil_r. clear Hadd.
  assert (Hin : ∀ pc, pc ∈ l → peerClassFromPeer <$> findStatusPeerInPeers pc peers = Some pc).
  { intros pc. rewrite Hl. intros (p & -> & Hp')%list_elem_of_fmap. unfold findStatusPeerInPeers.
    destruct (find_first _ peers) as [q|] eqn:E.
    - apply find_first_Some in E as [Hq M]. simpl. do 2 f_equal. apply Hp; [done|done|].
      apply same_pair_sym. by apply (matches_same_pair (peerClassFromPeer p)).
    - rewrite find_first_None in E. specialize (E p Hp'). by rewrite from_peer_matches in E. }
  clear Hl. induction l as [|pc l IH]; csimpl; [done|].
  rewrite Hin by by left. f_equal. apply IH. intros pc' ?. apply Hin. by right.
Qed.

(** ** The claims *)

(** C24: the search for the peers of a policy never fails, and its asynchronous peers
    are exactly the replicable ones: each is a storage class that two clusters of the
    list have, on storage of different IDs, with a mechanism that replicates it at the
    policy's schedule (the storage itself, a replication ID the replication classes of
    both clusters share, group snapshots or snapshots on both sides), described as
    [async_pair] says; and wherever there is such a mechanism a peer is listed. *)
Theorem async_peers_exact cls schedule :
  unique_names cls →
  ∃ syncPeers asyncPeers, findAllPeers cls schedule = Some (syncPeers, asyncPeers) ∧
    (∀ p, p ∈ asyncPeers → schedule ≠ "" ∧
       ∃ a x b y, apart cls a x b y ∧ async_pair schedule a x b y p) ∧
    (∀ a x b y, apart cls a x b y → schedule ≠ "" → (∃ p, async_pair schedule a x b y p) →
       ∃ p, p ∈ asyncPeers ∧ async_pair schedule a x b y p).
Proof.
  intros Hu. eexists _, _. split; [apply findAllPeers_pairs|]. split.
  - intros p (a & b & x & Hin & Hx & E)%elem_of_pairs.
    apply (async_peer_found cls) in E as (Hs & x' & y & Hap & _ & Hp); [|done|done]. eauto 8.
  - intros a x b y Hap Hs Hp.
    destruct (async_peer_complete cls schedule Hu a x b y Hap Hs Hp) as (p & E & Hpair).
    exists p. split; [|done]. apply elem_of_pairs. exists a, b, x.
    split_and!; [apply Hap|apply Hap|done].
Qed.

(** a storage class is synchronous between two clusters exactly when both have it on
    storage of one ID, and then it is not asynchronous between them: no storage class
    and pair of clusters is in both lists. *)
Theorem sync_peers_exact cls schedule :
  unique_names cls → unique_ids cls →
  ∃ syncPeers asyncPeers, findAllPeers cls schedule = Some (syncPeers, asyncPeers) ∧
    (∀ p, p ∈ syncPeers ↔
       ∃ a x b y, in_clusters cls a b ∧ x ∈ sClasses a ∧ y ∈ sClasses b ∧ sc_Name y = sc_Name x ∧
         HasLabel (sc_Meta x) StorageIDLabel = true ∧ sc_sid x = sc_sid y ∧
         p = mkPeerInfo "" "" [sc_sid x] (sc_Name x) [clusterID a; clusterID b] false false false) ∧
    (∀ p q, p ∈ syncPeers → q ∈ asyncPeers →
       ¬ same_pair (pi_storageClassName p) (pi_storageClassName q) (pi_clusterIDs p) (pi_clusterIDs q)).
Proof.
  intros Hu Hi. eexists _, _. split; [apply findAllPeers_pairs|]. split.
  - intros p. rewrite elem_of_pairs. split.
    + intros (a & b & z & Hin & Hz & (x & y & ? & ? & En & ? & ? & ? & ->)%(sync_peer_found cls)); [|done|done].
      exists a, x, b, y. rewrite En. naive_solver.
    + intros (a & x & b & y & Hin & Hx & Hy & Hn & Hl & Hs & ->). exists a, b, x.
      split_and!; [done|done|]. apply (sync_peer_found cls); [done|done|]. exists x, y. naive_solver.
  - intros p q (a & b & z & Hin & Hz & E)%elem_of_pairs (a' & b' & z' & Hin' & Hz' & E')%elem_of_pairs [En Ec].
    pose proof (keyed_sync _ _ _ _ E) as [Kn Kc]. pose proof (keyed_async _ _ _ _ _ E') as [Kn' Kc'].
    rewrite Kc, Kc' in Ec. destruct (in_clusters_inj cls a b a' b') as [<- <-]; [done..|].
    apply (sync_peer_found cls) in E as (x & y & Hx & Hy & Nx & Ny & _ & Hs & _); [|done|done].
    apply (async_peer_found cls) in E' as (_ & x' & y' & Hap & Nx' & _); [|done|done].
    pose proof (in_clusters_elem _ _ _ Hin) as [Ha Hb]. destruct Hap as [_ Hx' Hy' Hn' _ Hne].
    assert (x' = x) as -> by (apply (NoDup_fmap_inj sc_Name (sClasses a)); [by apply Hu|done|done|congruence]).
    assert (y' = y) as -> by (apply (NoDup_fmap_inj sc_Name (sClasses b)); [by apply Hu|done|done|congruence]).
    done.
Qed.

(** the status of a policy follows the peers: after an update its peer classes are,
    up to order, one for each asynchronous and each synchronous peer that the clusters'
    classes give, however the status was before as long as it listed no pair twice, and
    an update by the same peers leaves it as it is. *)
Theorem peer_status_follows cls schedule policy :
  unique_names cls → unique_ids cls →
  status_unique (dpt_Async (drp_Status policy)) → status_unique (dpt_Sync (drp_Status policy)) →
  ∃ syncPeers asyncPeers, findAllPeers cls schedule = Some (syncPeers, asyncPeers) ∧
    let policy' := updatePeerClassStatus policy syncPeers asyncPeers in
    dpt_Async (drp_Status policy') ≡ₚ peerClassFromPeer <$> asyncPeers ∧
    dpt_Sync (drp_Status policy') ≡ₚ peerClassFromPeer <$> syncPeers ∧
    status_unique (dpt_Async (drp_Status policy')) ∧ status_unique (dpt_Sync (drp_Status policy')) ∧
    updatePeerClassStatus policy' syncPeers asyncPeers = policy'.
Proof.
  intros Hu Hi Ha Hs. eexists _, _. split; [apply findAllPeers_pairs|]. cbv zeta.
  pose proof (pairs_unique _ _ (keyed_async schedule) Hu Hi) as Pa.
  pose proof (pairs_unique _ _ keyed_sync Hu Hi) as Ps.
  pose proof (prune_permutation _ _ Ha Pa) as Ea. pose proof (prune_permutation _ _ Hs Ps) as Es.
  split_and!; [exact Ea|exact Es|exact (from_peers_unique _ _ Pa Ea)|exact (from_peers_unique _ _ Ps Es)|].
  unfold updatePeerClassStatus, upd_field. simpl.
  by rewrite (prune_stable _ _ Pa Ea), (prune_stable _ _ Ps Es).
Qed.

(** ** A policy of two clusters *)

Module PeersCase.
Definition labelled (name : string) (l : gmap string string) : ObjectMeta :=
  named_meta name "" <| om_Labels := l |>.
Definition rbd (sid : string) : StorageClass :=
  mkStorageClass (labelled "rbd" {[StorageIDLabel := sid]}) "rbd.csi" ∅.
Definition shared : StorageClass :=
  mkStorageClass (labelled "shared" {[StorageIDLabel := "s0"]}) "shared.csi" ∅.
Definition vrc (sid : string) : ReplicationClass :=
  mkReplicationClass (labelled "vrc" {[StorageIDLabel := sid; ReplicationIDLabel := "r1"]}) "rbd.csi"
    {[ReplicationClassScheduleKey := "5m"]}.
Definition cluster (id sid : string) : classLists :=
  mkClassLists id [rbd sid; shared] [] [vrc sid] [] [].
Definition clusters : list classLists := [cluster "east" "s1"; cluster "west" "s2"].
Definition policy : DRPolicy :=
  mkDRPolicy zero_meta (mkDRPolicySpec "5m" zero_selector zero_selector zero_selector ["east"; "west"] None)
    (mkDRPolicyStatus [] [] [] []).

Example found :
  findAllPeers clusters "5m" =
    Some ([mkPeerInfo "" "" ["s0"] "shared" ["east"; "west"] false false false],
          [mkPeerInfo "r1" "" ["s1"; "s2"] "rbd" ["east"; "west"] false false false]).
Proof. vm_compute. reflexivity. Qed.

Lemma names_unique : unique_names clusters.
Proof.
  intros a [->|[->|[]%elem_of_nil]%elem_of_cons]%elem_of_cons;
    (apply (bool_decide_unpack _); vm_compute; exact I).
Qed.

Lemma ids_unique : unique_ids clusters.
Proof. apply (bool_decide_unpack _). vm_compute. exact I. Qed.

Lemma status_empty : status_unique [].
Proof. split; [constructor|]. by intros p q ?%elem_of_nil. Qed.
End PeersCase.

Lemma async_peers_exact_witness :
  ∃ s l, findAllPeers PeersCase.clusters "5m" = Some (s, l) ∧
    ∀ p, p ∈ l → "5m" ≠ "" ∧ ∃ a x b y, apart PeersCase.clusters a x b y ∧ async_pair "5m" a x b y p.
Proof.
  destruct (async_peers_exact PeersCase.clusters "5m" PeersCase.names_unique) as (s & l & E & H & _).
  by exists s, l.
Defined.

Lemma sync_peers_exact_witness :
  ∃ s l, findAllPeers PeersCase.clusters "5m" = Some (s, l) ∧
    ∀ p q, p ∈ s → q ∈ l →
      ¬ same_pair (pi_storageClassName p) (pi_storageClassName q) (pi_clusterIDs p) (pi_clusterIDs q).
Proof.
  destruct (sync_peers_exact PeersCase.clusters "5m" PeersCase.names_unique PeersCase.ids_unique)
    as (s & l & E & _ & H). by exists s, l.
Defined.

Lemma peer_status_follows_witness :
  ∃ s l, findAllPeers PeersCase.clusters "5m" = Some (s, l) ∧
    dpt_Async (drp_Status (updatePeerClassStatus PeersCase.policy s l)) ≡ₚ peerClassFromPeer <$> l.
Proof.
  destruct (peer_status_follows PeersCase.clusters "5m" PeersCase.policy PeersCase.names_unique
    PeersCase.ids_unique PeersCase.status_empty PeersCase.status_empty) as (s & l & E & H & _).
  by exists s, l.
Defined.
