(* ===== verification/Events.v ===== *)
(** * The event reporter

    internal/controller/util/events.go: the reporter that keeps the hub from
    recording the same event over and over.  Its two maps are keyed by the object's
    namespaced name; [er_recorded] is what was handed to the Kubernetes recorder,
    newest first, each entry with the time the reporter stored for it.  Times are
    nanoseconds. *)

From Stdlib Require Import ZArith.
From S2P Require Import Prelude Meta.
Local Open Scope Z_scope.

Definition Second : Z := 1000000000.
Definition Minute : Z := 60 * Second.
Definition LastEventValidDuration : Z := 10.

Definition EventTypeNormal : string := "Normal".
Definition EventTypeWarning : string := "Warning".
Definition EventReasonDeploying : string := "DRPCDeploying".
Definition EventReasonDeployFail : string := "DRPCDeployFailed".
Definition EventReasonDeploySuccess : string := "DRPCDeploySuccess".
Definition EventReasonFailingOver : string := "DRPCFailingOver".
Definition EventReasonFailoverSuccess : string := "DRPCFailoverSuccess".
Definition EventReasonRelocating : string := "DRPCRelocating".
Definition EventReasonRelocationSuccess : string := "DRPCRelocationSuccess".
Definition EventReasonSwitchFailed : string := "DRPCClusterSwitchFailed".

Record Event := mkEvent {
  ev_Time : Z;
  ev_Object : string;
  ev_Type : string;
  ev_Reason : string;
  ev_Message : string;
}.
#[export] Instance Event_eq : EqDecision Event.
Proof. solve_decision. Defined.

Record EventReporter := mkEventReporter {
  er_lastReportedEvent : gmap string string;
  er_lastReportedEventTime : gmap string Z;
  er_recorded : list Event;
}.
#[export] Instance eta_EventReporter : Eta EventReporter := λ r,
  mkEventReporter (er_lastReportedEvent r) (er_lastReportedEventTime r) (er_recorded r).

Definition NewEventReporter : EventReporter := mkEventReporter ∅ ∅ [].

Definition getNameSpacedName (o : ObjectMeta) : string := om_Namespace o +:+ ":" +:+ om_Name o.

Definition getEventKey (eventType eventReason msg : string) : string :=
  eventType +:+ ":" +:+ eventReason +:+ ":" +:+ msg.

(** [time.Time{}], the value of a missing key: year 1. *)
Definition zero_time : Z := -62135596800 * Second.

(** [now] is read for the comparison, [now'] for the stored time. *)
Definition ReportIfNotPresent (now now' : Z) (recorder : EventReporter) (instance : ObjectMeta)
    (eventType eventReason msg : string) : EventReporter :=
  let nameSpacedName := getNameSpacedName instance in
  let eventKey := getEventKey eventType eventReason msg in
  if bool_decide (map_get (er_lastReportedEvent recorder) nameSpacedName ≠ eventKey) ||
     bool_decide (default zero_time (er_lastReportedEventTime recorder !! nameSpacedName)
                  + Second * LastEventValidDuration < now)
  then mkEventReporter
         (<[nameSpacedName := eventKey]> (er_lastReportedEvent recorder))
         (<[nameSpacedName := now']> (er_lastReportedEventTime recorder))
         (mkEvent now' nameSpacedName eventType eventReason msg :: er_recorded recorder)
  else recorder.

(** ** A run of reports *)

Record report := mkReport {
  rep_now : Z;
  rep_now' : Z;
  rep_obj : ObjectMeta;
  rep_type : string;
  rep_reason : string;
  rep_msg : string;
}.

Definition run_report (r : EventReporter) (c : report) : EventReporter :=
  ReportIfNotPresent (rep_now c) (rep_now' c) r (rep_obj c) (rep_type c) (rep_reason c) (rep_msg c).

Definition run_reports (r : EventReporter) (cs : list report) : EventReporter :=
  foldl run_report r cs.

(** The clock does not go backwards within a call. *)
Definition report_ok (c : report) : Prop := rep_now c ≤ rep_now' c.

Definition ev_key (e : Event) : string := getEventKey (ev_Type e) (ev_Reason e) (ev_Message e).

(** The recorded events of one object, newest first. *)
Definition events_of (o : string) (l : list Event) : list Event :=
  filter (λ e, ev_Object e = o) l.

(** Consecutive events of an object differ, or are more than the window apart. *)
Fixpoint spaced (l : list Event) : Prop :=
  match l with
  | e :: (e' :: _) as l' =>
      (ev_key e ≠ ev_key e' ∨ ev_Time e' + Second * LastEventValidDuration < ev_Time e) ∧ spaced l'
  | _ => True
  end.

(** The maps describe the newest recorded event of each object. *)
Definition reporter_inv (r : EventReporter) : Prop :=
  ∀ o, match events_of o (er_recorded r) with
       | e :: _ => er_lastReportedEvent r !! o = Some (ev_key e) ∧
                   er_lastReportedEventTime r !! o = Some (ev_Time e)
       | [] => er_lastReportedEvent r !! o = None ∧ er_lastReportedEventTime r !! o = None
       end ∧ spaced (events_of o (er_recorded r)).

(** An event key holds a colon, so it never equals the value of a missing key. *)
Lemma getEventKey_nonempty t r m : getEventKey t r m ≠ "".
Proof. unfold getEventKey. by destruct t. Qed.

Lemma run_report_inv r c : report_ok c → reporter_inv r → reporter_inv (run_report r c).
Proof.
  intros Hc Hr. unfold run_report, ReportIfNotPresent. set (o' := getNameSpacedName (rep_obj c)).
  destruct (_ || _) eqn:E; [|done]. intros o. simpl. unfold events_of.
  destruct (decide (o' = o)) as [->|Hne].
  - rewrite filter_cons_True by done. simpl. rewrite !lookup_insert_eq. split; [done|].
    specialize (Hr o). fold (events_of o (er_recorded r)).
    destruct (events_of o (er_recorded r)) as [|e l] eqn:El; [done|].
    destruct Hr as [[Hk Ht] Hs]. split; [|done].
    rewrite orb_true_iff, !bool_decide_eq_true in E. unfold map_get in E.
    rewrite Hk, Ht in E. simpl in E. unfold report_ok in Hc.
    unfold ev_key at 1. simpl. destruct E as [E|E]; [left|right]; [congruence|lia].
  - rewrite filter_cons_False by done. rewrite !lookup_insert_ne by done. apply Hr.
Qed.

Lemma run_reports_inv r cs : Forall report_ok cs → reporter_inv r → reporter_inv (run_reports r cs).
Proof.
  intros Hcs. revert r. unfold run_reports.
  induction Hcs as [|c cs Hc Hcs IH]; intros r Hr; simpl; [done|]. by apply IH, run_report_inv.
Qed.

Lemma NewEventReporter_inv : reporter_inv NewEventReporter.
Proof. intros o. simpl. by rewrite !lookup_empty. Qed.

(** Whatever reports a reporter has served, (1) the recorded events of an
    object that repeat their predecessor are more than ten seconds younger than
    it, and (2) no report is lost: after a report, the newest recorded event of
    its object is that very event, recorded at most ten seconds before. *)
Theorem ReportIfNotPresent_window cs c
  (Hcs : Forall report_ok cs) (Hc : report_ok c) :
  let r := run_report (run_reports NewEventReporter cs) c in
  let o := getNameSpacedName (rep_obj c) in
  (∀ o', spaced (events_of o' (er_recorded r))) ∧
  (∃ e l, events_of o (er_recorded r) = e :: l ∧
     ev_key e = getEventKey (rep_type c) (rep_reason c) (rep_msg c) ∧
     rep_now c ≤ ev_Time e + Second * LastEventValidDuration).
Proof.
  intros r o.
  pose proof (run_reports_inv _ cs Hcs NewEventReporter_inv) as H0.
  pose proof (run_report_inv _ c Hc H0) as H1.
  split; [intros o'; by apply H1|]. unfold r, run_report, ReportIfNotPresent. fold o.
  destruct (_ || _) eqn:E; simpl.
  - unfold events_of. rewrite filter_cons_True by done.
    eexists _, _. split_and!; [done|done|]. simpl. unfold report_ok in Hc.
    unfold Second, LastEventValidDuration. lia.
  - apply orb_false_iff in E as [E1 E2]. apply bd_false in E1, E2. apply dec_stable in E1.
    specialize (H0 o). unfold map_get in E1.
    destruct (events_of o _) as [|e l].
    + destruct H0 as [[Hk _] _]. rewrite Hk in E1. by apply symmetry, getEventKey_nonempty in E1.
    + destruct H0 as [[Hk Ht] _]. rewrite Hk in E1. rewrite Ht in E2. simpl in *.
      exists e, l. split_and!; [done|done|]. lia.
Qed.

Definition sample_report (t : Z) : report :=
  mkReport t t (named_meta "app" "ns") EventTypeNormal EventReasonRelocating "Relocating".

Lemma ReportIfNotPresent_window_witness :
  let cs := [sample_report 0; sample_report Second; sample_report (11 * Second)] in
  let r := run_report (run_reports NewEventReporter cs) (sample_report (12 * Second)) in
  length (er_recorded r) = 2%nat ∧
  ∃ e l, events_of "ns:app" (er_recorded r) = e :: l ∧
     ev_key e = getEventKey EventTypeNormal EventReasonRelocating "Relocating" ∧
     12 * Second ≤ ev_Time e + Second * LastEventValidDuration.
Proof.
  intros cs r. split; [vm_compute; reflexivity|].
  assert (Hcs : Forall report_ok cs) by (repeat constructor; unfold report_ok; simpl; lia).
  assert (Hc : report_ok (sample_report (12 * Second))) by (unfold report_ok; simpl; lia).
  exact (proj2 (ReportIfNotPresent_window cs (sample_report (12 * Second)) Hcs Hc)).
Defined.
