(* ===== verification/Telemetry.v ===== *)
(** * DR action counts

    internal/controller/dr_telemetry_metrics.go: the counts of failovers and
    relocations kept in an annotation of the DRPC, and the classification of
    policies the metrics use. *)

From Stdlib Require Import ZArith DecimalString DecimalN.
From S2P Require Import Prelude Meta Names Api PeerClasses.
Local Open Scope Z_scope.

Definition DRActionCountAnnotation : string :=
  "drplacementcontrol.ramendr.openshift.io/dr-action-count".

(** [Failover] and [Relocate] are [uint64]; [LastPhase] may be any text. *)
Record drActionCount := mkDRActionCount {
  ac_Failover : Z;
  ac_Relocate : Z;
  ac_LastPhase : string;
}.
#[export] Instance eta_drActionCount : Eta drActionCount := λ c,
  mkDRActionCount (ac_Failover c) (ac_Relocate c) (ac_LastPhase c).
#[export] Instance drActionCount_eq : EqDecision drActionCount.
Proof. solve_decision. Defined.
Definition zero_counts : drActionCount := mkDRActionCount 0 0 "".

Definition uint64 (z : Z) : Z := z mod 2 ^ 64.

Definition dquote : string := String (Ascii.ascii_of_nat 34) "".
Definition quoted (s : string) : string := dquote +:+ s +:+ dquote.

(** Decimal digits of a non-negative integer. *)
Definition fmt_uint (z : Z) : string := NilZero.string_of_uint (N.to_uint (Z.to_N z)).

(** [json.Marshal(counts)]; the phases hold no character JSON escapes. *)
Definition json_Marshal (c : drActionCount) : string :=
  "{" +:+ quoted "failover" +:+ ":" +:+ fmt_uint (ac_Failover c) +:+ "," +:+
  quoted "relocate" +:+ ":" +:+ fmt_uint (ac_Relocate c) +:+ "," +:+
  quoted "lastPhase" +:+ ":" +:+ quoted (ac_LastPhase c) +:+ "}".

Definition count_ok (c : drActionCount) : Prop :=
  0 ≤ ac_Failover c < 2 ^ 64 ∧ 0 ≤ ac_Relocate c < 2 ^ 64 ∧
  ∃ p, ac_LastPhase c = DRState_string p.

(** [json.Unmarshal] into the counts: [None] is its error.  encoding/json decodes
    what it encoded. *)
Class CountCodec := {
  json_Unmarshal : string → option drActionCount;
  json_roundtrip : ∀ c, count_ok c → json_Unmarshal (json_Marshal c) = Some c;
}.

Section counts.
Context `{CountCodec}.

Definition parseDRActionCount (drpc : DRPlacementControl) : drActionCount :=
  match om_Annotations (drpc_Meta drpc) !! DRActionCountAnnotation with
  | None => zero_counts
  | Some value => match json_Unmarshal value with
                  | Some counts => counts
                  | None => zero_counts
                  end
  end.

(** The counts after entering [phase]; [None] where the function returns before
    recording anything. *)
Definition next_counts (counts : drActionCount) (phase : DRState) : option drActionCount :=
  if bool_decide (ac_LastPhase counts = DRState_string phase) then None
  else if bool_decide (ac_LastPhase counts ≠ DRState_string Initiating) &&
          bool_decide (phase ≠ Initiating) then None
  else
    let counts :=
      if bool_decide (ac_LastPhase counts = DRState_string Initiating) then
        match phase with
        | FailingOver => counts <| ac_Failover ::= λ n, uint64 (n + 1) |>
        | Relocating => counts <| ac_Relocate ::= λ n, uint64 (n + 1) |>
        | _ => counts
        end
      else counts in
    Some (counts <| ac_LastPhase := DRState_string phase |>).

(** Returns whether the annotation changed, and the DRPC. *)
Definition syncDRActionCountAnnotation (drpc : DRPlacementControl) : bool * DRPlacementControl :=
  match next_counts (parseDRActionCount drpc) (dst_Phase (drpc_Status drpc)) with
  | None => (false, drpc)
  | Some counts =>
      let '(changed, meta) :=
        AddAnnotation (drpc_Meta drpc) DRActionCountAnnotation (json_Marshal counts) in
      (changed, drpc <| drpc_Meta := meta |>)
  end.

Definition drpcActionCounts (drpc : DRPlacementControl) : Z * Z :=
  let counts := parseDRActionCount drpc in (ac_Failover counts, ac_Relocate counts).

(** The totals and the application counts [updateDRPCTelemetryMetrics] sets:
    discovered, managed, failovers, relocations. *)
Definition updateDRPCTelemetryMetrics (drpcs : list DRPlacementControl) : Z * Z * Z * Z :=
  foldl (λ '(disc, man, f, r) drpc,
    let '(df, dr) := drpcActionCounts drpc in
    if isDiscoveredApp drpc then (disc + 1, man, f + df, r + dr)
    else (disc, man + 1, f + df, r + dr)) (0, 0, 0, 0) drpcs.

(** [setDRState] accounts each phase as it is entered. *)
Definition enter_phase (drpc : DRPlacementControl) (p : DRState) : DRPlacementControl :=
  (syncDRActionCountAnnotation (drpc <| drpc_Status ::= λ s, s <| dst_Phase := p |> |>)).2.
End counts.

Definition DRTypeMetro : string := "metro".
Definition DRTypeRegional : string := "regional".
Definition DRTypeUnknown : string := "unknown".

Definition drPolicyDRType (p : DRPolicy) : string :=
  let '(metro, _, err) := dRPolicySupportsMetro p None in
  match err with
  | Some _ => DRTypeUnknown
  | None => if (metro : bool) then DRTypeMetro else DRTypeRegional
  end.

(** The reference: how often [a] is entered straight from [Initiating]. *)
Fixpoint initiated (a : DRState) (last : DRState) (ps : list DRState) : Z :=
  match ps with
  | [] => 0
  | p :: ps' => (if bool_decide (last = Initiating) && bool_decide (p = a) then 1 else 0) + initiated a p ps'
  end.

Lemma DRState_string_inj p q : DRState_string p = DRState_string q → p = q.
Proof. destruct p, q; done. Qed.

Lemma uint64_range z : 0 ≤ uint64 z < 2 ^ 64.
Proof. apply Z.mod_pos_bound. lia. Qed.

Lemma next_counts_ok c p c' : count_ok c → next_counts c p = Some c' → count_ok c'.
Proof.
  intros (Hf&Hr&Hp). unfold next_counts. repeat (case_bool_decide; simpl; try done); intros [= <-];
    unfold count_ok; (split; [|split; [|by exists p]]);
    destruct p; simpl; try lia; apply uint64_range.
Qed.

(** The recorded phase and the phase the DRPC was in agree on [Initiating]. *)
Definition tracks (c : drActionCount) (last : DRState) : Prop :=
  ac_LastPhase c = DRState_string Initiating ↔ last = Initiating.

Lemma next_counts_tracks c p last :
  tracks c last → tracks (default c (next_counts c p)) p.
Proof.
  intros Ht. unfold tracks, next_counts in *.
  assert (Hs : ∀ a, DRState_string a = DRState_string Initiating ↔ a = Initiating)
    by (intros a; split; [apply DRState_string_inj|by intros ->]).
  case_bool_decide as E1; simpl; [rewrite E1; apply Hs|].
  case_bool_decide as E2; simpl.
  - case_bool_decide as E3; simpl; [naive_solver|]. apply Hs.
  - apply Hs.
Qed.

Lemma next_counts_failover c p last :
  tracks c last → count_ok c →
  ac_Failover (default c (next_counts c p)) =
    uint64 (ac_Failover c + if bool_decide (last = Initiating) && bool_decide (p = FailingOver) then 1 else 0) ∧
  ac_Relocate (default c (next_counts c p)) =
    uint64 (ac_Relocate c + if bool_decide (last = Initiating) && bool_decide (p = Relocating) then 1 else 0).
Proof.
  intros Ht (Hf&Hr&Hp). unfold tracks in Ht.
  assert (Hu : ∀ z, 0 ≤ z < 2 ^ 64 → uint64 (z + 0) = z)
    by (intros; unfold uint64; rewrite Z.add_0_r; by apply Z.mod_small).
  rewrite (bool_decide_ext _ _ (iff_sym Ht)). unfold next_counts.
  case_bool_decide as E1; simpl.
  - rewrite E1. destruct p; simpl; rewrite !Hu by done; done.
  - case_bool_decide as E2; simpl.
    + rewrite !(bool_decide_eq_false_2 _ E2). simpl. rewrite !Hu by done.
      by case_bool_decide; simpl.
    + rewrite !(bool_decide_eq_true_2 _ E2). simpl.
      destruct p; simpl; rewrite ?Hu by done; done.
Qed.

Section count_proofs.
Context `{CountCodec}.

Lemma parse_sync drpc c :
  parseDRActionCount drpc = c → count_ok c →
  parseDRActionCount (syncDRActionCountAnnotation drpc).2 =
  default c (next_counts c (dst_Phase (drpc_Status drpc))).
Proof.
  intros Hc Hok. unfold syncDRActionCountAnnotation. rewrite Hc.
  destruct (next_counts _ _) as [c'|] eqn:E; simpl; [|done].
  destruct (AddAnnotation _ _ _) as [b m] eqn:EA. simpl.
  unfold parseDRActionCount. simpl.
  replace m with (AddAnnotation (drpc_Meta drpc) DRActionCountAnnotation (json_Marshal c')).2
    by (by rewrite EA).
  rewrite AddAnnotation_lookup, lookup_insert_eq, json_roundtrip; [done|].
  by eapply next_counts_ok.
Qed.

Lemma enter_phase_counts drpc c p last :
  parseDRActionCount drpc = c → count_ok c → tracks c last →
  let c' := parseDRActionCount (enter_phase drpc p) in
  count_ok c' ∧ tracks c' p ∧
  ac_Failover c' = uint64 (ac_Failover c + if bool_decide (last = Initiating) && bool_decide (p = FailingOver) then 1 else 0) ∧
  ac_Relocate c' = uint64 (ac_Relocate c + if bool_decide (last = Initiating) && bool_decide (p = Relocating) then 1 else 0).
Proof.
  intros Hc Hok Ht. unfold enter_phase. rewrite (parse_sync _ c) by done. simpl.
  destruct (next_counts_failover c p last Ht Hok) as [-> ->].
  split_and!; [|by eapply next_counts_tracks|done|done].
  destruct (next_counts c p) eqn:E; [by eapply next_counts_ok|done].
Qed.

Lemma enter_phases_counts ps drpc last f r :
  let c := parseDRActionCount drpc in
  count_ok c → tracks c last → ac_Failover c = uint64 f → ac_Relocate c = uint64 r →
  drpcActionCounts (foldl enter_phase drpc ps) =
    (uint64 (f + initiated FailingOver last ps), uint64 (r + initiated Relocating last ps)).
Proof.
  revert drpc last f r. induction ps as [|p ps IH]; intros drpc last f r c Hok Ht Hf Hr; simpl.
  - unfold drpcActionCounts. fold c. by rewrite Hf, Hr, !Z.add_0_r.
  - destruct (enter_phase_counts drpc c p last eq_refl Hok Ht) as (Hok'&Ht'&Hf'&Hr').
    rewrite (IH _ p (f + if bool_decide (last = Initiating) && bool_decide (p = FailingOver) then 1 else 0)
                (r + if bool_decide (last = Initiating) && bool_decide (p = Relocating) then 1 else 0));
      [by rewrite !Z.add_assoc|done|done| |];
      rewrite ?Hf', ?Hr', ?Hf, ?Hr; unfold uint64; by rewrite Z.add_mod_idemp_l.
Qed.
End count_proofs.

(** exactly-once accounting.  From a DRPC that carries no count, whatever
    phases it goes through (an action phase re-entered while cleanup is pending
    included), the annotation counts the failovers and relocations as the times
    [FailingOver] and [Relocating] were entered straight from [Initiating],
    in 64-bit arithmetic. *)
Theorem dr_action_counts_exact `{CountCodec} drpc ps
  (Hnone : om_Annotations (drpc_Meta drpc) !! DRActionCountAnnotation = None) :
  drpcActionCounts (foldl enter_phase drpc ps) =
    (uint64 (initiated FailingOver PhaseUnset ps), uint64 (initiated Relocating PhaseUnset ps)).
Proof.
  assert (E : parseDRActionCount drpc = zero_counts)
    by (unfold parseDRActionCount; by rewrite Hnone).
  apply (enter_phases_counts ps drpc PhaseUnset 0 0); rewrite ?E; try done.
  split_and!; simpl; [lia..|]. by exists PhaseUnset.
Qed.

(** ** The codec on its own output

    A decoder of the canonical form, which the codec interface's law holds of. *)

Fixpoint strip (p s : string) : option string :=
  match p, s with
  | EmptyString, _ => Some s
  | String a p', String b s' => if bool_decide (a = b) then strip p' s' else None
  | _, _ => None
  end.

Fixpoint until (c : Ascii.ascii) (s : string) : option (string * string) :=
  match s with
  | EmptyString => None
  | String a s' => if bool_decide (a = c) then Some ("", s')
                   else match until c s' with Some (x, y) => Some (String a x, y) | None => None end
  end.

Definition comma : Ascii.ascii := Ascii.ascii_of_nat 44.
Definition dquote_char : Ascii.ascii := Ascii.ascii_of_nat 34.

Definition parse_uint (s : string) : option Z :=
  match NilZero.uint_of_string s with Some d => Some (Z.of_N (N.of_uint d)) | None => None end.

Definition canonical_Unmarshal (s : string) : option drActionCount :=
  s ← strip ("{" +:+ quoted "failover" +:+ ":") s;
  '(f, s) ← until comma s;
  s ← strip (quoted "relocate" +:+ ":") s;
  '(r, s) ← until comma s;
  s ← strip (quoted "lastPhase" +:+ ":" +:+ dquote) s;
  '(p, s) ← until dquote_char s;
  _ ← strip "}" s;
  f ← parse_uint f; r ← parse_uint r; Some (mkDRActionCount f r p).

Fixpoint free_of (c : Ascii.ascii) (s : string) : bool :=
  match s with EmptyString => true | String a s' => negb (bool_decide (a = c)) && free_of c s' end.

Lemma strip_app p s : strip p (p +:+ s) = Some s.
Proof.
  induction p as [|a p IH]; [done|]. rewrite string_app_cons. simpl. by rewrite bd_refl.
Qed.

Lemma until_app c s t : free_of c s = true → until c (s +:+ String c t) = Some (s, t).
Proof.
  induction s as [|a s IH]; simpl.
  - intros _. change (EmptyString +:+ String c t) with (String c t). simpl. by rewrite bd_refl.
  - intros [Ha Hs]%andb_true_iff.
    apply negb_true_iff in Ha. rewrite Ha. by rewrite IH.
Qed.

Lemma free_of_uint d : free_of comma (NilEmpty.string_of_uint d) = true.
Proof. induction d; simpl; try done; rewrite IHd; by vm_compute. Qed.

Lemma free_of_fmt z : free_of comma (fmt_uint z) = true.
Proof.
  unfold fmt_uint, NilZero.string_of_uint. destruct (N.to_uint _) eqn:E; [done|..];
    rewrite <- E; apply free_of_uint.
Qed.

Lemma parse_fmt z : 0 ≤ z → parse_uint (fmt_uint z) = Some z.
Proof.
  intros Hz. unfold parse_uint, fmt_uint. rewrite NilZero.usu.
  - rewrite DecimalN.Unsigned.of_to. by rewrite Z2N.id.
  - intros E. pose proof (DecimalN.Unsigned.of_to (Z.to_N z)) as En.
    rewrite E in En. simpl in En. rewrite <- En in E. done.
Qed.

#[local] Arguments String.append : simpl never.
#[local] Arguments quoted : simpl never.
#[local] Arguments strip : simpl never.
#[local] Arguments until : simpl never.

Lemma canonical_roundtrip c : count_ok c → canonical_Unmarshal (json_Marshal c) = Some c.
Proof.
  intros (Hf&Hr&p&Hp). destruct c as [f r ph]. simpl in *. subst ph.
  unfold canonical_Unmarshal, json_Marshal. simpl (ac_Failover _). simpl (ac_Relocate _).
  simpl (ac_LastPhase _).
  assert (Ep : free_of dquote_char (DRState_string p) = true) by (by destruct p).
  assert (Hc : ∀ s, "," +:+ s = String comma s) by done.
  assert (Hn : ∀ s, "" +:+ s = s) by done.
  assert (Hq : ∀ s, dquote +:+ s = String dquote_char s) by done.
  rewrite <- !(string_app_assoc "{"), <- !(string_app_assoc ("{" +:+ quoted "failover")).
  rewrite strip_app. simpl. rewrite Hc, until_app by apply free_of_fmt. simpl.
  rewrite Hn, Hc, until_app by apply free_of_fmt. simpl.
  rewrite Hn, string_app_assoc, Hq, until_app by done.
  simpl. rewrite !parse_fmt by lia. done.
Qed.

#[export] Instance canonical_codec : CountCodec :=
  {| json_Unmarshal := canonical_Unmarshal; json_roundtrip := canonical_roundtrip |}.

Definition sample_drpc : DRPlacementControl :=
  mkDRPlacementControl (named_meta "app" "ns")
    (mkDRPlacementControlSpec ("", "app") None "policy" "c1" "c2" zero_selector
       ActionNone false None None false)
    zero_drpcstatus.

(** Two failovers, the first retried with the phase re-entered, and a relocation
    re-entered during cleanup. *)
Lemma dr_action_counts_exact_witness :
  let ps := [Deployed; Initiating; FailingOver; FailingOver; FailedOver; FailingOver; FailedOver;
             Initiating; Relocating; Relocated; Relocating; Relocated; Initiating; FailingOver] in
  om_Annotations (drpc_Meta sample_drpc) !! DRActionCountAnnotation = None ∧
  drpcActionCounts (foldl enter_phase sample_drpc ps) = (2, 1).
Proof.
  intros ps. split; [reflexivity|].
  rewrite (dr_action_counts_exact sample_drpc ps eq_refl). reflexivity.
Defined.
