(* ===== verification/NetworkMapping.v ===== *)
(** * Network mapping

    internal/controller/drpc_networkmapping.go: the rules of a network-mapping ConfigMap, by
    which the static addresses of virtual machines on one cluster of a policy become
    addresses on the other: explicit pairs, a pair of subnets, or regular expressions.

    Package regexp appears as the methods of a compiled expression and as [Compile], an
    argument; so are the YAML decoder, which is a library's, and the order of a range over
    the keys of a map. *)

From Stdlib Require Import ZArith.
From stdpp Require Import pretty.
From S2P Require Import Prelude Meta Names Cidr Conditions Api Telemetry.
#[local] Open Scope record_scope.

Inductive TranslationDirection := TranslationDirectionForward | TranslationDirectionReverse.
#[export] Instance TranslationDirection_eq : EqDecision TranslationDirection.
Proof. solve_decision. Defined.
Inductive RuleType := RuleTypeExplicit | RuleTypeCIDR | RuleTypeRegex.
#[export] Instance RuleType_eq : EqDecision RuleType.
Proof. solve_decision. Defined.
Definition DRClusterPairCount : nat := 2.
Definition networkMappingSchemaV1 : string := "v1".
Definition networkMappingDataKey : string := "mappings.yaml".
Definition ConditionNetworkMappingLoaded : string := "NetworkMappingLoaded".

(** ** The document *)

Record NetworkRef := mkNetworkRef { NADNamespace : string; NADName : string }.
#[export] Instance NetworkRef_eq : EqDecision NetworkRef.
Proof. solve_decision. Defined.
Record rawRegexRule := mkRawRegexRule { rrr_Pattern : string; rrr_Replacement : string }.
Record rawNetworkMapping := mkRawNetworkMapping {
  rnm_NetworkRef : NetworkRef;
  rnm_CIDR : gmap string string;
  rnm_ExplicitMappings : list (gmap string string);
  rnm_RegexMappings : gmap string (list rawRegexRule);
}.
Record rawNetworkMappingConfig := mkRawNetworkMappingConfig {
  rnc_Version : string;
  rnc_NetworkMappings : list rawNetworkMapping;
}.

(** ** The rules *)

(** [regexp.Regexp], by its methods. *)
Record Regexp := mkRegexp {
  MatchString : string → bool;
  ReplaceAllString : string → string → string;
}.
Record CompiledRegexRule := mkCompiledRegexRule {
  crr_compiled : Regexp;
  crr_Pattern : string;
  crr_Replacement : string;
}.
Record RegexRules := mkRegexRules { rr_Forward : list CompiledRegexRule; rr_Reverse : list CompiledRegexRule }.
Record CIDRMapping := mkCIDRMapping {
  cm_DR1CIDR : string;
  cm_DR2CIDR : string;
  cm_dr1Net : IPNet;
  cm_dr2Net : IPNet;
}.
Record ExplicitMappings := mkExplicitMappings { em_Forward : gmap string string; em_Reverse : gmap string string }.
Record NetworkMappingBlock := mkNetworkMappingBlock {
  nmb_NetworkRef : NetworkRef;
  nmb_ExplicitMappings : option ExplicitMappings;
  nmb_CIDRMapping : option CIDRMapping;
  nmb_RegexRules : option RegexRules;
}.
Record NetworkMappingRules := mkNetworkMappingRules {
  nmr_Version : string;
  nmr_DR1 : string;
  nmr_DR2 : string;
  nmr_Blocks : list NetworkMappingBlock;
}.

(** [%d] of an index. *)
Definition fmt_index (i : nat) : string := pretty (Z.of_nat i).
Definition in_block (blockIdx : nat) : string := "networkMappings[" +:+ fmt_index blockIdx +:+ "]: ".

(** ** Addresses as numbers *)

(** [binary.BigEndian]: the bytes are four. *)
Definition ipToUint32 (ip : list Z) : Z := foldl (λ acc b, acc * 256 + b)%Z 0%Z ip.
Definition uint32 (z : Z) : Z := z mod 2 ^ 32.
Definition uint32ToIP (n : Z) : list Z := [(n / 2 ^ 24) mod 256; (n / 2 ^ 16) mod 256; (n / 2 ^ 8) mod 256; n mod 256]%Z.

(** ** Validation *)

Section parse.
Context (Compile : string → Regexp + GoError) (range_keys : gset string → list string).

(** The first key, in the order of the range, that is neither of two. *)
Definition unrecognized {A} (m : gmap string A) (k1 k2 : string) : option string :=
  find_first (λ k, (k ≠? k1) && (k ≠? k2)) (range_keys (dom m)).

(** *** Explicit pairs *)

Definition in_row (blockIdx rowIdx : nat) : string :=
  in_block blockIdx +:+ "explicitMappings[" +:+ fmt_index rowIdx +:+ "]: ".

Definition extractClusterIPs (blockIdx rowIdx : nat) (row : gmap string string) (dr1 dr2 : string)
    : (string * string) + GoError :=
  match row !! dr1 with
  | None => inr (Errorf (in_row blockIdx rowIdx +:+ "missing cluster key " +:+ quoted dr1) None)
  | Some dr1IP =>
      match row !! dr2 with
      | None => inr (Errorf (in_row blockIdx rowIdx +:+ "missing cluster key " +:+ quoted dr2) None)
      | Some dr2IP =>
          match unrecognized row dr1 dr2 with
          | Some k => inr (Errorf (in_row blockIdx rowIdx +:+ "unrecognized key " +:+ quoted k +:+ " (expected " +:+
                                   quoted dr1 +:+ " or " +:+ quoted dr2 +:+ ")") None)
          | None => inl (dr1IP, dr2IP)
          end
      end
  end.

Definition ParseIP4 (s : string) : option (list Z) := ParseIP s ≫= To4.

Definition normalizeExplicitIPs (blockIdx rowIdx : nat) (dr1 dr2 dr1IP dr2IP : string) : (string * string) + GoError :=
  let invalid := λ cluster ip, Errorf (in_row blockIdx rowIdx +:+ "invalid or non-IPv4 " +:+ cluster +:+ " address " +:+
                                       quoted ip) None in
  match ParseIP4 dr1IP with
  | None => inr (invalid dr1 dr1IP)
  | Some dr1IP4 =>
      match ParseIP4 dr2IP with
      | None => inr (invalid dr2 dr2IP)
      | Some dr2IP4 =>
          if dotted dr1IP4 =? dotted dr2IP4
          then inr (Errorf (in_row blockIdx rowIdx +:+ dr1 +:+ " and " +:+ dr2 +:+ " IP are the same (" +:+
                            quoted (dotted dr1IP4) +:+ "); direction ambiguous") None)
          else inl (dotted dr1IP4, dotted dr2IP4)
      end
  end.

Definition validateExplicitMappingCollision (blockIdx rowIdx : nat) (dr1Norm dr2Norm dr1 dr2 : string)
    (fwd rev : gmap string string) : option GoError :=
  let duplicate := λ cluster ip prev, errorf (in_row blockIdx rowIdx +:+ "duplicate " +:+ cluster +:+ " IP " +:+
                     quoted ip +:+ " (already maps to " +:+ quoted prev +:+ ")") in
  let ambiguous := λ ip a b, errorf (in_row blockIdx rowIdx +:+ "IP " +:+ quoted ip +:+ " appears as both a " +:+ a +:+
                     " IP and a " +:+ b +:+ " IP; direction would be ambiguous") in
  match fwd !! dr1Norm, rev !! dr2Norm with
  | Some prev, _ => duplicate dr1 dr1Norm prev
  | None, Some prev => duplicate dr2 dr2Norm prev
  | None, None =>
      match rev !! dr1Norm, fwd !! dr2Norm with
      | Some _, _ => ambiguous dr1Norm dr1 dr2
      | None, Some _ => ambiguous dr2Norm dr2 dr1
      | None, None => None
      end
  end.

Fixpoint explicit_rows (blockIdx j : nat) (rawPairs : list (gmap string string)) (dr1 dr2 : string)
    (fwd rev : gmap string string) : ExplicitMappings + GoError :=
  match rawPairs with
  | [] => inl (mkExplicitMappings fwd rev)
  | row :: rawPairs' =>
      match extractClusterIPs blockIdx j row dr1 dr2 with
      | inr e => inr e
      | inl (dr1IP, dr2IP) =>
          match normalizeExplicitIPs blockIdx j dr1 dr2 dr1IP dr2IP with
          | inr e => inr e
          | inl (dr1Norm, dr2Norm) =>
              match validateExplicitMappingCollision blockIdx j dr1Norm dr2Norm dr1 dr2 fwd rev with
              | Some e => inr e
              | None => explicit_rows blockIdx (S j) rawPairs' dr1 dr2 (<[dr1Norm := dr2Norm]> fwd)
                          (<[dr2Norm := dr1Norm]> rev)
              end
          end
      end
  end.

Definition resolveExplicitMappings (blockIdx : nat) (rawPairs : list (gmap string string)) (dr1 dr2 : string)
    : ExplicitMappings + GoError := explicit_rows blockIdx 0 rawPairs dr1 dr2 ∅ ∅.

(** *** Subnets *)

Definition validateCIDRKeys (blockIdx : nat) (rawCIDR : gmap string string) (dr1 dr2 : string)
    : (string * string) + GoError :=
  match rawCIDR !! dr1 with
  | None => inr (Errorf (in_block blockIdx +:+ "cidr: missing cluster key " +:+ quoted dr1) None)
  | Some dr1CIDR =>
      match rawCIDR !! dr2 with
      | None => inr (Errorf (in_block blockIdx +:+ "cidr: missing cluster key " +:+ quoted dr2) None)
      | Some dr2CIDR =>
          match unrecognized rawCIDR dr1 dr2 with
          | Some k => inr (Errorf (in_block blockIdx +:+ "cidr: unrecognized key " +:+ quoted k +:+ " (expected " +:+
                                   quoted dr1 +:+ " or " +:+ quoted dr2 +:+ ")") None)
          | None => inl (dr1CIDR, dr2CIDR)
          end
      end
  end.

(** [IP.Equal]: an IPv4 address and its IPv6 form are equal. *)
Definition ip_Equal (a b : list Z) : bool := As16 a =? As16 b.

(** [IPNet.String] of an IPv4 network, in either form. *)
Definition net_String (n : IPNet) : string :=
  let '(nn, m) := number_and_mask n in
  dotted nn +:+ "/" +:+ fmt_index (net_ones n - (net_bits n - 8 * length nn)).

Definition validateCIDRNetworks (blockIdx : nat) (dr1 dr2 dr1CIDR dr2CIDR : string) (dr1Net dr2Net : IPNet)
    : option GoError :=
  let slash := λ n, " (/" +:+ fmt_index n +:+ ")" in
  if net_bits dr1Net ≠? net_bits dr2Net
  then errorf (in_block blockIdx +:+ "cidr: " +:+ dr1 +:+ " and " +:+ dr2 +:+ " CIDRs have different address families")
  else if net_ones dr1Net ≠? net_ones dr2Net
  then errorf (in_block blockIdx +:+ "cidr: " +:+ dr1 +:+ slash (net_ones dr1Net) +:+ " and " +:+ dr2 +:+
               slash (net_ones dr2Net) +:+ " have different prefix lengths; equal prefix lengths are required")
  else if (To4 (net_IP dr1Net) =? None) || (To4 (net_IP dr2Net) =? None)
  then errorf (in_block blockIdx +:+ "cidr: only IPv4 CIDRs are supported (" +:+ dr1 +:+ "=" +:+ quoted dr1CIDR +:+ ", " +:+
               dr2 +:+ "=" +:+ quoted dr2CIDR +:+ ")")
  else if ip_Equal (net_IP dr1Net) (net_IP dr2Net)
  then errorf (in_block blockIdx +:+ "cidr: " +:+ dr1 +:+ " and " +:+ dr2 +:+
               " are the same network (" +:+ net_String dr1Net +:+ "); source and destination subnets must differ")
  else None.

Definition parseAndValidateCIDRs (blockIdx : nat) (dr1 dr2 dr1CIDR dr2CIDR : string) : (IPNet * IPNet) + GoError :=
  let invalid := λ cluster cidr, Errorf (in_block blockIdx +:+ "cidr." +:+ cluster +:+ ": invalid CIDR " +:+ quoted cidr +:+
                   ": invalid CIDR address: " +:+ cidr) (Some (Errorf ("invalid CIDR address: " +:+ cidr) None)) in
  match ParseCIDR dr1CIDR with
  | None => inr (invalid dr1 dr1CIDR)
  | Some dr1Net =>
      match ParseCIDR dr2CIDR with
      | None => inr (invalid dr2 dr2CIDR)
      | Some dr2Net =>
          match validateCIDRNetworks blockIdx dr1 dr2 dr1CIDR dr2CIDR dr1Net dr2Net with
          | Some e => inr e
          | None => inl (dr1Net, dr2Net)
          end
      end
  end.

Definition resolveCIDR (blockIdx : nat) (rawCIDR : gmap string string) (dr1 dr2 : string) : CIDRMapping + GoError :=
  match validateCIDRKeys blockIdx rawCIDR dr1 dr2 with
  | inr e => inr e
  | inl (dr1CIDR, dr2CIDR) =>
      match parseAndValidateCIDRs blockIdx dr1 dr2 dr1CIDR dr2CIDR with
      | inr e => inr e
      | inl (dr1Net, dr2Net) => inl (mkCIDRMapping dr1CIDR dr2CIDR dr1Net dr2Net)
      end
  end.

(** *** Regular expressions *)

Definition in_rule (blockIdx j : nat) (dirKey : string) : string :=
  in_block blockIdx +:+ "regexMappings[" +:+ quoted dirKey +:+ "][" +:+ fmt_index j +:+ "]: ".

Fixpoint compile_from (blockIdx j : nat) (dirKey : string) (raw : list rawRegexRule) : list CompiledRegexRule + GoError :=
  match raw with
  | [] => inl []
  | r :: raw' =>
      if rrr_Pattern r =? "" then inr (Errorf (in_rule blockIdx j dirKey +:+ "pattern is required") None)
      else if rrr_Replacement r =? "" then inr (Errorf (in_rule blockIdx j dirKey +:+ "replacement is required") None)
      else
        match Compile (rrr_Pattern r) with
        | inr e => inr (Errorf (in_rule blockIdx j dirKey +:+ "invalid pattern " +:+ quoted (rrr_Pattern r) +:+ ": " +:+
                                error_text e) (Some e))
        | inl re =>
            match compile_from blockIdx (S j) dirKey raw' with
            | inr e => inr e
            | inl rules => inl (mkCompiledRegexRule re (rrr_Pattern r) (rrr_Replacement r) :: rules)
            end
        end
  end.
Definition compileRegexRules (blockIdx : nat) (dirKey : string) (raw : list rawRegexRule) := compile_from blockIdx 0 dirKey raw.

Definition resolveRegexMappings (blockIdx : nat) (rawRegex : gmap string (list rawRegexRule)) (fwdKey revKey : string)
    : RegexRules + GoError :=
  let required := λ key, Errorf (in_block blockIdx +:+ "regexMappings[" +:+ quoted key +:+
                                 "] is required and must have at least one rule") None in
  match unrecognized rawRegex fwdKey revKey with
  | Some k => inr (Errorf (in_block blockIdx +:+ "regexMappings: unrecognized direction key " +:+ quoted k +:+
                           " (expected " +:+ quoted fwdKey +:+ " or " +:+ quoted revKey +:+ ")") None)
  | None =>
      match rawRegex !! fwdKey with
      | None | Some [] => inr (required fwdKey)
      | Some fwdRaw =>
          match rawRegex !! revKey with
          | None | Some [] => inr (required revKey)
          | Some revRaw =>
              match compileRegexRules blockIdx fwdKey fwdRaw with
              | inr e => inr e
              | inl fwd =>
                  match compileRegexRules blockIdx revKey revRaw with
                  | inr e => inr e
                  | inl rev => inl (mkRegexRules fwd rev)
                  end
              end
          end
      end
  end.
End parse.

(** ** The ConfigMap *)

Section load.
Context (Compile : string → Regexp + GoError) (range_keys : gset string → list string).
Context (Unmarshal : string → rawNetworkMappingConfig + GoError).

Definition resolveBlock (blockIdx : nat) (raw : rawNetworkMapping) (dr1 dr2 fwdKey revKey : string)
    : NetworkMappingBlock + GoError :=
  let ref := rnm_NetworkRef raw in
  match (if rnm_ExplicitMappings raw is [] then inl None
         else match resolveExplicitMappings range_keys blockIdx (rnm_ExplicitMappings raw) dr1 dr2 with
              | inl em => inl (Some em)
              | inr e => inr e
              end) with
  | inr e => inr e
  | inl explicit =>
      match (if bool_decide (rnm_CIDR raw = ∅) then inl None
             else match resolveCIDR range_keys blockIdx (rnm_CIDR raw) dr1 dr2 with
                  | inl cm => inl (Some cm)
                  | inr e => inr e
                  end) with
      | inr e => inr e
      | inl cidr =>
          match (if bool_decide (dom (rnm_RegexMappings raw) = ∅) then inl None
                 else match resolveRegexMappings Compile range_keys blockIdx (rnm_RegexMappings raw) fwdKey revKey with
                      | inl rr => inl (Some rr)
                      | inr e => inr e
                      end) with
          | inr e => inr e
          | inl regex =>
              match explicit, cidr, regex with
              | None, None, None =>
                  inr (Errorf ("networkMappings[" +:+ fmt_index blockIdx +:+ "] (" +:+ NADNamespace ref +:+ "/" +:+
                               NADName ref +:+ "): at least one of cidr, explicitMappings, or regexMappings is required") None)
              | _, _, _ => inl (mkNetworkMappingBlock ref explicit cidr regex)
              end
          end
      end
  end.

Definition nad_key (ref : NetworkRef) : string := NADNamespace ref +:+ "/" +:+ NADName ref.

(** The loop of [resolveAndValidate]; [seen] has the index of a network's block. *)
Fixpoint resolve_blocks (i : nat) (mappings : list rawNetworkMapping) (dr1 dr2 fwdKey revKey : string)
    (seen : gmap string nat) : list NetworkMappingBlock + GoError :=
  match mappings with
  | [] => inl []
  | raw :: mappings' =>
      let ref := rnm_NetworkRef raw in
      if NADNamespace ref =? "" then inr (Errorf (in_block i +:+ "networkRef.nadNamespace is required") None)
      else if NADName ref =? "" then inr (Errorf (in_block i +:+ "networkRef.nadName is required") None)
      else
        match seen !! nad_key ref with
        | Some prev => inr (Errorf (in_block i +:+ "duplicate networkRef " +:+ nad_key ref +:+ " (already at index " +:+
                                    fmt_index prev +:+ ")") None)
        | None =>
            match resolveBlock i raw dr1 dr2 fwdKey revKey with
            | inr e => inr e
            | inl block =>
                match resolve_blocks (S i) mappings' dr1 dr2 fwdKey revKey (<[nad_key ref := i]> seen) with
                | inr e => inr e
                | inl blocks => inl (block :: blocks)
                end
            end
        end
  end.

Definition resolveAndValidate (rawCfg : rawNetworkMappingConfig) (dr1 dr2 : string) : NetworkMappingRules + GoError :=
  if rnc_NetworkMappings rawCfg is [] then inr (Errorf "networkMappings list must not be empty" None)
  else
    match resolve_blocks 0 (rnc_NetworkMappings rawCfg) dr1 dr2 (dr1 +:+ "-to-" +:+ dr2) (dr2 +:+ "-to-" +:+ dr1) ∅ with
    | inr e => inr e
    | inl blocks => inl (mkNetworkMappingRules (rnc_Version rawCfg) dr1 dr2 blocks)
    end.

Definition ParseNetworkMappingConfigMap (cm : ConfigMap) (dr1 dr2 : string) : NetworkMappingRules + GoError :=
  let name := om_Name (cfm_Meta cm) in
  match cfm_Data cm !! networkMappingDataKey with
  | None => inr (Errorf ("ConfigMap " +:+ quoted (om_Namespace (cfm_Meta cm)) +:+ "/" +:+ quoted name +:+ " has no " +:+
                         quoted networkMappingDataKey +:+ " data key") None)
  | Some raw =>
      if (dr1 =? "") || (dr2 =? "") then inr (Errorf "dr1 and dr2 cluster names must be non-empty" None)
      else if dr1 =? dr2 then inr (Errorf ("dr1 and dr2 cluster names must be distinct, got " +:+ quoted dr1) None)
      else
        match Unmarshal raw with
        | inr e => inr (Errorf ("failed to parse " +:+ quoted networkMappingDataKey +:+ " in ConfigMap " +:+ quoted name +:+
                                ": " +:+ error_text e) (Some e))
        | inl rawCfg =>
            if rnc_Version rawCfg =? "" then
              inr (Errorf ("ConfigMap " +:+ quoted name +:+ ": " +:+ quoted networkMappingDataKey +:+
                           " is missing required field " +:+ quoted "version" +:+ " (expected " +:+
                           quoted networkMappingSchemaV1 +:+ ")") None)
            else if rnc_Version rawCfg ≠? networkMappingSchemaV1 then
              inr (Errorf ("ConfigMap " +:+ quoted name +:+ ": unsupported network-mapping schema version " +:+
                           quoted (rnc_Version rawCfg) +:+ " (supported: " +:+ quoted networkMappingSchemaV1 +:+ ")") None)
            else
              match resolveAndValidate rawCfg dr1 dr2 with
              | inr e => inr (Errorf ("invalid network mapping in ConfigMap " +:+ quoted name +:+ ": " +:+ error_text e) (Some e))
              | inl rules => inl rules
              end
        end
  end.

(** drpolicy_controller.go *)
Definition isNetworkMappingEnabled (drPolicy : DRPolicy) : bool :=
  match dps_NetworkMappingRef (drp_Spec drPolicy) with
  | Some name => bool_decide (String.length name ≠ 0)
  | None => false
  end.

(** [get] reads a ConfigMap by namespace and name. *)
Definition LoadNetworkMapping (get : string → string → ConfigMap + GoError) (drpc : ObjectMeta) (drPolicy : DRPolicy)
    : option NetworkMappingRules + GoError :=
  let cmName := if isNetworkMappingEnabled drPolicy then default "" (dps_NetworkMappingRef (drp_Spec drPolicy)) else "" in
  if cmName =? "" then inl None
  else
    match get (om_Namespace drpc) cmName with
    | inr e =>
        inr (if IsNotFound e
             then Errorf ("network-mapping ConfigMap " +:+ quoted cmName +:+ " not found in namespace " +:+
                          quoted (om_Namespace drpc)) None
             else Errorf ("failed to get network-mapping ConfigMap " +:+ quoted cmName +:+ ": " +:+ error_text e) (Some e))
    | inl cm =>
        match dps_DRClusters (drp_Spec drPolicy) with
        | [dr1; dr2] =>
            match ParseNetworkMappingConfigMap cm dr1 dr2 with
            | inr e => inr (Errorf ("failed to parse network-mapping ConfigMap " +:+ quoted cmName +:+ ": " +:+
                                    error_text e) (Some e))
            | inl rules => inl (Some rules)
            end
        | l => inr (Errorf ("DRPolicy " +:+ quoted (om_Name (drp_Meta drPolicy)) +:+ " must have exactly 2 drClusters, got " +:+
                            fmt_index (length l)) None)
        end
    end.
End load.

(** What the hub has of these: ConfigMaps as read at a tick. *)
Class MappingEnv := {
  me_ConfigMap : nat → string → string → ConfigMap + GoError;
  me_Compile : string → Regexp + GoError;
  me_range_keys : gset string → list string;
  me_range_keys_perm : ∀ s, me_range_keys s ≡ₚ elements s;
  me_Unmarshal : string → rawNetworkMappingConfig + GoError;
}.

(** ** Translation *)

Definition findBlock (rules : NetworkMappingRules) (nadRef : NetworkRef) : option NetworkMappingBlock :=
  find_first (λ b, (NADNamespace (nmb_NetworkRef b) =? NADNamespace nadRef) &&
                   (NADName (nmb_NetworkRef b) =? NADName nadRef)) (nmr_Blocks rules).

Definition normalizeIP (ip : string) : string :=
  match ParseIP4 ip with Some v4 => dotted v4 | None => ip end.

Definition lookupExplicit (srcIP : string) (em : ExplicitMappings) (dir : TranslationDirection) : option string :=
  match dir with
  | TranslationDirectionForward => em_Forward em !! normalizeIP srcIP
  | TranslationDirectionReverse => em_Reverse em !! normalizeIP srcIP
  end.

(** The networks are IPv4 ones, in either form. *)
Definition network_number (n : IPNet) : Z := ipToUint32 (default [] (To4 (net_IP n))).

Definition applyCIDR (srcIP : string) (cm : CIDRMapping) (dir : TranslationDirection) : option string :=
  match ParseIP4 srcIP with
  | None => None
  | Some ip4 =>
      let '(srcNet, dstNet) := match dir with
                               | TranslationDirectionForward => (cm_dr1Net cm, cm_dr2Net cm)
                               | TranslationDirectionReverse => (cm_dr2Net cm, cm_dr1Net cm)
                               end in
      if negb (Contains srcNet ip4) then None
      else
        let hostOffset := uint32 (ipToUint32 ip4 - network_number srcNet) in
        let result := uint32ToIP (uint32 (network_number dstNet + hostOffset)) in
        if negb (Contains dstNet result) then None else Some (dotted result)
  end.

Definition direction_string (dir : TranslationDirection) (dr1 dr2 : string) : string :=
  match dir with
  | TranslationDirectionForward => dr1 +:+ "-to-" +:+ dr2
  | TranslationDirectionReverse => dr2 +:+ "-to-" +:+ dr1
  end.

Definition applyRegexRules (srcIP : string) (rr : RegexRules) (dir : TranslationDirection) (dr1 dr2 : string)
    : string + GoError :=
  let rules := match dir with TranslationDirectionForward => rr_Forward rr | TranslationDirectionReverse => rr_Reverse rr end in
  match find_first (λ rule, MatchString (crr_compiled rule) srcIP) rules with
  | None => inr (Errorf ("no " +:+ direction_string dir dr1 dr2 +:+ " regex rule matched IP " +:+ quoted srcIP) None)
  | Some rule =>
      let result := ReplaceAllString (crr_compiled rule) srcIP (crr_Replacement rule) in
      match ParseIP result with
      | None => inr (Errorf ("regex pattern " +:+ quoted (crr_Pattern rule) +:+ " applied to IP " +:+ quoted srcIP +:+
                             " produced invalid IP " +:+ quoted result) None)
      | Some _ => inl result
      end
  end.

Definition translateIP (srcIP : string) (rules : NetworkMappingRules) (dir : TranslationDirection) (nadRef : NetworkRef)
    : (string * RuleType) + GoError :=
  match findBlock rules nadRef with
  | None => inr (Errorf ("no networkMapping block found for NAD " +:+ nad_key nadRef) None)
  | Some block =>
      match nmb_ExplicitMappings block ≫= λ em, lookupExplicit srcIP em dir with
      | Some result => inl (result, RuleTypeExplicit)
      | None =>
          match nmb_CIDRMapping block ≫= λ cm, applyCIDR srcIP cm dir with
          | Some result => inl (result, RuleTypeCIDR)
          | None =>
              match nmb_RegexRules block with
              | Some rr =>
                  match applyRegexRules srcIP rr dir (nmr_DR1 rules) (nmr_DR2 rules) with
                  | inr e => inr e
                  | inl result => inl (result, RuleTypeRegex)
                  end
              | None =>
                  inr (Errorf ("no translation found for IP " +:+ quoted srcIP +:+ " (NAD " +:+ nad_key nadRef +:+
                               ", direction " +:+ direction_string dir (nmr_DR1 rules) (nmr_DR2 rules) +:+
                               "): no explicit match, not in CIDR range, no regex match") None)
              end
          end
      end
  end.

Definition directionFromCluster (sourceCluster dr1 dr2 : string) : TranslationDirection + GoError :=
  if sourceCluster =? dr1 then inl TranslationDirectionForward
  else if sourceCluster =? dr2 then inl TranslationDirectionReverse
  else inr (Errorf ("sourceCluster " +:+ quoted sourceCluster +:+ " is not a member of this DRPolicy (dr1=" +:+ quoted dr1 +:+
                    ", dr2=" +:+ quoted dr2 +:+ ")") None).

(** On a failure the address stays as it is. *)
Definition translateSourceIP (networkMappingRules : option NetworkMappingRules) (srcIP sourceCluster : string)
    (nadRef : NetworkRef) : string :=
  match networkMappingRules with
  | None => srcIP
  | Some rules =>
      match directionFromCluster sourceCluster (nmr_DR1 rules) (nmr_DR2 rules) with
      | inr _ => srcIP
      | inl dir => match translateIP srcIP rules dir nadRef with inr _ => srcIP | inl (targetIP, _) => targetIP end
      end
  end.

(** The bytes of a destination that is not IPv4 are none to convert. *)
Definition translateSubnet (srcIP srcCIDR dstCIDR : string) (preserveHostPart : bool) : string + GoError :=
  match ParseIP srcIP with
  | None => inr (Errorf ("invalid source IP " +:+ quoted srcIP) None)
  | Some ip =>
      match To4 ip with
      | None => inr (Errorf ("only IPv4 is supported (got " +:+ quoted srcIP +:+ ")") None)
      | Some ip =>
          match ParseCIDR srcCIDR with
          | None => inr (Errorf ("invalid source CIDR " +:+ quoted srcCIDR +:+ ": invalid CIDR address: " +:+ srcCIDR)
                           (Some (Errorf ("invalid CIDR address: " +:+ srcCIDR) None)))
          | Some srcNet =>
              match ParseCIDR dstCIDR with
              | None => inr (Errorf ("invalid destination CIDR " +:+ quoted dstCIDR +:+ ": invalid CIDR address: " +:+ dstCIDR)
                               (Some (Errorf ("invalid CIDR address: " +:+ dstCIDR) None)))
              | Some dstNet =>
                  if negb (Contains srcNet ip)
                  then inr (Errorf ("source IP " +:+ quoted srcIP +:+ " is not within source CIDR " +:+ quoted srcCIDR) None)
                  else if net_bits srcNet ≠? net_bits dstNet
                  then inr (Errorf "source and destination CIDRs have different address families" None)
                  else if net_ones srcNet ≠? net_ones dstNet
                  then inr (Errorf ("source CIDR /" +:+ fmt_index (net_ones srcNet) +:+ " and destination CIDR /" +:+
                                    fmt_index (net_ones dstNet) +:+ " have different prefix lengths; " +:+
                                    "equal prefix lengths are required for subnet-based host-offset translation") None)
                  else if To4 (net_IP dstNet) =? None
                  then inr (Errorf "runtime error: index out of range [3] with length 0" None)
                  else if negb preserveHostPart then inl (dotted (uint32ToIP (uint32 (network_number dstNet + 1))))
                  else
                    let hostOffset := uint32 (ipToUint32 ip - network_number srcNet) in
                    let result := uint32ToIP (uint32 (network_number dstNet + hostOffset)) in
                    if negb (Contains dstNet result)
                    then inr (Errorf ("translated IP " +:+ dotted result +:+ " (offset " +:+ pretty hostOffset +:+
                                      ") is outside destination CIDR " +:+ quoted dstCIDR) None)
                    else inl (dotted result)
              end
          end
      end
  end.
