(* ===== verification/NetworkMappingSpec.v ===== *)
(** * What a network mapping guarantees

    Addresses print and parse back; explicit pairs are a bijection; a pair of subnets
    translates every address of one to the other and back; and where the two kinds of
    rules together stop being one. *)

From Stdlib Require Import ZArith Ascii.
From stdpp Require Import pretty.
From S2P Require Import Prelude Meta Names Cidr Conditions Api Telemetry NetworkMapping.
#[local] Open Scope record_scope.

Definition is_byte (b : Z) : Prop := (0 ≤ b < 256)%Z.
Definition is_ip4 (ip : list Z) : Prop := length ip = 4 ∧ Forall is_byte ip.

(** A property of every byte, by evaluation. *)
Lemma every_byte (P : Z → Prop) : Forall P (seqZ 0 256) → ∀ b, is_byte b → P b.
Proof. intros Hall b Hb. apply (proj1 (Forall_forall _ _) Hall). apply elem_of_seqZ. unfold is_byte in Hb. lia. Qed.

(** ** Printing and parsing *)

(** The digits of a byte are read as its value, from the start of a field. *)
Definition reads_byte (b : Z) : Prop :=
  (∀ s prev fields, ∃ c n, c ≠ "."%char ∧
     parseIPv4Fields (pretty b +:+ s) prev 0 0 fields = parseIPv4Fields s (Some c) (Z.to_nat b) n fields) ∧
  (∀ s, addr_kind (pretty b +:+ s) = addr_kind s) ∧ (∀ s, pretty b +:+ s ≠ "").

Lemma bytes_read b : is_byte b → reads_byte b.
Proof.
  revert b. apply every_byte. let l := eval vm_compute in (seqZ 0 256) in change (seqZ 0 256) with l.
  repeat (apply Forall_cons; split; [split; [intros s prev fields; eexists _, _; split; [|reflexivity]; done|split; [reflexivity|done]]|]).
  apply Forall_nil_2.
Qed.

Lemma dotted_four a b c d :
  dotted [a; b; c; d] = pretty a +:+ "." +:+ pretty b +:+ "." +:+ pretty c +:+ "." +:+ pretty d +:+ "".
Proof.
  assert (∀ s, s +:+ "" = s) as Hnil by (induction s as [|x s IH]; [done|]; change (String x (s +:+ "") = String x s); congruence).
  by rewrite Hnil.
Qed.

Lemma read_dot s c v n fields :
  c ≠ "."%char → s ≠ "" → length fields ≠ 3 →
  parseIPv4Fields ("." +:+ s) (Some c) v n fields = parseIPv4Fields s (Some "."%char) 0 0 (fields ++ [Z.of_nat v]).
Proof.
  intros Hc Hs Hf. change ("." +:+ s) with (String "."%char s). cbn [parseIPv4Fields is_digit].
  rewrite (bool_decide_eq_false_2 (s = "")) by done. rewrite (bool_decide_eq_false_2 (Some c = Some "."%char)) by congruence.
  by rewrite (bool_decide_eq_false_2 (length fields = 3)).
Qed.

(** An IPv4 address that is printed is parsed back. *)
Lemma ParseIP4_dotted ip : is_ip4 ip → ParseIP4 (dotted ip) = Some ip.
Proof.
  intros [Hlen Hb]. destruct ip as [|a [|b [|c [|d [|]]]]]; try discriminate Hlen. clear Hlen.
  repeat (rewrite Forall_cons in Hb). destruct Hb as (Ha & Hb & Hc & Hd & _).
  destruct (bytes_read a Ha) as (Ra & Ka & _), (bytes_read b Hb) as (Rb & _ & Nb), (bytes_read c Hc) as (Rc & _ & Nc),
    (bytes_read d Hd) as (Rd & _ & Nd).
  unfold ParseIP4, ParseIP, ParseAddr. rewrite dotted_four, Ka.
  change (addr_kind ("." +:+ _)) with (Some true). cbn [fmap option_fmap option_map]. unfold parseIPv4.
  destruct (Ra ("." +:+ pretty b +:+ "." +:+ pretty c +:+ "." +:+ pretty d +:+ "") None []) as (x & n & Hx & ->).
  rewrite read_dot by done.
  destruct (Rb ("." +:+ pretty c +:+ "." +:+ pretty d +:+ "") (Some "."%char) [Z.of_nat (Z.to_nat a)]) as (y & m & Hy & E).
  cbn [app]. rewrite E. rewrite read_dot by done. clear E.
  destruct (Rc ("." +:+ pretty d +:+ "") (Some "."%char) [Z.of_nat (Z.to_nat a); Z.of_nat (Z.to_nat b)]) as (z & k & Hz & E).
  cbn [app]. rewrite E. rewrite read_dot by done. clear E.
  destruct (Rd "" (Some "."%char) [Z.of_nat (Z.to_nat a); Z.of_nat (Z.to_nat b); Z.of_nat (Z.to_nat c)]) as (u & l & Hu & E).
  cbn [app]. rewrite E. cbn. unfold is_byte in *. by rewrite !Z2Nat.id by lia.
Qed.

(** ** What is parsed *)

Lemma parseIPv4Fields_ok s prev v n fields ip :
  v < 256 → Forall is_byte fields → length fields ≤ 3 → parseIPv4Fields s prev v n fields = Some ip → is_ip4 ip.
Proof.
  revert prev v n fields. induction s as [|c s IH]; intros prev v n fields Hv Hf Hl; cbn [parseIPv4Fields].
  - case_bool_decide; [done|]. intros [= <-]. split; [rewrite length_app; cbn; lia|].
    apply Forall_app. split; [done|]. apply Forall_singleton. unfold is_byte. lia.
  - destruct (is_digit c).
    + destruct (_ && _); [done|]. case_bool_decide; [done|]. apply IH; [lia|done|done].
    + destruct (bool_decide (c = _)); [|done]. destruct (_ || _ || _); [done|]. case_bool_decide; [done|]. apply IH; [lia| |].
      * apply Forall_app. split; [done|]. apply Forall_singleton. unfold is_byte. lia.
      * rewrite length_app. cbn. lia.
Qed.

Lemma parseIPv4_ok s ip : parseIPv4 s = Some ip → is_ip4 ip.
Proof. apply parseIPv4Fields_ok; [lia|done|cbn; lia]. Qed.

Lemma hex_value_ok c x : hex_value c = Some x → (0 ≤ x < 16)%Z.
Proof.
  unfold hex_value, is_digit, digit. repeat case_match; intros [= <-]; repeat case_bool_decide; simpl in *; try discriminate; lia.
Qed.

Lemma hex_group_ok s off acc off' acc' rest :
  off ≤ 4 → (0 ≤ acc < 16 ^ Z.of_nat off)%Z → hex_group s off acc = Some (off', acc', rest) → (0 ≤ acc' < 65536)%Z.
Proof.
  assert (∀ n a, n ≤ 4 → (0 ≤ a < 16 ^ Z.of_nat n)%Z → (0 ≤ a < 65536)%Z) as Hend.
  { intros n a Hn Ha. assert (16 ^ Z.of_nat n ≤ 16 ^ 4)%Z by (apply Z.pow_le_mono_r; lia). lia. }
  revert off acc. induction s as [|c s IH]; intros off acc Hoff Hacc; cbn [hex_group].
  - intros [= <- <- <-]. eauto.
  - destruct (hex_value c) as [x|] eqn:Hx; [|intros [= <- <- <-]; eauto]. case_bool_decide; [done|].
    apply hex_value_ok in Hx. apply IH; [lia|]. rewrite Nat2Z.inj_succ, Z.pow_succ_r by lia. lia.
Qed.

Definition is_ip16 (ip : list Z) : Prop := length ip = 16 ∧ Forall is_byte ip.

Lemma ipv6_ends_ok ip e s r : length ip ≤ 16 → Forall is_byte ip → ipv6_ends ip e s = Some r → is_ip16 r.
Proof.
  intros Hl Hb. unfold ipv6_ends. case_bool_decide; [done|]. case_bool_decide.
  - destruct e as [e|]; [|done]. intros [= <-]. split.
    + rewrite !length_app, length_take, length_drop, length_replicate. lia.
    + apply Forall_app. split; [by apply Forall_take|]. apply Forall_app. split; [|by apply Forall_drop].
      apply Forall_replicate. unfold is_byte. lia.
  - case_bool_decide; [|done]. intros [= <-]. split; [lia|done].
Qed.

Lemma ipv6_groups_ok n ip e s r :
  length ip + 2 * n = 16 → Forall is_byte ip → ipv6_groups n ip e s = Some r → is_ip16 r.
Proof.
  revert ip e s. induction n as [|n IH]; intros ip e s Hl Hb; cbn [ipv6_groups]; [apply ipv6_ends_ok; [lia|done]|].
  destruct (hex_group s 0 0) as [[[off acc] rest]|] eqn:Hg; [|done]. case_bool_decide; [done|].
  apply hex_group_ok in Hg; [|lia|cbn; lia]. set (ip' := ip ++ _).
  assert (length ip' + 2 * n = 16 ∧ Forall is_byte ip') as [Hl' Hb'].
  { subst ip'. rewrite length_app. split; [cbn; lia|]. apply Forall_app. split; [done|].
    repeat constructor; unfold is_byte; try (apply Z.mod_pos_bound; lia); [apply Z.div_pos; lia|apply Z.div_lt_upper_bound; lia]. }
  destruct rest as [|c s1]; [apply ipv6_ends_ok; [lia|done]|]. destruct (bool_decide (c = "."%char)).
  - destruct (_ && _); [done|]. case_bool_decide; [done|]. destruct (parseIPv4 s) as [fields|] eqn:Hv4; [|done].
    apply parseIPv4_ok in Hv4 as [Hl4 Hb4]. apply ipv6_ends_ok; [rewrite length_app; lia|]. by apply Forall_app.
  - destruct (negb _); [done|]. destruct s1 as [|c2 s2]; [done|]. destruct (bool_decide (c2 = ":"%char)); [|by apply IH].
    case_bool_decide; [done|]. case_bool_decide; [apply ipv6_ends_ok; [lia|done]|by apply IH].
Qed.

Lemma ParseAddr_ok s ip : ParseAddr s = Some ip → is_ip4 ip ∨ is_ip16 ip.
Proof.
  unfold ParseAddr. destruct (addr_kind s) as [[]|]; [|intros Hv6; right|done]; [by left; apply (parseIPv4_ok s)|].
  assert (∀ e s, ipv6_groups 8 [] e s = Some ip → is_ip16 ip) as Hg by (intros e s'; by apply ipv6_groups_ok).
  revert Hv6. unfold parseIPv6. destruct (has_percent s); [done|].
  repeat (case_match; try apply Hg). intros [= <-]. split; [done|]. repeat constructor; unfold is_byte; lia.
Qed.

(** ** Masks *)

Lemma land_mask_byte n b : is_byte b → Z.land b (mask_byte n) = (b - b mod 2 ^ (8 - Z.of_nat (n `min` 8)))%Z.
Proof.
  intros Hb. unfold mask_byte. assert (n `min` 8 < 9) as Hn by lia. revert Hn. generalize (n `min` 8). clear n. intros j Hj.
  revert b Hb. apply every_byte. apply (bool_decide_unpack _).
  do 9 (destruct j as [|j]; [vm_compute; exact I|]). lia.
Qed.

Abbreviation block k := (2 ^ Z.of_nat k)%Z.

Ltac mask_case :=
  repeat match goal with |- context [(2 ^ ?e)%Z] => let v := eval vm_compute in (2 ^ e)%Z in change (2 ^ e)%Z with v end;
  split; [split; [done|repeat constructor]|]; Z.to_euclidean_division_equations; lia.

(** Masking an address with [m] ones rounds it down to a multiple of the size of the rest. *)
Lemma mask_rounds ip m :
  is_ip4 ip → m ≤ 32 →
  is_ip4 (and_bytes ip (mask_bytes m 4)) ∧
  ipToUint32 (and_bytes ip (mask_bytes m 4)) = (ipToUint32 ip - ipToUint32 ip mod block (32 - m))%Z.
Proof.
  intros [Hlen Hb] Hm. destruct ip as [|a [|b [|c [|d [|]]]]]; try discriminate Hlen. clear Hlen.
  repeat (rewrite Forall_cons in Hb). destruct Hb as (Ha & Hb & Hc & Hd & _).
  unfold and_bytes, ipToUint32. cbn [mask_bytes zip_with foldl].
  rewrite !land_mask_byte by done. unfold is_ip4, is_byte in *.
  do 33 (destruct m as [|m]; [solve [mask_case]|]). lia.
Qed.

(** ** Addresses as numbers *)

Lemma number_range ip : is_ip4 ip → (0 ≤ ipToUint32 ip < 2 ^ 32)%Z.
Proof.
  intros [Hlen Hb]. destruct ip as [|a [|b [|c [|d [|]]]]]; try discriminate Hlen. clear Hlen.
  repeat (rewrite Forall_cons in Hb). unfold is_byte in Hb. unfold ipToUint32. cbn [foldl]. lia.
Qed.

Lemma uint32ToIP_number ip : is_ip4 ip → uint32ToIP (ipToUint32 ip) = ip.
Proof.
  intros [Hlen Hb]. destruct ip as [|a [|b [|c [|d [|]]]]]; try discriminate Hlen. clear Hlen.
  repeat (rewrite Forall_cons in Hb). unfold is_byte in Hb. unfold ipToUint32, uint32ToIP. cbn [foldl].
  repeat f_equal; Z.to_euclidean_division_equations; lia.
Qed.

Lemma uint32ToIP_ok z : is_ip4 (uint32ToIP z).
Proof. split; [done|]. repeat constructor; unfold is_byte; Z.to_euclidean_division_equations; lia. Qed.

Lemma number_uint32ToIP z : (0 ≤ z < 2 ^ 32)%Z → ipToUint32 (uint32ToIP z) = z.
Proof. intros Hz. unfold ipToUint32, uint32ToIP. cbn [foldl]. Z.to_euclidean_division_equations. lia. Qed.

Lemma number_inj a b : is_ip4 a → is_ip4 b → ipToUint32 a = ipToUint32 b → a = b.
Proof. intros Ha Hb Heq. by rewrite <- (uint32ToIP_number a), <- (uint32ToIP_number b), Heq. Qed.

(** ** Networks *)

(** An IPv4 network of [2 ^ k] addresses. *)
Record subnet (n : IPNet) (k : nat) : Prop := {
  sn_size : k ≤ 32;
  sn_low : (0 ≤ network_number n)%Z;
  sn_high : (network_number n + block k ≤ 2 ^ 32)%Z;
  sn_contains : ∀ ip, is_ip4 ip →
    Contains n ip = bool_decide (network_number n ≤ ipToUint32 ip < network_number n + block k)%Z;
}.

Lemma rounded_multiple x k : (0 ≤ x)%Z → let n := (x - x mod block k)%Z in
  (0 ≤ n)%Z ∧ (n mod block k = 0)%Z ∧ ∀ y, (0 ≤ y)%Z → (n = y - y mod block k ↔ n ≤ y < n + block k)%Z.
Proof.
  intros Hx n. assert (0 < block k)%Z as Hk by (apply Z.pow_pos_nonneg; lia). subst n.
  pose proof (Z.mod_pos_bound x _ Hk). pose proof (Z.div_mod x (block k) ltac:(lia)).
  assert (0 ≤ x / block k)%Z by (apply Z.div_pos; lia). split; [nia|]. split.
  - replace (x - x mod block k)%Z with (x / block k * block k)%Z by lia. apply Z.mod_mul. lia.
  - intros y Hy. pose proof (Z.mod_pos_bound y _ Hk). pose proof (Z.div_mod y (block k) ltac:(lia)). split; [lia|].
    intros Hr. assert (x / block k = y / block k)%Z; [|nia]. nia.
Qed.

Lemma high_bound x k : (0 ≤ x < 2 ^ 32)%Z → k ≤ 32 → (x mod block k = 0)%Z → (x + block k ≤ 2 ^ 32)%Z.
Proof.
  intros Hx Hk Hm. assert (2 ^ 32 = block (32 - k) * block k)%Z as Hsplit by (rewrite <- Z.pow_add_r by lia; f_equal; lia).
  assert (0 < block k)%Z by (apply Z.pow_pos_nonneg; lia). pose proof (Z.div_mod x (block k) ltac:(lia)).
  rewrite Hm, Z.add_0_r in *. rewrite Hsplit in *. assert (x / block k < block (32 - k))%Z by nia. nia.
Qed.

Lemma masked_subnet n ip m :
  is_ip4 ip → m ≤ 32 → number_and_mask n = (and_bytes ip (mask_bytes m 4), mask_bytes m 4) →
  To4 (net_IP n) = Some (and_bytes ip (mask_bytes m 4)) → subnet n (32 - m).
Proof.
  intros Hip Hm Hnm H4. destruct (mask_rounds ip m Hip Hm) as [Hok Hval].
  pose proof (number_range ip Hip) as Hr. pose proof (number_range _ Hok) as Hr'.
  destruct (rounded_multiple (ipToUint32 ip) (32 - m)) as (Hlow & Hmult & Hall); [lia|]. rewrite <- Hval in *.
  assert (network_number n = ipToUint32 (and_bytes ip (mask_bytes m 4))) as Hnum by (unfold network_number; by rewrite H4).
  split; rewrite ?Hnum; [lia|lia|by apply high_bound; [|lia|]|]. intros y Hy.
  unfold Contains. rewrite Hnm. assert (To4 y = Some y) as -> by (unfold To4; by rewrite bool_decide_eq_true_2 by apply Hy).
  cbn [default from_option id]. rewrite bool_decide_eq_true_2 by (destruct Hy as [->], Hok as [->]; done). cbn [andb].
  destruct (mask_rounds _ m Hok Hm) as [Hok2 Hval2], (mask_rounds y m Hy Hm) as [Hoky Hvaly].
  pose proof (number_range y Hy). apply bool_decide_ext. rewrite <- Hall by lia. rewrite <- Hvaly, Hmult, Z.sub_0_r in *.
  rewrite <- Hval2. split; [by intros ->|]. intros Heq. by apply number_inj.
Qed.

Lemma mask_bytes_drop ones : drop 12 (mask_bytes ones 16) = mask_bytes (ones - 96) 4.
Proof. cbn [mask_bytes drop]. repeat (apply (f_equal2 cons); [apply (f_equal mask_byte); lia|]). done. Qed.

Lemma mask_bytes_take ones : mask_bytes ones 16 !! 11 = Some (mask_byte (ones - 88)).
Proof. cbn [mask_bytes lookup list_lookup]. apply (f_equal Some), (f_equal mask_byte). lia. Qed.

(** A prefix that survives the mask is within it. *)
Lemma prefix_masked ip ones :
  is_ip16 ip → take 12 (and_bytes ip (mask_bytes ones 16)) = v4InV6Prefix → 96 ≤ ones.
Proof.
  intros [Hlen Hb] Hp. assert (and_bytes ip (mask_bytes ones 16) !! 11 = Some 255%Z) as Hlk.
  { rewrite <- (lookup_take_lt _ 12) by lia. by rewrite Hp. }
  unfold and_bytes in Hlk. rewrite lookup_zip_with, mask_bytes_take in Hlk.
  destruct (ip !! 11) as [b|] eqn:Hib; cbn in Hlk; [|done]. injection Hlk as Hlk.
  assert (is_byte b) as Hbb by (by eapply Forall_lookup_1). rewrite land_mask_byte in Hlk by done. unfold is_byte in Hbb.
  destruct (decide (96 ≤ ones)) as [|Hlt]; [done|]. exfalso.
  assert (1 ≤ 8 - Z.of_nat ((ones - 88) `min` 8))%Z by lia.
  assert (2 ^ 1 ≤ 2 ^ (8 - Z.of_nat ((ones - 88) `min` 8)))%Z as Hpow by (apply Z.pow_le_mono_r; lia).
  set (q := (2 ^ _)%Z) in *. pose proof (Z.mod_pos_bound b q ltac:(lia)).
  assert (b = 255 ∧ b mod q = 0)%Z as [-> Hz] by lia.
  assert (∃ j, q = 2 ^ Z.of_nat (S j))%Z as [j Hj].
  { exists (Z.to_nat (7 - Z.of_nat ((ones - 88) `min` 8))). subst q. f_equal. lia. }
  apply Z.mod_divide in Hz; [|lia]. destruct Hz as [z Hz]. rewrite Hj, Nat2Z.inj_succ, Z.pow_succ_r in Hz by lia.
  set (t := (2 ^ Z.of_nat j)%Z) in *. assert ((255 mod 2 = (z * (2 * t)) mod 2)%Z) as Hodd by congruence.
  replace (z * (2 * t))%Z with (z * t * 2)%Z in Hodd by lia. rewrite Z.mod_mul in Hodd by lia. discriminate.
Qed.

Lemma and_bytes_length a b : length a = length b → length (and_bytes a b) = length a.
Proof. intros Hl. unfold and_bytes. rewrite length_zip_with. lia. Qed.

Lemma mask_bytes_length ones len : length (mask_bytes ones len) = len.
Proof. revert ones. induction len; intros ones; cbn [mask_bytes length]; [done|]. by rewrite IHlen. Qed.

(** An accepted CIDR of IPv4, in either form, is a subnet of the size its prefix says. *)
Lemma ParseCIDR_subnet s n :
  ParseCIDR s = Some n → is_Some (To4 (net_IP n)) → subnet n (net_bits n - net_ones n).
Proof.
  unfold ParseCIDR. destruct (cut_slash s) as [[addr mask]|]; [|done].
  destruct (ParseAddr addr) as [ip|] eqn:Hip; [|done]. destruct (dtoi mask) as [m|]; [|done].
  case_bool_decide as Hm; [|done]. intros [= <-] Hto4. cbn [net_bits net_ones net_IP] in *.
  apply ParseAddr_ok in Hip as [H4|H16].
  - pose proof H4 as [Hl _]. rewrite Hl in *. change (8 * 4) with 32 in *.
    pose proof (and_bytes_length ip (mask_bytes (N.to_nat m) 4) ltac:(by rewrite mask_bytes_length)) as Hal.
    assert (To4 (and_bytes ip (mask_bytes (N.to_nat m) 4)) = Some (and_bytes ip (mask_bytes (N.to_nat m) 4))) as Ht.
    { unfold To4. by rewrite bool_decide_eq_true_2 by congruence. }
    eapply masked_subnet; [exact H4|lia| |exact Ht]. unfold number_and_mask. cbn [net_IP]. by rewrite Ht.
  - pose proof H16 as [Hl Hb]. rewrite Hl in *. change (8 * 16) with 128 in *. set (o := N.to_nat m) in *.
    pose proof (and_bytes_length ip (mask_bytes o 16) ltac:(by rewrite mask_bytes_length)) as Hal.
    assert (take 12 (and_bytes ip (mask_bytes o 16)) = v4InV6Prefix) as Hp.
    { revert Hto4. unfold To4. rewrite bool_decide_eq_false_2 by congruence. destruct (_ && _) eqn:Hb2; [|by intros []].
      apply andb_true_iff in Hb2 as [_ Hb2]. by apply bool_decide_eq_true in Hb2. }
    assert (To4 (and_bytes ip (mask_bytes o 16)) = Some (and_bytes (drop 12 ip) (mask_bytes (o - 96) 4))) as Ht.
    { unfold To4. rewrite bool_decide_eq_false_2 by congruence. rewrite !bool_decide_eq_true_2 by congruence. cbn [andb].
      f_equal. unfold and_bytes. by rewrite zip_with_drop, mask_bytes_drop. }
    pose proof (prefix_masked ip o H16 Hp) as Ho.
    change (subnet (mkIPNet (and_bytes ip (mask_bytes o 16)) o 128) (128 - o)). replace (128 - o) with (32 - (o - 96)) by lia.
    eapply masked_subnet; [|lia| |exact Ht].
    + split; [rewrite length_drop; lia|by apply Forall_drop].
    + unfold number_and_mask. cbn [net_IP net_bits]. rewrite Ht. unfold net_Mask. cbn [net_ones net_bits].
      rewrite bool_decide_eq_true_2 by done. change (128 / 8) with 16. by rewrite mask_bytes_drop.
Qed.

(** ** Translating by subnets *)

Definition flip (dir : TranslationDirection) : TranslationDirection :=
  match dir with
  | TranslationDirectionForward => TranslationDirectionReverse
  | TranslationDirectionReverse => TranslationDirectionForward
  end.

(** The network translated from in a direction. *)
Definition source_net (cm : CIDRMapping) (dir : TranslationDirection) : IPNet :=
  match dir with TranslationDirectionForward => cm_dr1Net cm | TranslationDirectionReverse => cm_dr2Net cm end.

Lemma ParseIP4_ok s ip : ParseIP4 s = Some ip → is_ip4 ip.
Proof.
  unfold ParseIP4, ParseIP. destruct (ParseAddr s) as [a|] eqn:Ha; [|done]. cbn. apply ParseAddr_ok in Ha as [[Hl Hb]|[Hl Hb]].
  - unfold As16. rewrite bool_decide_eq_true_2 by done. unfold To4. rewrite bool_decide_eq_false_2.
    2:{ rewrite length_app. cbn. lia. }
    rewrite !bool_decide_eq_true_2.
    + intros [= <-]. by split.
    + reflexivity.
    + rewrite length_app, Hl. done.
  - unfold As16. rewrite bool_decide_eq_false_2 by lia. unfold To4. rewrite bool_decide_eq_false_2 by lia.
    destruct (_ && _); [|done]. intros [= <-].
    split; [rewrite length_drop; lia|by apply Forall_drop].
Qed.

Section subnets.
Context (range_keys : gset string → list string) (i : nat) (raw : gmap string string) (dr1 dr2 : string) (cm : CIDRMapping).
Context (Hcm : resolveCIDR range_keys i raw dr1 dr2 = inl cm).

(** Both networks are subnets of one size. *)
Lemma mapped_subnets : ∃ k, subnet (cm_dr1Net cm) k ∧ subnet (cm_dr2Net cm) k.
Proof using Hcm.
  revert Hcm. unfold resolveCIDR. destruct (validateCIDRKeys _ _ _ _ _) as [[c1 c2]|]; [|done].
  unfold parseAndValidateCIDRs. destruct (ParseCIDR c1) as [n1|] eqn:H1; [|done].
  destruct (ParseCIDR c2) as [n2|] eqn:H2; [|done]. unfold validateCIDRNetworks.
  case_bool_decide as Hbits; cbn [negb]; [|done]. case_bool_decide as Hones; cbn [negb]; [|done].
  destruct (_ || _) eqn:H4; [done|]. destruct (ip_Equal _ _); [done|]. intros [= <-]. cbn [cm_dr1Net cm_dr2Net].
  apply orb_false_iff in H4 as [Ha Hb]. apply bool_decide_eq_false in Ha, Hb.
  exists (net_bits n1 - net_ones n1). split; [|rewrite Hbits, Hones].
  - apply (ParseCIDR_subnet c1); [done|]. by apply not_eq_None_Some.
  - apply (ParseCIDR_subnet c2); [done|]. by apply not_eq_None_Some.
Qed.

(** An address at an offset in the source goes to the same offset in the destination. *)
Lemma applyCIDR_offset dir srcIP ip :
  ParseIP4 srcIP = Some ip → Contains (source_net cm dir) ip = true →
  let there := (network_number (source_net cm (flip dir)) + (ipToUint32 ip - network_number (source_net cm dir)))%Z in
  applyCIDR srcIP cm dir = Some (dotted (uint32ToIP there)) ∧ (0 ≤ there < 2 ^ 32)%Z ∧
  Contains (source_net cm (flip dir)) (uint32ToIP there) = true.
Proof using Hcm.
  intros Hip Hin there. pose proof (ParseIP4_ok _ _ Hip) as Hok. destruct mapped_subnets as (k & H1 & H2).
  assert (subnet (source_net cm dir) k ∧ subnet (source_net cm (flip dir)) k) as [[_ Hl1 Hh1 Hc1] [_ Hl2 Hh2 Hc2]].
  { destruct dir; by split. }
  rewrite Hc1 in Hin by done. apply bool_decide_eq_true in Hin. assert (0 < block k)%Z by (apply Z.pow_pos_nonneg; lia).
  assert (0 ≤ there < 2 ^ 32)%Z as Hr by (subst there; lia).
  assert (Contains (source_net cm (flip dir)) (uint32ToIP there) = true) as Hc.
  { rewrite Hc2 by apply uint32ToIP_ok. apply bool_decide_eq_true_2. rewrite number_uint32ToIP by done. subst there. lia. }
  split; [|done]. unfold applyCIDR. rewrite Hip.
  assert (uint32 (ipToUint32 ip - network_number (source_net cm dir)) =
          ipToUint32 ip - network_number (source_net cm dir))%Z as Hoff by (apply Z.mod_small; lia).
  assert (uint32 there = there) as Hmod by (apply Z.mod_small; lia).
  assert (Contains (source_net cm dir) ip = true) as Hs by (rewrite Hc1 by done; by apply bool_decide_eq_true_2).
  destruct dir; cbn [source_net flip] in *; rewrite Hs; cbn [negb]; cbv zeta;
    rewrite Hoff; fold there; rewrite Hmod, Hc; done.
Qed.

Lemma source_net_miss dir srcIP :
  applyCIDR srcIP cm dir = None →
  match ParseIP4 srcIP with Some ip => Contains (source_net cm dir) ip = false | None => True end.
Proof using Hcm.
  intros Hnone. destruct (ParseIP4 srcIP) as [ip|] eqn:Hip; [|done].
  destruct (Contains (source_net cm dir) ip) eqn:Hc; [|done].
  destruct (applyCIDR_offset dir srcIP ip Hip Hc) as [Hs _]. congruence.
Qed.

Lemma applyCIDR_in dir srcIP r :
  applyCIDR srcIP cm dir = Some r → ∃ ip, ParseIP4 srcIP = Some ip ∧ Contains (source_net cm dir) ip = true.
Proof.
  unfold applyCIDR. destruct (ParseIP4 srcIP) as [ip|]; [|done]. exists ip. split; [done|].
  destruct dir; cbn [source_net]; by destruct (Contains _ ip).
Qed.

Lemma applyCIDR_back dir srcIP r :
  applyCIDR srcIP cm dir = Some r → applyCIDR r cm (flip dir) = Some (normalizeIP srcIP).
Proof using Hcm.
  intros Hr. destruct (applyCIDR_in _ _ _ Hr) as (ip & Hip & Hin). pose proof (ParseIP4_ok _ _ Hip) as Hok.
  destruct (applyCIDR_offset dir srcIP ip Hip Hin) as (Hr' & Hrange & Hin').
  set (there := (network_number (source_net cm (flip dir)) + _)%Z) in *. rewrite Hr in Hr'. injection Hr' as ->.
  pose proof (ParseIP4_dotted _ (uint32ToIP_ok there)) as Hp.
  destruct (applyCIDR_offset (flip dir) _ _ Hp Hin') as (-> & _ & _).
  unfold normalizeIP. rewrite Hip. do 2 f_equal. rewrite <- (uint32ToIP_number ip Hok). f_equal.
  rewrite number_uint32ToIP by done. subst there. destruct dir; cbn [source_net flip]; lia.
Qed.
End subnets.

(** ** Explicit pairs *)

Definition normal (s : string) : Prop := ∃ ip, is_ip4 ip ∧ s = dotted ip.

Lemma normalizeIP_normal s : normal s → normalizeIP s = s.
Proof. intros (ip & Hip & ->). unfold normalizeIP. by rewrite ParseIP4_dotted. Qed.

(** The two tables are inverse, of printed addresses, and no address is in both. *)
Record inverse (fwd rev : gmap string string) : Prop := {
  inv_iff : ∀ a b, fwd !! a = Some b ↔ rev !! b = Some a;
  inv_normal : ∀ a b, fwd !! a = Some b → normal a ∧ normal b;
  inv_disjoint : ∀ a, is_Some (fwd !! a) → rev !! a = None;
}.

Lemma inverse_insert fwd rev a b :
  inverse fwd rev → normal a → normal b → a ≠ b →
  fwd !! a = None → rev !! b = None → rev !! a = None → fwd !! b = None →
  inverse (<[a := b]> fwd) (<[b := a]> rev).
Proof.
  intros [Hiff Hn Hd] Ha Hb Hne Hfa Hrb Hra Hfb. split.
  - intros x y. rewrite !lookup_insert_Some. split.
    + intros [[-> ->]|[Hx Hxy]]; [by left|]. right. apply Hiff in Hxy as Hyx. split; [|done]. intros ->. congruence.
    + intros [[-> ->]|[Hy Hyx]]; [by left|]. right. apply Hiff in Hyx as Hxy. split; [|done]. intros ->. congruence.
  - intros x y. rewrite lookup_insert_Some. intros [[-> ->]|[_ Hxy]]; [done|by apply Hn].
  - intros x Hx. apply lookup_insert_None. destruct Hx as [y Hx]. rewrite lookup_insert_Some in Hx.
    destruct Hx as [[-> _]|[_ Hx]]; [done|]. split; [by apply Hd; eexists|]. intros ->. congruence.
Qed.

Section explicit.
Context (range_keys : gset string → list string) (i : nat) (dr1 dr2 : string).

Lemma normalizeExplicitIPs_ok j a b x y :
  normalizeExplicitIPs i j dr1 dr2 a b = inl (x, y) → normal x ∧ normal y ∧ x ≠ y.
Proof.
  unfold normalizeExplicitIPs. destruct (ParseIP4 a) as [p|] eqn:Ha; [|done]. destruct (ParseIP4 b) as [q|] eqn:Hb; [|done].
  apply ParseIP4_ok in Ha, Hb. case_bool_decide; [done|]. intros [= <- <-]. split; [by exists p|]. split; [by exists q|done].
Qed.

Lemma explicit_rows_ok j rows fwd rev em :
  inverse fwd rev → explicit_rows range_keys i j rows dr1 dr2 fwd rev = inl em → inverse (em_Forward em) (em_Reverse em).
Proof.
  revert j fwd rev. induction rows as [|row rows IH]; intros j fwd rev Hinv; cbn [explicit_rows]; [by intros [= <-]|].
  destruct (extractClusterIPs _ _ _ _ _ _) as [[a b]|]; [|done].
  destruct (normalizeExplicitIPs _ _ _ _ _ _) as [[x y]|] eqn:Hnorm; [|done].
  apply normalizeExplicitIPs_ok in Hnorm as (Hx & Hy & Hne). unfold validateExplicitMappingCollision.
  destruct (fwd !! x) eqn:H1; [done|]. destruct (rev !! y) eqn:H2; [done|]. destruct (rev !! x) eqn:H3; [done|].
  destruct (fwd !! y) eqn:H4; [done|]. apply IH. by apply inverse_insert.
Qed.

Lemma resolveExplicitMappings_ok rows em :
  resolveExplicitMappings range_keys i rows dr1 dr2 = inl em → inverse (em_Forward em) (em_Reverse em).
Proof. apply explicit_rows_ok. by split. Qed.
End explicit.

Lemma lookupExplicit_back em dir srcIP r :
  inverse (em_Forward em) (em_Reverse em) →
  lookupExplicit srcIP em dir = Some r → lookupExplicit r em (flip dir) = Some (normalizeIP srcIP).
Proof.
  intros [Hiff Hn _]. destruct dir; cbn [lookupExplicit flip]; intros Hl.
  - destruct (Hn _ _ Hl) as [_ Hr]. rewrite (normalizeIP_normal r Hr). by apply Hiff.
  - apply Hiff in Hl as Hl'. destruct (Hn _ _ Hl') as [Hr _]. by rewrite (normalizeIP_normal r Hr).
Qed.

(** ** Translating *)

Section translate.
Context (Compile : string → Regexp + GoError) (range_keys : gset string → list string).

(** The parts of a block that was accepted. *)
Lemma resolveBlock_ok i raw dr1 dr2 fk rk block :
  resolveBlock Compile range_keys i raw dr1 dr2 fk rk = inl block →
  (∀ em, nmb_ExplicitMappings block = Some em → inverse (em_Forward em) (em_Reverse em)) ∧
  (∀ cm, nmb_CIDRMapping block = Some cm → resolveCIDR range_keys i (rnm_CIDR raw) dr1 dr2 = inl cm).
Proof.
  unfold resolveBlock.
  destruct (if rnm_ExplicitMappings raw is [] then _ else _) as [explicit|] eqn:He; [|done].
  destruct (if bool_decide (rnm_CIDR raw = ∅) then _ else _) as [cidr|] eqn:Hc; [|done].
  destruct (if bool_decide (dom _ = ∅) then _ else _) as [regex|]; [|done]. intros Hb.
  assert (nmb_ExplicitMappings block = explicit ∧ nmb_CIDRMapping block = cidr) as [-> ->].
  { revert Hb. destruct explicit, cidr, regex; try done; by intros [= <-]. }
  split.
  - intros em ->. revert He. destruct (rnm_ExplicitMappings raw); [done|].
    destruct (resolveExplicitMappings _ _ _ _ _) as [em'|] eqn:Hr; [|done]. intros [= <-]. by eapply resolveExplicitMappings_ok.
  - intros cm ->. revert Hc. case_bool_decide; [done|].
    destruct (resolveCIDR _ _ _ _ _) as [cm'|] eqn:Hr; [|done]. by intros [= <-].
Qed.

Lemma resolve_blocks_ok i l dr1 dr2 fk rk seen blocks block :
  resolve_blocks Compile range_keys i l dr1 dr2 fk rk seen = inl blocks → block ∈ blocks →
  ∃ j raw, resolveBlock Compile range_keys j raw dr1 dr2 fk rk = inl block.
Proof.
  revert i seen blocks. induction l as [|raw l IH]; intros i seen blocks; cbn [resolve_blocks].
  { intros [= <-] Hb. by apply elem_of_nil in Hb. }
  destruct (_ =? _); [done|]. destruct (_ =? _); [done|]. destruct (seen !! _); [done|].
  destruct (resolveBlock _ _ _ _ _ _ _ _) as [b|] eqn:Hb; [|done].
  destruct (resolve_blocks _ _ _ _ _ _ _ _ _) as [bs|] eqn:Hbs; [|done]. intros [= <-] Hin.
  apply elem_of_cons in Hin as [->|Hin]; [by exists i, raw|by eapply IH].
Qed.

Lemma accepted_block rawCfg dr1 dr2 rules nad block :
  resolveAndValidate Compile range_keys rawCfg dr1 dr2 = inl rules → findBlock rules nad = Some block →
  (∀ em, nmb_ExplicitMappings block = Some em → inverse (em_Forward em) (em_Reverse em)) ∧
  (∀ cm, nmb_CIDRMapping block = Some cm → ∃ i raw, resolveCIDR range_keys i raw dr1 dr2 = inl cm).
Proof.
  unfold resolveAndValidate. destruct (rnc_NetworkMappings rawCfg) as [|m l]; [done|].
  destruct (resolve_blocks _ _ _ _ _ _ _ _ _) as [bs|] eqn:Hbs; [|done]. intros [= <-] Hf. unfold findBlock in Hf. cbn [nmr_Blocks] in Hf.
  apply find_first_Some in Hf as [Hin _]. destruct (resolve_blocks_ok _ _ _ _ _ _ _ _ _ Hbs Hin) as (j & raw & Hr).
  destruct (resolveBlock_ok _ _ _ _ _ _ _ Hr) as [He Hc]. split; [done|]. intros cm Hcm. exists j, (rnm_CIDR raw). auto.
Qed.

(** C39: An address that an accepted network mapping translates by an explicit pair, or by its
    subnets while no explicit pair has the result, is translated back to the address it was
    (in its canonical form) in the other direction: a failback restores what a failover
    changed. *)
Theorem translation_round_trip rawCfg dr1 dr2 rules nad dir srcIP r rule :
  resolveAndValidate Compile range_keys rawCfg dr1 dr2 = inl rules →
  translateIP srcIP rules dir nad = inl (r, rule) → rule ≠ RuleTypeRegex →
  (rule = RuleTypeCIDR → ∀ block em, findBlock rules nad = Some block → nmb_ExplicitMappings block = Some em →
     lookupExplicit r em (flip dir) = None) →
  translateIP r rules (flip dir) nad = inl (normalizeIP srcIP, rule).
Proof.
  intros Hrules. unfold translateIP. destruct (findBlock rules nad) as [block|] eqn:Hblock; [|done].
  destruct (accepted_block _ _ _ _ _ _ Hrules Hblock) as [Hem Hcm]. intros Htr Hregex Hmiss.
  destruct (nmb_ExplicitMappings block ≫= _) as [x|] eqn:He.
  - injection Htr as <- <-. destruct (nmb_ExplicitMappings block) as [em|]; [|done]. cbn in He |- *.
    by rewrite (lookupExplicit_back em dir srcIP x (Hem em eq_refl) He).
  - destruct (nmb_CIDRMapping block ≫= _) as [x|] eqn:Hc.
    + injection Htr as <- <-.
      assert (nmb_ExplicitMappings block ≫= (λ em, lookupExplicit x em (flip dir)) = None) as ->.
      { destruct (nmb_ExplicitMappings block) as [em|] eqn:Hblockem; [|done]. cbn. by eapply Hmiss. }
      destruct (nmb_CIDRMapping block) as [cm|]; [|done]. cbn in Hc |- *. destruct (Hcm cm eq_refl) as (i & raw & Hraw).
      by rewrite (applyCIDR_back _ _ _ _ _ _ Hraw dir srcIP x Hc).
    + exfalso. destruct (nmb_RegexRules block); [|done]. by destruct (applyRegexRules _ _ _ _ _); simplify_eq.
Qed.

(** C40: Every address of an accepted source subnet has a translation inside the other subnet,
    at the same offset, and no step of it leaves 32 bits: neither subtraction nor addition of
    unsigned numbers wraps around. *)
Theorem subnet_translation_in_range raw i dr1 dr2 cm dir srcIP ip :
  resolveCIDR range_keys i raw dr1 dr2 = inl cm →
  ParseIP4 srcIP = Some ip → Contains (source_net cm dir) ip = true →
  let offset := (ipToUint32 ip - network_number (source_net cm dir))%Z in
  let there := (network_number (source_net cm (flip dir)) + offset)%Z in
  uint32 offset = offset ∧ uint32 there = there ∧
  applyCIDR srcIP cm dir = Some (dotted (uint32ToIP there)) ∧
  Contains (source_net cm (flip dir)) (uint32ToIP there) = true.
Proof.
  intros Hcm Hip Hin offset there.
  destruct (applyCIDR_offset range_keys i raw dr1 dr2 cm Hcm dir srcIP ip Hip Hin) as (Ha & Hr & Hc).
  pose proof (ParseIP4_ok _ _ Hip) as Hok. pose proof (number_range ip Hok).
  destruct (mapped_subnets range_keys i raw dr1 dr2 cm Hcm) as (k & H1 & H2).
  assert (0 ≤ offset)%Z.
  { assert (subnet (source_net cm dir) k) as [_ _ _ Hc1] by (by destruct dir).
    rewrite Hc1 in Hin by done. apply bool_decide_eq_true in Hin. subst offset. lia. }
  assert (0 ≤ network_number (source_net cm dir))%Z by (destruct dir; [apply H1|apply H2]).
  split; [|split; [|done]]; apply Z.mod_small; [subst offset; lia|done].
Qed.
End translate.

(** ** The mapping of the file's own documentation *)

Definition documented_raw : rawNetworkMappingConfig :=
  mkRawNetworkMappingConfig "v1"
    [mkRawNetworkMapping (mkNetworkRef "default" "backup")
       {["dr1" := "192.168.100.0/24"; "dr2" := "192.168.110.0/24"]}
       [{["dr1" := "192.168.100.10"; "dr2" := "192.168.110.10"]};
        {["dr1" := "192.168.100.51"; "dr2" := "192.168.110.58"]}] ∅].
Definition no_regexp : string → Regexp + GoError := λ _, inr (Errorf "unsupported" None).
Definition documented_rules : NetworkMappingRules :=
  match resolveAndValidate no_regexp elements documented_raw "dr1" "dr2" with
  | inl rules => rules
  | inr _ => mkNetworkMappingRules "" "" "" []
  end.
Definition backup : NetworkRef := mkNetworkRef "default" "backup".

(** The address of a machine that no explicit pair mentions goes over and comes back. *)
Lemma translation_round_trip_witness :
  translateIP "192.168.100.7" documented_rules TranslationDirectionForward backup = inl ("192.168.110.7", RuleTypeCIDR) ∧
  translateIP "192.168.110.7" documented_rules TranslationDirectionReverse backup = inl ("192.168.100.7", RuleTypeCIDR).
Proof.
  assert (translateIP "192.168.100.7" documented_rules TranslationDirectionForward backup = inl ("192.168.110.7", RuleTypeCIDR)) as Ht
    by (vm_compute; reflexivity).
  split; [exact Ht|].
  assert (resolveAndValidate no_regexp elements documented_raw "dr1" "dr2" = inl documented_rules) as Hr by (vm_compute; reflexivity).
  assert (normalizeIP "192.168.100.7" = "192.168.100.7") as Hn by (vm_compute; reflexivity). rewrite <- Hn.
  refine (translation_round_trip no_regexp elements documented_raw "dr1" "dr2" documented_rules backup
            TranslationDirectionForward "192.168.100.7" "192.168.110.7" RuleTypeCIDR Hr Ht ltac:(discriminate) _).
  intros _ block em Hb Hem.
  assert ((λ b, from_option (λ em, lookupExplicit "192.168.110.7" em (flip TranslationDirectionForward)) None (nmb_ExplicitMappings b))
            <$> findBlock documented_rules backup = Some None) as Hall by (vm_compute; reflexivity).
  rewrite Hb in Hall. cbn [fmap option_fmap option_map] in Hall. rewrite Hem in Hall. exact (Some_inj _ _ Hall).
Defined.

(** The last address of the first subnet, with nothing left over. *)
Lemma subnet_translation_in_range_witness :
  (λ cm, applyCIDR "192.168.100.255" cm TranslationDirectionForward) <$>
    match resolveCIDR elements 0 {["dr1" := "192.168.100.0/24"; "dr2" := "192.168.110.0/24"]} "dr1" "dr2" with
    | inl cm => Some cm | inr _ => None end = Some (Some "192.168.110.255").
Proof.
  destruct (resolveCIDR elements 0 {["dr1" := "192.168.100.0/24"; "dr2" := "192.168.110.0/24"]} "dr1" "dr2") as [cm|e] eqn:Hcm;
    [|exfalso; vm_compute in Hcm; discriminate].
  cbn [fmap option_fmap option_map]. apply (f_equal Some).
  assert (ParseIP4 "192.168.100.255" = Some [192; 168; 100; 255]%Z) as Hip by (vm_compute; reflexivity).
  assert (Contains (source_net cm TranslationDirectionForward) [192; 168; 100; 255]%Z = true) as Hin
    by (vm_compute in Hcm; injection Hcm as <-; vm_compute; reflexivity).
  destruct (subnet_translation_in_range elements _ 0 "dr1" "dr2" cm TranslationDirectionForward _ _ Hcm Hip Hin) as (_ & _ & Ha & _).
  etransitivity; [exact Ha|]. vm_compute in Hcm. injection Hcm as <-. vm_compute. reflexivity.
Defined.

(** The mapping that the file's documentation gives as its example is accepted, and sends two
    addresses to one: the machine at .51 by an explicit pair and the machine at .58 by the
    subnets. In the other direction that address is .51's: the machine at .58 comes back from
    a failover with another machine's address. *)
Theorem documented_mapping_collides :
  resolveAndValidate no_regexp elements documented_raw "dr1" "dr2" = inl documented_rules ∧
  translateIP "192.168.100.51" documented_rules TranslationDirectionForward backup = inl ("192.168.110.58", RuleTypeExplicit) ∧
  translateIP "192.168.100.58" documented_rules TranslationDirectionForward backup = inl ("192.168.110.58", RuleTypeCIDR) ∧
  translateIP "192.168.110.58" documented_rules TranslationDirectionReverse backup = inl ("192.168.100.51", RuleTypeExplicit).
Proof. repeat split; vm_compute; reflexivity. Qed.
