(* ===== verification/Hub.v ===== *)
(** * The hub: the state of a reconcile and its API calls

    One reconcile of a DRPC is a computation over [World]: the in-memory DRPC
    ([d.instance]) and the cached VRG views ([d.vrgs]) next to the objects the API
    server holds.  What the orchestrator cannot determine is an [Env]: each call
    takes a tick, and the environment answers as a function of the tick — the
    error of an API call if it fails, the clock, what a managed cluster shows, the
    order in which a map is ranged over. *)

From Stdlib Require Import ZArith.
From S2P Require Import Prelude Meta Names Conditions Api Events Telemetry NetworkMapping.

(** ** Objects on the API server *)

(** A namespace or recipe as carried in a manifest; a recipe's spec is opaque here. *)
Record Recipe := mkRecipe {
  rcp_Meta : ObjectMeta;
  rcp_Spec : string;
}.
#[export] Instance eta_Recipe : Eta Recipe := λ r, mkRecipe (rcp_Meta r) (rcp_Spec r).
#[export] Instance Recipe_eq : EqDecision Recipe.
Proof. solve_decision. Defined.

(** csiaddonsv1alpha1.NetworkFence. *)
Record NetworkFence := mkNetworkFence {
  nf_Meta : ObjectMeta;
  nf_Driver : string;
  nf_NetworkFenceClassName : string;
  nf_FenceState : string;
  nf_Cidrs : list string;
  nf_Secret : string * string;
  nf_Parameters : gmap string string;
  nf_Result : string;
}.
#[export] Instance eta_NetworkFence : Eta NetworkFence := λ x,
  mkNetworkFence (nf_Meta x) (nf_Driver x) (nf_NetworkFenceClassName x) (nf_FenceState x) (nf_Cidrs x)
    (nf_Secret x) (nf_Parameters x) (nf_Result x).
#[export] Instance NetworkFence_eq : EqDecision NetworkFence.
Proof. solve_decision. Defined.

(** operatorsv1alpha1.Subscription: metadata and spec. *)
Record Subscription := mkSubscription {
  sub_Meta : ObjectMeta;
  sub_CatalogSource : string;
  sub_CatalogSourceNamespace : string;
  sub_Package : string;
  sub_Channel : string;
  sub_StartingCSV : string;
  sub_InstallPlanApproval : string;
}.
#[export] Instance Subscription_eq : EqDecision Subscription.
Proof. solve_decision. Defined.

(** The raw JSON of a manifest: the object it encodes, or text that is no object.
    [MObject] is an object of any other kind. *)
Inductive Manifest :=
  | MVRG (v : VolumeReplicationGroup)
  | MNamespace (m : ObjectMeta)
  | MRecipe (r : Recipe)
  | MNetworkFence (nf : NetworkFence)
  | MMaintenanceMode (m : MaintenanceMode)
  | MDRClusterConfig (c : DRClusterConfig)
  | MSubscription (s : Subscription)
  | MObject (apiVersion kind : string) (m : ObjectMeta) (content : string)
  | MRaw (text : string).
#[export] Instance Manifest_eq : EqDecision Manifest.
Proof. solve_decision. Defined.

Record ManifestWorkSpec := mkManifestWorkSpec {
  mws_Manifests : list Manifest;
  mws_DeleteOption : option string;
}.
#[export] Instance eta_ManifestWorkSpec : Eta ManifestWorkSpec := λ s,
  mkManifestWorkSpec (mws_Manifests s) (mws_DeleteOption s).
#[export] Instance ManifestWorkSpec_eq : EqDecision ManifestWorkSpec.
Proof. solve_decision. Defined.

Record ManifestWork := mkManifestWork {
  mw_Meta : ObjectMeta;
  mw_Spec : ManifestWorkSpec;
  mw_Conditions : list Condition;
}.
#[export] Instance eta_ManifestWork : Eta ManifestWork := λ m,
  mkManifestWork (mw_Meta m) (mw_Spec m) (mw_Conditions m).
#[export] Instance ManifestWork_eq : EqDecision ManifestWork.
Proof. solve_decision. Defined.

(** clusterv1beta1.ClusterDecision and PlacementDecision. *)
Record ClusterDecision := mkClusterDecision {
  cd_ClusterName : string;
  cd_Reason : string;
}.
#[export] Instance eta_ClusterDecision : Eta ClusterDecision := λ c,
  mkClusterDecision (cd_ClusterName c) (cd_Reason c).
#[export] Instance ClusterDecision_eq : EqDecision ClusterDecision.
Proof. solve_decision. Defined.
Definition zero_cd : ClusterDecision := mkClusterDecision "" "".

Record OCMPlacementDecision := mkOCMPlacementDecision {
  opd_Meta : ObjectMeta;
  opd_Decisions : list ClusterDecision;
}.
#[export] Instance eta_OCMPlacementDecision : Eta OCMPlacementDecision := λ p,
  mkOCMPlacementDecision (opd_Meta p) (opd_Decisions p).
#[export] Instance OCMPlacementDecision_eq : EqDecision OCMPlacementDecision.
Proof. solve_decision. Defined.

(** The user's placement: a PlacementRule with the decisions of its status, or an
    OCM Placement, whose decisions are PlacementDecision objects. *)
Inductive UserPlacement :=
  | PlacementRule (m : ObjectMeta) (decisions : list PlacementDecision)
  | Placement (m : ObjectMeta)
  | NoPlacement.

Definition placement_meta (p : UserPlacement) : ObjectMeta :=
  match p with PlacementRule m _ => m | Placement m => m | NoPlacement => zero_meta end.

Definition placementGVK : GVK := ("cluster.open-cluster-management.io/v1beta1", "Placement").
Definition placementRuleGVK : GVK := ("apps.open-cluster-management.io/v1", "PlacementRule").
Definition placement_gvk (p : UserPlacement) : GVK :=
  match p with PlacementRule _ _ => placementRuleGVK | Placement _ | NoPlacement => placementGVK end.

(** A match expression of a Placement's predicate (its required cluster selector). *)
Record MatchExpression := mkMatchExpression {
  me_Key : string;
  me_Operator : string;
  me_Values : list string;
}.
#[export] Instance eta_MatchExpression : Eta MatchExpression := λ e,
  mkMatchExpression (me_Key e) (me_Operator e) (me_Values e).
#[export] Instance MatchExpression_eq : EqDecision MatchExpression.
Proof. solve_decision. Defined.

(** The PlacementRule a DRPC without a preferred cluster clones from the user's. *)
Record ClonedRule := mkClonedRule {
  cr_Meta : ObjectMeta;
  cr_Clusters : list string;
  cr_SchedulerName : string;
  cr_Decisions : list PlacementDecision;
}.
#[export] Instance eta_ClonedRule : Eta ClonedRule := λ r,
  mkClonedRule (cr_Meta r) (cr_Clusters r) (cr_SchedulerName r) (cr_Decisions r).

(** A ManagedClusterView: what to show of a managed cluster, and the raw text of the
    object that its agent reported last. *)
Record ViewScope := mkViewScope {
  vsc_Kind : string;
  vsc_Group : string;
  vsc_Version : string;
  vsc_Name : string;
  vsc_Namespace : string;
}.
#[export] Instance eta_ViewScope : Eta ViewScope := λ x,
  mkViewScope (vsc_Kind x) (vsc_Group x) (vsc_Version x) (vsc_Name x) (vsc_Namespace x).
#[export] Instance ViewScope_eq : EqDecision ViewScope.
Proof. solve_decision. Defined.

Record ManagedClusterView := mkManagedClusterView {
  mcv_Meta : ObjectMeta;
  mcv_Scope : ViewScope;
  mcv_Conditions : list Condition;
  mcv_Result : string;
}.
#[export] Instance eta_ManagedClusterView : Eta ManagedClusterView := λ x,
  mkManagedClusterView (mcv_Meta x) (mcv_Scope x) (mcv_Conditions x) (mcv_Result x).
#[export] Instance ManagedClusterView_eq : EqDecision ManagedClusterView.
Proof. solve_decision. Defined.

(** ** The state

    In memory: the DRPC, the views, the user's placement with its predicates, the
    status and action count saved when the reconcile began.  On the server: the DRPC,
    the ManifestWorks, the decisions, the placement, the cloned rules, the views
    (keyed by managed cluster and name). *)

Record World := mkWorld {
  w_drpc : DRPlacementControl;
  w_api_drpc : DRPlacementControl;
  w_vrgs : gmap string VolumeReplicationGroup;
  w_mws : gmap (string * string) ManifestWork;
  w_placement : UserPlacement;
  w_api_rule : list PlacementDecision;
  w_pds : list OCMPlacementDecision;
  w_events : EventReporter;
  w_requeueAfter : Z;
  w_mcvRequestInProgress : bool;
  w_predicates : list (list MatchExpression);
  w_api_placement : option (ObjectMeta * list (list MatchExpression));
  w_rules : gmap (string * string) ClonedRule;
  w_savedInstanceStatus : DRPlacementControlStatus;
  w_savedDRActionCount : string;
  w_views : gmap (string * string) ManagedClusterView;
  w_tick : nat;
}.
#[export] Instance eta_World : Eta World := λ w,
  mkWorld (w_drpc w) (w_api_drpc w) (w_vrgs w) (w_mws w) (w_placement w) (w_api_rule w)
    (w_pds w) (w_events w) (w_requeueAfter w) (w_mcvRequestInProgress w) (w_predicates w)
    (w_api_placement w) (w_rules w) (w_savedInstanceStatus w) (w_savedDRActionCount w)
    (w_views w) (w_tick w).

Abbreviation Op := (M World).

(** ** The environment *)

Class Env := {
  (** The clock, in nanoseconds. *)
  env_now : nat → Z;
  (** The failure of the API call made at a tick: a conflict, a timeout, a stale
      cache that misses the object. *)
  env_api_err : nat → option GoError;
  (** ManagedClusterViewGetter: a VRG, a namespace, a recipe on a managed cluster. *)
  env_GetVRGFromManagedCluster :
    nat → string → string → string → VolumeReplicationGroup + GoError;
  env_GetNSFromManagedCluster : nat → string → string → ObjectMeta + GoError;
  env_GetRecipeFromManagedCluster : nat → string → string → string → Recipe + GoError;
  (** ObjectStoreGetter and the VRG download from a profile's store. *)
  env_s3_vrg : nat → string → string → string → VolumeReplicationGroup + GoError;
  (** The DRPCs with a label value, across namespaces. *)
  env_list_drpcs : nat → string → string → list DRPlacementControl + GoError;
  (** package volsync: the shared secret and its propagation. *)
  env_ReconcileVolSyncReplicationSecret : nat → string → string → string + GoError;
  env_PropagateSecretToClusters : nat → string → list string → string → string → option GoError;
  (** The order of a range over a map of VRGs: any order. *)
  env_range : nat → gmap string VolumeReplicationGroup → list (string * VolumeReplicationGroup);
  env_range_perm : ∀ t m, env_range t m ≡ₚ map_to_list m;
  (** The network mapping's ConfigMap, and what it is parsed with. *)
  env_mapping :: MappingEnv;
  (** [%v] of values that are not text. *)
  env_fmt_placement : UserPlacement → string;
  env_fmt_status : DRPlacementControlStatus → string;
  env_fmt_vrgs : gmap string VolumeReplicationGroup → string;
  (** The annotation codec of the action counts. *)
  env_codec :: CountCodec;
}.

(** The fields of [DRPCInstance] and of its reconciler that a reconcile only reads. *)
Inductive DRType := DRTypeSync | DRTypeAsync.
#[export] Instance DRType_eq : EqDecision DRType.
Proof. solve_decision. Defined.

Class DRPCInstance := {
  d_drPolicy : DRPolicy;
  d_drClusters : list DRCluster;
  d_drType : DRType;
  d_volSyncDisabled : bool;
  d_vrgNamespace : string;
  d_InstName : string;
  d_numClustersQueriedSuccessfully : nat;
  d_savedInstanceStatus : DRPlacementControlStatus;
  (** RamenConfig: the SCC flag and the operands namespace. *)
  d_RetainNamespaceSCCAcrossPeers : bool;
  d_RamenOperandsNamespace : string;
  d_networkMappingRules : option NetworkMappingRules;
}.

Definition not_found (what : string) : GoError := StatusError ReasonNotFound (what +:+ " not found").
Definition already_exists (what : string) : GoError :=
  StatusError ReasonAlreadyExists (what +:+ " already exists").

(** A failing call never claims that the object is not there. *)
Definition honest_errors `{Env} : Prop := ∀ t e, env_api_err t = Some e → IsNotFound e = false.

Section calls.
Context `{Env}.

Definition tick : Op nat := λ w, (w_tick w, w <| w_tick ::= S |>).
Definition time_Now : Op Z := t ← tick; mret (env_now t).
Definition api_err : Op (option GoError) := t ← tick; mret (env_api_err t).

(** ** The DRPC

    The API server holds the metadata and spec apart from the status: [Update]
    writes the former, [Status().Update] the latter, and either refreshes the
    in-memory object with the server's, so that changes to the other part made
    only in memory are gone. *)
Definition Update_drpc : Op (option GoError) :=
  e ← api_err;
  match e with
  | Some e => mret (Some e)
  | None =>
      modify (λ w,
        let api := w_api_drpc w <| drpc_Meta := drpc_Meta (w_drpc w) |>
                                <| drpc_Spec := drpc_Spec (w_drpc w) |> in
        w <| w_api_drpc := api |> <| w_drpc := api |>);;
      mret None
  end.

Definition Status_Update_drpc : Op (option GoError) :=
  e ← api_err;
  match e with
  | Some e => mret (Some e)
  | None =>
      modify (λ w,
        let api := w_api_drpc w <| drpc_Status := drpc_Status (w_drpc w) |> in
        w <| w_api_drpc := api |> <| w_drpc := api |>);;
      mret None
  end.

(** ** ManifestWorks, keyed by managed cluster namespace and name

    The server answers a read with the object of the requested name and namespace. *)

Definition Get_mw (name cluster : string) : Op (ManifestWork + GoError) :=
  e ← api_err;
  match e with
  | Some e => mret (inr e)
  | None =>
      mws ← gets w_mws;
      mret (match mws !! (cluster, name) with
            | Some mw => inl (mw <| mw_Meta ::= λ m, m <| om_Namespace := cluster |> <| om_Name := name |> |>)
            | None => inr (not_found name)
            end)
  end.

Definition Create_mw (mw : ManifestWork) : Op (option GoError) :=
  let key := (om_Namespace (mw_Meta mw), om_Name (mw_Meta mw)) in
  e ← api_err;
  match e with
  | Some e => mret (Some e)
  | None =>
      mws ← gets w_mws;
      match mws !! key with
      | Some _ => mret (Some (already_exists (om_Name (mw_Meta mw))))
      | None => modify (λ w, w <| w_mws ::= <[key := mw]> |>);; mret None
      end
  end.

(** The server keeps the status and the deletion timestamp. *)
Definition Update_mw (mw : ManifestWork) : Op (option GoError) :=
  let key := (om_Namespace (mw_Meta mw), om_Name (mw_Meta mw)) in
  e ← api_err;
  match e with
  | Some e => mret (Some e)
  | None =>
      mws ← gets w_mws;
      match mws !! key with
      | None => mret (Some (not_found (om_Name (mw_Meta mw))))
      | Some old =>
          modify (λ w, w <| w_mws ::= <[key := mw <| mw_Conditions := mw_Conditions old |>
            <| mw_Meta ::= λ m, m <| om_DeletionTimestamp := om_DeletionTimestamp (mw_Meta old) |> |>]> |>);;
          mret None
      end
  end.

(** A work with finalizers, as those the agent of a managed cluster puts on it, is only
    marked as being deleted; it goes when they are removed. *)
Definition mark_deleted (now : Z) (mw : ManifestWork) : ManifestWork :=
  mw <| mw_Meta ::= λ m, m <| om_DeletionTimestamp ::= λ d, Some (default now d) |> |>.

Definition Delete_mw (mw : ManifestWork) : Op (option GoError) :=
  let key := (om_Namespace (mw_Meta mw), om_Name (mw_Meta mw)) in
  t ← tick;
  match env_api_err t with
  | Some e => mret (Some e)
  | None =>
      mws ← gets w_mws;
      match mws !! key with
      | None => mret (Some (not_found (om_Name (mw_Meta mw))))
      | Some old =>
          modify (λ w, w <| w_mws ::= λ l, if bool_decide (om_Finalizers (mw_Meta old) = []) then delete key l
                                           else <[key := mark_deleted (env_now t) old]> l |>);;
          mret None
      end
  end.

(** A work that is on the server, and that nobody asked to delete. *)
Definition work_lives (w : World) (k : string * string) : Prop :=
  ∃ mw, w_mws w !! k = Some mw ∧ om_DeletionTimestamp (mw_Meta mw) = None.

#[export] Instance work_lives_dec w k : Decision (work_lives w k).
Proof.
  destruct (w_mws w !! k) as [mw|] eqn:E; [|right; intros (m & Hm & _); congruence].
  destruct (decide (om_DeletionTimestamp (mw_Meta mw) = None)); [left; by exists mw|right].
  intros (m & Hm & Hd). congruence.
Defined.

(** [retry.RetryOnConflict(retry.DefaultBackoff, fn)]: at most four attempts. *)
Fixpoint RetryOnConflict_steps (steps : nat) (fn : Op (option GoError)) : Op (option GoError) :=
  e ← fn;
  match e, steps with
  | Some e', S n =>
      if bool_decide (reason_of e' = Some ReasonConflict)
      then RetryOnConflict_steps n fn else mret e
  | _, _ => mret e
  end.
Definition RetryOnConflict (fn : Op (option GoError)) : Op (option GoError) :=
  RetryOnConflict_steps 3 fn.

(** ** PlacementDecisions *)

Definition same_object (a b : ObjectMeta) : bool :=
  bool_decide (om_Namespace a = om_Namespace b) && bool_decide (om_Name a = om_Name b).

Definition Create_pd (p : OCMPlacementDecision) : Op (option GoError) :=
  e ← api_err;
  match e with
  | Some e => mret (Some e)
  | None =>
      pds ← gets w_pds;
      if existsb (λ q, same_object (opd_Meta q) (opd_Meta p)) pds
      then mret (Some (already_exists (om_Name (opd_Meta p))))
      else modify (λ w, w <| w_pds ::= λ l, l ++ [p] |>);; mret None
  end.

(** A write of one part of the stored PlacementDecision. *)
Definition write_pd (p : OCMPlacementDecision)
    (f : OCMPlacementDecision → OCMPlacementDecision) : Op (option GoError) :=
  e ← api_err;
  match e with
  | Some e => mret (Some e)
  | None =>
      pds ← gets w_pds;
      if existsb (λ q, same_object (opd_Meta q) (opd_Meta p)) pds
      then modify (λ w, w <| w_pds ::= update_first (λ q, same_object (opd_Meta q) (opd_Meta p)) f |>);;
           mret None
      else mret (Some (not_found (om_Name (opd_Meta p))))
  end.

Definition Update_pd (p : OCMPlacementDecision) : Op (option GoError) :=
  write_pd p (λ q, q <| opd_Meta := opd_Meta p |>).
Definition Status_Update_pd (p : OCMPlacementDecision) : Op (option GoError) :=
  write_pd p (λ q, q <| opd_Decisions := opd_Decisions p |>).

(** The status of a PlacementRule, in memory before it is written. *)
Definition Status_Update_rule (decisions : list PlacementDecision) : Op (option GoError) :=
  e ← api_err;
  match e with
  | Some e => mret (Some e)
  | None => modify (λ w, w <| w_api_rule := decisions |>);; mret None
  end.

(** ** Managed cluster views, listings, events *)

Definition GetVRGFromManagedCluster (name namespace cluster : string)
    : Op (VolumeReplicationGroup + GoError) :=
  t ← tick; mret (env_GetVRGFromManagedCluster t name namespace cluster).

(** [range vrgs], and [range d.vrgs]. *)
Definition range_map (vrgs : gmap string VolumeReplicationGroup) : Op (list (string * VolumeReplicationGroup)) :=
  t ← tick; mret (env_range t vrgs).
Definition range_vrgs : Op (list (string * VolumeReplicationGroup)) :=
  t ← tick; vrgs ← gets w_vrgs; mret (env_range t vrgs).

Definition Report (eventType eventReason msg : string) : Op unit :=
  now ← time_Now; now' ← time_Now;
  modify (λ w, w <| w_events := ReportIfNotPresent now now' (w_events w) (drpc_Meta (w_drpc w))
                                  eventType eventReason msg |>).

Definition modify_drpc (f : DRPlacementControl → DRPlacementControl) : Op unit :=
  modify (λ w, w <| w_drpc ::= f |>).
Definition modify_status (f : DRPlacementControlStatus → DRPlacementControlStatus) : Op unit :=
  modify_drpc (λ d, d <| drpc_Status ::= f |>).

(** [addOrUpdateCondition(&d.instance.Status.Conditions, ...)] with the DRPC's generation. *)
Definition setCondition (conditionType : string) (status : ConditionStatus) (reason msg : string)
    : Op bool :=
  now ← time_Now;
  d ← gets w_drpc;
  let '(updated, conds) :=
    addOrUpdateCondition now (dst_Conditions (drpc_Status d)) conditionType
      (om_Generation (drpc_Meta d)) status reason msg in
  modify_status (λ s, s <| dst_Conditions := conds |>);;
  mret updated.
End calls.


(** ** What a method may change

    [base]: the clock only advances, and the DRPC keeps its spec and identity as
    long as the server's copy has them (which holds from the reconcile's first
    read on).  [quiet]: besides, ManifestWorks, views and placements are untouched. *)

Definition same_identity (a b : DRPlacementControl) : Prop :=
  drpc_Spec a = drpc_Spec b ∧ om_Name (drpc_Meta a) = om_Name (drpc_Meta b) ∧
  om_Namespace (drpc_Meta a) = om_Namespace (drpc_Meta b) ∧
  om_Generation (drpc_Meta a) = om_Generation (drpc_Meta b).

Definition in_sync (w : World) : Prop := same_identity (w_api_drpc w) (w_drpc w).

Definition base (w w' : World) : Prop :=
  w_tick w ≤ w_tick w' ∧ (in_sync w → in_sync w' ∧ same_identity (w_drpc w) (w_drpc w')).

Definition quiet (w w' : World) : Prop :=
  base w w' ∧ w_mws w' = w_mws w ∧ w_vrgs w' = w_vrgs w ∧
  w_placement w' = w_placement w ∧ w_api_rule w' = w_api_rule w ∧ w_pds w' = w_pds w.

Lemma same_identity_refl a : same_identity a a.
Proof. done. Qed.
Lemma same_identity_sym a b : same_identity a b → same_identity b a.
Proof. unfold same_identity. naive_solver. Qed.
Lemma same_identity_trans a b c : same_identity a b → same_identity b c → same_identity a c.
Proof. unfold same_identity. intuition congruence. Qed.

#[export] Instance base_preorder : PreOrder base.
Proof.
  split; [intros w; by split; [lia|]|].
  intros u v w [H1 H2] [H3 H4]. split; [lia|]. intros Hs.
  destruct (H2 Hs) as [Hv Ei]. destruct (H4 Hv). split; [done|]. by eapply same_identity_trans.
Qed.

#[export] Instance quiet_preorder : PreOrder quiet.
Proof.
  split; [intros w; split_and!; done || reflexivity|].
  intros u v w (?&?&?&?&?&?) (?&?&?&?&?&?).
  split_and!; [by etransitivity|congruence..].
Qed.

Lemma quiet_base w w' : quiet w w' → base w w'.
Proof. by intros [? _]. Qed.

Lemma quiet_intro w w' :
  w_tick w ≤ w_tick w' → (in_sync w → in_sync w' ∧ same_identity (w_drpc w) (w_drpc w')) →
  w_mws w' = w_mws w → w_vrgs w' = w_vrgs w → w_placement w' = w_placement w →
  w_api_rule w' = w_api_rule w → w_pds w' = w_pds w → quiet w w'.
Proof. unfold quiet, base. tauto. Qed.

(** A change of the DRPC in memory that keeps its identity, or of the clock,
    events and bookkeeping fields, is quiet. *)
Lemma quiet_drpc w f :
  (∀ d, same_identity d (f d)) → quiet w (w <| w_drpc ::= f |>).
Proof.
  intros Hf. apply quiet_intro; try done. intros Hs. split; [|apply Hf].
  unfold in_sync in *. simpl. eapply same_identity_trans; [done|apply Hf].
Qed.

Section quiet_calls.
Context `{Env}.

Lemma tick_quiet : preserves quiet tick.
Proof. intros w. apply quiet_intro; try done. simpl. lia. Qed.

#[local] Hint Resolve tick_quiet : quiet.

Lemma time_Now_quiet : preserves quiet time_Now.
Proof. unfold time_Now. quiet. Qed.

Lemma api_err_quiet : preserves quiet api_err.
Proof. unfold api_err. quiet. Qed.
#[local] Hint Resolve time_Now_quiet api_err_quiet : quiet.

Lemma GetVRGFromManagedCluster_quiet n ns c : preserves quiet (GetVRGFromManagedCluster n ns c).
Proof. unfold GetVRGFromManagedCluster. quiet. Qed.

Lemma range_map_quiet m : preserves quiet (range_map m).
Proof. unfold range_map. quiet. Qed.
#[local] Hint Resolve range_map_quiet : quiet.
Lemma range_vrgs_quiet : preserves quiet range_vrgs.
Proof. unfold range_vrgs. quiet. Qed.

Lemma modify_drpc_quiet f : (∀ d, same_identity d (f d)) → preserves quiet (modify_drpc f).
Proof. intros Hf w. by apply quiet_drpc. Qed.

Lemma modify_status_quiet f : preserves quiet (modify_status f).
Proof. by apply modify_drpc_quiet. Qed.
#[local] Hint Resolve modify_status_quiet : quiet.

Lemma Report_quiet t r m : preserves quiet (Report t r m).
Proof. unfold Report. quiet. apply preserves_modify. intros w. by apply quiet_intro. Qed.

Lemma setCondition_quiet t s r m : preserves quiet (setCondition t s r m).
Proof. unfold setCondition. quiet. Qed.

Lemma Update_drpc_quiet : preserves quiet Update_drpc.
Proof. unfold Update_drpc. quiet. apply preserves_modify. intros w. by apply quiet_intro. Qed.

Lemma Status_Update_drpc_quiet : preserves quiet Status_Update_drpc.
Proof.
  unfold Status_Update_drpc. quiet. apply preserves_modify. intros w. apply quiet_intro; try done.
  intros Hs. split; [done|]. by apply same_identity_sym.
Qed.

Lemma Get_mw_quiet n c : preserves quiet (Get_mw n c).
Proof. unfold Get_mw. quiet. Qed.
End quiet_calls.

#[export] Hint Resolve tick_quiet time_Now_quiet api_err_quiet GetVRGFromManagedCluster_quiet
  range_map_quiet range_vrgs_quiet modify_status_quiet Report_quiet setCondition_quiet Update_drpc_quiet
  Status_Update_drpc_quiet Get_mw_quiet : quiet.
