(* ===== verification/HubObjects.v ===== *)
(** * Objects on the hub: secrets and the policies that deliver them

    The hub delivers a secret to managed clusters by an OCM Policy, which embeds a
    ConfigurationPolicy with the secret's template, a PlacementRule, which lists the
    clusters, and a PlacementBinding between the two.  This file holds these objects,
    the state that has them next to the hub's, and the API calls on them; each call may
    fail, as in Hub.v. *)

From S2P Require Import Prelude Meta Names Conditions Api Telemetry Hub.

(** corev1.Secret and corev1.Namespace. *)
Record Secret := mkSecret {
  sec_Meta : ObjectMeta;
  sec_Data : gmap string string;
}.
#[export] Instance eta_Secret : Eta Secret := λ x, mkSecret (sec_Meta x) (sec_Data x).
#[export] Instance Secret_eq : EqDecision Secret.
Proof. solve_decision. Defined.

(** The type [localSecret] of util/secrets_util.go: a secret whose data are templates. *)
Record localSecret := mkLocalSecret {
  ls_Meta : ObjectMeta;
  ls_Data : gmap string string;
}.
#[export] Instance eta_localSecret : Eta localSecret := λ x, mkLocalSecret (ls_Meta x) (ls_Data x).
#[export] Instance localSecret_eq : EqDecision localSecret.
Proof. solve_decision. Defined.

(** cpcv1.ConfigurationPolicy: enforced, with one object that clusters must have. *)
Record ConfigurationPolicy := mkConfigurationPolicy {
  cp_Meta : ObjectMeta;
  cp_Severity : string;
  cp_Object : localSecret;
}.
#[export] Instance eta_ConfigurationPolicy : Eta ConfigurationPolicy := λ x,
  mkConfigurationPolicy (cp_Meta x) (cp_Severity x) (cp_Object x).
#[export] Instance ConfigurationPolicy_eq : EqDecision ConfigurationPolicy.
Proof. solve_decision. Defined.

(** gppv1.Policy: not disabled, with one template. *)
Record Policy := mkPolicy {
  pol_Meta : ObjectMeta;
  pol_RemediationAction : string;
  pol_Template : option ConfigurationPolicy;
}.
#[export] Instance eta_Policy : Eta Policy := λ x,
  mkPolicy (pol_Meta x) (pol_RemediationAction x) (pol_Template x).
#[export] Instance Policy_eq : EqDecision Policy.
Proof. solve_decision. Defined.

(** gppv1.Subject and gppv1.PlacementSubject. *)
Record Subject := mkSubject {
  sbj_APIGroup : string;
  sbj_Kind : string;
  sbj_Name : string;
}.
#[export] Instance Subject_eq : EqDecision Subject.
Proof. solve_decision. Defined.

Record PlacementBinding := mkPlacementBinding {
  plb_Meta : ObjectMeta;
  plb_PlacementRef : Subject;
  plb_Subjects : list Subject;
}.
#[export] Instance eta_PlacementBinding : Eta PlacementBinding := λ x,
  mkPlacementBinding (plb_Meta x) (plb_PlacementRef x) (plb_Subjects x).
#[export] Instance PlacementBinding_eq : EqDecision PlacementBinding.
Proof. solve_decision. Defined.

(** plrv1.PlacementRule: the types of its cluster conditions that must be true, and its
    clusters. *)
Record PlRule := mkPlRule {
  plr_Meta : ObjectMeta;
  plr_ClusterConditions : list string;
  plr_Clusters : list string;
}.
#[export] Instance eta_PlRule : Eta PlRule := λ x,
  mkPlRule (plr_Meta x) (plr_ClusterConditions x) (plr_Clusters x).
#[export] Instance PlRule_eq : EqDecision PlRule.
Proof. solve_decision. Defined.

(** ** The state *)

Abbreviation key := (string * string)%type.

Record ObjectStore := mkObjectStore {
  os_hub : World;
  os_namespaces : gmap key ObjectMeta;
  os_secrets : gmap key Secret;
  os_policies : gmap key Policy;
  os_bindings : gmap key PlacementBinding;
  os_rules : gmap key PlRule;
}.
#[export] Instance eta_ObjectStore : Eta ObjectStore := λ x,
  mkObjectStore (os_hub x) (os_namespaces x) (os_secrets x) (os_policies x) (os_bindings x) (os_rules x).

Abbreviation SOp := (M ObjectStore).

(** A call of the hub's. *)
Definition at_hub {A} (m : Op A) : SOp A := λ w,
  let r := m (os_hub w) in (r.1, w <| os_hub := r.2 |>).

(** The resource version the server gives an object that is written at a tick. *)
Class ServerVersions := env_resourceVersion : nat → string.

(** ** Calls

    [proj] is the kind's table and [meta] the object's metadata. *)

Definition meta_key (m : ObjectMeta) : key := (om_Namespace m, om_Name m).

Section calls.
Context `{Env} `{ServerVersions}.
Context {A : Type} (proj : ObjectStore → gmap key A) `{!Setter proj}.
Context (meta : A → ObjectMeta) (with_meta : (ObjectMeta → ObjectMeta) → A → A).

(** The server answers with the object of the requested name and namespace. *)
Definition Get (namespace name : string) : SOp (A + GoError) :=
  err? at_hub api_err then e => mret (inr e);
  table ← gets proj;
  mret (match table !! (namespace, name) with
        | Some x => inl (with_meta (λ m, m <| om_Namespace := namespace |> <| om_Name := name |>) x)
        | None => inr (not_found name)
        end).

Definition versioned (x : A) : SOp A :=
  t ← at_hub tick;
  mret (with_meta (λ m, m <| om_ResourceVersion := env_resourceVersion t |>) x).

Definition Create (x : A) : SOp (option GoError) :=
  err? at_hub api_err then e => mret (Some e);
  table ← gets proj;
  match table !! meta_key (meta x) with
  | Some _ => mret (Some (already_exists (om_Name (meta x))))
  | None =>
      x ← versioned x;
      modify (λ w, w <| proj ::= <[meta_key (meta x) := x]> |>);;
      mret None
  end.

(** The result is the object as written, which the client puts in the caller's.  An
    object that was waiting for its last finalizer to go is gone with it. *)
Definition Update (x : A) : SOp (A + GoError) :=
  err? at_hub api_err then e => mret (inr e);
  table ← gets proj;
  match table !! meta_key (meta x) with
  | None => mret (inr (not_found (om_Name (meta x))))
  | Some _ =>
      x ← versioned x;
      (if ResourceIsDeleted (meta x) && bool_decide (om_Finalizers (meta x) = [])
       then modify (λ w, w <| proj ::= delete (meta_key (meta x)) |>)
       else modify (λ w, w <| proj ::= <[meta_key (meta x) := x]> |>));;
      mret (inl x)
  end.

(** None of the objects the hub deletes has a finalizer. *)
Definition Delete (namespace name : string) : SOp (option GoError) :=
  err? at_hub api_err then e => mret (Some e);
  table ← gets proj;
  match table !! (namespace, name) with
  | None => mret (Some (not_found name))
  | Some _ => modify (λ w, w <| proj ::= delete (namespace, name) |>);; mret None
  end.

(** Errors that are no news. *)
Definition ignore (known : GoError → bool) (m : SOp (option GoError)) : SOp (option GoError) :=
  err ← m;
  mret (match err with Some e => if known e then None else Some e | None => None end).
End calls.

Section kinds.
Context `{Env} `{ServerVersions}.

Definition Get_secret := Get os_secrets (λ f x, x <| sec_Meta ::= f |>).
Definition Update_secret := Update os_secrets sec_Meta (λ f x, x <| sec_Meta ::= f |>).
Definition Create_secret := Create os_secrets sec_Meta (λ f x, x <| sec_Meta ::= f |>).
Definition Get_policy := Get os_policies (λ f x, x <| pol_Meta ::= f |>).
Definition Create_policy := Create os_policies pol_Meta (λ f x, x <| pol_Meta ::= f |>).
Definition Update_policy := Update os_policies pol_Meta (λ f x, x <| pol_Meta ::= f |>).
Definition Delete_policy := Delete os_policies.
Definition Get_binding := Get os_bindings (λ f x, x <| plb_Meta ::= f |>).
Definition Create_binding := Create os_bindings plb_Meta (λ f x, x <| plb_Meta ::= f |>).
Definition Update_binding := Update os_bindings plb_Meta (λ f x, x <| plb_Meta ::= f |>).
Definition Delete_binding := Delete os_bindings.
Definition Get_rule := Get os_rules (λ f x, x <| plr_Meta ::= f |>).
Definition Create_rule := Create os_rules plr_Meta (λ f x, x <| plr_Meta ::= f |>).
Definition Update_rule := Update os_rules plr_Meta (λ f x, x <| plr_Meta ::= f |>).
Definition Delete_rule := Delete os_rules.

(** ** Namespaces (util/misc.go) *)

Definition CreateNamespaceIfNotExists (namespace : string) : SOp (option GoError) :=
  r ← Get os_namespaces id "" namespace;
  match r with
  | inl _ => mret None
  | inr e =>
      if IsNotFound e
      then Create os_namespaces id id (AddLabel (named_meta namespace "") CreatedByRamenLabel "true").2
      else mret (Some e)
  end.
End kinds.
