(* ===== verification/Secrets.v ===== *)
(** * Delivering S3 secrets to clusters

    internal/controller/util/secrets_util.go: a secret of the hub is delivered to a
    cluster, in the format of Ramen or of Velero, by the policy resources of its name;
    [AddSecretToCluster] adds a cluster to them and creates them for the first,
    [RemoveSecretFromCluster] takes a cluster out and deletes them after the last. *)

From S2P Require Import Prelude Meta Names Conditions Api Telemetry Hub HubObjects.

Definition policyNameLengthLimit : nat := 63.
Definition secretPlRuleBaseName : string := "plrule".
Definition secretPlBindingBaseName : string := "plbinding".
Definition secretConfigPolicyBaseName : string := "cfg-policy".
Definition PolicyTriggerAnnotation : string := "policy.open-cluster-management.io/trigger-update".
Definition SecretPolicyFinalizer : string := "drpolicies.ramendr.openshift.io/policy-protection".
Definition VeleroSecretKeyNameDefault : string := "ramengenerated".

(** The two formats; the source panics on any other text. *)
Inductive TargetSecretFormat := SecretFormatRamen | SecretFormatVelero.
#[export] Instance TargetSecretFormat_eq : EqDecision TargetSecretFormat.
Proof. solve_decision. Defined.

Definition format_string (f : TargetSecretFormat) : string :=
  match f with SecretFormatRamen => "ramen" | SecretFormatVelero => "velero" end.

Definition formatPrefixLen : nat := 1.
Definition ramenFormatPrefix : string := "".
Definition veleroFormatPrefix : string := "v".

Definition policy_name (secret : string) (format : TargetSecretFormat) : string :=
  match format with
  | SecretFormatRamen => ramenFormatPrefix +:+ secret
  | SecretFormatVelero => veleroFormatPrefix +:+ secret
  end.

Definition generatePolicyPlacementName (secret : string) (format : TargetSecretFormat) : string :=
  secretPlRuleBaseName +:+ "-" +:+ policy_name secret format.

(** The policy, the binding, the rule and the embedded configuration policy. *)
Definition GeneratePolicyResourceNames (secret : string) (format : TargetSecretFormat)
    : string * string * string * string :=
  let policyName := policy_name secret format in
  (policyName, secretPlBindingBaseName +:+ "-" +:+ policyName, secretPlRuleBaseName +:+ "-" +:+ policyName,
   secretConfigPolicyBaseName +:+ "-" +:+ policyName).

Definition GenerateVeleroSecretName (sName : string) : string := veleroFormatPrefix +:+ sName.

Definition SecretFinalizer (format : TargetSecretFormat) : string :=
  match format with
  | SecretFormatRamen => SecretPolicyFinalizer
  | SecretFormatVelero => SecretPolicyFinalizer +:+ "-" +:+ format_string SecretFormatVelero
  end.

(** ** Objects *)

Definition add_label (key value : string) (m : ObjectMeta) : ObjectMeta := (AddLabel m key value).2.
Definition ramen_label : ObjectMeta → ObjectMeta := add_label CreatedByRamenLabel "true".

Definition newPlacementRuleBinding (name namespace placementRuleName : string) (subjects : list Subject)
    : PlacementBinding :=
  mkPlacementBinding (named_meta name namespace)
    (mkSubject "apps.open-cluster-management.io" "PlacementRule" placementRuleName) subjects.

Definition newPlacementRule (name namespace : string) (clusters : list string) : PlRule :=
  mkPlRule (named_meta name namespace) [] clusters.

(** A template that looks a key of a secret up on the hub. *)
Definition from_secret (namespace name key : string) : string :=
  "{{hub fromSecret " +:+ quoted namespace +:+ " " +:+ quoted name +:+ " " +:+ quoted key +:+ " hub}}".

Definition newS3ConfigurationSecret (name namespace targetns : string) : localSecret :=
  mkLocalSecret (ramen_label (named_meta name targetns))
    {["AWS_ACCESS_KEY_ID" := from_secret namespace name "AWS_ACCESS_KEY_ID";
      "AWS_SECRET_ACCESS_KEY" := from_secret namespace name "AWS_SECRET_ACCESS_KEY"]}.

(** A template that looks a key of a secret up on the cluster. *)
Definition lookup_secret (fromNS name key : string) : string :=
  "((lookup " +:+ quoted "v1" +:+ " " +:+ quoted "Secret" +:+ " " +:+ quoted fromNS +:+ " " +:+ quoted name +:+
  ").data." +:+ key +:+ " | base64dec)".

Definition newVeleroSecret (name fromNS veleroNS keyName : string) : localSecret :=
  mkLocalSecret (ramen_label (named_meta (GenerateVeleroSecretName name) veleroNS))
    {[keyName := "{{ (printf " +:+
       quoted "[default]\n  aws_access_key_id = %s\n  aws_secret_access_key = %s\n" +:+ " " +:+
       lookup_secret fromNS name "AWS_ACCESS_KEY_ID" +:+ " " +:+
       lookup_secret fromNS name "AWS_SECRET_ACCESS_KEY" +:+ ") | base64enc }}"]}.

Definition newConfigurationPolicy (name : string) (object : localSecret) : ConfigurationPolicy :=
  mkConfigurationPolicy (ramen_label (named_meta name "")) "high" object.

Definition newPolicy (name namespace triggerValue : string) (object : ConfigurationPolicy) : Policy :=
  mkPolicy (named_meta name namespace <| om_Annotations := {[PolicyTriggerAnnotation := triggerValue]} |>)
    "enforce" (Some object).

(** [policyObject] *)
Definition policyObject (secretName secretNS targetNS : string) (format : TargetSecretFormat) (veleroNS : string)
    : localSecret :=
  match format with
  | SecretFormatRamen => newS3ConfigurationSecret secretName secretNS targetNS
  | SecretFormatVelero => newVeleroSecret secretName targetNS veleroNS VeleroSecretKeyNameDefault
  end.

(** ** Operations *)

(** The loop of [inspectClusters]: whether the cluster is listed, and the list to keep. *)
Definition inspectClusters (clusters : list string) (cluster : string) (add : bool) : bool * list string :=
  if add && bool_decide (cluster ∈ clusters) then (true, clusters)
  else (bool_decide (cluster ∈ clusters), filter (.≠ cluster) clusters).

(** An assignment to an element of a nil map. *)
Definition panic_nil_map : GoError := Errorf "panic: assignment to entry in nil map" None.

Section operations.
Context `{Env} `{ServerVersions}.

Definition createPolicyResources (secret : Secret) (cluster namespace targetNS : string)
    (format : TargetSecretFormat) (veleroNS : string) : SOp (option GoError) :=
  let name := om_Name (sec_Meta secret) in
  let '(policyName, plBindingName, plRuleName, configPolicyName) := GeneratePolicyResourceNames name format in
  let failed what e := mret (wrapf ("unable to " +:+ what +:+ " (secret: " +:+ name +:+ ", cluster: " +:+ cluster +:+
                                    "): " +:+ error_text e) e) in
  let '(added, meta) := AddFinalizer (sec_Meta secret) (SecretFinalizer format) in
  get? secret := (if added then Update_secret (secret <| sec_Meta := meta |>) else mret (inl secret))
    then e => failed "add finalizer to secret" e;
  let subjects := [mkSubject "policy.open-cluster-management.io" "Policy" policyName] in
  let plRuleBindingObject :=
    newPlacementRuleBinding plBindingName namespace plRuleName subjects <| plb_Meta ::= ramen_label |> in
  err? ignore IsAlreadyExists (Create_binding plRuleBindingObject) then e => failed "create placement binding" e;
  let configObject := newConfigurationPolicy configPolicyName (policyObject name namespace targetNS format veleroNS)
                        <| cp_Meta ::= ramen_label |> in
  let policyObject := newPolicy policyName namespace (om_ResourceVersion (sec_Meta secret)) configObject
                        <| pol_Meta ::= ramen_label |> in
  err? ignore IsAlreadyExists (Create_policy policyObject) then e => failed "create policy" e;
  let plRuleObject := newPlacementRule plRuleName namespace [cluster] <| plr_Meta ::= ramen_label |> in
  err? ignore IsAlreadyExists (Create_rule plRuleObject) then e => failed "create placement rule" e;
  mret None.

Definition deletePolicyResources (secret : Secret) (namespace : string) (format : TargetSecretFormat)
    : SOp (option GoError) :=
  let name := om_Name (sec_Meta secret) in
  let '(policyName, plBindingName, plRuleName, _) := GeneratePolicyResourceNames name format in
  let failed what e := mret (wrapf ("unable to " +:+ what +:+ " (secret: " +:+ name +:+ "): " +:+ error_text e) e) in
  err? ignore IsNotFound (Delete_binding namespace plBindingName) then e => failed "delete placement binding" e;
  err? ignore IsNotFound (Delete_policy namespace policyName) then e => failed "delete policy" e;
  err? ignore IsNotFound (Delete_rule namespace plRuleName) then e => failed "delete placement rule" e;
  if bool_decide (SecretFinalizer format ∈ om_Finalizers (sec_Meta secret)) then
    get? secret := Update_secret (secret <| sec_Meta ::= λ m,
                     m <| om_Finalizers ::= filter (.≠ SecretFinalizer format) |> |>)
      then e => failed "remove finalizer from secret" e;
    mret None
  else mret None.

(** Whether the resources were deleted, and an error. *)
Definition updatePlacementRule (plRule : PlRule) (secret : Secret) (cluster namespace : string)
    (format : TargetSecretFormat) (add : bool) : SOp (bool * option GoError) :=
  let '(found, survivors) := inspectClusters (plr_Clusters plRule) cluster add in
  let update clusters :=
    r ← Update_rule (plRule <| plr_Clusters := clusters |>);
    mret (false, match r with
                 | inl _ => None
                 | inr e => wrapf ("unable to update placement rule (placementRule: " +:+ om_Name (plr_Meta plRule) +:+
                                   ", cluster: " +:+ cluster +:+ "): " +:+ error_text e) e
                 end) in
  if (add : bool) then
    if (found : bool) then mret (false, None) else update (plr_Clusters plRule ++ [cluster])
  else if bool_decide (length survivors = 0) then
    err ← deletePolicyResources secret namespace format;
    mret (true, err)
  else if negb found then mret (false, None)
  else update survivors.

(** The policy is looked up by the secret's name, whatever the format. *)
Definition ticklePolicy (secret : Secret) (namespace : string) : SOp (option GoError) :=
  let policyName := om_Name (sec_Meta secret) in
  let version := om_ResourceVersion (sec_Meta secret) in
  get? policyObject := Get_policy namespace policyName
    then e => mret (wrapf ("unable to get policy (secret: " +:+ policyName +:+ "): " +:+ error_text e) e);
  let annotations := om_Annotations (pol_Meta policyObject) in
  if bool_decide (annotations !! PolicyTriggerAnnotation = Some version) then mret None
  else if bool_decide (annotations = ∅) then mret (Some panic_nil_map)
  else
    get? updated := Update_policy (policyObject <| pol_Meta ::= λ m,
                      m <| om_Annotations ::= <[PolicyTriggerAnnotation := version]> |> |>)
      then e => mret (wrapf ("unable to trigger policy update (secret: " +:+ policyName +:+ "): " +:+ error_text e) e);
    mret None.

Definition updatePolicyResources (plRule : PlRule) (secret : Secret) (cluster namespace : string)
    (format : TargetSecretFormat) (add : bool) : SOp (option GoError) :=
  r ← updatePlacementRule plRule secret cluster namespace format add;
  match r with
  | (_, Some e) => mret (Some e)
  | (deleted, None) => if (deleted : bool) then mret None else ticklePolicy secret namespace
  end.

(** The return of a deleted or missing secret: its policy is cleaned up. *)
Definition cleanup_policy (secret : Secret) (namespace : string) (format : TargetSecretFormat)
    : SOp (option Secret + GoError) :=
  err? deletePolicyResources secret namespace format then e => mret (inr e);
  mret (inl None).

(** The secret, [inl None] when it is gone or going. *)
Definition ensureS3SecretResources (secretName namespace : string) (format : TargetSecretFormat)
    : SOp (option Secret + GoError) :=
  r ← Get_secret namespace secretName;
  match r with
  | inr e => if IsNotFound e then cleanup_policy (mkSecret (named_meta secretName "") ∅) namespace format
             else mret (inr (Errorf ("failed to get secret object: " +:+ error_text e) (Some e)))
  | inl secret => if ResourceIsDeleted (sec_Meta secret) then cleanup_policy secret namespace format else mret (inl (Some secret))
  end.

Definition AddSecretToCluster (secretName clusterName namespace targetNS : string) (format : TargetSecretFormat)
    (veleroNS : string) : SOp (option GoError) :=
  if bool_decide (policyNameLengthLimit <
                  String.length secretName + String.length namespace + String.length "." + formatPrefixLen)
  then mret (errorf ("secret namespace.name (" +:+ secretName +:+ "." +:+ namespace +:+
                     ") length exceeds maximum character limit (63)"))
  else if bool_decide (format = SecretFormatVelero) && bool_decide (veleroNS = "")
  then mret (errorf "requested format (velero) requires a target namespace")
  else
    get? secret := ensureS3SecretResources secretName namespace format then e => mret (Some e);
    match secret with
    | None => mret (errorf ("failed to find secret (secret: " +:+ secretName +:+ ", cluster: " +:+ clusterName +:+ ")"))
    | Some secret =>
        r ← Get_rule namespace (generatePolicyPlacementName secretName format);
        match r with
        | inr e =>
            if IsNotFound e then createPolicyResources secret clusterName namespace targetNS format veleroNS
            else mret (wrapf ("failed to get placementRule object: " +:+ error_text e) e)
        | inl plRule => updatePolicyResources plRule secret clusterName namespace format true
        end
    end.

Definition RemoveSecretFromCluster (secretName clusterName namespace : string) (format : TargetSecretFormat)
    : SOp (option GoError) :=
  get? secret := ensureS3SecretResources secretName namespace format then e => mret (Some e);
  match secret with
  | None => mret None
  | Some secret =>
      r ← Get_rule namespace (generatePolicyPlacementName secretName format);
      match r with
      | inr e =>
          if IsNotFound e then deletePolicyResources secret namespace format
          else mret (wrapf ("failed to get placementRule object: " +:+ error_text e) e)
      | inl plRule => updatePolicyResources plRule secret clusterName namespace format false
      end
  end.
End operations.
