(* ===== verification/SecretsSpec.v ===== *)
(** * What the secret operations do

    A secret is delivered to a cluster when the rule of its policy lists the cluster and
    the policy and the binding exist.  An addition that succeeds delivers, and takes
    nothing from other clusters; a removal takes nothing but its own cluster, whether it
    succeeds or not.  A binding that an interrupted removal has deleted is not created
    again. *)

From S2P Require Import Prelude Meta Names Conditions Api Hub HubObjects Secrets.

(** The environment's errors are those of a server or network in trouble, never an answer
    about the object. *)
Definition truthful `{Env} : Prop :=
  ∀ t e, env_api_err t = Some e → IsNotFound e = false ∧ IsAlreadyExists e = false.

(** ** Calls *)

(** A state after calls that changed no object of the store. *)
Definition ticked (w w' : ObjectStore) : Prop := ∃ h, w' = w <| os_hub := h |>.

Section calls.
Context `{Env} `{ServerVersions}.
Context {A : Type} (proj : ObjectStore → gmap key A) `{!Setter proj}.
Context (meta : A → ObjectMeta) (with_meta : (ObjectMeta → ObjectMeta) → A → A).
Hypothesis proj_hub : ∀ w h, proj (w <| os_hub := h |>) = proj w.
Hypothesis meta_with : ∀ f x, meta (with_meta f x) = f (meta x).

Lemma at_hub_run {B} (m : Op B) w : at_hub m w = ((m (os_hub w)).1, w <| os_hub := (m (os_hub w)).2 |>).
Proof. done. Qed.

Lemma api_call_run {B} (r : GoError → SOp B) (k : SOp B) w :
  ∃ w1, ticked w w1 ∧
    ((∃ t e, env_api_err t = Some e ∧ (err? at_hub api_err then e => r e; k) w = r e w1) ∨
     (err? at_hub api_err then e => r e; k) w = k w1).
Proof.
  rewrite or_return_run, at_hub_run. cbn [fst snd]. eexists. split; [by eexists|].
  destruct (api_err (os_hub w)).1 as [e|] eqn:E; [left|by right]. exists (w_tick (os_hub w)), e. by split.
Qed.

Lemma Get_run ns n w :
  let r := Get proj with_meta ns n w in
  ticked w r.2 ∧
  match r.1 with
  | inl x => ∃ y, proj w !! (ns, n) = Some y ∧ x = with_meta (λ m, m <| om_Namespace := ns |> <| om_Name := n |>) y
  | inr e => proj w !! (ns, n) = None ∨ ∃ t, env_api_err t = Some e
  end.
Proof.
  cbv zeta. unfold Get.
  destruct (api_call_run (λ e, mret (inr e))
    (table ← gets proj; mret (match table !! (ns, n) with
       | Some x => inl (with_meta (λ m, m <| om_Namespace := ns |> <| om_Name := n |>) x)
       | None => inr (not_found n) end)) w) as (w1 & Ht & [(t & e & He & ->)| ->]); cbn [fst snd mret M_ret].
  - split; [done|]. right. by exists t.
  - rewrite run_bind. cbn [gets fst snd mret M_ret]. split; [done|]. destruct Ht as [h ->]. rewrite proj_hub.
    destruct (proj w !! (ns, n)) as [y|] eqn:E; [by exists y|by left].
Qed.

Definition with_version (v : string) (x : A) : A := with_meta (λ m, m <| om_ResourceVersion := v |>) x.

Lemma with_version_key v x : meta_key (meta (with_version v x)) = meta_key (meta x).
Proof. unfold with_version. by rewrite meta_with. Qed.

Lemma versioned_run x w : ∃ v w1, ticked w w1 ∧ versioned with_meta x w = (with_version v x, w1).
Proof. unfold versioned. rewrite run_bind. eexists _, _. split; [|reflexivity]. by eexists. Qed.

Lemma ticked_trans w1 w2 w3 : ticked w1 w2 → ticked w2 w3 → ticked w1 w3.
Proof. intros [h ->] [h' ->]. by exists h'. Qed.

(** A creation that failed changed nothing; one that did not put the object where there
    was none. *)
Lemma Create_run x w :
  let r := Create proj meta with_meta x w in
  match r.1 with
  | None => proj w !! meta_key (meta x) = None ∧
            ∃ w1 v, ticked w w1 ∧ r.2 = w1 <| proj ::= <[meta_key (meta x) := with_version v x]> |>
  | Some e => ticked w r.2 ∧ (is_Some (proj w !! meta_key (meta x)) ∨ ∃ t, env_api_err t = Some e)
  end.
Proof.
  cbv zeta. unfold Create.
  match goal with |- context [or_return _ ?r ?k w] =>
    destruct (api_call_run r k w) as (w1 & Ht & [(t & e & He & ->)| ->]) end; cbn [fst snd mret M_ret].
  { split; [done|]. right. by exists t. }
  rewrite run_bind. cbn [gets fst snd]. assert (Ep : proj w1 = proj w) by (destruct Ht as [h ->]; apply proj_hub). rewrite Ep.
  destruct (proj w !! meta_key (meta x)) eqn:E; cbn [fst snd mret M_ret].
  { split; [done|]. by left. }
  rewrite run_bind. destruct (versioned_run x w1) as (v & w2 & Ht2 & Ev). rewrite Ev. cbn [fst snd].
  rewrite run_bind. cbn [modify fst snd mret M_ret]. split; [done|]. rewrite with_version_key.
  exists w2, v. split; [by eapply ticked_trans|done].
Qed.

Lemma Update_run x w :
  let r := Update proj meta with_meta x w in
  match r.1 with
  | inl y => is_Some (proj w !! meta_key (meta x)) ∧
             ∃ w1 v, ticked w w1 ∧ y = with_version v x ∧
               r.2 = (if ResourceIsDeleted (meta x) && bool_decide (om_Finalizers (meta x) = [])
                      then w1 <| proj ::= delete (meta_key (meta x)) |>
                      else w1 <| proj ::= <[meta_key (meta x) := with_version v x]> |>)
  | inr e => ticked w r.2
  end.
Proof.
  cbv zeta. unfold Update.
  match goal with |- context [or_return _ ?r ?k w] =>
    destruct (api_call_run r k w) as (w1 & Ht & [(t & e & He & ->)| ->]) end; cbn [fst snd mret M_ret]; [done|].
  rewrite run_bind. cbn [gets fst snd]. assert (Ep : proj w1 = proj w) by (destruct Ht as [h ->]; apply proj_hub). rewrite Ep.
  destruct (proj w !! meta_key (meta x)) eqn:E; cbn [fst snd mret M_ret]; [|done].
  rewrite run_bind. destruct (versioned_run x w1) as (v & w2 & Ht2 & Ev). rewrite Ev. cbn [fst snd].
  rewrite run_bind, with_version_key. cbn [fst snd mret M_ret].
  split; [done|]. exists w2, v. split; [by eapply ticked_trans|]. split; [done|].
  unfold with_version. rewrite meta_with. cbn. by destruct (_ && _).
Qed.

Lemma Delete_run ns n w :
  let r := Delete proj ns n w in
  match r.1 with
  | None => ∃ w1, ticked w w1 ∧ r.2 = w1 <| proj ::= delete (ns, n) |>
  | Some e => ticked w r.2 ∧ (proj w !! (ns, n) = None ∨ ∃ t, env_api_err t = Some e)
  end.
Proof.
  cbv zeta. unfold Delete.
  match goal with |- context [or_return _ ?r ?k w] =>
    destruct (api_call_run r k w) as (w1 & Ht & [(t & e & He & ->)| ->]) end; cbn [fst snd mret M_ret].
  { split; [done|]. right. by exists t. }
  rewrite run_bind. cbn [gets fst snd]. assert (Ep : proj w1 = proj w) by (destruct Ht as [h ->]; apply proj_hub). rewrite Ep.
  destruct (proj w !! (ns, n)) eqn:E; cbn [fst snd mret M_ret].
  - rewrite run_bind. cbn [modify fst snd mret M_ret]. by exists w1.
  - split; [done|]. by left.
Qed.
End calls.

(** ** Delivery *)

Definition rule_key (ns p : string) : key := (ns, secretPlRuleBaseName +:+ "-" +:+ p).
Definition binding_key (ns p : string) : key := (ns, secretPlBindingBaseName +:+ "-" +:+ p).

(** The secret exists and is not being deleted; likewise a policy. *)
Definition live (ns s : string) (w : ObjectStore) : Prop :=
  ∃ x, os_secrets w !! (ns, s) = Some x ∧ ResourceIsDeleted (sec_Meta x) = false.
Definition live_policy (ns p : string) (w : ObjectStore) : Prop :=
  ∃ x, os_policies w !! (ns, p) = Some x ∧ ResourceIsDeleted (pol_Meta x) = false.

(** The policy named [p] delivers its secret to a cluster. *)
Definition delivered (ns p c : string) (w : ObjectStore) : Prop :=
  (∃ r, os_rules w !! rule_key ns p = Some r ∧ ResourceIsDeleted (plr_Meta r) = false ∧ c ∈ plr_Clusters r) ∧
  live_policy ns p w ∧ is_Some (os_bindings w !! binding_key ns p).

(** Nothing is taken from the resources of a policy name. *)
Definition kept (ns p : string) (w w' : ObjectStore) : Prop :=
  (∀ r, os_rules w !! rule_key ns p = Some r → os_rules w' !! rule_key ns p = Some r) ∧
  (live_policy ns p w → live_policy ns p w') ∧
  (is_Some (os_bindings w !! binding_key ns p) → is_Some (os_bindings w' !! binding_key ns p)).

#[export] Instance kept_preorder ns p : PreOrder (kept ns p).
Proof. split; [by intros w|]. intros x y z (a & b & c) (a' & b' & c'). repeat split; auto. Qed.

Lemma kept_delivered ns p c w w' : kept ns p w w' → delivered ns p c w → delivered ns p c w'.
Proof. intros (Hr & Hp & Hb) ((r & Er & Hd & Hc) & Hl & Hbi). split; [|by auto]. exists r. auto. Qed.

Lemma ticked_kept ns p w w' : ticked w w' → kept ns p w w'.
Proof. intros [h ->]. by repeat split. Qed.

Lemma rule_key_inj ns p q : rule_key ns p = rule_key ns q → p = q.
Proof. unfold rule_key. intros [= E]. done. Qed.
Lemma binding_key_inj ns p q : binding_key ns p = binding_key ns q → p = q.
Proof. unfold binding_key. intros [= E]. done. Qed.

Section kept_calls.
Context `{Env} `{ServerVersions}.
Context (ns p : string).

Lemma Get_secret_ticked n s w : ticked w (Get_secret n s w).2.
Proof. apply (Get_run os_secrets). done. Qed.
Lemma Get_rule_ticked n s w : ticked w (Get_rule n s w).2.
Proof. apply (Get_run os_rules). done. Qed.

Lemma preserves_ignore R `{!PreOrder R} known (m : SOp (option GoError)) : preserves R m → preserves R (ignore known m).
Proof. intros Hm. unfold ignore. apply preserves_bind; [done|done|]. intros e. by apply preserves_ret. Qed.

(** Creation takes nothing. *)
Lemma Create_rule_kept x : preserves (kept ns p) (Create_rule x).
Proof.
  intros w. pose proof (Create_run os_rules plr_Meta (λ f x, x <| plr_Meta ::= f |>) ltac:(done) ltac:(done) x w) as Hr.
  cbv zeta in Hr. fold (Create_rule x w) in Hr.
  destruct (Create_rule x w).1; [destruct Hr as [[h E] _]|destruct Hr as (Hn & w1 & v & [h E] & E2)].
  - rewrite E. by repeat split.
  - rewrite E2, E. repeat split; try done. cbn. intros r Hl.
    rewrite lookup_insert_ne; [done|]. intros Ek. rewrite Ek in Hn. congruence.
Qed.

Lemma Create_policy_kept x : preserves (kept ns p) (Create_policy x).
Proof.
  intros w. pose proof (Create_run os_policies pol_Meta (λ f x, x <| pol_Meta ::= f |>) ltac:(done) ltac:(done) x w) as Hr.
  cbv zeta in Hr. fold (Create_policy x w) in Hr.
  destruct (Create_policy x w).1; [destruct Hr as [[h E] _]|destruct Hr as (Hn & w1 & v & [h E] & E2)].
  - rewrite E. by repeat split.
  - rewrite E2, E. repeat split; try done. intros (y & Hl & Hd). exists y. split; [|done]. cbn.
    rewrite lookup_insert_ne; [done|]. intros Ek. rewrite Ek in Hn. congruence.
Qed.

Lemma Create_binding_kept x : preserves (kept ns p) (Create_binding x).
Proof.
  intros w. pose proof (Create_run os_bindings plb_Meta (λ f x, x <| plb_Meta ::= f |>) ltac:(done) ltac:(done) x w) as Hr.
  cbv zeta in Hr. fold (Create_binding x w) in Hr.
  destruct (Create_binding x w).1; [destruct Hr as [[h E] _]|destruct Hr as (Hn & w1 & v & [h E] & E2)].
  - rewrite E. by repeat split.
  - rewrite E2, E. repeat split; try done. cbn. intros Hl. by apply lookup_insert_is_Some'; right.
Qed.

Lemma Update_secret_kept x : preserves (kept ns p) (Update_secret x).
Proof.
  intros w. pose proof (Update_run os_secrets sec_Meta (λ f x, x <| sec_Meta ::= f |>) ltac:(done) ltac:(done) x w) as Hr.
  cbv zeta in Hr. fold (Update_secret x w) in Hr.
  destruct (Update_secret x w).1; [destruct Hr as (Hn & w1 & v & [h E] & _ & E2)|by apply ticked_kept].
  rewrite E2, E. by case_match.
Qed.

(** An update of another's rule, a deletion of another's resources. *)
Lemma Update_rule_kept x : meta_key (plr_Meta x) ≠ rule_key ns p → preserves (kept ns p) (Update_rule x).
Proof.
  intros Hk w. pose proof (Update_run os_rules plr_Meta (λ f x, x <| plr_Meta ::= f |>) ltac:(done) ltac:(done) x w) as Hr.
  cbv zeta in Hr. fold (Update_rule x w) in Hr.
  destruct (Update_rule x w).1; [destruct Hr as (Hn & w1 & v & [h E] & _ & E2)|by apply ticked_kept].
  rewrite E2, E. case_match; repeat split; try done; cbn; intros r Hl.
  - by rewrite lookup_delete_ne.
  - by rewrite lookup_insert_ne.
Qed.

(** An update of a policy that is not being deleted keeps it so. *)
Lemma Update_policy_kept x w :
  (live_policy ns p w → ResourceIsDeleted (pol_Meta x) = false ∨ meta_key (pol_Meta x) ≠ (ns, p)) →
  kept ns p w (Update_policy x w).2.
Proof.
  intros Hd. pose proof (Update_run os_policies pol_Meta (λ f x, x <| pol_Meta ::= f |>) ltac:(done) ltac:(done) x w) as Hr.
  cbv zeta in Hr. fold (Update_policy x w) in Hr.
  destruct (Update_policy x w).1; [destruct Hr as (Hn & w1 & v & [h E] & _ & E2)|by apply ticked_kept].
  rewrite E2, E. clear E2. split; [by case_match|]. split; [|by case_match].
  intros Hl. destruct (Hd Hl) as [Hx|Hne]; destruct Hl as (y & Hl & Hy).
  - rewrite Hx. unfold live_policy. cbn.
    destruct (decide (meta_key (pol_Meta x) = (ns, p))) as [->|Hne].
    + eexists. rewrite lookup_insert_eq. split; [done|]. by cbn.
    + exists y. by rewrite lookup_insert_ne.
  - case_match; exists y; (split; [|done]); cbn.
    + by rewrite lookup_delete_ne.
    + by rewrite lookup_insert_ne.
Qed.

Lemma Delete_rule_kept n : (ns, n) ≠ rule_key ns p → preserves (kept ns p) (Delete_rule ns n).
Proof.
  intros Hk w. pose proof (Delete_run os_rules ltac:(done) ns n w) as Hr. cbv zeta in Hr. fold (Delete_rule ns n w) in Hr.
  destruct (Delete_rule ns n w).1; [destruct Hr as [Ht _]; by apply ticked_kept|destruct Hr as (w1 & [h E] & E2)].
  rewrite E2, E. repeat split; try done. cbn. intros r Hl. by rewrite lookup_delete_ne.
Qed.

Lemma Delete_binding_kept n : (ns, n) ≠ binding_key ns p → preserves (kept ns p) (Delete_binding ns n).
Proof.
  intros Hk w. pose proof (Delete_run os_bindings ltac:(done) ns n w) as Hr. cbv zeta in Hr.
  fold (Delete_binding ns n w) in Hr.
  destruct (Delete_binding ns n w).1; [destruct Hr as [Ht _]; by apply ticked_kept|destruct Hr as (w1 & [h E] & E2)].
  rewrite E2, E. repeat split; try done. cbn. intros Hl. by rewrite lookup_delete_ne.
Qed.

Lemma Delete_policy_kept n : n ≠ p → preserves (kept ns p) (Delete_policy ns n).
Proof.
  intros Hk w. pose proof (Delete_run os_policies ltac:(done) ns n w) as Hr. cbv zeta in Hr.
  fold (Delete_policy ns n w) in Hr.
  destruct (Delete_policy ns n w).1; [destruct Hr as [Ht _]; by apply ticked_kept|destruct Hr as (w1 & [h E] & E2)].
  rewrite E2, E. repeat split; try done. intros (y & Hl & Hy). exists y. split; [|done]. cbn.
  rewrite lookup_delete_ne; [done|]. congruence.
Qed.
End kept_calls.

Create HintDb deliver.
#[export] Hint Resolve Create_rule_kept Create_policy_kept Create_binding_kept Update_secret_kept : deliver.

(** The steps of a body that returns at the first error. *)
Ltac keeps_step :=
  lazymatch goal with
  | |- preserves _ (ignore _ _) => apply preserves_ignore; [apply _|]
  | |- preserves _ (or_return _ _ _) => apply preserves_or_return; [apply _| |intros ?|]
  | |- preserves _ (result_or_return _ _ _) => apply preserves_result_or_return; [apply _| |intros ?|intros ?]
  | |- preserves _ (mret _) => apply preserves_ret; apply _
  | |- preserves _ (if ?b then _ else _) => destruct b
  | |- _ => solve [eauto with deliver]
  end.
Ltac keeps := repeat keeps_step.

Section operations.
Context `{Env} `{ServerVersions}.
Context (ns : string).

Lemma deletePolicyResources_kept p secret f :
  policy_name (om_Name (sec_Meta secret)) f ≠ p → preserves (kept ns p) (deletePolicyResources secret ns f).
Proof.
  intros Hp. unfold deletePolicyResources. cbn [GeneratePolicyResourceNames]. keeps.
  - apply Delete_binding_kept. by intros E%(binding_key_inj ns).
  - by apply Delete_policy_kept.
  - apply Delete_rule_kept. by intros E%(rule_key_inj ns).
Qed.

Lemma createPolicyResources_kept p secret c t f v : preserves (kept ns p) (createPolicyResources secret c ns t f v).
Proof.
  unfold createPolicyResources. cbn [GeneratePolicyResourceNames]. destruct (AddFinalizer _ _) as [[] m]; keeps.
Qed.

Lemma ticklePolicy_kept p secret : preserves (kept ns p) (ticklePolicy secret ns).
Proof.
  intros w. unfold ticklePolicy. rewrite result_or_return_run.
  pose proof (Get_run os_policies (λ f x, x <| pol_Meta ::= f |>) ltac:(done) ns (om_Name (sec_Meta secret)) w) as [Ht Hg].
  fold Get_policy in Ht, Hg. set (g := Get_policy ns (om_Name (sec_Meta secret)) w) in *. clearbody g.
  trans g.2; [by apply ticked_kept|]. destruct g.1 as [x|e]; [|done]. destruct Hg as (y & Ey & ->).
  case_bool_decide; [done|]. case_bool_decide; [done|].
  rewrite result_or_return_run. set (z := _ <| pol_Meta ::= _ |>).
  trans (Update_policy z g.2).2; [|by case_match].
  apply Update_policy_kept. intros (q & Eq & Hq). destruct Ht as [h Eh]. rewrite Eh in Eq. cbn in Eq.
  destruct (decide (om_Name (sec_Meta secret) = p)) as [Ep|Hne]; [left|right].
  - rewrite Ep in Ey. simplify_eq. done.
  - unfold z, meta_key. cbn. by intros [= E].
Qed.

Lemma updatePlacementRule_kept p plRule secret c f add :
  policy_name (om_Name (sec_Meta secret)) f ≠ p → meta_key (plr_Meta plRule) ≠ rule_key ns p →
  preserves (kept ns p) (updatePlacementRule plRule secret c ns f add).
Proof.
  intros Hp Hk. unfold updatePlacementRule. destruct (inspectClusters _ _ _) as [found survivors].
  assert (Hu : ∀ l, preserves (kept ns p) (Update_rule (plRule <| plr_Clusters := l |>)))
    by (intros l; by apply Update_rule_kept).
  destruct add.
  - destruct found; [keeps|]. apply preserves_bind; [apply _|by apply Hu|]. intros r. keeps.
  - case_bool_decide.
    + apply preserves_bind; [apply _|by apply deletePolicyResources_kept|]. intros r. keeps.
    + destruct found; cbn [negb]; [|keeps]. apply preserves_bind; [apply _|by apply Hu|]. intros r. keeps.
Qed.

Lemma updatePolicyResources_kept p plRule secret c f add :
  policy_name (om_Name (sec_Meta secret)) f ≠ p → meta_key (plr_Meta plRule) ≠ rule_key ns p →
  preserves (kept ns p) (updatePolicyResources plRule secret c ns f add).
Proof.
  intros Hp Hk. unfold updatePolicyResources. apply preserves_bind; [apply _|by apply updatePlacementRule_kept|].
  intros [[] [e|]]; keeps. apply ticklePolicy_kept.
Qed.

(** What the read of the secret does: nothing, or the resources are deleted since the
    secret is gone, is going or is said to be missing. *)
Lemma ensureS3SecretResources_run s f w :
  let r := ensureS3SecretResources s ns f w in
  (∃ y, r.1 = inl (Some (y <| sec_Meta ::= λ m, m <| om_Namespace := ns |> <| om_Name := s |> |>)) ∧ ticked w r.2 ∧
        os_secrets w !! (ns, s) = Some y ∧ ResourceIsDeleted (sec_Meta y) = false) ∨
  ((∀ x, r.1 ≠ inl (Some x)) ∧
   (ticked w r.2 ∨
    ∃ x w1, om_Name (sec_Meta x) = s ∧ ticked w w1 ∧ r.2 = (deletePolicyResources x ns f w1).2 ∧
            (truthful → ¬ live ns s w))).
Proof.
  cbv zeta. unfold ensureS3SecretResources. rewrite run_bind.
  pose proof (Get_run os_secrets (λ f x, x <| sec_Meta ::= f |>) ltac:(done) ns s w) as [Ht Hg].
  fold Get_secret in Ht, Hg. set (g := Get_secret ns s w) in *. clearbody g.
  assert (Hc : ∀ x, (∀ z, (cleanup_policy x ns f g.2).1 ≠ inl (Some z)) ∧
      (cleanup_policy x ns f g.2).2 = (deletePolicyResources x ns f g.2).2).
  { intros x. unfold cleanup_policy. rewrite or_return_run. destruct (deletePolicyResources _ _ _ _).1; by split. }
  destruct g.1 as [x|e] eqn:Eg.
  - destruct Hg as (y & Ey & Ex).
    assert (Hx : ResourceIsDeleted (sec_Meta x) = ResourceIsDeleted (sec_Meta y)) by (by rewrite Ex).
    assert (Hn : om_Name (sec_Meta x) = s) by (by rewrite Ex). rewrite Hx.
    destruct (ResourceIsDeleted (sec_Meta y)) eqn:Hd.
    + right. destruct (Hc x) as [Hc1 Hc2]. rewrite Hc2. split; [done|].
      right. exists x, g.2. repeat split; [done..|]. intros _ (y' & Ey' & Hy'). congruence.
    + left. exists y. by rewrite <- Ex.
  - right. destruct (IsNotFound e) eqn:En.
    + set (x := mkSecret _ _). destruct (Hc x) as [Hc1 Hc2]. rewrite Hc2. split; [done|]. right. exists x, g.2.
      repeat split; [done|]. intros HT (y & Ey & _). destruct Hg as [|[t Het]]; [congruence|].
      destruct (HT t e Het). congruence.
    + split; [done|]. by left.
Qed.

(** ** Removal *)

Lemma RemoveSecret_other s c f p w : policy_name s f ≠ p → kept ns p w (RemoveSecretFromCluster s c ns f w).2.
Proof.
  intros Hp. unfold RemoveSecretFromCluster. rewrite result_or_return_run.
  pose proof (ensureS3SecretResources_run s f w) as He. cbv zeta in He.
  set (r := ensureS3SecretResources s ns f w) in *. clearbody r.
  destruct He as [(y & E1 & Ht & Ey & Hd)|(Hn & He)].
  - rewrite E1. trans r.2; [by apply ticked_kept|]. set (x := y <| sec_Meta ::= _ |>).
    rewrite run_bind. trans (Get_rule ns (generatePolicyPlacementName s f) r.2).2; [apply ticked_kept, Get_rule_ticked|].
    pose proof (Get_run os_rules (λ f x, x <| plr_Meta ::= f |>) ltac:(done) ns (generatePolicyPlacementName s f) r.2)
      as [_ Hg]. fold Get_rule in Hg. destruct (Get_rule _ _ _).1 as [rule|e].
    + destruct Hg as (z & _ & ->). apply updatePolicyResources_kept; [done|]. by intros E%(rule_key_inj ns).
    + destruct (IsNotFound e); [|done]. by apply deletePolicyResources_kept.
  - trans r.2; [|destruct r.1 as [[x|]|e]; [by destruct (Hn x)|done..]].
    destruct He as [Ht|(x & w1 & Hx & Ht & -> & _)]; [by apply ticked_kept|].
    trans w1; [by apply ticked_kept|]. apply deletePolicyResources_kept. by rewrite Hx.
Qed.

(** An update of the rule keeps what the new list has. *)
Lemma Update_rule_delivered p c x w :
  meta_key (plr_Meta x) = rule_key ns p → ResourceIsDeleted (plr_Meta x) = false → c ∈ plr_Clusters x →
  live_policy ns p w → is_Some (os_bindings w !! binding_key ns p) →
  match (Update_rule x w).1 with
  | inl _ => delivered ns p c (Update_rule x w).2
  | inr _ => ticked w (Update_rule x w).2
  end.
Proof.
  intros Hk Hd Hc Hl Hb.
  pose proof (Update_run os_rules plr_Meta (λ f x, x <| plr_Meta ::= f |>) ltac:(done) ltac:(done) x w) as Hr.
  cbv zeta in Hr. fold (Update_rule x w) in Hr.
  destruct (Update_rule x w).1; [|done]. destruct Hr as (Hn & w1 & v & [h E] & _ & E2).
  rewrite E2, E, Hd, Hk. split; [|done]. eexists. cbn. rewrite lookup_insert_eq. done.
Qed.

Lemma inspectClusters_survivor clusters c c' :
  c' ∈ clusters → c' ≠ c → c' ∈ (inspectClusters clusters c false).2 ∧ length (inspectClusters clusters c false).2 ≠ 0.
Proof.
  intros Hc Hne. unfold inspectClusters. cbn [andb snd].
  assert (Hin : c' ∈ filter (.≠ c) clusters) by by apply list_elem_of_filter. split; [done|].
  intros E%nil_length_inv. rewrite E in Hin. by apply elem_of_nil in Hin.
Qed.

Lemma updatePlacementRule_delivered p c c' x secret f add w :
  meta_key (plr_Meta x) = rule_key ns p → ResourceIsDeleted (plr_Meta x) = false → c' ∈ plr_Clusters x →
  add = true ∨ c' ≠ c → delivered ns p c' w →
  delivered ns p c' (updatePlacementRule x secret c ns f add w).2.
Proof.
  intros Hk Hd Hc Hadd Hw. unfold updatePlacementRule.
  destruct (inspectClusters (plr_Clusters x) c add) as [found survivors] eqn:Ei.
  assert (Hu : ∀ l, c' ∈ l → delivered ns p c' (Update_rule (x <| plr_Clusters := l |>) w).2).
  { intros l Hl. set (x' := x <| plr_Clusters := l |>). destruct Hw as (Hr & Hp & Hb).
    assert (Hu : match (Update_rule x' w).1 with inl _ => delivered ns p c' (Update_rule x' w).2
                 | inr _ => ticked w (Update_rule x' w).2 end) by by apply Update_rule_delivered.
    destruct (Update_rule _ w).1; [done|].
    eapply kept_delivered; [by apply ticked_kept|done]. }
  destruct add.
  - destruct found; [done|]. rewrite run_bind. cbn [snd mret M_ret]. apply Hu. set_solver.
  - destruct Hadd as [|Hne]; [done|]. destruct (inspectClusters_survivor _ c c' Hc Hne) as [Hin Hlen].
    rewrite Ei in Hin, Hlen. cbn [snd] in Hin, Hlen. rewrite bool_decide_false by done.
    destruct found; cbn [negb]; [|done]. rewrite run_bind. cbn [snd mret M_ret]. by apply Hu.
Qed.

Lemma updatePolicyResources_delivered p c c' x secret f add w :
  meta_key (plr_Meta x) = rule_key ns p → ResourceIsDeleted (plr_Meta x) = false → c' ∈ plr_Clusters x →
  add = true ∨ c' ≠ c → delivered ns p c' w →
  delivered ns p c' (updatePolicyResources x secret c ns f add w).2.
Proof.
  intros Hk Hd Hc Hadd Hw. unfold updatePolicyResources. rewrite run_bind.
  pose proof (updatePlacementRule_delivered p c c' x secret f add w Hk Hd Hc Hadd Hw) as Hu.
  destruct (updatePlacementRule _ _ _ _ _ _ w) as [[deleted [e|]] w1]; cbn [fst snd] in *; [done|].
  destruct deleted; [done|]. eapply kept_delivered; [apply ticklePolicy_kept|done].
Qed.

Lemma RemoveSecret_same s c c' f w :
  truthful → live ns s w → c' ≠ c → delivered ns (policy_name s f) c' w →
  delivered ns (policy_name s f) c' (RemoveSecretFromCluster s c ns f w).2.
Proof.
  intros HT Hl Hne Hw. unfold RemoveSecretFromCluster. rewrite result_or_return_run.
  pose proof (ensureS3SecretResources_run s f w) as He. cbv zeta in He.
  set (r := ensureS3SecretResources s ns f w) in *. clearbody r.
  destruct He as [(y & E1 & Ht & Ey & Hd)|(Hn & He)].
  - rewrite E1. set (x := y <| sec_Meta ::= _ |>). rewrite run_bind.
    pose proof (Get_run os_rules (λ f x, x <| plr_Meta ::= f |>) ltac:(done) ns (generatePolicyPlacementName s f) r.2)
      as [Ht2 Hg]. fold Get_rule in Ht2, Hg. set (g := Get_rule _ _ r.2) in *. clearbody g.
    assert (Hw2 : delivered ns (policy_name s f) c' g.2).
    { eapply kept_delivered; [|done]. trans r.2; by apply ticked_kept. }
    destruct Hw as ((rule & Er & Hdr & Hcr) & _). destruct Ht as [h Eh]. rewrite Eh in Hg. cbn in Hg.
    assert (Er' : os_rules w !! (ns, generatePolicyPlacementName s f) = Some rule) by exact Er.
    destruct g.1 as [z|e].
    + destruct Hg as (z' & Ez & ->). rewrite Er' in Ez. simplify_eq.
      by apply updatePolicyResources_delivered; [| | |right|].
    + destruct Hg as [Hg|[t Het]]; [congruence|].
      by destruct (HT t e Het) as [-> _].
  - destruct He as [Ht|(x & w1 & _ & _ & _ & Hd)]; [|by destruct (Hd HT)].
    destruct r.1 as [[x|]|e]; [by destruct (Hn x)|..];
      (apply (kept_delivered ns _ _ w); [by apply ticked_kept|done]).
Qed.
End operations.

(** ** Secrets stay

    No operation on the policy resources changes a secret but for its finalizers. *)

Definition live_kept (ns s : string) (w w' : ObjectStore) : Prop := live ns s w → live ns s w'.

#[export] Instance live_kept_preorder ns s : PreOrder (live_kept ns s).
Proof. split; [by intros w ?|]. intros x y z Hxy Hyz Hx. by apply Hyz, Hxy. Qed.

Lemma ticked_live ns s w w' : ticked w w' → live_kept ns s w w'.
Proof. by intros [h ->] ?. Qed.

Section live_calls.
Context `{Env} `{ServerVersions}.
Context (ns s : string).

Lemma Delete_live {A} (proj : ObjectStore → gmap key A) `{!Setter proj} n m :
  (∀ w h, proj (w <| os_hub := h |>) = proj w) → (∀ w f, os_secrets (w <| proj ::= f |>) = os_secrets w) →
  preserves (live_kept ns s) (Delete proj n m).
Proof.
  intros Hp Hs w. pose proof (Delete_run proj Hp n m w) as Hr. cbv zeta in Hr.
  destruct (Delete proj n m w).1; [destruct Hr as [Ht _]; by apply ticked_live|].
  destruct Hr as (w1 & [h E] & E2). unfold live_kept, live. by rewrite E2, Hs, E.
Qed.

Lemma Create_live {A} (proj : ObjectStore → gmap key A) `{!Setter proj} meta wm x :
  (∀ w h, proj (w <| os_hub := h |>) = proj w) → (∀ w f, os_secrets (w <| proj ::= f |>) = os_secrets w) →
  (∀ f y, meta (wm f y) = f (meta y)) → preserves (live_kept ns s) (Create proj meta wm x).
Proof.
  intros Hp Hs Hm w. pose proof (Create_run proj meta wm Hp Hm x w) as Hr. cbv zeta in Hr.
  destruct (Create proj meta wm x w).1; [destruct Hr as [Ht _]; by apply ticked_live|].
  destruct Hr as (_ & w1 & v & [h E] & E2). unfold live_kept, live. by rewrite E2, Hs, E.
Qed.

Lemma Update_live {A} (proj : ObjectStore → gmap key A) `{!Setter proj} meta wm x :
  (∀ w h, proj (w <| os_hub := h |>) = proj w) → (∀ w f, os_secrets (w <| proj ::= f |>) = os_secrets w) →
  (∀ f y, meta (wm f y) = f (meta y)) → preserves (live_kept ns s) (Update proj meta wm x).
Proof.
  intros Hp Hs Hm w. pose proof (Update_run proj meta wm Hp Hm x w) as Hr. cbv zeta in Hr.
  destruct (Update proj meta wm x w).1; [|by apply ticked_live].
  destruct Hr as (_ & w1 & v & [h E] & _ & E2). unfold live_kept, live. rewrite E2. by case_match; rewrite Hs, E.
Qed.

Lemma Update_secret_live x :
  om_Name (sec_Meta x) ≠ s ∨ ResourceIsDeleted (sec_Meta x) = false → preserves (live_kept ns s) (Update_secret x).
Proof.
  intros Hx w. pose proof (Update_run os_secrets sec_Meta (λ f x, x <| sec_Meta ::= f |>) ltac:(done) ltac:(done) x w) as Hr.
  cbv zeta in Hr. fold (Update_secret x w) in Hr.
  destruct (Update_secret x w).1; [|by apply ticked_live]. destruct Hr as (_ & w1 & v & [h E] & _ & E2).
  unfold live_kept, live. rewrite E2, E. intros (y & Ey & Hy).
  destruct (decide (meta_key (sec_Meta x) = (ns, s))) as [Ek|Hne].
  - destruct Hx as [Hx|Hx]; [by destruct Hx; injection Ek|]. rewrite Hx, Ek. cbn. eexists. by rewrite lookup_insert_eq.
  - exists y. case_match; cbn; [by rewrite lookup_delete_ne|by rewrite lookup_insert_ne].
Qed.

Lemma Delete_binding_live n m : preserves (live_kept ns s) (Delete_binding n m).
Proof. by apply Delete_live. Qed.
Lemma Delete_policy_live n m : preserves (live_kept ns s) (Delete_policy n m).
Proof. by apply Delete_live. Qed.
Lemma Delete_rule_live n m : preserves (live_kept ns s) (Delete_rule n m).
Proof. by apply Delete_live. Qed.
Lemma Update_rule_live x : preserves (live_kept ns s) (Update_rule x).
Proof. by apply Update_live. Qed.
Lemma Update_policy_live x : preserves (live_kept ns s) (Update_policy x).
Proof. by apply Update_live. Qed.
Lemma Get_policy_live n m : preserves (live_kept ns s) (Get_policy n m).
Proof. intros w. by apply ticked_live, (Get_run os_policies). Qed.
#[local] Hint Resolve Delete_binding_live Delete_policy_live Delete_rule_live Update_rule_live Update_policy_live
  Get_policy_live : deliver.

Lemma deletePolicyResources_live x n f :
  om_Name (sec_Meta x) ≠ s ∨ ResourceIsDeleted (sec_Meta x) = false →
  preserves (live_kept ns s) (deletePolicyResources x n f).
Proof. intros Hx. unfold deletePolicyResources. cbn [GeneratePolicyResourceNames]. keeps. by apply Update_secret_live. Qed.

Lemma updatePolicyResources_live r x c n f add :
  om_Name (sec_Meta x) ≠ s ∨ ResourceIsDeleted (sec_Meta x) = false →
  preserves (live_kept ns s) (updatePolicyResources r x c n f add).
Proof.
  intros Hx. unfold updatePolicyResources, updatePlacementRule, ticklePolicy.
  destruct (inspectClusters _ _ _) as [found survivors].
  apply preserves_bind; [apply _| |intros [[] [e|]]; keeps].
  keeps; (apply preserves_bind; [apply _| |intros ?; keeps]); eauto with deliver.
  by apply deletePolicyResources_live.
Qed.

Lemma RemoveSecret_live s' c f w : truthful → live_kept ns s w (RemoveSecretFromCluster s' c ns f w).2.
Proof.
  intros HT. unfold RemoveSecretFromCluster. rewrite result_or_return_run.
  pose proof (ensureS3SecretResources_run ns s' f w) as He. cbv zeta in He.
  set (r := ensureS3SecretResources s' ns f w) in *. clearbody r.
  destruct He as [(y & E1 & Ht & Ey & Hd)|(Hn & He)].
  - rewrite E1. trans r.2; [by apply ticked_live|]. rewrite run_bind.
    trans (Get_rule ns (generatePolicyPlacementName s' f) r.2).2; [apply ticked_live, Get_rule_ticked|].
    destruct (Get_rule _ _ _).1 as [rule|e]; [by apply updatePolicyResources_live; right|].
    destruct (IsNotFound e); [|done]. by apply deletePolicyResources_live; right.
  - trans r.2; [|destruct r.1 as [[x|]|e]; [by destruct (Hn x)|done..]].
    destruct He as [Ht|(x & w1 & Hx & Ht & -> & Hl)]; [by apply ticked_live|].
    destruct (decide (s' = s)) as [->|Hne]; [by intros Hs; destruct (Hl HT)|].
    trans w1; [by apply ticked_live|]. apply deletePolicyResources_live. left. congruence.
Qed.
End live_calls.

(** ** Addition *)

(** Every rule of the namespace has its policy and binding, and none of the resources is
    being deleted. *)
Record intact (ns : string) (w : ObjectStore) : Prop := {
  intact_rules : ∀ k r, os_rules w !! k = Some r → ResourceIsDeleted (plr_Meta r) = false;
  intact_policies : ∀ k q, os_policies w !! k = Some q → ResourceIsDeleted (pol_Meta q) = false;
  intact_whole : ∀ p, is_Some (os_rules w !! rule_key ns p) →
    is_Some (os_policies w !! (ns, p)) ∧ is_Some (os_bindings w !! binding_key ns p);
}.

(** The rules stay, policies and bindings are added or changed. *)
Definition grown (w w' : ObjectStore) : Prop :=
  os_rules w' = os_rules w ∧
  (∀ k, is_Some (os_policies w !! k) → is_Some (os_policies w' !! k)) ∧
  ((∀ k q, os_policies w !! k = Some q → ResourceIsDeleted (pol_Meta q) = false) →
   ∀ k q, os_policies w' !! k = Some q → ResourceIsDeleted (pol_Meta q) = false) ∧
  (∀ k, is_Some (os_bindings w !! k) → is_Some (os_bindings w' !! k)).

#[export] Instance grown_preorder : PreOrder grown.
Proof.
  split; [by intros w|]. intros x y z (a & b & c & d) (a' & b' & c' & d').
  split; [congruence|]. split; [by auto|]. split; [|by auto]. intros Hx. by apply c', c.
Qed.

Lemma ticked_grown w w' : ticked w w' → grown w w'.
Proof. intros [h ->]. by repeat split. Qed.

Lemma intact_grown ns w w' : grown w w' → intact ns w → intact ns w'.
Proof.
  intros (Er & Hp & Hd & Hb) [i1 i2 i3]. split; rewrite ?Er; [done|by apply Hd|].
  intros p Hr. destruct (i3 p Hr). auto.
Qed.

Lemma intact_delivered ns p c w r :
  intact ns w → os_rules w !! rule_key ns p = Some r → c ∈ plr_Clusters r → delivered ns p c w.
Proof.
  intros Hi Er Hc. destruct (intact_whole _ _ Hi p) as [[q Eq] Hb]; [by eexists|]. split; [|split; [|done]].
  - exists r. repeat split; [done| |done]. by eapply intact_rules.
  - exists q. split; [done|]. by eapply intact_policies.
Qed.

Lemma Create_ensured `{Env} `{ServerVersions} {A} (proj : ObjectStore → gmap key A) `{!Setter proj} meta wm x w :
  (∀ w h, proj (w <| os_hub := h |>) = proj w) → (∀ w f, proj (w <| proj ::= f |>) = f (proj w)) →
  (∀ f y, meta (wm f y) = f (meta y)) → truthful →
  let r := ignore IsAlreadyExists (Create proj meta wm x) w in
  r.1 = None →
  is_Some (proj r.2 !! meta_key (meta x)) ∧
  (ticked w r.2 ∨ (proj w !! meta_key (meta x) = None ∧
     ∃ w1 v, ticked w w1 ∧ r.2 = w1 <| proj ::= <[meta_key (meta x) := with_version wm v x]> |>)).
Proof.
  intros Hp Hpp Hm HT. cbv zeta. unfold ignore. rewrite run_bind. cbn [fst snd mret M_ret].
  pose proof (Create_run proj meta wm Hp Hm x w) as Hr. cbv zeta in Hr.
  destruct (Create proj meta wm x w).1 as [e|].
  - destruct Hr as [Ht Hr]. destruct (IsAlreadyExists e) eqn:Ee; [|done]. intros _. split; [|by left].
    destruct Hr as [Hs|[t Het]]; [|by destruct (HT t e Het); congruence].
    destruct Ht as [h ->]. by rewrite Hp.
  - destruct Hr as (Hn & w1 & v & Ht & E). intros _. split.
    + rewrite E, Hpp, lookup_insert_eq. by eexists.
    + right. split; [done|]. by exists w1, v.
Qed.

Section addition.
Context `{Env} `{ServerVersions}.
Context (ns : string) (HT : truthful).

Lemma Update_secret_grown x : preserves grown (Update_secret x).
Proof.
  intros w. pose proof (Update_run os_secrets sec_Meta (λ f x, x <| sec_Meta ::= f |>) ltac:(done) ltac:(done) x w) as Hr.
  cbv zeta in Hr. fold (Update_secret x w) in Hr.
  destruct (Update_secret x w).1; [|by apply ticked_grown]. destruct Hr as (_ & w1 & v & [h E] & _ & E2).
  rewrite E2, E. by case_match.
Qed.

Lemma binding_ensured x w :
  let r := ignore IsAlreadyExists (Create_binding x) w in
  r.1 = None → grown w r.2 ∧ is_Some (os_bindings r.2 !! meta_key (plb_Meta x)).
Proof.
  cbv zeta. intros Hn. unfold Create_binding in *.
  destruct (Create_ensured os_bindings plb_Meta (λ f x, x <| plb_Meta ::= f |>) x w ltac:(done) ltac:(done) ltac:(done) HT Hn) as [Hs Hr].
  split; [|done]. destruct Hr as [Ht|(_ & w1 & v & [h E] & E2)]; [by apply ticked_grown|]. rewrite E2, E.
  repeat split; try done. cbn. intros k Hk. by apply lookup_insert_is_Some'; right.
Qed.

Lemma policy_ensured x w :
  ResourceIsDeleted (pol_Meta x) = false →
  let r := ignore IsAlreadyExists (Create_policy x) w in
  r.1 = None → grown w r.2 ∧ is_Some (os_policies r.2 !! meta_key (pol_Meta x)).
Proof.
  cbv zeta. intros Hd Hn. unfold Create_policy in *.
  destruct (Create_ensured os_policies pol_Meta (λ f x, x <| pol_Meta ::= f |>) x w ltac:(done) ltac:(done) ltac:(done) HT Hn) as [Hs Hr].
  split; [|done]. destruct Hr as [Ht|(_ & w1 & v & [h E] & E2)]; [by apply ticked_grown|]. rewrite E2, E.
  repeat split; try done; cbn.
  - intros k Hk. by apply lookup_insert_is_Some'; right.
  - intros Hall k q [[<- <-]|[_ Hq]]%lookup_insert_Some; [done|by eapply Hall].
Qed.

Lemma ticklePolicy_grown secret w : intact ns w → grown w (ticklePolicy secret ns w).2.
Proof.
  intros Hi. unfold ticklePolicy. rewrite result_or_return_run.
  pose proof (Get_run os_policies (λ f x, x <| pol_Meta ::= f |>) ltac:(done) ns (om_Name (sec_Meta secret)) w) as [Ht Hg].
  fold Get_policy in Ht, Hg. set (g := Get_policy ns (om_Name (sec_Meta secret)) w) in *. clearbody g.
  trans g.2; [by apply ticked_grown|]. destruct g.1 as [x|e]; [|done]. destruct Hg as (y & Ey & ->).
  case_bool_decide; [done|]. case_bool_decide; [done|]. rewrite result_or_return_run. set (z := _ <| pol_Meta ::= _ |>).
  trans (Update_policy z g.2).2; [|by case_match].
  pose proof (Update_run os_policies pol_Meta (λ f x, x <| pol_Meta ::= f |>) ltac:(done) ltac:(done) z g.2) as Hr.
  cbv zeta in Hr. fold (Update_policy z g.2) in Hr.
  destruct (Update_policy z g.2).1; [|by apply ticked_grown]. destruct Hr as (_ & w1 & v & [h E] & _ & E2).
  assert (Hz : ResourceIsDeleted (pol_Meta z) = false) by (by apply (intact_policies _ _ Hi _ _ Ey)).
  rewrite E2, E, Hz. repeat split; try done; cbn.
  - intros k Hk. by apply lookup_insert_is_Some'; right.
  - intros Hall k q [[<- <-]|[_ Hq]]%lookup_insert_Some; [done|by eapply Hall].
Qed.

(** The first cluster. *)
Lemma createPolicyResources_adds secret c t f v w :
  let p := policy_name (om_Name (sec_Meta secret)) f in
  let r := createPolicyResources secret c ns t f v w in
  intact ns w → os_rules w !! rule_key ns p = None → r.1 = None → intact ns r.2 ∧ delivered ns p c r.2.
Proof.
  intros p r Hi Hnr Hr. subst r. unfold createPolicyResources in *. cbn [GeneratePolicyResourceNames] in *.
  destruct (AddFinalizer (sec_Meta secret) (SecretFinalizer f)) as [added m] eqn:Ea.
  rewrite result_or_return_run in *.
  set (r0 := (if added then Update_secret (secret <| sec_Meta := m |>) else mret (inl secret) : SOp (Secret + GoError)) w) in *.
  assert (G0 : grown w r0.2) by (subst r0; destruct added; [apply Update_secret_grown|done]). clearbody r0.
  destruct r0.1 as [sec|e]; [|done]. rewrite or_return_run in *.
  set (r1 := ignore _ (Create_binding _) _) in *. destruct r1.1 eqn:E1; [done|].
  destruct (binding_ensured _ _ E1) as [G1 B1]. fold r1 in G1, B1. clearbody r1.
  rewrite or_return_run in *. set (r2 := ignore _ (Create_policy _) _) in *. destruct r2.1 eqn:E2; [done|].
  pose proof (λ Hd, policy_ensured _ _ Hd E2) as Hp. destruct (Hp eq_refl) as [G2 B2]. clear Hp. fold r2 in G2, B2. clearbody r2.
  rewrite or_return_run in *. set (x := _ <| plr_Meta ::= _ |>) in *.
  set (r3 := ignore _ (Create_rule x) _) in *. destruct r3.1 eqn:E3; [done|]. cbn [fst snd mret M_ret].
  assert (G : grown w r2.2) by (trans r0.2; [done|]; by trans r1.2).
  assert (Hi2 : intact ns r2.2) by by eapply intact_grown.
  assert (Hk : meta_key (plr_Meta x) = rule_key ns p) by done.
  destruct (Create_ensured os_rules plr_Meta (λ f x, x <| plr_Meta ::= f |>) x r2.2 ltac:(done) ltac:(done) ltac:(done) HT E3) as [B3 G3].
  destruct G as (Er & _ & _ & _). destruct G2 as (_ & _ & _ & Gb).
  destruct G3 as [[h Et]|(_ & w1 & vv & [h E] & Ew)].
  { change (ignore IsAlreadyExists _ r2.2) with r3 in Et, B3. rewrite Et, Hk in B3. cbn in B3. rewrite Er, Hnr in B3.
    by destruct B3. }
  change (ignore IsAlreadyExists _ r2.2) with r3 in Ew. rewrite Hk in Ew.
  assert (Hi3 : intact ns r3.2).
  { destruct Hi2 as [i1 i2 i3]. split; rewrite Ew, E; cbn.
    - intros k r [[<- <-]|[_ Hq]]%lookup_insert_Some; [done|by eapply i1].
    - apply i2.
    - intros p' [Ek|[_ Hq]]%lookup_insert_is_Some; [|by apply i3].
      apply rule_key_inj in Ek as <-. by split; [|apply Gb]. }
  split; [done|]. apply (intact_delivered ns p c r3.2 (with_version (λ f x, x <| plr_Meta ::= f |>) vv x)); [done| |].
  - rewrite Ew, E. cbn. by rewrite lookup_insert_eq.
  - cbn. set_solver.
Qed.

(** Another cluster. *)
Lemma updatePlacementRule_adds p x secret c f w :
  let r := updatePlacementRule x secret c ns f true w in
  intact ns w → meta_key (plr_Meta x) = rule_key ns p → ResourceIsDeleted (plr_Meta x) = false →
  (∃ y, os_rules w !! rule_key ns p = Some y ∧ plr_Clusters y = plr_Clusters x) →
  r.1.2 = None → r.1.1 = false ∧ intact ns r.2 ∧ delivered ns p c r.2.
Proof.
  intros r Hi Hk Hd (y & Ey & Ec) Hn. subst r. unfold updatePlacementRule, inspectClusters in *. cbn [andb] in *.
  case_bool_decide as Hin; cbn [fst snd] in *.
  { split; [done|]. split; [done|]. apply (intact_delivered ns p c w y); [done..|]. by rewrite Ec. }
  rewrite run_bind in *. cbn [fst snd mret M_ret] in *.
  set (x' := x <| plr_Clusters := _ |>) in *.
  destruct (intact_whole _ _ Hi p) as [[q Eq] Hb]; [by eexists|].
  assert (Hl : live_policy ns p w) by (exists q; split; [done|by eapply intact_policies]).
  assert (Hc : c ∈ plr_Clusters x') by (cbn; set_solver).
  pose proof (Update_rule_delivered ns p c x' w Hk Hd Hc Hl Hb) as Hu.
  pose proof (Update_run os_rules plr_Meta (λ f x, x <| plr_Meta ::= f |>) ltac:(done) ltac:(done) x' w) as Hr.
  cbv zeta in Hr. fold (Update_rule x' w) in Hr. destruct (Update_rule x' w).1; [|done].
  destruct Hr as (_ & w1 & v & [h E] & _ & E2). split; [done|]. split; [|done].
  assert (Hd' : ResourceIsDeleted (plr_Meta x') = false) by done. rewrite Hd' in E2.
  assert (Hk' : meta_key (plr_Meta x') = rule_key ns p) by done. rewrite Hk' in E2.
  destruct Hi as [i1 i2 i3]. split; rewrite E2, E; cbn; [|by apply i2|].
  - intros k r [[<- <-]|[_ Hq]]%lookup_insert_Some; [done|by eapply i1].
  - intros p' [Ek|[_ Hq]]%lookup_insert_is_Some; [|by apply i3]. apply rule_key_inj in Ek as <-.
    by split; [eexists|].
Qed.

Lemma updatePolicyResources_adds p x secret c f w :
  let r := updatePolicyResources x secret c ns f true w in
  intact ns w → meta_key (plr_Meta x) = rule_key ns p → ResourceIsDeleted (plr_Meta x) = false →
  (∃ y, os_rules w !! rule_key ns p = Some y ∧ plr_Clusters y = plr_Clusters x) →
  r.1 = None → intact ns r.2 ∧ delivered ns p c r.2.
Proof.
  intros r Hi Hk Hd Hy Hn. subst r. unfold updatePolicyResources in *. rewrite run_bind in *.
  pose proof (updatePlacementRule_adds p x secret c f w Hi Hk Hd Hy) as Hu.
  destruct (updatePlacementRule _ _ _ _ _ _ w) as [[deleted [e|]] w1]; cbn [fst snd] in *; [done|].
  destruct (Hu eq_refl) as (-> & Hi1 & Hd1). split.
  - eapply intact_grown; [by apply ticklePolicy_grown|done].
  - eapply kept_delivered; [apply ticklePolicy_kept|done].
Qed.

(** An addition that succeeds delivers the secret, and takes none away. *)
Lemma AddSecretToCluster_adds s c t f v w :
  let r := AddSecretToCluster s c ns t f v w in
  intact ns w → r.1 = None →
  intact ns r.2 ∧ delivered ns (policy_name s f) c r.2 ∧ (∀ p c', delivered ns p c' w → delivered ns p c' r.2).
Proof.
  intros r Hi Hn. subst r. unfold AddSecretToCluster in *. case_bool_decide; [done|].
  destruct (_ && _); [done|]. rewrite result_or_return_run in *.
  pose proof (ensureS3SecretResources_run ns s f w) as He. cbv zeta in He.
  set (r := ensureS3SecretResources s ns f w) in *. clearbody r.
  destruct He as [(y & E1 & Ht & Ey & Hd)|(Hns & He)];
    [|by destruct r.1 as [[x|]|e]; [by destruct (Hns x)|..]].
  rewrite E1 in *. set (x := y <| sec_Meta ::= _ |>) in *. assert (Hx : om_Name (sec_Meta x) = s) by done.
  clearbody x. rewrite run_bind in *.
  pose proof (Get_run os_rules (λ f x, x <| plr_Meta ::= f |>) ltac:(done) ns (generatePolicyPlacementName s f) r.2)
    as [Ht2 Hg]. fold Get_rule in Ht2, Hg. set (g := Get_rule _ _ r.2) in *. clearbody g.
  assert (Ht3 : ticked w g.2) by by eapply ticked_trans.
  assert (Er : os_rules r.2 = os_rules w) by by destruct Ht as [h ->].
  assert (Eg : os_rules g.2 = os_rules w) by by destruct Ht3 as [h ->].
  rewrite Er in Hg. change (ns, generatePolicyPlacementName s f) with (rule_key ns (policy_name s f)) in Hg.
  assert (Hig : intact ns g.2) by (eapply intact_grown; [by apply ticked_grown|done]).
  assert (Hkg : ∀ p c', delivered ns p c' w → delivered ns p c' g.2).
  { intros p c'. by apply kept_delivered, ticked_kept. }
  destruct g.1 as [z|e].
  - destruct Hg as (z' & Ez & Ez'). assert (Hk : meta_key (plr_Meta z) = rule_key ns (policy_name s f)) by (by rewrite Ez').
    assert (Hdz : ResourceIsDeleted (plr_Meta z) = false) by (rewrite Ez'; by apply (intact_rules _ _ Hi _ _ Ez)).
    assert (Hcz : plr_Clusters z' = plr_Clusters z) by (by rewrite Ez'). clear Ez'.
    destruct (updatePolicyResources_adds (policy_name s f) z x c f g.2 Hig Hk Hdz) as [Hi' Hd']; [|done|].
    { exists z'. by rewrite Eg. }
    split; [done|]. split; [done|]. intros p c' Hp. apply Hkg in Hp.
    destruct (decide (policy_name s f = p)) as [<-|Hne].
    + apply updatePolicyResources_delivered; [done|done| |by left|done].
      destruct Hp as ((r' & Er' & _ & Hc') & _). rewrite Eg in Er'. simplify_eq. by rewrite <- Hcz.
    + eapply kept_delivered; [|done]. apply updatePolicyResources_kept; [by rewrite Hx|]. rewrite Hk.
      by intros E%rule_key_inj.
  - destruct (IsNotFound e) eqn:En; [|done].
    destruct Hg as [Hg|[tt Het]]; [|by destruct (HT tt e Het); congruence].
    pose proof (createPolicyResources_adds x c t f v g.2) as Hc. cbv zeta in Hc. rewrite Hx, Eg in Hc.
    destruct (Hc Hig Hg Hn) as [Hi' Hd']. split; [done|]. split; [done|].
    intros p c' Hp%Hkg. eapply kept_delivered; [apply createPolicyResources_kept|done].
Qed.
End addition.

(** ** A lost binding

    Bindings are created with the first cluster only. *)

Definition unbound (k : key) (w w' : ObjectStore) : Prop := os_bindings w !! k = None → os_bindings w' !! k = None.

#[export] Instance unbound_preorder k : PreOrder (unbound k).
Proof. split; [by intros w ?|]. intros x y z Hxy Hyz Hx. by apply Hyz, Hxy. Qed.

Lemma ticked_unbound k w w' : ticked w w' → unbound k w w'.
Proof. by intros [h ->] ?. Qed.

Section unbound_calls.
Context `{Env} `{ServerVersions}.
Context (k : key).

Lemma Delete_binding_unbound n m : preserves (unbound k) (Delete_binding n m).
Proof.
  intros w. pose proof (Delete_run os_bindings ltac:(done) n m w) as Hr. cbv zeta in Hr. fold (Delete_binding n m w) in Hr.
  destruct (Delete_binding n m w).1; [destruct Hr as [Ht _]; by apply ticked_unbound|].
  destruct Hr as (w1 & [h E] & E2). rewrite E2, E. intros Hn. cbn. by rewrite lookup_delete_None; right.
Qed.

Lemma Delete_unbound {A} (proj : ObjectStore → gmap key A) `{!Setter proj} n m :
  (∀ w h, proj (w <| os_hub := h |>) = proj w) → (∀ w f, os_bindings (w <| proj ::= f |>) = os_bindings w) →
  preserves (unbound k) (Delete proj n m).
Proof.
  intros Hp Hs w. pose proof (Delete_run proj Hp n m w) as Hr. cbv zeta in Hr.
  destruct (Delete proj n m w).1; [destruct Hr as [Ht _]; by apply ticked_unbound|].
  destruct Hr as (w1 & [h E] & E2). unfold unbound. by rewrite E2, Hs, E.
Qed.

Lemma Update_unbound {A} (proj : ObjectStore → gmap key A) `{!Setter proj} meta wm x :
  (∀ w h, proj (w <| os_hub := h |>) = proj w) → (∀ w f, os_bindings (w <| proj ::= f |>) = os_bindings w) →
  (∀ f y, meta (wm f y) = f (meta y)) → preserves (unbound k) (Update proj meta wm x).
Proof.
  intros Hp Hs Hm w. pose proof (Update_run proj meta wm Hp Hm x w) as Hr. cbv zeta in Hr.
  destruct (Update proj meta wm x w).1; [|by apply ticked_unbound].
  destruct Hr as (_ & w1 & v & [h E] & _ & E2). unfold unbound. rewrite E2. by case_match; rewrite Hs, E.
Qed.

Lemma Delete_policy_unbound n m : preserves (unbound k) (Delete_policy n m).
Proof. by apply Delete_unbound. Qed.
Lemma Delete_rule_unbound n m : preserves (unbound k) (Delete_rule n m).
Proof. by apply Delete_unbound. Qed.
Lemma Update_rule_unbound x : preserves (unbound k) (Update_rule x).
Proof. by apply Update_unbound. Qed.
Lemma Update_policy_unbound x : preserves (unbound k) (Update_policy x).
Proof. by apply Update_unbound. Qed.
Lemma Update_secret_unbound x : preserves (unbound k) (Update_secret x).
Proof. by apply Update_unbound. Qed.
Lemma Get_policy_unbound n m : preserves (unbound k) (Get_policy n m).
Proof. intros w. by apply ticked_unbound, (Get_run os_policies). Qed.
#[local] Hint Resolve Delete_binding_unbound Delete_policy_unbound Delete_rule_unbound Update_rule_unbound
  Update_policy_unbound Update_secret_unbound Get_policy_unbound : deliver.

Lemma deletePolicyResources_unbound x n f : preserves (unbound k) (deletePolicyResources x n f).
Proof. unfold deletePolicyResources. cbn [GeneratePolicyResourceNames]. keeps. Qed.
#[local] Hint Resolve deletePolicyResources_unbound : deliver.

Lemma updatePolicyResources_unbound r x c n f add : preserves (unbound k) (updatePolicyResources r x c n f add).
Proof.
  unfold updatePolicyResources, updatePlacementRule, ticklePolicy. destruct (inspectClusters _ _ _) as [found survivors].
  apply preserves_bind; [apply _| |intros [[] [e|]]; keeps].
  keeps; (apply preserves_bind; [apply _| |intros ?; keeps]); eauto with deliver.
Qed.

Lemma AddSecretToCluster_unbound ns s c t f v w :
  truthful → is_Some (os_rules w !! rule_key ns (policy_name s f)) →
  unbound k w (AddSecretToCluster s c ns t f v w).2.
Proof.
  intros HT [rule Er]. unfold AddSecretToCluster. case_bool_decide; [done|]. destruct (_ && _); [done|].
  rewrite result_or_return_run. pose proof (ensureS3SecretResources_run ns s f w) as He. cbv zeta in He.
  set (r := ensureS3SecretResources s ns f w) in *. clearbody r.
  destruct He as [(y & E1 & Ht & Ey & Hd)|(Hns & He)].
  - rewrite E1. rewrite run_bind.
    pose proof (Get_run os_rules (λ f x, x <| plr_Meta ::= f |>) ltac:(done) ns (generatePolicyPlacementName s f) r.2)
      as [Ht2 Hg]. fold Get_rule in Ht2, Hg. set (g := Get_rule _ _ r.2) in *. clearbody g.
    trans g.2; [apply ticked_unbound; by eapply ticked_trans|].
    assert (Er' : os_rules r.2 !! (ns, generatePolicyPlacementName s f) = Some rule) by by destruct Ht as [h ->].
    destruct g.1 as [z|e]; [by apply updatePolicyResources_unbound|].
    destruct Hg as [Hg|[tt Het]]; [congruence|]. by destruct (HT tt e Het) as [-> _].
  - trans r.2; [|by destruct r.1 as [[x|]|e]; [destruct (Hns x)|..]].
    destruct He as [Ht|(x & w1 & _ & Ht & -> & _)]; [by apply ticked_unbound|].
    trans w1; [by apply ticked_unbound|]. apply deletePolicyResources_unbound.
Qed.
End unbound_calls.
