(* ===== verification/ManifestWorks.v ===== *)
(** * ManifestWorks

    internal/controller/util/mw_util.go: finding, creating, updating and deleting
    the ManifestWorks through which the hub drives VRGs, namespaces and recipes on
    managed clusters, and extracting objects from them. *)

From S2P Require Import Prelude Meta Names Conditions Api Hub.

Inductive OperationResult := OperationResultNone | OperationResultCreated | OperationResultUpdated.
#[export] Instance OperationResult_eq : EqDecision OperationResult.
Proof. solve_decision. Defined.

(** ** Building *)

Definition newManifestWork (name mcNamespace : string) (labels : gmap string string)
    (manifests : list Manifest) (annotations : option (gmap string string)) : ManifestWork :=
  let meta := named_meta name mcNamespace <| om_Labels := labels |> in
  let meta := (AddLabel meta CreatedByRamenLabel "true").2 in
  let meta := match annotations with
              | Some a => meta <| om_Annotations := a |>
              | None => meta
              end in
  mkManifestWork meta (mkManifestWorkSpec manifests None) [].

Definition generateVRGManifestWork (name namespace homeCluster : string)
    (vrg : VolumeReplicationGroup) (annotations : gmap string string) : ManifestWork :=
  newManifestWork (ManifestWorkName name namespace MWTypeVRG) homeCluster ∅ [MVRG vrg] (Some annotations).

Definition DeletePropagationPolicyTypeOrphan : string := "Orphan".

Definition ObjectMetaEmbedded (m : ObjectMeta) : ObjectMeta :=
  zero_meta <| om_Namespace := om_Namespace m |> <| om_Name := om_Name m |>
            <| om_Annotations := om_Annotations m |> <| om_Labels := om_Labels m |>
            <| om_Finalizers := om_Finalizers m |>.

Definition prepareRecipeForMW (recipe : Recipe) : Recipe :=
  mkRecipe (AddLabel (ObjectMetaEmbedded (rcp_Meta recipe)) CreatedByRamenLabel "true").2
    (rcp_Spec recipe).

(** ** Reading *)

(** Decoding the raw JSON of another kind into a VRG keeps its metadata only. *)
Definition manifest_as_vrg (m : Manifest) : VolumeReplicationGroup + GoError :=
  match m with
  | MVRG v => inl v
  | MNamespace o => inl (mkVolumeReplicationGroup "Namespace" "v1" o zero_vrgspec zero_vrgstatus)
  | MRecipe r => inl (mkVolumeReplicationGroup "Recipe" "ramendr.openshift.io/v1alpha1" (rcp_Meta r)
                        zero_vrgspec zero_vrgstatus)
  | MNetworkFence nf => inl (mkVolumeReplicationGroup "NetworkFence" "csiaddons.openshift.io/v1alpha1"
                               (nf_Meta nf) zero_vrgspec zero_vrgstatus)
  | MMaintenanceMode o => inl (mkVolumeReplicationGroup "MaintenanceMode" "ramendr.openshift.io/v1alpha1"
                                 (mm_Meta o) zero_vrgspec zero_vrgstatus)
  | MDRClusterConfig o => inl (mkVolumeReplicationGroup "DRClusterConfig" "ramendr.openshift.io/v1alpha1"
                                 (dcc_Meta o) zero_vrgspec zero_vrgstatus)
  | MSubscription o => inl (mkVolumeReplicationGroup "Subscription" "operators.coreos.com/v1alpha1"
                              (sub_Meta o) zero_vrgspec zero_vrgstatus)
  | MObject apiVersion kind o _ =>
      inl (mkVolumeReplicationGroup kind apiVersion o zero_vrgspec zero_vrgstatus)
  | MRaw _ => inr (Errorf "unable to unmarshal VRG object" None)
  end.

Definition ExtractVRGFromManifestWork (mw : ManifestWork) : VolumeReplicationGroup + GoError :=
  match mws_Manifests (mw_Spec mw) with
  | [] => inr (Errorf ("invalid VRG ManifestWork for type: " +:+ om_Name (mw_Meta mw)) None)
  | m :: _ => manifest_as_vrg m
  end.

(** [ExtractResourceFromManifestWork] for a recipe, with [GetRawExtension]'s scan:
    [inl None] when no manifest is a recipe. *)
Fixpoint extract_recipe (ms : list Manifest) : option Recipe + GoError :=
  match ms with
  | [] => inl None
  | MRaw _ :: _ => inr (Errorf "failed to unmarshal JSON" None)
  | MRecipe r :: _ => inl (Some r)
  | _ :: ms' => extract_recipe ms'
  end.

Definition WorkApplied : string := "Applied".
Definition WorkAvailable : string := "Available".
Definition WorkDegraded : string := "Degraded".

Definition IsManifestInAppliedState (mw : ManifestWork) : bool :=
  let holds t := existsb (λ c, bool_decide (cond_Status c = ConditionTrue) &&
                               bool_decide (cond_Type c = t)) (mw_Conditions mw) in
  holds WorkApplied && holds WorkAvailable && negb (holds WorkDegraded).

(** [mw.Spec.Workload.Manifests[0] = manifest].  Its callers have extracted a VRG
    from the same ManifestWork, so there is an element 0. *)
Definition set_manifest0 (m : Manifest) (mw : ManifestWork) : ManifestWork :=
  mw <| mw_Spec ::= λ s, s <| mws_Manifests ::= <[0%nat := m]> |> |>.

Section mw_util.
Context `{Env} `{DRPCInstance}.

Definition vrgMWName : string := BuildManifestWorkName d_InstName d_vrgNamespace MWTypeVRG.

Definition FindManifestWork (mwName managedCluster : string) : Op (ManifestWork + GoError) :=
  if bool_decide (managedCluster = "")
  then mret (inr (Errorf ("invalid cluster for MW " +:+ mwName) None))
  else
    r ← Get_mw mwName managedCluster;
    mret (match r with
          | inl mw => inl mw
          | inr e => if IsNotFound e then inr (Errorf (error_text e) (Some e))
                     else inr (Errorf ("failed to retrieve manifestwork (" +:+ error_text e +:+ ")") (Some e))
          end).

Definition FindManifestWorkByType (mwType managedCluster : string) : Op (ManifestWork + GoError) :=
  FindManifestWork (BuildManifestWorkName d_InstName d_vrgNamespace mwType) managedCluster.

Definition IsManifestApplied (cluster mwType : string) : Op bool :=
  r ← FindManifestWorkByType mwType cluster;
  mret (match r with inl mw => IsManifestInAppliedState mw | inr _ => false end).

(** ** Writing *)

Definition createOrUpdateManifestWork (mw : ManifestWork) (managedClusternamespace : string)
    : Op (OperationResult * option GoError) :=
  let name := om_Name (mw_Meta mw) in
  let key := managedClusternamespace +:+ "/" +:+ name in
  r ← Get_mw name managedClusternamespace;
  match r with
  | inr err =>
      if negb (IsNotFound err)
      then mret (OperationResultNone,
                 wrapf ("failed to fetch ManifestWork " +:+ key +:+ ": " +:+ error_text err) err)
      else
        err ← Create_mw mw;
        mret (match err with
              | Some e => (OperationResultNone, Some e)
              | None => (OperationResultCreated, None)
              end)
  | inl foundMW =>
      if bool_decide (mw_Spec foundMW ≠ mw_Spec mw) then
        err ← RetryOnConflict (
          r ← Get_mw name managedClusternamespace;
          match r with
          | inr e => mret (Some e)
          | inl foundMW => Update_mw (foundMW <| mw_Spec := mw_Spec mw |>)
          end);
        mret (match err with
              | Some e => (OperationResultNone,
                           wrapf ("failed to update ManifestWork " +:+ key +:+ ": " +:+ error_text e) e)
              | None => (OperationResultUpdated, None)
              end)
      else mret (OperationResultNone, None)
  end.

Definition CreateOrUpdateVRGManifestWork (name namespace homeCluster : string)
    (vrg : VolumeReplicationGroup) (annotations : gmap string string)
    : Op (OperationResult * option GoError) :=
  createOrUpdateManifestWork (generateVRGManifestWork name namespace homeCluster vrg annotations)
    homeCluster.

(** The caller's [labels] map is the namespace's and, shared, the ManifestWork's,
    to which [newManifestWork] adds a label after the namespace was encoded: the
    second result is the caller's map afterwards. *)
Definition CreateOrUpdateNamespaceManifestWork (name namespaceName managedClusterNamespace : string)
    (annotations labels : gmap string string) : Op (option GoError * gmap string string) :=
  let ns := named_meta namespaceName "" <| om_Labels := labels |> <| om_Annotations := annotations |> in
  let mw := newManifestWork (ManifestWorkName name namespaceName MWTypeNS) managedClusterNamespace
              labels [MNamespace ns] (Some annotations) in
  let mw := mw <| mw_Spec ::= λ s,
               s <| mws_DeleteOption := Some DeletePropagationPolicyTypeOrphan |> |> in
  r ← createOrUpdateManifestWork mw managedClusterNamespace;
  mret (r.2, om_Labels (mw_Meta mw)).

Definition CreateOrUpdateRecipeManifestWork (recipe : Recipe) (managedClusterNamespace : string)
    : Op (option GoError) :=
  let mw := newManifestWork (ManifestWorkName d_InstName d_vrgNamespace MWTypeRecipe)
              managedClusterNamespace {["recipe" := om_Name (rcp_Meta recipe)]}
              [MRecipe (prepareRecipeForMW recipe)] (Some ∅) in
  let mw := mw <| mw_Spec ::= λ s,
               s <| mws_DeleteOption := Some DeletePropagationPolicyTypeOrphan |> |> in
  r ← createOrUpdateManifestWork mw managedClusterNamespace;
  mret r.2.

Definition UpdateVRGManifestWork (vrg : VolumeReplicationGroup) (mw : ManifestWork)
    : Op (option GoError) :=
  err ← Update_mw (set_manifest0 (MVRG vrg) mw);
  mret (match err with
        | Some e => wrapf ("failed to update MW (" +:+ error_text e +:+ ")") e
        | None => None
        end).

(** ** Deleting *)

Definition DeleteManifestWork (mwName mwNamespace : string) : Op (option GoError) :=
  r ← Get_mw mwName mwNamespace;
  match r with
  | inr e => if IsNotFound e then mret None
             else mret (wrapf ("failed to retrieve manifestwork for type: " +:+ mwName
                                +:+ ". Error: " +:+ error_text e) e)
  | inl mw =>
      err ← Delete_mw mw;
      mret (match err with
            | Some e => if IsNotFound e then None
                        else wrapf ("failed to delete MW. Error " +:+ error_text e) e
            | None => None
            end)
  end.

(** A merge patch of the delete option alone. *)
Definition ensureOrphanDeleteOption (mwName clusterName : string) : Op (option GoError) :=
  r ← Get_mw mwName clusterName;
  err ← match r with
        | inr e => mret (Some e)
        | inl mw => modify (λ w, w <| w_mws ::= <[(clusterName, mwName) :=
                      mw <| mw_Spec ::= λ s,
                        s <| mws_DeleteOption := Some DeletePropagationPolicyTypeOrphan |> |>]> |>);;
                    mret None
        end;
  mret (match err with
        | Some e => wrapf ("failed to set orphan delete option on ManifestWork " +:+ clusterName +:+
                           "/" +:+ mwName +:+ ": " +:+ error_text e) e
        | None => None
        end).

Definition DeleteNamespaceManifestWork (mwName clusterName : string) : Op (option GoError) :=
  r ← Get_mw mwName clusterName;
  match r with
  | inr e => if IsNotFound e then mret None
             else mret (wrapf ("failed to retrieve manifestwork for type: " +:+ mwName
                                +:+ ". Error: " +:+ error_text e) e)
  | inl mw =>
      if ResourceIsDeleted (mw_Meta mw) then mret None
      else
        stop ← (match mws_DeleteOption (mw_Spec mw) with
                | Some _ => mret None
                | None =>
                    err ← ensureOrphanDeleteOption mwName clusterName;
                    mret (match err with
                          | None => None
                          | Some e => if IsNotFound e then Some None else Some (Some e)
                          end)
                end : Op (option (option GoError)));
        match stop with
        | Some err => mret err
        | None =>
            err ← DeleteManifestWork mwName clusterName;
            mret (match err with Some e => wrapf (error_text e) e | None => None end)
        end
  end.

(** [InstName] and [TargetNamespace] are the receiver's. *)
Definition DeleteRecipeManifestWork (InstName TargetNamespace clusterName : string) : Op (option GoError) :=
  let mwName := BuildManifestWorkName InstName TargetNamespace MWTypeRecipe in
  r ← Get_mw mwName clusterName;
  match r with
  | inr e => if IsNotFound e then mret None
             else mret (wrapf ("failed to retrieve manifestwork for type: " +:+ mwName
                                +:+ ". Error: " +:+ error_text e) e)
  | inl mw =>
      if ResourceIsDeleted (mw_Meta mw) then mret None
      else err ← DeleteManifestWork mwName clusterName;
           mret (match err with Some e => wrapf (error_text e) e | None => None end)
  end.
End mw_util.
