(* ===== verification/Views.v ===== *)
(** * Managed cluster views

    internal/controller/util/mcv_util.go: a ManagedClusterView asks the agent of a
    managed cluster to show one of its objects.  The views are objects of the hub's
    API server ([w_views]); what an agent last reported, raw text and a condition, is
    in the view.  Reading a resource creates the view if there is none, so that a
    first read finds nothing reported yet.  Decoding the text is the codec's. *)

From Stdlib Require Import Ascii.
From S2P Require Import Prelude Meta Names Conditions Api PolicyPeers Hub.

(** csiaddonsv1alpha1.NetworkFenceClass: what fencing reads of it. *)
Record NetworkFenceClass := mkNetworkFenceClass {
  nfc_Meta : ObjectMeta;
  nfc_Provisioner : string;
}.

(** A CustomResourceDefinition: its versions and whether each is served. *)
Record CustomResourceDefinition := mkCRD {
  crd_Meta : ObjectMeta;
  crd_Versions : list (string * bool);
}.

(** [json.Unmarshal] of a reported object, and the constants of the packages that
    declare the viewed types. *)
Class ViewCodec := {
  json_VRG : string → VolumeReplicationGroup + GoError;
  json_Namespace : string → ObjectMeta + GoError;
  json_Recipe : string → Recipe + GoError;
  json_NetworkFence : string → NetworkFence + GoError;
  json_NetworkFenceClass : string → NetworkFenceClass + GoError;
  json_MaintenanceMode : string → MaintenanceMode + GoError;
  json_DRClusterConfig : string → DRClusterConfig + GoError;
  json_StorageClass : string → StorageClass + GoError;
  json_SnapshotClass : string → SnapshotClass + GoError;
  json_ReplicationClass : string → ReplicationClass + GoError;
  json_CRD : string → CustomResourceDefinition + GoError;
  ConditionViewProcessing : string;
  ReasonGetResourceFailed : string;
  ramen_GV : string * string;
  csiaddons_GV : string * string;
  storage_GV : string * string;
  snapshot_GV : string * string;
  replication_GV : string * string;
  core_GV : string * string;
  recipe_GV : string * string;
  apiextensions_GV : string * string;
  public_vgs_GV : string * string;
  private_vgs_GV : string * string;
  VGSCRDName : string;
  VGSCRDPrivateName : string;
}.

Definition MModesLabel : string := "ramendr.openshift.io/maintenancemodes".
Definition SClassLabel : string := "ramendr.openshift.io/storageclass".
Definition NFClassLabel : string := "ramendr.openshift.io/networkfenceclass".
Definition VSClassLabel : string := "ramendr.openshift.io/volumesnapshotclass".
Definition VGSClassLabel : string := "ramendr.openshift.io/volumegroupsnapshotclass".
Definition VRClassLabel : string := "ramendr.openshift.io/volumereplicationclass".
Definition VGRClassLabel : string := "ramendr.openshift.io/volumegroupreplicationclass".
Definition NetworkFencePrefix : string := "network-fence".

(** ** Names *)

Definition BuildManagedClusterViewName (resourceName resourceNamespace resource : string) : string :=
  if bool_decide (resourceNamespace = "") then resourceName +:+ "-" +:+ resource +:+ "-mcv"
  else resourceName +:+ "-" +:+ resourceNamespace +:+ "-" +:+ resource +:+ "-mcv".

(** [strings.Split(s, "-")] and [strings.Join(l, "-")]. *)
Fixpoint split_dash (s : string) : list string :=
  match s with
  | EmptyString => [""]
  | String c s' =>
      if bool_decide (c = "-"%char) then "" :: split_dash s'
      else match split_dash s' with
           | [] => [String c ""]
           | w :: ws => String c w :: ws
           end
  end.

Fixpoint join_dash (l : list string) : string :=
  match l with
  | [] => ""
  | [w] => w
  | w :: ws => w +:+ "-" +:+ join_dash ws
  end.

(** [splitName[:len(splitName)-2]]: [None] for fewer than two elements. *)
Definition ClusterScopedResourceNameFromMCVName (mcvName : string) : option string :=
  let splitName := split_dash mcvName in
  if bool_decide (length splitName < 2) then None
  else Some (join_dash (take (length splitName - 2) splitName)).

Definition networkFenceName (targetCluster networkFenceClassName : string) : string :=
  if bool_decide (networkFenceClassName ≠ "")
  then NetworkFencePrefix +:+ "-" +:+ networkFenceClassName +:+ "-" +:+ targetCluster
  else NetworkFencePrefix +:+ "-" +:+ targetCluster.

(** ** What a view reports *)

Definition HasSuffix (s suffix : string) : bool := String.prefix (rev_string suffix) (rev_string s).

(** The text after the last occurrence of [sub]. *)
Fixpoint after_last (sub s : string) : option string :=
  let here := if String.prefix sub s
              then Some (String.substring (String.length sub) (String.length s) s) else None in
  match s with
  | EmptyString => here
  | String _ s' => match after_last sub s' with Some r => Some r | None => here end
  end.

Definition checkNotFound (str : string) : bool :=
  HasSuffix str "not found" || HasSuffix str "the server could not find the requested resource".

Definition extractLastError (str : string) : string := default "" (after_last "err:" str).

Definition parseErrorMessage (message : string) : GoError :=
  if checkNotFound message then not_found "requested resource not found in ManagedCluster"
  else Errorf ("err: " +:+ extractLastError message) None.

Section views.
Context `{ViewCodec}.

Definition GetResource {A} (decode : string → A + GoError) (mcv : ManagedClusterView) : A + GoError :=
  let err :=
    match mcv_Conditions mcv with
    | [] => Some (Errorf "missing ManagedClusterView conditions" None)
    | [c] =>
        if bool_decide (cond_Type c ≠ ConditionViewProcessing)
        then Some (Errorf ("found invalid condition (" +:+ cond_Type c +:+ ") in ManagedClusterView") None)
        else if bool_decide (cond_Reason c = ReasonGetResourceFailed)
        then Some (parseErrorMessage (cond_Message c))
        else if bool_decide (cond_Status c ≠ ConditionTrue)
        then Some (Errorf ("ManagedClusterView is not ready (reason: " +:+ cond_Reason c +:+ ")") None)
        else None
    | _ => Some (Errorf "found multiple status conditions with ManagedClusterView" None)
    end in
  match err with
  | Some e => inr (Errorf ("getManagedClusterResource results: " +:+ error_text e) (Some e))
  | None =>
      match decode (mcv_Result mcv) with
      | inl a => inl a
      | inr e => inr (Errorf ("failed to Unmarshal data from ManagedClusterView to resource: " +:+
                              error_text e) (Some e))
      end
  end.

(** ** The API server's views

    The server answers a read with the object of the requested name and namespace. *)

Context `{Env}.

Definition Get_mcv (name namespace : string) : Op (ManagedClusterView + GoError) :=
  e ← api_err;
  match e with
  | Some e => mret (inr e)
  | None =>
      views ← gets w_views;
      mret (match views !! (namespace, name) with
            | Some v => inl (v <| mcv_Meta ::= λ m, m <| om_Namespace := namespace |> <| om_Name := name |> |>)
            | None => inr (not_found name)
            end)
  end.

Definition mcv_key (v : ManagedClusterView) : string * string :=
  (om_Namespace (mcv_Meta v), om_Name (mcv_Meta v)).

Definition Create_mcv (v : ManagedClusterView) : Op (option GoError) :=
  e ← api_err;
  match e with
  | Some e => mret (Some e)
  | None =>
      views ← gets w_views;
      match views !! mcv_key v with
      | Some _ => mret (Some (already_exists (om_Name (mcv_Meta v))))
      | None => modify (λ w, w <| w_views ::= <[mcv_key v := v]> |>);; mret None
      end
  end.

Definition Update_mcv (v : ManagedClusterView) : Op (option GoError) :=
  e ← api_err;
  match e with
  | Some e => mret (Some e)
  | None =>
      views ← gets w_views;
      match views !! mcv_key v with
      | None => mret (Some (not_found (om_Name (mcv_Meta v))))
      | Some _ => modify (λ w, w <| w_views ::= <[mcv_key v := v]> |>);; mret None
      end
  end.

Definition Delete_mcv (v : ManagedClusterView) : Op (option GoError) :=
  e ← api_err;
  match e with
  | Some e => mret (Some e)
  | None =>
      views ← gets w_views;
      match views !! mcv_key v with
      | None => mret (Some (not_found (om_Name (mcv_Meta v))))
      | Some _ => modify (λ w, w <| w_views ::= delete (mcv_key v) |>);; mret None
      end
  end.

(** [client.InNamespace(cluster)]: the empty name is every namespace. *)
Definition in_namespace (cluster : string) (m : ObjectMeta) : bool :=
  bool_decide (cluster = "") || bool_decide (om_Namespace m = cluster).

Definition listMCVsWithLabel (cluster label : string) : Op (list ManagedClusterView + GoError) :=
  e ← api_err;
  match e with
  | Some e => mret (inr e)
  | None =>
      views ← gets w_views;
      mret (inl (filter (λ v, in_namespace cluster (mcv_Meta v) && HasLabelWithValue (mcv_Meta v) label "" = true)
                   (map_to_list views).*2))
  end.

Definition ListMModesMCVs (cluster : string) := listMCVsWithLabel cluster MModesLabel.
Definition ListSClassMCVs (cluster : string) := listMCVsWithLabel cluster SClassLabel.
Definition ListNFClassMCVs (cluster : string) := listMCVsWithLabel cluster NFClassLabel.
Definition ListVSClassMCVs (cluster : string) := listMCVsWithLabel cluster VSClassLabel.
Definition ListVGSClassMCVs (cluster : string) := listMCVsWithLabel cluster VGSClassLabel.
Definition ListVGRClassMCVs (cluster : string) := listMCVsWithLabel cluster VGRClassLabel.
Definition ListVRClassMCVs (cluster : string) := listMCVsWithLabel cluster VRClassLabel.

(** ** Reading through a view *)

(** The view on the server, or the new one. *)
Definition find_or_create (mcv : ManagedClusterView) (meta : ObjectMeta) : Op (ManagedClusterView + GoError) :=
  r ← Get_mcv (om_Name meta) (om_Namespace meta);
  match r with
  | inl v => mret (inl v)
  | inr e =>
      if negb (IsNotFound e)
      then mret (inr (Errorf ("failed to get ManagedClusterView: " +:+ error_text e) (Some e)))
      else
        err ← Create_mcv mcv;
        mret (match err with
              | Some e => inr (Errorf ("failed to create ManagedClusterView: " +:+ error_text e) (Some e))
              | None => inl mcv
              end)
  end.

(** The view as it should be: this scope, these annotations besides its own. *)
Definition adjusted (meta : ObjectMeta) (viewscope : ViewScope) (mcv : ManagedClusterView)
    : bool * ManagedClusterView :=
  let scopeChanged := bool_decide (mcv_Scope mcv ≠ viewscope) in
  let mcv1 := if scopeChanged then mcv <| mcv_Scope := viewscope |> else mcv in
  let mergedAnnotations := om_Annotations meta ∪ om_Annotations (mcv_Meta mcv) in
  let annotationsChanged := bool_decide (om_Annotations (mcv_Meta mcv) ≠ mergedAnnotations) in
  let mcv2 := if annotationsChanged
              then mcv1 <| mcv_Meta ::= λ m, m <| om_Annotations := mergedAnnotations |> |> else mcv1 in
  (scopeChanged || annotationsChanged, mcv2).

Definition getOrCreateManagedClusterView (meta : ObjectMeta) (viewscope : ViewScope)
    : Op (ManagedClusterView + GoError) :=
  found ← find_or_create
            (mkManagedClusterView (AddLabel meta CreatedByRamenLabel "true").2 viewscope [] "") meta;
  match found with
  | inr e => mret (inr e)
  | inl mcv =>
      let '(needsUpdate, mcv2) := adjusted meta viewscope mcv in
      if (needsUpdate : bool) then
        err ← Update_mcv mcv2;
        mret (match err with
              | Some e => inr (Errorf ("failed to update ManagedClusterView: " +:+ error_text e) (Some e))
              | None => inl mcv2
              end)
      else mret (inl mcv2)
  end.

Definition getManagedClusterResource {A} (decode : string → A + GoError) (meta : ObjectMeta)
    (viewscope : ViewScope) : Op (A + GoError) :=
  r ← getOrCreateManagedClusterView meta viewscope;
  mret (match r with
        | inr e => inr (Errorf ("getManagedClusterResource failed: " +:+ error_text e) (Some e))
        | inl mcv => GetResource decode mcv
        end).

Definition getResourceFromManagedCluster {A} (decode : string → A + GoError)
    (resourceName resourceNamespace managedCluster : string) (annotations labels : gmap string string)
    (mcvName kind : string) (gv : string * string) : Op (A + GoError) :=
  getManagedClusterResource decode
    (named_meta mcvName managedCluster <| om_Labels := labels |> <| om_Annotations := annotations |>)
    (mkViewScope kind gv.1 gv.2 resourceName resourceNamespace).

(** A cluster scoped class, labelled by its kind. *)
Definition getClass {A} (decode : string → A + GoError) (mwType labelKey kind : string) (gv : string * string)
    (resourceName managedCluster : string) (annotations : gmap string string) : Op (A + GoError) :=
  getResourceFromManagedCluster decode resourceName "" managedCluster annotations {[labelKey := ""]}
    (BuildManagedClusterViewName resourceName "" mwType) kind gv.

Definition GetNFFromManagedCluster (targetCluster networkFenceClassName resourceNamespace managedCluster : string)
    (annotations : gmap string string) : Op (NetworkFence + GoError) :=
  let resourceName := networkFenceName targetCluster networkFenceClassName in
  getResourceFromManagedCluster json_NetworkFence resourceName resourceNamespace managedCluster annotations ∅
    (BuildManagedClusterViewName resourceName resourceNamespace MWTypeNF) "NetworkFence" csiaddons_GV.

Definition GetMModeFromManagedCluster (resourceName managedCluster : string)
    (annotations : gmap string string) : Op (MaintenanceMode + GoError) :=
  getClass json_MaintenanceMode MWTypeMMode MModesLabel "MaintenanceMode" ramen_GV
    resourceName managedCluster annotations.

Definition GetDRClusterConfigFromManagedCluster (clusterName : string) (annotations : gmap string string)
    : Op (DRClusterConfig + GoError) :=
  getResourceFromManagedCluster json_DRClusterConfig clusterName "" clusterName annotations ∅
    (BuildManagedClusterViewName clusterName "" MWTypeDRCConfig) "DRClusterConfig" ramen_GV.

Definition GetSClassFromManagedCluster : string → string → gmap string string → Op (StorageClass + GoError) :=
  getClass json_StorageClass MWTypeSClass SClassLabel "StorageClass" storage_GV.
Definition GetNFClassFromManagedCluster
    : string → string → gmap string string → Op (NetworkFenceClass + GoError) :=
  getClass json_NetworkFenceClass MWTypeNFClass NFClassLabel "NetworkFenceClass" csiaddons_GV.
Definition GetVSClassFromManagedCluster : string → string → gmap string string → Op (SnapshotClass + GoError) :=
  getClass json_SnapshotClass MWTypeVSClass VSClassLabel "VolumeSnapshotClass" snapshot_GV.
Definition GetVRClassFromManagedCluster
    : string → string → gmap string string → Op (ReplicationClass + GoError) :=
  getClass json_ReplicationClass MWTypeVRClass VRClassLabel "VolumeReplicationClass" replication_GV.
Definition GetVGRClassFromManagedCluster
    : string → string → gmap string string → Op (ReplicationClass + GoError) :=
  getClass json_ReplicationClass MWTypeVGRClass VGRClassLabel "VolumeGroupReplicationClass" replication_GV.

(** ** The snapshot API of a managed cluster (vgs_wrapper.go) *)

Definition crdServesVersion (crd : CustomResourceDefinition) (version : string) : bool :=
  existsb (λ '(v, served), served && bool_decide (v = version)) (crd_Versions crd).

Definition getCRDFromManagedCluster (crdName managedCluster : string) (annotations : gmap string string)
    : Op (CustomResourceDefinition + GoError) :=
  getResourceFromManagedCluster json_CRD crdName "" managedCluster annotations ∅
    (BuildManagedClusterViewName crdName "" "crd") "CustomResourceDefinition" apiextensions_GV.

Fixpoint resolveVGSGroupVersion (getCRD : string → Op (option CustomResourceDefinition + GoError))
    (candidates : list (string * (string * string))) : Op (string * string + GoError) :=
  match candidates with
  | [] => mret (inr (Errorf "VolumeGroupSnapshot CRD is required" None))
  | (crdName, gv) :: candidates' =>
      r ← getCRD crdName;
      match r with
      | inr e => mret (inr (Errorf ("checking VGS CRD " +:+ crdName +:+ ": " +:+ error_text e) (Some e)))
      | inl None => resolveVGSGroupVersion getCRD candidates'
      | inl (Some crd) =>
          if crdServesVersion crd gv.2 then mret (inl gv) else resolveVGSGroupVersion getCRD candidates'
      end
  end.

Definition selectVGSGroupVersionFromManagedCluster (managedCluster : string) (annotations : gmap string string)
    : Op (string * string + GoError) :=
  resolveVGSGroupVersion (λ crdName,
    r ← getCRDFromManagedCluster crdName managedCluster annotations;
    mret (match r with
          | inl crd => inl (Some crd)
          | inr e =>
              if IsNotFound e then inl None
              else inr (Errorf ("get VGS CRD " +:+ crdName +:+ " on managed cluster " +:+ managedCluster +:+
                                ": " +:+ error_text e) (Some e))
          end))
    [(VGSCRDName, public_vgs_GV); (VGSCRDPrivateName, private_vgs_GV)].

Definition GetVGSClassFromManagedCluster (resourceName managedCluster : string)
    (annotations : gmap string string) : Op (SnapshotClass + GoError) :=
  gv ← selectVGSGroupVersionFromManagedCluster managedCluster annotations;
  match gv with
  | inr e => mret (inr (Errorf ("failed to select VGS API for managed cluster " +:+ managedCluster +:+ ": " +:+
                                error_text e) (Some e)))
  | inl gv =>
      getClass json_SnapshotClass MWTypeVGSClass VGSClassLabel "VolumeGroupSnapshotClass" gv
        resourceName managedCluster annotations
  end.

(** ** Deleting *)

Definition DeleteManagedClusterView (clusterName mcvName : string) : Op (option GoError) :=
  r ← Get_mcv mcvName clusterName;
  match r with
  | inr e =>
      if IsNotFound e then mret None
      else mret (wrapf ("failed to retrieve ManagedClusterView for type: " +:+ mcvName +:+ ". Error: " +:+
                        error_text e) e)
  | inl mcv => Delete_mcv mcv
  end.

Definition DeleteVRGManagedClusterView (resourceName resourceNamespace clusterName : string) : Op (option GoError) :=
  DeleteManagedClusterView clusterName (BuildManagedClusterViewName resourceName resourceNamespace MWTypeVRG).
Definition DeleteNamespaceManagedClusterView (resourceName resourceNamespace clusterName : string)
    : Op (option GoError) :=
  DeleteManagedClusterView clusterName (BuildManagedClusterViewName resourceName resourceNamespace MWTypeNS).
Definition DeleteNFManagedClusterView (resourceName resourceNamespace clusterName : string) : Op (option GoError) :=
  DeleteManagedClusterView clusterName (BuildManagedClusterViewName resourceName resourceNamespace MWTypeNF).
Definition DeleteDRClusterConfigManagedClusterView (clusterName : string) : Op (option GoError) :=
  DeleteManagedClusterView clusterName (BuildManagedClusterViewName clusterName "" MWTypeDRCConfig).
Definition DeleteRecipeManagedClusterView (resourceName resourceNamespace clusterName : string)
    : Op (option GoError) :=
  DeleteManagedClusterView clusterName (BuildManagedClusterViewName resourceName resourceNamespace "recipe").
End views.
