(* ===== verification/ClassViews.v ===== *)
(** * The classes a cluster shows

    internal/controller/drpolicy_peerclass.go, from [pruneClassViews] to
    [updatePeerClasses]: the hub reads the storage, snapshot and replication classes a
    cluster's DRClusterConfig lists through one view each and deletes the views of
    classes that are listed no more; and util/managedcluster.go, a cluster's ID. *)

From S2P Require Import Prelude Meta Names Conditions Api PeerClasses PolicyPeers Hub Views.

Definition AllDRPolicyAnnotation : string := "drpolicy.ramendr.openshift.io".

(** ocmv1.ManagedCluster: its conditions and claims. *)
Record ManagedCluster := mkManagedCluster {
  mc_Name : string;
  mc_Conditions : list Condition;
  mc_ClusterClaims : list (string * string);
}.

(** Reads of the hub: a ManagedCluster, the policies, the DRClusters. *)
Class ClusterReads := {
  env_ManagedCluster : nat → string → ManagedCluster + GoError;
  env_list_drpolicies : nat → list DRPolicy + GoError;
  env_list_drclusters : nat → list DRCluster + GoError;
  env_read_drcluster : nat → string → DRCluster + GoError;
  ManagedClusterConditionJoined : string;
}.

(** ** ManagedCluster *)

(** [cond_Type ≠ Joined] is skipped; the first Joined condition decides. *)
Definition joined `{ClusterReads} (mc : ManagedCluster) : bool :=
  match find_first (λ c, bool_decide (cond_Type c = ManagedClusterConditionJoined)) (mc_Conditions mc) with
  | Some c => bool_decide (cond_Status c = ConditionTrue)
  | None => false
  end.

Definition ClusterID (mc : ManagedCluster) : string + GoError :=
  let id := match find_first (λ kv, bool_decide (kv.1 = "id.k8s.io")) (mc_ClusterClaims mc) with
            | Some kv => kv.2
            | None => ""
            end in
  if bool_decide (id = "")
  then inr (Errorf ("cluster (" +:+ mc_Name mc +:+ ") is missing cluster ID claim") None)
  else inl id.

Section classes.
Context `{Env} `{ViewCodec} `{ClusterReads}.

Definition NewManagedClusterInstance (cluster : string) : Op (ManagedCluster + GoError) :=
  t ← tick;
  mret (match env_ManagedCluster t cluster with
        | inr e => inr (Errorf ("failed to get ManagedCluster resource for cluster (" +:+ cluster +:+ "): " +:+
                                error_text e) (Some e))
        | inl mc =>
            if joined mc then inl mc
            else inr (Errorf ("cluster (" +:+ cluster +:+ ") has not joined the hub") None)
        end).

Definition GetAllDRPolicies : Op (list DRPolicy + GoError) :=
  t ← tick;
  mret (match env_list_drpolicies t with
        | inr e => inr (Errorf ("unable to fetch drpolicies: " +:+ error_text e) (Some e))
        | inl l => inl l
        end).

(** ** Views of classes *)

Fixpoint pruneClassViews (clusterName : string) (survivorClassNames : list string)
    (mcvs : list ManagedClusterView) : Op (option GoError) :=
  match mcvs with
  | [] => mret None
  | v :: mcvs' =>
      if bool_decide (vsc_Name (mcv_Scope v) ∈ survivorClassNames)
      then pruneClassViews clusterName survivorClassNames mcvs'
      else
        err ← DeleteManagedClusterView clusterName (om_Name (mcv_Meta v));
        match err with
        | Some e => mret (Some e)
        | None => pruneClassViews clusterName survivorClassNames mcvs'
        end
  end.

(** The five functions differ in the label of the views they list. *)
Definition pruneViews (list_views : string → Op (list ManagedClusterView + GoError)) (clusterName : string)
    (survivorClassNames : list string) : Op (option GoError) :=
  r ← list_views clusterName;
  match r with
  | inr e => mret (Some e)
  | inl mcvs => pruneClassViews clusterName survivorClassNames mcvs
  end.

Definition pruneSClassViews := pruneViews ListSClassMCVs.
Definition pruneVSClassViews := pruneViews ListVSClassMCVs.
Definition pruneVRClassViews := pruneViews ListVRClassMCVs.
Definition pruneVGSClassViews := pruneViews ListVGSClassMCVs.
Definition pruneVGRClassViews := pruneViews ListVGRClassMCVs.
Definition pruneNFClassViews := pruneViews ListNFClassMCVs.

Fixpoint get_classes {A} (get : string → string → gmap string string → Op (A + GoError))
    (clusterName : string) (annotations : gmap string string) (names : list string)
    : Op (list A + GoError) :=
  match names with
  | [] => mret (inl [])
  | n :: names' =>
      r ← get n clusterName annotations;
      match r with
      | inr e => mret (inr e)
      | inl c =>
          r ← get_classes get clusterName annotations names';
          mret (match r with inl cs => inl (c :: cs) | inr e => inr e end)
      end
  end.

(** [None] for no error; the classes are returned along with the pruning's error. *)
Definition classes_of {A} (get : string → string → gmap string string → Op (A + GoError))
    (prune : string → list string → Op (option GoError)) (annotations : gmap string string)
    (names : list string) (clusterName : string) : Op (list A * option GoError) :=
  r ← get_classes get clusterName annotations names;
  match r with
  | inr e => mret ([], Some e)
  | inl cs => err ← prune clusterName names; mret (cs, err)
  end.

(** No class listed: return before anything is read or pruned. *)
Definition classes_or_none {A} (get : string → string → gmap string string → Op (A + GoError))
    (prune : string → list string → Op (option GoError)) (names : list string) (clusterName : string)
    : Op (list A * option GoError) :=
  if bool_decide (length names = 0) then mret ([], None)
  else classes_of get prune {[AllDRPolicyAnnotation := clusterName]} names clusterName.

Definition GetSClassesFromCluster (drcConfig : DRClusterConfig) : string → Op (list StorageClass * option GoError) :=
  classes_or_none GetSClassFromManagedCluster pruneSClassViews (dcct_StorageClasses (dcc_Status drcConfig)).
Definition getVSClassesFromCluster (drcConfig : DRClusterConfig) : string → Op (list SnapshotClass * option GoError) :=
  classes_or_none GetVSClassFromManagedCluster pruneVSClassViews
    (dcct_VolumeSnapshotClasses (dcc_Status drcConfig)).
Definition getVRClassesFromCluster (drcConfig : DRClusterConfig)
    : string → Op (list ReplicationClass * option GoError) :=
  classes_or_none GetVRClassFromManagedCluster pruneVRClassViews
    (dcct_VolumeReplicationClasses (dcc_Status drcConfig)).
Definition getVGSClassesFromCluster (drcConfig : DRClusterConfig)
    : string → Op (list SnapshotClass * option GoError) :=
  classes_or_none GetVGSClassFromManagedCluster pruneVGSClassViews
    (dcct_VolumeGroupSnapshotClasses (dcc_Status drcConfig)).
Definition getVGRClassesFromCluster (drcConfig : DRClusterConfig)
    : string → Op (list ReplicationClass * option GoError) :=
  classes_or_none GetVGRClassFromManagedCluster pruneVGRClassViews
    (dcct_VolumeGroupReplicationClasses (dcc_Status drcConfig)).

(** NetworkFenceClasses are pruned also when none is listed. *)
Definition getNFClassesFromCluster (drcConfig : DRClusterConfig)
    : string → Op (list NetworkFenceClass * option GoError) :=
  classes_of GetNFClassFromManagedCluster pruneNFClassViews ∅ (dcct_NetworkFenceClasses (dcc_Status drcConfig)).

Definition no_classes : classLists := mkClassLists "" [] [] [] [] [].

(** Continue unless there was an error. *)
Definition unless_err {A} (r : A * option GoError) (k : A → Op (classLists * option GoError))
    : Op (classLists * option GoError) :=
  match r with
  | (_, Some e) => mret (no_classes, Some e)
  | (a, None) => k a
  end.

Definition getClusterClasses (cluster : string) : Op (classLists * option GoError) :=
  r ← NewManagedClusterInstance cluster;
  match r with
  | inr e => mret (no_classes, Some e)
  | inl mc =>
      match ClusterID mc with
      | inr e => mret (no_classes, Some e)
      | inl clID =>
          r ← GetDRClusterConfigFromManagedCluster cluster {[AllDRPolicyAnnotation := cluster]};
          match r with
          | inr e => mret (no_classes, Some e)
          | inl drcConfig =>
              r ← GetSClassesFromCluster drcConfig cluster;
              unless_err r (λ scs,
                if bool_decide (length scs = 0) then mret (no_classes, None)
                else
                  r ← getVSClassesFromCluster drcConfig cluster;
                  unless_err r (λ vscs,
                    r ← getVRClassesFromCluster drcConfig cluster;
                    unless_err r (λ vrcs,
                      r ← getVGSClassesFromCluster drcConfig cluster;
                      unless_err r (λ vgscs,
                        r ← getVGRClassesFromCluster drcConfig cluster;
                        unless_err r (λ vgrcs, mret (mkClassLists clID scs vscs vrcs vgrcs vgscs, None))))))
          end
      end
  end.

Definition deleteViewsForClasses (clusterName : string) : Op (option GoError) :=
  err ← pruneSClassViews clusterName [];
  match err with
  | Some e => mret (Some e)
  | None =>
      err ← pruneVSClassViews clusterName [];
      match err with
      | Some e => mret (Some e)
      | None =>
          err ← pruneVGSClassViews clusterName [];
          match err with
          | Some e => mret (Some e)
          | None =>
              err ← pruneVGRClassViews clusterName [];
              match err with
              | Some e => mret (Some e)
              | None => pruneVRClassViews clusterName []
              end
          end
      end
  end.

(** The classes of the policy's clusters, those without storage classes left out. *)
Fixpoint policy_classes (clusters : list string) : Op (list classLists + GoError) :=
  match clusters with
  | [] => mret (inl [])
  | c :: clusters' =>
      r ← getClusterClasses c;
      match r with
      | (_, Some e) => mret (inr e)
      | (clusterClasses, None) =>
          r ← policy_classes clusters';
          mret (match r with
                | inr e => inr e
                | inl cls => inl (if bool_decide (length (sClasses clusterClasses) = 0) then cls
                                  else clusterClasses :: cls)
                end)
      end
  end.
End classes.
