(* ===== verification/DRClusters.v ===== *)
(** * A DRCluster's reconcile: state, conditions, ManifestWorks

    internal/controller/drcluster_controller.go: the receiver [drclusterInstance], its
    status conditions, phases and writes; util/mw_util.go: the ManifestWorks of
    NetworkFences, maintenance modes and DRClusterConfigs.  The state of a reconcile is
    the hub's, of which it uses the ManifestWorks, the views and the clock, with the
    DRCluster in memory and on the API server. *)

From Stdlib Require Import ZArith.
From S2P Require Import Prelude Meta Names Conditions Api PolicyPeers Hub ManifestWorks Views ClassViews.

Record ClusterWorld := mkClusterWorld {
  cw_hub : World;
  cw_object : DRCluster;
  cw_api_object : DRCluster;
  cw_savedInstanceStatus : DRClusterStatus;
  cw_requeue : bool;
}.
#[export] Instance eta_ClusterWorld : Eta ClusterWorld := λ w,
  mkClusterWorld (cw_hub w) (cw_object w) (cw_api_object w) (cw_savedInstanceStatus w) (cw_requeue w).

Abbreviation COp := (M ClusterWorld).

(** A call of the hub's. *)
Definition on_hub {A} (m : Op A) : COp A := λ w,
  let r := m (cw_hub w) in (r.1, w <| cw_hub := r.2 |>).

Definition DRClusterNameAnnotation : string := "drcluster.ramendr.openshift.io/drcluster-name".
Definition StorageAnnotationSecretName : string := "drcluster.ramendr.openshift.io/storage-secret-name".
Definition StorageAnnotationSecretNamespace : string := "drcluster.ramendr.openshift.io/storage-secret-namespace".
Definition StorageAnnotationClusterID : string := "drcluster.ramendr.openshift.io/storage-clusterid".
Definition StorageAnnotationDriver : string := "drcluster.ramendr.openshift.io/storage-driver".
Definition drClusterFinalizerName : string := "drclusters.ramendr.openshift.io/ramen".
Definition OCMBackupLabelValue : string := "ramen".
Definition DrClusterManifestWorkName : string := "ramen-dr-cluster".

Definition DRClusterConditionReasonInitializing : string := "Initializing".
Definition DRClusterConditionReasonFencing : string := "Fencing".
Definition DRClusterConditionReasonUnfencing : string := "Unfencing".
Definition DRClusterConditionReasonCleaning : string := "Cleaning".
Definition DRClusterConditionReasonFenced : string := "Fenced".
Definition DRClusterConditionReasonUnfenced : string := "Unfenced".
Definition DRClusterConditionReasonClean : string := "Clean".
Definition DRClusterConditionReasonValidated : string := "Succeeded".
Definition DRClusterConditionReasonFenceError : string := "FenceError".
Definition DRClusterConditionReasonUnfenceError : string := "UnfenceError".

(** ** Manifests *)

(** [GetRawExtension] for the kind MaintenanceMode; [inl None] when there is none. *)
Fixpoint extract_mmode (ms : list Manifest) : option MaintenanceMode + GoError :=
  match ms with
  | [] => inl None
  | MRaw _ :: _ => inr (Errorf "failed to unmarshal JSON" None)
  | MMaintenanceMode m :: _ => inl (Some m)
  | _ :: ms' => extract_mmode ms'
  end.

Definition ExtractMModeFromManifestWork (mw : ManifestWork) : option MaintenanceMode + GoError :=
  match extract_mmode (mws_Manifests (mw_Spec mw)) with
  | inr e => inr (Errorf ("failed fetching MaintenanceMode from manifest " +:+ error_text e) (Some e))
  | inl m => inl m
  end.

Definition generateMModeManifestWork (name cluster : string) (mMode : MaintenanceMode)
    (annotations : gmap string string) : ManifestWork :=
  newManifestWork (name +:+ "-" +:+ MWTypeMMode +:+ "-mw") cluster {[MModesLabel := ""]}
    [MMaintenanceMode mMode] (Some annotations).

Definition generateNFManifestWork (name homeCluster : string) (nf : NetworkFence)
    (annotations : gmap string string) : ManifestWork :=
  newManifestWork (ManifestWorkName name homeCluster MWTypeNF) homeCluster {["app" := "NF"]}
    [MNetworkFence nf] (Some annotations).

(** The roles of the work agent: the object's content is its one rule. *)
Definition ClusterRoleAggregateLabel : string := "open-cluster-management.io/aggregate-to-work".

Definition cluster_role (name apiGroup resource verbs : string) : Manifest :=
  MObject "rbac.authorization.k8s.io/v1" "ClusterRole"
    (named_meta ("open-cluster-management:klusterlet-work-sa:agent:" +:+ name) ""
       <| om_Labels := {[ClusterRoleAggregateLabel := "true"; CreatedByRamenLabel := "true"]} |>)
    (apiGroup +:+ "/" +:+ resource +:+ ": " +:+ verbs).

Definition vrgClusterRole : Manifest :=
  cluster_role "volrepgroup-edit" "ramendr.openshift.io" "volumereplicationgroups" "create,get,list,update,delete".
Definition mModeClusterRole : Manifest :=
  cluster_role "mmode-edit" "ramendr.openshift.io" "maintenancemodes" "create,get,list,update,delete".
Definition drClusterConfigRole : Manifest :=
  cluster_role "drclusterconfig-edit" "ramendr.openshift.io" "drclusterconfigs" "create,get,list,update,delete".
Definition networkFenceClusterRole : Manifest :=
  cluster_role "networkfence-edit" "csiaddons.openshift.io" "networkfences" "create,get,list,update,delete,watch".
Definition recipeClusterRole : Manifest :=
  cluster_role "recipe-edit" "ramendr.openshift.io" "recipes" "create,get,list,update".

Definition cluster_roles : list Manifest :=
  [vrgClusterRole; mModeClusterRole; drClusterConfigRole; networkFenceClusterRole; recipeClusterRole].

(** The name a NetworkFence's ManifestWork has for a class. *)
Definition nf_work_name (name : string) (networkFenceClassName : string) : string :=
  if bool_decide (networkFenceClassName ≠ "") then name +:+ "-" +:+ networkFenceClassName else name.

Section works.
Context `{Env}.

Definition CreateOrUpdateMModeManifestWork (name cluster : string) (mMode : MaintenanceMode)
    (annotations : gmap string string) : Op (option GoError) :=
  r ← createOrUpdateManifestWork (generateMModeManifestWork name cluster mMode annotations) cluster;
  mret r.2.

Definition CreateOrUpdateNFManifestWork (name homeCluster : string) (nf : NetworkFence)
    (annotations : gmap string string) : Op (option GoError) :=
  let name := nf_work_name name (nf_NetworkFenceClassName nf) in
  r ← createOrUpdateManifestWork (generateNFManifestWork name homeCluster nf annotations) homeCluster;
  mret r.2.

Definition CreateOrUpdateDRCConfigManifestWork (cluster : string) (cConfig : DRClusterConfig)
    : Op (option GoError) :=
  r ← createOrUpdateManifestWork
        (newManifestWork (BuildManifestWorkName "" "" MWTypeDRCConfig) cluster ∅ [MDRClusterConfig cConfig] None)
        cluster;
  mret r.2.

Definition CreateOrUpdateDrClusterManifestWork (clusterName : string) (objectsToAppend : list Manifest)
    (annotations : gmap string string) : Op (option GoError) :=
  r ← createOrUpdateManifestWork
        (newManifestWork DrClusterManifestWorkName clusterName ∅ (cluster_roles ++ objectsToAppend)
           (Some annotations)) clusterName;
  mret r.2.

Definition GetDrClusterManifestWork (clusterName : string) : Op (option ManifestWork + GoError) :=
  r ← FindManifestWork DrClusterManifestWorkName clusterName;
  mret (match r with
        | inl mw => inl (Some mw)
        | inr e => if IsNotFound e then inl None else inr e
        end).

Definition ListMModeManifests (cluster : string) : Op (list ManifestWork + GoError) :=
  e ← api_err;
  match e with
  | Some e => mret (inr e)
  | None =>
      mws ← gets w_mws;
      mret (inl (filter (λ mw, in_namespace cluster (mw_Meta mw) &&
                               HasLabelWithValue (mw_Meta mw) MModesLabel "" = true) (map_to_list mws).*2))
  end.

(** [FindManifestWorkByType] and [IsManifestApplied] of the util whose instance is the
    DRCluster: [InstName] its name, [TargetNamespace] empty. *)
Definition FindClusterManifestWorkByType (drcluster mwType managedCluster : string)
    : Op (ManifestWork + GoError) :=
  FindManifestWork (BuildManifestWorkName drcluster "" mwType) managedCluster.

Definition IsClusterManifestApplied (drcluster cluster mwType : string) : Op bool :=
  r ← FindClusterManifestWorkByType drcluster mwType cluster;
  mret (match r with inl mw => IsManifestInAppliedState mw | inr _ => false end).
End works.

(** ** The DRCluster: status *)

Section status.
Context `{Env}.

Definition object_name (w : ClusterWorld) : string := om_Name (dc_Meta (cw_object w)).

Definition modify_dcstatus (f : DRClusterStatus → DRClusterStatus) : COp unit :=
  modify (λ w, w <| cw_object ::= λ o, o <| dc_Status ::= f |> |>).

(** [util.SetStatusCondition(&u.object.Status.Conditions, ...)] at the object's generation. *)
Definition set_dccondition (conditionType reason : string) (status : ConditionStatus) (message : string)
    : COp unit :=
  now ← on_hub time_Now;
  gen ← gets (λ w, om_Generation (dc_Meta (cw_object w)));
  modify_dcstatus (λ s, s <| dct_Conditions ::= λ conds,
    (SetStatusCondition now conds (mkCondition conditionType status gen 0 reason message)).2 |>).

Definition setDRClusterInitialCondition (message : string) : COp unit :=
  gen ← gets (λ w, om_Generation (dc_Meta (cw_object w)));
  let init t :=
    now ← on_hub time_Now;
    modify_dcstatus (λ s, s <| dct_Conditions ::= λ conds,
      SetStatusConditionIfNotFound now conds
        (mkCondition t ConditionUnknown gen 0 DRClusterConditionReasonInitializing message) |>) in
  init DRClusterValidated;;
  init DRClusterConditionTypeFenced;;
  init DRClusterConditionTypeClean.

(** The Fenced and the Clean condition, for one reason. *)
Definition set_fence (reason : string) (fenced clean : ConditionStatus) (message : string) : COp unit :=
  set_dccondition DRClusterConditionTypeFenced reason fenced message;;
  set_dccondition DRClusterConditionTypeClean reason clean message.

Definition setDRClusterFencingCondition :=
  set_fence DRClusterConditionReasonFencing ConditionFalse ConditionTrue.
Definition setDRClusterUnfencingCondition :=
  set_fence DRClusterConditionReasonUnfencing ConditionTrue ConditionFalse.
Definition setDRClusterCleaningCondition :=
  set_fence DRClusterConditionReasonCleaning ConditionFalse ConditionFalse.
Definition setDRClusterFencedCondition :=
  set_fence DRClusterConditionReasonFenced ConditionTrue ConditionFalse.
Definition setDRClusterCleanCondition :=
  set_fence DRClusterConditionReasonClean ConditionFalse ConditionTrue.
Definition setDRClusterFencingFailedCondition :=
  set_fence DRClusterConditionReasonFenceError ConditionFalse ConditionTrue.
Definition setDRClusterUnfencingFailedCondition :=
  set_fence DRClusterConditionReasonUnfenceError ConditionTrue ConditionFalse.

(** The reason of the Clean condition is [Fenced]. *)
Definition setDRClusterUnfencedCondition (message : string) : COp unit :=
  set_dccondition DRClusterConditionTypeFenced DRClusterConditionReasonUnfenced ConditionFalse message;;
  set_dccondition DRClusterConditionTypeClean DRClusterConditionReasonFenced ConditionFalse message.

Definition setDRClusterValidatedCondition (message : string) : COp unit :=
  set_dccondition DRClusterValidated DRClusterConditionReasonValidated ConditionTrue message.

Definition setCIDRsValidatedConditionSucceeded :=
  set_dccondition DRClusterConditionTypeCIDRsValidated ReasonCIDRsValidationSucceeded ConditionTrue.
Definition setCIDRsValidatedConditionUndetectedCIDRsFound :=
  set_dccondition DRClusterConditionTypeCIDRsValidated ReasonUndetectedCIDRsFound ConditionTrue.
Definition setCIDRsValidatedConditionDetectedCIDRsUnconfigured :=
  set_dccondition DRClusterConditionTypeCIDRsValidated ReasonDetectedCIDRsUnconfigured ConditionFalse.
Definition setCIDRsValidatedConditionInvalidFormat :=
  set_dccondition DRClusterConditionTypeCIDRsValidated ReasonInvalidCIDRsFormat ConditionFalse.

Definition getLastDRClusterPhase : COp DRClusterPhase := gets (λ w, dct_Phase (dc_Status (cw_object w))).

Definition setDRClusterPhase (nextPhase : DRClusterPhase) : COp unit :=
  modify_dcstatus (λ s, s <| dct_Phase := nextPhase |>).

Definition advanceToNextPhase : COp unit :=
  lastPhase ← getLastDRClusterPhase;
  setDRClusterPhase (match lastPhase with Fencing => Fenced | Unfencing => Unfenced | p => p end).

Definition isFencingOrFenced (p : DRClusterPhase) : bool :=
  match p with Fencing | Fenced => true | _ => false end.
Definition isUnfencingOrUnfenced (p : DRClusterPhase) : bool :=
  match p with Unfencing | Unfenced => true | _ => false end.

(** ** Writes

    As for a DRPC, an update of the object or of its status refreshes the copy in
    memory with the server's. *)

Definition Status_Update_drcluster : COp (option GoError) :=
  e ← on_hub api_err;
  match e with
  | Some e => mret (Some e)
  | None =>
      modify (λ w,
        let api := cw_api_object w <| dc_Status := dc_Status (cw_object w) |> in
        w <| cw_api_object := api |> <| cw_object := api |>);;
      mret None
  end.

Definition Update_drcluster : COp (option GoError) :=
  e ← on_hub api_err;
  match e with
  | Some e => mret (Some e)
  | None =>
      modify (λ w,
        let api := cw_api_object w <| dc_Meta := dc_Meta (cw_object w) |>
                                   <| dc_Spec := dc_Spec (cw_object w) |> in
        w <| cw_api_object := api |> <| cw_object := api |>);;
      mret None
  end.

Definition cluster_statusUpdate : COp (option GoError) :=
  w ← gets id;
  if bool_decide (cw_savedInstanceStatus w ≠ dc_Status (cw_object w)) then
    err ← Status_Update_drcluster;
    mret (match err with
          | Some _ => errorf ("failed to update drCluster status (" +:+ object_name w +:+ "/" +:+
                              om_Namespace (dc_Meta (cw_object w)) +:+ ")")
          | None => None
          end)
  else mret None.

Definition statusConditionSetAndUpdate (conditionType : string) (status : ConditionStatus)
    (reason message : string) : COp (option GoError) :=
  now ← on_hub time_Now;
  gen ← gets (λ w, om_Generation (dc_Meta (cw_object w)));
  modify_dcstatus (λ s, s <| dct_Conditions ::= λ conds,
    (GenericStatusConditionSet gen now conds conditionType status reason message).2 |>);;
  cluster_statusUpdate.

Definition validatedSetFalseAndUpdate (reason : string) (err : GoError) : COp GoError :=
  err1 ← statusConditionSetAndUpdate DRClusterValidated ConditionFalse reason (error_text err);
  mret (default err err1).

(** [ResourceUpdater.Update] writes if a call of the chain changed the object. *)
Definition update_resource (u : ResourceUpdater) : COp (option GoError) :=
  modify (λ w, w <| cw_object ::= λ o, o <| dc_Meta := ru_obj u |> |>);;
  if ru_objModified u then Update_drcluster else mret None.

Definition addLabelsAndFinalizers : COp (option GoError) :=
  m ← gets (λ w, dc_Meta (cw_object w));
  update_resource (ru_AddFinalizer (ru_AddLabel (NewResourceUpdater m) OCMBackupLabelKey OCMBackupLabelValue)
                     drClusterFinalizerName).

Definition finalizerRemove : COp (option GoError) :=
  m ← gets (λ w, dc_Meta (cw_object w));
  update_resource (ru_RemoveFinalizer (NewResourceUpdater m) drClusterFinalizerName).

(** [Status.Conditions == nil] is an empty list here. *)
Definition initializeStatus : COp unit :=
  modify (λ w, w <| cw_savedInstanceStatus := dc_Status (cw_object w) |>);;
  conds ← gets (λ w, dct_Conditions (dc_Status (cw_object w)));
  if bool_decide (conds = []) then
    setDRClusterInitialCondition "Initializing DRCluster";;
    setDRClusterPhase Starting
  else mret ().
End status.
