(* ===== verification/Fencing.v ===== *)
(** * Fencing a cluster

    internal/controller/drcluster_controller.go: [clusterFenceHandle] and what it
    calls.  A cluster is fenced off its storage by NetworkFences that the hub has
    created, by ManifestWork, on a peer cluster: one per NetworkFenceClass of the
    peer's storage, or one of the cluster's own storage annotations.  The hub sees
    their state through views. *)

From Stdlib Require Import ZArith Ascii.
From S2P Require Import Prelude Meta Names Conditions Api PolicyPeers Hub ManifestWorks Views ClassViews.
From S2P Require Import DRClusters.

(** csiaddonsv1alpha1.FencingOperationResultSucceeded *)
Class FenceApi := { FencingOperationResultSucceeded : string }.

(** ** The NetworkFence *)

Definition fillStorageDetails (cluster : DRCluster) (nf : NetworkFence) : NetworkFence + GoError :=
  let annotations := om_Annotations (dc_Meta cluster) in
  match annotations !! StorageAnnotationDriver with
  | None => inr (Errorf "failed to find storage driver in annotations" None)
  | Some storageDriver =>
      match annotations !! StorageAnnotationSecretName with
      | None => inr (Errorf "failed to find storage secret name in annotations" None)
      | Some storageSecretName =>
          match annotations !! StorageAnnotationSecretNamespace with
          | None => inr (Errorf "failed to find storage secret namespace in annotations" None)
          | Some storageSecretNamespace =>
              match annotations !! StorageAnnotationClusterID with
              | None => inr (Errorf "failed to find storage cluster id in annotations" None)
              | Some clusterID =>
                  inl (nf <| nf_Secret := (storageSecretName, storageSecretNamespace) |>
                          <| nf_Driver := storageDriver |>
                          <| nf_Parameters := {["clusterID" := clusterID]} |>)
              end
          end
      end
  end.

Definition generateNF (targetCluster : DRCluster) (networkFenceClassName : string) : NetworkFence + GoError :=
  if bool_decide (length (dcs_CIDRs (dc_Spec targetCluster)) = 0) then inr (Errorf "CIDRs has no values" None)
  else
    let target := om_Name (dc_Meta targetCluster) in
    let meta := (AddLabel (named_meta (NetworkFencePrefix +:+ "-" +:+ target) "") CreatedByRamenLabel "true").2 in
    let nf := mkNetworkFence meta "" "" (ClusterFenceState_string (dcs_ClusterFence (dc_Spec targetCluster)))
                (dcs_CIDRs (dc_Spec targetCluster)) ("", "") ∅ "" in
    if bool_decide (networkFenceClassName ≠ "") then
      inl (nf <| nf_Meta ::= λ m, m <| om_Name :=
                   NetworkFencePrefix +:+ "-" +:+ networkFenceClassName +:+ "-" +:+ target |> |>
              <| nf_NetworkFenceClassName := networkFenceClassName |>)
    else
      match fillStorageDetails targetCluster nf with
      | inl nf => inl nf
      | inr e => inr (Errorf ("failed to create network fence resource with storage detai: " +:+ error_text e)
                        (Some e))
      end.

(** [strings.Split(s, ",")] *)
Fixpoint split_comma (s : string) : list string :=
  match s with
  | EmptyString => [""]
  | String c s' =>
      if bool_decide (c = ","%char) then "" :: split_comma s'
      else match split_comma s' with
           | [] => [String c ""]
           | w :: ws => String c w :: ws
           end
  end.

Definition nfclass_matches (nfc : NetworkFenceClass) (sc : StorageClass) : bool :=
  match om_Annotations (nfc_Meta nfc) !! StorageIDLabel with
  | None => false
  | Some nfClassAnnotations =>
      bool_decide (sc_Provisioner sc = nfc_Provisioner nfc) &&
      bool_decide (sc_sid sc ∈ split_comma nfClassAnnotations)
  end.

Definition findMatchingNFClasses (networkFenceClasses : list NetworkFenceClass)
    (storageClasses : list StorageClass) : list string :=
  let nfClasses := networkFenceClasses ≫= λ nfc,
    (λ _, om_Name (nfc_Meta nfc)) <$> filter (λ sc, nfclass_matches nfc sc = true) storageClasses in
  if bool_decide (length nfClasses = 0) then [""] else nfClasses.

(** ** The peer *)

Section fencing.
Context `{Env} `{ViewCodec} `{ClusterReads} `{FenceApi}.

(** [reconciler.APIReader.Get] of a DRCluster. *)
Definition Get_drcluster (name : string) : Op (DRCluster + GoError) :=
  t ← tick; mret (env_read_drcluster t name).

Fixpoint peer_from_policy (drPolicy : DRPolicy) (drCluster : DRCluster) (clusters : list string)
    : Op (option DRCluster) :=
  match clusters with
  | [] => mret None
  | c :: clusters' =>
      let next := peer_from_policy drPolicy drCluster clusters' in
      if bool_decide (c = om_Name (dc_Meta drCluster)) then next
      else
        r ← Get_drcluster c;
        match r with
        | inr _ => next
        | inl peerCluster =>
            if ResourceIsDeleted (dc_Meta peerCluster) then next
            else if bool_decide (0 < length (dpt_Sync (drp_Status drPolicy))) then mret (Some peerCluster)
            else if bool_decide (dcs_Region (dc_Spec drCluster) = dcs_Region (dc_Spec peerCluster))
            then mret (Some peerCluster)
            else next
        end
  end.

Definition getPeerFromPolicy (drPolicy : DRPolicy) (drCluster : DRCluster) : Op (option DRCluster) :=
  peer_from_policy drPolicy drCluster (dps_DRClusters (drp_Spec drPolicy)).

Fixpoint getPeerCluster (l : list DRPolicy) (object : DRCluster) : Op (DRCluster + GoError) :=
  match l with
  | [] => mret (inr (Errorf ("failed to find the peer cluster for cluster " +:+ om_Name (dc_Meta object)) None))
  | drp :: l' =>
      if bool_decide (om_Name (dc_Meta object) ∈ dps_DRClusters (drp_Spec drp)) then
        r ← getPeerFromPolicy drp object;
        match r with
        | Some peer => mret (inl peer)
        | None => getPeerCluster l' object
        end
      else getPeerCluster l' object
  end.

(** The peer of the DRCluster, by all policies. *)
Definition peer_of_object : COp (DRCluster + GoError) :=
  r ← on_hub GetAllDRPolicies;
  match r with
  | inr e => mret (inr (Errorf ("getting all drpolicies failed: " +:+ error_text e) (Some e)))
  | inl drpolicies =>
      object ← gets cw_object;
      r ← on_hub (getPeerCluster drpolicies object);
      mret (match r with
            | inr e => inr (Errorf ("failed to get the peer cluster for the cluster " +:+
                                    om_Name (dc_Meta object) +:+ ": " +:+ error_text e) (Some e))
            | inl p => inl p
            end)
  end.

(** ** NetworkFenceClasses *)

Definition getDRCCFromCluster (clusterName : string) : Op (DRClusterConfig + GoError) :=
  GetDRClusterConfigFromManagedCluster clusterName {[DRClusterNameAnnotation := clusterName]}.

Definition getNFClassesFromDRClusterConfig (clusterName : string) : Op (list string + GoError) :=
  r ← getDRCCFromCluster clusterName;
  match r with
  | inr e => mret (inr e)
  | inl drcConfig =>
      r ← getNFClassesFromCluster drcConfig clusterName;
      match r with
      | (_, Some e) => mret (inr e)
      | (nfClasses, None) =>
          r ← GetSClassesFromCluster drcConfig clusterName;
          mret (match r with
                | (_, Some e) => inr e
                | (storageClasses, None) => inl (findMatchingNFClasses nfClasses storageClasses)
                end)
      end
  end.

(** ** Fencing resources *)

Definition createNFManifestWork (peer : string) (networkFenceClassName : string) : COp (option GoError) :=
  object ← gets cw_object;
  let target := om_Name (dc_Meta object) in
  match generateNF object networkFenceClassName with
  | inr e => mret (wrapf ("failed to generate network fence resource: " +:+ error_text e) e)
  | inl nf =>
      err ← on_hub (CreateOrUpdateNFManifestWork target peer nf {[DRClusterNameAnnotation := target]});
      mret (match err with
            | Some e => wrapf ("failed to create or update NetworkFence manifest in cluster " +:+ peer +:+
                               " to fence off cluster " +:+ target +:+ " (" +:+ error_text e +:+ ")") e
            | None => None
            end)
  end.

(** The loop over the classes, up to the first error. *)
Fixpoint createNFManifestWorks (peer : string) (nfClasses : list string) : COp (option GoError) :=
  match nfClasses with
  | [] => mret None
  | nfClass :: nfClasses' =>
      err ← createNFManifestWork peer nfClass;
      match err with
      | Some e => mret (Some e)
      | None => createNFManifestWorks peer nfClasses'
      end
  end.

Definition viewNF (peer nfClass : string) : COp (NetworkFence + GoError) :=
  object ← gets cw_object;
  on_hub (GetNFFromManagedCluster (om_Name (dc_Meta object)) nfClass (om_Namespace (dc_Meta object)) peer
            {[DRClusterNameAnnotation := om_Name (dc_Meta object)]}).

Definition nf_state_pending (object : DRCluster) (nf : NetworkFence) : bool :=
  bool_decide (nf_FenceState nf ≠ ClusterFenceState_string (dcs_ClusterFence (dc_Spec object))).

Definition checkFenceStatus (peer nfClass : string) : COp (option GoError) :=
  r ← viewNF peer nfClass;
  match r with
  | inr e => mret (wrapf ("failed to get NetworkFence using MCV (error: " +:+ error_text e +:+ ")") e)
  | inl nf =>
      object ← gets cw_object;
      if nf_state_pending object nf
      then mret (errorf ("fence state in the NetworkFence resource is not changed to " +:+
                         ClusterFenceState_string (dcs_ClusterFence (dc_Spec object)) +:+ " yet"))
      else if bool_decide (nf_Result nf ≠ FencingOperationResultSucceeded) then
        setDRClusterFencingFailedCondition "fencing operation not successful";;
        mret (errorf "fencing operation result not successful")
      else mret None
  end.

Definition requeueIfNFMWExists (peer : string) : COp (option GoError) :=
  name ← gets object_name;
  r ← on_hub (FindClusterManifestWorkByType name MWTypeNF peer);
  mret (match r with
        | inr e => if IsNotFound e then None
                   else wrapf ("failed to get MW for NetworkFence " +:+ error_text e) e
        | inl _ => errorf "NetworkFence not found. But MW still exists"
        end).

Definition checkUnfenceStatus (peer nfClass : string) : COp (option GoError) :=
  r ← viewNF peer nfClass;
  match r with
  | inr e =>
      if IsNotFound e then requeueIfNFMWExists peer
      else mret (wrapf ("failed to get NetworkFence using MCV (error: " +:+ error_text e) e)
  | inl nf =>
      object ← gets cw_object;
      if nf_state_pending object nf
      then mret (errorf ("fence state in the NetworkFence resource is not changed to " +:+
                         ClusterFenceState_string (dcs_ClusterFence (dc_Spec object)) +:+ " yet"))
      else if bool_decide (nf_Result nf ≠ FencingOperationResultSucceeded) then
        setDRClusterUnfencingFailedCondition "unfencing operation not successful";;
        mret (errorf "un operation result not successful")
      else mret None
  end.

Fixpoint check_all (check : string → COp (option GoError)) (nfClasses : list string) : COp (option GoError) :=
  match nfClasses with
  | [] => mret None
  | nfClass :: nfClasses' =>
      err ← check nfClass;
      match err with
      | Some e => mret (Some e)
      | None => check_all check nfClasses'
      end
  end.

(** ** Cleaning up *)

Fixpoint delete_nf_works (object cluster : string) (nfClasses : list string) : Op (option GoError) :=
  match nfClasses with
  | [] => mret None
  | nfClass :: nfClasses' =>
      let mwName := ManifestWorkName (nf_work_name object nfClass) cluster MWTypeNF in
      err ← DeleteManifestWork mwName cluster;
      match err with
      | Some e => mret (wrapf ("failed to delete NetworkFence MW " +:+ mwName +:+ " from cluster " +:+ cluster +:+
                               ": " +:+ error_text e) e)
      | None => delete_nf_works object cluster nfClasses'
      end
  end.

Definition removeFencingCR (cluster : string) : COp (bool * option GoError) :=
  r ← on_hub (getNFClassesFromDRClusterConfig cluster);
  match r with
  | inr e => mret (true, wrapf ("failed to get NetworkFenceClasses: " +:+ error_text e) e)
  | inl nfClasses =>
      name ← gets object_name;
      err ← on_hub (delete_nf_works name cluster nfClasses);
      mret (match err with Some e => (true, Some e) | None => (false, None) end)
  end.

(** How many clusters were cleaned, and whether one has to be tried again. *)
Fixpoint remove_all (clusters : list string) (needRequeue : bool) (cleanedCount : nat) : COp (bool * nat) :=
  match clusters with
  | [] => mret (needRequeue, cleanedCount)
  | c :: clusters' =>
      r ← removeFencingCR c;
      match r with
      | (false, None) => remove_all clusters' needRequeue (S cleanedCount)
      | _ => remove_all clusters' true cleanedCount
      end
  end.

Definition cleanClusters (clusters : list string) : COp (bool * option GoError) :=
  r ← remove_all clusters false 0;
  (if bool_decide (r.2 = length clusters)
   then setDRClusterCleanCondition "fencing resource cleaned from cluster"
   else setDRClusterCleaningCondition "NetworkFence resource clean started");;
  mret (r.1, None).

(** ** Fencing and unfencing *)

Definition clusterFence : COp (bool * option GoError) :=
  r ← peer_of_object;
  match r with
  | inr e => mret (true, Some e)
  | inl peerCluster =>
      let peer := om_Name (dc_Meta peerCluster) in
      r ← on_hub (getNFClassesFromDRClusterConfig peer);
      match r with
      | inr e => mret (true, wrapf ("failed to get NetworkFenceClasses: " +:+ error_text e) e)
      | inl nfClasses =>
          phase ← getLastDRClusterPhase;
          if negb (isFencingOrFenced phase) then
            err ← createNFManifestWorks peer nfClasses;
            match err with
            | Some e =>
                setDRClusterFencingFailedCondition ("NetworkFence ManifestWork creation failed: " +:+ error_text e);;
                name ← gets object_name;
                mret (true, wrapf ("failed to create the NetworkFence MW on cluster " +:+ peer +:+ " to fence " +:+
                                   name +:+ ": " +:+ error_text e) e)
            | None =>
                setDRClusterFencingCondition "ManifestWork for NetworkFence fence operation created";;
                setDRClusterPhase Fencing;;
                mret (true, None)
            end
          else
            err ← check_all (checkFenceStatus peer) nfClasses;
            match err with
            | Some e => mret (true, Some e)
            | None =>
                setDRClusterFencedCondition "Cluster successfully fenced";;
                advanceToNextPhase;;
                mret (false, None)
            end
      end
  end.

Definition clusterUnfence : COp (bool * option GoError) :=
  r ← peer_of_object;
  match r with
  | inr e => mret (true, Some e)
  | inl peerCluster =>
      let peer := om_Name (dc_Meta peerCluster) in
      r ← on_hub (getNFClassesFromDRClusterConfig peer);
      match r with
      | inr e => mret (true, wrapf ("failed to get NetworkFenceClasses: " +:+ error_text e) e)
      | inl nfClasses =>
          phase ← getLastDRClusterPhase;
          if negb (isUnfencingOrUnfenced phase) then
            err ← createNFManifestWorks peer nfClasses;
            match err with
            | Some e =>
                setDRClusterUnfencingFailedCondition ("NetworkFence ManifestWork for unfence failed: " +:+ error_text e);;
                name ← gets object_name;
                mret (true, wrapf ("failed to generate NetworkFence MW on cluster " +:+ peer +:+ " to unfence " +:+
                                   name +:+ ": " +:+ error_text e) e)
            | None =>
                setDRClusterUnfencingCondition "ManifestWork for NetworkFence unfence operation created";;
                setDRClusterPhase Unfencing;;
                mret (true, None)
            end
          else
            err ← check_all (checkUnfenceStatus peer) nfClasses;
            match err with
            | Some e => mret (true, Some e)
            | None =>
                setDRClusterUnfencedCondition "Cluster successfully unfenced";;
                advanceToNextPhase;;
                name ← gets object_name;
                cleanClusters [name; peer]
            end
      end
  end.

Definition clusterFenceHandle : COp (bool * option GoError) :=
  fence ← gets (λ w, dcs_ClusterFence (dc_Spec (cw_object w)));
  match fence with
  | ClusterFenceStateUnfenced => clusterUnfence
  | ClusterFenceStateManuallyFenced =>
      setDRClusterFencedCondition "Cluster Manually fenced";;
      setDRClusterPhase Fenced;;
      mret (false, None)
  | ClusterFenceStateManuallyUnfenced =>
      setDRClusterCleanCondition "Cluster Manually Unfenced and clean";;
      setDRClusterPhase Unfenced;;
      mret (false, None)
  | ClusterFenceStateFenced => clusterFence
  | ClusterFenceStateUnset =>
      setDRClusterCleanCondition "Cluster Clean";;
      setDRClusterPhase Available;;
      mret (false, None)
  end.

Definition handleDeletion : COp (bool * option GoError) :=
  r ← peer_of_object;
  match r with
  | inr e => mret (true, Some e)
  | inl peerCluster =>
      name ← gets object_name;
      cleanClusters [name; om_Name (dc_Meta peerCluster)]
  end.
End fencing.
