(* ===== verification/Scenario.v ===== *)
(** Concrete inputs for the witnesses. *)

From Stdlib Require Import ZArith.
From S2P Require Import Prelude Meta Names Conditions Api PolicyPeers Events Telemetry NetworkMapping Hub.
From S2P Require Import ManifestWorks Views ClassViews DRClusters Fencing.

(** * A concrete hub

    Two managed clusters, east and west, one policy, one DRPC: the inputs at which
    the theorems about the orchestrator are evaluated. *)

(** No ConfigMap of a network mapping. *)
Definition no_mapping : MappingEnv := {|
  me_ConfigMap := λ _ _ name, inr (not_found name);
  me_Compile := λ _, inr (Errorf "no regular expressions" None);
  me_range_keys := elements;
  me_range_keys_perm := λ _, reflexivity _;
  me_Unmarshal := λ _, inl (mkRawNetworkMappingConfig "v1" []);
|}.

(** An environment where no API call fails, ranges are in key order and each
    cluster shows the VRG [views] gives it. *)
Definition calm (views : string → VolumeReplicationGroup + GoError) : Env := {|
  env_now := λ t, (Z.of_nat t * Second)%Z;
  env_api_err := λ _, None;
  env_GetVRGFromManagedCluster := λ _ _ _ c, views c;
  env_GetNSFromManagedCluster := λ _ _ ns, inl (named_meta ns "");
  env_GetRecipeFromManagedCluster := λ _ _ n ns, inl (mkRecipe (named_meta n ns) "");
  env_s3_vrg := λ _ _ _ n, inr (not_found n);
  env_list_drpcs := λ _ _ _, inl [];
  env_ReconcileVolSyncReplicationSecret := λ _ _ _, inl "secret";
  env_PropagateSecretToClusters := λ _ _ _ _ _, None;
  env_range := λ _ m, map_to_list m;
  env_range_perm := λ _ _, reflexivity _;
  env_mapping := no_mapping;
  env_fmt_placement := λ _, "placement";
  env_fmt_status := λ _, "status";
  env_fmt_vrgs := λ _, "vrgs";
  env_codec := canonical_codec;
|}.

Definition condition (ty : string) (st : ConditionStatus) : Condition := mkCondition ty st 0 0 "reason" "".

Definition drcluster (name : string) (fenced : ConditionStatus) : DRCluster :=
  mkDRCluster (named_meta name "") (mkDRClusterSpec [] ClusterFenceStateUnset name ("s3-" +:+ name))
    (mkDRClusterStatus Available [condition DRClusterConditionTypeFenced fenced] []).

Definition policy (interval : string) : DRPolicy :=
  mkDRPolicy (named_meta "policy" "")
    (mkDRPolicySpec interval zero_selector zero_selector zero_selector ["east"; "west"] None)
    (mkDRPolicyStatus [] [] [] []).

Definition instance (ty : DRType) (fenced : ConditionStatus) : DRPCInstance := {|
  d_drPolicy := policy "5m";
  d_drClusters := [drcluster "east" fenced; drcluster "west" ConditionFalse];
  d_drType := ty;
  d_volSyncDisabled := true;
  d_vrgNamespace := "ns";
  d_InstName := "app";
  d_numClustersQueriedSuccessfully := 2;
  d_savedInstanceStatus := zero_drpcstatus;
  d_RetainNamespaceSCCAcrossPeers := false;
  d_RamenOperandsNamespace := "ramen-ops";
  d_networkMappingRules := None;
|}.

(** A VRG asked to be [spec] that reports [state] and that all its data is safe. *)
Definition vrg (spec : ReplicationState) (state : State) : VolumeReplicationGroup :=
  mkVolumeReplicationGroup "VolumeReplicationGroup" "ramendr.openshift.io/v1alpha1" (named_meta "app" "ns")
    (zero_vrgspec <| vsp_ReplicationState := spec |>)
    (zero_vrgstatus <| vst_State := state |>
       <| vst_Conditions := (λ t, condition t ConditionTrue) <$>
            [VRGConditionTypeDataReady; VRGConditionTypeDataProtected; VRGConditionTypeClusterDataReady;
             VRGConditionTypeClusterDataProtected] |>
       <| vst_PrepareForFinalSyncComplete := true |> <| vst_FinalSyncComplete := true |>).

Definition as_primary : VolumeReplicationGroup := vrg Primary PrimaryState.
Definition as_secondary : VolumeReplicationGroup := vrg Secondary SecondaryState.

Definition vrg_work (c : string) (v : VolumeReplicationGroup) : ManifestWork :=
  mkManifestWork (named_meta (ManifestWorkName "app" "ns" MWTypeVRG) c) (mkManifestWorkSpec [MVRG v] None) [].

(** The application is preferred on east and fails over to west. *)
Definition drpc (action : DRAction) (dry : bool) : DRPlacementControl :=
  mkDRPlacementControl (named_meta "app" "ns")
    (mkDRPlacementControlSpec ("", "app") None "policy" "east" "west" zero_selector
       action dry None None false)
    zero_drpcstatus.

(** A hub whose ManifestWorks carry what the views show, the application placed on
    [home] by a PlacementRule. *)
Definition hub (d : DRPlacementControl) (views : gmap string VolumeReplicationGroup) (home : string) : World :=
  let decisions := if bool_decide (home = "") then [] else [mkPlacementDecision home home] in
  mkWorld d d views
    (list_to_map ((λ '(c, v), ((c, ManifestWorkName "app" "ns" MWTypeVRG), vrg_work c v)) <$> map_to_list views))
    (PlacementRule (named_meta "app" "ns") decisions) decisions [] NewEventReporter 0 false
    [] (Some (named_meta "app" "ns", [])) ∅ (drpc_Status d) "" ∅ 0.

(** Views as the managed clusters would answer. *)
Definition shown (views : gmap string VolumeReplicationGroup) (c : string) : VolumeReplicationGroup + GoError :=
  match views !! c with Some v => inl v | None => inr (not_found c) end.

(** Primary on east, secondary on west, and the other way round. *)
Definition home_east : gmap string VolumeReplicationGroup := {["east" := as_primary; "west" := as_secondary]}.
Definition home_west : gmap string VolumeReplicationGroup := {["east" := as_secondary; "west" := as_primary]}.
Definition all_secondary : gmap string VolumeReplicationGroup := {["east" := as_secondary; "west" := as_secondary]}.

(** * A concrete pair of DRClusters

    east is to be fenced off from the storage it shares with west: the inputs at
    which the theorems about DRClusters are evaluated. *)

Module FenceScene.
#[export] Instance env : Env := calm (shown ∅).

(** A cluster's classes: one NetworkFenceClass for the storage of one StorageClass. *)
Definition config : DRClusterConfig :=
  mkDRClusterConfig (named_meta "west" "") (mkDRClusterConfigSpec [] "west-id")
    (zero_dccstatus <| dcct_StorageClasses := ["ssd"] |> <| dcct_NetworkFenceClasses := ["fencer"] |>).

(** What agents report: the text of a NetworkFence's report is its state. *)
#[export] Instance codec : ViewCodec := {|
  json_VRG := λ _, inl as_primary;
  json_Namespace := λ _, inl (named_meta "ns" "");
  json_Recipe := λ _, inl (mkRecipe (named_meta "recipe" "ns") "");
  json_NetworkFence := λ s, inl (mkNetworkFence (named_meta "fence" "") "csi" "fencer" s [] ("", "") ∅ "Succeeded");
  json_NetworkFenceClass := λ _, inl (mkNetworkFenceClass
    (named_meta "fencer" "" <| om_Annotations := {[StorageIDLabel := "id-0,id-1"]} |>) "csi");
  json_MaintenanceMode := λ _, inr (not_found "mode");
  json_DRClusterConfig := λ _, inl config;
  json_StorageClass := λ _, inl (mkStorageClass
    (named_meta "ssd" "" <| om_Labels := {[StorageIDLabel := "id-1"]} |>) "csi" ∅);
  json_SnapshotClass := λ _, inr (not_found "class");
  json_ReplicationClass := λ _, inr (not_found "class");
  json_CRD := λ _, inr (not_found "crd");
  ConditionViewProcessing := "Processing";
  ReasonGetResourceFailed := "GetResourceFailed";
  ramen_GV := ("ramendr.openshift.io", "v1alpha1");
  csiaddons_GV := ("csiaddons.openshift.io", "v1alpha1");
  storage_GV := ("storage.k8s.io", "v1");
  snapshot_GV := ("snapshot.storage.k8s.io", "v1");
  replication_GV := ("replication.storage.openshift.io", "v1alpha1");
  core_GV := ("", "v1");
  recipe_GV := ("ramendr.openshift.io", "v1alpha1");
  apiextensions_GV := ("apiextensions.k8s.io", "v1");
  public_vgs_GV := ("groupsnapshot.storage.k8s.io", "v1beta1");
  private_vgs_GV := ("groupsnapshot.storage.openshift.io", "v1beta1");
  VGSCRDName := "volumegroupsnapshots.groupsnapshot.storage.k8s.io";
  VGSCRDPrivateName := "volumegroupsnapshots.groupsnapshot.storage.openshift.io";
|}.

Definition peers : DRPolicyStatus := mkDRPolicyStatus [] [] [mkPeerClass "" "" ["id-1"] "ssd" [] false false false] [].

#[export] Instance reads : ClusterReads := {|
  env_ManagedCluster := λ _ c, inl (mkManagedCluster c [condition "Joined" ConditionTrue] [("id.k8s.io", c)]);
  env_list_drpolicies := λ _, inl [policy "" <| drp_Status := peers |>];
  env_list_drclusters := λ _, inl [drcluster "east" ConditionFalse; drcluster "west" ConditionFalse];
  env_read_drcluster := λ _ c, inl (drcluster c ConditionFalse);
  ManagedClusterConditionJoined := "Joined";
|}.

#[export] Instance fence_api : FenceApi := {| FencingOperationResultSucceeded := "Succeeded" |}.

(** A view an agent has reported to. *)
Definition view (c name text : string) : (string * string) * ManagedClusterView :=
  ((c, name), mkManagedClusterView (named_meta name c) (mkViewScope "" "" "" "" "")
                [condition "Processing" ConditionTrue] text).

Definition nf_text (state : string) : list ((string * string) * ManagedClusterView) :=
  [view "west" "network-fence-fencer-east-nf-mcv" state].

Definition class_views : list ((string * string) * ManagedClusterView) :=
  [view "west" "west-drcconfig-mcv" ""; view "west" "fencer-nfc-mcv" ""; view "west" "ssd-sc-mcv" "";
   view "east" "east-drcconfig-mcv" ""; view "east" "fencer-nfc-mcv" ""; view "east" "ssd-sc-mcv" ""].

Definition east (fence : ClusterFenceState) (phase : DRClusterPhase) : DRCluster :=
  drcluster "east" ConditionFalse <| dc_Spec ::= λ s, s <| dcs_ClusterFence := fence |> <| dcs_CIDRs := ["10.0.0.0/8"] |> |>
    <| dc_Status ::= λ s, s <| dct_Phase := phase |> |>.

Definition scene (object : DRCluster) (views : list ((string * string) * ManagedClusterView)) : ClusterWorld :=
  mkClusterWorld (hub (drpc ActionNone false) ∅ "" <| w_views := list_to_map (class_views ++ views) |>)
    object object (dc_Status object) false.
End FenceScene.
