(* ===== verification/Placement.v ===== *)
(** * Placement decisions

    internal/controller/drplacementcontrol_controller.go, [ConvertToPlacementRule]
    to [retainPlacementClusterDecisionAsFailover] and
    [switchClusterDecisionRetainFailover]: reading the cluster an application is
    placed on, and moving it, while decisions retained for a failover stay. *)

From S2P Require Import Prelude Meta Names Api Hub.
From stdpp Require Import pretty.

Definition PlacementDecisionReasonFailoverRetained : string := "RetainedForFailover".
Definition MaxPlacementDecisionConflictCount : nat := 5.
Definition PlacementLabel : string := "cluster.open-cluster-management.io/placement".
Definition ExcludeFromVeleroBackup : string := "velero.io/exclude-from-backup".

(** [fmt.Sprintf(PlacementDecisionName, placement, index)] *)
Definition placementDecisionName (placement : string) (index : nat) : string :=
  placement +:+ "-decision-" +:+ pretty index.

Definition retained (c : ClusterDecision) : bool :=
  bool_decide (cd_Reason c = PlacementDecisionReasonFailoverRetained).

Section placement.
Context `{Env}.

(** The list call's selector: the placement's namespace and its label. *)
Definition decision_of (placement : ObjectMeta) (p : OCMPlacementDecision) : bool :=
  bool_decide (om_Namespace (opd_Meta p) = om_Namespace placement) &&
  bool_decide (om_Labels (opd_Meta p) !! PlacementLabel = Some (om_Name placement)).

Definition getPlacementDecisionFromPlacement (placement : ObjectMeta)
    : Op (option OCMPlacementDecision + GoError) :=
  let nsname := om_Namespace placement +:+ "/" +:+ om_Name placement in
  err ← api_err;
  match err with
  | Some _ => mret (inr (Errorf ("failed to list PlacementDecisions (placement: " +:+ nsname +:+ ")") None))
  | None =>
      pds ← gets w_pds;
      mret (match List.filter (decision_of placement) pds with
            | [] => inl None
            | [p] =>
                if bool_decide (1 < length (List.filter (λ c, negb (retained c)) (opd_Decisions p)))
                then inr (Errorf ("multiple placements found in PlacementDecision (Placement: "
                                   +:+ nsname +:+ ")") None)
                else inl (Some p)
            | _ => inr (Errorf ("multiple PlacementDecisions found for Placement (placement: "
                                 +:+ nsname +:+ ")") None)
            end)
  end.

Definition getClusterDecisionFromPlacementRule (decisions : list PlacementDecision) : ClusterDecision :=
  mkClusterDecision (match decisions with d :: _ => pd_ClusterName d | [] => "" end)
    "PlacementRule decision".

Definition getClusterDecisionFromPlacement (placement : ObjectMeta) : Op ClusterDecision :=
  r ← getPlacementDecisionFromPlacement placement;
  mret (match r with
        | inr _ | inl None => zero_cd
        | inl (Some p) => default zero_cd (find_first (λ c, negb (retained c)) (opd_Decisions p))
        end).

(** [getClusterDecision(d.userPlacement)] *)
Definition getClusterDecision : Op ClusterDecision :=
  p ← gets w_placement;
  match p with
  | PlacementRule _ decisions => mret (getClusterDecisionFromPlacementRule decisions)
  | Placement m => getClusterDecisionFromPlacement m
  | NoPlacement => mret zero_cd
  end.

(** The in-memory status changes before the write that may fail. *)
Definition createOrUpdatePlacementRuleDecision (m : ObjectMeta) (status : list PlacementDecision)
    (newCD : option ClusterDecision) : Op (option GoError) :=
  let newStatus := match newCD with
                   | Some c => [mkPlacementDecision (cd_ClusterName c) (cd_ClusterName c)]
                   | None => []
                   end in
  if bool_decide (newStatus ≠ status) then
    modify (λ w, w <| w_placement := PlacementRule m newStatus |>);;
    err ← Status_Update_rule newStatus;
    mret (match err with
          | Some e => wrapf ("failed to update userPlRule " +:+ om_Name m +:+ " (" +:+ error_text e +:+ ")") e
          | None => None
          end)
  else mret None.

(** The loop over names: [index] names have failed with a conflict already. *)
Fixpoint create_pd_loop (placement : ObjectMeta) (p : OCMPlacementDecision) (index fuel : nat)
    : Op (OCMPlacementDecision + GoError) :=
  match fuel with
  | O => mret (inr (Errorf ("multiple PlacementDecision conflicts found, unable to create a new" +:+
            " PlacementDecision for Placement " +:+ om_Namespace placement +:+ "/" +:+ om_Name placement) None))
  | S fuel =>
      err ← Create_pd p;
      match err with
      | None => mret (inl p)
      | Some e =>
          if negb (IsAlreadyExists e) then mret (inr e)
          else create_pd_loop placement
                 (p <| opd_Meta ::= λ m, m <| om_Name := placementDecisionName (om_Name placement) (S index) |> |>)
                 (S index) fuel
      end
  end.

Definition createPlacementDecision (placement : ObjectMeta) : Op (OCMPlacementDecision + GoError) :=
  let meta := named_meta (placementDecisionName (om_Name placement) 1) (om_Namespace placement)
              <| om_Labels := {[PlacementLabel := om_Name placement; ExcludeFromVeleroBackup := "true"]} |>
              <| om_OwnerReferences := [mkOwnerReference placementGVK.1 placementGVK.2 (om_Name placement) (om_UID placement) true] |> in
  let meta := (AddLabel meta CreatedByRamenLabel "true").2 in
  create_pd_loop placement (mkOCMPlacementDecision meta []) 1 MaxPlacementDecisionConflictCount.

Definition createOrUpdatePlacementDecision (placement : ObjectMeta) (newCD : option ClusterDecision)
    : Op (option GoError) :=
  r ← getPlacementDecisionFromPlacement placement;
  r ← (match r with
       | inr e => mret (inr e)
       | inl None => createPlacementDecision placement
       | inl (Some p) =>
           if bool_decide (map_get (om_Labels (opd_Meta p)) ExcludeFromVeleroBackup ≠ "true") then
             let p' := p <| opd_Meta := (AddLabel (opd_Meta p) ExcludeFromVeleroBackup "true").2 |> in
             err ← Update_pd p';
             mret (match err with Some e => inr e | None => inl p' end)
           else mret (inl p)
       end : Op (OCMPlacementDecision + GoError));
  match r with
  | inr e => mret (Some e)
  | inl p =>
      let decisions := List.filter retained (opd_Decisions p) ++
                       match newCD with Some c => [c] | None => [] end in
      err ← Status_Update_pd (p <| opd_Decisions := decisions |>);
      mret (match err with
            | Some e => wrapf ("failed to update placementDecision status (" +:+ error_text e +:+ ")") e
            | None => None
            end)
  end.

Definition no_placement : option GoError := errorf "failed to find Placement or PlacementRule".

Definition updateUserPlacementStatusDecision (newCD : option ClusterDecision) : Op (option GoError) :=
  p ← gets w_placement;
  match p with
  | PlacementRule m decisions => createOrUpdatePlacementRuleDecision m decisions newCD
  | Placement m => createOrUpdatePlacementDecision m newCD
  | NoPlacement => mret no_placement
  end.

Definition removePlacementClusterDecisionForFailover (placement : ObjectMeta) (clusterName : string)
    : Op (option GoError) :=
  r ← getPlacementDecisionFromPlacement placement;
  match r with
  | inr e => mret (Some e)
  | inl None => mret None
  | inl (Some p) =>
      let drops c := retained c && bool_decide (cd_ClusterName c = clusterName) in
      if existsb drops (opd_Decisions p) then
        err ← Status_Update_pd (p <| opd_Decisions := List.filter (λ c, negb (drops c)) (opd_Decisions p) |>);
        mret (match err with
              | Some e => wrapf ("failed to update placementDecision status to drop cluster decision (" +:+
                            clusterName +:+ ") for failover (" +:+ error_text e +:+ ")") e
              | None => None
              end)
      else mret None
  end.

Definition removeClusterDecisionForFailover (clusterName : string) : Op (option GoError) :=
  p ← gets w_placement;
  match p with
  | PlacementRule _ _ => mret None
  | Placement m => removePlacementClusterDecisionForFailover m clusterName
  | NoPlacement => mret no_placement
  end.

Definition retainPlacementClusterDecisionAsFailover (placement : ObjectMeta) (cluster : string)
    : Op (option GoError) :=
  r ← getPlacementDecisionFromPlacement placement;
  r ← (match r with
       | inr e => mret (inr e)
       | inl None => createPlacementDecision placement
       | inl (Some p) => mret (inl p)
       end : Op (OCMPlacementDecision + GoError));
  match r with
  | inr e => mret (Some e)
  | inl p =>
      let decisions := match opd_Decisions p with
                       | [] => [mkClusterDecision cluster ""]
                       | ds => ds
                       end in
      let target c := bool_decide (cd_ClusterName c = cluster) && negb (retained c) in
      match find_first target decisions with
      | None => mret None
      | Some _ =>
          err ← Status_Update_pd (p <| opd_Decisions := update_first target
                  (λ c, c <| cd_Reason := PlacementDecisionReasonFailoverRetained |>) decisions |>);
          mret (match err with
                | Some e => wrapf ("failed to update placementDecision status to retain cluster decision for failover ("
                                    +:+ error_text e +:+ ")") e
                | None => None
                end)
      end
  end.

Definition retainClusterDecisionAsFailover (cluster : string) : Op (option GoError) :=
  p ← gets w_placement;
  match p with
  | PlacementRule _ _ => mret None
  | Placement m => retainPlacementClusterDecisionAsFailover m cluster
  | NoPlacement => mret no_placement
  end.

(** The loop's body on one decision, with its contribution to [updated]. *)
Definition switch_decision (cluster : string) (c : ClusterDecision) : bool * ClusterDecision :=
  if bool_decide (cd_ClusterName c = cluster) then
    if retained c then (true, c <| cd_Reason := cd_ClusterName c |>) else (false, c)
  else
    if negb (retained c) then (true, c <| cd_Reason := PlacementDecisionReasonFailoverRetained |>)
    else (false, c).

Definition switchPlacementClusterDecisionRetainFailover (placement : ObjectMeta) (cluster : string)
    : Op (option GoError) :=
  r ← getPlacementDecisionFromPlacement placement;
  match r with
  | inr e => mret (Some e)
  | inl None => mret None
  | inl (Some p) =>
      let switched := switch_decision cluster <$> opd_Decisions p in
      if existsb fst switched then
        err ← Status_Update_pd (p <| opd_Decisions := snd <$> switched |>);
        mret (match err with
              | Some e => wrapf ("failed to update placementDecision status to switch retained failover reason ("
                                  +:+ error_text e +:+ ")") e
              | None => None
              end)
      else mret None
  end.

Definition switchClusterDecisionRetainFailover (cluster : string) : Op (option GoError) :=
  p ← gets w_placement;
  match p with
  | PlacementRule _ _ => mret None
  | Placement m => switchPlacementClusterDecisionRetainFailover m cluster
  | NoPlacement => mret no_placement
  end.
End placement.
