(* ===== verification/PlacementSpec.v ===== *)
(** * Placement decisions, abstractly

    What Placement.v does to PlacementDecision objects, as functions on the list of
    cluster decisions of one Placement, and the theorem that the API-level
    operations implement them atomically: a success applies the function, any
    failure leaves the decisions as they were. *)

From S2P Require Import Prelude Meta Names Api Hub Placement Scenario.

(** ** The abstract operations *)

Inductive placement_op :=
  | OpSet (cd : option ClusterDecision)   (* updateUserPlacementStatusDecision *)
  | OpRetain (cluster : string)           (* retainClusterDecisionAsFailover *)
  | OpRemove (cluster : string)           (* removeClusterDecisionForFailover *)
  | OpSwitch (cluster : string).          (* switchClusterDecisionRetainFailover *)

(** A decision for [cluster] that is in force. *)
Definition current_for (cluster : string) (c : ClusterDecision) : bool :=
  bool_decide (cd_ClusterName c = cluster) && negb (retained c).

(** The reasons after a switch to [cluster]: its own decisions are in force, with the
    cluster's name for the reason of one that was retained, and all others are
    retained for a failover. *)
Definition switched_reason (cluster name reason : string) : string :=
  if decide (name = cluster) then
    if decide (reason = PlacementDecisionReasonFailoverRetained) then cluster else reason
  else PlacementDecisionReasonFailoverRetained.

Definition abs_op (op : placement_op) (ds : list ClusterDecision) : list ClusterDecision :=
  match op with
  | OpSet cd => List.filter retained ds ++ match cd with Some c => [c] | None => [] end
  | OpRetain cluster =>
      update_first (current_for cluster) (λ c, c <| cd_Reason := PlacementDecisionReasonFailoverRetained |>)
        (match ds with [] => [mkClusterDecision cluster ""] | _ => ds end)
  | OpRemove cluster => List.filter (λ c, negb (retained c && bool_decide (cd_ClusterName c = cluster))) ds
  | OpSwitch cluster =>
      (λ c, mkClusterDecision (cd_ClusterName c) (switched_reason cluster (cd_ClusterName c) (cd_Reason c))) <$> ds
  end.

(** The decision in force. *)
Definition abs_current (ds : list ClusterDecision) : ClusterDecision :=
  default zero_cd (find_first (λ c, negb (retained c)) ds).

Definition pd_key (p : OCMPlacementDecision) : string * string :=
  (om_Namespace (opd_Meta p), om_Name (opd_Meta p)).

(** The API server keeps one object per namespace and name. *)
Definition pds_ok (w : World) : Prop := NoDup (pd_key <$> w_pds w).

Section spec.
Context `{Env} (m : ObjectMeta).

Definition run_op (op : placement_op) : Op (option GoError) :=
  match op with
  | OpSet cd => updateUserPlacementStatusDecision cd
  | OpRetain c => retainClusterDecisionAsFailover c
  | OpRemove c => removeClusterDecisionForFailover c
  | OpSwitch c => switchClusterDecisionRetainFailover c
  end.

(** The PlacementDecisions of the Placement, and their decisions. *)
Definition decision_objects (w : World) : list OCMPlacementDecision :=
  List.filter (decision_of m) (w_pds w).
Definition decisions (w : World) : list ClusterDecision := concat (opd_Decisions <$> decision_objects w).

(** ** Writing one object of a list *)

Lemma same_object_key p q : same_object (opd_Meta p) (opd_Meta q) = true ↔ pd_key p = pd_key q.
Proof.
  unfold same_object, pd_key. rewrite andb_true_iff, !bool_decide_eq_true.
  split; [by intros [-> ->]|]. by intros [= -> ->].
Qed.

Lemma update_first_keys p f l :
  (∀ q, pd_key (f q) = pd_key q) →
  pd_key <$> update_first (λ q, same_object (opd_Meta q) (opd_Meta p)) f l = pd_key <$> l.
Proof. intros Hf. apply update_first_fmap. auto. Qed.

Lemma key_unique l (p q : OCMPlacementDecision) :
  NoDup (pd_key <$> l) → p ∈ l → q ∈ l → pd_key p = pd_key q → p = q.
Proof.
  induction l as [|a l IH]; [set_solver|]. simpl. intros [Ha Hn]%NoDup_cons Hp Hq E.
  apply elem_of_cons in Hp as [->|Hp]; apply elem_of_cons in Hq as [->|Hq]; auto; exfalso; apply Ha.
  - rewrite E. by apply list_elem_of_fmap_2.
  - rewrite <- E. by apply list_elem_of_fmap_2.
Qed.

Lemma filter_update_first (P D : OCMPlacementDecision → bool) f l :
  (∀ x, x ∈ l → P x = true → D x = true ∧ D (f x) = true) →
  List.filter D (update_first P f l) = update_first P f (List.filter D l).
Proof.
  induction l as [|a l IH]; intros Hl; [done|]. simpl. destruct (P a) eqn:Ep; simpl.
  - destruct (Hl a) as [-> ->]; [set_solver|done|]. simpl. by rewrite Ep.
  - destruct (D a); simpl; rewrite ?Ep, IH; set_solver.
Qed.

(** A write to the only PlacementDecision of the Placement. *)
Lemma write_only l p q f :
  NoDup (pd_key <$> l) → List.filter (decision_of m) l = [p] → pd_key q = pd_key p →
  decision_of m (f p) = true →
  List.filter (decision_of m) (update_first (λ x, same_object (opd_Meta x) (opd_Meta q)) f l) = [f p].
Proof.
  intros Hn Hl Ek Hf.
  assert (Hp : p ∈ l ∧ decision_of m p = true).
  { assert (Hp : p ∈ List.filter (decision_of m) l) by (rewrite Hl; set_solver).
    by rewrite list_elem_of_In, filter_In, <- list_elem_of_In in Hp. }
  rewrite filter_update_first.
  - rewrite Hl. simpl. by rewrite (proj2 (same_object_key p q)).
  - intros x Hx Hs%same_object_key. assert (x = p) as ->; [|tauto].
    eapply key_unique; [exact Hn|done|tauto|congruence].
Qed.

(** ** The API calls *)

(** What an operation may do to the PlacementDecisions: apply [g] to the decisions
    on success, nothing on failure. *)
Definition outcome (g : list ClusterDecision → list ClusterDecision) (w : World)
    (r : option GoError * World) : Prop :=
  pds_ok r.2 ∧ w_placement r.2 = w_placement w ∧
  decisions r.2 = match r.1 with None => g (decisions w) | Some _ => decisions w end ∧
  (r.1 = None → length (decision_objects r.2) ≤ 1).

Lemma get_spec w :
  let r := getPlacementDecisionFromPlacement m w in
  w_pds r.2 = w_pds w ∧ w_placement r.2 = w_placement w ∧
  match r.1 with
  | inr _ => True
  | inl None => decision_objects w = []
  | inl (Some p) => decision_objects w = [p]
  end.
Proof.
  unfold getPlacementDecisionFromPlacement. rewrite run_bind. simpl.
  destruct (env_api_err _); simpl; [done|]. unfold decision_objects.
  destruct (List.filter _ _) as [|p [|]]; [done| |done]. by case_bool_decide.
Qed.

Lemma write_pd_spec p q f w :
  pds_ok w → decision_objects w = [p] → pd_key q = pd_key p → decision_of m (f p) = true →
  (∀ x, pd_key x = pd_key q → pd_key (f x) = pd_key x) →
  let r := write_pd q f w in
  pds_ok r.2 ∧ w_placement r.2 = w_placement w ∧
  decision_objects r.2 = match r.1 with None => [f p] | Some _ => [p] end.
Proof.
  intros Hok Ho Ek Hf Hkey. unfold write_pd. rewrite run_bind. simpl.
  destruct (env_api_err _); simpl; [done|]. rewrite run_bind. simpl.
  match goal with |- context [existsb ?b ?l] => destruct (existsb b l) end; simpl; [|done].
  split_and!; [|done|by apply write_only].
  unfold pds_ok. simpl. rewrite update_first_fmap; [done|].
  intros x Hx%same_object_key. by apply Hkey.
Qed.

Lemma Status_Update_pd_spec p q w :
  pds_ok w → decision_objects w = [p] → opd_Meta q = opd_Meta p →
  outcome (λ _, opd_Decisions q) w (Status_Update_pd q w).
Proof.
  intros Hok Ho Em. unfold Status_Update_pd.
  assert (Hp : decision_of m p = true).
  { assert (Hp : p ∈ decision_objects w) by (rewrite Ho; set_solver).
    by rewrite list_elem_of_In in Hp; apply filter_In in Hp as [_ ?]. }
  destruct (write_pd_spec p q (λ x, x <| opd_Decisions := opd_Decisions q |>) w Hok Ho) as (?&?&E);
    [unfold pd_key; by rewrite Em|done|done|].
  split_and!; [done|done| |].
  - unfold decisions. rewrite E, Ho. destruct (write_pd _ _ _).1; simpl; by rewrite ?app_nil_r.
  - rewrite E. intros ->. done.
Qed.

Lemma Create_pd_spec p w :
  let r := Create_pd p w in
  w_placement r.2 = w_placement w ∧
  match r.1 with
  | Some _ => w_pds r.2 = w_pds w
  | None => (pd_key p ∉ (pd_key <$> w_pds w)) ∧ w_pds r.2 = w_pds w ++ [p]
  end.
Proof.
  unfold Create_pd. rewrite run_bind. simpl. destruct (env_api_err _); simpl; [done|].
  rewrite run_bind. simpl. destruct (existsb _ (w_pds w)) eqn:Ex; simpl; [done|].
  split_and!; [done| |done]. intros (q&Eq&Hq)%list_elem_of_fmap.
  assert (existsb (λ q, same_object (opd_Meta q) (opd_Meta p)) (w_pds w) = true); [|congruence].
  apply existsb_exists. exists q. split; [by apply list_elem_of_In|]. by apply same_object_key.
Qed.

Lemma create_pd_loop_spec p i n w :
  pds_ok w → decision_objects w = [] → decision_of m p = true → opd_Decisions p = [] →
  let r := create_pd_loop m p i n w in
  pds_ok r.2 ∧ w_placement r.2 = w_placement w ∧
  match r.1 with
  | inl p' => decision_objects r.2 = [p'] ∧ opd_Decisions p' = []
  | inr _ => decision_objects r.2 = []
  end.
Proof.
  revert p i w. induction n as [|n IH]; intros p i w Hok Ho Hp Ed; [done|]. simpl. rewrite run_bind.
  pose proof (Create_pd_spec p w) as [Epl Hc]. destruct (Create_pd p w) as [[e|] w1]; simpl in *.
  - assert (pds_ok w1 ∧ decision_objects w1 = []) as [??]
      by (unfold pds_ok, decision_objects in *; by rewrite Hc).
    destruct (IsAlreadyExists e); simpl; [|done]. rewrite <- Epl. by apply IH.
  - destruct Hc as [Hnew Epds]. unfold pds_ok, decision_objects in *. rewrite Epds. split_and!; [|done| |done].
    + rewrite fmap_app. apply NoDup_app. split_and!; [done| |apply NoDup_singleton].
      intros k Hk Hk'. simpl in Hk'. apply list_elem_of_singleton in Hk'. congruence.
    + rewrite List.filter_app. simpl. by rewrite Hp, Ho.
Qed.

Lemma createPlacementDecision_spec w :
  pds_ok w → decision_objects w = [] →
  let r := createPlacementDecision m w in
  pds_ok r.2 ∧ w_placement r.2 = w_placement w ∧
  match r.1 with
  | inl p' => decision_objects r.2 = [p'] ∧ opd_Decisions p' = []
  | inr _ => decision_objects r.2 = []
  end.
Proof.
  intros Hok Ho. apply create_pd_loop_spec; try done. unfold decision_of.
  assert (L : ∀ o, om_Labels (AddLabel o CreatedByRamenLabel "true").2 !! PlacementLabel =
                   om_Labels o !! PlacementLabel ∧
                   om_Namespace (AddLabel o CreatedByRamenLabel "true").2 = om_Namespace o).
  { intros o. unfold AddLabel. case_bool_decide; simpl; [done|]. by rewrite lookup_insert_ne by done. }
  cbn [opd_Meta]. rewrite !(proj1 (L _)), !(proj2 (L _)). simpl. rewrite bd_refl. simpl.
  apply bool_decide_eq_true_2. by rewrite lookup_insert_eq.
Qed.

(** ** Each operation implements its abstract counterpart *)

Lemma outcome_error g w e w' :
  pds_ok w → w_pds w' = w_pds w → w_placement w' = w_placement w → outcome g w (Some e, w').
Proof.
  intros Hok E Ep. unfold outcome, pds_ok, decisions, decision_objects in *. simpl. by rewrite E.
Qed.

Lemma outcome_same g w w' :
  pds_ok w → w_pds w' = w_pds w → w_placement w' = w_placement w → g (decisions w) = decisions w →
  length (decision_objects w) ≤ 1 → outcome g w (None, w').
Proof.
  intros Hok E Ep Hg Hl. unfold outcome, pds_ok. cbn [fst snd]. rewrite Hg.
  unfold pds_ok, decisions, decision_objects in *. by rewrite E.
Qed.

(** A status write after a state with the same objects, its error wrapped. *)
Lemma outcome_write g p q w w1 wrap :
  pds_ok w1 → w_placement w1 = w_placement w → decisions w1 = decisions w →
  decision_objects w1 = [p] → opd_Meta q = opd_Meta p → opd_Decisions q = g (decisions w) →
  (∀ e, is_Some (wrap e)) →
  outcome g w ((err ← Status_Update_pd q; mret (match err with Some e => wrap e | None => None end)) w1).
Proof.
  intros Hok Ep Ed Ho Em Eq Hw. rewrite run_bind.
  destruct (Status_Update_pd_spec p q w1 Hok Ho Em) as (?&?&E&?).
  destruct (Status_Update_pd q w1) as [[e|] w2]; cbn [fst snd] in *; rewrite run_ret.
  - destruct (Hw e) as [x ->]. split_and!; cbn [fst snd]; [done|congruence|by rewrite E|done].
  - split_and!; cbn [fst snd]; [done|congruence| |done]. by rewrite E, Eq.
Qed.

Lemma decisions_one w p : decision_objects w = [p] → decisions w = opd_Decisions p.
Proof. unfold decisions. intros ->. simpl. by rewrite app_nil_r. Qed.

Lemma decisions_none w : decision_objects w = [] → decisions w = [].
Proof. unfold decisions. by intros ->. Qed.

(** After the read: what the rest of an operation may assume. *)
Lemma get_outcome g w (f : option OCMPlacementDecision + GoError → Op (option GoError)) :
  pds_ok w →
  (∀ e w1, w_pds w1 = w_pds w → w_placement w1 = w_placement w → outcome g w (f (inr e) w1)) →
  (∀ w1, pds_ok w1 → w_placement w1 = w_placement w → decisions w1 = decisions w →
     w_pds w1 = w_pds w → decision_objects w1 = [] → outcome g w (f (inl None) w1)) →
  (∀ p w1, pds_ok w1 → w_placement w1 = w_placement w → decisions w1 = decisions w →
     w_pds w1 = w_pds w → decision_objects w1 = [p] → outcome g w (f (inl (Some p)) w1)) →
  outcome g w ((r ← getPlacementDecisionFromPlacement m; f r) w).
Proof.
  intros Hok He Hn Hs. rewrite run_bind. destruct (get_spec w) as (Ep&El&Hr).
  destruct (getPlacementDecisionFromPlacement m w) as [[[p|]|e] w1]; cbn [fst snd] in *;
    [apply Hs|apply Hn|by apply He];
    unfold pds_ok, decisions, decision_objects in *; by rewrite ?Ep.
Qed.

Lemma remove_outcome c w :
  pds_ok w → outcome (abs_op (OpRemove c)) w (removePlacementClusterDecisionForFailover m c w).
Proof.
  intros Hok. apply get_outcome; [done|intros; by apply outcome_error| |].
  - intros w1 ??? E Ho. assert (Ho' : decision_objects w = []) by (unfold decision_objects in *; by rewrite <- E).
    rewrite run_ret. apply outcome_same; try done; [by rewrite decisions_none|]. rewrite Ho'. simpl. lia.
  - intros p w1 Hok1 Ep Ed E Ho. cbv zeta.
    assert (Edp : decisions w = opd_Decisions p) by (rewrite <- Ed; by apply decisions_one).
    assert (Ho' : length (decision_objects w) ≤ 1) by (unfold decision_objects in *; by rewrite <- E, Ho).
    destruct (existsb _ _) eqn:Ex.
    + eapply outcome_write; try done. by rewrite Edp.
    + rewrite run_ret. apply outcome_same; try done. rewrite Edp. simpl. clear -Ex.
      induction (opd_Decisions p) as [|d l IH]; [done|]. simpl in *.
      apply orb_false_iff in Ex as [-> Ex]. simpl. by rewrite IH.
Qed.

(** The loop's body gives each decision its new reason, and notices each change. *)
Lemma switch_decision_switched cluster c :
  (switch_decision cluster c).2 =
    mkClusterDecision (cd_ClusterName c) (switched_reason cluster (cd_ClusterName c) (cd_Reason c)) ∧
  ((switch_decision cluster c).1 = false → (switch_decision cluster c).2 = c).
Proof.
  destruct c as [n r]. unfold switch_decision, switched_reason, retained. simpl.
  repeat case_bool_decide; repeat case_decide; simpl; try done; by subst.
Qed.

Lemma switch_outcome c w :
  pds_ok w → outcome (abs_op (OpSwitch c)) w (switchPlacementClusterDecisionRetainFailover m c w).
Proof.
  intros Hok. apply get_outcome; [done|intros; by apply outcome_error| |].
  - intros w1 ??? E Ho. assert (Ho' : decision_objects w = []) by (unfold decision_objects in *; by rewrite <- E).
    rewrite run_ret. apply outcome_same; try done; [by rewrite decisions_none|]. rewrite Ho'. simpl. lia.
  - intros p w1 Hok1 Ep Ed E Ho. cbv zeta.
    assert (Edp : decisions w = opd_Decisions p) by (rewrite <- Ed; by apply decisions_one).
    assert (Ho' : length (decision_objects w) ≤ 1) by (unfold decision_objects in *; by rewrite <- E, Ho).
    destruct (existsb _ _) eqn:Ex.
    + eapply outcome_write; try done. rewrite Edp. simpl. rewrite <- list_fmap_compose.
      apply list_fmap_ext. intros i d _. apply switch_decision_switched.
    + rewrite run_ret. apply outcome_same; try done. rewrite Edp. simpl. clear -Ex.
      induction (opd_Decisions p) as [|d l IH]; [done|]. simpl in *.
      apply orb_false_iff in Ex as [Ed Ex]. f_equal; [|by apply IH].
      destruct (switch_decision_switched c d) as [<- Hsame]. by apply Hsame.
Qed.

(** The object an operation works on: the one read, or a new one without decisions. *)
Lemma create_outcome g w w1 (k : OCMPlacementDecision → Op (option GoError)) :
  pds_ok w1 → w_placement w1 = w_placement w → decisions w1 = decisions w → decision_objects w1 = [] →
  (∀ p w2, pds_ok w2 → w_placement w2 = w_placement w → decisions w2 = decisions w →
     decision_objects w2 = [p] → outcome g w (k p w2)) →
  outcome g w ((r ← createPlacementDecision m;
                match r with inr e => mret (Some e) | inl p => k p end) w1).
Proof.
  intros Hok Ep Ed Ho Hk. rewrite run_bind. destruct (createPlacementDecision_spec w1 Hok Ho) as (?&Ep'&Hr).
  assert (Ew : decisions w = []) by (rewrite <- Ed; by apply decisions_none).
  destruct (createPlacementDecision m w1) as [[p|e] w2]; cbn [fst snd] in *.
  - destruct Hr as [Ho2 Edp]. apply Hk; [done|congruence| |done].
    by rewrite Ew, (decisions_one w2 p Ho2).
  - rewrite run_ret. split_and!; cbn [fst snd]; [done|congruence| |done]. by rewrite Ew, (decisions_none w2).
Qed.

Lemma retain_outcome c w :
  pds_ok w → outcome (abs_op (OpRetain c)) w (retainPlacementClusterDecisionAsFailover m c w).
Proof.
  intros Hok.
  assert (K : ∀ p w2, pds_ok w2 → w_placement w2 = w_placement w → decisions w2 = decisions w →
     decision_objects w2 = [p] → outcome (abs_op (OpRetain c)) w
      (let ds := match opd_Decisions p with [] => [mkClusterDecision c ""] | ds => ds end in
       match find_first (current_for c) ds with
       | None => mret None
       | Some _ =>
           err ← Status_Update_pd (p <| opd_Decisions := update_first (current_for c)
                   (λ c, c <| cd_Reason := PlacementDecisionReasonFailoverRetained |>) ds |>);
           mret (match err with
                 | Some e => wrapf ("failed to update placementDecision status to retain cluster decision for failover ("
                                     +:+ error_text e +:+ ")") e
                 | None => None
                 end)
       end w2)).
  { intros p w2 Hok2 Ep Ed Ho. cbv zeta. pose proof (decisions_one w2 p Ho) as Edp. rewrite Ed in Edp.
    destruct (find_first _ _) eqn:Ef.
    - eapply outcome_write; try done. rewrite Edp. simpl. by destruct (opd_Decisions p).
    - rewrite run_ret. split_and!; cbn [fst snd]; [done|done| |by rewrite Ho]. rewrite Ed, Edp. simpl.
      destruct (opd_Decisions p); [|by rewrite update_first_none].
      exfalso. revert Ef. unfold current_for. simpl. by rewrite bd_refl. }
  apply get_outcome; [done| | |].
  - intros e w1 ??. rewrite run_bind, run_ret. by apply outcome_error.
  - intros w1 ?????. by apply create_outcome.
  - intros p w1 ?????. rewrite run_bind, run_ret. by apply K.
Qed.

Lemma set_outcome cd w :
  pds_ok w → outcome (abs_op (OpSet cd)) w (createOrUpdatePlacementDecision m cd w).
Proof.
  intros Hok.
  assert (K : ∀ p w2, pds_ok w2 → w_placement w2 = w_placement w → decisions w2 = decisions w →
     decision_objects w2 = [p] → outcome (abs_op (OpSet cd)) w
      ((let decisions := List.filter retained (opd_Decisions p) ++
                        match cd with Some c => [c] | None => [] end in
       err ← Status_Update_pd (p <| opd_Decisions := decisions |>);
       mret (match err with
             | Some e => wrapf ("failed to update placementDecision status (" +:+ error_text e +:+ ")") e
             | None => None
             end)) w2)).
  { intros p w2 Hok2 Ep Ed Ho. cbv zeta. eapply outcome_write; try done.
    by rewrite <- Ed, (decisions_one w2 p Ho). }
  apply get_outcome; [done| | |].
  - intros e w1 ??. rewrite run_bind, run_ret. by apply outcome_error.
  - intros w1 ?????. by apply create_outcome.
  - intros p w1 Hok1 Ep Ed E Ho. rewrite run_bind. cbv zeta. case_bool_decide as Hl.
    2:{ rewrite run_ret. by apply K. }
    set (p' := p <| opd_Meta := _ |>). rewrite run_bind.
    assert (Ek : pd_key p' = pd_key p) by (unfold p', pd_key, AddLabel; simpl; by case_bool_decide).
    destruct (write_pd_spec p p' (λ q, q <| opd_Meta := opd_Meta p' |>) w1 Hok1 Ho Ek) as (Hok2&Ep2&Ho2).
    { assert (Hp : p ∈ decision_objects w1) by (rewrite Ho; set_solver).
      rewrite list_elem_of_In in Hp. apply filter_In in Hp as [_ Hp]. revert Hp.
      unfold p', decision_of, AddLabel. cbn [upd_field opd_Meta].
      destruct (bool_decide (om_Labels _ !! ExcludeFromVeleroBackup = _)); simpl; [done|].
      by rewrite lookup_insert_ne by done. }
    { done. }
    unfold Update_pd. destruct (write_pd _ _ w1) as [[e|] w2]; cbn [fst snd] in *; rewrite run_ret; cbn [fst snd].
    + rewrite run_ret. split_and!; cbn [fst snd]; [done|congruence| |done].
      by rewrite (decisions_one w2 p Ho2), <- Ed, (decisions_one w1 p Ho).
    + apply K; [done|congruence| |done].
      by rewrite <- Ed, (decisions_one w1 p Ho), (decisions_one w2 _ Ho2).
Qed.
End spec.

Section theorems.
Context `{Env}.

Lemma run_op_outcome op m w :
  w_placement w = Placement m → pds_ok w → outcome m (abs_op op) w (run_op op w).
Proof.
  intros Hp Hok. destruct op; simpl;
    unfold updateUserPlacementStatusDecision, retainClusterDecisionAsFailover,
      removeClusterDecisionForFailover, switchClusterDecisionRetainFailover;
    rewrite run_bind; cbn [gets fst snd]; rewrite Hp;
    [apply set_outcome|apply retain_outcome|apply remove_outcome|apply switch_outcome]; done.
Qed.

(** C28: for an OCM Placement, setting, retaining, dropping and switching cluster
    decisions implement their abstract counterparts on the Placement's list of
    decisions (setting keeps the retained ones and appends the new one; retaining marks
    the first decision in force for the cluster, or a new one in an empty list; dropping
    removes the cluster's retained ones; switching puts the cluster's in force and
    retains all others): success means exactly the abstract change, any error (a failed list,
    create or write, a name conflict, several PlacementDecisions) means no change. *)
Theorem placement_ops_refine op m w :
  w_placement w = Placement m → pds_ok w →
  let r := run_op op w in
  pds_ok r.2 ∧
  decisions m r.2 = match r.1 with None => abs_op op (decisions m w) | Some _ => decisions m w end.
Proof. intros Hp Hok. by destruct (run_op_outcome op m w Hp Hok) as (?&_&?&_). Qed.

Lemma filter_current_set cd ds :
  List.filter (λ c, negb (retained c)) (abs_op (OpSet cd) ds) =
  List.filter (λ c, negb (retained c)) (match cd with Some c => [c] | None => [] end).
Proof.
  simpl. rewrite List.filter_app. assert (List.filter (λ c, negb (retained c)) (List.filter retained ds) = []) as ->; [|done].
  induction ds as [|d ds IH]; [done|]. simpl. destruct (retained d) eqn:E; simpl; [|done]. by rewrite E.
Qed.

Lemma find_first_filter {A} (P : A → bool) l :
  find_first P l = head (List.filter P l).
Proof. induction l as [|a l IH]; [done|]. simpl. destruct (P a); [done|exact IH]. Qed.

(** Reading the decision in force, when the list call works. *)
Lemma getClusterDecision_abs m w :
  w_placement w = Placement m → env_api_err (w_tick w) = None →
  length (List.filter (λ c, negb (retained c)) (decisions m w)) ≤ 1 → length (decision_objects m w) ≤ 1 →
  (getClusterDecision w).1 = abs_current (decisions m w).
Proof.
  intros Hp He Hd Hl. unfold getClusterDecision. rewrite run_bind. cbn [gets fst snd]. rewrite Hp.
  unfold getClusterDecisionFromPlacement, getPlacementDecisionFromPlacement.
  rewrite !run_bind. simpl. rewrite He, run_bind. simpl.
  unfold decisions in *. unfold decision_objects in *.
  destruct (List.filter (decision_of m) (w_pds w)) as [|p [|q l]]; simpl in *; [done| |lia].
  rewrite app_nil_r in *. case_bool_decide; [lia|done].
Qed.

(** a placement decision that was set is the one read back: after
    [updateUserPlacementStatusDecision] succeeds, [getClusterDecision] names the
    cluster that was set, or none if the placement was cleared — for a
    PlacementRule and for a Placement, whatever decisions are retained for a
    failover. *)
Theorem placement_read_back cd w :
  pds_ok w → w_placement w ≠ NoPlacement → (∀ c, cd = Some c → retained c = false) →
  let r := updateUserPlacementStatusDecision cd w in
  r.1 = None → env_api_err (w_tick r.2) = None →
  cd_ClusterName (getClusterDecision r.2).1 = match cd with Some c => cd_ClusterName c | None => "" end.
Proof.
  intros Hok Hn Hc. destruct (w_placement w) as [m ds|m|] eqn:Hp; [| |done].
  - unfold updateUserPlacementStatusDecision. rewrite run_bind. cbn [gets fst snd]. rewrite Hp.
    unfold createOrUpdatePlacementRuleDecision. cbv zeta. case_bool_decide as Hd.
    + rewrite !run_bind. unfold Status_Update_rule. rewrite run_bind. simpl.
      destruct (env_api_err (w_tick w)); simpl; [done|]. intros _ _. by destruct cd.
    + simpl. intros _ _. unfold getClusterDecision. rewrite run_bind. cbn [gets fst snd]. rewrite Hp.
      rewrite <- Hd. by destruct cd.
  - cbv zeta. intros E He.
    destruct (run_op_outcome (OpSet cd) m w Hp Hok) as (_&Ep&Ed&Hl). simpl run_op in *. rewrite E in Ed.
    rewrite (getClusterDecision_abs m); [|congruence|done| |by apply Hl]; rewrite Ed.
    + unfold abs_current. rewrite find_first_filter, filter_current_set.
      destruct cd as [c|]; [|done]. simpl. by rewrite Hc.
    + rewrite filter_current_set. destruct cd as [c|]; simpl; [|lia]. destruct (negb _); simpl; lia.
Qed.

(** When a failover retains the decision in force and then places the
    application on the failover cluster, both succeeding, the old home's decision
    stays in the list, marked as retained for the failover, and the failover
    cluster's decision is the one in force. *)
Theorem failover_retains_home_decision m home reason cd w :
  w_placement w = Placement m → pds_ok w → retained cd = false →
  find_first (λ c, negb (retained c)) (decisions m w) = Some (mkClusterDecision home reason) →
  let w1 := (retainClusterDecisionAsFailover home w).2 in
  let w2 := (updateUserPlacementStatusDecision (Some cd) w1).2 in
  (retainClusterDecisionAsFailover home w).1 = None →
  (updateUserPlacementStatusDecision (Some cd) w1).1 = None →
  mkClusterDecision home PlacementDecisionReasonFailoverRetained ∈ decisions m w2 ∧
  abs_current (decisions m w2) = cd.
Proof.
  intros Hp Hok Hcd Hf w1 w2 E1 E2.
  destruct (run_op_outcome (OpRetain home) m w Hp Hok) as (Hok1&Hp1&D1&_).
  simpl run_op in *. rewrite E1 in D1. fold w1 in Hok1, Hp1, D1.
  destruct (run_op_outcome (OpSet (Some cd)) m w1) as (_&_&D2&_); [congruence|done|].
  simpl run_op in *. rewrite E2 in D2. fold w2 in D2. rewrite D2, D1. split.
  - apply elem_of_app. left. rewrite list_elem_of_In, filter_In, <- list_elem_of_In. split; [|done].
    clear -Hf. simpl. destruct (decisions m w) as [|a l]; [done|]. revert a Hf.
    assert (G : ∀ l, find_first (λ c, negb (retained c)) l = Some (mkClusterDecision home reason) →
      mkClusterDecision home PlacementDecisionReasonFailoverRetained ∈
      update_first (current_for home) (λ c, c <| cd_Reason := PlacementDecisionReasonFailoverRetained |>) l).
    { clear. induction l as [|a l IH]; [done|]. simpl. unfold current_for at 1.
      destruct (retained a) eqn:Er; simpl.
      - intros Hf. rewrite andb_false_r. apply list_elem_of_further. by apply IH.
      - intros [= ->]. simpl. rewrite bd_refl. simpl. apply list_elem_of_here. }
    intros a. apply G.
  - unfold abs_current. rewrite find_first_filter, filter_current_set. simpl. by rewrite Hcd.
Qed.
End theorems.

(** An application placed on east through an OCM Placement. *)
Module PlacedCase.
#[export] Instance env : Env := calm (shown ∅).
Definition meta : ObjectMeta := named_meta "app" "ns".
Definition object : OCMPlacementDecision :=
  mkOCMPlacementDecision (named_meta "app-decision-1" "ns" <| om_Labels := {[PlacementLabel := "app"]} |>)
    [mkClusterDecision "east" "east"].
Definition start : World :=
  hub (drpc ActionFailover false) ∅ "" <| w_placement := Placement meta |> <| w_pds := [object] |>.
End PlacedCase.

Lemma placed_ok : pds_ok PlacedCase.start.
Proof. apply NoDup_singleton. Qed.

Lemma placement_ops_refine_witness :
  decisions PlacedCase.meta (@run_op PlacedCase.env (OpRetain "east") PlacedCase.start).2 =
  [mkClusterDecision "east" PlacementDecisionReasonFailoverRetained].
Proof.
  destruct (@placement_ops_refine PlacedCase.env (OpRetain "east") PlacedCase.meta PlacedCase.start)
    as [_ E]; [reflexivity|apply placed_ok|]. rewrite E. vm_compute. reflexivity.
Defined.

Lemma placement_read_back_witness :
  cd_ClusterName (@getClusterDecision PlacedCase.env
    (@updateUserPlacementStatusDecision PlacedCase.env (Some (mkClusterDecision "west" "")) PlacedCase.start).2).1 = "west".
Proof.
  apply (@placement_read_back PlacedCase.env (Some (mkClusterDecision "west" "")) PlacedCase.start);
    [apply placed_ok|discriminate|by intros c [= <-]|vm_compute; reflexivity|reflexivity].
Defined.

Lemma failover_retains_home_decision_witness :
  let w1 := (@retainClusterDecisionAsFailover PlacedCase.env "east" PlacedCase.start).2 in
  let w2 := (@updateUserPlacementStatusDecision PlacedCase.env (Some (mkClusterDecision "west" "")) w1).2 in
  mkClusterDecision "east" PlacementDecisionReasonFailoverRetained ∈ decisions PlacedCase.meta w2.
Proof.
  apply (@failover_retains_home_decision PlacedCase.env PlacedCase.meta "east" "east"
           (mkClusterDecision "west" "") PlacedCase.start);
    [reflexivity|apply placed_ok|reflexivity|vm_compute; reflexivity..].
Defined.
