(* ===== verification/VRGBuild.v ===== *)
(** * Building a VRG

    internal/controller/drplacementcontrol.go, [updateVRGAsyncSpec] to
    [newVRGSpecSync] and the static-IP functions at its end, with
    [AvailableS3Profiles]: how the VRG carried to a managed cluster is derived from
    the DRPC [d], the policy and the cached views [vrgs]. *)

From Stdlib Require Import Ascii.
From S2P Require Import Prelude Meta Api PeerClasses NetworkMapping Hub.

(** [strings.Split(s, "/")] *)
Fixpoint split_slash (s : string) : list string :=
  match s with
  | EmptyString => [""]
  | String c s' =>
      if bool_decide (c = "/"%char) then "" :: split_slash s'
      else match split_slash s' with
           | x :: xs => String c x :: xs
           | [] => [String c ""]
           end
  end.

Definition ParseNetworkName (networkName vmNamespace : string) : string * string :=
  match split_slash networkName with
  | [name] => (vmNamespace, name)
  | [ns; name] => (ns, name)
  | _ => ("", "")
  end.

(** Insertion into the sorted list a string set is listed as. *)
Fixpoint set_insert (s : string) (l : list string) : list string :=
  match l with
  | [] => [s]
  | x :: l' => match String.compare s x with
               | Eq => l
               | Lt => s :: l
               | Gt => x :: set_insert s l'
               end
  end.

Definition AvailableS3Profiles (drClusters : list DRCluster) : list string :=
  foldl (λ profiles c, if ResourceIsDeleted (dc_Meta c) then profiles
                       else set_insert (dcs_S3ProfileName (dc_Spec c)) profiles) [] drClusters.

Section vrg.
Context `{Env} `{DRPCInstance}.
Context (d : DRPlacementControl) (vrgs : gmap string VolumeReplicationGroup).

Definition annotation (k : string) : string := map_get (om_Annotations (drpc_Meta d)) k.

Definition globalVGRLabel : string := map_get (om_Labels (drpc_Meta d)) GlobalVGRLabel.
Definition hasGlobalVGRLabel : bool := bool_decide (globalVGRLabel ≠ "").

(** ** The DR type's spec *)

Definition newVRGSpecAsync : VRGAsyncSpec :=
  let p := drp_Spec d_drPolicy in
  mkVRGAsyncSpec (dps_ReplicationClassSelector p) (dps_VolumeSnapshotClassSelector p)
    (dps_VolumeGroupSnapshotClassSelector p) (dps_SchedulingInterval p)
    (dpt_Async (drp_Status d_drPolicy)).

Definition newVRGSpecSync : VRGSyncSpec := mkVRGSyncSpec (dpt_Sync (drp_Status d_drPolicy)).

Definition updateVRGAsyncSpec (vrgFromView vrg : VolumeReplicationGroup) : VolumeReplicationGroup :=
  let asyncSpec := newVRGSpecAsync in
  let set a := vrg <| vrg_Spec ::= λ s, s <| vsp_Async := Some a |> |> in
  if bool_decide (va_PeerClasses asyncSpec = []) then
    match vsp_Async (vrg_Spec vrg) with
    | Some a => if bool_decide (va_PeerClasses a ≠ [])
                then set (asyncSpec <| va_PeerClasses := va_PeerClasses a |>)
                else set asyncSpec
    | None => set asyncSpec
    end
  else match vsp_Async (vrg_Spec vrg) with
       | None => set asyncSpec
       | Some a =>
           let cgAnnotationExists := bool_decide (annotation IsCGEnabledAnnotation = "true") in
           set (asyncSpec <| va_PeerClasses :=
                  updatePeers (vst_ProtectedPVCs (vrg_Status vrgFromView)) (va_PeerClasses a)
                    (dpt_Async (drp_Status d_drPolicy)) cgAnnotationExists |>)
       end.

Definition updateVRGSyncSpec (vrgFromView vrg : VolumeReplicationGroup) : VolumeReplicationGroup :=
  let syncSpec := newVRGSpecSync in
  let set a := vrg <| vrg_Spec ::= λ s, s <| vsp_Sync := Some a |> |> in
  if bool_decide (vs_PeerClasses syncSpec = []) then
    match vsp_Sync (vrg_Spec vrg) with
    | Some a => if bool_decide (vs_PeerClasses a ≠ [])
                then set (syncSpec <| vs_PeerClasses := vs_PeerClasses a |>)
                else set syncSpec
    | None => set syncSpec
    end
  else match vsp_Sync (vrg_Spec vrg) with
       | None => set syncSpec
       | Some a =>
           set (syncSpec <| vs_PeerClasses :=
                  updatePeers (vst_ProtectedPVCs (vrg_Status vrgFromView)) (vs_PeerClasses a)
                    (dpt_Sync (drp_Status d_drPolicy)) false |>)
       end.

Definition updateVRGDRTypeSpec (vrgFromCluster generatedVRG : VolumeReplicationGroup)
    : VolumeReplicationGroup :=
  match d_drType with
  | DRTypeSync => updateVRGSyncSpec vrgFromCluster generatedVRG
  | DRTypeAsync => updateVRGAsyncSpec vrgFromCluster generatedVRG
  end.

Definition updateVRGDRTypeSpecIfNeeded (vrg : VolumeReplicationGroup)
    (vrgFromView : option VolumeReplicationGroup) : VolumeReplicationGroup :=
  match vrgFromView with
  | None =>
      match d_drType with
      | DRTypeSync => vrg <| vrg_Spec ::= λ s, s <| vsp_Sync := Some newVRGSpecSync |> |>
      | DRTypeAsync => vrg <| vrg_Spec ::= λ s, s <| vsp_Async := Some newVRGSpecAsync |> |>
      end
  | Some v => updateVRGDRTypeSpec v vrg
  end.

(** ** Annotations and the other fields *)

Definition setVRGAnnotations (vrg : VolumeReplicationGroup) (homeCluster : string)
    : VolumeReplicationGroup :=
  let dryRun := if dsp_DryRun (drpc_Spec d) && bool_decide (homeCluster = dsp_FailoverCluster (drpc_Spec d))
                then annotation DRPCTestFailoverDryRunAnnotation else "false" in
  let annotations : gmap string string :=
    list_to_map [(DRPCTestFailoverDryRunAnnotation, dryRun);
                 (DestinationClusterAnnotationKey, homeCluster);
                 (DRPCUIDAnnotation, om_UID (drpc_Meta d));
                 (IsCGEnabledAnnotation, annotation IsCGEnabledAnnotation);
                 (IsSubmarinerEnabledAnnotation, annotation IsSubmarinerEnabledAnnotation);
                 (UseVolSyncAnnotation, annotation UseVolSyncAnnotation);
                 (EnableDiffAnnotation, annotation EnableDiffAnnotation)] in
  let vrg := vrg <| vrg_Meta ::= λ m, m <| om_Annotations := annotations |> |> in
  if hasGlobalVGRLabel
  then vrg <| vrg_Meta ::= λ m, (AddLabel m GlobalVGRLabel globalVGRLabel).2 |>
  else vrg.

Definition setVRGAction (vrg : VolumeReplicationGroup) : VolumeReplicationGroup :=
  let action := vrgAction (dsp_Action (drpc_Spec d)) in
  let dryRun := dsp_DryRun (drpc_Spec d) in
  let vrg := if bool_decide (vsp_Action (vrg_Spec vrg) = VRGActionFailover) || vsp_DryRun (vrg_Spec vrg)
             then vrg <| vrg_Spec ::= λ s, s <| vsp_DryRun := dryRun |> |> else vrg in
  if bool_decide (action = VRGActionNone) then vrg
  else
    let vrg := vrg <| vrg_Spec ::= λ s, s <| vsp_Action := action |> |> in
    if bool_decide (action = VRGActionFailover)
    then vrg <| vrg_Spec ::= λ s, s <| vsp_DryRun := dryRun |> |> else vrg.

Definition setVRGSpecFields (vrg : VolumeReplicationGroup) : VolumeReplicationGroup :=
  setVRGAction (vrg <| vrg_Spec ::= λ s,
    s <| vsp_ProtectedNamespaces := dsp_ProtectedNamespaces (drpc_Spec d) |>
      <| vsp_S3Profiles := AvailableS3Profiles d_drClusters |>
      <| vsp_KubeObjectProtection := dsp_KubeObjectProtection (drpc_Spec d) |>
      <| vsp_VolSync ::= λ v, v <| vss_Disabled := d_volSyncDisabled |> |> |>).

Definition updateMoverConfig (vrg : VolumeReplicationGroup) : VolumeReplicationGroup :=
  match dsp_VolSyncSpec (drpc_Spec d) with
  | Some vs =>
      if bool_decide (vss_MoverConfig vs = []) then vrg
      else vrg <| vrg_Spec ::= λ s, s <| vsp_VolSync ::= λ v,
                                    v <| vss_MoverConfig := vss_MoverConfig vs |> |> |>
  | None => vrg
  end.

Definition updateMoverConfigIfNeeded (vrg : VolumeReplicationGroup) : VolumeReplicationGroup :=
  if bool_decide (dsp_VolSyncSpec (drpc_Spec d) ≠ None) && bool_decide (d_drType = DRTypeAsync)
  then updateMoverConfig vrg else vrg.

(** ** Static IP translation *)

Definition currentPrimaryCluster : string :=
  match dsp_Action (drpc_Spec d) with
  | ActionFailover => dsp_FailoverCluster (drpc_Spec d)
  | _ => dsp_PreferredCluster (drpc_Spec d)
  end.

Definition shouldInjectStaticIPTranslationSpec (vrg : VolumeReplicationGroup) : bool :=
  IsVMRecipe (dsp_KubeObjectProtection (drpc_Spec d)) &&
  bool_decide (vrm_ProtectedStaticIPVMs (vc_ResourceMeta (dst_ResourceConditions (drpc_Status d))) ≠ []) &&
  bool_decide (vsp_ReplicationState (vrg_Spec vrg) = Secondary).

Definition translate_network (primaryCluster homeCluster : string) (ref : ResourceReference)
    (n : DiscoveredNetwork) : NetworkTranslation :=
  let nad := ParseNetworkName (dn_NetworkName n) (rref_Namespace ref) in
  mkNetworkTranslation (dn_NetworkName n)
    ((λ srcIP, mkAddressTranslation
        (if bool_decide (primaryCluster = homeCluster) then srcIP
         else translateSourceIP d_networkMappingRules srcIP primaryCluster (mkNetworkRef nad.1 nad.2))) <$> dn_Addresses n).

Definition buildStaticIPTranslationSpec (primaryCluster homeCluster : string)
    : option StaticIPTranslationSpec :=
  match vrgs !! primaryCluster with
  | None => None
  | Some primaryVRG =>
      match vst_StaticIPDiscoveryStatus (vrg_Status primaryVRG) with
      | None => None
      | Some disc =>
          if bool_decide (sid_Resources disc = []) then None
          else Some (mkStaticIPTranslationSpec
            ((λ r, mkIPTranslationSpec (dr_ResourceRef r)
                (translate_network primaryCluster homeCluster (dr_ResourceRef r) <$> dr_Networks r))
             <$> sid_Resources disc))
      end
  end.

Definition setStaticIPTranslationSpec (vrg : VolumeReplicationGroup)
    (spec : option StaticIPTranslationSpec) : bool * VolumeReplicationGroup :=
  if bool_decide (vsp_StaticIPTranslationSpec (vrg_Spec vrg) = spec) then (false, vrg)
  else (true, vrg <| vrg_Spec ::= λ s, s <| vsp_StaticIPTranslationSpec := spec |> |>).

Definition updateVRGStaticIPTranslationSpec (vrg : VolumeReplicationGroup) (homeCluster : string)
    : VolumeReplicationGroup :=
  if negb (shouldInjectStaticIPTranslationSpec vrg) then vrg
  else if bool_decide (currentPrimaryCluster = "") then vrg
  else match buildStaticIPTranslationSpec currentPrimaryCluster homeCluster with
       | None => vrg
       | Some newSpec => (setStaticIPTranslationSpec vrg (Some newSpec)).2
       end.

(** ** The whole *)

Definition updateVRGOptionalFields (vrg : VolumeReplicationGroup)
    (vrgFromView : option VolumeReplicationGroup) (homeCluster : string) : VolumeReplicationGroup :=
  let vrg := setVRGAnnotations vrg homeCluster in
  let vrg := setVRGSpecFields vrg in
  let vrg := updateVRGDRTypeSpecIfNeeded vrg vrgFromView in
  let vrg := updateMoverConfigIfNeeded vrg in
  updateVRGStaticIPTranslationSpec vrg homeCluster.

Definition newVRG (dstCluster : string) (repState : ReplicationState)
    (vrgFromView : option VolumeReplicationGroup) : VolumeReplicationGroup :=
  let vrg := mkVolumeReplicationGroup "VolumeReplicationGroup" "ramendr.openshift.io/v1alpha1"
               (named_meta (om_Name (drpc_Meta d)) d_vrgNamespace)
               (zero_vrgspec <| vsp_PVCSelector := dsp_PVCSelector (drpc_Spec d) |>
                             <| vsp_ReplicationState := repState |>)
               zero_vrgstatus in
  let vrg := vrg <| vrg_Meta ::= λ m, (AddLabel m CreatedByRamenLabel "true").2 |> in
  updateVRGOptionalFields vrg vrgFromView dstCluster.
End vrg.

(** ** What [updateVRGOptionalFields] leaves alone *)

(** The fields the function does not own. *)
Definition kept_fields (v : VolumeReplicationGroup) :=
  (vrg_Kind v, om_Name (vrg_Meta v), om_Namespace (vrg_Meta v), vsp_PVCSelector (vrg_Spec v),
   vsp_ReplicationState (vrg_Spec v), vsp_PrepareForFinalSync (vrg_Spec v),
   vsp_RunFinalSync (vrg_Spec v), vss_RDSpec (vsp_VolSync (vrg_Spec v)),
   vss_RSSpec (vsp_VolSync (vrg_Spec v)), vrg_Status v).

Section vrg_lemmas.
Context `{Env} `{DRPCInstance}.
Implicit Types v : VolumeReplicationGroup.

Lemma setVRGAnnotations_kept d v c : kept_fields (setVRGAnnotations d v c) = kept_fields v.
Proof. unfold setVRGAnnotations. destruct (hasGlobalVGRLabel d); [|done].
  unfold AddLabel, kept_fields. simpl. by destruct (bool_decide (_ !! GlobalVGRLabel = _)).
Qed.

Lemma setVRGAction_kept d v : kept_fields (setVRGAction d v) = kept_fields v.
Proof. unfold setVRGAction. destruct (_ || _); repeat case_bool_decide; done. Qed.

Lemma setVRGAction_state d v :
  vsp_ReplicationState (vrg_Spec (setVRGAction d v)) = vsp_ReplicationState (vrg_Spec v).
Proof. pose proof (setVRGAction_kept d v) as E. unfold kept_fields in E. congruence. Qed.

Lemma setVRGSpecFields_kept d v : kept_fields (setVRGSpecFields d v) = kept_fields v.
Proof. unfold setVRGSpecFields. by rewrite setVRGAction_kept. Qed.

Lemma updateVRGDRTypeSpecIfNeeded_kept d v view :
  kept_fields (updateVRGDRTypeSpecIfNeeded d v view) = kept_fields v.
Proof.
  unfold updateVRGDRTypeSpecIfNeeded, updateVRGDRTypeSpec, updateVRGAsyncSpec, updateVRGSyncSpec.
  destruct view, d_drType; try done;
    case_bool_decide; (destruct (vsp_Async _) || destruct (vsp_Sync _)); try case_bool_decide; done.
Qed.

Lemma updateMoverConfig_kept d v : kept_fields (updateMoverConfig d v) = kept_fields v.
Proof. unfold updateMoverConfig. destruct (dsp_VolSyncSpec _); [case_bool_decide|]; done. Qed.

Lemma updateMoverConfigIfNeeded_kept d v : kept_fields (updateMoverConfigIfNeeded d v) = kept_fields v.
Proof. unfold updateMoverConfigIfNeeded. destruct (_ && _); [apply updateMoverConfig_kept|done]. Qed.

Lemma setStaticIPTranslationSpec_kept v s : kept_fields (setStaticIPTranslationSpec v s).2 = kept_fields v.
Proof. unfold setStaticIPTranslationSpec. by case_bool_decide. Qed.

Lemma updateVRGStaticIPTranslationSpec_kept d vrgs v c :
  kept_fields (updateVRGStaticIPTranslationSpec d vrgs v c) = kept_fields v.
Proof.
  unfold updateVRGStaticIPTranslationSpec. destruct (negb _); [done|]. case_bool_decide; [done|].
  destruct (buildStaticIPTranslationSpec _ _ _); [apply setStaticIPTranslationSpec_kept|done].
Qed.

Lemma updateVRGOptionalFields_kept d vrgs v view c :
  kept_fields (updateVRGOptionalFields d vrgs v view c) = kept_fields v.
Proof.
  unfold updateVRGOptionalFields.
  by rewrite updateVRGStaticIPTranslationSpec_kept, updateMoverConfigIfNeeded_kept,
    updateVRGDRTypeSpecIfNeeded_kept, setVRGSpecFields_kept, setVRGAnnotations_kept.
Qed.

Lemma updateVRGOptionalFields_state d vrgs v view c :
  vsp_ReplicationState (vrg_Spec (updateVRGOptionalFields d vrgs v view c))
  = vsp_ReplicationState (vrg_Spec v).
Proof. pose proof (updateVRGOptionalFields_kept d vrgs v view c) as E. unfold kept_fields in E. congruence. Qed.

Lemma updateVRGOptionalFields_sync d vrgs v view c :
  let v' := updateVRGOptionalFields d vrgs v view c in
  vsp_PrepareForFinalSync (vrg_Spec v') = vsp_PrepareForFinalSync (vrg_Spec v) ∧
  vsp_RunFinalSync (vrg_Spec v') = vsp_RunFinalSync (vrg_Spec v).
Proof. pose proof (updateVRGOptionalFields_kept d vrgs v view c) as E. unfold kept_fields in E. simpl. split; congruence. Qed.

Lemma newVRG_state d vrgs c s view :
  vsp_ReplicationState (vrg_Spec (newVRG d vrgs c s view)) = s.
Proof. unfold newVRG. by rewrite updateVRGOptionalFields_state. Qed.

Lemma newVRG_sync d vrgs c s view :
  vsp_PrepareForFinalSync (vrg_Spec (newVRG d vrgs c s view)) = false ∧
  vsp_RunFinalSync (vrg_Spec (newVRG d vrgs c s view)) = false.
Proof. unfold newVRG. by apply updateVRGOptionalFields_sync. Qed.
End vrg_lemmas.
