(* ===== verification/DRPCStatus.v ===== *)
(** * The DRPC's status: phase, progression, conditions, timing

    internal/controller/drplacementcontrol.go, [setDRState] to [setActionDuration]
    and the discovered-application progressions; the status predicates of the
    views it relies on. *)

From Stdlib Require Import ZArith.
From S2P Require Import Prelude Meta Names Conditions Api PeerClasses Events Telemetry.
From S2P Require Import Hub Placement VRGBuild.

(** ** Phases *)

Definition isInFinalPhase (p : DRState) : bool :=
  match p with Deployed | FailedOver | Relocated => true | _ => false end.

Definition isInProgressingPhase (p : DRState) : bool :=
  match p with Initiating | Deploying | FailingOver | Relocating => true | _ => false end.

Definition getConditionStatusForTypeAvailable (p : DRState) : ConditionStatus :=
  if isInFinalPhase p then ConditionTrue
  else if isInProgressingPhase p then ConditionFalse
  else ConditionUnknown.

(** Event type, reason and message of [reportEvent]. *)
Definition phase_event (nextState : DRState) : string * string * string :=
  match nextState with
  | Deploying => (EventTypeNormal, EventReasonDeploying, "Deploying the application and VRG")
  | Deployed => (EventTypeNormal, EventReasonDeploySuccess, "Successfully deployed the application and VRG")
  | FailingOver => (EventTypeWarning, EventReasonFailingOver, "Failing over the application and VRG")
  | FailedOver => (EventTypeNormal, EventReasonFailoverSuccess, "Successfully failedover the application and VRG")
  | Relocating => (EventTypeNormal, EventReasonRelocating, "Relocating the application and VRG")
  | Relocated => (EventTypeNormal, EventReasonRelocationSuccess, "Successfully relocated the application and VRG")
  | _ => (EventTypeWarning, "unknown state", "next state not known")
  end.

(** Requeue durations. *)
Definition getRequeueDuration (p : DRState) : Z :=
  match p with
  | FailingOver => Minute * 5
  | Relocating => Second * 2
  | _ => Second
  end.

Section status.
Context `{Env} `{DRPCInstance}.

Definition status : Op DRPlacementControlStatus := gets (λ w, drpc_Status (w_drpc w)).
Definition spec : Op DRPlacementControlSpec := gets (λ w, drpc_Spec (w_drpc w)).

Definition reportEvent (nextState : DRState) : Op unit :=
  let '(eventType, eventReason, msg) := phase_event nextState in
  Report eventType eventReason msg.

Definition setDRState (nextState : DRState) : Op unit :=
  s ← status;
  if bool_decide (dst_Phase s ≠ nextState) then
    modify_drpc (λ d, d <| drpc_Status ::= λ s,
      s <| dst_Phase := nextState |> <| dst_ObservedGeneration := om_Generation (drpc_Meta d) |> |>);;
    modify_drpc (λ d, (syncDRActionCountAnnotation d).2);;
    reportEvent nextState
  else mret ().

(** [updateDRPCProgression] on the instance; the value is whether it changed. *)
Definition setProgression (nextProgression : ProgressionStatus) : Op bool :=
  s ← status;
  if bool_decide (dst_Progression s ≠ nextProgression) then
    modify_status (λ s, s <| dst_Progression := nextProgression |>);; mret true
  else mret false.

(** The recurring [addOrUpdateCondition] of type Available with the phase as its
    reason and the status the phase calls for. *)
Definition setAvailable (msg : string) : Op unit :=
  s ← status;
  setCondition ConditionAvailable (getConditionStatusForTypeAvailable (dst_Phase s))
    (DRState_string (dst_Phase s)) msg;;
  mret ().

(** The same with an explicit status. *)
Definition setAvailableAs (st : ConditionStatus) (msg : string) : Op unit :=
  s ← status;
  setCondition ConditionAvailable st (DRState_string (dst_Phase s)) msg;;
  mret ().

Definition setStatusInitiating : Op unit :=
  s ← status;
  if negb (bool_decide (dst_Phase s ∈ [PhaseUnset; WaitForUser; Deployed; FailedOver; Relocated]))
  then mret ()
  else
    setDRState Initiating;;
    setProgression ProgressionUnset;;
    now ← time_Now;
    modify_status (λ s, s <| dst_ActionStartTime := Some now |> <| dst_ActionDuration := None |>).

Definition setActionDuration : Op unit :=
  s ← status;
  match dst_ActionDuration s, dst_ActionStartTime s with
  | None, Some start =>
      now ← time_Now;
      modify_status (λ s, s <| dst_ActionDuration := Some (now - start)%Z |>)
  | _, _ => mret ()
  end.

Definition updatePreferredDecision : Op unit :=
  modify_drpc (λ d,
    let preferred := dsp_PreferredCluster (drpc_Spec d) in
    if bool_decide (preferred ≠ "") && bool_decide (dst_PreferredDecision (drpc_Status d) = zero_decision)
    then d <| drpc_Status ::= λ s, s <| dst_PreferredDecision := mkPlacementDecision preferred preferred |> |>
    else d).

(** ** Views *)

Definition getCachedVRG (clusterName : string) : Op (option VolumeReplicationGroup) :=
  gets (λ w, w_vrgs w !! clusterName).

Definition vrg_condition_met (v : option VolumeReplicationGroup) (conditionType : string) : bool :=
  match v with
  | None => false
  | Some v =>
      match FindCondition (vst_Conditions (vrg_Status v)) conditionType with
      | None => false
      | Some c => bool_decide (cond_Status c = ConditionTrue) &&
                  bool_decide (cond_ObservedGeneration c = om_Generation (vrg_Meta v))
      end
  end.

Definition isVRGConditionMet (cluster conditionType : string) : Op bool :=
  v ← getCachedVRG cluster; mret (vrg_condition_met v conditionType).

Definition checkReadiness (homeCluster : string) : Op bool :=
  v ← getCachedVRG homeCluster;
  match v with
  | None => mret false
  | Some vrg =>
      dataReady ← isVRGConditionMet homeCluster VRGConditionTypeDataReady;
      clusterDataReady ← isVRGConditionMet homeCluster VRGConditionTypeClusterDataReady;
      mret (dataReady && clusterDataReady &&
            bool_decide (vst_State (vrg_Status vrg) = PrimaryState))
  end.

Definition vrgExistsAndPrimary (targetCluster : string) : Op bool :=
  v ← getCachedVRG targetCluster;
  mret (match v with
        | None => false
        | Some vrg => isVRGPrimary vrg && negb (ResourceIsDeleted (vrg_Meta vrg))
        end).

Definition isVRGAlreadyDeployedElsewhere (clusterToSkip : string) : Op (option string) :=
  l ← range_vrgs;
  mret (fst <$> find_first (λ '(c, v), negb (bool_decide (c = clusterToSkip)) && isVRGPrimary v) l).

(** ** Completion of the initial deployment *)

Definition secondary_ready (v : option VolumeReplicationGroup) : bool :=
  match v with
  | None => false
  | Some v => bool_decide (vsp_ReplicationState (vrg_Spec v) = Secondary) &&
              bool_decide (vst_State (vrg_Status v) = SecondaryState) &&
              bool_decide (vst_ObservedGeneration (vrg_Status v) = om_Generation (vrg_Meta v))
  end.

Definition isSecondaryVRGReadyOnInitialDeploy : Op bool :=
  s ← spec; vrgs ← gets w_vrgs;
  mret (forallb (λ c, bool_decide (c = dsp_PreferredCluster s) || secondary_ready (vrgs !! c))
          (DRPolicyClusterNames d_drPolicy)).

Definition setConditionOnInitialDeploymentCompletion : Op unit :=
  setAvailable "Initial deployment completed";;
  ready ← isSecondaryVRGReadyOnInitialDeploy;
  (if (ready : bool)
   then setCondition ConditionPeerReady ConditionTrue ReasonSuccess "Ready"
   else setCondition ConditionPeerReady ConditionFalse ReasonProgressing
          "Waiting for VRG on peer cluster to transition to Secondary");;
  mret ().

(** ** Garbage collection of discovered applications *)

Definition isSourceVRGForAction (d : DRPlacementControl) (clusterName : string) : bool :=
  let s := drpc_Spec d in
  if (bool_decide (dsp_PreferredCluster s = clusterName) && bool_decide (dsp_Action s = ActionRelocate)) ||
     (bool_decide (dsp_FailoverCluster s = clusterName) && bool_decide (dsp_Action s = ActionFailover))
  then true
  else if bool_decide (dsp_Action s = ActionNone) then
    match om_Annotations (drpc_Meta d) !! LastAppDeploymentCluster with
    | Some lastCluster => negb (bool_decide (lastCluster = clusterName))
    | None => false
    end
  else false.

Definition getCleanupSecondaryVRG (clusterName : string) : Op (option VolumeReplicationGroup) :=
  d ← gets w_drpc; vrgs ← gets w_vrgs;
  mret (if bool_decide (vrgs = ∅) then None
        else
          let vrg := vrgs !! clusterName in
          if isSourceVRGForAction d clusterName then
            match find_first (λ c, negb (bool_decide (clusterName = c)) && bool_decide (is_Some (vrgs !! c)))
                    (DRPolicyClusterNames d_drPolicy) with
            | Some c => vrgs !! c
            | None => vrg
            end
          else vrg).

Definition isPreparingForFinalSync (clusterName : string) : Op bool :=
  v ← getCleanupSecondaryVRG clusterName;
  mret (match v with
        | None => false
        | Some vrg => vsp_PrepareForFinalSync (vrg_Spec vrg) || vst_FinalSyncComplete (vrg_Status vrg) ||
                      vst_PrepareForFinalSyncComplete (vrg_Status vrg)
        end).

Definition autoCleanup_reason (v : option VolumeReplicationGroup) : option string :=
  v ← v;
  c ← FindCondition (vst_Conditions (vrg_Status v)) VRGConditionTypeAutoCleanup;
  Some (cond_Reason c).

Definition isVMAutoCleanupFeasible (clusterName : string) : Op bool :=
  v ← getCleanupSecondaryVRG clusterName;
  mret (bool_decide (autoCleanup_reason v = Some VRGConditionReasonAutoCleanupProgressing)).

Definition isVMAutoCleanupCompleted (clusterName : string) : Op bool :=
  v ← getCleanupSecondaryVRG clusterName;
  mret (bool_decide (autoCleanup_reason v = Some VRGConditionReasonAutoCleanupCompleted)).

Definition setDiscoveredAppGCProgression (clusterName : string) : Op unit :=
  s ← spec;
  (if IsVMRecipe (dsp_KubeObjectProtection s) then
     preparing ← isPreparingForFinalSync clusterName;
     if (preparing : bool) then setProgression ProgressionPreparingFinalSync
     else
       feasible ← isVMAutoCleanupFeasible clusterName;
       if (feasible : bool) then setProgression ProgressionCleanupReadiness
       else
         completed ← isVMAutoCleanupCompleted clusterName;
         if (completed : bool) then setProgression ProgressionCleaningUp
         else setProgression ProgressionWaitOnUserToCleanUp
   else setProgression ProgressionWaitOnUserToCleanUp);;
  mret ().

(** ** Whether the status has to be written *)

(** [shouldUpdateStatus].  The durations and byte counts are pointers compared
    with [!=]; a view's and the DRPC's are never the same pointer, so they count
    as equal only when both are nil. *)
Definition same_pointer {A} (a b : option A) : bool :=
  match a, b with None, None => true | _, _ => false end.

Definition status_differs (drpc : DRPlacementControl) (vrg : VolumeReplicationGroup) : bool :=
  let s := drpc_Status drpc in
  let v := vrg_Status vrg in
  bool_decide (vst_LastGroupSyncTime v ≠ dst_LastGroupSyncTime s) ||
  negb (same_pointer (vst_LastGroupSyncDuration v) (dst_LastGroupSyncDuration s)) ||
  negb (same_pointer (vst_LastGroupSyncBytes v) (dst_LastGroupSyncBytes s)) ||
  match vst_CaptureToRecoverFrom v with
  | Some c => bool_decide (Some (kc_EndTime c) ≠ dst_LastKubeObjectProtectionTime s)
  | None => false
  end ||
  bool_decide (vc_Conditions (dst_ResourceConditions s) ≠ vst_Conditions v).

Definition shouldUpdateStatus : Op bool :=
  d ← gets w_drpc;
  let s := drpc_Status d in
  if existsb (λ c, negb (bool_decide (cond_ObservedGeneration c = om_Generation (drpc_Meta d))))
       (dst_Conditions s) then mret true
  else if bool_decide (d_savedInstanceStatus ≠ s) then mret true
  else
    decision ← getClusterDecision;
    if bool_decide (cd_ClusterName decision = "") then mret false
    else
      v ← getCachedVRG (cd_ClusterName decision);
      mret (match v with None => false | Some vrg => status_differs d vrg end).
End status.

(** ** Frames *)

Section status_frames.
Context `{Env} `{DRPCInstance}.

Lemma sync_identity d : same_identity d (syncDRActionCountAnnotation d).2.
Proof.
  unfold syncDRActionCountAnnotation. destruct (next_counts _ _); [|done].
  unfold AddAnnotation. by destruct (bool_decide _).
Qed.

Lemma reportEvent_quiet p : preserves quiet (reportEvent p).
Proof. unfold reportEvent. by destruct p; apply Report_quiet. Qed.
#[local] Hint Resolve reportEvent_quiet : quiet.

Lemma setDRState_quiet p : preserves quiet (setDRState p).
Proof.
  unfold setDRState, status. quiet; apply modify_drpc_quiet; [done|apply sync_identity].
Qed.

Lemma setProgression_quiet p : preserves quiet (setProgression p).
Proof. unfold setProgression, status. quiet. Qed.
#[local] Hint Resolve setDRState_quiet setProgression_quiet : quiet.

Lemma setAvailable_quiet m : preserves quiet (setAvailable m).
Proof. unfold setAvailable, status. quiet. Qed.

Lemma setAvailableAs_quiet st m : preserves quiet (setAvailableAs st m).
Proof. unfold setAvailableAs, status. quiet. Qed.
#[local] Hint Resolve setAvailable_quiet : quiet.

Lemma setStatusInitiating_quiet : preserves quiet setStatusInitiating.
Proof. unfold setStatusInitiating, status. quiet. Qed.

Lemma setActionDuration_quiet : preserves quiet setActionDuration.
Proof. unfold setActionDuration, status. quiet. Qed.

Lemma updatePreferredDecision_quiet : preserves quiet updatePreferredDecision.
Proof. apply modify_drpc_quiet. intros d. cbv zeta. case_match; done. Qed.

Lemma isVRGAlreadyDeployedElsewhere_quiet c : preserves quiet (isVRGAlreadyDeployedElsewhere c).
Proof. unfold isVRGAlreadyDeployedElsewhere. quiet. Qed.

Lemma checkReadiness_quiet c : preserves quiet (checkReadiness c).
Proof. unfold checkReadiness, isVRGConditionMet, getCachedVRG. quiet. Qed.

Lemma vrgExistsAndPrimary_quiet c : preserves quiet (vrgExistsAndPrimary c).
Proof. unfold vrgExistsAndPrimary, getCachedVRG. quiet. Qed.

Lemma setConditionOnInitialDeploymentCompletion_quiet :
  preserves quiet setConditionOnInitialDeploymentCompletion.
Proof.
  unfold setConditionOnInitialDeploymentCompletion, isSecondaryVRGReadyOnInitialDeploy, spec. quiet.
Qed.

Lemma setDiscoveredAppGCProgression_quiet c : preserves quiet (setDiscoveredAppGCProgression c).
Proof.
  unfold setDiscoveredAppGCProgression, isPreparingForFinalSync, isVMAutoCleanupFeasible,
    isVMAutoCleanupCompleted, getCleanupSecondaryVRG, spec. quiet.
Qed.

Lemma getClusterDecision_quiet : preserves quiet getClusterDecision.
Proof.
  unfold getClusterDecision, getClusterDecisionFromPlacement, getPlacementDecisionFromPlacement. quiet.
Qed.
#[local] Hint Resolve getClusterDecision_quiet : quiet.

Lemma shouldUpdateStatus_quiet : preserves quiet shouldUpdateStatus.
Proof. unfold shouldUpdateStatus, getCachedVRG. quiet. Qed.
End status_frames.

#[export] Hint Resolve reportEvent_quiet setDRState_quiet setProgression_quiet setAvailable_quiet
  setAvailableAs_quiet setStatusInitiating_quiet setActionDuration_quiet updatePreferredDecision_quiet
  isVRGAlreadyDeployedElsewhere_quiet checkReadiness_quiet vrgExistsAndPrimary_quiet
  setConditionOnInitialDeploymentCompletion_quiet setDiscoveredAppGCProgression_quiet
  getClusterDecision_quiet shouldUpdateStatus_quiet : quiet.
