(* ===== verification/DRPCWorks.v ===== *)
(** * The DRPC's ManifestWorks

    The methods of [DRPCInstance] that write ManifestWorks, of
    internal/controller/drplacementcontrol.go: [createVRGManifestWork],
    [ensureVRGManifestWork], the namespace and recipe works, [updateVRGState] and
    the final-sync updates, the secondary and data-protection checks. *)

From Stdlib Require Import ZArith.
From S2P Require Import Prelude Meta Names Conditions Api Hub ManifestWorks Placement.
From S2P Require Import VRGBuild DRPCStatus.

(** Dereferencing a nil pointer panics; the reconcile ends there. *)
Definition panic_nil : GoError := Errorf "panic: nil pointer dereference" None.

Definition contains (sub s : string) : bool := bool_decide (is_Some (String.index 0 sub s)).

Definition drpcAnnotations (d : DRPlacementControl) : gmap string string :=
  {[DRPCNameAnnotation := om_Name (drpc_Meta d); DRPCNamespaceAnnotation := om_Namespace (drpc_Meta d)]}.

Section works.
Context `{Env} `{DRPCInstance}.

Definition getVRGFromManifestWork (clusterName : string) : Op (VolumeReplicationGroup + GoError) :=
  r ← FindManifestWorkByType MWTypeVRG clusterName;
  mret (match r with
        | inr e => inr (Errorf (error_text e) (Some e))
        | inl mw => ExtractVRGFromManifestWork mw
        end).

(** ** Namespaces *)

Definition filterSCCAnnotations (d : DRPlacementControl) (annotations : gmap string string)
    : gmap string string + GoError :=
  let drpcRetain := dsp_RetainNamespaceSCCAcrossPeers (drpc_Spec d) in
  if d_RetainNamespaceSCCAcrossPeers && drpcRetain then inl annotations
  else if drpcRetain && negb d_RetainNamespaceSCCAcrossPeers
  then inr (Errorf ("retainNamespaceSCCAcrossPeers is enabled in the DRPC," +:+
                    "but the flag is disabled in the RamenConfig") None)
  else inl (filter (λ kv, contains "sa.scc" kv.1 = false) annotations).

Fixpoint get_namespaces (homeCluster : string) (nss : list string) : Op (list ObjectMeta + GoError) :=
  match nss with
  | [] => mret (inl [])
  | ns :: nss' =>
      t ← tick;
      match env_GetNSFromManagedCluster t homeCluster ns with
      | inr e => mret (inr e)
      | inl o =>
          r ← get_namespaces homeCluster nss';
          mret (match r with inl os => inl (o :: os) | inr e => inr e end)
      end
  end.

(** The works of one namespace on each peer; [labels] is the namespace's map,
    shared by the rounds. *)
Fixpoint create_ns_works (name nsName homeCluster : string) (annotations labels : gmap string string)
    (clusters : list string) : Op (option GoError) :=
  match clusters with
  | [] => mret None
  | c :: cs =>
      if bool_decide (homeCluster = c) then create_ns_works name nsName homeCluster annotations labels cs
      else
        r ← CreateOrUpdateNamespaceManifestWork name nsName c annotations labels;
        match r.1 with
        | Some e => mret (Some e)
        | None => create_ns_works name nsName homeCluster annotations r.2 cs
        end
  end.

Fixpoint create_all_ns_works (d : DRPlacementControl) (homeCluster : string) (nss : list ObjectMeta)
    : Op (option GoError) :=
  match nss with
  | [] => mret None
  | ns :: nss' =>
      match filterSCCAnnotations d (om_Annotations ns) with
      | inr e => mret (Some e)
      | inl annotations =>
          err ← create_ns_works (om_Name (drpc_Meta d)) (om_Name ns) homeCluster annotations
                  (om_Labels ns) (DRPolicyClusterNames d_drPolicy);
          match err with
          | Some e => mret (Some e)
          | None => create_all_ns_works d homeCluster nss'
          end
      end
  end.

Definition createOrUpdateNSForDiscoveredApps (homeCluster : string) : Op (option GoError) :=
  d ← gets w_drpc;
  r ← get_namespaces homeCluster (default [] (dsp_ProtectedNamespaces (drpc_Spec d)));
  match r with
  | inr e => mret (Some e)
  | inl nss => create_all_ns_works d homeCluster nss
  end.

Definition createOrUpdateNSForNonDiscoveredApps (homeCluster : string) : Op (option GoError) :=
  d ← gets w_drpc;
  r ← CreateOrUpdateNamespaceManifestWork (om_Name (drpc_Meta d)) d_vrgNamespace homeCluster
        (drpcAnnotations d) ∅;
  mret (match r.1 with
        | Some e => wrapf ("failed to create namespace '" +:+ d_vrgNamespace +:+ "' on cluster " +:+
                      homeCluster +:+ ": " +:+ error_text e) e
        | None => None
        end).

Definition createOrUpdateNamespaces (homeCluster : string) : Op (option GoError) :=
  d ← gets w_drpc;
  if negb (isDiscoveredApp d) then createOrUpdateNSForNonDiscoveredApps homeCluster
  else createOrUpdateNSForDiscoveredApps homeCluster.

Definition ensureNamespaceManifestWork (homeCluster : string) : Op (option GoError) :=
  r ← FindManifestWorkByType MWTypeNS homeCluster;
  match r with
  | inr e =>
      if negb (IsNotFound e) then mret (wrapf ("failed to get NS MW (" +:+ error_text e +:+ ")") e)
      else createOrUpdateNamespaces homeCluster
  | inl mw =>
      if HasLabel (mw_Meta mw) OCMBackupLabelKey
      then Update_mw (mw <| mw_Meta ::= λ m, m <| om_Labels ::= delete OCMBackupLabelKey |> |>)
      else mret None
  end.

(** ** Recipes *)

Definition recipeNeedsUpdate (mw : ManifestWork) (sourceRecipe : Recipe) : bool + GoError :=
  match mws_Manifests (mw_Spec mw) with
  | [] => inl true
  | ms =>
      match extract_recipe ms with
      | inr e => inr (Errorf "failed to extract recipe from ManifestWork" (Some e))
      | inl r =>
          let existingRecipe := default (mkRecipe zero_meta "") r in
          inl (bool_decide (rcp_Spec existingRecipe ≠ rcp_Spec sourceRecipe) ||
               bool_decide (om_Labels (rcp_Meta existingRecipe) ≠ om_Labels (rcp_Meta sourceRecipe)) ||
               bool_decide (om_Annotations (rcp_Meta existingRecipe) ≠ om_Annotations (rcp_Meta sourceRecipe)))
      end
  end.

Definition ensureRecipeManifestWork (srcCluster dstCluster : string) : Op (option GoError) :=
  s ← spec;
  match dsp_KubeObjectProtection s ≫= kop_RecipeRef with
  | None => mret None
  | Some ref =>
      if bool_decide (rr_Name ref = VMRecipeName) && bool_decide (rr_Namespace ref = d_RamenOperandsNamespace)
      then mret None
      else
        t ← tick;
        match env_GetRecipeFromManagedCluster t srcCluster (rr_Name ref) (rr_Namespace ref) with
        | inr e => mret (wrapf ("failed to get recipe " +:+ rr_Namespace ref +:+ "/" +:+ rr_Name ref +:+
                          " in cluster " +:+ srcCluster +:+ ": " +:+ error_text e) e)
        | inl recipe =>
            r ← FindManifestWorkByType MWTypeRecipe dstCluster;
            match r with
            | inr e =>
                if negb (IsNotFound e)
                then mret (wrapf ("failed to get recipe MW in cluster " +:+ dstCluster +:+ ": " +:+ error_text e) e)
                else CreateOrUpdateRecipeManifestWork recipe dstCluster
            | inl existingMW =>
                match recipeNeedsUpdate existingMW recipe with
                | inr e => mret (wrapf ("failed to check if recipe needs update: " +:+ error_text e) e)
                | inl true => CreateOrUpdateRecipeManifestWork recipe dstCluster
                | inl false => mret None
                end
            end
        end
  end.

(** ** The VRG's ManifestWork *)

Definition createVRGManifestWork (homeCluster : string) (repState : ReplicationState)
    : Op (option GoError) :=
  err ← ensureNamespaceManifestWork homeCluster;
  match err with
  | Some _ => mret (errorf ("createVRGManifestWork couldn't ensure namespace '" +:+ d_vrgNamespace +:+
                      "' on cluster " +:+ homeCluster +:+ " exists"))
  | None =>
      r ← getVRGFromManifestWork homeCluster;
      match r with
      | inl vrg =>
          let st := vsp_ReplicationState (vrg_Spec vrg) in
          if bool_decide (st ≠ repState)
          then mret (errorf ("ManifestWork for VolumeReplicationGroup resource exists with mismatching state (" +:+
                       ReplicationState_string st +:+ ") on cluster " +:+ homeCluster))
          else mret (wrapf ("VolumeReplicationGroup ManifestWork for cluster " +:+ homeCluster +:+ " in state " +:+
                       ReplicationState_string st +:+ " exists")
                       (already_exists (om_Name (vrg_Meta vrg))))
      | inr e =>
          if negb (IsNotFound e)
          then mret (wrapf ("error (" +:+ error_text e +:+ ") determining ManifestWork for VolumeReplicationGroup "
                       +:+ "resource exists on cluster " +:+ homeCluster) e)
          else
            d ← gets w_drpc; vrgs ← gets w_vrgs;
            let vrg := newVRG d vrgs homeCluster repState None in
            r ← CreateOrUpdateVRGManifestWork (om_Name (drpc_Meta d)) d_vrgNamespace homeCluster vrg
                  (drpcAnnotations d);
            mret (match r.2 with
                  | Some e => wrapf ("failed to create or update VolumeReplicationGroup manifest in namespace " +:+
                                homeCluster +:+ " (" +:+ error_text e +:+ ")") e
                  | None => None
                  end)
      end
  end.

Definition ensureVRGManifestWork (homeCluster : string) : Op (option GoError) :=
  r ← FindManifestWorkByType MWTypeVRG homeCluster;
  match r with
  | inr e =>
      if IsNotFound e
      then mret (errorf ("failed to find ManifestWork for VolumeReplicationGroup from cluster " +:+ homeCluster))
      else mret (wrapf ("error (" +:+ error_text e +:+ ") in finding ManifestWork for VolumeReplicationGroup from cluster "
                   +:+ homeCluster) e)
  | inl mw =>
      match ExtractVRGFromManifestWork mw with
      | inr e => mret (wrapf ("error extracting VRG from ManifestWork for cluster " +:+ homeCluster) e)
      | inl vrg =>
          if bool_decide (vsp_ReplicationState (vrg_Spec vrg) ≠ Primary)
          then mret (errorf ("invalid update for VolumeReplicationGroup in " +:+
                       ReplicationState_string (vsp_ReplicationState (vrg_Spec vrg)) +:+
                       " spec.replicationState on cluster " +:+ homeCluster))
          else
            d ← gets w_drpc; vrgs ← gets w_vrgs;
            match vrgs !! homeCluster with
            | None => mret (errorf ("missing VolumeReplicationGroup view for cluster " +:+ homeCluster +:+
                              ", while attempting to update an instance"))
            | Some view => UpdateVRGManifestWork (updateVRGOptionalFields d vrgs vrg (Some view) homeCluster) mw
            end
      end
  end.

Definition updateManifestWork (clusterName : string) (vrg : VolumeReplicationGroup) : Op (option GoError) :=
  r ← FindManifestWorkByType MWTypeVRG clusterName;
  match r with
  | inr e => mret (wrapf (error_text e) e)
  | inl mw => Update_mw (set_manifest0 (MVRG vrg) mw)
  end.

Definition isFailoverPromotion (s : DRPlacementControlSpec) (clusterName : string) : bool :=
  bool_decide (clusterName = dsp_FailoverCluster s) && bool_decide (dsp_Action s = ActionFailover) &&
  negb (dsp_DryRun s).

(** The VRG [updateVRGState] writes. *)
Definition vrg_with_state (d : DRPlacementControl) (vrgs : gmap string VolumeReplicationGroup)
    (clusterName : string) (state : ReplicationState) (vrg : VolumeReplicationGroup)
    : VolumeReplicationGroup :=
  let vrg := vrg <| vrg_Spec ::= λ s, s <| vsp_ReplicationState := state |> |> in
  let vrg := setVRGAction d vrg in
  let vrg := updateVRGOptionalFields d vrgs vrg (vrgs !! clusterName) clusterName in
  if bool_decide (state = Secondary) || isFailoverPromotion (drpc_Spec d) clusterName
  then vrg <| vrg_Spec ::= λ s, s <| vsp_PrepareForFinalSync := false |> <| vsp_RunFinalSync := false |> |>
  else vrg.

Definition updateVRGState (clusterName : string) (state : ReplicationState) : Op (bool * option GoError) :=
  r ← getVRGFromManifestWork clusterName;
  match r with
  | inr e => mret (false, wrapf ("failed to update VRG state. ClusterName " +:+ clusterName +:+
                            " (" +:+ error_text e +:+ ")") e)
  | inl vrg =>
      if bool_decide (vsp_ReplicationState (vrg_Spec vrg) = state) then mret (false, None)
      else
        d ← gets w_drpc; vrgs ← gets w_vrgs;
        err ← updateManifestWork clusterName (vrg_with_state d vrgs clusterName state vrg);
        mret (match err with Some e => (false, Some e) | None => (true, None) end)
  end.

(** The two final-sync updates: [already] is the flag that makes them no-ops,
    [set] the flags they write. *)
Definition update_final_sync (clusterName : string) (already : VolumeReplicationGroup → bool)
    (prepare run : bool) : Op (option GoError) :=
  r ← getVRGFromManifestWork clusterName;
  match r with
  | inr e => mret (wrapf ("failed to update VRG state. ClusterName " +:+ clusterName +:+
                     " (" +:+ error_text e +:+ ")") e)
  | inl vrg =>
      if already vrg then mret None
      else
        d ← gets w_drpc; vrgs ← gets w_vrgs;
        let vrg := vrg <| vrg_Spec ::= λ s, s <| vsp_PrepareForFinalSync := prepare |>
                                             <| vsp_RunFinalSync := run |> |> in
        updateManifestWork clusterName
          (updateVRGOptionalFields d vrgs vrg (vrgs !! clusterName) clusterName)
  end.

Definition updateVRGToPrepareForFinalSync (clusterName : string) : Op (option GoError) :=
  update_final_sync clusterName (λ v, vsp_PrepareForFinalSync (vrg_Spec v)) true false.

Definition updateVRGToRunFinalSync (clusterName : string) : Op (option GoError) :=
  update_final_sync clusterName (λ v, vsp_RunFinalSync (vrg_Spec v)) false true.

Definition createVRGManifestWorkAsPrimary (targetCluster : string) : Op (bool * option GoError) :=
  r ← getVRGFromManifestWork targetCluster;
  match r with
  | inr e =>
      if negb (IsNotFound e) then mret (false, Some e)
      else
        err ← createVRGManifestWork targetCluster Primary;
        mret (match err with Some e => (false, Some e) | None => (true, None) end)
  | inl vrg =>
      if bool_decide (vsp_ReplicationState (vrg_Spec vrg) = Primary) then mret (false, None)
      else
        r ← updateVRGState targetCluster Primary;
        mret (match r.2 with Some e => (false, Some e) | None => (true, None) end)
  end.

Definition mwExistsAndPlacementUpdated (targetCluster : string) : Op (bool * option GoError) :=
  r ← FindManifestWorkByType MWTypeVRG targetCluster;
  match r with
  | inr e => if IsNotFound e then mret (false, None) else mret (false, Some e)
  | inl _ =>
      decision ← getClusterDecision;
      mret (if bool_decide (cd_ClusterName decision = "") ||
               bool_decide (cd_ClusterName decision ≠ targetCluster)
            then (false, None) else (true, None))
  end.

(** ** Moving to secondary *)

(** The loop: the number of clusters whose update failed. *)
Fixpoint move_to_secondary (clusters : list string) : Op nat :=
  match clusters with
  | [] => mret 0
  | c :: cs =>
      r ← updateVRGState c Secondary;
      n ← move_to_secondary cs;
      mret (match r.2 with
            | Some e => if IsNotFound e then n else S n
            | None => n
            end)
  end.

Definition moveVRGToSecondaryEverywhere : Op bool :=
  failedCount ← move_to_secondary (DRPolicyClusterNames d_drPolicy);
  mret (bool_decide (failedCount = 0)).

Definition set_mcvRequestInProgress (b : bool) : Op unit :=
  modify (λ w, w <| w_mcvRequestInProgress := b |>).

(** The view of this DRPC's VRG on a cluster, asked for now. *)
Definition viewVRG (clusterName : string) : Op (VolumeReplicationGroup + GoError) :=
  d ← gets w_drpc; GetVRGFromManagedCluster (om_Name (drpc_Meta d)) d_vrgNamespace clusterName.

(** What a view has to show for the cluster to count as secondary ... *)
Definition shows_secondary (vrg : VolumeReplicationGroup) : bool :=
  bool_decide (vst_State (vrg_Status vrg) = SecondaryState) &&
  bool_decide (vst_ObservedGeneration (vrg_Status vrg) = om_Generation (vrg_Meta vrg)).

(** ... and its data as protected. *)
Definition shows_data_protected (vrg : VolumeReplicationGroup) : bool :=
  match FindCondition (vst_Conditions (vrg_Status vrg)) VRGConditionTypeDataProtected with
  | None => false
  | Some c => bool_decide (cond_Status c = ConditionTrue) &&
              bool_decide (cond_ObservedGeneration c = om_Generation (vrg_Meta vrg))
  end.

Definition ensureVRGIsSecondaryOnCluster (clusterName : string) : Op bool :=
  set_mcvRequestInProgress false;;
  r ← viewVRG clusterName;
  match r with
  | inr e => if IsNotFound e then mret true else set_mcvRequestInProgress true;; mret false
  | inl vrg => mret (shows_secondary vrg)
  end.

Definition ensureDataProtectedOnCluster (clusterName : string) : Op bool :=
  set_mcvRequestInProgress false;;
  r ← viewVRG clusterName;
  match r with
  | inr e => if IsNotFound e then mret false else set_mcvRequestInProgress true;; mret false
  | inl vrg => mret (shows_data_protected vrg)
  end.

(** Both [ensure...Everywhere] loops: stop at the first cluster that fails. *)
Fixpoint all_clusters (check : string → Op bool) (clusterToSkip : string) (clusters : list string)
    : Op bool :=
  match clusters with
  | [] => mret true
  | c :: cs =>
      if bool_decide (clusterToSkip = c) then all_clusters check clusterToSkip cs
      else ok ← check c; if (ok : bool) then all_clusters check clusterToSkip cs else mret false
  end.

Definition ensureVRGIsSecondaryEverywhere (clusterToSkip : string) : Op bool :=
  all_clusters ensureVRGIsSecondaryOnCluster clusterToSkip (DRPolicyClusterNames d_drPolicy).

Definition ensureDataProtected (targetCluster : string) : Op bool :=
  all_clusters ensureDataProtectedOnCluster targetCluster (DRPolicyClusterNames d_drPolicy).
End works.
