(* ===== verification/DRPCVolSync.v ===== *)
(** * Secondary and VolSync replication setup

    internal/controller/drplacementcontrolvolsync.go and the static-IP reset of
    drplacementcontrol.go: the destination's VRG, the shared secret, the source's
    replication list, and the resets on the primary. *)

From Stdlib Require Import ZArith.
From S2P Require Import Prelude Meta Names Conditions Api Hub ManifestWorks Placement.
From S2P Require Import VRGBuild DRPCStatus DRPCWorks.

Definition ErrWaitForSourceCluster : GoError :=
  Errorf "waiting for primary to provide Protected PVCs" None.
Definition ErrWaitForVolSyncManifestWorkCreation : GoError :=
  Errorf "waiting for secondary ManifestWork to be created" None.

Definition GetVolSyncPSKSecretNameFromVRGName (vrgName : string) : string := vrgName +:+ "-vs-secret".

(** Same PVC name and namespace. *)
Definition same_pvc (p : ProtectedPVC) (info : VolSyncReplicationSourceSpec) : bool :=
  bool_decide (pp_Name (rs_ProtectedPVC info) = pp_Name p) &&
  bool_decide (pp_Namespace (rs_ProtectedPVC info) = pp_Namespace p).

Definition AppendOrUpdate (rsSpecList : list VolSyncReplicationSourceSpec)
    (rsSpec : VolSyncReplicationSourceSpec) : list VolSyncReplicationSourceSpec :=
  match find_first (same_pvc (rs_ProtectedPVC rsSpec)) rsSpecList with
  | Some _ => update_first (same_pvc (rs_ProtectedPVC rsSpec)) (λ _, rsSpec) rsSpecList
  | None => rsSpecList ++ [rsSpec]
  end.

(** The loop of [updateSourceVSRG] over the destination's infos; [None] is the
    dereference of an info without a TLS configuration. *)
Fixpoint source_specs (secret : string) (l : list VolSyncReplicationSourceSpec)
    (infos : list VolSyncReplicationDestinationInfo) : option (list VolSyncReplicationSourceSpec) :=
  match infos with
  | [] => Some l
  | i :: infos' =>
      match ri_RsyncTLS i with
      | None => None
      | Some tls =>
          source_specs secret
            (AppendOrUpdate l (mkVolSyncReplicationSourceSpec (ri_ProtectedPVC i)
               (Some (mkRsyncTLSConfig (rt_Address tls) (Some secret))) None)) infos'
      end
  end.

Definition resetRDSpec (srcVRG dstVRG : VolumeReplicationGroup) : VolumeReplicationGroup :=
  let rds := (λ p, mkVolSyncReplicationDestinationSpec
                (p <| pp_LastSyncBytes := None |> <| pp_LastSyncTime := None |>
                   <| pp_LastSyncDuration := None |> <| pp_Conditions := [] |>) None)
             <$> List.filter pp_ProtectedByVolSync (vst_ProtectedPVCs (vrg_Status srcVRG)) in
  dstVRG <| vrg_Spec ::= λ s, s <| vsp_VolSync ::= λ v, v <| vss_RDSpec := rds |> |> |>.

Section volsync.
Context `{Env} `{DRPCInstance}.

Definition updateVSRGSpec (clusterName : string) (tgtVSRG : VolumeReplicationGroup) : Op (option GoError) :=
  let vsrgMWName := vrgMWName in
  r ← FindManifestWork vsrgMWName clusterName;
  match r with
  | inr e => if IsNotFound e then mret None
             else mret (wrapf ("failed to update VRG " +:+ vsrgMWName +:+ ", in namespace " +:+ clusterName +:+
                          " (" +:+ error_text e +:+ ")") e)
  | inl mw =>
      match ExtractVRGFromManifestWork mw with
      | inr e => mret (Some e)
      | inl vsrg =>
          let vsrg := vsrg <| vrg_Spec ::= λ s, s <| vsp_VolSync ::= λ v,
                              v <| vss_RSSpec := vss_RSSpec (vsp_VolSync (vrg_Spec tgtVSRG)) |> |> |> in
          err ← Update_mw (set_manifest0 (MVRG vsrg) mw);
          mret (match err with
                | Some e => wrapf ("failed to update MW (" +:+ error_text e +:+ ")") e
                | None => None
                end)
      end
  end.

(** The source view is changed in place. *)
Definition updateSourceVSRG (clusterName : string) (srcVSRG dstVSRG : VolumeReplicationGroup)
    : Op (option GoError) :=
  d ← gets w_drpc;
  let secret := GetVolSyncPSKSecretNameFromVRGName (om_Name (drpc_Meta d)) in
  let vs := vsp_VolSync (vrg_Spec srcVSRG) in
  match source_specs secret (vss_RSSpec vs) (vst_RDInfo (vrg_Status dstVSRG)) with
  | None => mret (Some panic_nil)
  | Some rs =>
      let src := srcVSRG <| vrg_Spec ::= λ s, s <| vsp_VolSync ::= λ v,
                              v <| vss_RDSpec := [] |> <| vss_RSSpec := rs |> |> |> in
      modify (λ w, w <| w_vrgs ::= <[clusterName := src]> |>);;
      updateVSRGSpec clusterName src
  end.

Definition ensureVolSyncReplicationSource (srcCluster : string) : Op (option GoError) :=
  vrgs ← gets w_vrgs;
  if bool_decide (size vrgs ≠ 2) then mret (errorf ("wrong number of VRGS " +:+ env_fmt_vrgs vrgs))
  else match vrgs !! srcCluster with
       | None => mret (errorf ("failed to find the source VSRG in cluster " +:+ srcCluster))
       | Some srcVSRG =>
           l ← range_vrgs;
           match find_first (λ '(c, _), negb (bool_decide (c = srcCluster))) l with
           | None => mret None
           | Some (_, dstVSRG) =>
               if bool_decide (vst_RDInfo (vrg_Status dstVSRG) = [])
               then mret (errorf "waiting for VolSync RDInfo")
               else
                 err ← updateSourceVSRG srcCluster srcVSRG dstVSRG;
                 mret (match err with
                       | Some e => wrapf ("failed to update dst VSRG on cluster " +:+ srcCluster +:+ " - " +:+
                                     error_text e) e
                       | None => None
                       end)
           end
       end.

Definition IsVolSyncReplicationRequired (homeCluster : string) : Op (bool * option GoError) :=
  if d_volSyncDisabled then mret (false, None)
  else
    v ← getCachedVRG homeCluster;
    mret (match v with
          | None => (false, errorf ("failed to find VRG on homeCluster " +:+ homeCluster))
          | Some vrg =>
              let pvcs := vst_ProtectedPVCs (vrg_Status vrg) in
              if bool_decide (pvcs = []) then (false, Some ErrWaitForSourceCluster)
              else (existsb pp_ProtectedByVolSync pvcs, None)
          end).

Definition EnsureVolSyncReplicationSetup (srcCluster : string) : Op (option GoError) :=
  r ← IsVolSyncReplicationRequired srcCluster;
  match r with
  | (_, Some e) => mret (Some e)
  | (false, None) => mret None
  | (true, None) =>
      d ← gets w_drpc;
      let name := om_Name (drpc_Meta d) in
      t ← tick;
      match env_ReconcileVolSyncReplicationSecret t (name +:+ "-vs-secret-hub") (om_Namespace (drpc_Meta d)) with
      | inr e => mret (wrapf (error_text e) e)
      | inl pskSecretHub =>
          t ← tick;
          mret (match env_PropagateSecretToClusters t pskSecretHub ((om_Name ∘ dc_Meta) <$> d_drClusters)
                        (GetVolSyncPSKSecretNameFromVRGName name) d_vrgNamespace with
                | Some e => wrapf (error_text e) e
                | None => None
                end)
      end
  end.

(** The destination's VRG, completed from the source's view and ManifestWork. *)
Definition secondary_spec (d : DRPlacementControl) (srcVRGView srcVRG dstVRG : VolumeReplicationGroup)
    : VolumeReplicationGroup + GoError :=
  match d_drType with
  | DRTypeAsync =>
      let dstVRG :=
        if bool_decide (vst_ProtectedPVCs (vrg_Status srcVRGView) ≠ []) then
          let dstVRG := resetRDSpec srcVRGView dstVRG in
          if bool_decide (dsp_VolSyncSpec (drpc_Spec d) ≠ None) then updateMoverConfig d dstVRG else dstVRG
        else dstVRG in
      match vsp_Async (vrg_Spec srcVRG), vsp_Async (vrg_Spec dstVRG) with
      | Some srcAsync, Some dstAsync =>
          inl (dstVRG <| vrg_Spec ::= λ s, s <| vsp_Async :=
                 Some (dstAsync <| va_PeerClasses := va_PeerClasses srcAsync |>) |> |>)
      | _, _ => inr panic_nil
      end
  | DRTypeSync =>
      match vsp_Sync (vrg_Spec srcVRG), vsp_Sync (vrg_Spec dstVRG) with
      | Some srcSync, Some dstSync =>
          inl (dstVRG <| vrg_Spec ::= λ s, s <| vsp_Sync :=
                 Some (dstSync <| vs_PeerClasses := vs_PeerClasses srcSync |>) |> |>)
      | _, _ => inr panic_nil
      end
  end.

Definition refreshVRGSecondarySpec (srcCluster dstCluster : string)
    : Op (VolumeReplicationGroup + GoError) :=
  setProgression ProgressionSettingupVolsyncDest;;
  d ← gets w_drpc; vrgs ← gets w_vrgs;
  match vrgs !! srcCluster with
  | None => mret (inr (Errorf ("failed to find source VolSync VRG in cluster " +:+ srcCluster +:+ ". VRGs " +:+
                         env_fmt_vrgs vrgs) None))
  | Some srcVRGView =>
      r ← getVRGFromManifestWork srcCluster;
      mret (match r with
            | inr _ => inr (Errorf ("failed to find source VRG ManifestWork in cluster " +:+ srcCluster) None)
            | inl srcVRG => secondary_spec d srcVRGView srcVRG (newVRG d vrgs dstCluster Secondary None)
            end)
  end.

(** The loop returns on the first peer of [srcCluster]. *)
Definition createOrUpdateSecondaryManifestWork (srcCluster : string)
    : Op (OperationResult * option GoError) :=
  match find_first (λ c, negb (bool_decide (c = srcCluster))) (DRPolicyClusterNames d_drPolicy) with
  | None => mret (OperationResultNone, None)
  | Some dstCluster =>
      d ← gets w_drpc;
      err ← ensureNamespaceManifestWork dstCluster;
      match err with
      | Some _ => mret (OperationResultNone,
                    errorf ("creating ManifestWork couldn't ensure namespace '" +:+ om_Namespace (drpc_Meta d) +:+
                            "' on cluster " +:+ dstCluster +:+ " exists"))
      | None =>
          err ← ensureRecipeManifestWork srcCluster dstCluster;
          match err with
          | Some _ => mret (OperationResultNone,
                        errorf ("creating ManifestWork couldn't ensure recipe on cluster " +:+ dstCluster +:+ " exists"))
          | None =>
              r ← refreshVRGSecondarySpec srcCluster dstCluster;
              match r with
              | inr e => mret (OperationResultNone, Some e)
              | inl vrg =>
                  r ← CreateOrUpdateVRGManifestWork (om_Name (drpc_Meta d)) d_vrgNamespace dstCluster vrg
                        (drpcAnnotations d);
                  mret (match r.2 with
                        | Some e => (OperationResultNone,
                                     wrapf ("failed to create or update VRG MW in namespace " +:+ dstCluster +:+
                                            " (" +:+ error_text e +:+ ")") e)
                        | None => r
                        end)
              end
          end
      end
  end.

Definition EnsureSecondaryReplicationSetup (srcCluster : string) : Op (option GoError) :=
  setProgression ProgressionEnsuringSecondarySetup;;
  r ← createOrUpdateSecondaryManifestWork srcCluster;
  match r with
  | (_, Some e) => mret (Some e)
  | (OperationResultCreated, None) => mret (Some ErrWaitForVolSyncManifestWorkCreation)
  | (_, None) =>
      vrgs ← gets w_vrgs;
      match vrgs !! srcCluster with
      | None => mret (errorf ("failed to find source VRG in cluster " +:+ srcCluster +:+ ". VRGs " +:+
                        env_fmt_vrgs vrgs))
      | Some _ =>
          err ← EnsureVolSyncReplicationSetup srcCluster;
          match err with
          | Some e => mret (Some e)
          | None =>
              d ← gets w_drpc;
              if negb (IsSubmarinerEnabled (om_Annotations (drpc_Meta d)))
              then ensureVolSyncReplicationSource srcCluster
              else mret None
          end
      end
  end.

Definition not_primary_error (vrg : VolumeReplicationGroup) (mw : ManifestWork) : option GoError :=
  errorf ("vrg " +:+ om_Name (vrg_Meta vrg) +:+ " is not set as primary on this cluster, " +:+
          om_Namespace (mw_Meta mw)).

Definition ResetVolSyncRDOnPrimary (clusterName : string) : Op (option GoError) :=
  if d_volSyncDisabled then mret None
  else
    r ← FindManifestWorkByType MWTypeVRG clusterName;
    match r with
    | inr e => if IsNotFound e then mret None
               else mret (wrapf ("failed to update VRG state for MW, in namespace " +:+ clusterName +:+
                            " (" +:+ error_text e +:+ ")") e)
    | inl mw =>
        match ExtractVRGFromManifestWork mw with
        | inr e => mret (Some e)
        | inl vrg =>
            if bool_decide (vsp_ReplicationState (vrg_Spec vrg) ≠ Primary) then mret (not_primary_error vrg mw)
            else if bool_decide (vss_RDSpec (vsp_VolSync (vrg_Spec vrg)) = []) then mret None
            else UpdateVRGManifestWork
                   (vrg <| vrg_Spec ::= λ s, s <| vsp_VolSync ::= λ v, v <| vss_RDSpec := [] |> |> |>) mw
        end
    end.

Definition ResetVMStaticIPSpecOnPrimary (clusterName : string) : Op (option GoError) :=
  d ← gets w_drpc;
  if negb (IsVMRecipe (dsp_KubeObjectProtection (drpc_Spec d))) then mret None
  else
    r ← FindManifestWorkByType MWTypeVRG clusterName;
    match r with
    | inr e => if IsNotFound e then mret None
               else mret (wrapf ("failed to lookup VRG ManifestWork for cluster " +:+ clusterName +:+
                            " (" +:+ error_text e +:+ ")") e)
    | inl mw =>
        match ExtractVRGFromManifestWork mw with
        | inr e => mret (Some e)
        | inl vrg =>
            if bool_decide (vrm_ProtectedStaticIPVMs
                 (vc_ResourceMeta (dst_ResourceConditions (drpc_Status d))) = []) then
              let '(changed, vrg) := setStaticIPTranslationSpec vrg None in
              if negb changed then mret None else UpdateVRGManifestWork vrg mw
            else if bool_decide (vsp_ReplicationState (vrg_Spec vrg) ≠ Primary) then mret (not_primary_error vrg mw)
            else if bool_decide (vsp_StaticIPTranslationSpec (vrg_Spec vrg) = None) then mret None
            else UpdateVRGManifestWork
                   (vrg <| vrg_Spec ::= λ s, s <| vsp_StaticIPTranslationSpec := None |> |>) mw
        end
    end.
End volsync.
