(* ===== verification/DRPC.v ===== *)
(** * The orchestrator's actions

    internal/controller/drplacementcontrol.go, [executeAction] to
    [switchToCluster], with the cleanup of secondaries, and
    drplacementcontrol_global.go: initial deployment, failover, relocation and the
    test-failover (dry-run) flow of one DRPC. *)

From Stdlib Require Import ZArith.
From S2P Require Import Prelude Meta Names Conditions Api PeerClasses Events Telemetry.
From S2P Require Import Hub ManifestWorks Placement VRGBuild DRPCStatus DRPCWorks DRPCVolSync.

Definition ErrWaitForAppResourceRestoreToComplete : GoError :=
  Errorf "waiting for App resources to be restored" None.

(** A method's [(done, err)]. *)
Abbreviation Done := (bool * option GoError)%type.

(** A [time.Duration] is 64 bits wide. *)
Definition int64 (z : Z) : Z := ((z + 2 ^ 63) mod 2 ^ 64 - 2 ^ 63)%Z.

Definition quote (s : string) : string := quoted s.

Section drpc.
Context `{Env} `{DRPCInstance}.

(** ** Placement *)

Definition updateUserPlacementRule (homeCluster reason : string) : Op (option GoError) :=
  updateUserPlacementStatusDecision (Some (mkClusterDecision homeCluster reason)).

Definition clearUserPlacementRuleStatus : Op (option GoError) := updateUserPlacementStatusDecision None.

Definition isUserPlRuleUpdated (homeCluster : string) : Op bool :=
  p ← gets w_placement;
  match p with
  | PlacementRule _ decisions =>
      mret (match decisions with d :: _ => bool_decide (pd_ClusterName d = homeCluster) | [] => false end)
  | Placement _ =>
      decision ← getClusterDecision; mret (bool_decide (cd_ClusterName decision = homeCluster))
  | NoPlacement => mret false
  end.

(** [AddAnnotation] on the instance. *)
Definition addAnnotation (key value : string) : Op bool :=
  d ← gets w_drpc;
  modify_drpc (λ d, d <| drpc_Meta ::= λ m, (AddAnnotation m key value).2 |>);;
  mret (AddAnnotation (drpc_Meta d) key value).1.

Definition ensurePlacement (homeCluster : string) : Op (option GoError) :=
  d ← gets w_drpc;
  added ← (if bool_decide (om_Annotations (drpc_Meta d) !! LastAppDeploymentCluster ≠ Some homeCluster)
           then addAnnotation LastAppDeploymentCluster homeCluster else mret false);
  added ← (if negb (dsp_DryRun (drpc_Spec d)) then
             a ← addAnnotation DRPCLastAction (DRAction_string (dsp_Action (drpc_Spec d)));
             mret (a || added)
           else mret added);
  err ← (if (added : bool) then Update_drpc else mret None);
  match err with
  | Some e => mret (Some e)
  | None =>
      decision ← getClusterDecision;
      if bool_decide (cd_ClusterName decision = "") || bool_decide (homeCluster ≠ cd_ClusterName decision)
      then updatePreferredDecision;; updateUserPlacementRule homeCluster homeCluster
      else mret None
  end.

(** ** Cleanup of the peers *)

Definition cleanupSecondary (clusterName clusterToSkip : string) : Op (bool * option GoError) :=
  r ← updateVRGState clusterName Secondary;
  match r with
  | (_, Some e) =>
      if IsNotFound e then
        err ← EnsureSecondaryReplicationSetup clusterToSkip;
        mret (match err with Some e => (false, Some e) | None => (false, None) end)
      else mret (false, None)
  | (true, None) => mret (false, None)
  | (false, None) =>
      d ← gets w_drpc; v ← getCachedVRG clusterName;
      match v with
      | None => mret (bool_decide (dsp_Action (drpc_Spec d) = ActionNone), None)
      | Some vrg =>
          if bool_decide (vsp_ReplicationState (vrg_Spec vrg) ≠ Secondary) ||
             bool_decide (vst_ObservedGeneration (vrg_Status vrg) ≠ om_Generation (vrg_Meta vrg))
          then mret (false, None)
          else
            err ← removeClusterDecisionForFailover clusterName;
            match err with
            | Some e => mret (false, Some e)
            | None =>
                (if isDiscoveredApp d then setDiscoveredAppGCProgression clusterToSkip else mret ());;
                ok ← ensureVRGIsSecondaryOnCluster clusterName;
                mret (ok, None)
            end
      end
  end.

Fixpoint cleanup_peers (clusterToSkip : string) (clusters : list string) : Op (option GoError) :=
  match clusters with
  | [] => mret None
  | c :: cs =>
      if bool_decide (clusterToSkip = c) then cleanup_peers clusterToSkip cs
      else
        r ← cleanupSecondary c clusterToSkip;
        match r with
        | (_, Some e) => mret (Some e)
        | (false, None) => mret (errorf "still waiting for peer to be ready")
        | (true, None) => cleanup_peers clusterToSkip cs
        end
  end.

Definition cleanupSecondaries (clusterToSkip : string) : Op (option GoError) :=
  err ← cleanup_peers clusterToSkip (DRPolicyClusterNames d_drPolicy);
  match err with
  | Some e => mret (Some e)
  | None =>
      setCondition ConditionPeerReady ConditionTrue ReasonSuccess "Ready";;
      d ← gets w_drpc;
      if HasAnnotation (drpc_Meta d) DRPCTestFailoverDryRunAnnotation then
        modify_drpc (λ d, d <| drpc_Meta ::= λ m,
          m <| om_Annotations ::= delete DRPCTestFailoverDryRunAnnotation |> |>);;
        err ← Update_drpc;
        mret (match err with
              | Some e => wrapf ("failed to remove test failover annotation: " +:+ error_text e) e
              | None => None
              end)
      else mret None
  end.

Definition peer_ready_success (d : DRPlacementControl) (c : Condition) : bool :=
  bool_decide (cond_Reason c = ReasonSuccess) && bool_decide (cond_Status c = ConditionTrue) &&
  bool_decide (cond_ObservedGeneration c = om_Generation (drpc_Meta d)).

Definition EnsureCleanup (clusterToSkip : string) : Op (option GoError) :=
  s ← status;
  (match FindCondition (dst_Conditions s) ConditionPeerReady with
   | None => setCondition ConditionPeerReady ConditionFalse ReasonProgressing "Starting cleanup check"
   | Some _ => mret false
   end);;
  d ← gets w_drpc;
  match FindCondition (dst_Conditions (drpc_Status d)) ConditionPeerReady with
  | Some c => if peer_ready_success d c then mret None else cleanupSecondaries clusterToSkip
  | None => cleanupSecondaries clusterToSkip
  end.

Definition ensureCleanupAndSecondaryReplicationSetup (srcCluster : string) : Op (option GoError) :=
  err ← ResetVolSyncRDOnPrimary srcCluster;
  match err with
  | Some e => mret (Some e)
  | None =>
      ResetVMStaticIPSpecOnPrimary srcCluster;;
      v ← getCachedVRG srcCluster;
      let waiting := match v with
                     | None => true
                     | Some vrg => bool_decide (vss_RDSpec (vsp_VolSync (vrg_Spec vrg)) ≠ [])
                     end in
      if (waiting : bool) then
        mret (errorf ("waiting for RDSpec count on cluster " +:+ srcCluster +:+ " to go to zero. VRG OK? " +:+
                match v with Some _ => "true" | None => "false" end))
      else
        err ← EnsureCleanup srcCluster;
        match err with
        | Some e => mret (Some e)
        | None => EnsureSecondaryReplicationSetup srcCluster
        end
  end.

Definition ensureActionTransition (srcCluster : string) : Op Done :=
  setProgression ProgressionCleaningUp;;
  err ← ensureVRGManifestWork srcCluster;
  match err with
  | Some e => mret (false, Some e)
  | None =>
      err ← ensurePlacement srcCluster;
      match err with
      | Some e => mret (false, Some e)
      | None =>
          err ← ensureCleanupAndSecondaryReplicationSetup srcCluster;
          match err with
          | Some e => mret (false, Some e)
          | None =>
              setProgression ProgressionCompleted;;
              setActionDuration;;
              mret (true, None)
          end
      end
  end.

(** ** Switching *)

Definition switchToCluster (targetCluster targetClusterNamespace : string) : Op (option GoError) :=
  r ← createVRGManifestWorkAsPrimary targetCluster;
  match r with
  | (_, Some e) => mret (Some e)
  | (true, None) =>
      setProgression ProgressionWaitingForResourceRestore;;
      mret (wrapf "waiting for App resources to be restored)" ErrWaitForAppResourceRestoreToComplete)
  | (false, None) =>
      ready ← checkReadiness targetCluster;
      if negb ready then
        setProgression ProgressionWaitingForResourceRestore;;
        mret (wrapf "waiting for App resources to be restored)" ErrWaitForAppResourceRestoreToComplete)
      else
        err ← updateUserPlacementRule targetCluster targetClusterNamespace;
        match err with
        | Some e => mret (Some e)
        | None => setProgression ProgressionUpdatedPlacement;; mret None
        end
  end.

(** ** Initial deployment *)

Definition isDeployed (homeCluster : string) : Op (bool * string) :=
  v ← getCachedVRG homeCluster;
  match v with
  | Some _ => mret (true, homeCluster)
  | None =>
      r ← isVRGAlreadyDeployedElsewhere homeCluster;
      match r with
      | Some clusterName => updatePreferredDecision;; mret (true, clusterName)
      | None => mret (false, "")
      end
  end.

(** [startDeploying] once the VRG's ManifestWork is there. *)
Definition place_deployment (homeCluster homeClusterNamespace : string) : Op Done :=
  setProgression ProgressionUpdatingPlRule;;
  err ← updateUserPlacementRule homeCluster homeClusterNamespace;
  match err with
  | Some e =>
      Report EventTypeWarning EventReasonDeployFail (error_text e);;
      mret (false, Some e)
  | None =>
      modify_drpc (λ d, d <| drpc_Status ::= λ s, s <| dst_PreferredDecision :=
        mkPlacementDecision (dsp_PreferredCluster (drpc_Spec d)) (dsp_PreferredCluster (drpc_Spec d)) |> |>);;
      setDRState Deployed;;
      mret (true, None)
  end.

Definition startDeploying (homeCluster homeClusterNamespace : string) : Op Done :=
  setDRState Deploying;;
  setProgression ProgressionCreatingMW;;
  err ← createVRGManifestWork homeCluster Primary;
  match err with
  | Some e => if negb (IsAlreadyExists e) then mret (false, Some e)
              else place_deployment homeCluster homeClusterNamespace
  | None => place_deployment homeCluster homeClusterNamespace
  end.

Definition getHomeClusterForInitialDeploy (s : DRPlacementControlSpec) : string * string :=
  if bool_decide (dsp_PreferredCluster s ≠ "") then (dsp_PreferredCluster s, dsp_PreferredCluster s)
  else ("", "").

(** [RunInitialDeployment] once the deployment is known to be in place. *)
Definition complete_deployment (homeCluster : string) : Op Done :=
  setDRState Deployed;;
  r ← ensureActionTransition homeCluster;
  match r.2 with
  | Some e => mret (false, Some e)
  | None =>
      d ← gets w_drpc;
      err ← (if isDiscoveredApp d then updateUserPlacementRule homeCluster homeCluster else mret None);
      match err with
      | Some e => mret (false, Some e)
      | None =>
          updatePreferredDecision;;
          setConditionOnInitialDeploymentCompletion;;
          setProgression ProgressionCompleted;;
          setActionDuration;;
          mret (true, None)
      end
  end.

Definition RunInitialDeployment : Op Done :=
  s ← spec;
  let '(homeCluster, homeClusterNamespace) := getHomeClusterForInitialDeploy s in
  if bool_decide (homeCluster = "") then
    p ← gets w_placement;
    let msg := "PreferredCluster not set. Placement (" +:+ env_fmt_placement p +:+ ")" in
    setAvailable msg;;
    Report EventTypeWarning EventReasonDeployFail msg;;
    mret (false, errorf msg)
  else
    r ← isDeployed homeCluster;
    let '(deployed, clusterName) := r in
    if (deployed : bool) && negb (bool_decide (clusterName = homeCluster))
    then ensureActionTransition homeCluster
    else
      d ← gets w_drpc;
      if deployed && HasAnnotation (drpc_Meta d) DRPCTestFailoverDryRunAnnotation then
        err ← switchClusterDecisionRetainFailover homeCluster;
        match err with
        | Some e => mret (false, Some e)
        | None =>
            setCondition ConditionPeerReady ConditionFalse ReasonCleaning "Not Ready";;
            complete_deployment homeCluster
        end
      else
        updated ← (if deployed then isUserPlRuleUpdated homeCluster else mret false);
        if negb updated then
          setStatusInitiating;;
          r ← startDeploying homeCluster homeClusterNamespace;
          match r.2 with
          | Some e => setAvailable (error_text e);; mret (false, Some e)
          | None => setConditionOnInitialDeploymentCompletion;; mret (false, None)
          end
        else complete_deployment homeCluster.

(** ** Fencing and failover prerequisites *)

Definition cluster_fenced (c : DRCluster) : bool :=
  match FindCondition (dct_Conditions (dc_Status c)) DRClusterConditionTypeFenced with
  | None => false
  | Some cond => bool_decide (cond_Status cond = ConditionTrue) &&
                 bool_decide (cond_ObservedGeneration cond = om_Generation (dc_Meta c))
  end.

Definition checkClusterFenced (cluster : string) (drClusters : list DRCluster) : bool * option GoError :=
  match find_first (λ c, bool_decide (om_Name (dc_Meta c) = cluster)) drClusters with
  | Some c => (cluster_fenced c, None)
  | None => (false, errorf ("failed to get the fencing status for the cluster " +:+ cluster))
  end.

Definition checkMetroFailoverPrerequisites (curHomeCluster : string) : Op (bool * option GoError) :=
  setProgression ProgressionWaitForFencing;;
  mret (match checkClusterFenced curHomeCluster d_drClusters with
        | (_, Some e) => (false, Some e)
        | (false, None) => (false, errorf ("current home cluster " +:+ curHomeCluster +:+ " is not fenced"))
        | (true, None) => (true, None)
        end).

(** Primary views on other clusters, in the order of the range. *)
Definition getLastKnownPrimaryVRG (vrgs : gmap string VolumeReplicationGroup) (targetCluster : string)
    : Op (option VolumeReplicationGroup) :=
  l ← range_map vrgs;
  mret (snd <$> find_first (λ '(c, v), negb (bool_decide (c = targetCluster)) && isVRGPrimary v) l).

Fixpoint last_primary_from_s3 (profiles : list string) (name namespace : string)
    (latest : option VolumeReplicationGroup) : Op (option VolumeReplicationGroup) :=
  match profiles with
  | [] => mret latest
  | p :: ps =>
      t ← tick;
      let latest' :=
        match env_s3_vrg t p namespace name with
        | inr _ => latest
        | inl vrg =>
            if negb (isVRGPrimary vrg) then latest
            else match latest with
                 | None => Some vrg
                 | Some l => if bool_decide (vst_LastUpdateTime (vrg_Status l) < vst_LastUpdateTime (vrg_Status vrg))%Z
                             then Some vrg else latest
                 end
        end in
      last_primary_from_s3 ps name namespace latest'
  end.

Definition GetLastKnownVRGPrimaryFromS3 (s3ProfileNames : list string) (sourceVrgName sourceVrgNamespace : string)
    : Op (option VolumeReplicationGroup) :=
  last_primary_from_s3 s3ProfileNames sourceVrgName sourceVrgNamespace None.

(** The storage identifiers whose failover maintenance mode must be active, by
    provisioner and replication ID. *)
Definition activation_key (si : StorageIdentifiers) : string :=
  si_StorageProvisioner si +:+ idf_ID (si_ReplicationID si).

Definition activations_required (pvcs : list ProtectedPVC) : gmap string StorageIdentifiers :=
  foldl (λ acc pvc,
    let si := pp_StorageIdentifiers pvc in
    let modes := idf_Modes (si_ReplicationID si) in
    if bool_decide (modes = []) then acc
    else if negb (bool_decide (MModeFailover ∈ modes)) then acc
    else
      let key := activation_key si in
      match acc !! key with Some _ => acc | None => <[key := si]> acc end) ∅ pvcs.

(** The VRG whose protected PVCs are inspected: a primary view on another cluster,
    else the latest primary in the object stores. *)
Definition lastKnownPrimary (s3ProfileNames : list string) (drpcName vrgNamespace : string)
    (vrgs : gmap string VolumeReplicationGroup) (failoverCluster : string) : Op (option VolumeReplicationGroup) :=
  v ← getLastKnownPrimaryVRG vrgs failoverCluster;
  match v with
  | Some vrg => mret (Some vrg)
  | None => GetLastKnownVRGPrimaryFromS3 s3ProfileNames drpcName vrgNamespace
  end.

Definition requiresRegionalFailoverPrerequisites (s3ProfileNames : list string) (drpcName vrgNamespace : string)
    (vrgs : gmap string VolumeReplicationGroup) (failoverCluster : string)
    : Op (bool * gmap string StorageIdentifiers) :=
  v ← lastKnownPrimary s3ProfileNames drpcName vrgNamespace vrgs failoverCluster;
  mret (match v with
        | None => (false, ∅)
        | Some vrg =>
            let required := activations_required (vst_ProtectedPVCs (vrg_Status vrg)) in
            (bool_decide (required ≠ ∅), required)
        end).

Definition checkActivationForStorageIdentifier (mModeStatus : list ClusterMaintenanceMode)
    (si : StorageIdentifiers) (activation : string) : bool :=
  match find_first (λ m, bool_decide (cmm_StorageProvisioner m = si_StorageProvisioner si) &&
                         bool_decide (cmm_TargetID m = idf_ID (si_ReplicationID si))) mModeStatus with
  | None => false
  | Some m =>
      match find_first (λ c, bool_decide (cond_Type c = activation)) (cmm_Conditions m) with
      | None => false
      | Some c => bool_decide (cond_Status c = ConditionTrue)
      end
  end.

(** The loop's order does not matter: it looks for a counterexample. *)
Definition checkFailoverMaintenanceActivations (drCluster : DRCluster)
    (activationsRequired : gmap string StorageIdentifiers) : bool :=
  forallb (λ kv, checkActivationForStorageIdentifier (dct_MaintenanceModes (dc_Status drCluster)) kv.2
                   MModeConditionFailoverActivated) (map_to_list activationsRequired).

Definition checkRegionalFailoverPrerequisites : Op bool :=
  setProgression ProgressionWaitForStorageMaintenanceActivation;;
  d ← gets w_drpc;
  let failoverCluster := dsp_FailoverCluster (drpc_Spec d) in
  match find_first (λ c, bool_decide (om_Name (dc_Meta c) = failoverCluster)) d_drClusters with
  | None => mret true
  | Some drCluster =>
      vrgs ← gets w_vrgs;
      r ← requiresRegionalFailoverPrerequisites [dcs_S3ProfileName (dc_Spec drCluster)]
            (om_Name (drpc_Meta d)) d_vrgNamespace vrgs failoverCluster;
      let '(required, activationsRequired) := r in
      mret (if (required : bool) then checkFailoverMaintenanceActivations drCluster activationsRequired else true)
  end.

Definition checkFailoverPrerequisites (curHomeCluster : string) : Op (bool * option GoError) :=
  r ← (match d_drType with
       | DRTypeSync => checkMetroFailoverPrerequisites curHomeCluster
       | DRTypeAsync => met ← checkRegionalFailoverPrerequisites; mret (met, None)
       end);
  match r with
  | (true, None) => mret (true, None)
  | (met, err) =>
      msg ← (match err with
             | Some e => Report EventTypeWarning EventReasonSwitchFailed (error_text e);; mret (error_text e)
             | None => mret "Waiting for spec.failoverCluster to meet failover prerequisites"
             end);
      setAvailable msg;;
      mret (met, err)
  end.

Definition getCurrentHomeClusterName (toCluster : string) (drClusters : list DRCluster) : Op string :=
  decision ← getClusterDecision;
  if bool_decide (cd_ClusterName decision ≠ "") then mret (cd_ClusterName decision)
  else
    s ← status;
    if bool_decide (pd_ClusterName (dst_PreferredDecision s) ≠ "")
    then mret (pd_ClusterName (dst_PreferredDecision s))
    else mret (match find_first (λ c, negb (bool_decide (om_Name (dc_Meta c) = toCluster))) drClusters with
               | Some c => om_Name (dc_Meta c)
               | None => ""
               end).

Definition switchToFailoverCluster : Op Done :=
  setDRState FailingOver;;
  setAvailable "Starting failover";;
  d ← gets w_drpc;
  let newHomeCluster := dsp_FailoverCluster (drpc_Spec d) in
  setCondition ConditionPeerReady ConditionFalse ReasonNotStarted
    ("Started failover to cluster " +:+ quote newHomeCluster);;
  setProgression ProgressionCheckingFailoverPrerequisites;;
  curHomeCluster ← getCurrentHomeClusterName newHomeCluster d_drClusters;
  if bool_decide (curHomeCluster = "") then
    setAvailable "Invalid Failover request. Current home cluster does not exists";;
    s ← status;
    let msg := "failover requested on invalid state " +:+ env_fmt_status s in
    Report EventTypeWarning EventReasonSwitchFailed msg;;
    mret (true, errorf msg)
  else
    r ← checkFailoverPrerequisites curHomeCluster;
    match r with
    | (_, Some e) => mret (false, Some e)
    | (false, None) => mret (false, None)
    | (true, None) =>
        setProgression ProgressionFailingOverToCluster;;
        err ← retainClusterDecisionAsFailover curHomeCluster;
        err ← (match err with Some e => mret (Some e) | None => switchToCluster newHomeCluster "" end);
        match err with
        | Some e =>
            setAvailable (error_text e);;
            Report EventTypeWarning EventReasonSwitchFailed (error_text e);;
            mret (false, Some e)
        | None =>
            updatePreferredDecision;;
            setDRState FailedOver;;
            setAvailable "Completed";;
            mret (false, None)
        end
    end.

(** ** Failover *)

Definition isValidFailoverTarget (cluster : string) : Op (bool * option GoError) :=
  r ← viewVRG cluster;
  mret (match r with
        | inr e => (false, wrapf ("failed to get VRG from managed cluster " +:+ cluster +:+ ": " +:+ error_text e) e)
        | inl vrg =>
            if isVRGPrimary vrg then (true, None)
            else if negb (shows_secondary vrg) then
              (false, errorf ("VRG on " +:+ cluster +:+
                 " has not transitioned to secondary yet. Spec-State/Status-State " +:+
                 ReplicationState_string (vsp_ReplicationState (vrg_Spec vrg)) +:+ "/" +:+
                 State_string (vst_State (vrg_Status vrg))))
            else (true, None)
        end).

Definition isProtected : Op bool :=
  s ← status;
  if existsb (λ c, bool_decide (cond_Type c = ConditionProtected) &&
                   bool_decide (cond_Status c = ConditionTrue)) (dst_Conditions s)
  then mret true
  else setAvailableAs ConditionFalse "cannot start failover because workload is not protected";; mret false.

Definition isGroupSyncLagging : Op bool :=
  s ← status;
  match dst_LastGroupSyncTime s with
  | None => mret false
  | Some last =>
      match GetSecondsFromSchedulingInterval d_drPolicy with
      | inr _ => mret false
      | inl intervalSecs =>
          now ← time_Now;
          if bool_decide (now - last ≤ int64 (3 * intervalSecs * Second))%Z then mret false
          else
            setAvailableAs ConditionFalse ("cannot start dry-run failover: lastGroupSyncTime is lagging behind," +:+
              " check workload and cluster replication state");;
            mret true
      end
  end.

Definition dryRunReadyToFailover : Op bool :=
  protected ← isProtected;
  if negb protected then mret false
  else lagging ← isGroupSyncLagging; mret (negb lagging).

(** ** Consensus between DRPCs that share a global volume group *)

Definition setGlobalActionCondition (met : bool) (message : string) : Op unit :=
  (if met then setCondition ConditionGlobalAction ConditionTrue "ConsensusReached" message
   else setCondition ConditionGlobalAction ConditionFalse "ConsensusNotReached" message);;
  mret ().

Definition agrees (action : DRAction) (targetCluster : string) (s : DRPlacementControlSpec) : bool :=
  bool_decide (dsp_Action s = action) &&
  negb (bool_decide (action = ActionFailover) && negb (bool_decide (dsp_FailoverCluster s = targetCluster))) &&
  negb (bool_decide (action = ActionRelocate) && negb (bool_decide (dsp_PreferredCluster s = targetCluster))).

Definition isGlobalActionInConsensus : Op bool :=
  d ← gets w_drpc;
  let vgrLabel := globalVGRLabel d in
  let action := dsp_Action (drpc_Spec d) in
  if bool_decide (action ≠ ActionFailover) && bool_decide (action ≠ ActionRelocate) then mret false
  else
    let targetCluster := if bool_decide (action = ActionRelocate) then dsp_PreferredCluster (drpc_Spec d)
                         else dsp_FailoverCluster (drpc_Spec d) in
    t ← tick;
    match env_list_drpcs t GlobalVGRLabel vgrLabel with
    | inr _ => mret false
    | inl drpcs =>
        let pending := List.filter (λ o, negb (same_object (drpc_Meta o) (drpc_Meta d)) &&
                                         negb (agrees action targetCluster (drpc_Spec o))) drpcs in
        if bool_decide (pending ≠ []) then
          setGlobalActionCondition false
            ("Pending: " +:+ String.concat ", "
               ((λ o, om_Namespace (drpc_Meta o) +:+ "/" +:+ om_Name (drpc_Meta o)) <$> pending) +:+
             "; expected action " +:+ DRAction_string action +:+ " to " +:+ targetCluster);;
          setProgression ProgressionWaitOnGlobalAction;;
          mret false
        else
          setGlobalActionCondition true ("Consensus reached for action " +:+ DRAction_string action);;
          mret true
    end.

Definition ensureGlobalVGRLabel : Op bool :=
  d ← gets w_drpc;
  if hasGlobalVGRLabel d then mret true
  else
    l ← range_vrgs;
    match find_first (λ '(_, v), isVRGPrimary v) l with
    | None => mret true
    | Some (_, vrg) =>
        let vgrLabel := map_get (om_Labels (vrg_Meta vrg)) GlobalVGRLabel in
        if bool_decide (vgrLabel ≠ "") then
          modify_drpc (λ d, d <| drpc_Meta ::= λ m, (AddLabel m GlobalVGRLabel vgrLabel).2 |>);;
          Update_drpc;;
          mret false
        else mret true
    end.

(** [d.hasGlobalVGRLabel() && !d.isGlobalActionInConsensus()] *)
Definition waitsForConsensus : Op bool :=
  d ← gets w_drpc;
  if hasGlobalVGRLabel d then ok ← isGlobalActionInConsensus; mret (negb ok) else mret false.

Definition set_requeueAfter (duration : Z) : Op unit :=
  modify (λ w, w <| w_requeueAfter := duration |>).

(** [RunFailover] where the failover cluster's VRG is already primary. *)
Definition complete_failover (failoverCluster : string) : Op Done :=
  updatePreferredDecision;;
  setDRState FailedOver;;
  err ← ensureVRGManifestWork failoverCluster;
  match err with
  | Some e => setProgression ProgressionWaitForReadiness;; mret (false, Some e)
  | None =>
      ready ← checkReadiness failoverCluster;
      if negb ready then setProgression ProgressionWaitForReadiness;; mret (false, None)
      else
        setAvailableAs ConditionTrue "Completed";;
        s ← spec;
        if dsp_DryRun s then
          setProgression ProgressionTestingFailover;;
          err ← ensurePlacement failoverCluster;
          match err with
          | Some e => mret (false, Some e)
          | None => set_requeueAfter Minute;; mret (false, None)
          end
        else ensureActionTransition failoverCluster
  end.

(** [RunFailover] once its target is known to be valid. *)
Definition start_failover (failoverCluster : string) (dryRun : bool) : Op Done :=
  primary ← vrgExistsAndPrimary failoverCluster;
  if (primary : bool) then complete_failover failoverCluster
  else
    r ← mwExistsAndPlacementUpdated failoverCluster;
    if r.1 || bool_decide (is_Some r.2) then mret (false, r.2)
    else
      blocked ← (if dryRun then ready ← dryRunReadyToFailover; mret (negb ready) else mret false);
      if (blocked : bool) then mret (false, None)
      else
        setStatusInitiating;;
        waits ← waitsForConsensus;
        if (waits : bool) then mret (false, None) else switchToFailoverCluster.

Definition RunFailover : Op Done :=
  s ← spec;
  let failoverCluster := dsp_FailoverCluster s in
  if bool_decide (failoverCluster = "") then
    let msg := "missing value for spec.FailoverCluster" in
    setAvailable msg;; mret (true, errorf msg)
  else
    r ← isValidFailoverTarget failoverCluster;
    match r with
    | (false, checkerr) =>
        let msg := "unable to start failover, spec.FailoverCluster (" +:+ failoverCluster +:+
                   ") is not a valid Secondary target: " +:+
                   match checkerr with Some e => error_text e | None => "%!w(<nil>)" end in
        setAvailable msg;;
        mret (false, Some (Errorf msg checkerr))
    | (true, _) => start_failover failoverCluster (dsp_DryRun s)
    end.

(** ** Relocation *)

Definition areMultipleVRGsPrimary : Op bool :=
  l ← range_vrgs;
  mret (bool_decide (1 < length (List.filter (λ '(_, v), isVRGPrimary v && negb (vsp_DryRun (vrg_Spec v))) l))).

Definition validatePeerReady : Op bool :=
  s ← status;
  mret (match FindCondition (dst_Conditions s) ConditionPeerReady with
        | None => true
        | Some c => bool_decide (cond_Status c = ConditionTrue)
        end).

Definition selectCurrentPrimaryAndSecondaries : Op (string * list string) :=
  l ← range_vrgs;
  mret (match find_first (λ '(_, v), isVRGPrimary v) l with Some (c, _) => c | None => "" end,
        fst <$> List.filter (λ '(_, v), isVRGSecondary v) l).

Definition validateAndSelectCurrentPrimary (preferredCluster : string) : Op (string * option GoError) :=
  if bool_decide (preferredCluster = "") then mret ("", errorf "preferred cluster not valid")
  else
    vrgs ← gets w_vrgs;
    if bool_decide (vrgs = ∅) then mret ("", errorf "no VRGs exists. Can't relocate")
    else
      multiple ← areMultipleVRGsPrimary;
      if (multiple : bool) then mret ("", errorf "multiple primaries in transition detected")
      else r ← selectCurrentPrimaryAndSecondaries; mret (r.1, None).

Definition readyToSwitchOver (homeCluster preferredCluster : string) : Op bool :=
  let blocked := match d_drType with
                 | DRTypeSync => match checkClusterFenced preferredCluster d_drClusters with
                                 | (_, Some _) => true
                                 | (fenced, None) => fenced
                                 end
                 | DRTypeAsync => false
                 end in
  if blocked then mret false
  else
    dataReady ← isVRGConditionMet homeCluster VRGConditionTypeDataReady;
    protected ← isVRGConditionMet homeCluster VRGConditionTypeClusterDataProtected;
    mret (dataReady && protected).

Definition prepareForFinalSync (homeCluster : string) : Op Done :=
  v ← getCachedVRG homeCluster;
  match v with
  | None => mret (false, errorf ("VRG not found on Cluster " +:+ homeCluster))
  | Some vrg =>
      if negb (vst_PrepareForFinalSyncComplete (vrg_Status vrg)) then
        err ← updateVRGToPrepareForFinalSync homeCluster; mret (false, err)
      else mret (true, None)
  end.

Definition runFinalSync (homeCluster : string) : Op Done :=
  v ← getCachedVRG homeCluster;
  match v with
  | None => mret (false, errorf ("VRG not found on Cluster " +:+ homeCluster))
  | Some vrg =>
      if negb (vst_FinalSyncComplete (vrg_Status vrg)) then
        err ← updateVRGToRunFinalSync homeCluster; mret (false, err)
      else mret (true, None)
  end.

(** The placement is cleared when it still names a cluster. *)
Definition quiesce_placement (homeCluster : string) : Op (option GoError) :=
  decision ← getClusterDecision;
  if bool_decide (cd_ClusterName decision ≠ "") then
    setDRState Relocating;;
    setAvailable "Starting quiescing for relocation";;
    d ← gets w_drpc;
    (if isDiscoveredApp d then setDiscoveredAppGCProgression homeCluster
     else setProgression ProgressionClearingPlacement;; mret ());;
    clearUserPlacementRuleStatus
  else mret None.

Definition quiesceAndRunFinalSync (homeCluster : string) : Op Done :=
  r ← prepareForFinalSync homeCluster;
  match r with
  | (_, Some e) => mret (false, Some e)
  | (false, None) => setProgression ProgressionPreparingFinalSync;; mret (false, None)
  | (true, None) =>
      err ← quiesce_placement homeCluster;
      match err with
      | Some e => mret (false, Some e)
      | None =>
          r ← runFinalSync homeCluster;
          match r with
          | (_, Some e) => mret (false, Some e)
          | (false, None) =>
              d ← gets w_drpc;
              (if isDiscoveredApp d then setDiscoveredAppGCProgression homeCluster
               else setProgression ProgressionRunningFinalSync;; mret ());;
              mret (false, None)
          | (true, None) => setProgression ProgressionFinalSyncComplete;; mret (true, None)
          end
      end
  end.

(** [setupRelocation] where not all clusters show secondary yet. *)
Definition make_all_secondary (clusterToSkip : string) : Op (option GoError) :=
  d ← gets w_drpc;
  (if isDiscoveredApp d then setDiscoveredAppGCProgression clusterToSkip
   else setProgression ProgressionEnsuringVolumesAreSecondary;; mret ());;
  moved ← moveVRGToSecondaryEverywhere;
  if negb moved then mret (errorf "failed to move VRG to secondary everywhere")
  else
    ok ← ensureVRGIsSecondaryEverywhere "";
    mret (if (ok : bool) then None else errorf "waiting for VRGs to move to secondaries everywhere").

Definition setupRelocation (preferredCluster : string) : Op (option GoError) :=
  let clusterToSkip := preferredCluster in
  secondary ← ensureVRGIsSecondaryEverywhere clusterToSkip;
  err ← (if (secondary : bool) then mret None else make_all_secondary clusterToSkip);
  match err with
  | Some e => mret (Some e)
  | None =>
      protected ← ensureDataProtected clusterToSkip;
      mret (if (protected : bool) then None else errorf "waiting for data protection")
  end.

Definition relocate (preferredCluster preferredClusterNamespace : string) (drState : DRState) : Op Done :=
  setDRState drState;;
  setAvailable "Starting relocation";;
  setCondition ConditionPeerReady ConditionFalse ReasonNotStarted
    ("Relocation in progress to cluster " +:+ quote preferredCluster);;
  err ← setupRelocation preferredCluster;
  match err with
  | Some e => setAvailable (error_text e);; mret (false, Some e)
  | None =>
      err ← switchToCluster preferredCluster preferredClusterNamespace;
      match err with
      | Some e => setAvailable (error_text e);; mret (false, Some e)
      | None =>
          updatePreferredDecision;;
          setDRState Relocated;;
          setAvailable "Completed";;
          mret (false, None)
      end
  end.

(** [RunRelocate] where the preferred cluster's VRG is already primary. *)
Definition complete_relocation (preferredCluster : string) : Op Done :=
  setDRState Relocating;;
  updatePreferredDecision;;
  err ← ensureVRGManifestWork preferredCluster;
  match err with
  | Some e => setProgression ProgressionWaitForReadiness;; mret (false, Some e)
  | None =>
      ready ← checkReadiness preferredCluster;
      if negb ready then setProgression ProgressionWaitForReadiness;; mret (false, None)
      else
        setDRState Relocated;;
        setAvailableAs ConditionTrue "Completed";;
        ensureActionTransition preferredCluster
  end.

(** [RunRelocate] from the readiness checks of the current home cluster on. *)
Definition start_relocation (preferredCluster curHomeCluster : string) : Op Done :=
  let moving := negb (bool_decide (curHomeCluster = "")) && negb (bool_decide (curHomeCluster = preferredCluster)) in
  ready ← (if moving then readyToSwitchOver curHomeCluster preferredCluster else mret true);
  if negb ready then
    let errMsg := "current cluster (" +:+ curHomeCluster +:+ ") has not completed protection actions" in
    setAvailable errMsg;; mret (false, errorf errMsg)
  else
    s ← status;
    peerReady ← (if bool_decide (dst_Phase s ≠ Relocating) then validatePeerReady else mret true);
    if negb peerReady then mret (false, errorf "clean up secondaries is pending, peer is not ready")
    else
      r ← (if moving then quiesceAndRunFinalSync curHomeCluster else mret (true, None));
      match r with
      | (_, Some e) => mret (false, Some e)
      | (false, None) => mret (false, None)
      | (true, None) => relocate preferredCluster preferredCluster Relocating
      end.

Definition RunRelocate : Op Done :=
  if bool_decide (d_numClustersQueriedSuccessfully ≠ length (dps_DRClusters (drp_Spec d_drPolicy)))
  then mret (false, None)
  else
    s ← spec;
    let preferredCluster := dsp_PreferredCluster s in
    r ← validateAndSelectCurrentPrimary preferredCluster;
    match r with
    | (_, Some e) => setAvailable (error_text e);; mret (false, Some e)
    | (curHomeCluster, None) =>
        relocated ← (if bool_decide (curHomeCluster ≠ "") then vrgExistsAndPrimary preferredCluster else mret false);
        if (relocated : bool) then complete_relocation preferredCluster
        else
          setStatusInitiating;;
          waits ← waitsForConsensus;
          if (waits : bool) then mret (false, None)
          else start_relocation preferredCluster curHomeCluster
    end.

Definition executeAction : Op Done :=
  s ← spec;
  match dsp_Action s with
  | ActionFailover => RunFailover
  | ActionRelocate => RunRelocate
  | ActionNone => RunInitialDeployment
  end.
End drpc.
