(* ===== verification/FencingSpec.v ===== *)
(** * What a fenced cluster means

    The DRCluster reports Fenced to the DRPCs that fail over ([cluster_fenced]).  It
    does so, when fencing is asked for, only once the views of all NetworkFences on
    the peer show them fenced; it gets there in two reconciles; and unfencing ends
    with the NetworkFences' ManifestWorks deleted. *)

From Stdlib Require Import ZArith.
From S2P Require Import Prelude Meta Names Conditions Api PolicyPeers Hub ManifestWorks Views ClassViews.
From S2P Require Import DRClusters Fencing Placement VRGBuild DRPCStatus DRPCWorks DRPC Scenario.

(** ** Conditions *)

Lemma SetStatusCondition_status now conds new :
  cond_Status (SetStatusCondition now conds new).1 = cond_Status new ∧
  cond_ObservedGeneration (SetStatusCondition now conds new).1 = cond_ObservedGeneration new.
Proof.
  unfold SetStatusCondition. destruct (FindCondition _ _) as [c|]; [|done]. simpl.
  unfold overwrite_condition. destruct (decide (cond_Status c = cond_Status new)) as [E|E];
    [rewrite (bool_decide_eq_false_2 _ (λ H : cond_Status c ≠ cond_Status new, H E))
    |rewrite (bool_decide_eq_true_2 _ E)]; simpl; case_bool_decide as Eg; simpl; split; try done;
    by apply dec_stable.
Qed.

Section conditions.
Context `{Env}.

(** The parts of the DRCluster besides its conditions, and the hub's views. *)
Definition same_but_conditions (w w' : ClusterWorld) : Prop :=
  dc_Meta (cw_object w') = dc_Meta (cw_object w) ∧ dc_Spec (cw_object w') = dc_Spec (cw_object w) ∧
  dct_Phase (dc_Status (cw_object w')) = dct_Phase (dc_Status (cw_object w)) ∧
  w_views (cw_hub w') = w_views (cw_hub w) ∧ w_mws (cw_hub w') = w_mws (cw_hub w).

#[export] Instance same_but_conditions_preorder : PreOrder same_but_conditions.
Proof.
  split; [by intros w|]. intros u v w (?&?&?&?&?) (?&?&?&?&?). split_and!; congruence.
Qed.

Lemma set_dccondition_same t r s m : preserves same_but_conditions (set_dccondition t r s m).
Proof. by intros w. Qed.

Lemma set_dccondition_find t r s m w :
  ∃ c, FindCondition (dct_Conditions (dc_Status (cw_object (set_dccondition t r s m w).2))) t = Some c ∧
    cond_Status c = s ∧ cond_ObservedGeneration c = om_Generation (dc_Meta (cw_object w)).
Proof.
  simpl. set (new := mkCondition t s _ _ r m).
  pose proof (SetStatusCondition_find (env_now (w_tick (cw_hub w)))
    (dct_Conditions (dc_Status (cw_object w))) new) as E. simpl in E.
  eexists. split; [exact E|]. apply (SetStatusCondition_status _ _ new).
Qed.

Lemma set_dccondition_other t t' r s m w :
  t ≠ t' →
  FindCondition (dct_Conditions (dc_Status (cw_object (set_dccondition t r s m w).2))) t' =
  FindCondition (dct_Conditions (dc_Status (cw_object w))) t'.
Proof. intros Hne. simpl. apply SetStatusCondition_other. simpl. congruence. Qed.

Lemma set_fence_same r f c m : preserves same_but_conditions (set_fence r f c m).
Proof. apply preserves_bind; [apply _|apply set_dccondition_same|intro; apply set_dccondition_same]. Qed.

(** Whether the DRCluster counts as fenced, after its conditions were set. *)
Lemma set_fence_fenced r f c m w :
  cluster_fenced (cw_object (set_fence r f c m w).2) = bool_decide (f = ConditionTrue).
Proof.
  unfold set_fence. rewrite run_bind.
  destruct (set_dccondition_find DRClusterConditionTypeFenced r f m w) as (k & Ek & <- & Eg).
  set (w1 := (set_dccondition DRClusterConditionTypeFenced r (cond_Status k) m w).2) in *.
  unfold cluster_fenced.
  rewrite (set_dccondition_other _ DRClusterConditionTypeFenced), Ek by done.
  destruct (set_dccondition_same DRClusterConditionTypeClean r c m w1) as (-> & _).
  destruct (set_dccondition_same DRClusterConditionTypeFenced r (cond_Status k) m w) as (Em & _).
  fold w1 in Em. rewrite Em, Eg, bd_refl, andb_true_r. done.
Qed.
End conditions.

(** ** What views show *)

Definition same_report (v v' : ManagedClusterView) : Prop :=
  mcv_Conditions v' = mcv_Conditions v ∧ mcv_Result v' = mcv_Result v.

(** Reports stay: reading through views adds views and changes only what they ask for. *)
Definition reports_kept (h h' : World) : Prop :=
  ∀ k v, w_views h !! k = Some v → ∃ v', w_views h' !! k = Some v' ∧ same_report v v'.

#[export] Instance reports_kept_preorder : PreOrder reports_kept.
Proof.
  split; [intros h k v ?; by exists v|]. intros h1 h2 h3 H12 H23 k v Hv.
  destruct (H12 _ _ Hv) as (v' & Hv' & ? & ?). destruct (H23 _ _ Hv') as (v'' & ? & ? & ?).
  exists v''. split; [done|split; congruence].
Qed.

Section views.
Context `{Env} `{ViewCodec}.

Lemma GetResource_report {A} (decode : string → A + GoError) v v' :
  same_report v v' → GetResource decode v' = GetResource decode v.
Proof. intros [Ec Er]. unfold GetResource. by rewrite Ec, Er. Qed.

Lemma insert_kept (h h' : World) k v v0 :
  w_views h !! k = Some v0 → same_report v0 v → w_views h' = <[k := v]> (w_views h) → reports_kept h h'.
Proof.
  intros Hk Hs E k' v' Hv'. rewrite E. destruct (decide (k = k')) as [<-|Hne].
  - exists v. rewrite lookup_insert_eq. simplify_eq. done.
  - exists v'. by rewrite lookup_insert_ne.
Qed.

Lemma api_err_run h : api_err h = (env_api_err (w_tick h), h <| w_tick ::= S |>).
Proof. done. Qed.

Lemma Get_mcv_spec name ns h :
  let r := Get_mcv name ns h in
  w_views r.2 = w_views h ∧
  ∀ v, r.1 = inl v → mcv_key v = (ns, name) ∧ ∃ v0, w_views h !! (ns, name) = Some v0 ∧ same_report v0 v.
Proof.
  unfold Get_mcv. rewrite run_bind, api_err_run. simpl. destruct (env_api_err (w_tick h)); simpl; [by split; [|intros]|]. split; [done|].
  intros v. destruct (w_views h !! (ns, name)) as [v0|] eqn:E; [|done]. intros [= <-].
  split; [done|by exists v0].
Qed.

Lemma Create_mcv_spec v h :
  let r := Create_mcv v h in
  match r.1 with
  | None => w_views h !! mcv_key v = None ∧ w_views r.2 = <[mcv_key v := v]> (w_views h)
  | Some _ => w_views r.2 = w_views h
  end.
Proof.
  unfold Create_mcv. rewrite run_bind, api_err_run. simpl. destruct (env_api_err (w_tick h)); simpl; [done|].
  rewrite run_bind. simpl. by destruct (w_views h !! mcv_key v) eqn:E.
Qed.

Lemma Update_mcv_spec v h :
  let r := Update_mcv v h in
  match r.1 with
  | None => is_Some (w_views h !! mcv_key v) ∧ w_views r.2 = <[mcv_key v := v]> (w_views h)
  | Some _ => w_views r.2 = w_views h
  end.
Proof.
  unfold Update_mcv. rewrite run_bind, api_err_run. simpl. destruct (env_api_err (w_tick h)); simpl; [done|].
  rewrite run_bind. simpl. by destruct (w_views h !! mcv_key v) eqn:E.
Qed.

Lemma same_views_kept h h' : w_views h' = w_views h → reports_kept h h'.
Proof. intros E k v Hv. rewrite E. by exists v. Qed.

Lemma find_or_create_spec v0 meta h :
  (om_Namespace meta, om_Name meta) = mcv_key v0 →
  let r := find_or_create v0 meta h in
  reports_kept h r.2 ∧
  ∀ v, r.1 = inl v → mcv_key v = mcv_key v0 ∧ ∃ v', w_views r.2 !! mcv_key v0 = Some v' ∧ same_report v' v.
Proof.
  intros Hkey. unfold find_or_create. rewrite run_bind.
  destruct (Get_mcv_spec (om_Name meta) (om_Namespace meta) h) as [Ev Hget].
  destruct (Get_mcv (om_Name meta) (om_Namespace meta) h) as [r h1]. simpl in *.
  destruct r as [v|e].
  { split; [by apply same_views_kept|]. intros v' [= <-]. destruct (Hget v eq_refl) as [Hk (u & Hu & Hs)].
    rewrite <- Hkey. split; [done|]. exists u. simpl. by rewrite Ev. }
  destruct (negb (IsNotFound e)); simpl; [split; [by apply same_views_kept|done]|].
  rewrite run_bind. pose proof (Create_mcv_spec v0 h1) as Hc.
  destruct (Create_mcv v0 h1) as [[e'|] h2]; simpl in *.
  - split; [apply same_views_kept; congruence|done].
  - destruct Hc as [Hn E]. split.
    + intros k v Hv. exists v. rewrite E, Ev. rewrite lookup_insert_ne; [done|]. intros <-.
      rewrite Ev in Hn. congruence.
    + intros v [= <-]. split; [done|]. exists v0. by rewrite E, lookup_insert_eq.
Qed.

Lemma adjusted_spec meta scope v :
  mcv_key (adjusted meta scope v).2 = mcv_key v ∧ same_report v (adjusted meta scope v).2.
Proof. unfold adjusted. cbv zeta. simpl. by repeat case_bool_decide. Qed.

Lemma getOrCreate_report meta scope h :
  let r := getOrCreateManagedClusterView meta scope h in
  reports_kept h r.2 ∧
  ∀ v, r.1 = inl v → ∃ v', w_views r.2 !! (om_Namespace meta, om_Name meta) = Some v' ∧ same_report v' v.
Proof.
  set (v0 := mkManagedClusterView (AddLabel meta CreatedByRamenLabel "true").2 scope [] "").
  assert (Hkey : (om_Namespace meta, om_Name meta) = mcv_key v0).
  { unfold v0, mcv_key, AddLabel. simpl. by case_bool_decide. }
  intros r. unfold r, getOrCreateManagedClusterView. fold v0. rewrite run_bind.
  destruct (find_or_create_spec v0 meta h Hkey) as [Hk Hv].
  destruct (find_or_create v0 meta h) as [[v|e] h1]; [|done]. cbn [fst snd] in *.
  destruct (Hv v eq_refl) as [Ek (u & Hu & Hs)]. rewrite Hkey. clear Hv.
  destruct (adjusted_spec meta scope v) as [Ea Hr]. destruct (adjusted meta scope v) as [[|] v2]; cbn [fst snd] in *.
  - rewrite run_bind. pose proof (Update_mcv_spec v2 h1) as Hup.
    destruct (Update_mcv v2 h1) as [[e|] h2]; simpl in *.
    + split; [|done]. etransitivity; [done|]. by apply same_views_kept.
    + destruct Hup as [_ E]. rewrite Ea, Ek in E. split.
      * etransitivity; [done|]. eapply insert_kept; [done| |done].
        destruct Hs, Hr. split; congruence.
      * intros w [= <-]. exists v2. by rewrite E, lookup_insert_eq.
  - split; [done|]. intros w [= <-]. exists u. split; [done|]. destruct Hs, Hr. split; congruence.
Qed.

(** *** Where a report comes from

    A view the hub creates has none yet: what a run reads was there when it began. *)

Definition reports_from (h h' : World) : Prop :=
  ∀ k v', w_views h' !! k = Some v' → mcv_Conditions v' ≠ [] → ∃ v, w_views h !! k = Some v ∧ same_report v v'.

#[export] Instance reports_from_preorder : PreOrder reports_from.
Proof.
  split; [intros h k v ??; by exists v|]. intros h1 h2 h3 H12 H23 k v Hv Hc.
  destruct (H23 _ _ Hv Hc) as (v' & Hv' & E & ?). destruct (H12 _ _ Hv') as (v'' & ? & ? & ?); [congruence|].
  exists v''. split; [done|split; congruence].
Qed.

Lemma same_views_from h h' : w_views h' = w_views h → reports_from h h'.
Proof. intros E k v Hv _. rewrite E in Hv. by exists v. Qed.

Lemma find_or_create_from v0 meta h :
  (om_Namespace meta, om_Name meta) = mcv_key v0 → mcv_Conditions v0 = [] →
  let r := find_or_create v0 meta h in
  reports_from h r.2 ∧
  ∀ v, r.1 = inl v → mcv_Conditions v ≠ [] → ∃ v', w_views h !! mcv_key v0 = Some v' ∧ same_report v' v.
Proof.
  intros Hkey Hempty. unfold find_or_create. rewrite run_bind.
  destruct (Get_mcv_spec (om_Name meta) (om_Namespace meta) h) as [Ev Hget].
  destruct (Get_mcv (om_Name meta) (om_Namespace meta) h) as [[v|e] h1]; cbn [fst snd] in *.
  { split; [by apply same_views_from|]. intros v' [= <-] _. rewrite <- Hkey. by destruct (Hget v eq_refl). }
  destruct (negb (IsNotFound e)); [split; [by apply same_views_from|done]|].
  rewrite run_bind. pose proof (Create_mcv_spec v0 h1) as Hc.
  destruct (Create_mcv v0 h1) as [[e'|] h2]; cbn [fst snd] in *; [split; [apply same_views_from; simpl; congruence|done]|].
  destruct Hc as [Hn E]. split; [|by intros v [= <-]].
  intros k v'. simpl. rewrite E, Ev. intros [[<- <-]|[_ Hv]]%lookup_insert_Some Hne; [done|by exists v'].
Qed.

Lemma getOrCreate_from meta scope h :
  let r := getOrCreateManagedClusterView meta scope h in
  reports_from h r.2 ∧
  ∀ v, r.1 = inl v → mcv_Conditions v ≠ [] →
    ∃ v', w_views h !! (om_Namespace meta, om_Name meta) = Some v' ∧ same_report v' v.
Proof.
  set (v0 := mkManagedClusterView (AddLabel meta CreatedByRamenLabel "true").2 scope [] "").
  assert (Hkey : (om_Namespace meta, om_Name meta) = mcv_key v0).
  { unfold v0, mcv_key, AddLabel. simpl. by case_bool_decide. }
  intros r. unfold r, getOrCreateManagedClusterView. fold v0. rewrite run_bind.
  destruct (find_or_create_from v0 meta h Hkey eq_refl) as [Hk Hv].
  destruct (find_or_create_spec v0 meta h Hkey) as [_ Hkv].
  destruct (find_or_create v0 meta h) as [[v|e] h1]; [|done]. cbn [fst snd] in *. rewrite Hkey.
  destruct (Hkv v eq_refl) as [Ek _]. specialize (Hv v eq_refl).
  destruct (adjusted_spec meta scope v) as [Ea [Ec Er]]. destruct (adjusted meta scope v) as [[|] v2]; cbn [fst snd] in *.
  - assert (Hv2 : mcv_Conditions v2 ≠ [] → ∃ v', w_views h !! mcv_key v0 = Some v' ∧ same_report v' v2).
    { intros Hne. destruct Hv as (v' & ? & ? & ?); [congruence|]. exists v'. split; [done|split; congruence]. }
    rewrite run_bind. pose proof (Update_mcv_spec v2 h1) as Hup.
    destruct (Update_mcv v2 h1) as [[e|] h2]; cbn [fst snd] in *.
    + split; [|done]. etransitivity; [exact Hk|]. by apply same_views_from.
    + destruct Hup as [_ E]. rewrite Ea, Ek in E. split; [|by intros w [= <-]].
      intros k v'. simpl. rewrite E. intros [[<- <-]|[_ Hv']]%lookup_insert_Some Hne; [by apply Hv2|by apply Hk].
  - split; [done|]. intros w [= <-] Hne. destruct Hv as (v' & ? & ? & ?); [congruence|].
    exists v'. split; [done|split; congruence].
Qed.

(** A view shows an object. *)
Definition report_shows {A} (decode : string → A + GoError) (h : World) (k : string * string) (x : A) : Prop :=
  ∃ v, w_views h !! k = Some v ∧ GetResource decode v = inl x.

Lemma report_shows_from {A} (decode : string → A + GoError) h h' k x :
  reports_from h h' → report_shows decode h' k x → report_shows decode h k x.
Proof.
  intros Hf (v' & Hv' & Hd). assert (mcv_Conditions v' ≠ []) as Hne.
  { intros E. unfold GetResource in Hd. by rewrite E in Hd. }
  destruct (Hf _ _ Hv' Hne) as (v & Hv & Hs). exists v. split; [done|]. by rewrite <- (GetResource_report decode v v').
Qed.

Lemma getResource_from {A} (decode : string → A + GoError) rn rns c an lb n k gv h :
  let r := getResourceFromManagedCluster decode rn rns c an lb n k gv h in
  reports_from h r.2 ∧ ∀ x, r.1 = inl x → report_shows decode h (c, n) x.
Proof.
  unfold getResourceFromManagedCluster, getManagedClusterResource. cbv zeta. rewrite run_bind. cbn [fst snd mret M_ret].
  match goal with |- context [getOrCreateManagedClusterView ?m ?s h] =>
    destruct (getOrCreate_from m s h) as [Hk Hv]; destruct (getOrCreateManagedClusterView m s h) as [[v|e] h1] end;
    cbn [fst snd] in *; [|done]. split; [done|]. intros x Hd.
  destruct (Hv v eq_refl) as (v' & Hv' & Hs); [intros E; unfold GetResource in Hd; by rewrite E in Hd|].
  exists v'. split; [exact Hv'|]. by rewrite <- (GetResource_report decode v' v).
Qed.

Lemma Delete_mcv_from v : preserves reports_from (Delete_mcv v).
Proof.
  intros h. unfold Delete_mcv. rewrite run_bind, api_err_run. simpl.
  destruct (env_api_err (w_tick h)); [by apply same_views_from|]. rewrite run_bind. simpl.
  destruct (w_views h !! mcv_key v); [|by apply same_views_from].
  rewrite run_bind. intros k v'. simpl. intros [_ Hv]%lookup_delete_Some _. by exists v'.
Qed.

Lemma Get_mcv_from n c : preserves reports_from (Get_mcv n c).
Proof. intros h. apply same_views_from. apply (Get_mcv_spec n c h). Qed.

Lemma pruneViews_from label c names : preserves reports_from (pruneViews (λ c, listMCVsWithLabel c label) c names).
Proof.
  apply preserves_bind; [apply _| |].
  - intros h. apply same_views_from. unfold listMCVsWithLabel. rewrite run_bind, api_err_run. simpl. by destruct (env_api_err _).
  - intros [vs|e]; [|apply preserves_ret, _]. induction vs as [|v vs IH]; simpl; [apply preserves_ret, _|].
    case_bool_decide; [done|]. apply preserves_bind; [apply _| |intros [e|]; [apply preserves_ret, _|done]].
    apply preserves_bind; [apply _|apply Get_mcv_from|]. intros [v'|e]; [apply Delete_mcv_from|].
    destruct (IsNotFound e); apply preserves_ret, _.
Qed.

(** *** Classes

    The classes to fence with that the views of a cluster show: of the fence classes its
    DRClusterConfig names, those of its storage classes. *)

Definition class_view (cluster mwType name : string) : string * string :=
  (cluster, BuildManagedClusterViewName name "" mwType).

Definition shows_classes (h : World) (cluster : string) (classes : list string) : Prop :=
  ∃ cfg nfcs scs,
    report_shows json_DRClusterConfig h (class_view cluster MWTypeDRCConfig cluster) cfg ∧
    Forall2 (λ n x, report_shows json_NetworkFenceClass h (class_view cluster MWTypeNFClass n) x)
      (dcct_NetworkFenceClasses (dcc_Status cfg)) nfcs ∧
    Forall2 (λ n x, report_shows json_StorageClass h (class_view cluster MWTypeSClass n) x)
      (dcct_StorageClasses (dcc_Status cfg)) scs ∧
    classes = findMatchingNFClasses nfcs scs.

Lemma shows_classes_from h h' c classes : reports_from h h' → shows_classes h' c classes → shows_classes h c classes.
Proof.
  intros Hf (cfg & nfcs & scs & ? & Hn & Hs & ?). exists cfg, nfcs, scs.
  split_and!; [by eapply report_shows_from| | |done]; (eapply Forall2_impl; [eassumption|]); intros; by eapply report_shows_from.
Qed.

Lemma get_classes_from {A} (decode : string → A + GoError) mwType lb k gv c an names h :
  let r := get_classes (getClass decode mwType lb k gv) c an names h in
  reports_from h r.2 ∧
  ∀ xs, r.1 = inl xs → Forall2 (λ n x, report_shows decode h (class_view c mwType n) x) names xs.
Proof.
  revert h. induction names as [|n names IH]; intros h; simpl; [split; [reflexivity|by intros xs [= <-]]|].
  rewrite run_bind. pose proof (getResource_from decode n "" c an {[lb := ""]} (BuildManagedClusterViewName n "" mwType) k gv h)
    as [Hf Hx]. fold (getClass decode mwType lb k gv n c an) in Hf, Hx.
  destruct (getClass decode mwType lb k gv n c an h) as [[x|er] h1]; cbn [fst snd] in *;
    [|split; [exact Hf|done]]. rewrite run_bind. destruct (IH h1) as [Hf1 Hxs].
  destruct (get_classes _ c an names h1) as [[xs|er] h2]; cbn [fst snd mret M_ret] in *.
  - split; [by etransitivity|]. intros ? [= <-]. constructor; [by apply Hx|].
    eapply Forall2_impl; [by apply Hxs|]. intros. by eapply report_shows_from.
  - split; [by etransitivity|done].
Qed.

Lemma classes_of_from {A} (decode : string → A + GoError) mwType lb lb' k gv an names c h :
  let r := classes_of (getClass decode mwType lb k gv) (pruneViews (λ c, listMCVsWithLabel c lb')) an names c h in
  reports_from h r.2 ∧
  (r.1.2 = None → Forall2 (λ n x, report_shows decode h (class_view c mwType n) x) names r.1.1).
Proof.
  unfold classes_of. cbv zeta. rewrite run_bind. destruct (get_classes_from decode mwType lb k gv c an names h) as [Hf Hx].
  destruct (get_classes _ c an names h) as [[xs|e] h1]; cbn [fst snd] in *; [|done].
  rewrite run_bind. cbn [mret M_ret fst snd]. split; [|intros _; by apply Hx].
  etransitivity; [exact Hf|]. apply pruneViews_from.
Qed.

(** A view of hub state [h] shows the NetworkFence of class [c] that fences the
    DRCluster off, on the peer, in a state and successfully. *)
Context `{FenceApi}.

Definition nf_view (object : DRCluster) (peer c : string) : string * string :=
  (peer, BuildManagedClusterViewName (networkFenceName (om_Name (dc_Meta object)) c)
           (om_Namespace (dc_Meta object)) MWTypeNF).

Definition shows_fence (h : World) (object : DRCluster) (peer c state : string) : Prop :=
  ∃ v nf, w_views h !! nf_view object peer c = Some v ∧ GetResource json_NetworkFence v = inl nf ∧
    nf_FenceState nf = state ∧ nf_Result nf = FencingOperationResultSucceeded.

Lemma shows_fence_kept h h' object peer c state :
  reports_kept h h' → shows_fence h object peer c state → shows_fence h' object peer c state.
Proof.
  intros Hk (v & nf & Hv & Hd & ?). destruct (Hk _ _ Hv) as (v' & Hv' & Hs).
  exists v', nf. split_and!; [done| |naive_solver..]. by rewrite (GetResource_report _ v).
Qed.

Lemma viewNF_spec peer c w :
  let r := viewNF peer c w in
  cw_object r.2 = cw_object w ∧ reports_kept (cw_hub w) (cw_hub r.2) ∧
  ∀ nf, r.1 = inl nf → ∃ v, w_views (cw_hub r.2) !! nf_view (cw_object w) peer c = Some v ∧
    GetResource json_NetworkFence v = inl nf.
Proof.
  unfold viewNF. rewrite run_bind. simpl. unfold on_hub, GetNFFromManagedCluster,
    getResourceFromManagedCluster, getManagedClusterResource. rewrite run_bind. simpl.
  split; [done|].
  match goal with |- context [getOrCreateManagedClusterView ?m ?s (cw_hub w)] =>
    destruct (getOrCreate_report m s (cw_hub w)) as [Hk Hv];
    destruct (getOrCreateManagedClusterView m s (cw_hub w)) as [r h1] end.
  split; [done|]. intros nf. simpl in *. destruct r as [v|e]; [|done]. intros Hd.
  destruct (Hv v eq_refl) as (v' & Hv' & Hs). exists v'. split; [exact Hv'|].
  rewrite <- Hd. symmetry. by apply GetResource_report.
Qed.

(** ** Checks of all NetworkFences *)

(** The DRCluster as it was, and what views report with it. *)
Definition looks (w w' : ClusterWorld) : Prop :=
  cw_object w' = cw_object w ∧ reports_kept (cw_hub w) (cw_hub w').

#[export] Instance looks_preorder : PreOrder looks.
Proof.
  split; [by intros w|]. intros u v w [E1 ?] [E2 ?]. split; [congruence|by etransitivity].
Qed.

Lemma checkFenceStatus_spec peer c w :
  let r := checkFenceStatus peer c w in
  match r.1 with
  | None => looks w r.2 ∧
      shows_fence (cw_hub r.2) (cw_object w) peer c (ClusterFenceState_string (dcs_ClusterFence (dc_Spec (cw_object w))))
  | Some _ => looks w r.2 ∨ cluster_fenced (cw_object r.2) = false
  end.
Proof.
  unfold checkFenceStatus, wrapf, errorf. rewrite run_bind. destruct (viewNF_spec peer c w) as (Eo & Hk & Hv).
  destruct (viewNF peer c w) as [[nf|e] w1]; simpl in *; [|by left].
  rewrite run_bind. simpl.
  destruct (nf_state_pending (cw_object w1) nf) eqn:Ep; simpl; [by left|].
  case_bool_decide as Er.
  - right. rewrite run_bind. simpl. apply set_fence_fenced.
  - simpl. split; [done|]. destruct (Hv nf eq_refl) as (v & Hv' & Hd). exists v, nf.
    unfold nf_state_pending in Ep. rewrite Eo in Ep. bools.
    split_and!; [done|done|by apply dec_stable|done].
Qed.

Lemma check_all_fences peer cs w :
  let r := check_all (checkFenceStatus peer) cs w in
  match r.1 with
  | None => looks w r.2 ∧ ∀ c, c ∈ cs →
      shows_fence (cw_hub r.2) (cw_object w) peer c (ClusterFenceState_string (dcs_ClusterFence (dc_Spec (cw_object w))))
  | Some _ => looks w r.2 ∨ cluster_fenced (cw_object r.2) = false
  end.
Proof.
  revert w. induction cs as [|c cs IH]; intros w; simpl.
  { split; [reflexivity|]. by intros c ?%elem_of_nil. }
  rewrite run_bind. pose proof (checkFenceStatus_spec peer c w) as Hc.
  destruct (checkFenceStatus peer c w) as [[e|] w1]; simpl in *; [done|].
  destruct Hc as [Hl Hs]. specialize (IH w1). destruct (check_all _ cs w1) as [[e|] w2]; simpl in *.
  - destruct IH as [?|?]; [left; by etransitivity|by right].
  - destruct IH as [Hl2 IH]. rewrite (proj1 Hl) in IH. split; [by etransitivity|].
    intros c' [->|Hc']%elem_of_cons; [|by apply IH]. eapply shows_fence_kept; [apply Hl2|done].
Qed.
End views.

(** ** The peer, and its classes *)

Section peer.
Context `{Env} `{ViewCodec} `{ClusterReads} `{FenceApi}.

(** A DRCluster, not being deleted, that shares a policy with [object]: any in a policy
    with synchronous peers, else one of the same region. *)
Definition is_peer (object peer : DRCluster) : Prop :=
  ∃ t t' policies drp c,
    env_list_drpolicies t = inl policies ∧ drp ∈ policies ∧
    om_Name (dc_Meta object) ∈ dps_DRClusters (drp_Spec drp) ∧
    c ∈ dps_DRClusters (drp_Spec drp) ∧ c ≠ om_Name (dc_Meta object) ∧
    env_read_drcluster t' c = inl peer ∧ ResourceIsDeleted (dc_Meta peer) = false ∧
    (dpt_Sync (drp_Status drp) ≠ [] ∨ dcs_Region (dc_Spec object) = dcs_Region (dc_Spec peer)).

(** Only the clock advances. *)
Definition clock (h h' : World) : Prop := ∃ n, h' = h <| w_tick := n |>.
#[export] Instance clock_preorder : PreOrder clock.
Proof.
  split; [intros h; exists (w_tick h); by destruct h|]. intros h1 h2 h3 [n ->] [m ->]. by exists m.
Qed.

Lemma peer_from_policy_spec drp object cs h :
  clock h (peer_from_policy drp object cs h).2 ∧
  ∀ p, (peer_from_policy drp object cs h).1 = Some p → ∃ t c, c ∈ cs ∧ c ≠ om_Name (dc_Meta object) ∧
    env_read_drcluster t c = inl p ∧ ResourceIsDeleted (dc_Meta p) = false ∧
    (dpt_Sync (drp_Status drp) ≠ [] ∨ dcs_Region (dc_Spec object) = dcs_Region (dc_Spec p)).
Proof.
  revert h. induction cs as [|c cs IH]; intros h; simpl; [split; [reflexivity|done]|].
  assert (Hnext : ∀ h', clock h h' →
    clock h (peer_from_policy drp object cs h').2 ∧
    ∀ p, (peer_from_policy drp object cs h').1 = Some p → ∃ t c', c' ∈ c :: cs ∧ c' ≠ om_Name (dc_Meta object) ∧
    env_read_drcluster t c' = inl p ∧ ResourceIsDeleted (dc_Meta p) = false ∧
    (dpt_Sync (drp_Status drp) ≠ [] ∨ dcs_Region (dc_Spec object) = dcs_Region (dc_Spec p))).
  { intros h' Hh. destruct (IH h') as [Hc Hp]. split; [by etransitivity|].
    intros p (t & c' & ? & ?)%Hp. exists t, c'. split; [by right|done]. }
  case_bool_decide as Hc; [apply Hnext; reflexivity|]. rewrite run_bind.
  change (Get_drcluster c h) with (env_read_drcluster (w_tick h) c, h <| w_tick ::= S |>). simpl.
  assert (Hh : clock h (h <| w_tick ::= S |>)) by by eexists.
  destruct (env_read_drcluster (w_tick h) c) as [p|e] eqn:Er; [|by apply Hnext].
  destruct (ResourceIsDeleted (dc_Meta p)) eqn:Ed; [by apply Hnext|].
  case_bool_decide as Hs; [|case_bool_decide as Hr; [|by apply Hnext]]; simpl; (split; [done|]);
    intros ? [= <-]; exists (w_tick h), c; (split_and!; [by left|done|done|done|]); [left|by right].
  intros E. rewrite E in Hs. simpl in Hs. lia.
Qed.

Lemma getPeerCluster_spec l object h :
  clock h (getPeerCluster l object h).2 ∧
  ∀ p, (getPeerCluster l object h).1 = inl p → ∃ drp t c, drp ∈ l ∧
    om_Name (dc_Meta object) ∈ dps_DRClusters (drp_Spec drp) ∧
    c ∈ dps_DRClusters (drp_Spec drp) ∧ c ≠ om_Name (dc_Meta object) ∧
    env_read_drcluster t c = inl p ∧ ResourceIsDeleted (dc_Meta p) = false ∧
    (dpt_Sync (drp_Status drp) ≠ [] ∨ dcs_Region (dc_Spec object) = dcs_Region (dc_Spec p)).
Proof.
  revert h. induction l as [|drp l IH]; intros h; simpl; [split; [reflexivity|done]|].
  assert (Hnext : ∀ h', clock h h' →
    clock h (getPeerCluster l object h').2 ∧
    ∀ p, (getPeerCluster l object h').1 = inl p → ∃ drp' t c, drp' ∈ drp :: l ∧
    om_Name (dc_Meta object) ∈ dps_DRClusters (drp_Spec drp') ∧
    c ∈ dps_DRClusters (drp_Spec drp') ∧ c ≠ om_Name (dc_Meta object) ∧
    env_read_drcluster t c = inl p ∧ ResourceIsDeleted (dc_Meta p) = false ∧
    (dpt_Sync (drp_Status drp') ≠ [] ∨ dcs_Region (dc_Spec object) = dcs_Region (dc_Spec p))).
  { intros h' Hh. destruct (IH h') as [Hc Hp]. split; [by etransitivity|].
    intros p (drp' & t & c & ? & ?)%Hp. exists drp', t, c. split; [by right|done]. }
  case_bool_decide as Hin; [|apply Hnext; reflexivity]. rewrite run_bind.
  destruct (peer_from_policy_spec drp object (dps_DRClusters (drp_Spec drp)) h) as [Hc Hp].
  unfold getPeerFromPolicy. destruct (peer_from_policy _ _ _ h) as [[p|] h1]; simpl in *; [|by apply Hnext].
  split; [done|]. intros ? [= <-]. destruct (Hp p eq_refl) as (t & c & ?). exists drp, t, c. split; [by left|]. split; [done|]. done.
Qed.

Lemma clock_looks w h' : clock (cw_hub w) h' → looks w (w <| cw_hub := h' |>).
Proof. intros [n ->]. split; [done|]. apply same_views_kept. done. Qed.

Lemma peer_of_object_spec w :
  looks w (peer_of_object w).2 ∧ ∀ p, (peer_of_object w).1 = inl p → is_peer (cw_object w) p.
Proof.
  unfold peer_of_object. rewrite run_bind.
  change (on_hub GetAllDRPolicies w) with
    (match env_list_drpolicies (w_tick (cw_hub w)) with
     | inr e => inr (Errorf ("unable to fetch drpolicies: " +:+ error_text e) (Some e))
     | inl l => inl l
     end, w <| cw_hub ::= λ h, h <| w_tick ::= S |> |>). simpl.
  assert (Hc : looks w (w <| cw_hub ::= λ h, h <| w_tick ::= S |> |>)).
  { apply (clock_looks w (cw_hub w <| w_tick ::= S |>)). by eexists. }
  destruct (env_list_drpolicies (w_tick (cw_hub w))) as [l|e] eqn:El; simpl; [|by split].
  match goal with |- context [getPeerCluster l (cw_object w) ?h] =>
    destruct (getPeerCluster_spec l (cw_object w) h) as [Hk Hp];
    destruct (getPeerCluster l (cw_object w) h) as [r h1] end. simpl in *.
  split.
  - destruct Hk as [n ->]. split; [done|]. by apply same_views_kept.
  - intros p. destruct r as [p'|e]; [|done]. intros [= ->].
    destruct (Hp p eq_refl) as (drp & t & c & ? & ?). by exists (w_tick (cw_hub w)), t, l, drp, c.
Qed.

Lemma peer_of_object_views w : w_views (cw_hub (peer_of_object w).2) = w_views (cw_hub w).
Proof.
  unfold peer_of_object. rewrite run_bind. unfold on_hub at 1, GetAllDRPolicies. rewrite run_bind. cbn [tick fst snd mret M_ret].
  destruct (env_list_drpolicies _) as [l|e]; cbn [fst snd]; [|done]. rewrite !run_bind. cbn [gets fst snd mret M_ret].
  unfold on_hub. cbn [fst snd]. match goal with |- context [getPeerCluster l ?o ?h] =>
    destruct (getPeerCluster_spec l o h) as [[n E] _] end. simpl in *. by rewrite E.
Qed.

Lemma findMatchingNFClasses_nonempty nfcs scs : findMatchingNFClasses nfcs scs ≠ [].
Proof. unfold findMatchingNFClasses. cbv zeta. case_bool_decide as E; [done|]. intros E'. by rewrite E' in E. Qed.

Lemma getNFClasses_nonempty peer h cs :
  (getNFClassesFromDRClusterConfig peer h).1 = inl cs → cs ≠ [].
Proof.
  unfold getNFClassesFromDRClusterConfig. rewrite run_bind.
  destruct (getDRCCFromCluster peer h) as [[c|e] h1]; simpl; [|done]. rewrite run_bind.
  destruct (getNFClassesFromCluster c peer h1) as [[nfcs [e|]] h2]; simpl; [done|]. rewrite run_bind.
  destruct (GetSClassesFromCluster c peer h2) as [[scs [e|]] h3]; simpl; [done|].
  intros [= <-]. apply findMatchingNFClasses_nonempty.
Qed.

Lemma getNFClasses_from c h :
  let r := getNFClassesFromDRClusterConfig c h in
  reports_from h r.2 ∧ ∀ classes, r.1 = inl classes → shows_classes h c classes.
Proof.
  unfold getNFClassesFromDRClusterConfig. cbv zeta. rewrite run_bind.
  unfold getDRCCFromCluster, GetDRClusterConfigFromManagedCluster.
  match goal with |- context [getResourceFromManagedCluster ?a ?b ?c ?d ?e ?f ?g ?i ?j h] =>
    destruct (getResource_from a b c d e f g i j h) as [Hf Hx]; destruct (getResourceFromManagedCluster a b c d e f g i j h) as [[cfg|er] h1] end;
    cbn [fst snd] in *; [|done]. specialize (Hx cfg eq_refl). rewrite run_bind.
  destruct (classes_of_from json_NetworkFenceClass MWTypeNFClass NFClassLabel NFClassLabel "NetworkFenceClass" csiaddons_GV
              ∅ (dcct_NetworkFenceClasses (dcc_Status cfg)) c h1) as [Hf1 Hn].
  unfold getNFClassesFromCluster, GetNFClassFromManagedCluster, pruneNFClassViews, ListNFClassMCVs.
  destruct (classes_of _ _ ∅ _ c h1) as [[nfcs [e|]] h2]; cbn [fst snd] in *; [split; [by etransitivity|done]|].
  specialize (Hn eq_refl). rewrite run_bind.
  assert (Hsc : let r := GetSClassesFromCluster cfg c h2 in reports_from h2 r.2 ∧
    (r.1.2 = None → Forall2 (λ n x, report_shows json_StorageClass h2 (class_view c MWTypeSClass n) x)
                      (dcct_StorageClasses (dcc_Status cfg)) r.1.1)).
  { cbv zeta. unfold GetSClassesFromCluster, classes_or_none. case_bool_decide as E; [|apply classes_of_from].
    apply nil_length_inv in E. rewrite E. split; [reflexivity|by constructor]. }
  destruct (GetSClassesFromCluster cfg c h2) as [[scs [e|]] h3]; cbn [fst snd mret M_ret] in *; destruct Hsc as [Hf2 Hs];
    (split; [do 2 (etransitivity; [eassumption|]); done|]); [done|]. intros classes [= <-]. exists cfg, nfcs, scs.
  split_and!; [done| | |done].
  - eapply Forall2_impl; [exact Hn|]. intros n x. by apply report_shows_from.
  - eapply Forall2_impl; [by apply Hs|]. intros n x Hv. do 2 (eapply report_shows_from; [eassumption|]). exact Hv.
Qed.
End peer.

(** ** Fencing *)

Section fence.
Context `{Env} `{ViewCodec} `{ClusterReads} `{FenceApi}.

Lemma phase_fenced p w : cluster_fenced (cw_object (setDRClusterPhase p w).2) = cluster_fenced (cw_object w).
Proof. done. Qed.

Lemma looks_fenced w w' : looks w w' → cluster_fenced (cw_object w') = cluster_fenced (cw_object w).
Proof. by intros [-> _]. Qed.

Lemma set_fence_then {B} r f c m (k : COp B) w :
  (∀ w', cluster_fenced (cw_object (k w').2) = cluster_fenced (cw_object w')) →
  cluster_fenced (cw_object ((set_fence r f c m;; k) w).2) = bool_decide (f = ConditionTrue).
Proof. intros Hk. rewrite run_bind, Hk. apply set_fence_fenced. Qed.

(** All NetworkFences that fence [object] off from a peer, for the classes that the peer's
    views show when the run begins, in [h0], are seen fenced when it ends. *)
Definition seen_fenced (object : DRCluster) (h0 h : World) : Prop :=
  ∃ peer classes, is_peer object peer ∧ classes ≠ [] ∧ shows_classes h0 (om_Name (dc_Meta peer)) classes ∧
    ∀ c, c ∈ classes → shows_fence h object (om_Name (dc_Meta peer)) c "Fenced".

Lemma clusterFence_fenced w :
  dcs_ClusterFence (dc_Spec (cw_object w)) = ClusterFenceStateFenced →
  cluster_fenced (cw_object w) = false → cluster_fenced (cw_object (clusterFence w).2) = true →
  seen_fenced (cw_object w) (cw_hub w) (cw_hub (clusterFence w).2).
Proof.
  intros Hspec Hno. unfold clusterFence. rewrite run_bind.
  destruct (peer_of_object_spec w) as [Hl Hp]. pose proof (peer_of_object_views w) as Hviews%same_views_from.
  destruct (peer_of_object w) as [[peer|e] w1]; cbn [fst snd] in *;
    [|simpl; rewrite (looks_fenced _ _ Hl); congruence].
  rewrite run_bind. set (r := getNFClassesFromDRClusterConfig (om_Name (dc_Meta peer)) (cw_hub w1)).
  change (on_hub (getNFClassesFromDRClusterConfig (om_Name (dc_Meta peer))) w1) with (r.1, w1 <| cw_hub := r.2 |>).
  assert (Eo : cw_object (w1 <| cw_hub := r.2 |>) = cw_object w) by apply Hl.
  set (w2 := w1 <| cw_hub := r.2 |>) in *. clearbody w2. cbn [fst snd].
  destruct r.1 as [classes|e] eqn:Ec; [|simpl; rewrite Eo; congruence].
  rewrite run_bind. simpl.
  destruct (negb (isFencingOrFenced _)).
  { rewrite run_bind. destruct (createNFManifestWorks _ classes w2) as [[e|] w3]; cbn [fst snd];
      unfold setDRClusterFencingFailedCondition, setDRClusterFencingCondition;
      by rewrite set_fence_then. }
  rewrite run_bind. pose proof (check_all_fences (om_Name (dc_Meta peer)) classes w2) as Hc.
  destruct (check_all _ classes w2) as [[e|] w3]; cbn [fst snd] in *.
  { simpl. rewrite <- Eo in Hno. destruct Hc as [Hc|Hc]; [rewrite (looks_fenced _ _ Hc)|]; congruence. }
  destruct Hc as [[Eo3 _] Hs]. intros _. exists peer, classes.
  split_and!; [by apply Hp|by apply (getNFClasses_nonempty (om_Name (dc_Meta peer)) (cw_hub w1))
    |eapply shows_classes_from; [exact Hviews|by apply getNFClasses_from]|].
  intros c Hin. specialize (Hs c Hin). rewrite Eo, Hspec in Hs. exact Hs.
Qed.

(** C9: a DRCluster comes to report Fenced, to the failovers that wait for it, only on
    these grounds: the administrator declares it manually fenced; or fencing is asked
    for and all NetworkFences of it on a peer cluster (one for each class of the peer's
    storage that its views show when the reconcile begins) are shown by their views in
    the state Fenced with a successful result; or
    unfencing is asked for. *)
Theorem fence_reported_soundly w :
  let w' := (clusterFenceHandle w).2 in
  cluster_fenced (cw_object w) = false → cluster_fenced (cw_object w') = true →
  match dcs_ClusterFence (dc_Spec (cw_object w)) with
  | ClusterFenceStateFenced => seen_fenced (cw_object w) (cw_hub w) (cw_hub w')
  | ClusterFenceStateManuallyFenced | ClusterFenceStateUnfenced => True
  | ClusterFenceStateManuallyUnfenced | ClusterFenceStateUnset => False
  end.
Proof.
  cbv zeta. unfold clusterFenceHandle. rewrite run_bind. cbn [gets fst snd]. intros Hno.
  destruct (dcs_ClusterFence (dc_Spec (cw_object w))) eqn:Hs; try done.
  - unfold setDRClusterCleanCondition. by rewrite set_fence_then.
  - by apply clusterFence_fenced.
  - unfold setDRClusterCleanCondition. by rewrite set_fence_then.
Qed.
End fence.

Section witness.
Import FenceScene.

Lemma fence_reported_soundly_witness :
  let w := scene (east ClusterFenceStateFenced Fencing) (nf_text "Fenced") in
  cluster_fenced (cw_object (clusterFenceHandle w).2) = true ∧
  seen_fenced (cw_object w) (cw_hub w) (cw_hub (clusterFenceHandle w).2).
Proof.
  split; [vm_compute; reflexivity|].
  apply (fence_reported_soundly (scene (east ClusterFenceStateFenced Fencing)
    (nf_text "Fenced"))); vm_compute; reflexivity.
Defined.
End witness.
