(* ===== verification/FencingLiveness.v ===== *)
(** Fencing and unfencing, to their ends. *)

From Stdlib Require Import ZArith.
From S2P Require Import Prelude Meta Names Conditions Api PolicyPeers Hub ManifestWorks Views ClassViews.
From S2P Require Import DRClusters Fencing Scenario Placement VRGBuild DRPCStatus DRPCWorks DRPC.
From S2P Require Import FencingSpec.

(** * Fencing completes

    While API calls succeed and the peer's agents enact the ManifestWorks, two
    reconciles fence a cluster: one creates the NetworkFences, the next sees them in
    place.  Unfencing ends, likewise, with the NetworkFences' works deleted. *)

(** ** Calls without errors *)

Section calls.
Context `{Env} `{ViewCodec} `{FenceApi} (Hok : ∀ t, env_api_err t = None).

Lemma Get_mw_ok n c h :
  Get_mw n c h = (match w_mws h !! (c, n) with
                  | Some mw => inl (mw <| mw_Meta ::= λ m, m <| om_Namespace := c |> <| om_Name := n |> |>)
                  | None => inr (not_found n)
                  end, h <| w_tick ::= S |>).
Proof. unfold Get_mw. rewrite run_bind, api_err_run. simpl. by rewrite Hok. Qed.

Lemma Update_mw_ok mw old h :
  w_mws h !! (om_Namespace (mw_Meta mw), om_Name (mw_Meta mw)) = Some old →
  Update_mw mw h = (None, h <| w_tick ::= S |>
    <| w_mws ::= <[(om_Namespace (mw_Meta mw), om_Name (mw_Meta mw)) := mw <| mw_Conditions := mw_Conditions old |>
        <| mw_Meta ::= λ m, m <| om_DeletionTimestamp := om_DeletionTimestamp (mw_Meta old) |> |>]> |>).
Proof. intros E. unfold Update_mw. rewrite run_bind, api_err_run. simpl. rewrite Hok, run_bind. simpl. by rewrite E. Qed.

Lemma Create_mw_ok mw h :
  w_mws h !! (om_Namespace (mw_Meta mw), om_Name (mw_Meta mw)) = None →
  Create_mw mw h = (None, h <| w_tick ::= S |>
    <| w_mws ::= <[(om_Namespace (mw_Meta mw), om_Name (mw_Meta mw)) := mw]> |>).
Proof. intros E. unfold Create_mw. rewrite run_bind, api_err_run. simpl. rewrite Hok, run_bind. simpl. by rewrite E. Qed.

(** One ManifestWork now has the spec; the views and the other works are as before. *)
Definition puts (k : string * string) (s : ManifestWorkSpec) (h h' : World) : Prop :=
  w_views h' = w_views h ∧ (∀ k', k' ≠ k → w_mws h' !! k' = w_mws h !! k') ∧
  ∃ m, w_mws h' !! k = Some m ∧ mw_Spec m = s.

Lemma puts_insert k m h h' :
  w_views h' = w_views h → w_mws h' = <[k := m]> (w_mws h) → puts k (mw_Spec m) h h'.
Proof.
  intros Ev Em. split_and!; [done| |exists m; by rewrite Em, lookup_insert_eq].
  intros k' Hk. by rewrite Em, lookup_insert_ne.
Qed.

Lemma update_found_ok (mw : ManifestWork) c old h :
  w_mws h !! (c, om_Name (mw_Meta mw)) = Some old →
  let r := RetryOnConflict (
    r ← Get_mw (om_Name (mw_Meta mw)) c;
    match r with
    | inr e => mret (Some e)
    | inl foundMW => Update_mw (foundMW <| mw_Spec := mw_Spec mw |>)
    end) h in
  r.1 = None ∧ puts (c, om_Name (mw_Meta mw)) (mw_Spec mw) h r.2.
Proof.
  intros E. unfold RetryOnConflict, RetryOnConflict_steps. rewrite !run_bind, Get_mw_ok, E. cbn [fst snd].
  erewrite Update_mw_ok; [|exact E]. cbn [fst snd]. split; [done|].
  split_and!; [done| |eexists; split; [apply lookup_insert_eq|done]].
  intros k' Hk. by apply lookup_insert_ne.
Qed.

Lemma createOrUpdate_ok mw c h :
  om_Namespace (mw_Meta mw) = c →
  (createOrUpdateManifestWork mw c h).1.2 = None ∧
  puts (c, om_Name (mw_Meta mw)) (mw_Spec mw) h (createOrUpdateManifestWork mw c h).2.
Proof.
  intros Hc. unfold createOrUpdateManifestWork. rewrite run_bind, Get_mw_ok. cbn [fst snd].
  destruct (w_mws h !! (c, om_Name (mw_Meta mw))) as [m|] eqn:E; cbv iota beta.
  - case_bool_decide as Hs.
    + rewrite run_bind. set (h1 := h <| w_tick ::= S |>).
      destruct (update_found_ok mw c m h1 E) as [E1 Hp]. cbn [fst snd]. rewrite E1. split; [done|]. exact Hp.
    + split; [done|]. unfold puts. split_and!; [done..|]. exists m. split; [done|]. exact Hs.
  - simpl. rewrite run_bind, Create_mw_ok by by rewrite Hc. cbn [fst snd]. split; [done|].
    rewrite Hc. by apply puts_insert.
Qed.

(** ** The works of the NetworkFences *)

Definition nf_work (object : DRCluster) (peer c : string) : string * string :=
  (peer, ManifestWorkName (nf_work_name (om_Name (dc_Meta object)) c) peer MWTypeNF).

Lemma generateNF_names object c nf :
  generateNF object c = inl nf →
  om_Name (nf_Meta nf) = networkFenceName (om_Name (dc_Meta object)) c ∧ nf_NetworkFenceClassName nf = c ∧
  nf_FenceState nf = ClusterFenceState_string (dcs_ClusterFence (dc_Spec object)).
Proof.
  unfold generateNF, networkFenceName. case_bool_decide; [done|]. cbv zeta. case_bool_decide as Hc.
  - by intros [= <-].
  - subst c. destruct (fillStorageDetails _ _) as [nf'|e] eqn:E; [|done]. intros [= <-]. revert E. unfold fillStorageDetails. repeat case_match; try done. by intros [= <-].
Qed.

Lemma createNFManifestWork_ok object peer c nf w :
  cw_object w = object → generateNF object c = inl nf →
  let r := createNFManifestWork peer c w in
  r.1 = None ∧ cw_object r.2 = object ∧
  puts (nf_work object peer c) (mkManifestWorkSpec [MNetworkFence nf] None) (cw_hub w) (cw_hub r.2).
Proof.
  intros Ho Hg. unfold createNFManifestWork. rewrite run_bind. cbn [gets fst snd]. rewrite Ho, Hg.
  rewrite run_bind. unfold CreateOrUpdateNFManifestWork. destruct (generateNF_names _ _ _ Hg) as (_ & -> & _).
  unfold on_hub. rewrite run_bind. cbn [fst snd mret M_ret].
  match goal with |- context [createOrUpdateManifestWork ?mw ?c ?h] =>
    destruct (createOrUpdate_ok mw c h eq_refl) as [-> Hp] end.
  split; [done|]. split; [exact Ho|]. exact Hp.
Qed.

Lemma string_app_inj_l (s t t' : string) : s +:+ t = s +:+ t' → t = t'.
Proof. induction s as [|a s IH]; [done|]. rewrite !string_app_cons. intros [= ?]. by apply IH. Qed.

Lemma nf_work_inj object peer c c' : nf_work object peer c = nf_work object peer c' → c = c'.
Proof.
  unfold nf_work, ManifestWorkName. intros [= E%string_app_inj_r]. unfold nf_work_name in E.
  assert (Hne : ∀ s d, d ≠ "" → s ≠ s +:+ "-" +:+ d).
  { intros s d _ E'%(f_equal String.length). rewrite !length_string_app in E'. simpl in E'. lia. }
  case_bool_decide as Hc; case_bool_decide as Hc'.
  - apply string_app_inj_l in E. by apply (string_app_inj_l "-").
  - by edestruct Hne.
  - by edestruct Hne.
  - congruence.
Qed.

(** Each class has its work on the peer, for the NetworkFence generated. *)
Lemma createNFManifestWorks_ok object peer cs w :
  cw_object w = object → (∀ c, c ∈ cs → ∃ nf, generateNF object c = inl nf) →
  let r := createNFManifestWorks peer cs w in
  r.1 = None ∧ cw_object r.2 = object ∧
  (∀ k, (∀ c, c ∈ cs → k ≠ nf_work object peer c) → w_mws (cw_hub r.2) !! k = w_mws (cw_hub w) !! k) ∧
  ∀ c, c ∈ cs → ∃ m nf, w_mws (cw_hub r.2) !! nf_work object peer c = Some m ∧
    generateNF object c = inl nf ∧ mws_Manifests (mw_Spec m) = [MNetworkFence nf].
Proof.
  revert w. induction cs as [|c cs IH]; intros w Ho Hg; simpl.
  { split_and!; [done..|]. by intros c ?%elem_of_nil. }
  destruct (Hg c) as [nf Eg]; [by left|].
  rewrite run_bind. destruct (createNFManifestWork_ok object peer c nf w Ho Eg) as (-> & Ho1 & _ & Hk1 & m & Hm & Es).
  destruct (IH (createNFManifestWork peer c w).2 Ho1) as (Er & Ho2 & Hk2 & Hall).
  { intros c' Hc'. apply Hg. by right. }
  split_and!; [done..| |].
  - intros k Hk. rewrite Hk2; [|intros; apply Hk; by right]. apply Hk1, Hk. by left.
  - intros c' [->|Hc']%elem_of_cons; [|by apply Hall].
    destruct (decide (c ∈ cs)) as [Hc|Hc]; [by apply Hall|]. exists m, nf. rewrite Hk2.
    + by rewrite Es.
    + intros c' Hc' E%nf_work_inj. by subst.
Qed.

(** ** Looking at the NetworkFences *)

Lemma Get_mcv_ok n c h :
  Get_mcv n c h = (match w_views h !! (c, n) with
                   | Some v => inl (v <| mcv_Meta ::= λ m, m <| om_Namespace := c |> <| om_Name := n |> |>)
                   | None => inr (not_found n)
                   end, h <| w_tick ::= S |>).
Proof. unfold Get_mcv. rewrite run_bind, api_err_run. simpl. by rewrite Hok. Qed.

Lemma Update_mcv_ok v old h : w_views h !! mcv_key v = Some old → (Update_mcv v h).1 = None.
Proof.
  intros E. unfold Update_mcv. rewrite run_bind, api_err_run. simpl. rewrite Hok, run_bind. simpl. by rewrite E.
Qed.

Lemma getOrCreate_ok meta scope v h :
  w_views h !! (om_Namespace meta, om_Name meta) = Some v →
  ∃ v', (getOrCreateManagedClusterView meta scope h).1 = inl v' ∧ same_report v v'.
Proof.
  intros E. unfold getOrCreateManagedClusterView, find_or_create. rewrite !run_bind, Get_mcv_ok, E. cbn [fst snd mret M_ret].
  match goal with |- context [adjusted meta scope ?u] => set (v1 := u) end.
  destruct (adjusted_spec meta scope v1) as [Ek [Ec Er]].
  destruct (adjusted meta scope v1) as [[|] v2]; cbn [fst snd] in *.
  - rewrite run_bind, (Update_mcv_ok v2 v) by by rewrite Ek. by exists v2.
  - by exists v2.
Qed.

Lemma viewNF_ok peer c w state :
  shows_fence (cw_hub w) (cw_object w) peer c state →
  ∃ nf, (viewNF peer c w).1 = inl nf ∧ nf_FenceState nf = state ∧ nf_Result nf = FencingOperationResultSucceeded.
Proof.
  intros (v & nf & Hv & Hd & Hs & Hr). exists nf. split; [|done].
  unfold viewNF. rewrite run_bind. cbn [gets fst snd]. unfold on_hub, GetNFFromManagedCluster,
    getResourceFromManagedCluster, getManagedClusterResource. rewrite run_bind. cbn [fst snd mret M_ret].
  match goal with |- context [getOrCreateManagedClusterView ?m ?s ?h] =>
    destruct (getOrCreate_ok m s v h Hv) as (v' & -> & Hsame) end.
  by rewrite (GetResource_report _ v).
Qed.

Lemma checkFenceStatus_ok peer c w :
  let state := ClusterFenceState_string (dcs_ClusterFence (dc_Spec (cw_object w))) in
  shows_fence (cw_hub w) (cw_object w) peer c state →
  (checkFenceStatus peer c w).1 = None ∧
  checkUnfenceStatus peer c w = checkFenceStatus peer c w.
Proof.
  intros state Hs. destruct (viewNF_ok peer c w state Hs) as (nf & E & Est & Er).
  destruct (viewNF_spec peer c w) as (Eo & _). unfold checkFenceStatus, checkUnfenceStatus.
  rewrite !run_bind. destruct (viewNF peer c w) as [r w1]. cbn [fst snd] in *. subst r.
  rewrite !run_bind. cbn [gets fst snd]. unfold nf_state_pending. rewrite Eo, Est, Er.
  rewrite !bool_decide_eq_false_2 by by intros []. done.
Qed.

(** Seen in the state asked for, the NetworkFences pass both checks alike. *)
Lemma check_all_ok peer cs w :
  (∀ c, c ∈ cs → shows_fence (cw_hub w) (cw_object w) peer c
                   (ClusterFenceState_string (dcs_ClusterFence (dc_Spec (cw_object w))))) →
  (check_all (checkFenceStatus peer) cs w).1 = None ∧
  check_all (checkUnfenceStatus peer) cs w = check_all (checkFenceStatus peer) cs w.
Proof.
  revert w. induction cs as [|c cs IH]; intros w Hs; simpl; [done|]. rewrite !run_bind.
  destruct (checkFenceStatus_ok peer c w) as [E Eu]; [apply Hs; by left|]. rewrite Eu.
  pose proof (checkFenceStatus_spec peer c w) as Hl. cbv zeta in Hl. rewrite E in *.
  destruct Hl as [[Eo Hk] _]. apply IH. intros c' Hc'. rewrite Eo.
  eapply shows_fence_kept; [exact Hk|]. apply Hs. by right.
Qed.
End calls.

(** ** Two reconciles *)

Section fencing.
Context `{Env} `{ViewCodec} `{ClusterReads} `{FenceApi}.

(** A reconcile finds the peer and the classes to fence with, and goes on in [w']. *)
Definition discovers (w : ClusterWorld) (peer : DRCluster) (classes : list string) (w' : ClusterWorld) : Prop :=
  ∃ w1, peer_of_object w = (inl peer, w1) ∧
    on_hub (getNFClassesFromDRClusterConfig (om_Name (dc_Meta peer))) w1 = (inl classes, w').

Lemma discovers_object w peer classes w' : discovers w peer classes w' → cw_object w' = cw_object w.
Proof.
  intros (w1 & Ep & Ec). pose proof (peer_of_object_spec w) as [[Eo _] _]. rewrite Ep in Eo.
  rewrite <- Eo. by injection Ec as _ <-.
Qed.

(** The agents of the clusters have enacted the ManifestWorks of [h]: the view of each
    NetworkFence shows it in its state, successfully. *)
Definition agents_enact (h h' : World) : Prop :=
  ∀ cl n m nf, w_mws h !! (cl, n) = Some m → MNetworkFence nf ∈ mws_Manifests (mw_Spec m) →
  ∃ v nf', w_views h' !! (cl, BuildManagedClusterViewName (om_Name (nf_Meta nf)) "" MWTypeNF) = Some v ∧
    GetResource json_NetworkFence v = inl nf' ∧
    nf_FenceState nf' = nf_FenceState nf ∧ nf_Result nf' = FencingOperationResultSucceeded.

(** No call fails, and the NetworkFences can be generated. *)
Definition can_fence (object : DRCluster) (classes : list string) : Prop :=
  (∀ t, env_api_err t = None) ∧ om_Namespace (dc_Meta object) = "" ∧
  ∀ c, c ∈ classes → ∃ nf, generateNF object c = inl nf.

Lemma fence_starts w w' peer classes :
  can_fence (cw_object w) classes → discovers w peer classes w' →
  isFencingOrFenced (dct_Phase (dc_Status (cw_object w))) = false →
  let r := clusterFence w in
  r.1 = (true, None) ∧ dct_Phase (dc_Status (cw_object r.2)) = Fencing ∧
  cluster_fenced (cw_object r.2) = false ∧
  dc_Meta (cw_object r.2) = dc_Meta (cw_object w) ∧ dc_Spec (cw_object r.2) = dc_Spec (cw_object w) ∧
  ∀ c, c ∈ classes → ∃ m nf, w_mws (cw_hub r.2) !! nf_work (cw_object w) (om_Name (dc_Meta peer)) c = Some m ∧
    generateNF (cw_object w) c = inl nf ∧ mws_Manifests (mw_Spec m) = [MNetworkFence nf].
Proof.
  intros (Hok & _ & Hg) Hd Hp. pose proof (discovers_object _ _ _ _ Hd) as Eo. destruct Hd as (w1 & Ep & Ec).
  unfold clusterFence. rewrite run_bind, Ep. cbn [fst snd]. rewrite run_bind, Ec. cbn [fst snd].
  rewrite run_bind. cbn [getLastDRClusterPhase gets fst snd]. rewrite Eo, Hp. cbn [negb]. rewrite run_bind.
  destruct (createNFManifestWorks_ok Hok _ (om_Name (dc_Meta peer)) classes w' Eo Hg) as (Er & Eo' & _ & Hall).
  destruct (createNFManifestWorks _ classes w') as [r w3]. cbn [fst snd] in *. subst r.
  rewrite run_bind. unfold setDRClusterFencingCondition.
  match goal with |- context [set_fence ?a ?b ?c ?d w3] =>
    pose proof (set_fence_same a b c d w3) as (Em & Es & _ & _ & Ew);
    pose proof (set_fence_fenced a b c d w3) as Ef;
    destruct (set_fence a b c d w3) as [[] w4] end. cbn [fst snd] in *.
  rewrite run_bind. simpl. split_and!; [done|done|exact Ef|congruence|congruence|by rewrite Ew].
Qed.

Lemma fence_ends w w' peer classes :
  can_fence (cw_object w) classes → discovers w peer classes w' →
  dct_Phase (dc_Status (cw_object w)) = Fencing →
  (∀ c, c ∈ classes → shows_fence (cw_hub w') (cw_object w) (om_Name (dc_Meta peer)) c
     (ClusterFenceState_string (dcs_ClusterFence (dc_Spec (cw_object w))))) →
  let r := clusterFence w in
  r.1 = (false, None) ∧ dct_Phase (dc_Status (cw_object r.2)) = Fenced ∧ cluster_fenced (cw_object r.2) = true.
Proof.
  intros (Hok & _) Hd Hp Hs. pose proof (discovers_object _ _ _ _ Hd) as Eo. destruct Hd as (w1 & Ep & Ec).
  unfold clusterFence. rewrite run_bind, Ep. cbn [fst snd]. rewrite run_bind, Ec. cbn [fst snd].
  rewrite run_bind. cbn [getLastDRClusterPhase gets fst snd]. rewrite Eo, Hp. cbn [negb isFencingOrFenced].
  rewrite run_bind. rewrite <- Eo in Hs. destruct (check_all_ok Hok _ classes w' Hs) as [Er _].
  pose proof (check_all_fences (om_Name (dc_Meta peer)) classes w') as Hl. cbv zeta in Hl. rewrite Er in *.
  destruct (check_all _ classes w') as [r w3]. cbn [fst snd] in *. subst r. destruct Hl as [[Eo3 _] _].
  rewrite run_bind. unfold setDRClusterFencedCondition.
  match goal with |- context [set_fence ?a ?b ?c ?d w3] =>
    pose proof (set_fence_same a b c d w3) as (_ & _ & Eph & _);
    pose proof (set_fence_fenced a b c d w3) as Ef;
    destruct (set_fence a b c d w3) as [[] w4] end. cbn [fst snd] in *.
  rewrite run_bind. simpl. rewrite Eph, Eo3, Eo, Hp. split_and!; [done|done|exact Ef].
Qed.

(** C19: fencing completes.  A DRCluster that is asked to be fenced, and is not being
    fenced yet, is not reported fenced by its next reconcile, which creates the
    NetworkFences on the peer and asks to be run again; once the peer's agents have
    enacted them, the following reconcile ends fencing: phase Fenced, Fenced reported,
    no further run asked for. *)
Theorem fencing_completes w1 w1' w2 w2' peer classes :
  let r1 := clusterFenceHandle w1 in
  let r2 := clusterFenceHandle w2 in
  can_fence (cw_object w1) classes →
  dcs_ClusterFence (dc_Spec (cw_object w1)) = ClusterFenceStateFenced →
  isFencingOrFenced (dct_Phase (dc_Status (cw_object w1))) = false →
  discovers w1 peer classes w1' →
  cw_object w2 = cw_object r1.2 → discovers w2 peer classes w2' →
  agents_enact (cw_hub r1.2) (cw_hub w2') →
  (r1.1 = (true, None) ∧ cluster_fenced (cw_object r1.2) = false) ∧
  (r2.1 = (false, None) ∧ dct_Phase (dc_Status (cw_object r2.2)) = Fenced ∧
   cluster_fenced (cw_object r2.2) = true).
Proof.
  cbv zeta. unfold clusterFenceHandle. rewrite !run_bind. cbn [gets fst snd]. intros Hcan Hs Hp Hd1.
  rewrite Hs. destruct (fence_starts w1 w1' peer classes Hcan Hd1 Hp) as (-> & Eph & Ef & Em & Es & Hall).
  intros Eo Hd2 Hag. rewrite Eo, Es, Hs. split; [done|]. apply (fence_ends w2 w2' peer classes); [|done|congruence|].
  - destruct Hcan as (? & ? & Hg). unfold can_fence. rewrite Eo, Em. split_and!; [done..|]. intros c Hc.
    destruct (Hg c Hc) as [nf E]. exists nf. rewrite <- E. unfold generateNF, fillStorageDetails. by rewrite Em, Es.
  - destruct Hcan as (_ & Hns & _). intros c Hc. destruct (Hall c Hc) as (m & nf & Hm & Hg & Emf).
    destruct (generateNF_names _ _ _ Hg) as (En & _ & Est).
    destruct (Hag _ _ m nf Hm) as (v & nf' & Hv & ?); [rewrite Emf; by left|].
    exists v, nf'. unfold nf_view. rewrite Eo, Em, Es, Hns, <- En, <- Est. done.
Qed.
End fencing.

Section witness.
Import FenceScene.

Definition before : ClusterWorld := scene (east ClusterFenceStateFenced Available) [].
Definition between : ClusterWorld := scene (cw_object (clusterFenceHandle before).2) (nf_text "Fenced").
Definition discovered (w : ClusterWorld) : ClusterWorld :=
  (on_hub (getNFClassesFromDRClusterConfig "west") (peer_of_object w).2).2.

Lemma scene_object o v : cw_object (scene o v) = o.
Proof. done. Qed.

Lemma discovers_west w :
  (peer_of_object w).1 = inl (drcluster "west" ConditionFalse) →
  (on_hub (getNFClassesFromDRClusterConfig "west") (peer_of_object w).2).1 = inl ["fencer"] →
  discovers w (drcluster "west" ConditionFalse) ["fencer"] (discovered w).
Proof.
  intros E1 E2. exists (peer_of_object w).2. rewrite <- E1, <- E2. split; by apply injective_projections.
Qed.

Lemma works_between :
  map_to_list (w_mws (cw_hub (clusterFenceHandle before).2)) =
  [(("west", "east-fencer-west-nf-mw"),
    newManifestWork "east-fencer-west-nf-mw" "west" {["app" := "NF"]}
      [MNetworkFence (mkNetworkFence
         (named_meta "network-fence-fencer-east" "" <| om_Labels := {[CreatedByRamenLabel := "true"]} |>)
         "" "fencer" "Fenced" ["10.0.0.0/8"] ("", "") ∅ "")]
      (Some {[DRClusterNameAnnotation := "east"]}))].
Proof. vm_compute. reflexivity. Qed.

Lemma agents_between : agents_enact (cw_hub (clusterFenceHandle before).2) (cw_hub (discovered between)).
Proof.
  intros cl n m nf Hm%elem_of_map_to_list Hnf. rewrite works_between in Hm.
  apply list_elem_of_singleton in Hm. injection Hm as -> -> ->. apply list_elem_of_singleton in Hnf.
  injection Hnf as ->.
  exists (view "west" "network-fence-fencer-east-nf-mcv" "Fenced").2,
    (mkNetworkFence (named_meta "fence" "") "csi" "fencer" "Fenced" [] ("", "") ∅ "Succeeded").
  split_and!; vm_compute; reflexivity.
Qed.

Lemma fencing_completes_witness :
  ((clusterFenceHandle before).1 = (true, None) ∧ cluster_fenced (cw_object (clusterFenceHandle before).2) = false) ∧
  ((clusterFenceHandle between).1 = (false, None) ∧
   dct_Phase (dc_Status (cw_object (clusterFenceHandle between).2)) = Fenced ∧
   cluster_fenced (cw_object (clusterFenceHandle between).2) = true).
Proof.
  apply (fencing_completes before (discovered before) between (discovered between)
    (drcluster "west" ConditionFalse) ["fencer"]).
  - split_and!; [done|done|]. intros c ->%list_elem_of_singleton. eexists. reflexivity.
  - reflexivity.
  - reflexivity.
  - apply discovers_west; vm_compute; reflexivity.
  - apply scene_object.
  - apply discovers_west; vm_compute; reflexivity.
  - exact agents_between.
Defined.
End witness.

(** * What an unfenced cluster means

    Unfencing ends, with no further run asked for, only once no ManifestWork is left
    that would have a NetworkFence of the cluster in place. *)

(** ** Reading through views leaves the ManifestWorks alone *)

Definition same_works (h h' : World) : Prop := w_mws h' = w_mws h.
#[export] Instance same_works_preorder : PreOrder same_works.
Proof. split; [done|]. intros ??? E1 E2. unfold same_works in *. congruence. Qed.

Create HintDb works discriminated.
#[export] Hint Constants Opaque : works.
Ltac works_solver := solve [auto with works nocore].
Ltac works := repeat preserves_step works_solver.

Section works.
Context `{Env} `{ViewCodec} `{ClusterReads}.

Lemma tick_works : preserves same_works tick.
Proof. done. Qed.
Lemma api_err_works : preserves same_works api_err.
Proof. done. Qed.
Lemma modify_views_works f : preserves same_works (modify (λ w, w <| w_views ::= f |>)).
Proof. done. Qed.
Hint Resolve tick_works api_err_works modify_views_works : works.

Lemma Get_mcv_works n ns : preserves same_works (Get_mcv n ns).
Proof. unfold Get_mcv. works. Qed.
Lemma Create_mcv_works v : preserves same_works (Create_mcv v).
Proof. unfold Create_mcv. works. Qed.
Lemma Update_mcv_works v : preserves same_works (Update_mcv v).
Proof. unfold Update_mcv. works. Qed.
Lemma Delete_mcv_works v : preserves same_works (Delete_mcv v).
Proof. unfold Delete_mcv. works. Qed.
Lemma list_mcvs_works ns l : preserves same_works (listMCVsWithLabel ns l).
Proof. unfold listMCVsWithLabel. works. Qed.
Hint Resolve Get_mcv_works Create_mcv_works Update_mcv_works Delete_mcv_works list_mcvs_works : works.

Lemma getOrCreate_works m s : preserves same_works (getOrCreateManagedClusterView m s).
Proof. unfold getOrCreateManagedClusterView, find_or_create. works. Qed.

Lemma getResource_works {A} (dec : string → A + GoError) rn rns c an lb n k gv :
  preserves same_works (getResourceFromManagedCluster dec rn rns c an lb n k gv).
Proof. apply preserves_bind; [apply _|apply getOrCreate_works|intro; works]. Qed.

Lemma pruneClassViews_works c names vs : preserves same_works (pruneClassViews c names vs).
Proof.
  induction vs as [|v vs IH]; simpl; [by intros h|]. case_bool_decide; [done|].
  apply preserves_bind; [apply _| |intros [e|]; [works|done]].
  unfold DeleteManagedClusterView. works.
Qed.

Lemma pruneViews_works (lv : string → Op (list ManagedClusterView + GoError)) c names :
  (∀ c, preserves same_works (lv c)) → preserves same_works (pruneViews lv c names).
Proof.
  intros Hl. apply preserves_bind; [apply _|apply Hl|].
  intros [vs|e]; [apply pruneClassViews_works|works].
Qed.

Lemma classes_of_works {A} (get : string → string → gmap string string → Op (A + GoError))
    (prune : string → list string → Op (option GoError)) an names c :
  (∀ n c an, preserves same_works (get n c an)) → (∀ c ns, preserves same_works (prune c ns)) →
  preserves same_works (classes_of get prune an names c).
Proof.
  intros Hg Hp. apply preserves_bind; [apply _| |].
  - induction names as [|n names IH]; simpl; [works|].
    apply preserves_bind; [apply _|apply Hg|]. intros [a|e]; [|works].
    apply preserves_bind; [apply _|exact IH|]. intro. works.
  - intros [cs|e]; [|works]. apply preserves_bind; [apply _|apply Hp|].
    intro. works.
Qed.

Lemma getNFClasses_works c : preserves same_works (getNFClassesFromDRClusterConfig c).
Proof.
  apply preserves_bind; [apply _|apply getResource_works|]. intros [cfg|e]; [|works].
  apply preserves_bind; [apply _| |intros [? [e|]]; [works|]].
  - apply classes_of_works; [intros; apply getResource_works|].
    intros ? ?. apply pruneViews_works. intro. apply list_mcvs_works.
  - apply preserves_bind; [apply _| |intro; works]. unfold GetSClassesFromCluster, classes_or_none.
    case_bool_decide; [works|]. apply classes_of_works; [intros; apply getResource_works|].
    intros ? ?. apply pruneViews_works. intro. apply list_mcvs_works.
Qed.
End works.
#[export] Hint Resolve tick_works api_err_works modify_views_works : works.

(** ** Deleting the NetworkFences' works *)

(** A work that is gone, or being deleted, stays so. *)
Definition fewer_works (h h' : World) : Prop :=
  (∀ k, ¬ work_lives h k → ¬ work_lives h' k) ∧ ∀ k, w_mws h !! k = None → w_mws h' !! k = None.
#[export] Instance fewer_works_preorder : PreOrder fewer_works.
Proof. split; [by intros h|]. intros h1 h2 h3 [H12 N12] [H23 N23]. split; auto. Qed.

Lemma same_works_fewer h h' : same_works h h' → fewer_works h h'.
Proof. intros E. unfold fewer_works, work_lives. by rewrite E. Qed.

Section deleting.
Context `{Env} `{ViewCodec} `{ClusterReads} `{FenceApi}.

Lemma Delete_mw_run mw h :
  let k := (om_Namespace (mw_Meta mw), om_Name (mw_Meta mw)) in
  let r := Delete_mw mw h in
  match r.1 with
  | Some _ => w_mws r.2 = w_mws h
  | None => ∃ old, w_mws h !! k = Some old ∧
      w_mws r.2 = if bool_decide (om_Finalizers (mw_Meta old) = []) then delete k (w_mws h)
                  else <[k := mark_deleted (env_now (w_tick h)) old]> (w_mws h)
  end.
Proof.
  cbv zeta. unfold Delete_mw. rewrite run_bind. cbn [tick fst snd]. destruct (env_api_err (w_tick h)); [done|].
  rewrite run_bind. cbn [gets fst snd]. simpl (w_mws _). destruct (w_mws h !! _) as [old|] eqn:E; [|done].
  rewrite run_bind. simpl. by exists old.
Qed.

(** The work is not asked to live on, and no other is touched. *)
Lemma Delete_mw_lives mw h k :
  let r := Delete_mw mw h in
  (r.1 = None → ¬ work_lives r.2 (om_Namespace (mw_Meta mw), om_Name (mw_Meta mw))) ∧
  (k ≠ (om_Namespace (mw_Meta mw), om_Name (mw_Meta mw)) → w_mws r.2 !! k = w_mws h !! k).
Proof.
  pose proof (Delete_mw_run mw h) as Hr. cbv zeta in *. destruct (Delete_mw mw h) as [[e|] h']; cbn [fst snd] in *.
  { split; [done|]. by rewrite Hr. }
  destruct Hr as (old & Hold & Hr). unfold work_lives. rewrite Hr. case_bool_decide.
  - split; [|intros; by rewrite lookup_delete_ne]. intros _ (m & Hm & _). by rewrite lookup_delete_eq in Hm.
  - split; [|intros; by rewrite lookup_insert_ne]. intros _ (m & Hm & Hd). rewrite lookup_insert_eq in Hm. by simplify_eq/=.
Qed.

Lemma Delete_mw_error mw h e :
  (Delete_mw mw h).1 = Some e →
  (∃ t, env_api_err t = Some e) ∨ w_mws h !! (om_Namespace (mw_Meta mw), om_Name (mw_Meta mw)) = None.
Proof.
  unfold Delete_mw. rewrite run_bind. cbn [tick fst snd]. destruct (env_api_err (w_tick h)) as [e'|] eqn:E.
  { intros [= <-]. left. by exists (w_tick h). }
  rewrite run_bind. cbn [gets fst snd]. simpl (w_mws _). destruct (w_mws h !! _) eqn:Em; [|by right].
  by rewrite run_bind.
Qed.

Lemma Delete_mw_fewer mw : preserves fewer_works (Delete_mw mw).
Proof.
  intros h. pose proof (Delete_mw_run mw h) as Hr. pose proof (Delete_mw_lives mw h) as Hl. cbv zeta in *.
  destruct (Delete_mw mw h) as [[e|] h']; cbn [fst snd] in *; [by apply same_works_fewer|].
  set (k0 := (om_Namespace (mw_Meta mw), om_Name (mw_Meta mw))) in *. destruct Hr as (old & Hold & Hr). split.
  - intros k Hk. destruct (Hl k) as [Hgone Hother]. destruct (decide (k = k0)) as [->|Hne]; [by apply Hgone|].
    unfold work_lives. by rewrite Hother.
  - intros k Hk. assert (k ≠ k0) as Hne by congruence. by rewrite (proj2 (Hl k) Hne).
Qed.

Lemma DeleteManifestWork_fewer n c : preserves fewer_works (DeleteManifestWork n c).
Proof.
  unfold DeleteManifestWork. apply preserves_bind; [apply _| |].
  { apply (preserves_mono same_works); [exact same_works_fewer|]. unfold Get_mw. works. }
  intros [mw|e]; [|destruct (IsNotFound e); apply preserves_ret; apply _].
  apply preserves_bind; [apply _| |intro; apply preserves_ret; apply _].
  apply Delete_mw_fewer.
Qed.

Lemma DeleteManifestWork_gone n c h :
  honest_errors → (DeleteManifestWork n c h).1 = None → ¬ work_lives (DeleteManifestWork n c h).2 (c, n).
Proof.
  intros Hh. unfold DeleteManifestWork, Get_mw, wrapf. rewrite !run_bind, api_err_run. cbn [fst snd].
  destruct (env_api_err (w_tick h)) as [e|] eqn:E; cbn [mret M_ret fst snd]; [by rewrite (Hh _ _ E)|].
  rewrite run_bind. cbn [gets fst snd mret M_ret]. simpl (w_mws _).
  destruct (w_mws h !! (c, n)) as [m|] eqn:Em; cbn [mret M_ret fst snd].
  - rewrite run_bind. match goal with |- context [Delete_mw ?m ?h1] =>
      pose proof (Delete_mw_lives m h1 (c, n)) as [Hl _]; pose proof (Delete_mw_error m h1) as He;
      destruct (Delete_mw m h1) as [[e|] h'] end; cbn [fst snd mret M_ret] in *.
    + specialize (He e eq_refl) as [[t Ht]|He]; [by rewrite (Hh _ _ Ht)|]. simpl in He. by rewrite Em in He.
    + intros _. by apply Hl.
  - intros _ (m & Hm & _). simpl in Hm. by rewrite Em in Hm.
Qed.

Lemma delete_nf_works_fewer o c cs : preserves fewer_works (delete_nf_works o c cs).
Proof.
  induction cs as [|x cs IH]; simpl; [apply preserves_ret; apply _|].
  apply preserves_bind; [apply _|apply DeleteManifestWork_fewer|].
  intros [e|]; [apply preserves_ret; apply _|done].
Qed.

Lemma delete_nf_works_gone o c cs h x :
  honest_errors → (delete_nf_works o c cs h).1 = None → x ∈ cs →
  ¬ work_lives (delete_nf_works o c cs h).2 (c, ManifestWorkName (nf_work_name o x) c MWTypeNF).
Proof.
  intros Hh. revert h. induction cs as [|y cs IH]; intros h; simpl; [intros _ []%elem_of_nil|].
  rewrite run_bind. destruct (DeleteManifestWork _ c h) as [[e|] h1] eqn:E; simpl; [done|].
  intros Hr [->|Hx]%elem_of_cons; [|by apply IH].
  apply (delete_nf_works_fewer o c cs h1).
  pose proof (DeleteManifestWork_gone (ManifestWorkName (nf_work_name o y) c MWTypeNF) c h Hh) as Hg.
  rewrite E in Hg. by apply Hg.
Qed.

(** The works of the cluster [o]'s NetworkFences for all classes that the views of [c] show
    in [h0] are gone in [h], or being deleted. *)
Definition no_fence_works (o c : string) (h0 h : World) : Prop :=
  ∃ classes, shows_classes h0 c classes ∧
    ∀ x, x ∈ classes → ¬ work_lives h (c, ManifestWorkName (nf_work_name o x) c MWTypeNF).

Lemma DeleteManifestWork_views n c h : w_views (DeleteManifestWork n c h).2 = w_views h.
Proof.
  unfold DeleteManifestWork, Get_mw. rewrite !run_bind, api_err_run. cbn [fst snd].
  destruct (env_api_err (w_tick h)) as [e|]; cbn [mret M_ret fst snd]; [by destruct (IsNotFound e)|].
  rewrite run_bind. cbn [gets fst snd mret M_ret]. simpl (w_mws _). destruct (w_mws h !! (c, n)); cbn [mret M_ret fst snd]; [|done].
  rewrite run_bind. unfold Delete_mw. rewrite run_bind. cbn [tick fst snd]. destruct (env_api_err _); [done|].
  rewrite run_bind. cbn [gets fst snd]. by destruct (_ !! _).
Qed.

Lemma delete_nf_works_views o c cs h : w_views (delete_nf_works o c cs h).2 = w_views h.
Proof.
  revert h. induction cs as [|x cs IH]; intros h; simpl; [done|]. rewrite run_bind.
  pose proof (DeleteManifestWork_views (ManifestWorkName (nf_work_name o x) c MWTypeNF) c h) as E.
  destruct (DeleteManifestWork _ c h) as [[e|] h1]; cbn [fst snd] in *; [done|]. by rewrite IH.
Qed.

Definition fewer (w w' : ClusterWorld) : Prop :=
  cw_object w' = cw_object w ∧ fewer_works (cw_hub w) (cw_hub w') ∧ reports_from (cw_hub w) (cw_hub w').
#[export] Instance fewer_preorder : PreOrder fewer.
Proof.
  split; [intros w; split_and!; [done|reflexivity..]|]. intros u v w (E1 & ? & ?) (E2 & ? & ?).
  split_and!; [congruence|by etransitivity..].
Qed.

Lemma on_hub_run {A} (m : Op A) w : on_hub m w = ((m (cw_hub w)).1, w <| cw_hub := (m (cw_hub w)).2 |>).
Proof. done. Qed.

Lemma removeFencingCR_fewer c : preserves fewer (removeFencingCR c).
Proof.
  intros w. unfold removeFencingCR. rewrite run_bind, on_hub_run. cbn [fst snd].
  pose proof (same_works_fewer _ _ (getNFClasses_works c (cw_hub w))) as Hw.
  destruct (getNFClasses_from c (cw_hub w)) as [Hf _].
  destruct (getNFClassesFromDRClusterConfig c (cw_hub w)) as [[cs|e] h1]; [|by split].
  cbn [fst snd] in *. rewrite !run_bind. cbn [gets fst snd]. rewrite on_hub_run. cbn [fst snd mret M_ret]. split_and!; [done| |].
  - etransitivity; [exact Hw|]. apply delete_nf_works_fewer.
  - etransitivity; [exact Hf|]. apply same_views_from, delete_nf_works_views.
Qed.

Lemma removeFencingCR_gone c w :
  honest_errors → (removeFencingCR c w).1 = (false, None) →
  no_fence_works (object_name w) c (cw_hub w) (cw_hub (removeFencingCR c w).2).
Proof.
  intros Hh. unfold removeFencingCR. rewrite run_bind, on_hub_run. cbn [fst snd].
  destruct (getNFClasses_from c (cw_hub w)) as [_ Hs].
  destruct (getNFClassesFromDRClusterConfig c (cw_hub w)) as [[cs|e] h1] eqn:Ec; [|done].
  cbn [fst snd] in *. rewrite !run_bind. cbn [gets fst snd]. rewrite on_hub_run. cbn [fst snd mret M_ret].
  destruct (delete_nf_works _ c cs _).1 as [e|] eqn:Ed; [done|]. intros _.
  exists cs. split; [by apply Hs|]. intros x Hx. by apply delete_nf_works_gone.
Qed.

Lemma no_fence_works_mono o c h0 h1 h h' :
  reports_from h0 h1 → fewer_works h h' → no_fence_works o c h1 h → no_fence_works o c h0 h'.
Proof. intros Hf [Hl _] (cs & E & Hn). exists cs. split; [by eapply shows_classes_from|]. auto. Qed.

Lemma remove_all_spec cs b n w :
  honest_errors →
  let r := remove_all cs b n w in
  fewer w r.2 ∧ (r.1.2 ≤ n + length cs)%nat ∧
  (r.1.1 = false → b = false ∧ r.1.2 = (n + length cs)%nat ∧
     ∀ c, c ∈ cs → no_fence_works (object_name w) c (cw_hub w) (cw_hub r.2)).
Proof.
  intros Hh. revert b n w. induction cs as [|c cs IH]; intros b n w; simpl.
  { split_and!; [done|lia|]. intros ->. split_and!; [done|lia|]. intros c []%elem_of_nil. }
  rewrite run_bind. pose proof (removeFencingCR_fewer c w) as Hf. pose proof (removeFencingCR_gone c w Hh) as Hg.
  destruct (removeFencingCR c w) as [[b' e] w1]; cbn [fst snd] in *.
  assert (Hbad : let r := remove_all cs true n w1 in
    fewer w r.2 ∧ (r.1.2 ≤ n + S (length cs))%nat ∧ r.1.1 ≠ false).
  { destruct (IH true n w1) as (? & ? & Hc). split_and!; [by etransitivity|lia|]. intros E. by destruct (Hc E). }
  assert (Hb : ∀ r : bool * nat * ClusterWorld, fewer w r.2 ∧ (r.1.2 ≤ n + S (length cs))%nat ∧ r.1.1 ≠ false →
    fewer w r.2 ∧ (r.1.2 ≤ n + S (length cs))%nat ∧ (r.1.1 = false → b = false ∧ r.1.2 = (n + S (length cs))%nat ∧
     ∀ c', c' ∈ c :: cs → no_fence_works (object_name w) c' (cw_hub w) (cw_hub r.2))) by (intros r (? & ? & ?); done).
  destruct b'; [by apply Hb|]. destruct e as [e|]; [by apply Hb|]. clear Hb Hbad.
  destruct (IH b (S n) w1) as (Hf2 & Hn & Hc). split_and!; [by etransitivity|lia|].
  intros E. destruct (Hc E) as (-> & En & Hall). split_and!; [done|lia|].
  assert (Eo : object_name w1 = object_name w) by (unfold object_name; by rewrite (proj1 Hf)).
  destruct Hf as (_ & _ & Hf).
  intros c' [->|Hc']%elem_of_cons; [|rewrite <- Eo; by eapply no_fence_works_mono; [exact Hf|reflexivity|apply Hall]].
  eapply no_fence_works_mono; [reflexivity|apply Hf2|]. by apply Hg.
Qed.
End deleting.

(** ** Unfencing *)

Section unfence.
Context `{Env} `{ViewCodec} `{ClusterReads} `{FenceApi}.

Definition cluster_clean (c : DRCluster) : bool :=
  match FindCondition (dct_Conditions (dc_Status c)) DRClusterConditionTypeClean with
  | None => false
  | Some cond => bool_decide (cond_Status cond = ConditionTrue) &&
                 bool_decide (cond_ObservedGeneration cond = om_Generation (dc_Meta c))
  end.

Lemma set_fence_clean r f c m w :
  cluster_clean (cw_object (set_fence r f c m w).2) = bool_decide (c = ConditionTrue).
Proof.
  unfold set_fence. rewrite run_bind.
  set (w1 := (set_dccondition DRClusterConditionTypeFenced r f m w).2).
  destruct (set_dccondition_find DRClusterConditionTypeClean r c m w1) as (k & Ek & <- & Eg).
  unfold cluster_clean. rewrite Ek.
  destruct (set_dccondition_same DRClusterConditionTypeClean r (cond_Status k) m w1) as (Em & _).
  rewrite Em, Eg, bd_refl, andb_true_r. done.
Qed.

Lemma cleanClusters_clean cs w :
  honest_errors → (cleanClusters cs w).1 = (false, None) →
  let w' := (cleanClusters cs w).2 in
  cluster_fenced (cw_object w') = false ∧ cluster_clean (cw_object w') = true ∧
  ∀ c, c ∈ cs → no_fence_works (object_name w) c (cw_hub w) (cw_hub w').
Proof.
  intros Hh. unfold cleanClusters. rewrite run_bind.
  destruct (remove_all_spec cs false 0 w Hh) as (Hf & Hn & Hc).
  destruct (remove_all cs false 0 w) as [[b n] w1]. cbn [fst snd] in *. rewrite run_bind.
  cbn [fst snd mret M_ret]. intros [= ->]. destruct (Hc eq_refl) as (_ & -> & Hall).
  rewrite bool_decide_eq_true_2 by done. unfold setDRClusterCleanCondition.
  rewrite set_fence_fenced, set_fence_clean. split_and!; [done..|]. intros c Hin.
  eapply no_fence_works_mono; [reflexivity| |by apply Hall]. apply same_works_fewer, set_fence_same.
Qed.

Lemma find_work_views n t c h : w_views (FindClusterManifestWorkByType n t c h).2 = w_views h.
Proof.
  unfold FindClusterManifestWorkByType, FindManifestWork, Get_mw. case_bool_decide; [done|].
  rewrite !run_bind, api_err_run. cbn [fst snd mret M_ret]. by destruct (env_api_err (w_tick h)).
Qed.

(** The DRCluster's metadata stays, and what is reported was before. *)
Definition same_meta (w w' : ClusterWorld) : Prop :=
  dc_Meta (cw_object w') = dc_Meta (cw_object w) ∧ reports_from (cw_hub w) (cw_hub w').
#[local] Instance same_meta_preorder : PreOrder same_meta.
Proof.
  split; [intros w; split; [done|reflexivity]|]. intros ??? [E1 ?] [E2 ?]. split; [congruence|by etransitivity].
Qed.

Lemma on_hub_meta {A} (m : Op A) : preserves reports_from m → preserves same_meta (on_hub m).
Proof. intros Hm w. split; [done|apply Hm]. Qed.

Lemma set_fence_meta r f c m : preserves same_meta (set_fence r f c m).
Proof. intros w. destruct (set_fence_same r f c m w) as (? & _ & _ & ? & _). split; [done|by apply same_views_from]. Qed.

Lemma checkUnfenceStatus_meta peer c : preserves same_meta (checkUnfenceStatus peer c).
Proof.
  unfold checkUnfenceStatus, viewNF, requeueIfNFMWExists.
  repeat preserves_step ltac:(first [apply set_fence_meta
    | apply on_hub_meta; first [intro; apply getResource_from | intro; apply same_views_from, find_work_views]]).
Qed.

Lemma check_all_unfence_meta peer cs : preserves same_meta (check_all (checkUnfenceStatus peer) cs).
Proof.
  induction cs as [|c cs IH]; simpl; [apply preserves_ret; apply _|].
  apply preserves_bind; [apply _|apply checkUnfenceStatus_meta|].
  intros [e|]; [apply preserves_ret; apply _|done].
Qed.

(** C20: unfencing is done only when it is.  When the reconcile of a DRCluster asked to
    be unfenced ends without error and asks for no other, the DRCluster reports that it
    is not fenced and clean, and of the ManifestWorks that would have a NetworkFence of it
    on the peer, or on itself, for a class that the views of that cluster's DRClusterConfig
    and classes show when the reconcile begins, each is gone or being deleted. *)
Theorem unfencing_cleans w :
  let r := clusterFenceHandle w in
  honest_errors → dcs_ClusterFence (dc_Spec (cw_object w)) = ClusterFenceStateUnfenced → r.1 = (false, None) →
  cluster_fenced (cw_object r.2) = false ∧ cluster_clean (cw_object r.2) = true ∧
  ∃ peer, is_peer (cw_object w) peer ∧
    ∀ c, c ∈ [object_name w; om_Name (dc_Meta peer)] →
      no_fence_works (object_name w) c (cw_hub w) (cw_hub r.2).
Proof.
  cbv zeta. intros Hh Hs. unfold clusterFenceHandle. rewrite run_bind. cbn [gets fst snd]. rewrite Hs.
  unfold clusterUnfence. rewrite run_bind. destruct (peer_of_object_spec w) as [[Eo _] Hp]. pose proof (peer_of_object_views w) as Hv0.
  destruct (peer_of_object w) as [[peer|e] w1]; cbn [fst snd] in *; [|done].
  rewrite run_bind, on_hub_run. cbn [fst snd].
  destruct (getNFClasses_from (om_Name (dc_Meta peer)) (cw_hub w1)) as [Hf1 _].
  destruct (getNFClassesFromDRClusterConfig _ (cw_hub w1)) as [[classes|e] h1]; cbn [fst snd] in *; [|done].
  rewrite run_bind. cbn [getLastDRClusterPhase gets fst snd].
  destruct (negb (isUnfencingOrUnfenced _)).
  { rewrite run_bind. by destruct (createNFManifestWorks _ classes _) as [[e|] w3]. }
  rewrite run_bind. pose proof (check_all_unfence_meta (om_Name (dc_Meta peer)) classes (w1 <| cw_hub := h1 |>)) as [Em Hf2].
  destruct (check_all _ classes _) as [[e|] w3]; [done|]. cbn [fst snd] in *.
  rewrite !run_bind. cbn [gets fst snd].
  match goal with |- context [cleanClusters ?l ?u] => set (w4 := u); set (cs := l) end.
  assert (En : object_name w4 = object_name w).
  { unfold object_name, w4. f_equal. trans (dc_Meta (cw_object w3)); [done|]. rewrite Em. simpl. by rewrite Eo. }
  intros Hr. destruct (cleanClusters_clean cs w4 Hh Hr) as (Hf & Hc & Hall). split_and!; [done..|].
  exists peer. split; [by apply Hp|]. intros c Hin. rewrite <- En in *.
  eapply no_fence_works_mono; [|reflexivity|by apply Hall].
  etransitivity; [apply same_views_from, Hv0|]. etransitivity; [exact Hf1|exact Hf2].
Qed.
End unfence.

Section witness.
Import FenceScene.

Definition unfenced_scene : ClusterWorld :=
  scene (east ClusterFenceStateUnfenced Unfencing) (nf_text "Unfenced").

Lemma unfencing_cleans_witness :
  cluster_fenced (cw_object (clusterFenceHandle unfenced_scene).2) = false ∧
  cluster_clean (cw_object (clusterFenceHandle unfenced_scene).2) = true ∧
  ∃ peer, is_peer (cw_object unfenced_scene) peer ∧
    ∀ c, c ∈ [object_name unfenced_scene; om_Name (dc_Meta peer)] →
      no_fence_works (object_name unfenced_scene) c (cw_hub unfenced_scene) (cw_hub (clusterFenceHandle unfenced_scene).2).
Proof. apply (unfencing_cleans unfenced_scene); [done|reflexivity|vm_compute; reflexivity]. Defined.
End witness.
