(* ===== verification/Frames.v ===== *)
(** * What each method may change

    Frame lemmas of the orchestrator's methods, over the state of Hub.v.
    [placing]: ManifestWorks and views are untouched.  [sets k P]: at most the
    ManifestWork [k] is written, with a spec in [P].  [only K]: no VRG
    ManifestWork outside the clusters [K] is written.  [promotes K]: no VRG
    ManifestWork outside [K] becomes primary.  The hint databases [quiet],
    [placing] and [promotes] and the tactics [placing] and [promotes] compose them. *)

From S2P Require Import Prelude Meta Names Conditions Api Events Telemetry Hub.
From S2P Require Import ManifestWorks Placement VRGBuild DRPCStatus DRPCWorks DRPCVolSync DRPC.

Create HintDb placing discriminated.
#[export] Hint Constants Opaque : placing.
Create HintDb only discriminated.
#[export] Hint Constants Opaque : only.
Create HintDb promotes discriminated.
#[export] Hint Constants Opaque : promotes.

(** ** Relations *)

Definition placing (w w' : World) : Prop :=
  base w w' ∧ w_mws w' = w_mws w ∧ w_vrgs w' = w_vrgs w.

#[export] Instance placing_preorder : PreOrder placing.
Proof.
  split; [intros w; split_and!; done || reflexivity|].
  intros u v w (?&?&?) (?&?&?). split_and!; [by etransitivity|congruence..].
Qed.

Lemma quiet_placing w w' : quiet w w' → placing w w'.
Proof. intros (?&?&?&_). by split_and!. Qed.

Definition sets (k : string * string) (P : ManifestWorkSpec → Prop) (w w' : World) : Prop :=
  base w w' ∧ w_vrgs w' = w_vrgs w ∧
  (∀ k', k' ≠ k → w_mws w' !! k' = w_mws w !! k') ∧
  (w_mws w' !! k = w_mws w !! k ∨ ∃ m, w_mws w' !! k = Some m ∧ P (mw_Spec m)).

#[export] Instance sets_preorder k P : PreOrder (sets k P).
Proof.
  split; [intros w; split_and!; done || reflexivity || by left|].
  intros u v w (?&?&Hk1&H1) (?&?&Hk2&H2). split_and!; [by etransitivity|congruence| |].
  - intros k' Hk. by rewrite Hk2, Hk1.
  - destruct H2 as [->|?]; [done|by right].
Qed.

Lemma placing_sets k P w w' : placing w w' → sets k P w w'.
Proof. intros (?&E&?). unfold sets. rewrite E. split_and!; try done. by left. Qed.

Lemma quiet_sets k P w w' : quiet w w' → sets k P w w'.
Proof. intros. by apply placing_sets, quiet_placing. Qed.

Lemma sets_mono k (P Q : ManifestWorkSpec → Prop) w w' :
  (∀ s, P s → Q s) → sets k P w w' → sets k Q w w'.
Proof. intros HPQ (?&?&?&[?|(m&?&?)]); split_and!; eauto 10. Qed.

(** ** Whether a ManifestWork makes a VRG primary *)

Definition spec_primary (s : ManifestWorkSpec) : bool :=
  match mws_Manifests s with
  | m :: _ => match manifest_as_vrg m with inl v => isVRGPrimary v | inr _ => false end
  | [] => false
  end.

Lemma Extract_primary mw v :
  ExtractVRGFromManifestWork mw = inl v → spec_primary (mw_Spec mw) = isVRGPrimary v.
Proof. unfold ExtractVRGFromManifestWork, spec_primary. case_match; [done|]. by intros ->. Qed.

Lemma set_manifest0_primary v mw :
  spec_primary (mw_Spec (set_manifest0 (MVRG v) mw)) = true → isVRGPrimary v = true.
Proof. unfold spec_primary, set_manifest0. simpl. by destruct (mws_Manifests (mw_Spec mw)). Qed.

Section relations.
Context `{DRPCInstance}.

Definition primary_on (w : World) (c : string) : bool :=
  match w_mws w !! (c, vrgMWName) with Some mw => spec_primary (mw_Spec mw) | None => false end.

Definition only (K : string → Prop) (w w' : World) : Prop :=
  base w w' ∧ ∀ c, ¬ K c → w_mws w' !! (c, vrgMWName) = w_mws w !! (c, vrgMWName).

Definition promotes (K : string → Prop) (w w' : World) : Prop :=
  base w w' ∧ ∀ c, ¬ K c → primary_on w' c = true → primary_on w c = true.

#[export] Instance only_preorder K : PreOrder (only K).
Proof.
  split; [intros w; split; [reflexivity|done]|].
  intros u v w [??] [? Hw]. split; [by etransitivity|]. intros c Hc. rewrite Hw by done. auto.
Qed.

#[export] Instance promotes_preorder K : PreOrder (promotes K).
Proof.
  split; [intros w; split; [reflexivity|done]|].
  intros u v w [??] [? Hw]. split; [by etransitivity|]. auto.
Qed.

Lemma only_promotes K w w' : only K w w' → promotes K w w'.
Proof. intros [? Ho]. split; [done|]. intros c Hc. unfold primary_on. by rewrite Ho. Qed.

Lemma placing_only K w w' : placing w w' → only K w w'.
Proof. intros (?&E&?). unfold only. by rewrite E. Qed.

Lemma placing_promotes K w w' : placing w w' → promotes K w w'.
Proof. intros. by apply only_promotes, placing_only. Qed.

Lemma quiet_promotes K w w' : quiet w w' → promotes K w w'.
Proof. intros. by apply placing_promotes, quiet_placing. Qed.

Lemma quiet_only K w w' : quiet w w' → only K w w'.
Proof. intros. by apply placing_only, quiet_placing. Qed.

(** A write to another ManifestWork than the VRG's, or of a VRG that is not
    primary, or where the VRG is primary already, promotes nothing. *)
Lemma sets_other_only k P K w w' : k.2 ≠ vrgMWName → sets k P w w' → only K w w'.
Proof.
  intros Hk (?&?&Ho&_). split; [done|]. intros c _. apply Ho. intros <-. done.
Qed.

Lemma sets_only c n P (K : string → Prop) w w' : K c → sets (c, n) P w w' → only K w w'.
Proof. intros Hc (?&?&Ho&_). split; [done|]. intros c' Hc'. apply Ho. by intros [= -> _]. Qed.

Lemma sets_promotes k (P : ManifestWorkSpec → Prop) K w w' :
  (∀ s, P s → k.2 = vrgMWName → spec_primary s = true → primary_on w k.1 = true) →
  sets k P w w' → promotes K w w'.
Proof.
  intros HP (?&?&Ho&Hk). split; [done|]. intros c _. unfold primary_on at 1.
  destruct (decide ((c, vrgMWName) = k)) as [<-|Hne].
  - destruct Hk as [->|(m&->&Hm)]; [done|]. intros Hs. by eapply (HP _ Hm).
  - by rewrite Ho.
Qed.
End relations.

(** ** Tactics *)

Ltac placing_solver :=
  first [ solve [auto with placing nocore]
        | solve [apply (preserves_mono _ _ _ quiet_placing); auto with quiet nocore] ].
Ltac placing := repeat preserves_step placing_solver.

Ltac only_solver :=
  first [ solve [auto with only nocore]
        | solve [apply (preserves_mono _ _ _ (quiet_only _)); auto with quiet nocore]
        | solve [apply (preserves_mono _ _ _ (placing_only _)); auto with placing nocore] ].
Ltac onlies := repeat preserves_step only_solver.

Ltac promotes_solver :=
  first [ solve [auto with promotes nocore]
        | solve [apply (preserves_mono _ _ _ (only_promotes _)); auto with only nocore]
        | solve [apply (preserves_mono _ _ _ (quiet_promotes _)); auto with quiet nocore]
        | solve [apply (preserves_mono _ _ _ (placing_promotes _)); auto with placing nocore] ].
Ltac promotes := repeat preserves_step promotes_solver.

(** ** Placement *)

Section placement_frames.
Context `{Env} `{DRPCInstance}.

Lemma placing_intro w f :
  (∀ w, w_tick (f w) = w_tick w ∧ w_drpc (f w) = w_drpc w ∧ w_api_drpc (f w) = w_api_drpc w ∧
        w_mws (f w) = w_mws w ∧ w_vrgs (f w) = w_vrgs w) → placing w (f w).
Proof.
  intros Hf. destruct (Hf w) as (Ht&Hd&Ha&?&?). split_and!; [|done|done].
  split; [lia|]. unfold in_sync. by rewrite Hd, Ha.
Qed.

Lemma Create_pd_placing p : preserves placing (Create_pd p).
Proof. unfold Create_pd. placing. apply preserves_modify. intros. by apply placing_intro. Qed.

Lemma write_pd_placing p f : preserves placing (write_pd p f).
Proof. unfold write_pd. placing. apply preserves_modify. intros. by apply placing_intro. Qed.

Lemma Update_pd_placing p : preserves placing (Update_pd p).
Proof. apply write_pd_placing. Qed.
Lemma Status_Update_pd_placing p : preserves placing (Status_Update_pd p).
Proof. apply write_pd_placing. Qed.
#[local] Hint Resolve Create_pd_placing Update_pd_placing Status_Update_pd_placing : placing.

Lemma Status_Update_rule_placing ds : preserves placing (Status_Update_rule ds).
Proof. unfold Status_Update_rule. placing. apply preserves_modify. intros. by apply placing_intro. Qed.
#[local] Hint Resolve Status_Update_rule_placing : placing.

Lemma getPlacementDecisionFromPlacement_placing m :
  preserves placing (getPlacementDecisionFromPlacement m).
Proof. unfold getPlacementDecisionFromPlacement. placing. Qed.

Lemma create_pd_loop_placing m p i n : preserves placing (create_pd_loop m p i n).
Proof. revert p i. induction n as [|n IH]; intros p i; simpl; placing. Qed.

Lemma createPlacementDecision_placing m : preserves placing (createPlacementDecision m).
Proof. apply create_pd_loop_placing. Qed.
#[local] Hint Resolve getPlacementDecisionFromPlacement_placing createPlacementDecision_placing : placing.

Lemma createOrUpdatePlacementDecision_placing m cd :
  preserves placing (createOrUpdatePlacementDecision m cd).
Proof. unfold createOrUpdatePlacementDecision. placing. Qed.

Lemma createOrUpdatePlacementRuleDecision_placing m l cd :
  preserves placing (createOrUpdatePlacementRuleDecision m l cd).
Proof.
  unfold createOrUpdatePlacementRuleDecision. placing.
  apply preserves_modify. intros. by apply placing_intro.
Qed.
#[local] Hint Resolve createOrUpdatePlacementDecision_placing
  createOrUpdatePlacementRuleDecision_placing : placing.

Lemma updateUserPlacementStatusDecision_placing cd :
  preserves placing (updateUserPlacementStatusDecision cd).
Proof. unfold updateUserPlacementStatusDecision. placing. Qed.

Lemma removeClusterDecisionForFailover_placing c : preserves placing (removeClusterDecisionForFailover c).
Proof. unfold removeClusterDecisionForFailover, removePlacementClusterDecisionForFailover. placing. Qed.

Lemma retainClusterDecisionAsFailover_placing c : preserves placing (retainClusterDecisionAsFailover c).
Proof. unfold retainClusterDecisionAsFailover, retainPlacementClusterDecisionAsFailover. placing. Qed.

Lemma switchClusterDecisionRetainFailover_placing c :
  preserves placing (switchClusterDecisionRetainFailover c).
Proof. unfold switchClusterDecisionRetainFailover, switchPlacementClusterDecisionRetainFailover. placing. Qed.
#[local] Hint Resolve updateUserPlacementStatusDecision_placing : placing.

Lemma updateUserPlacementRule_placing c r : preserves placing (updateUserPlacementRule c r).
Proof. apply updateUserPlacementStatusDecision_placing. Qed.

Lemma clearUserPlacementRuleStatus_placing : preserves placing clearUserPlacementRuleStatus.
Proof. apply updateUserPlacementStatusDecision_placing. Qed.
#[local] Hint Resolve updateUserPlacementRule_placing : placing.

Lemma addAnnotation_quiet k v : preserves quiet (addAnnotation k v).
Proof.
  unfold addAnnotation. quiet. apply modify_drpc_quiet. intros d. unfold AddAnnotation, same_identity.
  simpl. by case_match.
Qed.
#[local] Hint Resolve addAnnotation_quiet : quiet.

Lemma ensurePlacement_placing c : preserves placing (ensurePlacement c).
Proof. unfold ensurePlacement. placing. Qed.
End placement_frames.

#[export] Hint Resolve updateUserPlacementStatusDecision_placing removeClusterDecisionForFailover_placing
  retainClusterDecisionAsFailover_placing switchClusterDecisionRetainFailover_placing
  updateUserPlacementRule_placing clearUserPlacementRuleStatus_placing ensurePlacement_placing : placing.
#[export] Hint Resolve addAnnotation_quiet : quiet.

(** ** Primitive writes *)

Lemma sets_insert k P w m :
  P (mw_Spec m) → sets k P w (w <| w_mws ::= <[k := m]> |>).
Proof.
  intros HP. split_and!; try done; simpl.
  - intros k' Hk. by rewrite lookup_insert_ne.
  - right. exists m. by rewrite lookup_insert_eq.
Qed.

Definition mw_key (mw : ManifestWork) : string * string := (om_Namespace (mw_Meta mw), om_Name (mw_Meta mw)).

Section mw_frames.
Context `{Env} `{DRPCInstance}.

Ltac sets_solver := solve [apply (preserves_mono _ _ _ (quiet_sets _ _)); auto with quiet nocore].
Ltac sets_ := repeat preserves_step sets_solver.

Lemma Create_mw_sets mw : preserves (sets (mw_key mw) (λ s, s = mw_Spec mw)) (Create_mw mw).
Proof. unfold Create_mw. sets_. apply preserves_modify. intros w. by apply sets_insert. Qed.

Lemma Update_mw_sets mw : preserves (sets (mw_key mw) (λ s, s = mw_Spec mw)) (Update_mw mw).
Proof. unfold Update_mw. sets_. apply preserves_modify. intros w. by apply sets_insert. Qed.

(** A read answers with what is stored under the key. *)
Lemma Get_mw_found name c w mw :
  (Get_mw name c w).1 = inl mw →
  mw_key mw = (c, name) ∧ ∃ m0, w_mws w !! (c, name) = Some m0 ∧ mw_Spec mw = mw_Spec m0.
Proof.
  unfold Get_mw. rewrite run_bind. simpl. destruct (env_api_err _); [done|].
  rewrite run_bind. simpl. destruct (w_mws w !! (c, name)) as [m0|] eqn:E; [|done].
  intros [= <-]. split; [done|]. by exists m0.
Qed.

Lemma FindManifestWork_quiet n c : preserves quiet (FindManifestWork n c).
Proof. unfold FindManifestWork. quiet. Qed.

Lemma FindManifestWorkByType_quiet t c : preserves quiet (FindManifestWorkByType t c).
Proof. apply FindManifestWork_quiet. Qed.

Lemma FindManifestWork_found n c w mw :
  (FindManifestWork n c w).1 = inl mw →
  mw_key mw = (c, n) ∧ ∃ m0, w_mws w !! (c, n) = Some m0 ∧ mw_Spec mw = mw_Spec m0.
Proof.
  unfold FindManifestWork. case_bool_decide; [done|]. rewrite run_bind. simpl.
  destruct (Get_mw n c w).1 as [m|e] eqn:E; [|by destruct (IsNotFound e)].
  intros [= <-]. by apply Get_mw_found.
Qed.

Lemma RetryOnConflict_steps_pres R `{!PreOrder R} n m :
  preserves R m → preserves R (RetryOnConflict_steps n m).
Proof.
  intros Hm. induction n as [|n IH]; simpl; apply preserves_bind; try done;
    intros [e|]; try apply preserves_ret; try done.
  case_bool_decide; [done|]. by apply preserves_ret.
Qed.

Lemma createOrUpdateManifestWork_sets mw c :
  om_Namespace (mw_Meta mw) = c →
  preserves (sets (c, om_Name (mw_Meta mw)) (λ s, s = mw_Spec mw)) (createOrUpdateManifestWork mw c).
Proof.
  intros Hc. assert (Hk : mw_key mw = (c, om_Name (mw_Meta mw))) by (unfold mw_key; congruence).
  unfold createOrUpdateManifestWork.
  apply preserves_bind; [apply _|sets_|]. intros [found|e].
  - case_bool_decide; [|sets_]. apply preserves_bind; [apply _| |intros; sets_].
    apply RetryOnConflict_steps_pres; [apply _|]. intros w. rewrite run_bind.
    etransitivity; [apply quiet_sets, Get_mw_quiet|].
    destruct (Get_mw _ _ w).1 as [f|e] eqn:E; [|apply preserves_ret; apply _].
    apply Get_mw_found in E as [Ek _].
    pose proof (Update_mw_sets (f <| mw_Spec := mw_Spec mw |>) (Get_mw (om_Name (mw_Meta mw)) c w).2) as Hs.
    unfold mw_key in Hs, Ek. simpl in Hs, Ek. by rewrite Ek in Hs.
  - destruct (negb _); [sets_|]. apply preserves_bind; [apply _| |intros; sets_].
    rewrite <- Hk. apply Create_mw_sets.
Qed.

Lemma UpdateVRGManifestWork_sets v mw :
  preserves (sets (mw_key mw) (λ s, s = mw_Spec (set_manifest0 (MVRG v) mw))) (UpdateVRGManifestWork v mw).
Proof.
  unfold UpdateVRGManifestWork. apply preserves_bind; [apply _| |intros; sets_].
  apply (Update_mw_sets (set_manifest0 (MVRG v) mw)).
Qed.
End mw_frames.

#[export] Hint Resolve FindManifestWork_quiet FindManifestWorkByType_quiet : quiet.

(** ** Namespaces and recipes: other ManifestWorks *)

Section other_works.
Context `{Env} `{DRPCInstance}.

Lemma other_work_only K mw c :
  om_Namespace (mw_Meta mw) = c → om_Name (mw_Meta mw) ≠ vrgMWName →
  preserves (only K) (createOrUpdateManifestWork mw c).
Proof.
  intros Hc Hn. eapply preserves_mono; [|by apply createOrUpdateManifestWork_sets].
  intros w w'. by apply sets_other_only.
Qed.

Lemma CreateOrUpdateNamespaceManifestWork_only K n ns c a l :
  preserves (only K) (CreateOrUpdateNamespaceManifestWork n ns c a l).
Proof.
  unfold CreateOrUpdateNamespaceManifestWork. cbv zeta.
  apply preserves_bind; [apply _| |intros; apply preserves_ret, _].
  unfold newManifestWork, AddLabel. apply other_work_only; [by case_match|].
  intros E. apply (mw_name_vrg_ns d_InstName d_vrgNamespace n ns). symmetry. revert E. by case_match.
Qed.

Lemma CreateOrUpdateRecipeManifestWork_only K r c :
  preserves (only K) (CreateOrUpdateRecipeManifestWork r c).
Proof.
  unfold CreateOrUpdateRecipeManifestWork. cbv zeta.
  apply preserves_bind; [apply _| |intros; apply preserves_ret, _].
  unfold newManifestWork, AddLabel. apply other_work_only; [by case_match|].
  intros E. apply (mw_name_vrg_recipe d_InstName d_vrgNamespace d_InstName d_vrgNamespace).
  symmetry. revert E. by case_match.
Qed.
#[local] Hint Resolve CreateOrUpdateNamespaceManifestWork_only CreateOrUpdateRecipeManifestWork_only : only.

Lemma get_namespaces_quiet c l : preserves quiet (get_namespaces c l).
Proof. induction l as [|n l IH]; simpl; quiet. Qed.
#[local] Hint Resolve get_namespaces_quiet : quiet.

Lemma create_ns_works_only K n ns h a l cs : preserves (only K) (create_ns_works n ns h a l cs).
Proof. revert l. induction cs as [|c cs IH]; intros l; simpl; onlies. Qed.
#[local] Hint Resolve create_ns_works_only : only.

Lemma create_all_ns_works_only K d h l : preserves (only K) (create_all_ns_works d h l).
Proof. induction l as [|n l IH]; simpl; onlies. Qed.
#[local] Hint Resolve create_all_ns_works_only : only.

Lemma createOrUpdateNamespaces_only K c : preserves (only K) (createOrUpdateNamespaces c).
Proof.
  unfold createOrUpdateNamespaces, createOrUpdateNSForDiscoveredApps,
    createOrUpdateNSForNonDiscoveredApps. onlies.
Qed.
#[local] Hint Resolve createOrUpdateNamespaces_only : only.

Lemma ensureNamespaceManifestWork_only K c : preserves (only K) (ensureNamespaceManifestWork c).
Proof.
  unfold ensureNamespaceManifestWork. intros w. rewrite run_bind.
  etransitivity; [apply quiet_only, FindManifestWorkByType_quiet|].
  destruct (FindManifestWorkByType MWTypeNS c w).1 as [mw|e] eqn:E.
  - destruct (HasLabel _ _); [|apply preserves_ret, _]. apply FindManifestWork_found in E as [Ek _].
    eapply sets_other_only; [|apply Update_mw_sets].
    unfold mw_key in *. simpl. injection Ek as _ ->. intros E.
    exact (mw_name_vrg_ns d_InstName d_vrgNamespace d_InstName d_vrgNamespace (eq_sym E)).
  - destruct (negb _); [apply preserves_ret, _|apply createOrUpdateNamespaces_only].
Qed.

Lemma ensureRecipeManifestWork_only K s d : preserves (only K) (ensureRecipeManifestWork s d).
Proof. unfold ensureRecipeManifestWork, spec. onlies. Qed.
End other_works.

#[export] Hint Resolve ensureNamespaceManifestWork_only ensureRecipeManifestWork_only : only.

(** ** The VRG's ManifestWork *)

Section vrg_works.
Context `{Env} `{DRPCInstance}.

(** The specs a write of [v] may leave. *)
Definition carries (v : VolumeReplicationGroup) (s : ManifestWorkSpec) : Prop :=
  spec_primary s = true → isVRGPrimary v = true.

Lemma getVRGFromManifestWork_quiet c : preserves quiet (getVRGFromManifestWork c).
Proof. unfold getVRGFromManifestWork. quiet. Qed.

Lemma FindVRG_found c w mw :
  (FindManifestWorkByType MWTypeVRG c w).1 = inl mw →
  mw_key mw = (c, vrgMWName) ∧ spec_primary (mw_Spec mw) = primary_on w c.
Proof.
  intros (Ek&m0&Em&Es)%FindManifestWork_found. split; [done|].
  unfold primary_on, vrgMWName. by rewrite Em, Es.
Qed.

Lemma getVRGFromManifestWork_found c w v :
  (getVRGFromManifestWork c w).1 = inl v → primary_on w c = isVRGPrimary v.
Proof.
  unfold getVRGFromManifestWork. rewrite run_bind. simpl.
  destruct (FindManifestWorkByType MWTypeVRG c w).1 as [mw|e] eqn:E; [|done].
  intros <-%Extract_primary. by apply FindVRG_found in E as [_ ->].
Qed.

Lemma updateManifestWork_sets c v :
  preserves (sets (c, vrgMWName) (carries v)) (updateManifestWork c v).
Proof.
  intros w. unfold updateManifestWork. rewrite run_bind.
  etransitivity; [apply quiet_sets, FindManifestWorkByType_quiet|].
  destruct (FindManifestWorkByType MWTypeVRG c w).1 as [mw|e] eqn:E; [|apply preserves_ret, _].
  apply FindVRG_found in E as [Ek _].
  eapply sets_mono, (eq_rect _ (λ k, sets k _ _ _) (Update_mw_sets _ _)); [|exact Ek].
  intros s -> Hs. by eapply set_manifest0_primary.
Qed.

(** A write of a VRG that is not primary, or to a cluster whose VRG is. *)
Lemma carries_promotes K c v w w' :
  (isVRGPrimary v = true → primary_on w c = true) →
  sets (c, vrgMWName) (carries v) w w' → promotes K w w'.
Proof. intros Hv. apply sets_promotes. simpl. unfold carries. auto. Qed.

Lemma quiet_primary_on w w' c : quiet w w' → primary_on w' c = primary_on w c.
Proof. intros (_&E&_). unfold primary_on. by rewrite E. Qed.

Lemma vrg_with_state_primary d vrgs c st v :
  isVRGPrimary (vrg_with_state d vrgs c st v) = bool_decide (st = Primary).
Proof.
  unfold vrg_with_state, isVRGPrimary. cbv zeta. destruct (_ || _); simpl;
    by rewrite updateVRGOptionalFields_state, setVRGAction_state.
Qed.

Lemma updateVRGState_only c st : preserves (only (eq c)) (updateVRGState c st).
Proof.
  unfold updateVRGState. apply preserves_bind; [apply _| |].
  { apply (preserves_mono _ _ _ (quiet_only _)), getVRGFromManifestWork_quiet. }
  intros [v|e]; [|apply preserves_ret, _]. case_bool_decide; [apply preserves_ret, _|].
  onlies. eapply preserves_mono; [|apply updateManifestWork_sets]. intros. by eapply sets_only.
Qed.

Lemma updateVRGState_secondary_promotes K c : preserves (promotes K) (updateVRGState c Secondary).
Proof.
  unfold updateVRGState. apply preserves_bind; [apply _| |].
  { apply (preserves_mono _ _ _ (quiet_promotes _)), getVRGFromManifestWork_quiet. }
  intros [v|e]; [|apply preserves_ret, _]. case_bool_decide; [apply preserves_ret, _|].
  promotes. eapply preserves_mono; [|apply updateManifestWork_sets].
  intros w w'. apply carries_promotes. by rewrite vrg_with_state_primary.
Qed.

Lemma update_final_sync_promotes K c already p r : preserves (promotes K) (update_final_sync c already p r).
Proof.
  intros w. unfold update_final_sync. rewrite run_bind.
  pose proof (getVRGFromManifestWork_quiet c w) as Hq.
  etransitivity; [apply quiet_promotes, Hq|].
  destruct (getVRGFromManifestWork c w).1 as [v|e] eqn:E; [|apply preserves_ret, _].
  apply getVRGFromManifestWork_found in E. destruct (already v); [apply preserves_ret, _|].
  rewrite !run_bind. simpl. eapply carries_promotes; [|apply updateManifestWork_sets].
  unfold isVRGPrimary. rewrite updateVRGOptionalFields_state. simpl.
  intros Hp. by rewrite (quiet_primary_on _ _ _ Hq), E.
Qed.

Lemma update_final_sync_only c already p r : preserves (only (eq c)) (update_final_sync c already p r).
Proof.
  unfold update_final_sync. apply preserves_bind; [apply _| |].
  { apply (preserves_mono _ _ _ (quiet_only _)), getVRGFromManifestWork_quiet. }
  intros [v|e]; [|apply preserves_ret, _]. destruct (already v); [apply preserves_ret, _|].
  onlies. eapply preserves_mono; [|apply updateManifestWork_sets]. intros. by eapply sets_only.
Qed.
End vrg_works.

#[export] Hint Resolve getVRGFromManifestWork_quiet : quiet.
#[export] Hint Resolve updateVRGState_secondary_promotes update_final_sync_promotes : promotes.

Section promotions.
Context `{Env} `{DRPCInstance}.

(** ** Read, modify, write back *)

Lemma write_back_promotes K c mw v w :
  mw_key mw = (c, vrgMWName) → (isVRGPrimary v = true → primary_on w c = true) →
  promotes K w (UpdateVRGManifestWork v mw w).2.
Proof.
  intros Ek Hv. eapply (carries_promotes K c v); [done|].
  eapply sets_mono, (eq_rect _ (λ k, sets k _ _ _) (UpdateVRGManifestWork_sets v mw w)); [|exact Ek].
  intros s -> Hs. by eapply set_manifest0_primary.
Qed.

Lemma write_back_only c mw v :
  mw_key mw = (c, vrgMWName) → preserves (only (eq c)) (UpdateVRGManifestWork v mw).
Proof.
  intros Ek. eapply preserves_mono; [|apply UpdateVRGManifestWork_sets].
  rewrite Ek. intros. by eapply sets_only.
Qed.

(** The pattern of the methods that find a VRG ManifestWork and write it back:
    [f] may assume what the read showed. *)
Lemma find_promotes {A} K c (f : ManifestWork + GoError → Op A) :
  (∀ e, preserves (promotes K) (f (inr e))) →
  (∀ mw w, mw_key mw = (c, vrgMWName) → spec_primary (mw_Spec mw) = primary_on w c →
     promotes K w (f (inl mw) w).2) →
  preserves (promotes K) (r ← FindManifestWorkByType MWTypeVRG c; f r).
Proof.
  intros He Hf w. rewrite run_bind. pose proof (FindManifestWorkByType_quiet MWTypeVRG c w) as Hq.
  etransitivity; [apply quiet_promotes, Hq|].
  destruct (FindManifestWorkByType MWTypeVRG c w).1 as [mw|e] eqn:E; [|apply He].
  apply FindVRG_found in E as [Ek Es]. apply Hf; [done|]. by rewrite (quiet_primary_on _ _ _ Hq).
Qed.

Lemma ensureVRGManifestWork_promotes K c : preserves (promotes K) (ensureVRGManifestWork c).
Proof.
  apply find_promotes; [intros e; destruct (IsNotFound e); promotes|].
  intros mw w Ek Es. destruct (ExtractVRGFromManifestWork mw) as [v|e] eqn:Ev; [|apply preserves_ret, _].
  apply Extract_primary in Ev. case_bool_decide as Hs; [apply preserves_ret, _|].
  rewrite !run_bind. simpl. destruct (w_vrgs w !! c); [|apply preserves_ret, _].
  apply (write_back_promotes _ c); [done|]. intros _. rewrite <- Es, Ev.
  unfold isVRGPrimary. by rewrite Hs, bd_refl.
Qed.

Lemma ResetVolSyncRDOnPrimary_promotes K c : preserves (promotes K) (ResetVolSyncRDOnPrimary c).
Proof.
  unfold ResetVolSyncRDOnPrimary. destruct d_volSyncDisabled; [promotes|].
  apply find_promotes; [intros e; destruct (IsNotFound e); promotes|].
  intros mw w Ek Es. destruct (ExtractVRGFromManifestWork mw) as [v|e] eqn:Ev; [|apply preserves_ret, _].
  apply Extract_primary in Ev. case_bool_decide; [apply preserves_ret, _|].
  case_bool_decide; [apply preserves_ret, _|].
  apply (write_back_promotes _ c); [done|]. intros Hp. by rewrite <- Es, Ev.
Qed.

Lemma ResetVMStaticIPSpecOnPrimary_promotes K c : preserves (promotes K) (ResetVMStaticIPSpecOnPrimary c).
Proof.
  unfold ResetVMStaticIPSpecOnPrimary. apply preserves_bind; [apply _|promotes|]. intros d.
  destruct (negb _); [promotes|].
  apply find_promotes; [intros e; destruct (IsNotFound e); promotes|].
  intros mw w Ek Es. destruct (ExtractVRGFromManifestWork mw) as [v|e] eqn:Ev; [|apply preserves_ret, _].
  apply Extract_primary in Ev.
  assert (Hv : ∀ v', vsp_ReplicationState (vrg_Spec v') = vsp_ReplicationState (vrg_Spec v) →
               isVRGPrimary v' = true → primary_on w c = true)
    by (unfold isVRGPrimary in *; intros v' ->; congruence).
  case_bool_decide.
  - destruct (setStaticIPTranslationSpec v None) as [b v'] eqn:E. destruct b; simpl; [|reflexivity].
    apply (write_back_promotes _ c); [done|]. apply Hv.
    revert E. unfold setStaticIPTranslationSpec. case_bool_decide; [done|]. by intros [= <-].
  - case_bool_decide; [apply preserves_ret, _|]. case_bool_decide; [apply preserves_ret, _|].
    apply (write_back_promotes _ c); [done|]. by apply Hv.
Qed.

Lemma updateVSRGSpec_promotes K c v : preserves (promotes K) (updateVSRGSpec c v).
Proof.
  unfold updateVSRGSpec. apply (find_promotes K c); [intros e; destruct (IsNotFound e); promotes|].
  intros mw w Ek Es. destruct (ExtractVRGFromManifestWork mw) as [v'|e] eqn:Ev; [|apply preserves_ret, _].
  apply Extract_primary in Ev. cbv zeta.
  apply (write_back_promotes _ c); [done|]. intros Hp. by rewrite <- Es, Ev.
Qed.

Lemma views_promotes K f w : promotes K w (w <| w_vrgs ::= f |>).
Proof. by split. Qed.

Lemma ensureVolSyncReplicationSource_promotes K c : preserves (promotes K) (ensureVolSyncReplicationSource c).
Proof.
  unfold ensureVolSyncReplicationSource, updateSourceVSRG. cbv zeta. promotes.
  - apply preserves_modify. intros. apply views_promotes.
  - apply updateVSRGSpec_promotes.
Qed.

(** ** Creating *)

Lemma CreateOrUpdateVRGManifestWork_sets n ns c v a :
  preserves (sets (c, ManifestWorkName n ns MWTypeVRG) (carries v)) (CreateOrUpdateVRGManifestWork n ns c v a).
Proof.
  unfold CreateOrUpdateVRGManifestWork, generateVRGManifestWork.
  eapply preserves_mono;
    [|apply createOrUpdateManifestWork_sets; unfold newManifestWork, AddLabel; by case_match].
  intros w w'. unfold newManifestWork, AddLabel. cbv zeta.
  match goal with |- context [bool_decide ?P] => destruct (bool_decide P) end;
    apply sets_mono; by intros s -> Hs.
Qed.

Lemma createVRGManifestWork_only c st : preserves (only (eq c)) (createVRGManifestWork c st).
Proof.
  unfold createVRGManifestWork. cbv zeta. onlies.
  eapply preserves_mono; [|apply CreateOrUpdateVRGManifestWork_sets]. intros. by eapply sets_only.
Qed.

Lemma createVRGManifestWorkAsPrimary_only c : preserves (only (eq c)) (createVRGManifestWorkAsPrimary c).
Proof.
  unfold createVRGManifestWorkAsPrimary. onlies;
    [apply updateVRGState_only|apply createVRGManifestWork_only].
Qed.

Lemma EnsureVolSyncReplicationSetup_quiet c : preserves quiet (EnsureVolSyncReplicationSetup c).
Proof. unfold EnsureVolSyncReplicationSetup, IsVolSyncReplicationRequired, getCachedVRG. quiet. Qed.

Lemma refreshVRGSecondarySpec_quiet s d : preserves quiet (refreshVRGSecondarySpec s d).
Proof. unfold refreshVRGSecondarySpec. cbv zeta. quiet. Qed.

Lemma resetRDSpec_state s v :
  vsp_ReplicationState (vrg_Spec (resetRDSpec s v)) = vsp_ReplicationState (vrg_Spec v).
Proof. done. Qed.

Lemma updateMoverConfig_state d v :
  vsp_ReplicationState (vrg_Spec (updateMoverConfig d v)) = vsp_ReplicationState (vrg_Spec v).
Proof. pose proof (updateMoverConfig_kept d v) as E. unfold kept_fields in E. congruence. Qed.

Lemma secondary_spec_state d view src dst v :
  secondary_spec d view src dst = inl v →
  vsp_ReplicationState (vrg_Spec v) = vsp_ReplicationState (vrg_Spec dst).
Proof.
  unfold secondary_spec. cbv zeta. destruct d_drType; repeat case_match; intros; simplify_eq/=;
    by rewrite ?updateMoverConfig_state.
Qed.

Lemma refreshVRGSecondarySpec_secondary s d w v :
  (refreshVRGSecondarySpec s d w).1 = inl v → vsp_ReplicationState (vrg_Spec v) = Secondary.
Proof.
  unfold refreshVRGSecondarySpec. rewrite !run_bind.
  destruct ((gets w_vrgs _).1 !! s); [|done]. rewrite run_bind.
  destruct (getVRGFromManifestWork s _).1; [|done].
  intros Hv%secondary_spec_state. by rewrite newVRG_state in Hv.
Qed.

Lemma createOrUpdateSecondaryManifestWork_promotes K c :
  preserves (promotes K) (createOrUpdateSecondaryManifestWork c).
Proof.
  unfold createOrUpdateSecondaryManifestWork. destruct (find_first _ _) as [dst|]; [|promotes].
  apply preserves_bind; [apply _|promotes|]. intros d.
  apply preserves_bind; [apply _|promotes|]. intros [e|]; [promotes|].
  apply preserves_bind; [apply _|promotes|]. intros [e|]; [promotes|].
  intros w. rewrite run_bind. etransitivity; [apply quiet_promotes, refreshVRGSecondarySpec_quiet|].
  destruct (refreshVRGSecondarySpec c dst w).1 as [v|e] eqn:E; [|apply preserves_ret, _].
  apply refreshVRGSecondarySpec_secondary in E. rewrite run_bind.
  eapply sets_promotes; [|apply CreateOrUpdateVRGManifestWork_sets].
  intros s Hs _ Hp. specialize (Hs Hp). unfold isVRGPrimary in Hs. by rewrite E in Hs.
Qed.
#[local] Hint Resolve createOrUpdateSecondaryManifestWork_promotes
  ensureVolSyncReplicationSource_promotes : promotes.
#[local] Hint Resolve EnsureVolSyncReplicationSetup_quiet : quiet.

Lemma EnsureSecondaryReplicationSetup_promotes K c :
  preserves (promotes K) (EnsureSecondaryReplicationSetup c).
Proof. unfold EnsureSecondaryReplicationSetup. promotes. Qed.
#[local] Hint Resolve EnsureSecondaryReplicationSetup_promotes ensureVRGManifestWork_promotes
  ResetVolSyncRDOnPrimary_promotes ResetVMStaticIPSpecOnPrimary_promotes : promotes.

(** ** Checks of the managed clusters *)

Lemma set_mcvRequestInProgress_quiet b : preserves quiet (set_mcvRequestInProgress b).
Proof. apply preserves_modify. intros w. by apply quiet_intro. Qed.

Lemma viewVRG_quiet c : preserves quiet (viewVRG c).
Proof. unfold viewVRG. quiet. Qed.
#[local] Hint Resolve set_mcvRequestInProgress_quiet viewVRG_quiet : quiet.

Lemma ensureVRGIsSecondaryOnCluster_quiet c : preserves quiet (ensureVRGIsSecondaryOnCluster c).
Proof. unfold ensureVRGIsSecondaryOnCluster. quiet. Qed.

Lemma ensureDataProtectedOnCluster_quiet c : preserves quiet (ensureDataProtectedOnCluster c).
Proof. unfold ensureDataProtectedOnCluster. quiet. Qed.

Lemma all_clusters_quiet check skip cs :
  (∀ c, preserves quiet (check c)) → preserves quiet (all_clusters check skip cs).
Proof. intros Hc. induction cs as [|c cs IH]; simpl; quiet. Qed.

Lemma ensureVRGIsSecondaryEverywhere_quiet skip : preserves quiet (ensureVRGIsSecondaryEverywhere skip).
Proof. apply all_clusters_quiet, ensureVRGIsSecondaryOnCluster_quiet. Qed.

Lemma ensureDataProtected_quiet skip : preserves quiet (ensureDataProtected skip).
Proof. apply all_clusters_quiet, ensureDataProtectedOnCluster_quiet. Qed.
#[local] Hint Resolve ensureVRGIsSecondaryOnCluster_quiet ensureVRGIsSecondaryEverywhere_quiet
  ensureDataProtected_quiet : quiet.

Lemma move_to_secondary_promotes K cs : preserves (promotes K) (move_to_secondary cs).
Proof. induction cs as [|c cs IH]; simpl; promotes. Qed.
#[local] Hint Resolve move_to_secondary_promotes : promotes.

(** ** Cleanup *)

Lemma cleanupSecondary_promotes K c skip : preserves (promotes K) (cleanupSecondary c skip).
Proof. unfold cleanupSecondary, getCachedVRG. promotes. Qed.
#[local] Hint Resolve cleanupSecondary_promotes : promotes.

Lemma cleanup_peers_promotes K skip cs : preserves (promotes K) (cleanup_peers skip cs).
Proof. induction cs as [|c cs IH]; simpl; promotes. Qed.
#[local] Hint Resolve cleanup_peers_promotes : promotes.

Lemma delete_annotation_quiet k :
  preserves quiet (modify_drpc (λ d, d <| drpc_Meta ::= λ m, m <| om_Annotations ::= delete k |> |>)).
Proof. by apply modify_drpc_quiet. Qed.
#[local] Hint Resolve delete_annotation_quiet : quiet.

Lemma cleanupSecondaries_promotes K skip : preserves (promotes K) (cleanupSecondaries skip).
Proof. unfold cleanupSecondaries. promotes. Qed.
#[local] Hint Resolve cleanupSecondaries_promotes : promotes.

Lemma EnsureCleanup_promotes K skip : preserves (promotes K) (EnsureCleanup skip).
Proof. unfold EnsureCleanup, status. promotes. Qed.
#[local] Hint Resolve EnsureCleanup_promotes : promotes.

Lemma ensureCleanupAndSecondaryReplicationSetup_promotes K c :
  preserves (promotes K) (ensureCleanupAndSecondaryReplicationSetup c).
Proof. unfold ensureCleanupAndSecondaryReplicationSetup, getCachedVRG. promotes. Qed.
#[local] Hint Resolve ensureCleanupAndSecondaryReplicationSetup_promotes : promotes.

Lemma ensureActionTransition_promotes K c : preserves (promotes K) (ensureActionTransition c).
Proof. unfold ensureActionTransition. promotes. Qed.
End promotions.

#[export] Hint Resolve EnsureVolSyncReplicationSetup_quiet refreshVRGSecondarySpec_quiet
  set_mcvRequestInProgress_quiet viewVRG_quiet ensureVRGIsSecondaryOnCluster_quiet
  ensureVRGIsSecondaryEverywhere_quiet ensureDataProtected_quiet delete_annotation_quiet : quiet.
#[export] Hint Resolve ensureVRGManifestWork_promotes ResetVolSyncRDOnPrimary_promotes
  ResetVMStaticIPSpecOnPrimary_promotes EnsureSecondaryReplicationSetup_promotes
  move_to_secondary_promotes cleanupSecondary_promotes cleanupSecondaries_promotes
  EnsureCleanup_promotes ensureCleanupAndSecondaryReplicationSetup_promotes
  ensureActionTransition_promotes : promotes.
#[export] Hint Resolve createVRGManifestWork_only createVRGManifestWorkAsPrimary_only
  updateVRGState_only : only.
