(* ===== verification/Safety.v ===== *)
(** * When a VRG becomes primary

    The orchestrator's central promise: a cluster's VRG ManifestWork turns primary
    only for the cluster an action targets, and only once what the action requires
    was seen — secondaries and protected data everywhere else for a relocation, a
    fenced home cluster or active maintenance modes for a failover, no other
    primary for an initial deployment. *)

From Stdlib Require Import ZArith.
From S2P Require Import Prelude Meta Names Conditions Api Events Telemetry Hub.
From S2P Require Import ManifestWorks Placement VRGBuild DRPCStatus DRPCWorks DRPCVolSync DRPC Frames.
From S2P Require Import Scenario.

(** ** Justified promotions

    [justified P]: a VRG ManifestWork that turns primary between two states does so
    for a reason [P] about the two.  [P] must survive widening the interval. *)

Section justified.
Context `{DRPCInstance}.
Context (P : World → World → string → Prop).

Definition justified (w w' : World) : Prop :=
  base w w' ∧
  (in_sync w → ∀ c, primary_on w c = false → primary_on w' c = true → P w w' c).

Definition stretchable : Prop :=
  ∀ w0 w w' w1 c, in_sync w0 → base w0 w → base w' w1 → P w w' c → P w0 w1 c.

Lemma justified_preorder : stretchable → PreOrder justified.
Proof.
  intros HP. split; [intros w; split; [reflexivity|congruence]|].
  intros u v w [B1 J1] [B2 J2]. split; [by etransitivity|]. intros Hs c Hu Hw.
  destruct (primary_on v c) eqn:Hv.
  - eapply HP; [done|reflexivity|exact B2|by apply J1].
  - eapply HP; [done|exact B1|reflexivity|]. apply J2; [by apply B1|done..].
Qed.

Lemma promotes_justified w w' : promotes (λ _, False) w w' → justified w w'.
Proof. intros [B Hp]. split; [done|]. intros _ c Hc Hc'. apply Hp in Hc'; [congruence|auto]. Qed.
End justified.

(** ** Observations of managed clusters *)

Section observations.
Context `{Env} `{DRPCInstance}.

(** Between the two states, cluster [c] was asked for the DRPC's VRG and the
    answer satisfied [ok]. *)
Definition observed (ok : VolumeReplicationGroup + GoError → bool) (w w' : World) (c : string) : Prop :=
  ∃ t, w_tick w ≤ t < w_tick w' ∧
    ok (env_GetVRGFromManagedCluster t (om_Name (drpc_Meta (w_drpc w))) d_vrgNamespace c) = true.

(** The VRG is secondary at its current generation, or not there at all. *)
Definition secondary_or_gone (r : VolumeReplicationGroup + GoError) : bool :=
  match r with inl v => shows_secondary v | inr e => IsNotFound e end.

Definition data_protected (r : VolumeReplicationGroup + GoError) : bool :=
  match r with inl v => shows_data_protected v | inr _ => false end.

Lemma observed_stretch ok w0 w w' w1 c :
  in_sync w0 → base w0 w → base w' w1 → observed ok w w' c → observed ok w0 w1 c.
Proof.
  intros Hs [T1 B1] [T2 _] (t&Ht&Ho). destruct (B1 Hs) as [_ (_&En&_)].
  exists t. split; [lia|]. by rewrite En.
Qed.

Lemma view_observed (check : string → Op bool) ok c w :
  (∀ w, (check c w).1 = true →
     ok (env_GetVRGFromManagedCluster (w_tick w) (om_Name (drpc_Meta (w_drpc w))) d_vrgNamespace c) = true ∧
     w_tick w < w_tick (check c w).2) →
  (check c w).1 = true → observed ok w (check c w).2 c.
Proof. intros Hc E. apply Hc in E as [??]. exists (w_tick w). split; [lia|done]. Qed.

Lemma ensureVRGIsSecondaryOnCluster_observed c w :
  (ensureVRGIsSecondaryOnCluster c w).1 = true →
  observed secondary_or_gone w (ensureVRGIsSecondaryOnCluster c w).2 c.
Proof.
  apply view_observed. clear w. intros w. unfold ensureVRGIsSecondaryOnCluster, viewVRG.
  rewrite !run_bind. simpl. rewrite ?run_bind. simpl.
  destruct (env_GetVRGFromManagedCluster _ _ _ _) as [v|e]; simpl; [auto with lia|].
  destruct (IsNotFound e); simpl; [auto with lia|done].
Qed.

Lemma ensureDataProtectedOnCluster_observed c w :
  (ensureDataProtectedOnCluster c w).1 = true →
  observed data_protected w (ensureDataProtectedOnCluster c w).2 c.
Proof.
  apply view_observed. clear w. intros w. unfold ensureDataProtectedOnCluster, viewVRG.
  rewrite !run_bind. simpl. rewrite ?run_bind. simpl.
  destruct (env_GetVRGFromManagedCluster _ _ _ _) as [v|e]; simpl; [auto with lia|].
  by destruct (IsNotFound e).
Qed.

(** A loop over the clusters that ends well has seen every one of them. *)
Lemma all_clusters_observed check ok skip cs w :
  (∀ c, preserves quiet (check c)) →
  (∀ c w, (check c w).1 = true → observed ok w (check c w).2 c) →
  in_sync w → (all_clusters check skip cs w).1 = true →
  ∀ c, c ∈ cs → c ≠ skip → observed ok w (all_clusters check skip cs w).2 c.
Proof.
  intros Hq Ho. revert w. induction cs as [|a cs IH]; intros w Hs E c Hc Hne; [set_solver|].
  simpl in *. case_bool_decide as Ea.
  - apply IH; [done|done| |done]. set_solver.
  - rewrite !run_bind in *. pose proof (quiet_base _ _ (Hq a w)) as Bq.
    destruct (check a w).1 eqn:Ea1; [|done].
    pose proof (quiet_base _ _ (all_clusters_quiet check skip cs Hq (check a w).2)) as Bc.
    apply elem_of_cons in Hc as [->|Hc].
    + eapply observed_stretch; [done|reflexivity|exact Bc|by apply Ho].
    + eapply observed_stretch; [done|exact Bq|reflexivity|].
      apply IH; [by apply Bq|done|done|done].
Qed.
End observations.

(** ** Relocation *)

Section relocation.
Context `{Env} `{DRPCInstance}.

(** Everything a relocation to [pref] must have seen: every other cluster of the
    policy secondary (or without a VRG) and with its data protected. *)
Definition relocation_seen (pref : string) (w w' : World) : Prop :=
  ∀ c, c ∈ DRPolicyClusterNames d_drPolicy → c ≠ pref → c ≠ "" →
    observed secondary_or_gone w w' c ∧ observed data_protected w w' c.

Definition relocation_reason (pref : string) (w w' : World) (c : string) : Prop :=
  c = pref ∧ relocation_seen pref w w'.

Lemma relocation_seen_stretch pref w0 w w' w1 :
  in_sync w0 → base w0 w → base w' w1 → relocation_seen pref w w' → relocation_seen pref w0 w1.
Proof.
  intros Hs B1 B2 Ho c Hc Hp He. destruct (Ho c Hc Hp He) as [??].
  split; by eapply observed_stretch.
Qed.

Lemma relocation_reason_stretch pref : stretchable (relocation_reason pref).
Proof. intros w0 w w' w1 c Hs B1 B2 [? Ho]. split; [done|]. by eapply relocation_seen_stretch. Qed.

#[local] Instance relocation_preorder pref : PreOrder (justified (relocation_reason pref)).
Proof. apply justified_preorder, relocation_reason_stretch. Qed.

Lemma make_all_secondary_promotes K c : preserves (promotes K) (make_all_secondary c).
Proof. unfold make_all_secondary, moveVRGToSecondaryEverywhere. promotes. Qed.

Lemma make_all_secondary_observed skip w :
  in_sync w → (make_all_secondary skip w).1 = None →
  ∀ c, c ∈ DRPolicyClusterNames d_drPolicy → c ≠ "" →
    observed secondary_or_gone w (make_all_secondary skip w).2 c.
Proof.
  intros Hs. unfold make_all_secondary. rewrite !run_bind.
  set (w1 := (gets w_drpc w).2).
  match goal with |- context [(moveVRGToSecondaryEverywhere ?x)] => set (w2 := x) end.
  assert (B2 : base w w2).
  { unfold w2. destruct (isDiscoveredApp _); [apply quiet_base, setDiscoveredAppGCProgression_quiet|].
    rewrite run_bind. apply quiet_base, setProgression_quiet. }
  set (w3 := (moveVRGToSecondaryEverywhere w2).2).
  assert (B3 : base w2 w3).
  { unfold w3, moveVRGToSecondaryEverywhere. rewrite run_bind.
    exact (proj1 (move_to_secondary_promotes (λ _, False) _ w2)). }
  destruct (negb _); [done|]. rewrite run_bind.
  destruct (ensureVRGIsSecondaryEverywhere "" w3).1 eqn:E; [|done]. intros _ c Hc He.
  assert (Hs3 : in_sync w3) by (apply B3, B2, Hs).
  eapply observed_stretch; [done|etransitivity; [exact B2|exact B3]|reflexivity|].
  apply (all_clusters_observed ensureVRGIsSecondaryOnCluster); auto.
  - apply ensureVRGIsSecondaryOnCluster_quiet.
  - apply ensureVRGIsSecondaryOnCluster_observed.
Qed.

Lemma setupRelocation_promotes K p : preserves (promotes K) (setupRelocation p).
Proof.
  unfold setupRelocation. cbv zeta. promotes. apply make_all_secondary_promotes.
Qed.

(** Setting up a relocation succeeds only after everything was seen. *)
Lemma setupRelocation_seen p w :
  in_sync w → (setupRelocation p w).1 = None → relocation_seen p w (setupRelocation p w).2.
Proof.
  intros Hs. unfold setupRelocation. cbv zeta. rewrite !run_bind.
  set (w1 := (ensureVRGIsSecondaryEverywhere p w).2).
  pose proof (quiet_base _ _ (ensureVRGIsSecondaryEverywhere_quiet p w)) as B1. fold w1 in B1.
  destruct ((if (ensureVRGIsSecondaryEverywhere p w).1 then mret None else make_all_secondary p) w1)
    as [err w2] eqn:E2. simpl.
  destruct err; [done|]. rewrite run_bind.
  pose proof (quiet_base _ _ (ensureDataProtected_quiet p w2)) as B3.
  destruct (ensureDataProtected p w2).1 eqn:E3; [|done]. intros _.
  assert (B2 : base w1 w2 ∧ ∀ c, c ∈ DRPolicyClusterNames d_drPolicy → c ≠ p → c ≠ "" →
            observed secondary_or_gone w w2 c).
  { destruct (ensureVRGIsSecondaryEverywhere p w).1 eqn:E1.
    - injection E2 as <-. split; [reflexivity|]. intros c Hc Hp _.
      apply (all_clusters_observed ensureVRGIsSecondaryOnCluster); auto;
        [apply ensureVRGIsSecondaryOnCluster_quiet|apply ensureVRGIsSecondaryOnCluster_observed].
    - pose proof (make_all_secondary_promotes (λ _, False) p w1) as [Bm _].
      rewrite E2 in Bm. split; [exact Bm|]. intros c Hc _ He.
      pose proof (make_all_secondary_observed p w1 (proj1 (proj2 B1 Hs))) as Ho.
      rewrite E2 in Ho. simpl in Ho.
      eapply observed_stretch; [done|exact B1|reflexivity|by apply Ho]. }
  destruct B2 as [B2 Ho]. intros c Hc Hp He. split.
  - eapply observed_stretch; [done|reflexivity|exact B3|by apply Ho].
  - assert (B12 : base w w2) by (by etransitivity).
    eapply observed_stretch; [done|exact B12|reflexivity|].
    apply (all_clusters_observed ensureDataProtectedOnCluster); auto;
      [apply ensureDataProtectedOnCluster_quiet|apply ensureDataProtectedOnCluster_observed|by apply B12].
Qed.

Lemma switchToCluster_only c ns : preserves (only (eq c)) (switchToCluster c ns).
Proof. unfold switchToCluster. onlies. Qed.

Lemma relocate_justified p ns st : preserves (justified (relocation_reason p)) (relocate p ns st).
Proof.
  unfold relocate.
  assert (Q : ∀ A (m : Op A), preserves quiet m → preserves (justified (relocation_reason p)) m).
  { intros A m. apply preserves_mono. intros. by apply promotes_justified, quiet_promotes. }
  apply preserves_bind; [apply _|apply Q, setDRState_quiet|intros _].
  apply preserves_bind; [apply _|apply Q, setAvailable_quiet|intros _].
  apply preserves_bind; [apply _|apply Q, setCondition_quiet|intros _].
  intros w. rewrite run_bind. pose proof (setupRelocation_promotes (λ _, False) p w) as Hp.
  set (w1 := (setupRelocation p w).2) in *.
  destruct (setupRelocation p w).1 as [e|] eqn:E1.
  - etransitivity; [by apply promotes_justified|]. apply (Q _ _). quiet.
  - rewrite run_bind. pose proof (only_promotes _ _ _ (switchToCluster_only p ns w1)) as Hsw.
    set (w2 := (switchToCluster p ns w1).2) in *.
    assert (J : justified (relocation_reason p) w w2).
    { split; [etransitivity; [apply Hp|apply Hsw]|]. intros Hs c Hc Hc'.
      assert (c = p) as ->.
      { destruct (decide (p = c)) as [->|Hne]; [done|].
        apply Hsw in Hc'; [|done]. apply Hp in Hc'; [congruence|auto]. }
      split; [done|]. eapply relocation_seen_stretch; [done|reflexivity|apply Hsw|].
      by apply setupRelocation_seen. }
    etransitivity; [exact J|].
    destruct (switchToCluster p ns w1).1; apply (Q _ _); quiet.
Qed.
End relocation.

(** ** The other methods' frames *)

Section more_frames.
Context `{Env} `{DRPCInstance}.

Lemma waitsForConsensus_quiet : preserves quiet waitsForConsensus.
Proof.
  unfold waitsForConsensus, isGlobalActionInConsensus, setGlobalActionCondition. cbv zeta. quiet.
Qed.

Lemma dryRunReadyToFailover_quiet : preserves quiet dryRunReadyToFailover.
Proof. unfold dryRunReadyToFailover, isProtected, isGroupSyncLagging, status. quiet. Qed.

Lemma isValidFailoverTarget_quiet c : preserves quiet (isValidFailoverTarget c).
Proof. unfold isValidFailoverTarget. quiet. Qed.

Lemma mwExistsAndPlacementUpdated_quiet c : preserves quiet (mwExistsAndPlacementUpdated c).
Proof. unfold mwExistsAndPlacementUpdated. quiet. Qed.

Lemma validateAndSelectCurrentPrimary_quiet c : preserves quiet (validateAndSelectCurrentPrimary c).
Proof.
  unfold validateAndSelectCurrentPrimary, areMultipleVRGsPrimary, selectCurrentPrimaryAndSecondaries. quiet.
Qed.

Lemma readyToSwitchOver_quiet a b : preserves quiet (readyToSwitchOver a b).
Proof. unfold readyToSwitchOver, isVRGConditionMet, getCachedVRG. quiet. Qed.

Lemma validatePeerReady_quiet : preserves quiet validatePeerReady.
Proof. unfold validatePeerReady, status. quiet. Qed.

Lemma getCurrentHomeClusterName_quiet c l : preserves quiet (getCurrentHomeClusterName c l).
Proof. unfold getCurrentHomeClusterName, status. quiet. Qed.

Lemma last_primary_from_s3_quiet ps n ns v : preserves quiet (last_primary_from_s3 ps n ns v).
Proof. revert v. induction ps as [|p ps IH]; intros v; simpl; quiet. Qed.
#[local] Hint Resolve last_primary_from_s3_quiet : quiet.

Lemma requiresRegionalFailoverPrerequisites_quiet ps n ns vrgs c :
  preserves quiet (requiresRegionalFailoverPrerequisites ps n ns vrgs c).
Proof.
  unfold requiresRegionalFailoverPrerequisites, lastKnownPrimary, getLastKnownPrimaryVRG,
    GetLastKnownVRGPrimaryFromS3. quiet.
Qed.
#[local] Hint Resolve requiresRegionalFailoverPrerequisites_quiet : quiet.

Lemma checkRegionalFailoverPrerequisites_quiet : preserves quiet checkRegionalFailoverPrerequisites.
Proof. unfold checkRegionalFailoverPrerequisites. cbv zeta. quiet. Qed.

Lemma checkMetroFailoverPrerequisites_quiet c : preserves quiet (checkMetroFailoverPrerequisites c).
Proof. unfold checkMetroFailoverPrerequisites. quiet. Qed.
#[local] Hint Resolve checkRegionalFailoverPrerequisites_quiet checkMetroFailoverPrerequisites_quiet : quiet.

Lemma checkFailoverPrerequisites_quiet c : preserves quiet (checkFailoverPrerequisites c).
Proof. unfold checkFailoverPrerequisites. quiet. Qed.

Lemma isDeployed_quiet c : preserves quiet (isDeployed c).
Proof. unfold isDeployed, getCachedVRG. quiet. Qed.

Lemma isUserPlRuleUpdated_quiet c : preserves quiet (isUserPlRuleUpdated c).
Proof. unfold isUserPlRuleUpdated. quiet. Qed.
End more_frames.

#[export] Hint Resolve waitsForConsensus_quiet dryRunReadyToFailover_quiet isValidFailoverTarget_quiet
  mwExistsAndPlacementUpdated_quiet validateAndSelectCurrentPrimary_quiet readyToSwitchOver_quiet
  validatePeerReady_quiet getCurrentHomeClusterName_quiet requiresRegionalFailoverPrerequisites_quiet
  checkRegionalFailoverPrerequisites_quiet checkMetroFailoverPrerequisites_quiet
  checkFailoverPrerequisites_quiet isDeployed_quiet isUserPlRuleUpdated_quiet : quiet.

Section more_promotions.
Context `{Env} `{DRPCInstance} (K : string → Prop).

Lemma requeueAfter_quiet z : preserves quiet (set_requeueAfter z).
Proof. apply preserves_modify. intros w. by apply quiet_intro. Qed.
#[local] Hint Resolve requeueAfter_quiet : quiet.

Lemma quiesceAndRunFinalSync_promotes c : preserves (promotes K) (quiesceAndRunFinalSync c).
Proof.
  unfold quiesceAndRunFinalSync, prepareForFinalSync, runFinalSync, quiesce_placement, getCachedVRG,
    updateVRGToPrepareForFinalSync, updateVRGToRunFinalSync. promotes.
Qed.

Lemma complete_failover_promotes c : preserves (promotes K) (complete_failover c).
Proof. unfold complete_failover, spec. promotes. Qed.

Lemma complete_relocation_promotes c : preserves (promotes K) (complete_relocation c).
Proof. unfold complete_relocation. promotes. Qed.

Lemma complete_deployment_promotes c : preserves (promotes K) (complete_deployment c).
Proof. unfold complete_deployment. promotes. Qed.
End more_promotions.

#[export] Hint Resolve quiesceAndRunFinalSync_promotes complete_failover_promotes
  complete_relocation_promotes complete_deployment_promotes : promotes.
#[export] Hint Resolve requeueAfter_quiet : quiet.

(** Methods that promote nothing are justified, whatever the reason asked for. *)
Ltac justified_solver :=
  first [ solve [auto with promotes nocore]
        | solve [eapply preserves_mono; [intros ??; apply promotes_justified|]; promotes_solver] ].
Ltac justified := repeat preserves_step justified_solver.

Section run_relocate.
Context `{Env} `{DRPCInstance}.
#[local] Existing Instance relocation_preorder.

Lemma start_relocation_justified p c : preserves (justified (relocation_reason p)) (start_relocation p c).
Proof. unfold start_relocation, status. cbv zeta. justified. apply relocate_justified. Qed.

Lemma RunRelocate_justified w :
  justified (relocation_reason (dsp_PreferredCluster (drpc_Spec (w_drpc w)))) w (RunRelocate w).2.
Proof.
  unfold RunRelocate. case_bool_decide; [simpl; reflexivity|]. rewrite run_bind. cbv zeta. simpl.
  assert (G : ∀ p, preserves (justified (relocation_reason p)) (
    r ← validateAndSelectCurrentPrimary p;
    match r with
    | (_, Some e) => setAvailable (error_text e);; mret (false, Some e)
    | (curHomeCluster, None) =>
        relocated ← (if bool_decide (curHomeCluster ≠ "") then vrgExistsAndPrimary p else mret false);
        if (relocated : bool) then complete_relocation p
        else
          setStatusInitiating;;
          waits ← waitsForConsensus;
          if (waits : bool) then mret (false, None) else start_relocation p curHomeCluster
    end)).
  { intros p. justified. apply start_relocation_justified. }
  apply G.
Qed.
End run_relocate.

(** ** Failover *)

Section failover.
Context `{Env} `{DRPCInstance}.

(** The failover cluster can be promoted: its VRG is primary already or secondary
    at its current generation. *)
Definition valid_target (r : VolumeReplicationGroup + GoError) : bool :=
  match r with inl v => isVRGPrimary v || shows_secondary v | inr _ => false end.

(** The failover maintenance mode a protected PVC asks for is active on the
    cluster [dc]. *)
Definition activated (dc : DRCluster) (pvc : ProtectedPVC) : Prop :=
  MModeFailover ∈ idf_Modes (si_ReplicationID (pp_StorageIdentifiers pvc)) →
  ∃ si, activation_key si = activation_key (pp_StorageIdentifiers pvc) ∧
    checkActivationForStorageIdentifier (dct_MaintenanceModes (dc_Status dc)) si
      MModeConditionFailoverActivated = true.

(** The prerequisites of a failover to [fc] were found met from state [w] on,
    before any ManifestWork or placement was touched. *)
Definition prerequisites_met (fc : string) (w : World) : Prop :=
  match d_drType with
  | DRTypeSync =>
      ∃ w1, quiet w w1 ∧
        let home := (getCurrentHomeClusterName fc d_drClusters w1).1 in
        home ≠ "" ∧ checkClusterFenced home d_drClusters = (true, None)
  | DRTypeAsync =>
      ∀ dc, find_first (λ c, bool_decide (om_Name (dc_Meta c) = fc)) d_drClusters = Some dc →
      ∃ w1, quiet w w1 ∧
        ∀ vrg, (lastKnownPrimary [dcs_S3ProfileName (dc_Spec dc)] (om_Name (drpc_Meta (w_drpc w1)))
                  d_vrgNamespace (w_vrgs w1) fc w1).1 = Some vrg →
        ∀ pvc, pvc ∈ vst_ProtectedPVCs (vrg_Status vrg) → activated dc pvc
  end.

Lemma prerequisites_met_quiet fc w w' : quiet w w' → prerequisites_met fc w' → prerequisites_met fc w.
Proof.
  unfold prerequisites_met. intros Hq. destruct d_drType.
  - intros (w1&?&?). exists w1. split; [by etransitivity|done].
  - intros Hp dc Hdc. destruct (Hp dc Hdc) as (w1&?&?). exists w1. split; [by etransitivity|done].
Qed.

Lemma activations_required_spec pvcs pvc :
  pvc ∈ pvcs → MModeFailover ∈ idf_Modes (si_ReplicationID (pp_StorageIdentifiers pvc)) →
  ∃ si, activations_required pvcs !! activation_key (pp_StorageIdentifiers pvc) = Some si ∧
        activation_key si = activation_key (pp_StorageIdentifiers pvc).
Proof.
  intros Hp Hm. unfold activations_required.
  match goal with |- context [foldl ?f] => set (step := f) end.
  assert (Keep : ∀ l acc k si, acc !! k = Some si → foldl step acc l !! k = Some si).
  { induction l as [|q l IH]; intros acc k si E; [done|]. simpl. apply IH. unfold step.
    case_bool_decide; [done|]. destruct (negb _); [done|].
    destruct (acc !! activation_key _) eqn:Ek; [done|].
    rewrite lookup_insert_ne; [done|]. congruence. }
  assert (Inv : ∀ l acc, (∀ k si, acc !! k = Some si → activation_key si = k) →
            ∀ k si, foldl step acc l !! k = Some si → activation_key si = k).
  { induction l as [|q l IH]; intros acc Ha; [done|]. simpl. apply IH. unfold step.
    case_bool_decide; [done|]. destruct (negb _); [done|].
    destruct (acc !! activation_key _) eqn:Ek; [done|].
    intros k si. rewrite lookup_insert_Some. naive_solver. }
  apply list_elem_of_split in Hp as (l1&l2&->). rewrite foldl_app. simpl.
  set (acc := foldl step ∅ l1).
  assert (is_Some (step acc pvc !! activation_key (pp_StorageIdentifiers pvc))) as [si Es].
  { unfold step. rewrite bool_decide_eq_false_2 by (intros E; rewrite E in Hm; set_solver).
    rewrite (bool_decide_eq_true_2 (_ ∈ _)) by done. simpl.
    destruct (acc !! _) eqn:Ek; [by rewrite Ek|]. rewrite lookup_insert_eq. eauto. }
  apply (Keep l2) in Es. exists si. split; [done|].
  apply (Inv (l1 ++ pvc :: l2) ∅); [by intros ??; rewrite lookup_empty|].
  by rewrite foldl_app.
Qed.

Lemma checkRegional_met w :
  (checkRegionalFailoverPrerequisites w).1 = true → d_drType = DRTypeAsync →
  prerequisites_met (dsp_FailoverCluster (drpc_Spec (w_drpc w))) w.
Proof.
  unfold prerequisites_met. intros E ->. intros dc Hdc. revert E.
  unfold checkRegionalFailoverPrerequisites. rewrite !run_bind. cbv zeta.
  set (w1 := (setProgression _ w).2).
  assert (Q1 : quiet w w1) by apply setProgression_quiet.
  change ((gets w_drpc w1).1) with (w_drpc w1). change ((gets w_drpc w1).2) with w1.
  assert (Es : drpc_Spec (w_drpc w1) = drpc_Spec (w_drpc w)).
  { unfold w1, setProgression, status. rewrite run_bind. simpl. by destruct (negb _) || case_match. }
  rewrite Es, Hdc, !run_bind. cbn [gets fst snd].
  unfold requiresRegionalFailoverPrerequisites. rewrite run_bind. simpl.
  destruct (lastKnownPrimary _ _ _ _ _ w1).1 as [vrg|] eqn:El; simpl.
  - intros E. exists w1. split; [done|]. rewrite El. intros vrg' [= <-] pvc Hp Hm.
    destruct (activations_required_spec _ pvc Hp Hm) as (si&Hsi&Ek).
    exists si. split; [done|]. rewrite bool_decide_eq_true_2 in E by (intros E0; by rewrite E0 in Hsi).
    unfold checkFailoverMaintenanceActivations in E. rewrite forallb_forall in E.
    apply (E (activation_key (pp_StorageIdentifiers pvc), si)).
    by apply list_elem_of_In, elem_of_map_to_list.
  - intros _. exists w1. split; [done|]. by rewrite El.
Qed.

Lemma checkFailoverPrerequisites_met home w :
  (checkFailoverPrerequisites home w).1 = (true, None) →
  match d_drType with
  | DRTypeSync => checkClusterFenced home d_drClusters = (true, None)
  | DRTypeAsync => (checkRegionalFailoverPrerequisites w).1 = true
  end.
Proof.
  unfold checkFailoverPrerequisites. rewrite run_bind. destruct d_drType.
  - unfold checkMetroFailoverPrerequisites. rewrite run_bind. simpl.
    destruct (checkClusterFenced home d_drClusters) as [[] [e|]]; try done; rewrite !run_bind; done.
  - rewrite run_bind. simpl. destruct (checkRegionalFailoverPrerequisites w).1; [done|].
    rewrite !run_bind. done.
Qed.

(** What has to hold of a state [w] reached quietly from [w0] and a run of [m]
    from it: only the failover cluster turns primary, prerequisites met. *)
Definition failover_justified (fc : string) {A} (m : Op A) : Prop :=
  ∀ w0 w, quiet w0 w → in_sync w0 → dsp_FailoverCluster (drpc_Spec (w_drpc w0)) = fc →
    ∀ c, primary_on w0 c = false → primary_on (m w).2 c = true → c = fc ∧ prerequisites_met fc w0.

Lemma failover_justified_bind {A B} fc (m : Op A) (f : A → Op B) :
  preserves quiet m → (∀ a, failover_justified fc (f a)) → failover_justified fc (m ≫= f).
Proof. intros Hm Hf w0 w Hq. rewrite run_bind. apply Hf. etransitivity; [exact Hq|apply Hm]. Qed.

Lemma same_spec w0 w : in_sync w0 → base w0 w → drpc_Spec (w_drpc w0) = drpc_Spec (w_drpc w).
Proof. intros Hs [_ B]. by destruct (B Hs) as [_ [? _]]. Qed.

Lemma failover_justified_drpc {B} fc (f : DRPlacementControl → Op B) :
  (∀ d, dsp_FailoverCluster (drpc_Spec d) = fc → failover_justified fc (f d)) →
  failover_justified fc (d ← gets w_drpc; f d).
Proof.
  intros Hf w0 w Hq Hs Efc. rewrite run_bind. simpl. apply Hf; try done.
  by rewrite <- (same_spec w0 w Hs (quiet_base _ _ Hq)).
Qed.

Lemma failover_justified_promotes {A} fc (m : Op A) :
  preserves (promotes (λ _, False)) m → failover_justified fc m.
Proof.
  intros Hm w0 w Hq Hs _ c Hc Hc'. exfalso. apply (proj2 (Hm w)) in Hc'; [|auto].
  rewrite (quiet_primary_on _ _ _ Hq) in Hc'. congruence.
Qed.

Lemma failover_justified_quiet {A} fc (m : Op A) : preserves quiet m → failover_justified fc m.
Proof. intros Hm. apply failover_justified_promotes. eapply preserves_mono, Hm. apply quiet_promotes. Qed.

(** From met prerequisites on: retaining, switching and the bookkeeping after. *)
Lemma switch_justified fc w0 w (m : Op Done) :
  quiet w0 w → prerequisites_met fc w0 → preserves (promotes (eq fc)) m →
  ∀ c, primary_on w0 c = false → primary_on (m w).2 c = true → c = fc ∧ prerequisites_met fc w0.
Proof.
  intros Hq Hp Hm c Hc Hc'. split; [|done].
  destruct (decide (fc = c)) as [->|Hne]; [done|]. exfalso.
  apply (proj2 (Hm w)) in Hc'; [|done]. rewrite (quiet_primary_on _ _ _ Hq) in Hc'. congruence.
Qed.

Lemma switchToFailoverCluster_justified fc : failover_justified fc switchToFailoverCluster.
Proof.
  unfold switchToFailoverCluster.
  apply failover_justified_bind; [quiet|intros _].
  apply failover_justified_bind; [quiet|intros _].
  apply failover_justified_drpc. intros d Ed. cbv zeta. rewrite Ed.
  apply failover_justified_bind; [quiet|intros _].
  apply failover_justified_bind; [quiet|intros _].
  intros w0 w Hq Hs Efc. rewrite run_bind.
  set (w1 := (getCurrentHomeClusterName fc d_drClusters w).2).
  assert (Q1 : quiet w0 w1) by (etransitivity; [exact Hq|apply getCurrentHomeClusterName_quiet]).
  destruct (getCurrentHomeClusterName fc d_drClusters w).1 as [|ch home'] eqn:Eh.
  { rewrite bool_decide_eq_true_2 by done.
    apply (failover_justified_quiet fc _); [|exact Q1|exact Hs|exact Efc]. unfold status. quiet. }
  rewrite bool_decide_eq_false_2 by done. rewrite run_bind.
  set (home := String ch home') in *. set (w2 := (checkFailoverPrerequisites home w1).2).
  assert (Q2 : quiet w0 w2) by (etransitivity; [exact Q1|apply checkFailoverPrerequisites_quiet]).
  destruct (checkFailoverPrerequisites home w1).1 as [met err] eqn:Er.
  destruct err as [e|]; [by apply (failover_justified_quiet fc _); [quiet|..]|].
  destruct met; [|by apply (failover_justified_quiet fc _); [quiet|..]].
  apply switch_justified; [exact Q2| |].
  - apply checkFailoverPrerequisites_met in Er. unfold prerequisites_met.
    destruct d_drType eqn:Ety.
    + exists w. rewrite Eh. done.
    + intros dc. pose proof (checkRegional_met w1 Er Ety) as Hp.
      apply (prerequisites_met_quiet _ w0) in Hp; [|done]. unfold prerequisites_met in Hp. rewrite Ety in Hp.
      rewrite <- (same_spec w0 w1 Hs (quiet_base _ _ Q1)), Efc in Hp. apply Hp.
  - promotes. eapply preserves_mono, switchToCluster_only. apply only_promotes.
Qed.

Lemma start_failover_justified fc c dry : failover_justified fc (start_failover c dry).
Proof.
  unfold start_failover.
  apply failover_justified_bind; [quiet|]. intros [].
  { apply failover_justified_promotes. promotes. }
  apply failover_justified_bind; [quiet|]. intros r. case_match; [by apply failover_justified_quiet; quiet|].
  apply failover_justified_bind; [quiet|]. intros []; [by apply failover_justified_quiet; quiet|].
  apply failover_justified_bind; [quiet|]. intros _.
  apply failover_justified_bind; [quiet|]. intros []; [by apply failover_justified_quiet; quiet|].
  apply switchToFailoverCluster_justified.
Qed.

Lemma switchToFailoverCluster_base : preserves (promotes (λ _, True)) switchToFailoverCluster.
Proof.
  unfold switchToFailoverCluster, status. promotes.
  eapply preserves_mono, switchToCluster_only. intros w w' [B _]. split; [done|]. naive_solver.
Qed.

Lemma start_failover_base c dry : preserves (promotes (λ _, True)) (start_failover c dry).
Proof. unfold start_failover. promotes. apply switchToFailoverCluster_base. Qed.

(** A failover goes past its first check only if the target was seen valid. *)
Lemma isValidFailoverTarget_observed c w :
  (isValidFailoverTarget c w).1.1 = true → observed valid_target w (isValidFailoverTarget c w).2 c.
Proof.
  intros E. exists (w_tick w). revert E. unfold isValidFailoverTarget, viewVRG.
  rewrite !run_bind. simpl. unfold valid_target.
  destruct (env_GetVRGFromManagedCluster _ _ _ _) as [v|e]; simpl; [|done].
  destruct (isVRGPrimary v); simpl; [auto with lia|]. destruct (shows_secondary v); simpl; [auto with lia|done].
Qed.

(** What a promotion during a failover rests on. *)
Lemma RunFailover_justified w c :
  in_sync w → primary_on w c = false → primary_on (RunFailover w).2 c = true →
  let fc := dsp_FailoverCluster (drpc_Spec (w_drpc w)) in
  c = fc ∧ observed valid_target w (RunFailover w).2 fc ∧ prerequisites_met fc w.
Proof.
  intros Hs. unfold RunFailover. rewrite run_bind. cbv zeta. simpl.
  set (fc := dsp_FailoverCluster _). set (dry := dsp_DryRun _).
  assert (No : ∀ A (m : Op A) w', preserves quiet m → quiet w w' → primary_on w c = false →
            primary_on (m w').2 c = true → False).
  { intros A m w' Hm Hq Hc Hc'. rewrite (quiet_primary_on w) in Hc'; [congruence|].
    etransitivity; [exact Hq|apply Hm]. }
  case_bool_decide.
  { intros Hc Hc'. exfalso. eapply No; [|reflexivity|exact Hc|exact Hc']. quiet. }
  rewrite run_bind. set (w1 := (isValidFailoverTarget fc w).2).
  pose proof (isValidFailoverTarget_observed fc w) as Ho. fold w1 in Ho.
  assert (Q1 : quiet w w1) by apply isValidFailoverTarget_quiet.
  destruct (isValidFailoverTarget fc w).1 as [[] cerr]; intros Hc Hc'.
  - destruct (start_failover_justified fc fc dry w w1 Q1 Hs eq_refl c Hc Hc') as [-> Hp].
    split_and!; [done| |done]. eapply observed_stretch; [done|reflexivity| |by apply Ho].
    apply (start_failover_base fc dry w1).
  - exfalso. eapply No; [|exact Q1|exact Hc|exact Hc']. quiet.
Qed.
End failover.

(** ** Initial deployment *)

Section deployment.
Context `{Env} `{DRPCInstance}.

(** What a promotion during an initial deployment rests on: the cached views show
    a VRG on the preferred cluster, or no primary anywhere else. *)
Definition deployable (home : string) (w : World) : Prop :=
  is_Some (w_vrgs w !! home) ∨
  ∀ c v, c ≠ home → w_vrgs w !! c = Some v → isVRGPrimary v = false.

Lemma isVRGAlreadyDeployedElsewhere_none home w :
  (isVRGAlreadyDeployedElsewhere home w).1 = None →
  ∀ c v, c ≠ home → w_vrgs w !! c = Some v → isVRGPrimary v = false.
Proof.
  unfold isVRGAlreadyDeployedElsewhere, range_vrgs. rewrite !run_bind. simpl.
  intros E c v Hc Hv. apply fmap_None in E. rewrite find_first_None in E.
  assert (Hin : (c, v) ∈ env_range (w_tick w) (w_vrgs w))
    by (rewrite env_range_perm; by apply elem_of_map_to_list).
  apply E in Hin. simpl in Hin. by rewrite bool_decide_eq_false_2 in Hin.
Qed.

Lemma isDeployed_not_elsewhere home w :
  let r := (isDeployed home w).1 in
  r.1 && negb (bool_decide (r.2 = home)) = false → deployable home w.
Proof.
  unfold isDeployed, getCachedVRG. rewrite run_bind. simpl.
  destruct (w_vrgs w !! home) as [v|] eqn:Ev; [left; by rewrite Ev|]. rewrite run_bind.
  destruct (isVRGAlreadyDeployedElsewhere home w).1 as [c|] eqn:E; simpl.
  - intros Hb. right. exfalso. rewrite bool_decide_eq_false_2 in Hb; [done|]. intros ->.
    revert E. unfold isVRGAlreadyDeployedElsewhere, range_vrgs. rewrite !run_bind. simpl.
    destruct (find_first _ _) as [[c v]|] eqn:Ef; [|done]. intros [= ->].
    apply find_first_Some in Ef as [_ Hp]. by rewrite bd_refl in Hp.
  - intros _. right. by apply isVRGAlreadyDeployedElsewhere_none.
Qed.

Lemma place_deployment_placing c ns : preserves placing (place_deployment c ns).
Proof.
  unfold place_deployment. placing. apply (preserves_mono _ _ _ quiet_placing). by apply modify_drpc_quiet.
Qed.
#[local] Hint Resolve place_deployment_placing : placing.

Lemma startDeploying_only c ns : preserves (only (eq c)) (startDeploying c ns).
Proof. unfold startDeploying. onlies. Qed.

Definition deployment_reason (w w' : World) (c : string) : Prop :=
  let home := dsp_PreferredCluster (drpc_Spec (w_drpc w)) in
  c = home ∧ home ≠ "" ∧ deployable home w.

Lemma RunInitialDeployment_justified w c :
  primary_on w c = false → primary_on (RunInitialDeployment w).2 c = true →
  deployment_reason w (RunInitialDeployment w).2 c.
Proof.
  unfold RunInitialDeployment, deployment_reason, getHomeClusterForInitialDeploy.
  rewrite run_bind. cbv zeta. simpl. set (home := dsp_PreferredCluster _).
  assert (No : ∀ A (m : Op A) w', preserves (promotes (λ _, False)) m → quiet w w' →
            primary_on w c = false → primary_on (m w').2 c = true → False).
  { intros A m w' Hm Hq Hc Hc'. apply (proj2 (Hm w')) in Hc'; [|auto].
    rewrite (quiet_primary_on _ _ _ Hq) in Hc'. congruence. }
  destruct (decide (home = "")) as [Eh|Hh].
  { rewrite bool_decide_eq_false_2 by tauto. simpl. intros Hc Hc'. exfalso.
    eapply No; [|reflexivity|exact Hc|exact Hc']. promotes. }
  rewrite bool_decide_eq_true_2 by done. simpl. rewrite bool_decide_eq_false_2 by done. rewrite run_bind.
  pose proof (isDeployed_not_elsewhere home w) as Hd. cbv zeta in Hd.
  pose proof (isDeployed_quiet home w) as Q1. set (w1 := (isDeployed home w).2) in *.
  destruct (isDeployed home w).1 as [deployed cn]. simpl in Hd.
  destruct (deployed && negb (bool_decide (cn = home))).
  { intros Hc Hc'. exfalso. eapply No; [|exact Q1|exact Hc|exact Hc']. promotes. }
  specialize (Hd eq_refl). intros Hc Hc'. split; [|done].
  destruct (decide (home = c)) as [|Hne]; [done|exfalso].
  match type of Hc' with primary_on (?m w1).2 _ = true =>
    assert (Hm : preserves (promotes (eq home)) m) end.
  { promotes. eapply preserves_mono, startDeploying_only. apply only_promotes. }
  apply (proj2 (Hm w1)) in Hc'; [|done]. rewrite (quiet_primary_on _ _ _ Q1) in Hc'. congruence.
Qed.
End deployment.

(** ** The theorems *)

Section promotions.
Context `{Env} `{DRPCInstance}.

(** C1: a relocation turns a cluster's VRG ManifestWork primary only on the
    preferred cluster, and only after every other cluster of the policy was seen,
    during this very reconcile, with a VRG that is secondary at its current
    generation (or no VRG) and with its data protected at its current generation.
    So no relocation ever creates a second primary next to one that is still
    replicating. *)
Theorem relocation_promotes_safely w c :
  in_sync w → primary_on w c = false → primary_on (RunRelocate w).2 c = true →
  c = dsp_PreferredCluster (drpc_Spec (w_drpc w)) ∧
  ∀ c', c' ∈ DRPolicyClusterNames d_drPolicy → c' ≠ c → c' ≠ "" →
    observed secondary_or_gone w (RunRelocate w).2 c' ∧ observed data_protected w (RunRelocate w).2 c'.
Proof.
  intros Hs Hc Hc'. destruct (RunRelocate_justified w) as [_ J].
  destruct (J Hs c Hc Hc') as [-> Ho]. split; [done|]. intros c' ???. by apply Ho.
Qed.

(** C2: a failover turns a cluster's VRG ManifestWork primary only on the failover
    cluster, and only after that cluster was seen, during this very reconcile, with
    a VRG that is primary or secondary at its current generation, and with the
    failover's prerequisites met: under a synchronous policy the current home
    cluster is known and fenced; under an asynchronous one every protected PVC of
    the last known primary that asks for a failover maintenance mode has one
    activated on the failover cluster. *)
Theorem failover_promotes_safely w c :
  in_sync w → primary_on w c = false → primary_on (RunFailover w).2 c = true →
  let fc := dsp_FailoverCluster (drpc_Spec (w_drpc w)) in
  c = fc ∧ observed valid_target w (RunFailover w).2 fc ∧ prerequisites_met fc w.
Proof. apply RunFailover_justified. Qed.

(** C3: an initial deployment turns a cluster's VRG ManifestWork primary only on the
    preferred cluster, which must be set, and only if the views fetched for this
    reconcile show a VRG there or no primary VRG on any other cluster. *)
Theorem deployment_promotes_safely w c :
  primary_on w c = false → primary_on (RunInitialDeployment w).2 c = true →
  let home := dsp_PreferredCluster (drpc_Spec (w_drpc w)) in
  c = home ∧ home ≠ "" ∧
  (is_Some (w_vrgs w !! home) ∨
   ∀ c' v, c' ≠ home → w_vrgs w !! c' = Some v → isVRGPrimary v = false).
Proof. apply RunInitialDeployment_justified. Qed.

(** whatever the action, executing it turns at most one cluster's VRG ManifestWork
    primary. *)
Theorem one_promotion_per_reconcile w c1 c2 :
  in_sync w →
  primary_on w c1 = false → primary_on (executeAction w).2 c1 = true →
  primary_on w c2 = false → primary_on (executeAction w).2 c2 = true → c1 = c2.
Proof.
  intros Hs. unfold executeAction. rewrite run_bind. simpl. destruct (dsp_Action _); intros A1 A2 B1 B2.
  - apply RunInitialDeployment_justified in A2 as [-> _]; [|done].
    by apply RunInitialDeployment_justified in B2 as [-> _].
  - apply RunFailover_justified in A2 as [-> _]; [|done..].
    by apply RunFailover_justified in B2 as [-> _].
  - destruct (RunRelocate_justified w) as [_ J].
    destruct (J Hs c1 A1 A2) as [-> _]. by destruct (J Hs c2 B1 B2) as [-> _].
Qed.
End promotions.

(** A relocation to east that gets to promote it: both clusters show secondary. *)
Module RelocationCase.
#[export] Instance env : Env := calm (shown all_secondary).
#[export] Instance inst : DRPCInstance := instance DRTypeAsync ConditionFalse.
Definition start : World := hub (drpc ActionRelocate false) all_secondary "".
End RelocationCase.

Lemma relocation_promotes_safely_witness :
  let w := RelocationCase.start in
  @observed RelocationCase.env RelocationCase.inst secondary_or_gone w (@RunRelocate RelocationCase.env RelocationCase.inst w).2 "west".
Proof.
  apply (@relocation_promotes_safely RelocationCase.env RelocationCase.inst RelocationCase.start "east");
    [done|by vm_compute..|apply list_elem_of_further, list_elem_of_here|done|done].
Defined.

Lemma one_promotion_per_reconcile_witness :
  @primary_on RelocationCase.inst (@executeAction RelocationCase.env RelocationCase.inst RelocationCase.start).2
    "east" = true ∧
  ∀ c, @primary_on RelocationCase.inst RelocationCase.start c = false →
    @primary_on RelocationCase.inst (@executeAction RelocationCase.env RelocationCase.inst RelocationCase.start).2 c = true →
    c = "east".
Proof.
  split; [vm_compute; reflexivity|]. intros c Hc Hc'.
  apply (@one_promotion_per_reconcile RelocationCase.env RelocationCase.inst RelocationCase.start);
    [repeat split|exact Hc|exact Hc'|vm_compute; reflexivity..].
Defined.

(** A failover from a fenced east to west. *)
Module FailoverCase.
#[export] Instance env : Env := calm (shown home_east).
#[export] Instance inst : DRPCInstance := instance DRTypeSync ConditionTrue.
Definition start : World := hub (drpc ActionFailover false) home_east "east".
End FailoverCase.

Lemma failover_promotes_safely_witness :
  @prerequisites_met FailoverCase.env FailoverCase.inst "west" FailoverCase.start.
Proof.
  apply (@failover_promotes_safely FailoverCase.env FailoverCase.inst FailoverCase.start "west");
    [done|by vm_compute..].
Defined.

(** A first deployment to east. *)
Module DeploymentCase.
#[export] Instance env : Env := calm (shown ∅).
#[export] Instance inst : DRPCInstance := instance DRTypeSync ConditionFalse.
Definition start : World := hub (drpc ActionNone false) ∅ "".
End DeploymentCase.

Lemma deployment_promotes_safely_witness :
  @primary_on DeploymentCase.inst (@RunInitialDeployment DeploymentCase.env DeploymentCase.inst DeploymentCase.start).2 "east" = true ∧
  "east" = dsp_PreferredCluster (drpc_Spec (w_drpc DeploymentCase.start)).
Proof.
  split; [by vm_compute|].
  apply (@deployment_promotes_safely DeploymentCase.env DeploymentCase.inst DeploymentCase.start "east");
    by vm_compute.
Defined.
