(* ===== verification/ActionSpec.v ===== *)
(** Theorems about the actions of a DRPC: the final sync of a relocation, the test
    failover, the clean-up of the peers, and the writes of a VRG ManifestWork. *)

From S2P Require Import Prelude Meta Names Conditions Api Events Telemetry Hub ManifestWorks Scenario Placement.
From S2P Require Import VRGBuild DRPCStatus DRPCWorks DRPCVolSync DRPC Frames Safety.

(** * The final sync of a relocation

    Before a relocation takes the application away from its home cluster, the
    home's VRG must report its data ready and protected and its final sync
    complete.  Nothing is demoted or promoted before that. *)

(** ** Methods that leave every VRG in its replication state *)

Section steady.
Context `{Env} `{DRPCInstance}.

Definition steady (w w' : World) : Prop :=
  base w w' ∧ w_vrgs w' = w_vrgs w ∧ ∀ c, primary_on w' c = primary_on w c.

#[export] Instance steady_preorder : PreOrder steady.
Proof.
  split; [intros w; by split_and!|].
  intros u v w (?&?&Hv) (?&?&Hw). split_and!; [by etransitivity|congruence|]. intros c. by rewrite Hw, Hv.
Qed.

Lemma placing_steady w w' : placing w w' → steady w w'.
Proof. intros (?&E&?). split_and!; try done. intros c. unfold primary_on. by rewrite E. Qed.

Lemma quiet_steady w w' : quiet w w' → steady w w'.
Proof. intros. by apply placing_steady, quiet_placing. Qed.

(** Writing back a VRG in the state its ManifestWork has. *)
Lemma updateManifestWork_steady c v w :
  (∃ v0, (getVRGFromManifestWork c w).1 = inl v0) → isVRGPrimary v = primary_on w c →
  steady w (updateManifestWork c v w).2.
Proof.
  intros [v0 E0] Ev. unfold updateManifestWork. rewrite run_bind.
  pose proof (FindManifestWorkByType_quiet MWTypeVRG c w) as Hq.
  etransitivity; [apply quiet_steady, Hq|].
  revert E0. unfold getVRGFromManifestWork. rewrite run_bind. simpl.
  destruct (FindManifestWorkByType MWTypeVRG c w).1 as [mw|e] eqn:E; [|done]. intros E0.
  apply FindVRG_found in E as [Ek Es]. set (w1 := (FindManifestWorkByType MWTypeVRG c w).2) in *.
  pose proof (Update_mw_sets (set_manifest0 (MVRG v) mw) w1) as (B&Ev'&Ho&Hk).
  split_and!; [done|done|]. intros c'. unfold primary_on at 1.
  destruct (decide (c' = c)) as [->|Hne].
  - change (mw_key (set_manifest0 (MVRG v) mw)) with (mw_key mw) in Hk. rewrite Ek in Hk.
    destruct Hk as [->|(m&->&->)]; [done|]. rewrite (quiet_primary_on _ _ _ Hq), <- Ev.
    revert E0. unfold ExtractVRGFromManifestWork, spec_primary, set_manifest0. simpl.
    by destruct (mws_Manifests (mw_Spec mw)).
  - rewrite Ho; [done|]. change (mw_key (set_manifest0 (MVRG v) mw)) with (mw_key mw). congruence.
Qed.

Lemma update_final_sync_steady c already p r : preserves steady (update_final_sync c already p r).
Proof.
  intros w. unfold update_final_sync. rewrite run_bind.
  pose proof (getVRGFromManifestWork_quiet c w) as Hq. etransitivity; [apply quiet_steady, Hq|].
  destruct (getVRGFromManifestWork c w).1 as [v|e] eqn:E; [|apply preserves_ret, _].
  destruct (already v); [apply preserves_ret, _|]. rewrite !run_bind. simpl.
  (* a failed second read writes nothing *)
  set (w1 := (getVRGFromManifestWork c w).2) in *. set (v' := updateVRGOptionalFields _ _ _ _ _).
  destruct (getVRGFromManifestWork c w1).1 as [v1|e] eqn:E1.
  - apply updateManifestWork_steady; [by exists v1|].
    rewrite (quiet_primary_on _ _ _ Hq), (getVRGFromManifestWork_found _ _ _ E).
    unfold v', isVRGPrimary. by rewrite updateVRGOptionalFields_state.
  - revert E1. unfold getVRGFromManifestWork, updateManifestWork. rewrite !run_bind. simpl.
    destruct (FindManifestWorkByType MWTypeVRG c w1).1 as [mw|e'] eqn:Ef.
    + apply FindManifestWork_found in Ef as (_&m1&Em1&Es1). intros Ex. exfalso.
      revert E. unfold getVRGFromManifestWork. rewrite run_bind. simpl.
      destruct (FindManifestWorkByType MWTypeVRG c w).1 as [mw0|] eqn:Ef0; [|done].
      apply FindManifestWork_found in Ef0 as (_&m0&Em0&Es0).
      destruct Hq as (_&Emw&_). rewrite Emw in Em1. rewrite Em0 in Em1. injection Em1 as <-.
      unfold ExtractVRGFromManifestWork in *. rewrite Es0. rewrite Es1 in Ex. destruct (mws_Manifests _); congruence.
    + intros _. apply quiet_steady. etransitivity; [apply FindManifestWorkByType_quiet|].
      apply preserves_ret, _.
Qed.
End steady.

Ltac steady_solver :=
  first [ solve [apply update_final_sync_steady]
        | solve [apply (preserves_mono _ _ _ quiet_steady); auto with quiet nocore]
        | solve [apply (preserves_mono _ _ _ placing_steady); auto with placing nocore] ].
Ltac steadies := repeat preserves_step steady_solver.

Section final_sync.
Context `{Env} `{DRPCInstance}.

Lemma quiesceAndRunFinalSync_steady c : preserves steady (quiesceAndRunFinalSync c).
Proof.
  unfold quiesceAndRunFinalSync, prepareForFinalSync, runFinalSync, quiesce_placement, getCachedVRG,
    updateVRGToPrepareForFinalSync, updateVRGToRunFinalSync. steadies.
Qed.

(** The home's view has everything a relocation away from it waits for. *)
Definition ready_to_leave (v : VolumeReplicationGroup) : Prop :=
  vst_PrepareForFinalSyncComplete (vrg_Status v) = true ∧
  vst_FinalSyncComplete (vrg_Status v) = true ∧
  vrg_condition_met (Some v) VRGConditionTypeDataReady = true ∧
  vrg_condition_met (Some v) VRGConditionTypeClusterDataProtected = true.

Lemma quiesceAndRunFinalSync_done c v w :
  w_vrgs w !! c = Some v → (quiesceAndRunFinalSync c w).1 = (true, None) →
  vst_PrepareForFinalSyncComplete (vrg_Status v) = true ∧ vst_FinalSyncComplete (vrg_Status v) = true.
Proof.
  intros Ev. unfold quiesceAndRunFinalSync. rewrite run_bind.
  unfold prepareForFinalSync at 1 2. unfold getCachedVRG at 1 2. rewrite !run_bind. simpl. rewrite Ev.
  destruct (vst_PrepareForFinalSyncComplete (vrg_Status v)); simpl.
  - rewrite run_bind.
    assert (P : placing w (quiesce_placement c w).2).
    { revert w Ev. intros w _. unfold quiesce_placement.
      assert (G : preserves placing (quiesce_placement c)) by (unfold quiesce_placement; placing). apply G. }
    set (w1 := (quiesce_placement c w).2) in *. destruct P as (_&_&P).
    destruct (quiesce_placement c w).1; [done|]. rewrite run_bind.
    unfold runFinalSync at 1 2. unfold getCachedVRG. rewrite !run_bind. simpl. rewrite P, Ev.
    destruct (vst_FinalSyncComplete (vrg_Status v)); simpl; [done|].
    rewrite run_bind. simpl. destruct (updateVRGToRunFinalSync c w1).1; [done|]. by rewrite !run_bind.
  - rewrite run_bind. simpl. destruct (updateVRGToPrepareForFinalSync c w).1; [done|]. by rewrite run_bind.
Qed.

(** With one primary view, its cluster is the one selected, in any range order. *)
Definition sole_primary (vrgs : gmap string VolumeReplicationGroup) (home : string) : Prop :=
  (∃ v, vrgs !! home = Some v ∧ isVRGPrimary v = true) ∧
  ∀ c v, vrgs !! c = Some v → isVRGPrimary v = true → c = home.

Lemma selectCurrentPrimary_sole home w :
  sole_primary (w_vrgs w) home → (selectCurrentPrimaryAndSecondaries w).1.1 = home.
Proof.
  intros [(v&Ev&Hp) Hu]. unfold selectCurrentPrimaryAndSecondaries, range_vrgs. rewrite !run_bind. simpl.
  destruct (find_first _ _) as [[c v']|] eqn:E.
  - apply find_first_Some in E as [Hin Hp']. simpl in Hp'. rewrite env_range_perm in Hin.
    apply elem_of_map_to_list in Hin. by eapply Hu.
  - rewrite find_first_None in E. specialize (E (home, v)). simpl in E.
    rewrite E in Hp; [done|]. rewrite env_range_perm. by apply elem_of_map_to_list.
Qed.

Lemma validateAndSelectCurrentPrimary_sole p home w :
  sole_primary (w_vrgs w) home →
  (∃ e, (validateAndSelectCurrentPrimary p w).1.2 = Some e) ∨
  (validateAndSelectCurrentPrimary p w).1 = (home, None).
Proof.
  intros Hs. unfold validateAndSelectCurrentPrimary. case_bool_decide; [left; eauto|].
  rewrite run_bind. simpl. case_bool_decide; [left; eauto|]. rewrite run_bind.
  destruct (areMultipleVRGsPrimary w).1; [left; eauto|]. right. rewrite run_bind, run_ret. cbn [fst].
  f_equal. apply selectCurrentPrimary_sole.
  unfold areMultipleVRGsPrimary, range_vrgs. by rewrite !run_bind.
Qed.

Lemma readyToSwitchOver_met home p v w :
  w_vrgs w !! home = Some v → (readyToSwitchOver home p w).1 = true →
  vrg_condition_met (Some v) VRGConditionTypeDataReady = true ∧
  vrg_condition_met (Some v) VRGConditionTypeClusterDataProtected = true.
Proof.
  intros Ev. unfold readyToSwitchOver. cbv zeta.
  match goal with |- context [if ?b then mret false else _] => destruct b end; [done|].
  unfold isVRGConditionMet, getCachedVRG. rewrite !run_bind. simpl. rewrite Ev.
  intros [??]%andb_true_iff. done.
Qed.

(** The start of a relocation away from [home] moves no VRG unless its view is ready. *)
Lemma start_relocation_steady p home v w :
  w_vrgs w !! home = Some v → home ≠ "" → home ≠ p → ¬ ready_to_leave v →
  steady w (start_relocation p home w).2.
Proof.
  intros Ev Hh Hp Hn. unfold start_relocation. cbv zeta.
  rewrite (bool_decide_eq_false_2 (home = "")), (bool_decide_eq_false_2 (home = p)) by done. simpl.
  rewrite run_bind. pose proof (quiet_steady _ _ (readyToSwitchOver_quiet home p w)) as S1.
  etransitivity; [exact S1|].
  pose proof (readyToSwitchOver_met home p v w Ev) as Hr.
  set (w1 := (readyToSwitchOver home p w).2) in *.
  assert (Ev1 : w_vrgs w1 !! home = Some v) by (destruct S1 as (_&->&_); done).
  destruct (readyToSwitchOver home p w).1; simpl.
  2:{ apply quiet_steady. assert (G : ∀ a (r : Done), preserves quiet (setAvailable a;; mret r)) by (intros; quiet).
      apply G. }
  specialize (Hr eq_refl). rewrite run_bind. change ((status w1).2) with w1.
  rewrite run_bind.
  match goal with |- steady _ ((if negb (?m w1).1 then _ else _) _).2 => set (peer := m) end.
  assert (Qp : preserves quiet peer) by (unfold peer; quiet).
  etransitivity; [apply quiet_steady, Qp|].
  assert (Ev2 : w_vrgs (peer w1).2 !! home = Some v).
  { destruct (Qp w1) as (_&_&->&_). done. }
  destruct (peer w1).1; simpl; [|reflexivity]. rewrite run_bind.
  etransitivity; [apply quiesceAndRunFinalSync_steady|].
  pose proof (quiesceAndRunFinalSync_done home v _ Ev2) as Hd.
  destruct (quiesceAndRunFinalSync home (peer w1).2).1 as [[] [e|]]; try (apply preserves_ret, _).
  exfalso. apply Hn. destruct (Hd eq_refl), Hr. by split_and!.
Qed.

(** C7: while the views show one primary VRG, on a cluster other than the preferred
    one, a relocation promotes or demotes no cluster's VRG unless that primary's
    view reports its data ready and its cluster data protected at its current
    generation, and both phases of its final sync complete. *)
Theorem relocation_waits_for_final_sync w home v c :
  sole_primary (w_vrgs w) home → w_vrgs w !! home = Some v → home ≠ "" →
  home ≠ dsp_PreferredCluster (drpc_Spec (w_drpc w)) →
  primary_on (RunRelocate w).2 c ≠ primary_on w c → ready_to_leave v.
Proof.
  intros Hs Ev Hh Hp Hc. destruct (decide (ready_to_leave v)) as [|Hn]; [done|exfalso]. apply Hc.
  assert (steady w (RunRelocate w).2) as (_&_&E); [|apply E]. clear Hc.
  unfold RunRelocate. case_bool_decide; [apply preserves_ret, _|]. rewrite run_bind. cbv zeta. simpl.
  set (p := dsp_PreferredCluster _) in *. rewrite run_bind.
  pose proof (validateAndSelectCurrentPrimary_quiet p w) as Q1.
  etransitivity; [apply quiet_steady, Q1|].
  pose proof (validateAndSelectCurrentPrimary_sole p home w Hs) as Hv.
  destruct (validateAndSelectCurrentPrimary p w).1 as [cur err]. simpl in Hv.
  set (w1 := (validateAndSelectCurrentPrimary p w).2) in *.
  destruct err as [e|].
  { apply quiet_steady. assert (G : ∀ (r : Done), preserves quiet (setAvailable (error_text e);; mret r)) by (intros; quiet).
    apply G. }
  destruct Hv as [[? ?]|[= ->]]; [done|]. rewrite bool_decide_eq_true_2 by done.
  assert (Ew1 : w_vrgs w1 = w_vrgs w) by (by destruct Q1 as (_&_&?&_)).
  rewrite run_bind. unfold vrgExistsAndPrimary, getCachedVRG. rewrite !run_bind. simpl. rewrite Ew1.
  assert ((match w_vrgs w !! p with
           | Some vrg => isVRGPrimary vrg && negb (ResourceIsDeleted (vrg_Meta vrg))
           | None => false end) = false) as ->.
  { destruct (w_vrgs w !! p) as [vp|] eqn:Evp; [|done]. apply andb_false_iff. left.
    destruct (isVRGPrimary vp) eqn:Ep; [|done]. exfalso. apply Hp. symmetry. by eapply (proj2 Hs). }
  rewrite !run_bind. pose proof (setStatusInitiating_quiet w1) as Q2.
  pose proof (waitsForConsensus_quiet (setStatusInitiating w1).2) as Q3.
  set (w3 := (waitsForConsensus (setStatusInitiating w1).2).2) in *.
  assert (Q : quiet w1 w3) by (by etransitivity). etransitivity; [apply quiet_steady, Q|].
  destruct (waitsForConsensus _).1; [apply preserves_ret, _|].
  eapply start_relocation_steady; [|done..]. destruct Q as (_&_&->&_). by rewrite Ew1.
Qed.
End final_sync.

(** A relocation from west to east whose final sync is complete: west is demoted. *)
Module LeavingCase.
#[export] Instance env : Env := calm (shown home_west).
#[export] Instance inst : DRPCInstance := instance DRTypeAsync ConditionFalse.
Definition start : World := hub (drpc ActionRelocate false) home_west "west".
End LeavingCase.

Lemma home_west_sole : sole_primary home_west "west".
Proof.
  split; [by exists as_primary|]. intros c v.
  unfold home_west. rewrite lookup_insert_Some, lookup_singleton_Some. naive_solver.
Qed.

Lemma relocation_waits_for_final_sync_witness : ready_to_leave as_primary.
Proof.
  apply (@relocation_waits_for_final_sync LeavingCase.env LeavingCase.inst LeavingCase.start "west" as_primary "west");
    [apply home_west_sole|reflexivity|discriminate|discriminate|vm_compute; discriminate].
Defined.

(** * The test failover

    A DRPC with [spec.dryRun] rehearses its failover: the failover cluster's VRG is
    promoted while the application keeps running on its home cluster.  The
    theorems here say what such a reconcile leaves alone. *)

(** ** Frames of the methods run on a given spec

    [under Q R]: on a DRPC in sync whose spec satisfies [Q], the state moves along [R]. *)

Definition under (Q : DRPlacementControlSpec → Prop) (R : relation World) : relation World := λ w w',
  base w w' ∧ (in_sync w → Q (drpc_Spec (w_drpc w)) → R w w').

#[export] Instance under_preorder Q R `{!PreOrder R} : PreOrder (under Q R).
Proof.
  split; [intros w; split; [reflexivity|intros; reflexivity]|].
  intros u v w [B1 H1] [B2 H2]. split; [by etransitivity|]. intros Hs Hq.
  etransitivity; [by apply H1|]. apply H2; [by apply B1|]. by rewrite <- (same_spec u v).
Qed.

Section under.
Context `{Env} `{DRPCInstance} (Q : DRPlacementControlSpec → Prop) (R : relation World).

Lemma under_intro {A} (m : Op A) : preserves base m → preserves R m → preserves (under Q R) m.
Proof. intros Hb Hr w. split; [apply Hb|]. intros. apply Hr. Qed.

(** Reading the spec: the continuation may assume [Q] of it. *)
Lemma under_spec {A} (f : DRPlacementControlSpec → Op A) :
  (∀ s, preserves base (f s)) → (∀ s, Q s → preserves R (f s)) → preserves (under Q R) (spec ≫= f).
Proof.
  intros Hb Hr w. unfold spec. rewrite run_bind. simpl. split; [apply Hb|]. intros _ Hq. by apply Hr.
Qed.

Lemma under_spec' {A} (f : DRPlacementControlSpec → Op A) :
  (∀ s, preserves base (f s)) → (∀ s, Q s → preserves (under Q R) (f s)) →
  preserves (under Q R) (spec ≫= f).
Proof.
  intros Hb Hr w. unfold spec. rewrite run_bind. simpl. split; [apply Hb|].
  intros Hs Hq. by apply (Hr _ Hq w).
Qed.

Lemma under_drpc {A} (f : DRPlacementControl → Op A) :
  (∀ d, preserves base (f d)) → (∀ d, Q (drpc_Spec d) → preserves (under Q R) (f d)) →
  preserves (under Q R) (gets w_drpc ≫= f).
Proof.
  intros Hb Hr w. rewrite run_bind. simpl. split; [apply Hb|]. intros Hs Hq. by apply (Hr _ Hq w).
Qed.
End under.

Lemma promotes_base `{DRPCInstance} K w w' : promotes K w w' → base w w'.
Proof. by intros [? _]. Qed.

Lemma only_base `{DRPCInstance} K w w' : only K w w' → base w w'.
Proof. by intros [? _]. Qed.

Section dry_run.
Context `{Env} `{DRPCInstance}.

Lemma ensureVRGManifestWork_only c : preserves (only (eq c)) (ensureVRGManifestWork c).
Proof.
  intros w. unfold ensureVRGManifestWork. rewrite run_bind.
  etransitivity; [apply quiet_only, FindManifestWorkByType_quiet|].
  destruct (FindManifestWorkByType MWTypeVRG c w).1 as [mw|e] eqn:E;
    [|destruct (IsNotFound e); apply preserves_ret, _].
  apply FindVRG_found in E as [Ek _]. destruct (ExtractVRGFromManifestWork mw); [|apply preserves_ret, _].
  case_bool_decide; [apply preserves_ret, _|]. rewrite !run_bind. simpl.
  destruct (w_vrgs _ !! c); [|apply preserves_ret, _]. by apply write_back_only.
Qed.

(** The specs of a test failover to [fc]. *)
Definition testing (fc : string) (s : DRPlacementControlSpec) : Prop :=
  dsp_DryRun s = true ∧ dsp_FailoverCluster s = fc.

Definition test_only (fc : string) : relation World := under (testing fc) (only (eq fc)).

Lemma only_test fc {A} (m : Op A) : preserves (only (eq fc)) m → preserves (test_only fc) m.
Proof. intros Hm. apply under_intro; [|done]. eapply preserves_mono, Hm. apply only_base. Qed.

Lemma quiet_test fc {A} (m : Op A) : preserves quiet m → preserves (test_only fc) m.
Proof. intros Hm. apply only_test. eapply preserves_mono, Hm. apply quiet_only. Qed.

Lemma placing_test fc {A} (m : Op A) : preserves placing m → preserves (test_only fc) m.
Proof. intros Hm. apply only_test. eapply preserves_mono, Hm. apply placing_only. Qed.

Lemma promotes_base' {A} (m : Op A) : preserves (promotes (λ _, False)) m → preserves base m.
Proof. apply preserves_mono, promotes_base. Qed.
End dry_run.

Ltac test_solver :=
  first [ solve [apply quiet_test; auto with quiet nocore]
        | solve [apply placing_test; auto with placing nocore]
        | solve [apply only_test; auto with only nocore] ].
Ltac testing := repeat preserves_step test_solver.

Section test_failover.
Context `{Env} `{DRPCInstance}.
#[local] Hint Resolve ensureVRGManifestWork_only : only.

Lemma complete_failover_test fc : preserves (test_only fc) (complete_failover fc).
Proof.
  unfold complete_failover.
  do 3 (apply preserves_bind; [apply _|testing|intros]). case_match; [testing|].
  apply preserves_bind; [apply _|testing|]. intros []; simpl; [|testing].
  apply preserves_bind; [apply _|testing|intros].
  apply under_spec'.
  - intros s. apply promotes_base'. promotes.
  - intros s [-> _]. testing.
Qed.

Lemma switchToFailoverCluster_test fc : preserves (test_only fc) switchToFailoverCluster.
Proof.
  unfold switchToFailoverCluster.
  do 2 (apply preserves_bind; [apply _|testing|intros]).
  apply under_drpc.
  - intros d. cbv zeta. eapply (preserves_mono (promotes (λ _, True))); [apply promotes_base|].
    unfold status. promotes. eapply preserves_mono, switchToCluster_only. intros w w' [B _].
    split; [done|]. naive_solver.
  - intros d [_ ->]. cbv zeta. unfold status. testing. apply only_test, switchToCluster_only.
Qed.

Lemma start_failover_test fc dry : preserves (test_only fc) (start_failover fc dry).
Proof.
  unfold start_failover. testing; [apply complete_failover_test|apply switchToFailoverCluster_test].
Qed.

(** C6: a test failover touches no VRG ManifestWork but the failover cluster's: the
    home cluster's VRG stays exactly as it was, whatever branch the reconcile takes
    and whatever fails in it. *)
Theorem test_failover_isolates w c :
  in_sync w → dsp_DryRun (drpc_Spec (w_drpc w)) = true →
  c ≠ dsp_FailoverCluster (drpc_Spec (w_drpc w)) →
  w_mws (RunFailover w).2 !! (c, vrgMWName) = w_mws w !! (c, vrgMWName).
Proof.
  intros Hs Hd Hc. set (fc := dsp_FailoverCluster _) in *.
  assert (G : test_only fc w (RunFailover w).2).
  { unfold RunFailover. rewrite run_bind. simpl. fold fc. case_bool_decide.
    - assert (T : preserves (test_only fc) (setAvailable "missing value for spec.FailoverCluster";;
        mret (true, errorf "missing value for spec.FailoverCluster"))) by testing. apply T.
    - rewrite run_bind. etransitivity; [apply quiet_test, isValidFailoverTarget_quiet|].
      destruct (isValidFailoverTarget fc w).1 as [[] e]; [apply start_failover_test|].
      cbv zeta. match goal with |- test_only _ _ (?m _).2 => assert (T : preserves (test_only fc) m) by testing end.
      apply T. }
  apply G; [done|done|]. congruence.
Qed.
End test_failover.

(** A test failover to west: it is promoted, east is left alone. *)
Module TestFailoverCase.
Definition protected : DRPlacementControl :=
  drpc ActionFailover true <| drpc_Status ::= λ s, s <| dst_Conditions := [condition ConditionProtected ConditionTrue] |> |>.
#[export] Instance env : Env := calm (shown home_east).
#[export] Instance inst : DRPCInstance := instance DRTypeAsync ConditionFalse.
Definition start : World := hub protected home_east "east".
End TestFailoverCase.

Lemma test_failover_isolates_witness :
  let run := @RunFailover TestFailoverCase.env TestFailoverCase.inst in
  let name := @vrgMWName TestFailoverCase.inst in
  @primary_on TestFailoverCase.inst (run TestFailoverCase.start).2 "west" = true ∧
  w_mws (run TestFailoverCase.start).2 !! ("east", name) = w_mws TestFailoverCase.start !! ("east", name).
Proof.
  split; [by vm_compute|].
  apply (@test_failover_isolates TestFailoverCase.env TestFailoverCase.inst); [repeat split|done|done].
Defined.

(** * Cleanup of the peers

    After an action, the clusters other than the application's home are brought to
    secondary; the DRPC's PeerReady condition turns true only at the end of that. *)

Section cleanup.
Context `{Env} `{DRPCInstance}.

(** A peer that is cleaned up: its ManifestWork asks for no primary, and for an
    action the cluster itself was seen secondary, or without a VRG. *)
Definition peer_clean (w w' : World) (c : string) : Prop :=
  primary_on w' c = false ∧
  (dsp_Action (drpc_Spec (w_drpc w)) ≠ ActionNone → observed secondary_or_gone w w' c).

Lemma peer_clean_stretch w0 w w' w1 c :
  in_sync w0 → base w0 w → promotes (λ _, False) w' w1 → peer_clean w w' c → peer_clean w0 w1 c.
Proof.
  intros Hs B0 P1 [Hp Ho]. split.
  - destruct (primary_on w1 c) eqn:E; [|done]. apply P1 in E; [congruence|auto].
  - rewrite (same_spec w0 w Hs B0). intros Ha. eapply observed_stretch; [done|exact B0|apply P1|auto].
Qed.

Lemma updateVRGState_unchanged c st w :
  (updateVRGState c st w).1 = (false, None) →
  quiet w (updateVRGState c st w).2 ∧ primary_on w c = bool_decide (st = Primary).
Proof.
  unfold updateVRGState. rewrite run_bind. pose proof (getVRGFromManifestWork_quiet c w) as Hq.
  destruct (getVRGFromManifestWork c w).1 as [v|e] eqn:E; [|done].
  case_bool_decide as Es.
  - intros _. split; [exact Hq|]. rewrite (getVRGFromManifestWork_found _ _ _ E).
    unfold isVRGPrimary. by rewrite Es.
  - rewrite !run_bind. destruct (updateManifestWork _ _ _).1; done.
Qed.

Lemma cleanupSecondary_done c skip w :
  in_sync w → (cleanupSecondary c skip w).1 = (true, None) → peer_clean w (cleanupSecondary c skip w).2 c.
Proof.
  intros Hs. unfold cleanupSecondary. rewrite run_bind.
  pose proof (updateVRGState_unchanged c Secondary w) as Hu.
  set (w1 := (updateVRGState c Secondary w).2) in *.
  destruct (updateVRGState c Secondary w).1 as [[] [e|]]; try done.
  - destruct (IsNotFound e); [|done]. rewrite run_bind. by destruct (EnsureSecondaryReplicationSetup skip w1).1.
  - destruct (IsNotFound e); [|done]. rewrite run_bind. by destruct (EnsureSecondaryReplicationSetup skip w1).1.
  - destruct (Hu eq_refl) as [Q1 Hp]. clear Hu.
    assert (Hp1 : primary_on w1 c = false) by (by rewrite (quiet_primary_on _ _ _ Q1)).
    assert (Ea : drpc_Spec (w_drpc w) = drpc_Spec (w_drpc w1)) by (apply same_spec, quiet_base; done).
    unfold getCachedVRG. rewrite !run_bind. cbn [gets fst snd].
    destruct (w_vrgs w1 !! c) as [v|].
    2:{ intros [= Eb]. rewrite bool_decide_eq_true in Eb. split; [done|]. congruence. }
    destruct (_ || _); [done|]. rewrite run_bind.
    pose proof (removeClusterDecisionForFailover_placing c w1) as P2.
    set (w2 := (removeClusterDecisionForFailover c w1).2) in *.
    destruct (removeClusterDecisionForFailover c w1).1; [done|]. rewrite !run_bind.
    match goal with |- context [ensureVRGIsSecondaryOnCluster c ?x] => set (w3 := x) end.
    assert (Q3 : quiet w2 w3).
    { unfold w3. destruct (isDiscoveredApp _); [apply setDiscoveredAppGCProgression_quiet|reflexivity]. }
    intros [= Eo]. apply (peer_clean_stretch w w3 (ensureVRGIsSecondaryOnCluster c w3).2); [done| | |].
    + etransitivity; [apply quiet_base, Q1|]. etransitivity; [apply P2|]. by apply quiet_base.
    + reflexivity.
    + split; [|intros _; by apply ensureVRGIsSecondaryOnCluster_observed].
      rewrite (quiet_primary_on w3) by apply ensureVRGIsSecondaryOnCluster_quiet.
      rewrite (quiet_primary_on _ _ _ Q3). unfold primary_on. destruct P2 as (_&->&_). exact Hp1.
Qed.

Lemma cleanup_peers_done skip cs w :
  in_sync w → (cleanup_peers skip cs w).1 = None →
  ∀ c, c ∈ cs → c ≠ skip → peer_clean w (cleanup_peers skip cs w).2 c.
Proof.
  revert w. induction cs as [|a cs IH]; intros w Hs E c Hc Hne; [set_solver|]. simpl in *.
  case_bool_decide as Ea; [apply IH; set_solver|]. rewrite run_bind in *.
  pose proof (cleanupSecondary_done a skip w Hs) as Hd.
  pose proof (cleanupSecondary_promotes (λ _, False) a skip w) as Pa.
  destruct (cleanupSecondary a skip w).1 as [[] [e|]]; try done.
  apply elem_of_cons in Hc as [->|Hc].
  - eapply peer_clean_stretch; [done|reflexivity|apply cleanup_peers_promotes|auto].
  - eapply peer_clean_stretch; [done|apply Pa|reflexivity|]. apply IH; try done. by apply Pa.
Qed.

(** C8: cleaning up the secondaries succeeds, and so the DRPC's PeerReady condition
    is set, only when no peer's VRG ManifestWork asks for a primary any more; for a
    failover or relocation, besides, every peer was seen during this reconcile with
    a VRG that is secondary at its current generation, or without one. *)
Theorem cleanup_ends_with_clean_peers skip w :
  in_sync w → (cleanupSecondaries skip w).1 = None →
  ∀ c, c ∈ DRPolicyClusterNames d_drPolicy → c ≠ skip →
    primary_on (cleanupSecondaries skip w).2 c = false ∧
    (dsp_Action (drpc_Spec (w_drpc w)) ≠ ActionNone →
     observed secondary_or_gone w (cleanupSecondaries skip w).2 c).
Proof.
  intros Hs E c Hc Hne. enough (G : peer_clean w (cleanupSecondaries skip w).2 c) by exact G.
  revert E. unfold cleanupSecondaries. rewrite run_bind.
  pose proof (cleanup_peers_done skip (DRPolicyClusterNames d_drPolicy) w Hs) as Hd.
  destruct (cleanup_peers skip (DRPolicyClusterNames d_drPolicy) w) as [[e|] w1]; [done|].
  cbn [fst snd] in *. intros _. eapply peer_clean_stretch; [done|reflexivity| |by apply Hd].
  match goal with |- promotes _ _ (?m w1).2 => assert (G : preserves (promotes (λ _, False)) m) by promotes end.
  apply G.
Qed.
End cleanup.

(** The cleanup of east after a failover to west. *)
Module CleanupCase.
#[export] Instance env : Env := calm (shown home_west).
#[export] Instance inst : DRPCInstance := instance DRTypeAsync ConditionFalse.
Definition start : World := hub (drpc ActionFailover false) home_west "west".
End CleanupCase.

Lemma cleanup_ends_with_clean_peers_witness :
  let w' := (@cleanupSecondaries CleanupCase.env CleanupCase.inst "west" CleanupCase.start).2 in
  @observed CleanupCase.env CleanupCase.inst secondary_or_gone CleanupCase.start w' "east".
Proof.
  apply (@cleanup_ends_with_clean_peers CleanupCase.env CleanupCase.inst);
    [repeat split|vm_compute; reflexivity|apply list_elem_of_here|discriminate|discriminate].
Defined.

(** * What the writes of a VRG ManifestWork leave behind

    The functional behaviour, error paths included, of the methods that change a
    VRG in its ManifestWork, and the state of its final-sync and dry-run flags. *)

Section updates.
Context `{Env} `{DRPCInstance}.

(** The VRG a cluster's ManifestWork carries. *)
Definition carried (w : World) (c : string) : option VolumeReplicationGroup :=
  mw ← w_mws w !! (c, vrgMWName);
  match mws_Manifests (mw_Spec mw) with
  | m :: _ => match manifest_as_vrg m with inl v => Some v | inr _ => None end
  | [] => None
  end.

(** Exactly the VRG of [c] is replaced, by [v]. *)
Definition replaces (c : string) (v : VolumeReplicationGroup) (w w' : World) : Prop :=
  carried w' c = Some v ∧ ∀ k, k ≠ (c, vrgMWName) → w_mws w' !! k = w_mws w !! k.

Lemma getVRGFromManifestWork_carried c w v :
  (getVRGFromManifestWork c w).1 = inl v → carried w c = Some v.
Proof.
  unfold getVRGFromManifestWork. rewrite run_bind. simpl.
  destruct (FindManifestWorkByType MWTypeVRG c w).1 as [mw|e] eqn:E; [|done].
  apply FindManifestWork_found in E as (_&m0&Em&Es).
  unfold ExtractVRGFromManifestWork, carried, vrgMWName. rewrite Em. simpl. rewrite <- Es.
  destruct (mws_Manifests (mw_Spec mw)); [done|]. by intros ->.
Qed.

Lemma getVRGFromManifestWork_drpc c w : w_drpc (getVRGFromManifestWork c w).2 = w_drpc w.
Proof.
  unfold getVRGFromManifestWork, FindManifestWorkByType, FindManifestWork.
  rewrite run_bind. simpl. case_bool_decide; [done|]. rewrite run_bind. simpl.
  unfold Get_mw. rewrite run_bind. simpl. by destruct (env_api_err _).
Qed.

Lemma quiet_carried w w' c : quiet w w' → carried w' c = carried w c.
Proof. intros (_&E&_). unfold carried. by rewrite E. Qed.

Lemma Update_mw_result mw w :
  match (Update_mw mw w).1 with
  | Some _ => w_mws (Update_mw mw w).2 = w_mws w
  | None => ∃ m', mw_Spec m' = mw_Spec mw ∧ w_mws (Update_mw mw w).2 = <[mw_key mw := m']> (w_mws w)
  end.
Proof.
  unfold Update_mw. rewrite run_bind. simpl. destruct (env_api_err _); simpl; [done|].
  rewrite run_bind. simpl. destruct (w_mws w !! _) as [old|]; simpl; [|done].
  eexists. split; [|done]. done.
Qed.

Lemma updateManifestWork_result c v w v0 :
  carried w c = Some v0 →
  match (updateManifestWork c v w).1 with
  | Some _ => w_mws (updateManifestWork c v w).2 = w_mws w
  | None => replaces c v w (updateManifestWork c v w).2
  end.
Proof.
  intros Hc. unfold updateManifestWork. rewrite run_bind.
  pose proof (FindManifestWorkByType_quiet MWTypeVRG c w) as (_&Emw&_).
  destruct (FindManifestWorkByType MWTypeVRG c w) as [[mw|e] w1] eqn:E; cbn [fst snd] in *; [|done].
  assert (Ef : (FindManifestWorkByType MWTypeVRG c w).1 = inl mw) by (by rewrite E).
  apply FindManifestWork_found in Ef as (Ek&m0&Em&Es).
  pose proof (Update_mw_result (set_manifest0 (MVRG v) mw) w1) as Hu.
  destruct (Update_mw (set_manifest0 (MVRG v) mw) w1) as [[e|] w2]; cbn [fst snd] in *; [congruence|].
  destruct Hu as (m'&Em'&Ew). change (mw_key (set_manifest0 (MVRG v) mw)) with (mw_key mw) in Ew.
  rewrite Ek, Emw in Ew. split.
  - unfold carried in *. unfold vrgMWName in *. rewrite Ew, lookup_insert_eq. rewrite Em in Hc. simpl in *.
    rewrite Em'. unfold set_manifest0. simpl. rewrite Es.
    by destruct (mws_Manifests (mw_Spec m0)).
  - intros k Hk. rewrite Ew. by rewrite lookup_insert_ne by done.
Qed.

(** [setVRGAction] leaves no dry-run VRG behind a DRPC that is not a dry run. *)
Lemma setVRGAction_dry d v :
  dsp_DryRun (drpc_Spec d) = false → vsp_DryRun (vrg_Spec (setVRGAction d v)) = false.
Proof.
  intros Hd. unfold setVRGAction. rewrite Hd.
  destruct (vsp_DryRun (vrg_Spec v)) eqn:Ev; [rewrite orb_true_r|rewrite orb_false_r];
    repeat case_bool_decide; simpl; try case_bool_decide; done.
Qed.

Lemma dry_kept_after_action d vrgs v view c :
  vsp_DryRun (vrg_Spec (updateVRGOptionalFields d vrgs v view c)) =
  vsp_DryRun (vrg_Spec (setVRGSpecFields d (setVRGAnnotations d v c))).
Proof.
  unfold updateVRGOptionalFields. set (v1 := setVRGSpecFields _ _).
  unfold updateVRGStaticIPTranslationSpec, setStaticIPTranslationSpec. cbv zeta.
  unfold updateMoverConfigIfNeeded, updateMoverConfig, updateVRGDRTypeSpecIfNeeded, updateVRGDRTypeSpec,
    updateVRGAsyncSpec, updateVRGSyncSpec. cbv zeta.
  repeat case_match; done.
Qed.
End updates.

Section states.
Context `{Env} `{DRPCInstance}.

(** What the VRG that [updateVRGState] writes for state [st] is made of. *)
Record state_written (d : DRPlacementControl) (c : string) (st : ReplicationState)
    (v v' : VolumeReplicationGroup) : Prop := {
  sw_state : vsp_ReplicationState (vrg_Spec v') = st;
  (** Demotion, and a promotion by a real failover, withdraw the final-sync requests. *)
  sw_sync : st = Secondary ∨ isFailoverPromotion (drpc_Spec d) c = true →
    vsp_PrepareForFinalSync (vrg_Spec v') = false ∧ vsp_RunFinalSync (vrg_Spec v') = false;
  (** Any other promotion keeps them. *)
  sw_keep : st ≠ Secondary → isFailoverPromotion (drpc_Spec d) c = false →
    vsp_PrepareForFinalSync (vrg_Spec v') = vsp_PrepareForFinalSync (vrg_Spec v) ∧
    vsp_RunFinalSync (vrg_Spec v') = vsp_RunFinalSync (vrg_Spec v);
  sw_dry : dsp_DryRun (drpc_Spec d) = false → vsp_DryRun (vrg_Spec v') = false;
  sw_name : om_Name (vrg_Meta v') = om_Name (vrg_Meta v) ∧ om_Namespace (vrg_Meta v') = om_Namespace (vrg_Meta v);
  sw_volsync : vss_RDSpec (vsp_VolSync (vrg_Spec v')) = vss_RDSpec (vsp_VolSync (vrg_Spec v)) ∧
    vss_RSSpec (vsp_VolSync (vrg_Spec v')) = vss_RSSpec (vsp_VolSync (vrg_Spec v));
}.

Lemma vrg_with_state_written d vrgs c st v : state_written d c st v (vrg_with_state d vrgs c st v).
Proof.
  unfold vrg_with_state. cbv zeta.
  set (v1 := v <| vrg_Spec ::= λ s, s <| vsp_ReplicationState := st |> |>).
  pose proof (updateVRGOptionalFields_kept d vrgs (setVRGAction d v1) (vrgs !! c) c) as Hk.
  rewrite setVRGAction_kept in Hk.
  pose proof (dry_kept_after_action d vrgs (setVRGAction d v1) (vrgs !! c) c) as Hdry.
  set (v2 := updateVRGOptionalFields _ _ _ _ _) in *. unfold kept_fields in Hk.
  injection Hk as ? ? ? ? ? ? ? ? ? ?.
  assert (Hd : dsp_DryRun (drpc_Spec d) = false → vsp_DryRun (vrg_Spec v2) = false).
  { intros Hd. rewrite Hdry. unfold setVRGSpecFields. by apply setVRGAction_dry. }
  destruct (bool_decide (st = Secondary) || _) eqn:Eb; split; simpl; try done.
  - intros Hs Hf. rewrite Hf, orb_false_r in Eb. by apply bool_decide_eq_true in Eb.
  - intros [Hs|Hf]; exfalso; apply orb_false_iff in Eb as [Es Ef]; [|congruence].
    by apply bool_decide_eq_false in Es.
Qed.

(** [updateVRGState] on every path: it reports a change only when it replaced
    the cluster's VRG, and no other ManifestWork, by one in the requested state,
    with the final-sync requests withdrawn or kept as the state calls for, no dry
    run unless the DRPC is one, and name and VolSync specs untouched; it reports no
    change and no error only when the VRG was in the requested state already; on
    any error nothing is written. *)
Theorem updateVRGState_result c st w :
  let w' := (updateVRGState c st w).2 in
  match (updateVRGState c st w).1 with
  | (true, None) =>
      ∃ v v', carried w c = Some v ∧ vsp_ReplicationState (vrg_Spec v) ≠ st ∧
              replaces c v' w w' ∧ state_written (w_drpc w) c st v v'
  | (false, None) => w_mws w' = w_mws w ∧ ∃ v, carried w c = Some v ∧ vsp_ReplicationState (vrg_Spec v) = st
  | (changed, Some _) => w_mws w' = w_mws w ∧ changed = false
  end.
Proof.
  cbv zeta. unfold updateVRGState. rewrite run_bind.
  pose proof (getVRGFromManifestWork_quiet c w) as Q.
  pose proof (getVRGFromManifestWork_carried c w) as Hc.
  assert (Ed : w_drpc (getVRGFromManifestWork c w).2 = w_drpc w) by apply getVRGFromManifestWork_drpc.
  destruct (getVRGFromManifestWork c w) as [[v|e] w1]; cbn [fst snd] in *.
  2:{ rewrite run_ret. cbn [fst snd]. by destruct Q as (_&->&_). }
  specialize (Hc v eq_refl). case_bool_decide as Es.
  { rewrite run_ret. cbn [fst snd]. split; [by destruct Q as (_&->&_)|]. by exists v. }
  rewrite !run_bind. cbn [gets fst snd].
  rewrite <- (quiet_carried _ _ c Q) in Hc.
  pose proof (updateManifestWork_result c (vrg_with_state (w_drpc w1) (w_vrgs w1) c st v) w1 v Hc) as Hu.
  destruct (updateManifestWork c _ w1) as [[e|] w2]; cbn [fst snd] in *; rewrite run_ret; cbn [fst snd].
  - destruct Q as (_&E&_). by rewrite Hu.
  - eexists v, _. rewrite <- (quiet_carried _ _ c Q). destruct Q as (_&E&_).
    split_and!; [done|done| |rewrite <- Ed; apply vrg_with_state_written].
    destruct Hu as [Hu Ho]. split; [exact Hu|]. intros k Hk. by rewrite Ho, E.
Qed.
End states.
