(* ===== verification/HubRecovery.v ===== *)
(** * Rebuilding a DRPC's state

    internal/controller/drplacementcontrol_controller.go, from [getVRGsFromManagedClusters]
    and [selectVRGNamespace] to [determineDRPCState], the adoption of VRGs and
    [ensureDRPCStatusConsistency]: what a hub that knows nothing of a DRPC, after
    its creation or the recovery of the hub, concludes from the managed clusters and
    the object stores before it lets an action continue. *)

From Stdlib Require Import ZArith.
From S2P Require Import Prelude Meta Names Conditions Api PeerClasses Events Telemetry.
From S2P Require Import Hub ManifestWorks Placement VRGBuild DRPCStatus DRPCWorks DRPC.
From stdpp Require Import pretty.

Definition DRPCAppNamespace : string := "drplacementcontrol.ramendr.openshift.io/app-namespace".

(** ** Argo CD ApplicationSets (internal/controller/argocd) *)

(** A generator nested in a matrix or merge: its clusterDecisionResource's labels. *)
Record NestedGenerator := mkNestedGenerator { ng_ClusterDecisionResource : option (gmap string string) }.

Record ApplicationSetGenerator := mkApplicationSetGenerator {
  gen_ClusterDecisionResource : option (gmap string string);
  gen_Matrix : option (list NestedGenerator);
  gen_Merge : option (list NestedGenerator);
}.

Record ApplicationSet := mkApplicationSet {
  as_Namespace : string;
  as_Generators : list ApplicationSetGenerator;
  as_DestinationNamespace : string;
}.

Definition resource_matches (labels : option (gmap string string)) (placementName : string) : bool :=
  match labels with
  | Some l => bool_decide (map_get l PlacementLabel = placementName)
  | None => false
  end.

Definition NestedGeneratorsMatchPlacement (gens : list NestedGenerator) (placementName : string) : bool :=
  existsb (λ g, resource_matches (ng_ClusterDecisionResource g) placementName) gens.

Definition AppSetGeneratorMatchesPlacement (gen : ApplicationSetGenerator) (placementName : string) : bool :=
  resource_matches (gen_ClusterDecisionResource gen) placementName ||
  match gen_Matrix gen with Some l => NestedGeneratorsMatchPlacement l placementName | None => false end ||
  match gen_Merge gen with Some l => NestedGeneratorsMatchPlacement l placementName | None => false end.

(** ** Reads of the hub *)

(** What the API server answers to the reads below: the ApplicationSets ([None]: the
    kind is not installed), a DRCluster, a DRPolicy. *)
Class HubReads := {
  env_list_appsets : nat → option (list ApplicationSet) + GoError;
  env_get_drcluster : nat → string → DRCluster + GoError;
  env_get_drpolicy : nat → string → DRPolicy + GoError;
}.

Inductive Progress := Continue | AllowFailover | Stop.
#[export] Instance Progress_eq : EqDecision Progress.
Proof. solve_decision. Defined.

Section recovery.
Context `{Env} `{HubReads}.

Definition getApplicationDestinationNamespace (placement : ObjectMeta) : Op (string + GoError) :=
  t ← tick;
  mret (match env_list_appsets t with
        | inr e => inr (Errorf ("ApplicationSet list: " +:+ error_text e) (Some e))
        | inl None => inl (om_Namespace placement)
        | inl (Some l) =>
            match find_first (λ a, bool_decide (as_Namespace a = om_Namespace placement) &&
                     existsb (λ g, AppSetGeneratorMatchesPlacement g (om_Name placement)) (as_Generators a)) l with
            | Some a => inl (as_DestinationNamespace a)
            | None => inl (om_Namespace placement)
            end
        end).

Definition selectVRGNamespace (drpc : DRPlacementControl) (placementObj : UserPlacement)
    : Op (string + GoError) :=
  let ns := map_get (om_Annotations (drpc_Meta drpc)) DRPCAppNamespace in
  if bool_decide (ns ≠ "") then mret (inl ns)
  else match placementObj with
       | Placement m => getApplicationDestinationNamespace m
       | _ => mret (inl (om_Namespace (drpc_Meta drpc)))
       end.

Fixpoint get_drclusters (names : list string) : Op (list DRCluster + GoError) :=
  match names with
  | [] => mret (inl [])
  | n :: ns =>
      t ← tick;
      match env_get_drcluster t n with
      | inr e => mret (inr (Errorf ("failed to get DRCluster (" +:+ n +:+ ") " +:+ error_text e) (Some e)))
      | inl c => r ← get_drclusters ns; mret (match r with inl cs => inl (c :: cs) | inr e => inr e end)
      end
  end.
Definition GetDRClusters (drPolicy : DRPolicy) : Op (list DRCluster + GoError) :=
  get_drclusters (DRPolicyClusterNames drPolicy).

(** ** The VRGs of a DRPC *)

(** What the loop has gathered: views, clusters that answered, the last that failed. *)
Record Gathered := mkGathered {
  ga_vrgs : gmap string VolumeReplicationGroup;
  ga_queried : nat;
  ga_failedCluster : string;
}.

(** One round: the cluster's answer to the query. *)
Definition gather (g : Gathered) (c : DRCluster) (answer : VolumeReplicationGroup + GoError) : Gathered :=
  match answer with
  | inr e => if IsNotFound e then mkGathered (ga_vrgs g) (S (ga_queried g)) (ga_failedCluster g)
             else mkGathered (ga_vrgs g) (ga_queried g) (om_Name (dc_Meta c))
  | inl vrg =>
      if ResourceIsDeleted (dc_Meta c)
      then mkGathered (ga_vrgs g) (S (ga_queried g)) (ga_failedCluster g)
      else mkGathered (<[om_Name (dc_Meta c) := vrg]> (ga_vrgs g)) (S (ga_queried g)) (ga_failedCluster g)
  end.

Fixpoint gather_all (drpcName vrgNamespace : string) (g : Gathered) (cs : list DRCluster) : Op Gathered :=
  match cs with
  | [] => mret g
  | c :: cs' =>
      r ← GetVRGFromManagedCluster drpcName vrgNamespace (om_Name (dc_Meta c));
      gather_all drpcName vrgNamespace (gather g c r) cs'
  end.

Definition getVRGsFromManagedClusters (drpc : DRPlacementControl) (drClusters : list DRCluster)
    (vrgNamespace : string)
    : Op (gmap string VolumeReplicationGroup * nat * string * option GoError) :=
  g ← gather_all (om_Name (drpc_Meta drpc)) vrgNamespace (mkGathered ∅ 0 "") drClusters;
  mret (if bool_decide (ga_queried g = length drClusters) then (ga_vrgs g, ga_queried g, "", None)
        else if bool_decide (ga_queried g = 0)
        then (ga_vrgs g, 0, "", errorf "failed to retrieve VRGs from clusters")
        else (ga_vrgs g, ga_queried g, ga_failedCluster g, None)).

(** ** Adoption *)

Definition annotations_from_hub : list string :=
  [DestinationClusterAnnotationKey; IsCGEnabledAnnotation; IsSubmarinerEnabledAnnotation;
   UseVolSyncAnnotation; EnableDiffAnnotation; DRPCUIDAnnotation].

Definition constructVRGFromView (viewVRG : VolumeReplicationGroup) : VolumeReplicationGroup :=
  mkVolumeReplicationGroup "VolumeReplicationGroup" "ramendr.openshift.io/v1alpha1"
    (named_meta (om_Name (vrg_Meta viewVRG)) (om_Namespace (vrg_Meta viewVRG))
       <| om_Annotations := filter (λ kv, kv.1 ∈ annotations_from_hub) (om_Annotations (vrg_Meta viewVRG)) |>)
    (vrg_Spec viewVRG) zero_vrgstatus.

Definition with_uid (drpc : DRPlacementControl) (vrg : VolumeReplicationGroup) : VolumeReplicationGroup :=
  vrg <| vrg_Meta ::= λ m, m <| om_Annotations ::= <[DRPCUIDAnnotation := om_UID (drpc_Meta drpc)]> |> |>.

Definition has_uid (drpc : DRPlacementControl) (vrg : VolumeReplicationGroup) : bool :=
  bool_decide (om_Annotations (vrg_Meta vrg) !! DRPCUIDAnnotation = Some (om_UID (drpc_Meta drpc))).

Definition adoptExistingVRGManifestWork (vrg : VolumeReplicationGroup) (cluster : string)
    (drpc : DRPlacementControl) (vrgNamespace : string) : Op unit :=
  if has_uid drpc vrg then mret ()
  else
    CreateOrUpdateVRGManifestWork (om_Name (drpc_Meta drpc)) vrgNamespace cluster (with_uid drpc vrg)
      (drpcAnnotations drpc);;
    mret ().

Definition adoptOrphanVRG (viewVRG : VolumeReplicationGroup) (cluster : string)
    (drpc : DRPlacementControl) (vrgNamespace : string) : Op unit :=
  r ← CreateOrUpdateNamespaceManifestWork (om_Name (drpc_Meta drpc)) vrgNamespace cluster
        (drpcAnnotations drpc) ∅;
  match r.1 with
  | Some _ => mret ()
  | None =>
      CreateOrUpdateVRGManifestWork (om_Name (drpc_Meta drpc)) vrgNamespace cluster
        (with_uid drpc (constructVRGFromView viewVRG)) (drpcAnnotations drpc);;
      mret ()
  end.

Definition adoptVRG (viewVRG : VolumeReplicationGroup) (cluster : string)
    (drpc : DRPlacementControl) (vrgNamespace : string) : Op bool :=
  r ← FindManifestWork (BuildManifestWorkName (om_Name (drpc_Meta drpc)) vrgNamespace MWTypeVRG) cluster;
  match r with
  | inr e =>
      if negb (IsNotFound e) then mret false
      else adoptOrphanVRG viewVRG cluster drpc vrgNamespace;; mret false
  | inl mw =>
      if ResourceIsDeleted (mw_Meta mw) then mret true
      else match ExtractVRGFromManifestWork mw with
           | inr _ => mret false
           | inl vrg => adoptExistingVRGManifestWork vrg cluster drpc vrgNamespace;; mret false
           end
  end.

Fixpoint adopt_all (drpc : DRPlacementControl) (vrgNamespace : string) (ensured : bool)
    (views : list (string * VolumeReplicationGroup)) : Op bool :=
  match views with
  | [] => mret ensured
  | (cluster, viewVRG) :: rest =>
      if ResourceIsDeleted (vrg_Meta viewVRG) then adopt_all drpc vrgNamespace ensured rest
      else if has_uid drpc viewVRG then adopt_all drpc vrgNamespace ensured rest
      else
        adopted ← adoptVRG viewVRG cluster drpc vrgNamespace;
        adopt_all drpc vrgNamespace (ensured && adopted) rest
  end.

Definition ensureVRGsManagedByDRPC (vrgs : gmap string VolumeReplicationGroup) (drpc : DRPlacementControl)
    (vrgNamespace : string) : Op bool :=
  t ← tick; adopt_all drpc vrgNamespace true (env_range t vrgs).

(** ** The decision *)

Definition destination_annotation (vrg : VolumeReplicationGroup) : string :=
  map_get (om_Annotations (vrg_Meta vrg)) DestinationClusterAnnotationKey.

Definition action_matches (drpc : DRPlacementControl) (vrg : VolumeReplicationGroup) : bool :=
  bool_decide (dsp_Action (drpc_Spec drpc) = DRAction_of_VRGAction (vsp_Action (vrg_Spec vrg))).

(** One cluster answered and has no VRG: what the object stores say decides. *)
Definition state_from_s3 (drpc : DRPlacementControl) (drClusters : list DRCluster)
    (vrgNamespace dstCluster failedCluster : string) : Op (Progress * string) :=
  v ← GetLastKnownVRGPrimaryFromS3 (AvailableS3Profiles drClusters) (om_Name (drpc_Meta drpc)) vrgNamespace;
  mret (match v with
        | None =>
            if bool_decide (failedCluster ≠ dstCluster) then (Continue, "")
            else (Stop, "Unable to query all clusters and failed to get VRG from s3 store. Failed to query " +:+
                          failedCluster)
        | Some vrg =>
            let actions := "'" +:+ DRAction_string (dsp_Action (drpc_Spec drpc)) in
            let vaction := VRGAction_string (vsp_Action (vrg_Spec vrg)) in
            if negb (action_matches drpc vrg)
            then (AllowFailover, "Failover is allowed - Two different actions - drpcAction is " +:+ actions +:+
                    "' and vrgAction from s3 is '" +:+ vaction +:+ "'")
            else if bool_decide (dstCluster = destination_annotation vrg) && bool_decide (dstCluster ≠ failedCluster)
            then (Continue, "")
            else (AllowFailover, "Failover is allowed - drpcAction:" +:+ actions +:+ "'. vrgAction:'" +:+ vaction +:+
                    "'. DRPCDstClstr:'" +:+ dstCluster +:+ "'. vrgDstClstr:'" +:+ destination_annotation vrg +:+ "'.")
        end).

(** One cluster answered, with a VRG. *)
Definition state_from_survivor (drpc : DRPlacementControl) (dstCluster clusterName : string)
    (vrg : VolumeReplicationGroup) : Progress * string :=
  let action := DRAction_string (dsp_Action (drpc_Spec drpc)) in
  let vaction := VRGAction_string (vsp_Action (vrg_Spec vrg)) in
  if isVRGPrimary vrg && bool_decide (dstCluster = clusterName) then
    if negb (action_matches drpc vrg)
    then (Stop, "Stop - Two different actions for the same cluster - drpcAction:'" +:+ action +:+
                "'. vrgAction:'" +:+ vaction +:+ "'")
    else (Continue, "")
  else if bool_decide (dstCluster ≠ clusterName) && isVRGSecondary vrg
  then (AllowFailover, "Failover is allowed - Primary is assumed to be on the failed cluster")
  else (AllowFailover, "Failover is allowed - drpcAction:'" +:+ action +:+ "'. vrgAction:'" +:+ vaction +:+ "'. " +:+
          "DRPCDstClstr:'" +:+ dstCluster +:+ "'. vrgDstClstr:'" +:+ destination_annotation vrg +:+
          "'. ReplicationState: '" +:+ ReplicationState_string (vsp_ReplicationState (vrg_Spec vrg)) +:+ "'.").

(** The VRG the last loop stops at: the first primary, else the last one. *)
Fixpoint first_primary_or_last (l : list (string * VolumeReplicationGroup))
    : option (string * VolumeReplicationGroup) :=
  match l with
  | [] => None
  | [x] => Some x
  | x :: l' => if isVRGPrimary x.2 then Some x else first_primary_or_last l'
  end.

(** Both clusters answered, with at least a VRG. *)
Definition state_from_views (drpc : DRPlacementControl) (dstCluster : string) (count : nat) (clusterName : string)
    (vrg : VolumeReplicationGroup) : Progress * string :=
  if isVRGSecondary vrg && bool_decide (count = 2)
  then (Stop, "Stop - Both VRGs have the same secondary state")
  else if action_matches drpc vrg && bool_decide (dstCluster = clusterName) then (Continue, "")
  else (AllowFailover, "Failover is allowed - VRGs count:'" +:+ pretty count +:+ "'. drpcAction:'" +:+
          DRAction_string (dsp_Action (drpc_Spec drpc)) +:+ "'. vrgAction:'" +:+
          VRGAction_string (vsp_Action (vrg_Spec vrg)) +:+ "'. DstCluster:'" +:+ dstCluster +:+
          "'. vrgOnCluster '" +:+ clusterName +:+ "'").

(** [determineDRPCState] once the views are in and adopted. *)
Definition decide_state (drpc : DRPlacementControl) (drClusters : list DRCluster) (vrgNamespace dstCluster : string)
    (vrgs : gmap string VolumeReplicationGroup) (queried : nat) (failedCluster : string)
    : Op (Progress * string) :=
  let allowed := (AllowFailover, "Failover is allowed - User intervention is required") in
  if bool_decide (queried = 0) then mret (Stop, "Stop - Number of clusters queried is 0")
  else if bool_decide (queried = 2) && bool_decide (size vrgs = 0) then mret (Continue, "")
  else if bool_decide (dst_Phase (drpc_Status drpc) = WaitForUser) &&
          bool_decide (dsp_Action (drpc_Spec drpc) = ActionFailover) &&
          bool_decide (dsp_FailoverCluster (drpc_Spec drpc) ≠ failedCluster) then mret (Continue, "")
  else if bool_decide (queried = 1) && bool_decide (size vrgs = 0)
  then state_from_s3 drpc drClusters vrgNamespace dstCluster failedCluster
  else if bool_decide (queried = 1) && bool_decide (size vrgs = 1) then
    t ← tick;
    mret (match env_range t vrgs with
          | (c, v) :: _ => state_from_survivor drpc dstCluster c v
          | [] => allowed
          end)
  else if bool_decide (queried = 2) && bool_decide (1 ≤ size vrgs) then
    t ← tick;
    mret (match first_primary_or_last (env_range t vrgs) with
          | Some (c, v) => state_from_views drpc dstCluster (size vrgs) c v
          | None => allowed
          end)
  else mret allowed.

Definition determineDRPCState (drPolicy : DRPolicy) (placementObj : UserPlacement) (dstCluster : string)
    : Op (Progress * string * option GoError) :=
  drpc ← gets w_drpc;
  r ← selectVRGNamespace drpc placementObj;
  match r with
  | inr e => mret (Stop, "", Some e)
  | inl vrgNamespace =>
      r ← GetDRClusters drPolicy;
      match r with
      | inr e => mret (Stop, "", Some e)
      | inl drClusters =>
          r ← getVRGsFromManagedClusters drpc drClusters vrgNamespace;
          match r with
          | (_, _, _, Some e) => mret (Stop, "", Some e)
          | (vrgs, queried, failedCluster, None) =>
              managed ← ensureVRGsManagedByDRPC vrgs drpc vrgNamespace;
              if negb managed then mret (Stop, "VRG adoption in progress", None)
              else
                r ← decide_state drpc drClusters vrgNamespace dstCluster vrgs queried failedCluster;
                mret (r, None)
          end
      end
  end.

Definition ensureDRPCStatusConsistency (drPolicy : DRPolicy) (placementObj : UserPlacement)
    : Op (bool * option GoError) :=
  drpc ← gets w_drpc;
  if bool_decide (dst_Phase (drpc_Status drpc) ≠ PhaseUnset) &&
     bool_decide (dst_Phase (drpc_Status drpc) ≠ WaitForUser) then mret (false, None)
  else
    let dstCluster := if bool_decide (dsp_Action (drpc_Spec drpc) = ActionFailover)
                      then dsp_FailoverCluster (drpc_Spec drpc) else dsp_PreferredCluster (drpc_Spec drpc) in
    r ← determineDRPCState drPolicy placementObj dstCluster;
    match r with
    | (_, _, Some e) => mret (true, Some e)
    | (Continue, _, None) => mret (false, None)
    | (AllowFailover, msg, None) =>
        modify_drpc (λ d, d <| drpc_Status ::= λ s,
          s <| dst_Phase := WaitForUser |> <| dst_ObservedGeneration := om_Generation (drpc_Meta d) |> |>);;
        setProgression ProgressionActionPaused;;
        setCondition ConditionAvailable ConditionTrue ReasonSuccess msg;;
        setCondition ConditionPeerReady ConditionTrue ReasonSuccess "Failover allowed";;
        mret (true, None)
    | (Stop, msg, None) =>
        let msg := "Operation Paused - User Intervention Required. " +:+ msg in
        setProgression ProgressionActionPaused;;
        setCondition ConditionAvailable ConditionFalse ReasonPaused msg;;
        setCondition ConditionPeerReady ConditionFalse ReasonPaused "User Intervention Required";;
        mret (true, None)
    end.
End recovery.
