(* ===== verification/RecoverySpec.v ===== *)
(** * What a rebuilt DRPC state guarantees

    Theorems about HubRecovery.v: when an action may continue after the hub lost
    its knowledge of a DRPC, what adoption does to VRGs, what the views hold. *)

From Stdlib Require Import ZArith.
From S2P Require Import Prelude Meta Names Conditions Api PeerClasses Events Telemetry.
From S2P Require Import Hub ManifestWorks Placement VRGBuild DRPCStatus DRPCWorks DRPC Frames.
From S2P Require Import HubRecovery Scenario.

(** ** Continuing *)



Section continuing.
Context `{Env} `{HubReads}.


Lemma range_primary (vrgs : gmap string VolumeReplicationGroup) t c v :
  vrgs !! c = Some v ↔ (c, v) ∈ env_range t vrgs.
Proof. rewrite env_range_perm. by rewrite elem_of_map_to_list. Qed.

End continuing.

(** ** Adoption *)

Section adoption.
Context `{Env} `{HubReads} (name : string).

(** The VRG the ManifestWork [name] of a cluster carries. *)
Definition vrg_at (w : World) (c : string) : option VolumeReplicationGroup :=
  mw ← w_mws w !! (c, name);
  match mws_Manifests (mw_Spec mw) with
  | m :: _ => match manifest_as_vrg m with inl v => Some v | inr _ => None end
  | [] => None
  end.

(** Every ManifestWork stays, and the VRG it carries has the spec it had before; a
    new one carries the spec of its cluster's view. (If failing calls may claim "not
    found", one that was there may get the spec of the view.) *)
Definition adopts (views : list (string * VolumeReplicationGroup)) (w w' : World) : Prop :=
  base w w' ∧ ∀ c,
    (w_mws w' !! (c, name) = None → w_mws w !! (c, name) = None) ∧
    (vrg_Spec <$> vrg_at w' c = vrg_Spec <$> vrg_at w c ∨
     (w_mws w !! (c, name) = None ∨ ¬ honest_errors) ∧
     ∃ view, (c, view) ∈ views ∧ vrg_Spec <$> vrg_at w' c = Some (vrg_Spec view)).

#[export] Instance adopts_preorder views : PreOrder (adopts views).
Proof.
  split; [intros w; split; [reflexivity|by split; [|left]]|].
  intros u v w [B1 A1] [B2 A2]. split; [by etransitivity|]. intros c.
  destruct (A1 c) as [N1 S1], (A2 c) as [N2 S2]. split; [auto|].
  destruct S2 as [E|([Hn|?]&?)]; [rewrite E; exact S1|right; split; [by left; apply N1|done]|right; split; [by right|done]].
Qed.

Lemma adopts_spec views w w' c v' : adopts views w w' → vrg_at w' c = Some v' →
  (∃ v, vrg_at w c = Some v ∧ vrg_Spec v' = vrg_Spec v) ∨ (∃ view, (c, view) ∈ views ∧ vrg_Spec v' = vrg_Spec view).
Proof.
  intros [_ A] Hv. destruct (A c) as [_ [E|(_&view&Hin&E)]]; rewrite Hv in E; simpl in E.
  - left. symmetry in E. apply fmap_Some in E as (v&?&?). by exists v.
  - right. exists view. split; [done|congruence].
Qed.

Lemma quiet_adopts views w w' : quiet w w' → adopts views w w'.
Proof. intros (?&E&_). split; [done|]. intros c. unfold vrg_at. rewrite E. by split; [|left]. Qed.

(** Writing a VRG whose spec is the one carried, or a view's where there is no work. *)
Lemma sets_adopts views c v w w' :
  (∃ v0, vrg_at w c = Some v0 ∧ vrg_Spec v = vrg_Spec v0) ∨
  ((w_mws w !! (c, name) = None ∨ ¬ honest_errors) ∧ ∃ view, (c, view) ∈ views ∧ vrg_Spec v = vrg_Spec view) →
  sets (c, name) (λ s, mws_Manifests s = [MVRG v]) w w' → adopts views w w'.
Proof.
  intros Hv (?&?&Ho&Hk). split; [done|]. intros c'.
  destruct (decide (c' = c)) as [->|Hne]; [|unfold vrg_at; rewrite Ho by congruence; by split; [|left]].
  destruct Hk as [Hk|(m&Hk&Em)]; [unfold vrg_at; rewrite Hk; by split; [|left]|]. split; [by rewrite Hk|].
  assert (E : vrg_Spec <$> vrg_at w' c = Some (vrg_Spec v)) by (unfold vrg_at; rewrite Hk; simpl; by rewrite Em). rewrite E.
  destruct Hv as [(v0&->&->)|(Hn&view&Hin&->)]; [by left|]. right. split; [done|]. by exists view.
Qed.

Lemma sets_other_adopts views k P w w' : k.2 ≠ name → sets k P w w' → adopts views w w'.
Proof.
  intros Hk (?&?&Ho&_). split; [done|]. intros c. unfold vrg_at. rewrite Ho; [by split; [|left]|]. by intros <-.
Qed.

Lemma CreateOrUpdateVRGManifestWork_vrg n ns c v a :
  preserves (sets (c, ManifestWorkName n ns MWTypeVRG) (λ s, mws_Manifests s = [MVRG v]))
    (CreateOrUpdateVRGManifestWork n ns c v a).
Proof.
  unfold CreateOrUpdateVRGManifestWork, generateVRGManifestWork.
  eapply preserves_mono;
    [|apply createOrUpdateManifestWork_sets; unfold newManifestWork, AddLabel; by case_match].
  intros w w'. unfold newManifestWork, AddLabel. cbv zeta.
  match goal with |- context [bool_decide ?P] => destruct (bool_decide P) end;
    apply sets_mono; by intros s ->.
Qed.

Lemma CreateOrUpdateNamespaceManifestWork_sets n ns c a l :
  preserves (sets (c, ManifestWorkName n ns MWTypeNS) (λ _, True))
    (CreateOrUpdateNamespaceManifestWork n ns c a l).
Proof.
  unfold CreateOrUpdateNamespaceManifestWork. cbv zeta.
  apply preserves_bind; [apply _| |intros; apply preserves_ret, _].
  eapply preserves_mono;
    [|apply createOrUpdateManifestWork_sets; unfold newManifestWork, AddLabel; by case_match].
  intros w w'. unfold newManifestWork, AddLabel. cbv zeta.
  match goal with |- context [bool_decide ?P] => destruct (bool_decide P) end; by apply sets_mono.
Qed.
End adoption.

Section adoption_theorem.
Context `{Env} `{HubReads}.

(** "Not found", from a server whose failures do not say so. *)
Lemma FindManifestWork_not_found n c w e :
  (FindManifestWork n c w).1 = inr e → IsNotFound e = true → w_mws w !! (c, n) = None ∨ ¬ honest_errors.
Proof.
  unfold FindManifestWork, Get_mw. case_bool_decide; [by intros [= <-]|]. unfold api_err. rewrite !run_bind. simpl.
  destruct (env_api_err (w_tick w)) as [e'|] eqn:Ea; simpl.
  - intros He Hn. right. intros Hh. pose proof (Hh _ _ Ea) as Hf. rewrite Hf in He. injection He as <-.
    rewrite IsNotFound_wrap in Hn. congruence.
  - destruct (w_mws w !! (c, n)); [done|]. by left.
Qed.

Lemma adoptVRG_adopts drpc ns views c view :
  (c, view) ∈ views →
  preserves (adopts (ManifestWorkName (om_Name (drpc_Meta drpc)) ns MWTypeVRG) views)
    (adoptVRG view c drpc ns).
Proof.
  intros Hin w. set (name := ManifestWorkName _ _ _). unfold adoptVRG. rewrite run_bind.
  pose proof (FindManifestWork_quiet (BuildManifestWorkName (om_Name (drpc_Meta drpc)) ns MWTypeVRG) c w) as Q.
  etransitivity; [apply quiet_adopts, Q|].
  destruct (FindManifestWork _ c w) as [[mw|e] w1] eqn:E; cbn [fst snd] in *.
  - destruct (ResourceIsDeleted _); [apply preserves_ret, _|].
    destruct (ExtractVRGFromManifestWork mw) as [v|] eqn:Ev; [|apply preserves_ret, _].
    assert (Ef : (FindManifestWork (BuildManifestWorkName (om_Name (drpc_Meta drpc)) ns MWTypeVRG) c w).1 = inl mw)
      by (by rewrite E).
    apply FindManifestWork_found in Ef as (_&m0&Em&Es).
    rewrite run_bind, run_ret. cbn [fst snd]. unfold adoptExistingVRGManifestWork.
    destruct (has_uid drpc v); [apply preserves_ret, _|]. rewrite run_bind, run_ret. cbn [fst snd].
    eapply sets_adopts; [|apply CreateOrUpdateVRGManifestWork_vrg]. left. exists v. split; [|done].
    unfold vrg_at. destruct Q as (_&->&_). unfold name.
    change (BuildManifestWorkName (om_Name (drpc_Meta drpc)) ns MWTypeVRG) with name in Em.
    unfold name in Em. rewrite Em. simpl. rewrite <- Es.
    revert Ev. unfold ExtractVRGFromManifestWork. destruct (mws_Manifests (mw_Spec mw)); [done|]. by intros ->.
  - destruct (negb _) eqn:En; [apply preserves_ret, _|]. apply negb_false_iff in En. rewrite run_bind, run_ret. cbn [fst snd].
    assert (Ef : (FindManifestWork (BuildManifestWorkName (om_Name (drpc_Meta drpc)) ns MWTypeVRG) c w).1 = inr e)
      by (by rewrite E).
    apply FindManifestWork_not_found in Ef; [|done].
    unfold adoptOrphanVRG. rewrite run_bind.
    assert (Hns : (c, ManifestWorkName (om_Name (drpc_Meta drpc)) ns MWTypeNS).2 ≠ name).
    { simpl. intros E'. by apply (mw_name_vrg_ns (om_Name (drpc_Meta drpc)) ns (om_Name (drpc_Meta drpc)) ns). }
    pose proof (CreateOrUpdateNamespaceManifestWork_sets (om_Name (drpc_Meta drpc)) ns c (drpcAnnotations drpc) ∅ w1) as S.
    destruct (CreateOrUpdateNamespaceManifestWork _ _ _ _ _ w1) as [r w2]. cbn [fst snd] in *.
    etransitivity; [refine (sets_other_adopts name views _ _ w1 w2 _ S); exact Hns|].
    destruct r.1; [apply preserves_ret, _|]. rewrite run_bind, run_ret. cbn [fst snd].
    eapply sets_adopts; [|apply CreateOrUpdateVRGManifestWork_vrg]. right. split; [|by exists view].
    destruct S as (_&_&Ho&_), Q as (_&Eq&_). rewrite Ho; [by rewrite Eq|]. intros [= E']. by apply Hns.
Qed.

Lemma adopt_all_adopts drpc ns views b l :
  (∀ x, x ∈ l → x ∈ views) →
  preserves (adopts (ManifestWorkName (om_Name (drpc_Meta drpc)) ns MWTypeVRG) views)
    (adopt_all drpc ns b l).
Proof.
  revert b. induction l as [|[c view] l IH]; intros b Hl; simpl; [apply preserves_ret, _|].
  destruct (ResourceIsDeleted _); [apply IH; set_solver|].
  destruct (has_uid _ _); [apply IH; set_solver|].
  apply preserves_bind; [apply _|apply adoptVRG_adopts; set_solver|]. intros. apply IH. set_solver.
Qed.

(** C33: adopting the VRGs found on managed clusters changes no VRG's desired state.
    Whatever fails on the way, as long as failing calls do not report "not found", each
    VRG ManifestWork of the DRPC that is on the hub stays and carries a VRG with the
    spec it carried before; where the hub has none there is none afterwards either, or
    one that carries exactly the spec of the VRG found on that cluster. *)
Theorem adoption_keeps_specs drpc ns vrgs w c :
  let name := ManifestWorkName (om_Name (drpc_Meta drpc)) ns MWTypeVRG in
  let w' := (ensureVRGsManagedByDRPC vrgs drpc ns w).2 in
  honest_errors →
  match w_mws w !! (c, name) with
  | Some _ => is_Some (w_mws w' !! (c, name)) ∧ vrg_Spec <$> vrg_at name w' c = vrg_Spec <$> vrg_at name w c
  | None => vrg_at name w' c = None ∨
            ∃ view, vrgs !! c = Some view ∧ vrg_Spec <$> vrg_at name w' c = Some (vrg_Spec view)
  end.
Proof.
  cbv zeta. unfold ensureVRGsManagedByDRPC. rewrite run_bind. intros Hh.
  change ((tick w).1) with (w_tick w). set (w1 := (tick w).2). set (views := env_range (w_tick w) vrgs).
  destruct (adopt_all_adopts drpc ns views true views (λ _ h, h) w1) as [_ Ha].
  set (name := ManifestWorkName _ _ _) in *. set (w' := (adopt_all _ _ _ _ w1).2) in *.
  assert (E1 : w_mws w1 = w_mws w) by done. assert (Ev : vrg_at name w1 c = vrg_at name w c) by done.
  destruct (Ha c) as [Hn Hs]. rewrite E1, Ev in *. destruct (w_mws w !! (c, name)) as [mw|] eqn:Ew.
  - split; [destruct (w_mws w' !! (c, name)); [done|by specialize (Hn eq_refl)]|].
    by destruct Hs as [?|([?|?]&_)].
  - destruct Hs as [Hs|(_&view&Hin&E)].
    + left. unfold vrg_at in Hs at 2. rewrite Ew in Hs. by destruct (vrg_at name w' c).
    + right. exists view. split; [|done]. by apply (range_primary vrgs (w_tick w)).
Qed.
End adoption_theorem.

(** ** The views *)

Section views.
Context `{Env}.

Definition answered (r : VolumeReplicationGroup + GoError) : bool :=
  match r with inl _ => true | inr e => IsNotFound e end.

(** The clusters with their answers, one query per tick from [t] on. *)
Fixpoint answers (drpcName ns : string) (t : nat) (cs : list DRCluster)
    : list (DRCluster * (VolumeReplicationGroup + GoError)) :=
  match cs with
  | [] => []
  | c :: cs' => (c, env_GetVRGFromManagedCluster t drpcName ns (om_Name (dc_Meta c)))
                :: answers drpcName ns (S t) cs'
  end.

Lemma gather_all_answers n ns g cs w :
  (gather_all n ns g cs w).1 = foldl (λ g a, gather g a.1 a.2) g (answers n ns (w_tick w) cs).
Proof.
  revert g w. induction cs as [|c cs IH]; intros g w; [done|]. simpl. rewrite run_bind. simpl.
  by rewrite IH.
Qed.

Lemma gather_queried g l :
  ga_queried (foldl (λ g a, gather g a.1 a.2) g l) =
  ga_queried g + length (List.filter (λ a, answered a.2) l).
Proof.
  revert g. induction l as [|[c r] l IH]; intros g; simpl; [lia|]. rewrite IH. unfold gather, answered.
  destruct r as [v|e]; [destruct (ResourceIsDeleted _); simpl; lia|]. destruct (IsNotFound e); simpl; lia.
Qed.

Lemma gather_vrgs g l c v :
  NoDup ((λ a : DRCluster * (VolumeReplicationGroup + GoError), om_Name (dc_Meta a.1)) <$> l) →
  (∀ a, a ∈ l → ga_vrgs g !! om_Name (dc_Meta a.1) = None) →
  ga_vrgs (foldl (λ g a, gather g a.1 a.2) g l) !! c = Some v ↔
  ga_vrgs g !! c = Some v ∨
  ∃ dc, (dc, inl v) ∈ l ∧ om_Name (dc_Meta dc) = c ∧ ResourceIsDeleted (dc_Meta dc) = false.
Proof.
  revert g. induction l as [|[dc r] l IH]; intros g Hnd Hg; [simpl; set_solver|].
  rewrite fmap_cons in Hnd. cbn [foldl fst snd] in *. apply NoDup_cons in Hnd as [Hni Hnd]. rewrite IH; [|done|].
  - unfold gather. destruct r as [v0|e].
    + destruct (ResourceIsDeleted (dc_Meta dc)) eqn:Ed; simpl.
      * split; [intros [?|(dc'&?&?&?)]; [by left|right; exists dc'; split; [by apply list_elem_of_further|done]]|].
        intros [?|(dc'&[[= -> ->]|?]%elem_of_cons&?&?)]; [by left|congruence|eauto].
      * rewrite lookup_insert_Some. split.
        -- intros [[[<- <-]|[_ ?]]|(dc'&?&?&?)]; [|by left|];
             right; eexists; (split; [|done]); (apply list_elem_of_here || by apply list_elem_of_further).
        -- intros [Hc|(dc'&[[= -> ->]|?]%elem_of_cons&<-&?)].
           ++ left. right. split; [|done]. intros <-.
              pose proof (Hg (dc, inl v0) (list_elem_of_here _ _)) as Hn. simpl in Hn. congruence.
           ++ left. by left.
           ++ right. eauto.
    + assert (G : ∀ X : Prop, (X ∨ ∃ dc', (dc', inl v) ∈ l ∧ om_Name (dc_Meta dc') = c ∧ ResourceIsDeleted (dc_Meta dc') = false)
        ↔ (X ∨ ∃ dc', (dc', inl v) ∈ (dc, inr e) :: l ∧ om_Name (dc_Meta dc') = c ∧ ResourceIsDeleted (dc_Meta dc') = false)).
      { intros X. split; (intros [?|(dc'&Hin&?&?)]; [by left|right; exists dc'; split; [|done]]).
        - by apply list_elem_of_further.
        - by apply elem_of_cons in Hin as [[=]|?]. }
      destruct (IsNotFound e); apply G.
  - intros a Ha. assert (Hne : om_Name (dc_Meta a.1) ≠ om_Name (dc_Meta dc)).
    { intros E. apply Hni. rewrite <- E. apply (list_elem_of_fmap_2 (λ a, om_Name (dc_Meta a.1)) _ _ Ha). }
    unfold gather. destruct r as [v0|e]; [destruct (ResourceIsDeleted _)|destruct (IsNotFound e)]; simpl;
      rewrite ?lookup_insert_ne by done; apply Hg; set_solver.
Qed.

Lemma answers_names n ns t cs :
  (λ a, om_Name (dc_Meta a.1)) <$> answers n ns t cs = (λ c, om_Name (dc_Meta c)) <$> cs.
Proof. revert t. induction cs as [|c cs IH]; intros t; simpl; [done|]. f_equal. apply IH. Qed.

(** The views of a reconcile: the count is the number of clusters that answered
    with a VRG or with "not found"; the map holds a VRG under a cluster's name
    exactly if that cluster answered with it and its DRCluster is not being deleted;
    an error is reported exactly if there are clusters and none answered; and a
    failed cluster is named only if some did not answer. *)
Theorem getVRGsFromManagedClusters_result drpc cs ns w :
  NoDup ((λ c, om_Name (dc_Meta c)) <$> cs) →
  let l := answers (om_Name (drpc_Meta drpc)) ns (w_tick w) cs in
  let '(vrgs, queried, failed, err) := (getVRGsFromManagedClusters drpc cs ns w).1 in
  queried = length (List.filter (λ a, answered a.2) l) ∧
  (∀ c v, vrgs !! c = Some v ↔
     ∃ dc, (dc, inl v) ∈ l ∧ om_Name (dc_Meta dc) = c ∧ ResourceIsDeleted (dc_Meta dc) = false) ∧
  (is_Some err ↔ queried = 0 ∧ cs ≠ []) ∧
  (failed ≠ "" → queried < length cs).
Proof.
  intros Hnd l. unfold getVRGsFromManagedClusters. rewrite run_bind, run_ret, gather_all_answers. fold l.
  cbn [fst]. set (g := foldl _ _ l).
  assert (Hq : ga_queried g = length (List.filter (λ a, answered a.2) l)) by apply gather_queried.
  assert (Hle : ga_queried g ≤ length cs).
  { rewrite Hq. etransitivity; [apply List.filter_length_le|]. unfold l.
    rewrite <- (length_fmap (λ a, om_Name (dc_Meta a.1))), answers_names. by rewrite length_fmap. }
  assert (Hv : ∀ c v, ga_vrgs g !! c = Some v ↔
     ∃ dc, (dc, inl v) ∈ l ∧ om_Name (dc_Meta dc) = c ∧ ResourceIsDeleted (dc_Meta dc) = false).
  { intros c v. unfold g. rewrite gather_vrgs.
    - simpl. rewrite lookup_empty. naive_solver.
    - unfold l. by rewrite answers_names.
    - intros a _. apply lookup_empty. }
  case_bool_decide as E1; [|case_bool_decide as E2].
  - split_and!; [done|done| |done]. split; [by intros [? ?]|]. intros [E0 Hne]. exfalso. apply Hne.
    apply nil_length_inv. congruence.
  - split_and!; [congruence|done| |done]. split; [|eauto]. intros _. split; [done|]. intros ->. done.
  - split_and!; [done|done| |lia]. split; [by intros [? ?]|]. lia.
Qed.
End views.

(** ** The pause *)

Section pause.
Context `{Env} `{HubReads}.

Definition condition_is (w : World) (t : string) (st : ConditionStatus) : Prop :=
  ∃ c, FindCondition (dst_Conditions (drpc_Status (w_drpc w))) t = Some c ∧ cond_Status c = st.

Lemma setCondition_sets t s r m w :
  let w' := (setCondition t s r m w).2 in
  condition_is w' t s ∧ (∀ t' s', t' ≠ t → condition_is w t' s' → condition_is w' t' s') ∧
  dst_Phase (drpc_Status (w_drpc w')) = dst_Phase (drpc_Status (w_drpc w)) ∧
  dst_Progression (drpc_Status (w_drpc w')) = dst_Progression (drpc_Status (w_drpc w)).
Proof.
  cbv zeta. unfold setCondition. rewrite !run_bind. simpl.
  match goal with |- context [addOrUpdateCondition ?a ?b ?c ?d ?e ?f ?g] =>
    pose proof (addOrUpdateCondition_sets a b c d e f g) as Hs;
    pose proof (addOrUpdateCondition_other a b c d e f g) as Ho;
    destruct (addOrUpdateCondition a b c d e f g) as [u l] end.
  simpl in *. split_and!; [done| |done|done]. intros t' s' Hne (c&Hc&Es). exists c. simpl. by rewrite Ho.
Qed.

Lemma setProgression_sets p w :
  let w' := (setProgression p w).2 in
  dst_Progression (drpc_Status (w_drpc w')) = p ∧
  dst_Phase (drpc_Status (w_drpc w')) = dst_Phase (drpc_Status (w_drpc w)).
Proof. cbv zeta. unfold setProgression, status. rewrite run_bind. simpl. by case_bool_decide. Qed.

(** The progression and conditions a pause ends with. *)
Lemma pause_tail st reason m1 m2 w :
  let w' := ((setProgression ProgressionActionPaused;;
              setCondition ConditionAvailable st reason m1;;
              setCondition ConditionPeerReady st reason m2;;
              mret (true, @None GoError)) w).2 in
  dst_Progression (drpc_Status (w_drpc w')) = ProgressionActionPaused ∧
  condition_is w' ConditionAvailable st ∧ condition_is w' ConditionPeerReady st ∧
  dst_Phase (drpc_Status (w_drpc w')) = dst_Phase (drpc_Status (w_drpc w)).
Proof.
  cbv zeta. rewrite !run_bind, run_ret. cbn [snd].
  destruct (setProgression_sets ProgressionActionPaused w) as [P3 F3].
  generalize dependent (setProgression ProgressionActionPaused w).2. intros w3 P3 F3.
  destruct (setCondition_sets ConditionAvailable st reason m1 w3) as (A4&_&F4&P4).
  generalize dependent (setCondition ConditionAvailable st reason m1 w3).2. intros w4 A4 F4 P4.
  destruct (setCondition_sets ConditionPeerReady st reason m2 w4) as (A5&K5&F5&P5).
  split_and!; [congruence|by apply K5|done|congruence].
Qed.

(** When the reconcile of a DRPC is held back without an error, the DRPC says so:
    its progression is paused, and its Available and PeerReady conditions agree —
    both true, with the phase waiting for the user, if a failover is allowed, both
    false otherwise. *)
Theorem pause_is_reported pol pl w :
  (ensureDRPCStatusConsistency pol pl w).1 = (true, None) →
  let w' := (ensureDRPCStatusConsistency pol pl w).2 in
  dst_Progression (drpc_Status (w_drpc w')) = ProgressionActionPaused ∧
  ((condition_is w' ConditionAvailable ConditionTrue ∧ condition_is w' ConditionPeerReady ConditionTrue ∧
    dst_Phase (drpc_Status (w_drpc w')) = WaitForUser) ∨
   (condition_is w' ConditionAvailable ConditionFalse ∧ condition_is w' ConditionPeerReady ConditionFalse)).
Proof.
  unfold ensureDRPCStatusConsistency. rewrite run_bind. cbn [gets fst snd].
  destruct (bool_decide _ && bool_decide _); [done|]. cbv zeta. rewrite run_bind.
  match goal with |- context [determineDRPCState pol pl ?c w] =>
    destruct (determineDRPCState pol pl c w) as [[[p msg] [e|]] w1] end; cbn [fst snd].
  { by destruct p. }
  destruct p; [done| |]; intros _.
  - rewrite run_bind. edestruct pause_tail as (P&A&R&F). split; [exact P|]. left.
    split_and!; [exact A|exact R|exact F].
  - edestruct pause_tail as (P&A&R&_). split; [exact P|]. right. split; [exact A|exact R].
Qed.
End pause.

(** ** At work *)

(** The hub recovered with east down: west has a secondary VRG that the hub knows. *)
Module RecoveryCase.
Definition managed : VolumeReplicationGroup :=
  as_secondary <| vrg_Meta ::= λ m, m <| om_Annotations := {[DRPCUIDAnnotation := ""]} |> |>.
Definition views (c : string) : VolumeReplicationGroup + GoError :=
  if bool_decide (c = "east") then inr (Errorf "timed out" None) else inl managed.
#[export] Instance env : Env := calm views.
#[export] Instance reads : HubReads := {|
  env_list_appsets := λ _, inl None;
  env_get_drcluster := λ _ c, inl (drcluster c ConditionFalse);
  env_get_drpolicy := λ _ _, inl (policy "5m");
|}.
Definition start : World := hub (drpc ActionRelocate false) ∅ "".
End RecoveryCase.

(** A failover is offered: the primary is assumed to be on the failed cluster. *)
Lemma pause_is_reported_witness :
  dst_Progression (drpc_Status (w_drpc (@ensureDRPCStatusConsistency RecoveryCase.env RecoveryCase.reads
    (policy "5m") NoPlacement RecoveryCase.start).2)) = ProgressionActionPaused.
Proof.
  apply (@pause_is_reported RecoveryCase.env RecoveryCase.reads (policy "5m") NoPlacement RecoveryCase.start).
  vm_compute. reflexivity.
Defined.


Lemma getVRGsFromManagedClusters_result_witness :
  let cs := [drcluster "east" ConditionFalse; drcluster "west" ConditionFalse] in
  (@getVRGsFromManagedClusters RecoveryCase.env (drpc ActionNone false) cs "ns" RecoveryCase.start).1.1.1.1 !! "west"
  = Some RecoveryCase.managed.
Proof.
  intros cs.
  pose proof (@getVRGsFromManagedClusters_result RecoveryCase.env (drpc ActionNone false) cs "ns"
                RecoveryCase.start) as T.
  destruct (getVRGsFromManagedClusters _ _ _ _) as [[[[vrgs q] failed] err] w'] eqn:E. cbn [fst] in *.
  destruct T as (_&Hv&_); [apply NoDup_ListNoDup; repeat constructor; set_solver|].
  apply Hv. exists (drcluster "west" ConditionFalse).
  split; [|split; reflexivity]. apply list_elem_of_further, list_elem_of_here.
Defined.

(** Adopting an orphan on west gives it the view's spec; a view of west that lags
    behind its ManifestWork does not change the spec there. *)
Lemma adoption_keeps_specs_witness :
  let name := ManifestWorkName "app" "ns" MWTypeVRG in
  let vrgs := {["west" := as_secondary]} in
  let adopted w := (@ensureVRGsManagedByDRPC RecoveryCase.env vrgs (drpc ActionNone false) "ns" w).2 in
  let behind := hub (drpc ActionNone false) {["west" := as_primary]} "" in
  (vrg_at name (adopted RecoveryCase.start) "west" = None ∨
   ∃ view, vrgs !! "west" = Some view ∧ vrg_Spec <$> vrg_at name (adopted RecoveryCase.start) "west" = Some (vrg_Spec view)) ∧
  is_Some (w_mws (adopted behind) !! ("west", name)) ∧
  vrg_Spec <$> vrg_at name (adopted behind) "west" = vrg_Spec <$> vrg_at name behind "west".
Proof.
  split.
  - exact (@adoption_keeps_specs RecoveryCase.env (drpc ActionNone false) "ns" {["west" := as_secondary]}
             RecoveryCase.start "west" ltac:(done)).
  - exact (@adoption_keeps_specs RecoveryCase.env (drpc ActionNone false) "ns" {["west" := as_secondary]}
             (hub (drpc ActionNone false) {["west" := as_primary]} "") "west" ltac:(done)).
Defined.
