(* ===== verification/ProtectedCondition.v ===== *)
(** * The DRPC's Protected condition

    internal/controller/protected_condition.go: what the VRG of the cluster the
    workload is on reports, folded into one condition of the DRPC.  Each helper of
    the source either sets the condition and says so, or does neither; here it
    returns the status, reason and message it sets, if any. *)

From Stdlib Require Import ZArith.
From S2P Require Import Prelude Meta Conditions Api VRGStatus Events DRPCStatus Scenario.

Definition VRGConditionReasonErrors : list string :=
  ["Error"; "UnknownError"; "UploadError"; "AnnotationFailed"; "ClusterDataConflictPrimary";
   "ClusterDataConflictSecondary"].
Definition ReasonProtectedProgressing : string := "Progressing".
Definition ReasonProtectedError : string := "Error".
Definition ReasonProtected : string := "Protected".

Definition isVRGReasonError (c : Condition) : bool := bool_decide (cond_Reason c ∈ VRGConditionReasonErrors).

Definition getStatusStateFromSpecState (s : ReplicationState) : State :=
  match s with Primary => PrimaryState | Secondary => SecondaryState | ReplicationUnset => UnknownState end.

(** The update of one helper: status, reason, message. *)
Definition Verdict : Type := option (ConditionStatus * string * string).

(** [if f() { return }; if g() { return }; ...]: the first update wins. *)
Definition orelse (a b : Verdict) : Verdict := match a with Some _ => a | None => b end.

Section verdicts.
Context (vrg : VolumeReplicationGroup) (clusterName : string).

Definition vrg_text : string :=
  "VolumeReplicationGroup (" +:+ om_Namespace (vrg_Meta vrg) +:+ "/" +:+ om_Name (vrg_Meta vrg) +:+
  ") on cluster " +:+ clusterName +:+ " ".

Definition find (t : string) : option Condition := FindCondition (vst_Conditions (vrg_Status vrg)) t.
Definition current (c : Condition) : bool :=
  bool_decide (cond_ObservedGeneration c = om_Generation (vrg_Meta vrg)).
Definition has_status (c : Condition) (s : ConditionStatus) : bool := bool_decide (cond_Status c = s).

Definition genericUpdateProtectedForCondition (conditionName msgUnknown msgProgressing msgError : string)
    : Verdict :=
  let till := ", retrying till " +:+ conditionName +:+ " condition is met" in
  let unknown := Some (ConditionUnknown, ReasonProtectedUnknown,
    vrg_text +:+ "is not reporting any status about " +:+ msgUnknown +:+ till) in
  match find conditionName with
  | None => unknown
  | Some c =>
      if has_status c ConditionTrue && current c then None
      else if negb (current c) || has_status c ConditionUnknown then unknown
      else if isVRGReasonError c then
        Some (ConditionFalse, ReasonProtectedError,
          vrg_text +:+ "is reporting errors (" +:+ cond_Message c +:+ ") " +:+ msgError +:+ till)
      else
        Some (ConditionFalse, ReasonProtectedProgressing,
          vrg_text +:+ "is progressing on " +:+ msgProgressing +:+ " (" +:+ cond_Message c +:+ ")" +:+ till)
  end.

Definition updateVRGHooksReady : Verdict :=
  match find VRGConditionTypeHooksReady with
  | None => None
  | Some c =>
      if negb (current c) then None
      else if has_status c ConditionTrue then None
      else if has_status c ConditionFalse && bool_decide (cond_Reason c = VRGConditionReasonHookFailed)
      then Some (ConditionFalse, ReasonProtectedError,
             vrg_text +:+ "hook execution failed: " +:+ cond_Message c)
      else None
  end.

Definition updateVRGClusterDataReady : Verdict :=
  if negb (isVRGPrimary vrg) then None
  else genericUpdateProtectedForCondition VRGConditionTypeClusterDataReady
         "workload resources readiness" "restoring workload resources" "restoring workload resources".

Definition updateVRGClusterDataProtected : Verdict :=
  if negb (isVRGPrimary vrg) then None
  else genericUpdateProtectedForCondition VRGConditionTypeClusterDataProtected
         "workload resource protection" "protecting workload resources" "protecting workload resources".

Definition updateVRGDestinationInfoAvailable : Verdict :=
  match find VRGConditionTypeDestinationInfoAvailable with
  | None => None
  | Some c =>
      if has_status c ConditionTrue && current c then None
      else genericUpdateProtectedForCondition VRGConditionTypeDestinationInfoAvailable
             "destination info availability" "waiting for destination info" "destination info"
  end.

Definition data_ready : Verdict :=
  genericUpdateProtectedForCondition VRGConditionTypeDataReady
    "workload data readiness" "readying workload data" "readying workload data".
Definition data_protected_verdict : Verdict :=
  genericUpdateProtectedForCondition VRGConditionTypeDataProtected
    "workload data protection" "protecting workload data" "protecting workload data".

Definition updateVRGDataReadyAsPrimary : Verdict := data_ready.

Definition updateVRGDataReadyAsSecondary : Verdict :=
  match find VRGConditionTypeDataReady with
  | None => None
  | Some c =>
      if current c && has_status c ConditionFalse && bool_decide (cond_Reason c = VRGConditionReasonReplicating) &&
         bool_decide (vsp_Async (vrg_Spec vrg) ≠ None) && bool_decide (vsp_Action (vrg_Spec vrg) = VRGActionFailover)
      then None else data_ready
  end.

Definition updateVRGDataProtectedAsPrimary : Verdict :=
  match find VRGConditionTypeDataProtected with
  | Some c =>
      if current c && ((bool_decide (cond_Reason c = VRGConditionReasonReplicating) && has_status c ConditionFalse) ||
                       has_status c ConditionTrue)
      then None else data_protected_verdict
  | None => data_protected_verdict
  end.

Definition updateVRGDataProtectedAsSecondary : Verdict :=
  match find VRGConditionTypeDataProtected with
  | None => None
  | Some _ => data_protected_verdict
  end.

Definition updateDRPCProtectedForReplicationState : Verdict :=
  match vsp_ReplicationState (vrg_Spec vrg) with
  | Primary => orelse updateVRGDataReadyAsPrimary updateVRGDataProtectedAsPrimary
  | Secondary => orelse updateVRGDataReadyAsSecondary updateVRGDataProtectedAsSecondary
  | ReplicationUnset => None
  end.

Definition updateVRGNoClusterDataConflict : Verdict :=
  genericUpdateProtectedForCondition VRGConditionTypeNoClusterDataConflict
    "workload data protection" "checking for workload data conflict" "conflicting workload data".

Definition sync_time_missing : bool :=
  match vst_LastGroupSyncTime (vrg_Status vrg) with
  | None => true
  | Some t => bool_decide (t = zero_time)
  end.

Definition updateMiscVRGStatus : Verdict :=
  let as_state := " as " +:+ ReplicationState_string (vsp_ReplicationState (vrg_Spec vrg)) +:+
                  ", retrying till status is met" in
  if bool_decide (vst_ObservedGeneration (vrg_Status vrg) ≠ om_Generation (vrg_Meta vrg)) then
    Some (ConditionFalse, ReasonProtectedUnknown,
      vrg_text +:+ "is not reporting status for current generation" +:+ as_state)
  else if bool_decide (vst_State (vrg_Status vrg) ≠ getStatusStateFromSpecState (vsp_ReplicationState (vrg_Spec vrg)))
  then Some (ConditionFalse, ReasonProtectedProgressing, vrg_text +:+ "is not reporting status" +:+ as_state)
  else if bool_decide (vsp_Async (vrg_Spec vrg) ≠ None) &&
          bool_decide (map_get (om_Labels (vrg_Meta vrg)) GlobalVGRLabel = "") && sync_time_missing
  then Some (ConditionFalse, ReasonProtectedProgressing,
         vrg_text +:+ "is not reporting any lastGroupSyncTime" +:+ as_state)
  else None.

(** [updateDRPCProtectedCondition]: the checks in order, else protected. *)
Definition protected_verdict : ConditionStatus * string * string :=
  default (ConditionTrue, ReasonProtected, vrg_text +:+ "is protecting required resources and data")
    (orelse updateVRGHooksReady (orelse updateVRGClusterDataReady
      (orelse updateDRPCProtectedForReplicationState (orelse updateVRGDestinationInfoAvailable
        (orelse updateVRGNoClusterDataConflict (orelse updateMiscVRGStatus updateVRGClusterDataProtected)))))).
End verdicts.

Definition set_condition (now : Z) (drpc : DRPlacementControl) (t : string)
    (v : ConditionStatus * string * string) : DRPlacementControl :=
  let '(status, reason, msg) := v in
  drpc <| drpc_Status ::= λ s, s <| dst_Conditions :=
    (addOrUpdateCondition now (dst_Conditions s) t (om_Generation (drpc_Meta drpc)) status reason msg).2 |> |>.

Definition updateProtectedConditionUnknown (now : Z) (drpc : DRPlacementControl) (clusterName : string)
    : DRPlacementControl :=
  set_condition now drpc ConditionProtected
    (ConditionUnknown, ReasonProtectedUnknown, "Missing VolumeReplicationGroup status from cluster " +:+ clusterName).

Definition updateDRPCProtectedCondition (now : Z) (drpc : DRPlacementControl) (vrg : VolumeReplicationGroup)
    (clusterName : string) : DRPlacementControl :=
  set_condition now drpc ConditionProtected (protected_verdict vrg clusterName).

(** [meta.RemoveStatusCondition] *)
Definition RemoveStatusCondition (conds : list Condition) (t : string) : list Condition :=
  List.filter (λ c, negb (bool_decide (cond_Type c = t))) conds.

Definition updateDRPCReplicationHealthyCondition (now : Z) (drpc : DRPlacementControl)
    (vrg : VolumeReplicationGroup) : DRPlacementControl :=
  match FindCondition (vst_Conditions (vrg_Status vrg)) VRGConditionTypeReplicationHealthy with
  | None => drpc <| drpc_Status ::= λ s,
              s <| dst_Conditions ::= λ l, RemoveStatusCondition l ConditionReplicationHealthy |> |>
  | Some c => set_condition now drpc ConditionReplicationHealthy (cond_Status c, cond_Reason c, cond_Message c)
  end.

(** ** When the workload counts as protected *)

Section protected.
Context (vrg : VolumeReplicationGroup).

(** A condition of the VRG that is absent, or met at the current generation. *)
Definition absent_or_met (t : string) : bool :=
  match find vrg t with None => true | Some _ => vrg_condition_met (Some vrg) t end.

(** A condition that is false at the current generation because the volumes are
    still replicating. *)
Definition replicating (t : string) : bool :=
  match find vrg t with
  | Some c => current vrg c && has_status c ConditionFalse &&
              bool_decide (cond_Reason c = VRGConditionReasonReplicating)
  | None => false
  end.

Definition hook_failed : bool :=
  match find vrg VRGConditionTypeHooksReady with
  | Some c => current vrg c && has_status c ConditionFalse &&
              bool_decide (cond_Reason c = VRGConditionReasonHookFailed)
  | None => false
  end.

(** What the data conditions have to show, by replication state. *)
Definition data_safe : bool :=
  let met t := vrg_condition_met (Some vrg) t in
  match vsp_ReplicationState (vrg_Spec vrg) with
  | Primary =>
      met VRGConditionTypeClusterDataReady && met VRGConditionTypeDataReady &&
      (met VRGConditionTypeDataProtected || replicating VRGConditionTypeDataProtected) &&
      met VRGConditionTypeClusterDataProtected
  | Secondary =>
      (absent_or_met VRGConditionTypeDataReady ||
       (replicating VRGConditionTypeDataReady && bool_decide (vsp_Async (vrg_Spec vrg) ≠ None) &&
        bool_decide (vsp_Action (vrg_Spec vrg) = VRGActionFailover))) &&
      absent_or_met VRGConditionTypeDataProtected
  | ReplicationUnset => true
  end.

Definition protecting : bool :=
  negb hook_failed && data_safe && absent_or_met VRGConditionTypeDestinationInfoAvailable &&
  vrg_condition_met (Some vrg) VRGConditionTypeNoClusterDataConflict &&
  bool_decide (vst_ObservedGeneration (vrg_Status vrg) = om_Generation (vrg_Meta vrg)) &&
  bool_decide (vst_State (vrg_Status vrg) = getStatusStateFromSpecState (vsp_ReplicationState (vrg_Spec vrg))) &&
  (bool_decide (vsp_Async (vrg_Spec vrg) = None) ||
   bool_decide (map_get (om_Labels (vrg_Meta vrg)) GlobalVGRLabel ≠ "") || negb (sync_time_missing vrg)).

Context (cluster : string).

Definition silent (v : Verdict) : bool := match v with None => true | Some _ => false end.

Lemma silent_orelse a b : silent (orelse a b) = silent a && silent b.
Proof. by destruct a. Qed.

Lemma met_find t :
  vrg_condition_met (Some vrg) t =
  match find vrg t with Some c => has_status c ConditionTrue && current vrg c | None => false end.
Proof. done. Qed.

Lemma generic_silent t a b c :
  silent (genericUpdateProtectedForCondition vrg cluster t a b c) = vrg_condition_met (Some vrg) t.
Proof.
  rewrite met_find. unfold genericUpdateProtectedForCondition. cbv zeta.
  destruct (find vrg t) as [x|]; [|done]. destruct (has_status x ConditionTrue && current vrg x); [done|].
  destruct (_ || _); [done|]. by destruct (isVRGReasonError x).
Qed.

Lemma hooks_silent : silent (updateVRGHooksReady vrg cluster) = negb hook_failed.
Proof.
  unfold updateVRGHooksReady, hook_failed. destruct (find _ _) as [c|]; [|done].
  destruct (current vrg c); [|done]. unfold has_status. simpl. destruct (cond_Status c); simpl; try done.
  by case_bool_decide.
Qed.

Lemma destination_silent :
  silent (updateVRGDestinationInfoAvailable vrg cluster) = absent_or_met VRGConditionTypeDestinationInfoAvailable.
Proof.
  unfold updateVRGDestinationInfoAvailable, absent_or_met. rewrite met_find.
  destruct (find _ _) as [c|] eqn:E; [|done].
  destruct (has_status c ConditionTrue && current vrg c) eqn:E1; [done|].
  rewrite generic_silent, met_find, E. done.
Qed.

Lemma misc_silent :
  silent (updateMiscVRGStatus vrg cluster) =
  bool_decide (vst_ObservedGeneration (vrg_Status vrg) = om_Generation (vrg_Meta vrg)) &&
  bool_decide (vst_State (vrg_Status vrg) = getStatusStateFromSpecState (vsp_ReplicationState (vrg_Spec vrg))) &&
  (bool_decide (vsp_Async (vrg_Spec vrg) = None) ||
   bool_decide (map_get (om_Labels (vrg_Meta vrg)) GlobalVGRLabel ≠ "") || negb (sync_time_missing vrg)).
Proof.
  unfold updateMiscVRGStatus. cbv zeta. repeat case_bool_decide; simpl; try done; try tauto;
    by destruct (sync_time_missing vrg).
Qed.

Lemma data_silent :
  silent (updateVRGClusterDataReady vrg cluster) &&
  silent (updateDRPCProtectedForReplicationState vrg cluster) &&
  silent (updateVRGClusterDataProtected vrg cluster) = data_safe.
Proof.
  unfold updateVRGClusterDataReady, updateDRPCProtectedForReplicationState, updateVRGClusterDataProtected,
    data_safe, isVRGPrimary.
  destruct (vsp_ReplicationState (vrg_Spec vrg)); simpl; [done| |].
  - rewrite silent_orelse, !generic_silent. unfold updateVRGDataReadyAsPrimary, data_ready. rewrite generic_silent.
    assert (silent (updateVRGDataProtectedAsPrimary vrg cluster) =
            vrg_condition_met (Some vrg) VRGConditionTypeDataProtected ||
            replicating VRGConditionTypeDataProtected) as ->.
    { unfold updateVRGDataProtectedAsPrimary, data_protected_verdict, replicating.
      destruct (find vrg VRGConditionTypeDataProtected) as [c|] eqn:E.
      - destruct (current vrg c && _) eqn:E1; [|rewrite generic_silent];
          rewrite met_find, E; unfold has_status in *;
          destruct (current vrg c), (cond_Status c); simpl in *; try done; case_bool_decide; done.
      - by rewrite generic_silent, met_find, E. }
    by rewrite !andb_assoc.
  - rewrite silent_orelse, andb_true_r. f_equal.
    + unfold updateVRGDataReadyAsSecondary, data_ready, absent_or_met, replicating. rewrite met_find.
      destruct (find vrg VRGConditionTypeDataReady) as [c|] eqn:E; [|done].
      destruct (current vrg c && _ && _ && _ && _) eqn:E1; [|rewrite generic_silent, met_find, E].
      * simpl. by rewrite orb_true_r.
      * by rewrite orb_false_r.
    + unfold updateVRGDataProtectedAsSecondary, data_protected_verdict, absent_or_met. rewrite met_find.
      destruct (find vrg VRGConditionTypeDataProtected) as [c|] eqn:E; [|done].
      by rewrite generic_silent, met_find, E.
Qed.

(** None of the helpers sets the condition to true. *)
Definition never_true (v : Verdict) : Prop := match v with Some x => x.1.1 ≠ ConditionTrue | None => True end.

Lemma never_true_orelse a b : never_true a → never_true b → never_true (orelse a b).
Proof. by destruct a. Qed.

Lemma generic_never_true t a b c : never_true (genericUpdateProtectedForCondition vrg cluster t a b c).
Proof. unfold genericUpdateProtectedForCondition. cbv zeta. repeat case_match; done. Qed.

Lemma helpers_never_true :
  never_true (updateVRGHooksReady vrg cluster) ∧ never_true (updateVRGClusterDataReady vrg cluster) ∧
  never_true (updateDRPCProtectedForReplicationState vrg cluster) ∧
  never_true (updateVRGDestinationInfoAvailable vrg cluster) ∧
  never_true (updateVRGNoClusterDataConflict vrg cluster) ∧ never_true (updateMiscVRGStatus vrg cluster) ∧
  never_true (updateVRGClusterDataProtected vrg cluster).
Proof.
  unfold updateVRGHooksReady, updateVRGClusterDataReady, updateDRPCProtectedForReplicationState,
    updateVRGDestinationInfoAvailable, updateVRGNoClusterDataConflict, updateMiscVRGStatus,
    updateVRGClusterDataProtected, updateVRGDataReadyAsPrimary, updateVRGDataProtectedAsPrimary,
    updateVRGDataReadyAsSecondary, updateVRGDataProtectedAsSecondary, data_ready, data_protected_verdict.
  cbv zeta. split_and!; repeat (apply generic_never_true || apply never_true_orelse || case_match || done).
Qed.
End protected.

Lemma protected_verdict_true vrg cluster :
  (protected_verdict vrg cluster).1.1 = ConditionTrue ↔ protecting vrg = true.
Proof.
  unfold protected_verdict.
  match goal with |- context [default _ ?o] => set (v := o) end.
  assert (Hs : silent v = protecting vrg).
  { unfold v, protecting. rewrite !silent_orelse, hooks_silent, destination_silent, misc_silent, <- (data_silent vrg cluster).
    unfold updateVRGNoClusterDataConflict. rewrite generic_silent.
    destruct (hook_failed vrg), (silent (updateVRGClusterDataReady vrg cluster)),
      (silent (updateDRPCProtectedForReplicationState vrg cluster)), (silent (updateVRGClusterDataProtected vrg cluster)),
      (absent_or_met vrg _), (vrg_condition_met (Some vrg) VRGConditionTypeNoClusterDataConflict); simpl;
      rewrite ?andb_true_r, ?andb_false_r; done. }
  assert (Hn : never_true v).
  { unfold v. destruct (helpers_never_true vrg cluster) as (?&?&?&?&?&?&?). by repeat apply never_true_orelse. }
  rewrite <- Hs. destruct v as [x|]; simpl; [|done]. split; [|done]. intros E. by destruct Hn.
Qed.

(** C32: the Protected condition becomes true exactly if the VRG is protecting the
    workload: no hook failed; its data conditions are met at its current generation as
    its replication state calls for (an asynchronous primary may still be
    replicating); destination info, if reported, is available; no cluster data
    conflict; its status is of the current generation and in the requested state; and
    with asynchronous replication a group sync has happened.  Any other report makes
    the condition false or unknown. *)
Theorem protected_iff_protecting now drpc vrg cluster :
  (∃ c, FindCondition (dst_Conditions (drpc_Status (updateDRPCProtectedCondition now drpc vrg cluster)))
          ConditionProtected = Some c ∧ cond_Status c = ConditionTrue) ↔
  protecting vrg = true.
Proof.
  rewrite <- (protected_verdict_true vrg cluster). unfold updateDRPCProtectedCondition, set_condition.
  destruct (protected_verdict vrg cluster) as [[st r] m]. simpl. split.
  - intros (c&Hc&<-). symmetry. by eapply addOrUpdateCondition_status.
  - intros ->. apply addOrUpdateCondition_sets.
Qed.
