(* ===== verification/Conflicts.v ===== *)
(** * DRPCs that protect the same namespaces

    internal/controller/drplacementcontrol_controller.go, [ensureDRPCValidNamespace]
    to [drpcProtectVMInNS], with the lookup of a DRPC's placement: two DRPCs on
    common clusters must not protect resources of the same namespace, unless both
    protect disjoint sets of virtual machines. *)

From S2P Require Import Prelude Meta Names Conditions Api Hub Placement HubRecovery Scenario.

Definition RamenScheduler : string := "ramen".
Definition VMList : string := "PROTECTED_VMS".
Definition K8SLabelSelector : string := "K8S_RESOURCE_SELECTOR".
Definition PVCLabelSelector : string := "PVC_RESOURCE_SELECTOR".

(** The reads of the checks, as one snapshot of the API server: a DRPolicy, a
    Placement, a PlacementRule with its scheduler's name and decisions, the ApplicationSets; and
    the key of OCM's annotation that disables a Placement's scheduling. *)
Class Snapshot := {
  PlacementDisableAnnotation : string;
  snap_drpolicy : string → DRPolicy + GoError;
  snap_placement : string → string → ObjectMeta + GoError;
  snap_placementrule : string → string → (ObjectMeta * string * list PlacementDecision) + GoError;
  snap_appsets : option (list ApplicationSet) + GoError;
}.

(** [RamenConfig]: the operands (admin) namespace and the multi-namespace flag. *)
Record Config := mkConfig { cfg_RamenOpsNamespace : string; cfg_MultiNamespaceEnabled : bool }.

Definition drpcInAdminNamespace (drpc : DRPlacementControl) (cfg : Config) : bool :=
  bool_decide (cfg_RamenOpsNamespace cfg = om_Namespace (drpc_Meta drpc)).

Definition ensureDRPCValidNamespace (drpc : DRPlacementControl) (cfg : Config) : option GoError :=
  if drpcInAdminNamespace drpc cfg then
    if negb (cfg_MultiNamespaceEnabled cfg)
    then errorf "drpc cannot be in admin namespace when multinamespace feature is disabled"
    else match dsp_ProtectedNamespaces (drpc_Spec drpc) with
         | None | Some [] => errorf "drpc in admin namespace must have protected namespaces"
         | Some l =>
             if bool_decide (cfg_RamenOpsNamespace cfg ∈ l)
             then errorf ("admin namespace cannot be a protected namespace, admin namespace: " +:+
                    cfg_RamenOpsNamespace cfg)
             else None
         end
  else if isDiscoveredApp drpc
  then errorf ("drpc in non-admin namespace(" +:+ om_Namespace (drpc_Meta drpc) +:+
         ") cannot have protected namespaces, admin-namespaces: " +:+ cfg_RamenOpsNamespace cfg)
  else None.

Definition drpcsProtectCommonNamespace (drpcProtectedNs otherDRPCProtectedNs : list string) : bool :=
  existsb (λ ns, bool_decide (ns ∈ otherDRPCProtectedNs)) drpcProtectedNs.

Definition vm_recipe_ref (drpc : DRPlacementControl) : option RecipeRef :=
  dsp_KubeObjectProtection (drpc_Spec drpc) ≫= kop_RecipeRef.

Definition drpcMetaAndOtherHaveVMRecipe (drpc otherdrpc : DRPlacementControl) (cfg : Config) : bool :=
  match vm_recipe_ref drpc with
  | None => false
  | Some r =>
      match vm_recipe_ref otherdrpc with
      | None => false
      | Some o =>
          if negb (bool_decide (rr_Name r = VMRecipeName)) || negb (bool_decide (rr_Name o = VMRecipeName))
          then false
          else if negb (bool_decide (rr_Namespace r = cfg_RamenOpsNamespace cfg)) ||
                  negb (bool_decide (rr_Namespace o = cfg_RamenOpsNamespace cfg)) then false
          else true
      end
  end.

Definition recipe_values (drpc : DRPlacementControl) (key : string) : list string :=
  match dsp_KubeObjectProtection (drpc_Spec drpc) with
  | Some k => default [] (kop_RecipeParameters k !! key)
  | None => []
  end.

Definition drpcProtectVMInNS (drpc otherdrpc : DRPlacementControl) (cfg : Config) : bool :=
  if negb (drpcMetaAndOtherHaveVMRecipe drpc otherdrpc cfg) then false
  else forallb (λ k, negb (existsb (λ v, bool_decide (v ∈ recipe_values otherdrpc k)) (recipe_values drpc k)))
         [VMList; K8SLabelSelector; PVCLabelSelector].

Section conflicts.
Context `{Snapshot} (cfg : Config).

Definition isBeingDeleted (drpc : DRPlacementControl) (usrPl : ObjectMeta) : bool :=
  ResourceIsDeleted (drpc_Meta drpc) || ResourceIsDeleted usrPl.

(** The namespace a placement reference points to, if it is the DRPC's own. *)
Definition placement_namespace (drpc : DRPlacementControl) (kind : string) : string + GoError :=
  let ns := (dsp_PlacementRef (drpc_Spec drpc)).1 in
  let own := om_Namespace (drpc_Meta drpc) in
  if bool_decide (ns = "") || bool_decide (ns = own) then inl own
  else inr (Errorf ("referenced " +:+ kind +:+ " namespace (" +:+ ns +:+
              ") differs from DRPlacementControl resource namespace (" +:+ own +:+ ")") None).

Definition getPlacementRule (drpc : DRPlacementControl) : UserPlacement + GoError :=
  match placement_namespace drpc "PlacementRule" with
  | inr e => inr e
  | inl ns =>
      match snap_placementrule (dsp_PlacementRef (drpc_Spec drpc)).2 ns with
      | inr e => inr e
      | inl (m, scName, decisions) =>
          if negb (isBeingDeleted drpc m) && bool_decide (scName ≠ RamenScheduler)
          then inr (Errorf ("placementRule " +:+ om_Name m +:+
                      " does not have the ramen scheduler. Scheduler used " +:+ scName) None)
          else inl (PlacementRule m decisions)
      end
  end.

Definition getPlacement (drpc : DRPlacementControl) : UserPlacement + GoError :=
  match placement_namespace drpc "Placement" with
  | inr e => inr e
  | inl ns =>
      match snap_placement (dsp_PlacementRef (drpc_Spec drpc)).2 ns with
      | inr e => inr e
      | inl m =>
          if negb (isBeingDeleted drpc m) &&
             match om_Annotations m !! PlacementDisableAnnotation with
             | None => true
             | Some v => bool_decide (v = "false")
             end
          then inr (Errorf ("placement " +:+ om_Name m +:+
                      " must be disabled in order for Ramen to be the scheduler") None)
          else inl (Placement m)
      end
  end.

Definition getPlacementOrPlacementRule (drpc : DRPlacementControl) : UserPlacement + GoError :=
  match getPlacement drpc with
  | inl p =>
      match getPlacementRule drpc with
      | inl _ => inr (Errorf ("can't proceed. Placement and PlacementRule CR with the same name exist in the" +:+
                        " same namespace") None)
      | inr _ => inl p
      end
  | inr e => if IsNotFound e then getPlacementRule drpc else inr e
  end.

(** [selectVRGNamespace] on the snapshot. *)
Definition vrg_namespace (drpc : DRPlacementControl) (p : UserPlacement) : string + GoError :=
  let ns := map_get (om_Annotations (drpc_Meta drpc)) DRPCAppNamespace in
  if bool_decide (ns ≠ "") then inl ns
  else match p with
       | Placement m =>
           match snap_appsets with
           | inr e => inr (Errorf ("ApplicationSet list: " +:+ error_text e) (Some e))
           | inl None => inl (om_Namespace m)
           | inl (Some l) =>
               match find_first (λ a, bool_decide (as_Namespace a = om_Namespace m) &&
                        existsb (λ g, AppSetGeneratorMatchesPlacement g (om_Name m)) (as_Generators a)) l with
               | Some a => inl (as_DestinationNamespace a)
               | None => inl (om_Namespace m)
               end
           end
       | _ => inl (om_Namespace (drpc_Meta drpc))
       end.

Definition getProtectedNamespaces (drpc : DRPlacementControl) (placementObj : option UserPlacement)
    : list string + GoError :=
  if isDiscoveredApp drpc then inl (default [] (dsp_ProtectedNamespaces (drpc_Spec drpc)))
  else
    match (match placementObj with Some p => inl p | None => getPlacementOrPlacementRule drpc end) with
    | inr e => inr e
    | inl p => match vrg_namespace drpc p with inr e => inr e | inl ns => inl [ns] end
    end.

Definition drpcHaveCommonClusters (drpc otherDRPC : DRPlacementControl) : bool + GoError :=
  match snap_drpolicy (dsp_DRPolicyRef (drpc_Spec drpc)) with
  | inr e => inr (Errorf ("failed to get DRPolicy " +:+ error_text e) (Some e))
  | inl p =>
      match snap_drpolicy (dsp_DRPolicyRef (drpc_Spec otherDRPC)) with
      | inr e => inr (Errorf ("failed to get DRPolicy " +:+ error_text e) (Some e))
      | inl o => inl (existsb (λ c, bool_decide (c ∈ DRPolicyClusterNames o)) (DRPolicyClusterNames p))
      end
  end.

Definition twoDRPCsConflict (drpc : DRPlacementControl) (placementObj : option UserPlacement)
    (otherDRPC : DRPlacementControl) : option GoError :=
  if negb (drpcInAdminNamespace drpc cfg) && negb (drpcInAdminNamespace otherDRPC cfg) then None
  else match drpcHaveCommonClusters drpc otherDRPC with
       | inr e => wrapf ("failed to check if drpcs have common clusters (" +:+ error_text e +:+ ")") e
       | inl false => None
       | inl true =>
           match getProtectedNamespaces drpc placementObj with
           | inr e => wrapf ("failed to get protected namespaces for drpc: " +:+ om_Name (drpc_Meta drpc) +:+
                        ", " +:+ error_text e) e
           | inl ns =>
               match getProtectedNamespaces otherDRPC None with
               | inr e => wrapf ("failed to get protected namespaces for drpc: " +:+
                            om_Name (drpc_Meta otherDRPC) +:+ ", " +:+ error_text e) e
               | inl ons =>
                   if drpcProtectVMInNS drpc otherDRPC cfg then None
                   else if drpcsProtectCommonNamespace ns ons
                   then errorf ("drpc: " +:+ om_Name (drpc_Meta drpc) +:+ " and drpc: " +:+
                          om_Name (drpc_Meta otherDRPC) +:+ " protect common resources from the same namespace")
                   else None
               end
           end
       end.

(** The loop over the other DRPCs, each refreshed by a read before it is checked. *)
Fixpoint check_others (refresh : DRPlacementControl → DRPlacementControl + GoError)
    (drpc : DRPlacementControl) (placementObj : option UserPlacement) (others : list DRPlacementControl)
    : option GoError :=
  match others with
  | [] => None
  | o :: os =>
      if same_object (drpc_Meta o) (drpc_Meta drpc) then check_others refresh drpc placementObj os
      else match refresh o with
           | inr e => wrapf ("failed to get other DRPC " +:+ om_Namespace (drpc_Meta o) +:+ "/" +:+
                        om_Name (drpc_Meta o) +:+ ": " +:+ error_text e) e
           | inl o' =>
               match twoDRPCsConflict drpc placementObj o' with
               | Some e => Some e
               | None => check_others refresh drpc placementObj os
               end
           end
  end.

Definition ensureNoConflictingDRPCs (listed : list DRPlacementControl + GoError)
    (refresh : DRPlacementControl → DRPlacementControl + GoError)
    (drpc : DRPlacementControl) (placementObj : option UserPlacement) : option GoError :=
  match listed with
  | inr e => wrapf ("failed to list DRPlacementControls (" +:+ error_text e +:+ ")") e
  | inl l => check_others refresh drpc placementObj l
  end.
End conflicts.

(** ** Lemmas *)

Lemma existsb_common {A} `{EqDecision A} (l l' : list A) :
  existsb (λ x, bool_decide (x ∈ l')) l = true ↔ ∃ x, x ∈ l ∧ x ∈ l'.
Proof.
  rewrite existsb_exists. split.
  - intros (x&Hx%list_elem_of_In&E%bool_decide_eq_true). eauto.
  - intros (x&Hx&E). exists x. split; [by apply list_elem_of_In|by apply bool_decide_eq_true_2].
Qed.

Lemma existsb_common_sym {A} `{EqDecision A} (l l' : list A) :
  existsb (λ x, bool_decide (x ∈ l')) l = existsb (λ x, bool_decide (x ∈ l)) l'.
Proof. apply eq_true_iff_eq. rewrite !existsb_common. naive_solver. Qed.

Section theorems.
Context `{Snapshot} (cfg : Config).

Lemma vm_recipe_sym d o : drpcMetaAndOtherHaveVMRecipe d o cfg = drpcMetaAndOtherHaveVMRecipe o d cfg.
Proof.
  unfold drpcMetaAndOtherHaveVMRecipe. destruct (vm_recipe_ref d), (vm_recipe_ref o); try done.
  repeat case_bool_decide; done.
Qed.

Lemma protect_vm_sym d o : drpcProtectVMInNS d o cfg = drpcProtectVMInNS o d cfg.
Proof.
  unfold drpcProtectVMInNS. rewrite vm_recipe_sym. destruct (negb _); [done|]. simpl.
  by rewrite !(existsb_common_sym (recipe_values d _)).
Qed.

(** The check of two DRPCs for a conflict does not depend on which of them is
    being reconciled: it fails for one (with a conflict, or because something cannot
    be read) exactly if it fails for the other. *)
Theorem conflict_check_symmetric d o :
  is_Some (twoDRPCsConflict cfg d None o) ↔ is_Some (twoDRPCsConflict cfg o None d).
Proof.
  unfold twoDRPCsConflict. rewrite (andb_comm (negb (drpcInAdminNamespace d cfg))).
  destruct (negb _ && negb _); [done|]. unfold drpcHaveCommonClusters.
  destruct (snap_drpolicy (dsp_DRPolicyRef (drpc_Spec d))) as [p|],
    (snap_drpolicy (dsp_DRPolicyRef (drpc_Spec o))) as [q|]; try (split; intros; eauto; fail).
  rewrite (existsb_common_sym (DRPolicyClusterNames p)). destruct (existsb _ _); [|done].
  destruct (getProtectedNamespaces d None) as [ns|], (getProtectedNamespaces o None) as [ons|];
    try (split; intros; eauto; fail).
  rewrite protect_vm_sym. destruct (drpcProtectVMInNS o d cfg); [done|].
  unfold drpcsProtectCommonNamespace. rewrite (existsb_common_sym ns). destruct (existsb _ _); split; eauto.
Qed.

(** with every read succeeding, two DRPCs are reported in conflict exactly if at
    least one of them is in the admin namespace, their policies share a cluster, they
    protect a common namespace, and they are not both virtual machine recipes with
    disjoint parameters. *)
Theorem conflict_reported_iff d o pl p q ns ons :
  snap_drpolicy (dsp_DRPolicyRef (drpc_Spec d)) = inl p →
  snap_drpolicy (dsp_DRPolicyRef (drpc_Spec o)) = inl q →
  getProtectedNamespaces d pl = inl ns → getProtectedNamespaces o None = inl ons →
  is_Some (twoDRPCsConflict cfg d pl o) ↔
  (drpcInAdminNamespace d cfg = true ∨ drpcInAdminNamespace o cfg = true) ∧
  (∃ c, c ∈ DRPolicyClusterNames p ∧ c ∈ DRPolicyClusterNames q) ∧
  (∃ n, n ∈ ns ∧ n ∈ ons) ∧ drpcProtectVMInNS d o cfg = false.
Proof.
  intros Hp Hq Hn Ho. unfold twoDRPCsConflict, drpcHaveCommonClusters. rewrite Hp, Hq, Hn, Ho.
  rewrite <- !existsb_common. unfold drpcsProtectCommonNamespace.
  destruct (drpcInAdminNamespace d cfg), (drpcInAdminNamespace o cfg); simpl;
    destruct (existsb (λ x, bool_decide (x ∈ DRPolicyClusterNames q)) _), (drpcProtectVMInNS d o cfg),
      (existsb (λ x, bool_decide (x ∈ ons)) ns); simpl; split; try (intros [? ?]; done); try naive_solver eauto.
Qed.
End theorems.

(** Two discovered applications in the admin namespace protecting namespace "n". *)
Module ConflictCase.
#[export] Instance snap : Snapshot := {|
  PlacementDisableAnnotation := "disable";
  snap_drpolicy := λ _, inl (policy "5m");
  snap_placement := λ n _, inr (not_found n);
  snap_placementrule := λ n _, inr (not_found n);
  snap_appsets := inl None;
|}.
Definition app (name : string) : DRPlacementControl :=
  drpc ActionNone false <| drpc_Meta := named_meta name "ramen-ops" |>
    <| drpc_Spec ::= λ s, s <| dsp_ProtectedNamespaces := Some ["n"] |> |>.
Definition config : Config := mkConfig "ramen-ops" true.
End ConflictCase.

Lemma conflict_reported_iff_witness :
  is_Some (@twoDRPCsConflict ConflictCase.snap ConflictCase.config (ConflictCase.app "a") None (ConflictCase.app "b")).
Proof.
  apply (@conflict_reported_iff ConflictCase.snap ConflictCase.config (ConflictCase.app "a") (ConflictCase.app "b")
           None (policy "5m") (policy "5m") ["n"] ["n"]); try reflexivity.
  split_and!; [left; reflexivity|exists "east"; split; apply list_elem_of_here|
               exists "n"; split; apply list_elem_of_here|reflexivity].
Defined.
