(* ===== verification/StatusRefresh.v ===== *)
(** * Refreshing a DRPC's status

    internal/controller/drplacementcontrol_controller.go, [statusUpdateTimeElapsed]
    to [clusterForVRGStatus], with [recordFailure] and [setDeletionStatusAndUpdate]:
    which VRG a DRPC's status reflects, how the VRG's conditions reach it, when the
    status is written and when the next refresh is due.  The Prometheus metrics set
    on the way are left out. *)

From Stdlib Require Import ZArith.
From S2P Require Import Prelude Meta Names Conditions Api PeerClasses Events Telemetry.
From S2P Require Import Hub ManifestWorks Placement VRGBuild DRPCStatus DRPCWorks DRPC HubRecovery.
From S2P Require Import ProtectedCondition Frames Scenario.

Definition DRPCFinalizer : string := "drpc.ramendr.openshift.io/finalizer".
Definition StatusCheckDelay : Z := (Minute * 10)%Z.

(** ** When a refresh is due *)

Definition statusUpdateTimeElapsed (now : Z) (s : DRPlacementControlStatus) : bool :=
  match dst_LastUpdateTime s with
  | None => false
  | Some t => bool_decide (t + StatusCheckDelay < now)%Z
  end.

(** [beforeProcessing] and [afterProcessing] are times, the zero time when unset. *)
Definition getStatusCheckDelay (now beforeProcessing afterProcessing : Z) : Z :=
  if bool_decide (beforeProcessing ≠ afterProcessing) then StatusCheckDelay
  else Z.max 0 (beforeProcessing + StatusCheckDelay - now).

(** ** The conditions of the VRG *)

Definition extractProtectedPVCNames (vrg : VolumeReplicationGroup) : list string :=
  pp_Name <$> vst_ProtectedPVCs (vrg_Status vrg).

Definition reports_conflict (conflictType : string) (v : VolumeReplicationGroup) : option Condition :=
  match FindCondition (vst_Conditions (vrg_Status v)) conflictType with
  | Some c => if bool_decide (cond_Status c = ConditionFalse) then Some c else None
  | None => None
  end.

(** The loop of [findConflictCondition] over the VRGs in the order of the range. *)
Fixpoint find_conflict (conflictType : string) (selected : option Condition)
    (vrgs : list (string * VolumeReplicationGroup)) : option Condition :=
  match vrgs with
  | [] => selected
  | (_, v) :: rest =>
      match reports_conflict conflictType v with
      | Some c => if isVRGPrimary v then Some c
                  else find_conflict conflictType (match selected with None => Some c | s => s end) rest
      | None => find_conflict conflictType selected rest
      end
  end.

Section refresh.
Context `{Env} `{HubReads}.

Definition findConflictCondition (vrgs : gmap string VolumeReplicationGroup) (conflictType : string)
    : Op (option Condition) :=
  t ← tick; mret (find_conflict conflictType None (env_range t vrgs)).

Definition assignConditionsWithConflictCheck (vrgs : gmap string VolumeReplicationGroup)
    (vrg : VolumeReplicationGroup) (conflictType : string) : Op (list Condition) :=
  conflict ← findConflictCondition vrgs conflictType;
  now ← time_Now;
  let conditions := vst_Conditions (vrg_Status vrg) in
  mret (match conflict with
        | Some c => (setConflictStatusCondition now conditions c).2
        | None => conditions
        end).

Definition clusterForVRGStatus : Op string :=
  drpc ← gets w_drpc;
  cd ← getClusterDecision;
  let clusterName := cd_ClusterName cd in
  mret (match dsp_Action (drpc_Spec drpc) with
        | ActionFailover => clusterName
        | ActionRelocate =>
            if bool_decide (dst_ObservedGeneration (drpc_Status drpc) ≠ om_Generation (drpc_Meta drpc))
            then clusterName
            else if IsPreRelocateProgression (dst_Progression (drpc_Status drpc)) then
              let value := map_get (om_Annotations (drpc_Meta drpc)) LastAppDeploymentCluster in
              if bool_decide (value ≠ "") then value else clusterName
            else dsp_PreferredCluster (drpc_Spec drpc)
        | ActionNone => dsp_PreferredCluster (drpc_Spec drpc)
        end).

Definition GetDRPolicy (drpc : DRPlacementControl) : Op (DRPolicy + GoError) :=
  t ← tick;
  mret (match env_get_drpolicy t (dsp_DRPolicyRef (drpc_Spec drpc)) with
        | inl p => inl p
        | inr e => inr (Errorf (error_text e) (Some e))
        end).

Definition GetAvailableS3Profiles (drpc : DRPlacementControl) : Op (list string) :=
  r ← GetDRPolicy drpc;
  match r with
  | inr _ => mret []
  | inl drPolicy =>
      r ← GetDRClusters drPolicy;
      mret (match r with inr _ => [] | inl drClusters => AvailableS3Profiles drClusters end)
  end.

(** [vrgs] is nil ([None]) for a caller that has no views.  Resource versions are
    compared as strings. *)
Definition getVRG (vrgNamespace clusterName : string) (vrgs : option (gmap string VolumeReplicationGroup))
    : Op (option VolumeReplicationGroup) :=
  match vrgs ≫= λ m, m !! clusterName with
  | Some vrg => mret (Some vrg)
  | None =>
      drpc ← gets w_drpc;
      r ← GetVRGFromManagedCluster (om_Name (drpc_Meta drpc)) vrgNamespace clusterName;
      match r with
      | inl vrg => mret (Some vrg)
      | inr _ =>
          profiles ← GetAvailableS3Profiles drpc;
          v ← GetLastKnownVRGPrimaryFromS3 profiles (om_Name (drpc_Meta drpc)) vrgNamespace;
          match v with
          | None =>
              now ← time_Now;
              modify_drpc (λ d, updateProtectedConditionUnknown now
                (d <| drpc_Status ::= λ s, s <| dst_ResourceConditions := zero_vrgconditions |> |>) clusterName);;
              mret None
          | Some vrg =>
              let recorded := vrm_ResourceVersion (vc_ResourceMeta (dst_ResourceConditions (drpc_Status drpc))) in
              mret (if String.ltb (om_ResourceVersion (vrg_Meta vrg)) recorded then None else Some vrg)
          end
      end
  end.

(** The DRPC's status after the VRG's, whose conditions have been checked for conflicts. *)
Definition status_from_vrg (vrg : VolumeReplicationGroup) (s : DRPlacementControlSpec)
    (st : DRPlacementControlStatus) : DRPlacementControlStatus :=
  let vs := vrg_Status vrg in
  let rm := mkVRGResourceMeta (vrg_Kind vrg) (om_Name (vrg_Meta vrg)) (om_Namespace (vrg_Meta vrg))
              (om_Generation (vrg_Meta vrg)) (extractProtectedPVCNames vrg) (vst_PVCGroups vs)
              (om_ResourceVersion (vrg_Meta vrg))
              (match vst_StaticIPDiscoveryStatus vs with Some d => sid_Resources d | None => [] end) in
  let st := st <| dst_ResourceConditions := mkVRGConditions rm (vst_Conditions vs) |> in
  let st := if bool_decide (vst_LastGroupSyncTime vs ≠ None) || bool_decide (dsp_Action s ≠ ActionRelocate)
            then st <| dst_LastGroupSyncTime := vst_LastGroupSyncTime vs |>
                    <| dst_LastGroupSyncDuration := vst_LastGroupSyncDuration vs |>
                    <| dst_LastGroupSyncBytes := vst_LastGroupSyncBytes vs |>
            else st in
  match vst_CaptureToRecoverFrom vs with
  | Some c => st <| dst_LastKubeObjectProtectionTime := Some (kc_EndTime c) |>
  | None => st
  end.

(** The conflict check writes into the VRG it was given: one taken from the views
    carries the changed conditions afterwards. *)
Definition updateResourceCondition (vrgs : option (gmap string VolumeReplicationGroup)) : Op unit :=
  drpc ← gets w_drpc; placement ← gets w_placement;
  r ← selectVRGNamespace drpc placement;
  match r with
  | inr _ => mret ()
  | inl vrgNamespace =>
      clusterName ← clusterForVRGStatus;
      if bool_decide (clusterName = "") then mret ()
      else
        v ← getVRG vrgNamespace clusterName vrgs;
        match v with
        | None => mret ()
        | Some vrg =>
            conditions ← assignConditionsWithConflictCheck (default ∅ vrgs) vrg VRGConditionTypeNoClusterDataConflict;
            let vrg := vrg <| vrg_Status ::= λ s, s <| vst_Conditions := conditions |> |> in
            (if bool_decide (is_Some (vrgs ≫= λ m, m !! clusterName))
             then modify (λ w, w <| w_vrgs ::= <[clusterName := vrg]> |>) else mret ());;
            modify_drpc (λ d, d <| drpc_Status ::= status_from_vrg vrg (drpc_Spec d) |>);;
            now ← time_Now;
            modify_drpc (λ d, updateDRPCProtectedCondition now d vrg clusterName);;
            now ← time_Now;
            modify_drpc (λ d, updateDRPCReplicationHealthyCondition now d vrg)
        end
  end.

(** ** Writing the status *)

Definition observe_generation (d : DRPlacementControl) : DRPlacementControl :=
  d <| drpc_Status ::= λ s, s <| dst_Conditions ::= fmap
    (λ c, c <| cond_ObservedGeneration := om_Generation (drpc_Meta d) |>) |> |>.

(** The action count is written first, with the status kept from the refresh of the
    object that the write brings. *)
Definition persist_action_count : Op (option GoError) :=
  modify_drpc (λ d, (syncDRActionCountAnnotation d).2);;
  d ← gets w_drpc; saved ← gets w_savedDRActionCount;
  let annotation := map_get (om_Annotations (drpc_Meta d)) DRActionCountAnnotation in
  if bool_decide (annotation = saved) then mret None
  else
    err ← Update_drpc;
    match err with
    | Some e => mret (wrapf ("failed to update DRPC dr-action-count annotation: " +:+ error_text e) e)
    | None =>
        modify_status (λ _, drpc_Status d);;
        modify (λ w, w <| w_savedDRActionCount := annotation |>);;
        mret None
    end.

Definition updateDRPCStatus (vrgs : option (gmap string VolumeReplicationGroup)) : Op (option GoError) :=
  err ← persist_action_count;
  match err with
  | Some e => mret (Some e)
  | None =>
      updateResourceCondition vrgs;;
      modify_drpc observe_generation;;
      d ← gets w_drpc; saved ← gets w_savedInstanceStatus;
      if bool_decide (saved = drpc_Status d) then mret None
      else
        now ← time_Now;
        modify_status (λ s, s <| dst_LastUpdateTime := Some now |>);;
        err ← Status_Update_drpc;
        mret (match err with
              | Some e => wrapf ("failed to update DRPC status: " +:+ error_text e) e
              | None => None
              end)
  end.

Definition recordFailure (reason msg : string) : Op unit :=
  needsUpdate ← setCondition ConditionAvailable ConditionFalse reason msg;
  if (needsUpdate : bool) then updateDRPCStatus None;; mret () else mret ().

Definition setDeletionStatusAndUpdate : Op (option GoError) :=
  progressionUpdated ← setProgression ProgressionDeleting;
  d ← gets w_drpc;
  let phaseUpdated := bool_decide (dst_Phase (drpc_Status d) ≠ Deleting) in
  (if (progressionUpdated : bool) then
     now ← time_Now;
     modify_status (λ s, s <| dst_ActionStartTime := Some now |> <| dst_ActionDuration := None |>)
   else mret ());;
  modify_drpc (λ d, d <| drpc_Status ::= λ s,
    s <| dst_Phase := Deleting |> <| dst_ObservedGeneration := om_Generation (drpc_Meta d) |> |>);;
  if (progressionUpdated : bool) || phaseUpdated then
    err ← Status_Update_drpc;
    mret (match err with
          | Some e => wrapf ("failed to update DRPC status: (" +:+ error_text e +:+ ")") e
          | None => None
          end)
  else mret None.
End refresh.

(** ** Frames

    [reads]: only the clock advances.  [status_only]: besides, the in-memory DRPC's
    status and the views may change; its metadata and spec, and everything stored,
    stay. *)

Definition reads (w w' : World) : Prop := ∃ n, w_tick w ≤ n ∧ w' = w <| w_tick := n |>.

Definition stored (w : World) : _ := (w_api_drpc w, w_mws w, w_placement w, w_api_rule w, w_pds w,
  w_savedInstanceStatus w, w_savedDRActionCount w).

Definition status_only (w w' : World) : Prop :=
  drpc_Meta (w_drpc w') = drpc_Meta (w_drpc w) ∧ drpc_Spec (w_drpc w') = drpc_Spec (w_drpc w) ∧
  stored w' = stored w.

#[export] Instance reads_preorder : PreOrder reads.
Proof.
  split; [intros w; exists (w_tick w); by destruct w|].
  intros u v w (n&?&->) (m&?&->). exists m. simpl in *. split; [lia|by destruct u].
Qed.
#[export] Instance status_only_preorder : PreOrder status_only.
Proof.
  split; [done|]. intros u v w (?&?&?) (?&?&?). split_and!; congruence.
Qed.

Lemma reads_status_only w w' : reads w w' → status_only w w'.
Proof. by intros (n&_&->). Qed.

Create HintDb reads discriminated.
#[export] Hint Constants Opaque : reads.
Ltac reads := repeat preserves_step ltac:(solve [auto with reads nocore]).

Section frames.
Context `{Env} `{HubReads}.

Lemma tick_reads : preserves reads tick.
Proof. intros w. exists (S (w_tick w)). simpl. split; [lia|by destruct w]. Qed.
#[local] Hint Resolve tick_reads : reads.

Lemma time_Now_reads : preserves reads time_Now.
Proof. unfold time_Now. reads. Qed.
Lemma api_err_reads : preserves reads api_err.
Proof. unfold api_err. reads. Qed.
Lemma GetVRGFromManagedCluster_reads n ns c : preserves reads (GetVRGFromManagedCluster n ns c).
Proof. unfold GetVRGFromManagedCluster. reads. Qed.
#[local] Hint Resolve time_Now_reads api_err_reads GetVRGFromManagedCluster_reads : reads.

Lemma getClusterDecision_reads : preserves reads getClusterDecision.
Proof. unfold getClusterDecision, getClusterDecisionFromPlacement, getPlacementDecisionFromPlacement. reads. Qed.
Lemma selectVRGNamespace_reads d p : preserves reads (selectVRGNamespace d p).
Proof. unfold selectVRGNamespace, getApplicationDestinationNamespace. reads. Qed.
Lemma GetDRClusters_reads p : preserves reads (GetDRClusters p).
Proof. unfold GetDRClusters. induction (DRPolicyClusterNames p); simpl; reads. Qed.
Lemma GetDRPolicy_reads d : preserves reads (GetDRPolicy d).
Proof. unfold GetDRPolicy. reads. Qed.
#[local] Hint Resolve getClusterDecision_reads selectVRGNamespace_reads GetDRClusters_reads GetDRPolicy_reads : reads.
Lemma GetAvailableS3Profiles_reads d : preserves reads (GetAvailableS3Profiles d).
Proof. unfold GetAvailableS3Profiles. reads. Qed.
Lemma GetLastKnownVRGPrimaryFromS3_reads ps n ns : preserves reads (GetLastKnownVRGPrimaryFromS3 ps n ns).
Proof.
  unfold GetLastKnownVRGPrimaryFromS3. generalize (@None VolumeReplicationGroup).
  induction ps; intros; simpl; reads.
Qed.
Lemma assignConditions_reads m v t : preserves reads (assignConditionsWithConflictCheck m v t).
Proof. unfold assignConditionsWithConflictCheck, findConflictCondition. reads. Qed.
Lemma clusterForVRGStatus_reads : preserves reads clusterForVRGStatus.
Proof. unfold clusterForVRGStatus. reads. Qed.

(** ** Conflicts *)

Lemma find_conflict_selected t c l : is_Some (find_conflict t (Some c) l).
Proof.
  induction l as [|[k v] l IH]; simpl; [done|].
  destruct (reports_conflict t v); [|done]. by destruct (isVRGPrimary v).
Qed.

(** A conflict that any VRG reports is found, whatever the order of the range, and a
    primary's is preferred. *)
Lemma find_conflict_found t l c v :
  (c, v) ∈ l → is_Some (reports_conflict t v) → is_Some (find_conflict t None l).
Proof.
  intros Hin [r Hr]. induction l as [|[k u] l IH]; [by apply elem_of_nil in Hin|]. simpl.
  apply elem_of_cons in Hin as [[= <- <-]|Hin].
  - rewrite Hr. destruct (isVRGPrimary v); [done|]. apply find_conflict_selected.
  - destruct (reports_conflict t u) as [x|]; [|by apply IH].
    destruct (isVRGPrimary u); [done|]. apply find_conflict_selected.
Qed.

Lemma find_conflict_reported t sel l x :
  find_conflict t sel l = Some x → sel = Some x ∨ ∃ c v, (c, v) ∈ l ∧ reports_conflict t v = Some x.
Proof.
  revert sel. induction l as [|[k u] l IH]; intros sel; simpl; [by left|].
  destruct (reports_conflict t u) as [y|] eqn:Ey.
  - destruct (isVRGPrimary u).
    + intros [= <-]. right. exists k, u. split; [apply elem_of_cons; by left|done].
    + intros E. apply IH in E as [E|(c&v&Hin&Hr)].
      * destruct sel as [z|]; [by left|]. injection E as <-. right. exists k, u. split; [apply elem_of_cons; by left|done].
      * right. exists c, v. split; [apply elem_of_cons; by right|done].
  - intros E. apply IH in E as [E|(c&v&Hin&Hr)]; [by left|].
    right. exists c, v. split; [apply elem_of_cons; by right|done].
Qed.

Lemma reports_conflict_spec t v x :
  reports_conflict t v = Some x → cond_Type x = t ∧ cond_Status x = ConditionFalse.
Proof.
  unfold reports_conflict. destruct (FindCondition _ t) as [c|] eqn:E; [|done].
  case_bool_decide; [|done]. intros [= <-]. split; [by eapply FindCondition_type|done].
Qed.

Lemma setConflictStatusCondition_status now conds x :
  ∃ c, FindCondition (setConflictStatusCondition now conds x).2 (cond_Type x) = Some c ∧
       cond_Status c = cond_Status x.
Proof.
  unfold setConflictStatusCondition. destruct (FindCondition conds (cond_Type x)) as [c|] eqn:E; simpl.
  - rewrite (FindCondition_update_same _ (overwrite_conflict_type now x)), E. simpl. eexists. split; [done|].
    unfold overwrite_conflict. repeat case_bool_decide; simpl in *; bools; try done;
      by repeat match goal with H : _ || _ = _ |- _ => revert H end.
  - exists (x <| cond_LastTransitionTime := now |>). split; [|done].
    pose proof (FindCondition_app_same conds (x <| cond_LastTransitionTime := now |>)) as F. simpl in *. by apply F.
Qed.

Definition protected_is (st : ConditionStatus) (d : DRPlacementControl) : Prop :=
  ∃ c, FindCondition (dst_Conditions (drpc_Status d)) ConditionProtected = Some c ∧ cond_Status c = st.

Lemma FindCondition_remove_other conds t t' :
  t' ≠ t → FindCondition (RemoveStatusCondition conds t) t' = FindCondition conds t'.
Proof.
  intros Hne. unfold FindCondition, RemoveStatusCondition. induction conds as [|c l IH]; [done|]. simpl.
  unfold has_type at 2. case_bool_decide as E; simpl.
  - rewrite bool_decide_eq_false_2 by congruence. done.
  - unfold has_type at 1. by case_bool_decide.
Qed.

Lemma healthy_keeps_protected now d v st :
  protected_is st (updateDRPCReplicationHealthyCondition now d v) ↔ protected_is st d.
Proof.
  unfold updateDRPCReplicationHealthyCondition, protected_is.
  destruct (FindCondition (vst_Conditions (vrg_Status v)) _).
  - simpl. by rewrite addOrUpdateCondition_other.
  - simpl. by rewrite FindCondition_remove_other.
Qed.

Lemma verdict_unprotects now d t :
  t.1.1 ≠ ConditionTrue → ¬ protected_is ConditionTrue (set_condition now d ConditionProtected t).
Proof.
  destruct t as [[st r] m]. simpl. intros Hne (c&Hc&E). apply Hne. rewrite <- E.
  symmetry. exact (addOrUpdateCondition_status _ _ _ _ _ _ _ _ Hc).
Qed.

(** Once the conflict found is among its conditions, a VRG does not protect. *)
Lemma conflict_not_protecting now v x :
  cond_Type x = VRGConditionTypeNoClusterDataConflict → cond_Status x = ConditionFalse →
  protecting (v <| vrg_Status ::= λ s, s <| vst_Conditions :=
    (setConflictStatusCondition now (vst_Conditions (vrg_Status v)) x).2 |> |>) = false.
Proof.
  intros Ht Hs. unfold protecting.
  match goal with |- context [vrg_condition_met ?o ?t] =>
    replace (vrg_condition_met o t) with false; [by rewrite andb_false_r|] end.
  simpl. destruct (setConflictStatusCondition_status now (vst_Conditions (vrg_Status v)) x) as (c&Ec&Es).
  rewrite Ht in Ec. rewrite Ec, Es, Hs. done.
Qed.

Lemma modify_drpc_run f w : w_drpc (modify_drpc f w).2 = f (w_drpc w).
Proof. done. Qed.
Lemma time_Now_drpc w : w_drpc (time_Now w).2 = w_drpc w.
Proof. done. Qed.

(** The cluster whose VRG the status reflects. *)
Definition status_cluster (w : World) : string :=
  (clusterForVRGStatus (selectVRGNamespace (w_drpc w) (w_placement w) w).2).1.

Lemma getVRG_none ns c vrgs w :
  (getVRG ns c vrgs w).1 = None →
  w_drpc (getVRG ns c vrgs w).2 = w_drpc w ∨ ¬ protected_is ConditionTrue (w_drpc (getVRG ns c vrgs w).2).
Proof.
  unfold getVRG. destruct (vrgs ≫= _); [done|]. rewrite run_bind. cbn [gets fst snd]. rewrite run_bind.
  pose proof (GetVRGFromManagedCluster_reads (om_Name (drpc_Meta (w_drpc w))) ns c w) as (n&_&->).
  destruct (GetVRGFromManagedCluster _ ns c w).1; [done|]. rewrite run_bind.
  set (w1 := w <| w_tick := n |>).
  pose proof (GetAvailableS3Profiles_reads (w_drpc w) w1) as (n2&_&E2). rewrite E2, run_bind. clear E2.
  set (w2 := w1 <| w_tick := n2 |>).
  pose proof (GetLastKnownVRGPrimaryFromS3_reads (GetAvailableS3Profiles (w_drpc w) w1).1
    (om_Name (drpc_Meta (w_drpc w))) ns w2) as (n3&_&E3). rewrite E3.
  destruct (GetLastKnownVRGPrimaryFromS3 _ _ ns w2).1 as [v|]; [by left|]. intros _. right.
  by apply verdict_unprotects.
Qed.

Lemma getVRG_status_only ns c vrgs : preserves status_only (getVRG ns c vrgs).
Proof.
  assert (R : ∀ A (m : Op A), preserves reads m → preserves status_only m).
  { intros A m. apply preserves_mono, reads_status_only. }
  unfold getVRG. repeat preserves_step ltac:(first
    [ apply R; solve [auto using GetVRGFromManagedCluster_reads, GetAvailableS3Profiles_reads,
        GetLastKnownVRGPrimaryFromS3_reads, time_Now_reads]
    | apply preserves_modify; done ]).
Qed.

Lemma assignConditions_conflict vrgs c v u t w :
  vrgs !! c = Some v → is_Some (reports_conflict t v) →
  ∃ now x, cond_Type x = t ∧ cond_Status x = ConditionFalse ∧
    (assignConditionsWithConflictCheck vrgs u t w).1 =
    (setConflictStatusCondition now (vst_Conditions (vrg_Status u)) x).2.
Proof.
  intros Hv Hr. unfold assignConditionsWithConflictCheck, findConflictCondition. rewrite !run_bind. simpl.
  destruct (find_conflict_found t (env_range (w_tick w) vrgs) c v) as [x Ex];
    [rewrite env_range_perm; by apply elem_of_map_to_list|done|].
  rewrite Ex. eexists _, x. apply find_conflict_reported in Ex as [?|(?&?&_&Hx)]; [done|].
  by apply reports_conflict_spec in Hx as [-> ->].
Qed.

(** a conflict of cluster data that any view reports keeps the workload from
    counting as protected: a refresh of the status from views of which one reports a
    conflict leaves the Protected condition other than true, or leaves the DRPC
    alone because there is no VRG to refresh it from (the VRG's namespace or cluster is
    not known, or the cluster has no view). *)
Theorem conflict_unprotects vrgs w c v :
  vrgs !! c = Some v → is_Some (reports_conflict VRGConditionTypeNoClusterDataConflict v) →
  let w' := (updateResourceCondition (Some vrgs) w).2 in
  ¬ protected_is ConditionTrue (w_drpc w') ∨
  w_drpc w' = w_drpc w ∧
  ((∃ e, (selectVRGNamespace (w_drpc w) (w_placement w) w).1 = inr e) ∨ status_cluster w = "" ∨
   vrgs !! status_cluster w = None).
Proof.
  intros Hv Hr. unfold updateResourceCondition. do 2 (rewrite run_bind; cbn [gets fst snd]). rewrite run_bind.
  unfold status_cluster.
  pose proof (selectVRGNamespace_reads (w_drpc w) (w_placement w) w) as (n1&_&E1). rewrite E1. clear E1.
  destruct (selectVRGNamespace _ _ w).1 as [ns|e]; [|right; split; [done|left; by exists e]].
  set (w1 := w <| w_tick := n1 |>). rewrite run_bind.
  pose proof (clusterForVRGStatus_reads w1) as (n2&_&E2). rewrite E2. clear E2.
  set (k := (clusterForVRGStatus w1).1). set (w2 := w1 <| w_tick := n2 |>).
  case_bool_decide as Ek; [right; split; [done|by right; left]|]. rewrite run_bind.
  destruct (getVRG ns k (Some vrgs) w2).1 as [u|] eqn:Eu.
  - set (w3 := (getVRG ns k (Some vrgs) w2).2). left. rewrite run_bind.
    destruct (assignConditions_conflict vrgs c v u _ w3 Hv Hr) as (now&x&Ht&Hs&Ea).
    change (default ∅ (Some vrgs)) with vrgs.
    rewrite Ea. set (w4 := (assignConditionsWithConflictCheck _ _ _ w3).2). cbv zeta.
    do 5 rewrite run_bind. rewrite modify_drpc_run, healthy_keeps_protected, time_Now_drpc, modify_drpc_run.
    apply verdict_unprotects. rewrite protected_verdict_true, conflict_not_protecting; done.
  - destruct (getVRG_none _ _ _ _ Eu) as [E|E]; [|by left]. right. split; [exact E|]. right. right.
    revert Eu. unfold getVRG. simpl. by destruct (vrgs !! k).
Qed.

(** ** The status is stored *)

Definition action_count (d : DRPlacementControl) : string :=
  map_get (om_Annotations (drpc_Meta d)) DRActionCountAnnotation.

(** What [Reconcile] saves of the DRPC when it begins is what the server has. *)
Definition saved_at_start (w : World) : Prop :=
  w_savedInstanceStatus w = drpc_Status (w_api_drpc w) ∧ w_savedDRActionCount w = action_count (w_api_drpc w).

Lemma sync_keeps d :
  drpc_Status (syncDRActionCountAnnotation d).2 = drpc_Status d ∧
  drpc_Spec (syncDRActionCountAnnotation d).2 = drpc_Spec d ∧
  om_Generation (drpc_Meta (syncDRActionCountAnnotation d).2) = om_Generation (drpc_Meta d).
Proof.
  unfold syncDRActionCountAnnotation. destruct (next_counts _ _); [|done].
  unfold AddAnnotation. by case_bool_decide.
Qed.

Lemma persist_action_count_stored w :
  saved_at_start w → (persist_action_count w).1 = None →
  let w1 := (persist_action_count w).2 in
  w_savedInstanceStatus w1 = drpc_Status (w_api_drpc w1) ∧
  action_count (w_api_drpc w1) = action_count (w_drpc w1) ∧
  om_Generation (drpc_Meta (w_drpc w1)) = om_Generation (drpc_Meta (w_drpc w)).
Proof.
  intros [Es Ea]. unfold persist_action_count. do 3 (rewrite run_bind; cbn [gets fst snd modify_drpc modify]).
  destruct (sync_keeps (w_drpc w)) as (E1&_&E3).
  case_bool_decide as E; [simpl; intros _; split_and!; [done|unfold action_count in *; simpl in *; congruence|done]|].
  rewrite run_bind. unfold Update_drpc, api_err. rewrite !run_bind. simpl.
  destruct (env_api_err _); [done|]. simpl. done.
Qed.

Lemma updateResourceCondition_status_only vrgs : preserves status_only (updateResourceCondition vrgs).
Proof.
  assert (R : ∀ A (m : Op A), preserves reads m → preserves status_only m).
  { intros A m. apply preserves_mono, reads_status_only. }
  unfold updateResourceCondition. repeat preserves_step ltac:(first
    [ apply getVRG_status_only
    | apply R; solve [auto using selectVRGNamespace_reads, clusterForVRGStatus_reads, assignConditions_reads, time_Now_reads]
    | apply preserves_modify; intros w; unfold status_only, updateDRPCReplicationHealthyCondition,
        updateDRPCProtectedCondition, set_condition; repeat case_match; done ]).
Qed.

(** an update of the status that reports success leaves nothing behind in memory:
    the server's DRPC has the in-memory status and action count, and all conditions of
    the status are of the DRPC's generation. *)
Theorem status_update_persists vrgs w :
  saved_at_start w → (updateDRPCStatus vrgs w).1 = None →
  let w' := (updateDRPCStatus vrgs w).2 in
  drpc_Status (w_api_drpc w') = drpc_Status (w_drpc w') ∧
  action_count (w_api_drpc w') = action_count (w_drpc w') ∧
  Forall (λ c, cond_ObservedGeneration c = om_Generation (drpc_Meta (w_drpc w)))
    (dst_Conditions (drpc_Status (w_drpc w'))).
Proof.
  intros Hs. unfold updateDRPCStatus. rewrite run_bind.
  pose proof (persist_action_count_stored w Hs) as P.
  destruct (persist_action_count w).1 as [e|]; [done|]. destruct (P eq_refl) as (Es&Ec&Eg). clear P.
  set (w1 := (persist_action_count w).2) in *. rewrite run_bind.
  destruct (updateResourceCondition_status_only vrgs w1) as (Em&_&Est). unfold stored in Est.
  set (w2 := (updateResourceCondition vrgs w1).2) in *. clearbody w2 w1. injection Est as Ea _ _ _ _ Esv _.
  do 3 (rewrite run_bind; cbn [gets fst snd modify_drpc modify]).
  assert (F : Forall (λ c, cond_ObservedGeneration c = om_Generation (drpc_Meta (w_drpc w)))
                (dst_Conditions (drpc_Status (observe_generation (w_drpc w2))))).
  { unfold observe_generation. simpl. apply Forall_fmap, Forall_true. intros c. simpl. congruence. }
  case_bool_decide as E.
  - intros _. simpl in *. split_and!; [congruence|unfold action_count in *; simpl; congruence|done].
  - unfold Status_Update_drpc, api_err. rewrite !run_bind. simpl.
    destruct (env_api_err _); [done|]. intros _. simpl. done.
Qed.
End frames.

(** Primary on east; west reports conflicting data. *)
Module RefreshCase.
#[export] Instance env : Env := calm (shown home_east).
#[export] Instance hub_reads : HubReads := {|
  env_list_appsets := λ _, inl None;
  env_get_drcluster := λ _ c, inl (drcluster c ConditionFalse);
  env_get_drpolicy := λ _ _, inl (policy "5m");
|}.
Definition conflicting : VolumeReplicationGroup :=
  as_secondary <| vrg_Status ::= λ s, s <| vst_Conditions :=
    [condition VRGConditionTypeNoClusterDataConflict ConditionFalse] |> |>.
Definition views : gmap string VolumeReplicationGroup := {["east" := as_primary; "west" := conflicting]}.
Definition start : World := hub (drpc ActionNone false) views "east".
End RefreshCase.

Lemma conflict_unprotects_witness :
  ¬ protected_is ConditionTrue (w_drpc (@updateResourceCondition RefreshCase.env RefreshCase.hub_reads
      (Some RefreshCase.views) RefreshCase.start).2).
Proof.
  destruct (@conflict_unprotects RefreshCase.env RefreshCase.hub_reads RefreshCase.views RefreshCase.start "west"
              RefreshCase.conflicting) as [P|[_ [[e E]|[E|E]]]];
    [vm_compute; reflexivity|eexists; vm_compute; reflexivity|exact P|vm_compute in E; discriminate E..].
Defined.

Lemma status_update_persists_witness :
  let w' := (@updateDRPCStatus RefreshCase.env RefreshCase.hub_reads (Some RefreshCase.views) RefreshCase.start).2 in
  drpc_Status (w_api_drpc w') = drpc_Status (w_drpc w').
Proof.
  apply (@status_update_persists RefreshCase.env RefreshCase.hub_reads (Some RefreshCase.views) RefreshCase.start);
    [split; vm_compute; reflexivity|vm_compute; reflexivity].
Defined.
