(* ===== verification/DRPCLifecycle.v ===== *)
(** * A DRPC's objects from creation to deletion

    internal/controller/drplacementcontrol_controller.go: the metadata by which a DRPC
    takes hold of the user's placement ([updateAndSetOwner]), the PlacementRule cloned
    for a DRPC without a preferred cluster, and the deletion of a DRPC
    ([processDeletion]) with its VRGs, ManifestWorks and views. *)

From Stdlib Require Import ZArith.
From S2P Require Import Prelude Meta Names Conditions Api PeerClasses Events Telemetry.
From S2P Require Import Hub ManifestWorks Placement VRGBuild DRPCStatus DRPCWorks DRPC HubRecovery.
From S2P Require Import StatusRefresh RecoverySpec Scenario.

Definition OCMBackupLabelValue : string := "ramen".
Definition ClusterNameLabelKey : string := "name".
Definition LabelSelectorOpIn : string := "In".

(** What the deletion calls outside the modelled parts: the removal of the VolSync
    secret's policy, and the deletion of a ManagedClusterView of the given type, name
    and namespace on a cluster; and the clusters the user's PlacementRule lists. *)
Class LifecycleEnv := {
  env_CleanupSecretPropagation : nat → string → string → option GoError;
  env_DeleteManagedClusterView : nat → string → string → string → string → option GoError;
  env_userRuleClusters : list string;
}.

(** ** Pure parts *)

Definition sync_expression (clusterName : string) (e : MatchExpression) : MatchExpression :=
  if bool_decide (me_Key e ≠ ClusterNameLabelKey) || bool_decide (me_Operator e ≠ LabelSelectorOpIn) then e
  else e <| me_Values := [clusterName] |>.

(** The value reports whether an expression changed. *)
Definition syncPlacementPredicateClusterName (predicates : list (list MatchExpression)) (clusterName : string)
    : bool * list (list MatchExpression) :=
  let synced := fmap (sync_expression clusterName) <$> predicates in
  (bool_decide (synced ≠ predicates), synced).

Definition set_placement_meta (f : ObjectMeta → ObjectMeta) (p : UserPlacement) : UserPlacement :=
  match p with
  | PlacementRule m d => PlacementRule (f m) d
  | Placement m => Placement (f m)
  | NoPlacement => NoPlacement
  end.

Section lifecycle.
Context `{Env} `{HubReads} `{LifecycleEnv}.

Definition modify_placement (f : ObjectMeta → ObjectMeta) : Op unit :=
  modify (λ w, w <| w_placement ::= set_placement_meta f |>).

(** [r.Update(ctx, placementObj)] *)
Definition Update_placement : Op (option GoError) :=
  e ← api_err;
  match e with
  | Some e => mret (Some e)
  | None =>
      modify (λ w, w <| w_api_placement := Some (placement_meta (w_placement w), w_predicates w) |>);;
      mret None
  end.

(** ** Taking hold of the placement *)

Definition annotateObject : Op (option GoError) :=
  drpc ← gets w_drpc; p ← gets w_placement;
  let obj := placement_meta p in
  let name := om_Name (drpc_Meta drpc) in
  let namespace := om_Namespace (drpc_Meta drpc) in
  if ResourceIsDeleted obj then mret None
  else
    let ownerName := map_get (om_Annotations obj) DRPCNameAnnotation in
    let ownerNamespace := map_get (om_Annotations obj) DRPCNamespaceAnnotation in
    if bool_decide (ownerName = "") then
      modify_placement (λ m, m <| om_Annotations ::= λ a,
        <[DRPCNamespaceAnnotation := namespace]> (<[DRPCNameAnnotation := name]> a) |>);;
      err ← Update_placement;
      mret (match err with
            | Some e => wrapf ("failed to update Object " +:+ om_Name obj +:+ " annotation '" +:+
                          DRPCNameAnnotation +:+ "/" +:+ name +:+ "' (" +:+ error_text e +:+ ")") e
            | None => None
            end)
    else if bool_decide (ownerName ≠ name) || bool_decide (ownerNamespace ≠ namespace)
    then mret (errorf ("object " +:+ om_Name obj +:+ " not owned by this DRPC '" +:+ name +:+ "/" +:+
                 namespace +:+ "'"))
    else mret None.

Definition updateObjectMetadata : Op (option GoError) :=
  d ← gets w_drpc; p ← gets w_placement;
  let '(labelled, m) := AddLabel (drpc_Meta d) OCMBackupLabelKey OCMBackupLabelValue in
  let '(finalized, m) := AddFinalizer m DRPCFinalizer in
  modify_drpc (λ d, d <| drpc_Meta := m |>);;
  r ← selectVRGNamespace (d <| drpc_Meta := m |>) p;
  match r with
  | inr e => mret (Some e)
  | inl vrgNamespace =>
      let '(annotated, m) := AddAnnotation m DRPCAppNamespace vrgNamespace in
      modify_drpc (λ d, d <| drpc_Meta := m |>);;
      err ← (if labelled || finalized || annotated then Update_drpc else mret None);
      match err with
      | Some e => mret (wrapf (error_text e) e)
      | None =>
          let '(finalizerAdded, pm) := AddFinalizer (placement_meta p) DRPCFinalizer in
          if (finalizerAdded : bool) then
            modify_placement (λ _, pm);;
            err ← Update_placement;
            mret (match err with Some e => wrapf (error_text e) e | None => None end)
          else mret None
      end
  end.

Definition setDRPCOwner : Op (bool * option GoError) :=
  d ← gets w_drpc; p ← gets w_placement;
  let owner := placement_meta p in
  if existsb (λ r, bool_decide (or_Name r = om_Name owner)) (om_OwnerReferences (drpc_Meta d))
  then mret (false, None)
  else match SetControllerReference (placement_gvk p) owner (drpc_Meta d) with
       | inr e => mret (false, wrapf ("failed to set DRPC owner " +:+ error_text e) e)
       | inl m =>
           modify_drpc (λ d, d <| drpc_Meta := m |>);;
           err ← Update_drpc;
           mret (match err with
                 | Some e => (false, wrapf ("failed to update drpc " +:+ om_Name m +:+ " (" +:+ error_text e +:+ ")") e)
                 | None => (true, None)
                 end)
       end.

Definition updateAndSetOwner : Op (bool * option GoError) :=
  err ← annotateObject;
  match err with
  | Some e => mret (false, Some e)
  | None =>
      err ← updateObjectMetadata;
      match err with
      | Some e => mret (false, Some e)
      | None => setDRPCOwner
      end
  end.

(** ** The cloned PlacementRule *)

Definition ClonedPlacementRuleName (drpc : DRPlacementControl) : string :=
  "drpc-plrule-" +:+ om_Name (drpc_Meta drpc) +:+ "-" +:+ om_Namespace (drpc_Meta drpc).

Definition getClonedPlacementRule (name namespace : string) : Op (ClonedRule + GoError) :=
  e ← api_err; rules ← gets w_rules;
  let failed e := inr (Errorf ("failed to get placementrule error: " +:+ error_text e) (Some e)) in
  mret (match e with
        | Some e => failed e
        | None => match rules !! (namespace, name) with Some r => inl r | None => failed (not_found name) end
        end).

Definition addClusterPeersToPlacementRule (drPolicy : DRPolicy) (plRule : ClonedRule) : ClonedRule + GoError :=
  match DRPolicyClusterNames drPolicy with
  | [] => inr (Errorf ("DRPolicy " +:+ om_Name (drp_Meta drPolicy) +:+ " is missing DR clusters") None)
  | names => inl (plRule <| cr_Clusters ::= λ l, l ++ names |>)
  end.

(** The clone is created in the user's rule's namespace, without a status. *)
Definition clonePlacementRule (drPolicy : DRPolicy) (userPlRule : ObjectMeta) (clonedPlRuleName : string)
    : Op (ClonedRule + GoError) :=
  let m := userPlRule <| om_Name := clonedPlRuleName |> <| om_ResourceVersion := "" |> in
  let m := (AddLabel m CreatedByRamenLabel "true").2 in
  match addClusterPeersToPlacementRule drPolicy (mkClonedRule m env_userRuleClusters "" []) with
  | inr e => mret (inr e)
  | inl rule =>
      let key := (om_Namespace m, om_Name m) in
      e ← api_err; rules ← gets w_rules;
      let failed e := inr (Errorf ("failed to create PlacementRule: " +:+ error_text e) (Some e)) in
      match e, rules !! key with
      | Some e, _ => mret (failed e)
      | None, Some _ => mret (failed (already_exists clonedPlRuleName))
      | None, None => modify (λ w, w <| w_rules ::= <[key := rule]> |>);; mret (inl rule)
      end
  end.

Definition getOrClonePlacementRule (drPolicy : DRPolicy) (userPlRule : ObjectMeta) : Op (ClonedRule + GoError) :=
  drpc ← gets w_drpc;
  let name := ClonedPlacementRuleName drpc in
  r ← getClonedPlacementRule name (om_Namespace (drpc_Meta drpc));
  match r with
  | inl rule => mret (inl rule)
  | inr e =>
      if IsNotFound e then
        r ← clonePlacementRule drPolicy userPlRule name;
        mret (match r with
              | inl rule => inl rule
              | inr e => inr (Errorf ("failed to create cloned placementrule error: " +:+ error_text e) (Some e))
              end)
      else mret (inr e)
  end.

Definition ErrInitialWaitTimeForDRPCPlacementRule : GoError :=
  Errorf "waiting for DRPC Placement to produces placement decision" None.

Definition getDRPCPlacementRule (drPolicy : DRPolicy) : Op (option GoError) :=
  drpc ← gets w_drpc; p ← gets w_placement;
  if bool_decide (dsp_PreferredCluster (drpc_Spec drpc) = "") then
    match p with
    | PlacementRule m _ =>
        r ← getOrClonePlacementRule drPolicy m;
        mret (match r with
              | inr e => Some e
              | inl rule => if bool_decide (length (cr_Decisions rule) = 0)
                            then Some ErrInitialWaitTimeForDRPCPlacementRule else None
              end)
    | _ => mret (errorf "invalid user PlacementRule")
    end
  else mret None.

Definition deleteClonedPlacementRule (name namespace : string) : Op (option GoError) :=
  r ← getClonedPlacementRule name namespace;
  match r with
  | inr e => mret (if IsNotFound e then None else Some e)
  | inl rule =>
      err ← api_err;
      match err with
      | Some e => mret (wrapf ("failed to delete cloned plRule " +:+ error_text e) e)
      | None => modify (λ w, w <| w_rules ::= delete (namespace, name) |>);; mret None
      end
  end.

(** ** Deleting the VRGs *)

(** The loop of [ensureVRGsDeleted]; the value is an error, or whether a VRG of the
    state was found. *)
Fixpoint delete_vrgs (drpc : DRPlacementControl) (vrgNamespace : string)
    (vrgs : gmap string VolumeReplicationGroup) (replicationState : ReplicationState) (inProgress : bool)
    (l : list (string * VolumeReplicationGroup)) : Op (bool + GoError) :=
  match l with
  | [] => mret (inl inProgress)
  | (cluster, vrg) :: rest =>
      if bool_decide (vsp_ReplicationState (vrg_Spec vrg) = replicationState) then
        managed ← ensureVRGsManagedByDRPC vrgs drpc vrgNamespace;
        if negb managed
        then mret (inr (Errorf (ReplicationState_string replicationState +:+ " VRG adoption in progress") None))
        else
          err ← DeleteManifestWork (BuildManifestWorkName (om_Name (drpc_Meta drpc)) vrgNamespace MWTypeVRG) cluster;
          match err with
          | Some e => mret (inr (Errorf ("failed to delete " +:+ ReplicationState_string replicationState +:+
                        " VRG manifestwork for cluster " +:+ quoted cluster +:+ ": " +:+ error_text e) (Some e)))
          | None => delete_vrgs drpc vrgNamespace vrgs replicationState true rest
          end
      else delete_vrgs drpc vrgNamespace vrgs replicationState inProgress rest
  end.

Definition ensureVRGsDeleted (vrgs : gmap string VolumeReplicationGroup) (drpc : DRPlacementControl)
    (vrgNamespace : string) (replicationState : ReplicationState) : Op (option GoError) :=
  t ← tick;
  r ← delete_vrgs drpc vrgNamespace vrgs replicationState false (env_range t vrgs);
  mret (match r with
        | inr e => Some e
        | inl true => errorf (ReplicationState_string replicationState +:+ " VRG manifestwork deletion in progress")
        | inl false => None
        end).

(** The first error of a loop that stops at it. *)
Fixpoint each {A} (f : A → Op (option GoError)) (l : list A) : Op (option GoError) :=
  match l with
  | [] => mret None
  | x :: l' => err ← f x; match err with Some e => mret (Some e) | None => each f l' end
  end.

Definition DeleteManagedClusterView (mwType name namespace cluster : string) : Op (option GoError) :=
  t ← tick; mret (env_DeleteManagedClusterView t mwType name namespace cluster).

Definition deleteProtectedNamespaceMCVs (drpc : DRPlacementControl) (clusterName : string) : Op (option GoError) :=
  if negb (isDiscoveredApp drpc) then mret None
  else each (λ ns,
         err ← DeleteManagedClusterView MWTypeNS ns "" clusterName;
         mret (match err with
               | Some e => wrapf ("failed to delete namespace MCV for " +:+ quoted ns +:+ ": " +:+ error_text e) e
               | None => None
               end)) (default [] (dsp_ProtectedNamespaces (drpc_Spec drpc))).

Definition deleteAllManagedClusterViews (drpc : DRPlacementControl) (clusterNames : list string)
    (vrgNamespace : string) : Op (option GoError) :=
  each (λ drClusterName,
    err ← DeleteManagedClusterView MWTypeVRG (om_Name (drpc_Meta drpc)) vrgNamespace drClusterName;
    match err with
    | Some e => mret (wrapf ("failed to delete VRG MCV " +:+ error_text e) e)
    | None =>
        err ← deleteProtectedNamespaceMCVs drpc drClusterName;
        match err with
        | Some e => mret (Some e)
        | None =>
            match dsp_KubeObjectProtection (drpc_Spec drpc) ≫= kop_RecipeRef with
            | Some recipeRef =>
                err ← DeleteManagedClusterView MWTypeRecipe (rr_Name recipeRef) (rr_Namespace recipeRef) drClusterName;
                mret (match err with
                      | Some e => wrapf ("failed to delete recipe MCV " +:+ error_text e) e
                      | None => None
                      end)
            | None => mret None
            end
        end
    end) clusterNames.

Definition cleanupVRGs (drPolicy : DRPolicy) (drpc : DRPlacementControl) (vrgNamespace : string)
    : Op (option GoError) :=
  r ← GetDRClusters drPolicy;
  match r with
  | inr e => mret (wrapf ("failed to get drclusters. Error (" +:+ error_text e +:+ ")") e)
  | inl drClusters =>
      r ← getVRGsFromManagedClusters drpc drClusters vrgNamespace;
      match r with
      | (_, _, _, Some e) =>
          mret (wrapf ("failed to retrieve VRGs. We'll retry later. Error (" +:+ error_text e +:+ ")") e)
      | (vrgs, _, _, None) =>
          err ← ensureVRGsDeleted vrgs drpc vrgNamespace Secondary;
          match err with
          | Some e => mret (Some e)
          | None =>
              err ← ensureVRGsDeleted vrgs drpc vrgNamespace Primary;
              match err with
              | Some e => mret (Some e)
              | None =>
                  if bool_decide (size vrgs ≠ 0) then mret (errorf "waiting for VRGs count to go to zero")
                  else
                    err ← deleteAllManagedClusterViews drpc (DRPolicyClusterNames drPolicy) vrgNamespace;
                    mret (match err with
                          | Some e => wrapf ("error in deleting MCV (" +:+ error_text e +:+ ")") e
                          | None => None
                          end)
              end
          end
      end
  end.

(** ** Deleting the DRPC *)

Definition deleteNamespaceManifestWorks (drpc : DRPlacementControl) (drPolicy : DRPolicy) (vrgNamespace : string)
    : Op (option GoError) :=
  let namespaces := if isDiscoveredApp drpc then default [] (dsp_ProtectedNamespaces (drpc_Spec drpc))
                    else [vrgNamespace] in
  each (λ ns, each (λ clusterName,
    DeleteNamespaceManifestWork (ManifestWorkName (om_Name (drpc_Meta drpc)) ns MWTypeNS) clusterName)
    (DRPolicyClusterNames drPolicy)) namespaces.

Definition finalizeDRPC : Op (option GoError) :=
  drpc ← gets w_drpc; p ← gets w_placement;
  let name := om_Name (drpc_Meta drpc) in
  err ← (if bool_decide (dsp_PreferredCluster (drpc_Spec drpc) = "")
         then deleteClonedPlacementRule (ClonedPlacementRuleName drpc) (om_Namespace (drpc_Meta drpc))
         else mret None);
  match err with
  | Some e => mret (Some e)
  | None =>
      r ← selectVRGNamespace drpc p;
      match r with
      | inr e => mret (Some e)
      | inl vrgNamespace =>
          r ← GetDRPolicy drpc;
          match r with
          | inr e => mret (wrapf ("failed to get DRPolicy while finalizing DRPC (" +:+ error_text e +:+ ")") e)
          | inl drPolicy =>
              t ← tick;
              match env_CleanupSecretPropagation t name (om_Namespace (drpc_Meta drpc)) with
              | Some e => mret (wrapf ("failed to clean up volsync secret-related resources (" +:+ error_text e +:+ ")") e)
              | None =>
                  err ← cleanupVRGs drPolicy drpc vrgNamespace;
                  match err with
                  | Some e => mret (Some e)
                  | None =>
                      err ← deleteNamespaceManifestWorks drpc drPolicy vrgNamespace;
                      match err with
                      | Some e => mret (Some e)
                      | None => each (DeleteRecipeManifestWork name vrgNamespace) (DRPolicyClusterNames drPolicy)
                      end
                  end
              end
          end
      end
  end.

Definition alignPlacementPredicateWithDecision : Op unit :=
  p ← gets w_placement;
  match p with
  | Placement m =>
      cd ← getClusterDecisionFromPlacement m;
      if bool_decide (cd_ClusterName cd = "") then mret ()
      else modify (λ w, w <| w_predicates ::= λ l, (syncPlacementPredicateClusterName l (cd_ClusterName cd)).2 |>)
  | _ => mret ()
  end.

Definition finalizePlacement : Op (option GoError) :=
  modify_placement (λ m, RemoveFinalizer m DRPCFinalizer);;
  p ← gets w_placement;
  (if ResourceIsDeleted (placement_meta p) then mret () else alignPlacementPredicateWithDecision);;
  err ← Update_placement;
  mret (match err with
        | Some e => wrapf ("failed to update User PlacementRule/Placement " +:+ error_text e) e
        | None => None
        end).

Definition release_placement (p : UserPlacement) : Op (option GoError) :=
  match p with
  | NoPlacement => mret None
  | _ => if ContainsFinalizer (placement_meta p) DRPCFinalizer then finalizePlacement else mret None
  end.

Definition processDeletion : Op (option GoError) :=
  d ← gets w_drpc;
  if negb (ContainsFinalizer (drpc_Meta d) DRPCFinalizer) then mret None
  else
    err ← setDeletionStatusAndUpdate;
    match err with
    | Some e => mret (Some e)
    | None =>
        err ← finalizeDRPC;
        match err with
        | Some e => mret (Some e)
        | None =>
            p ← gets w_placement;
            err ← release_placement p;
            match err with
            | Some e => mret (Some e)
            | None =>
                setProgression ProgressionDeleted;;
                modify_drpc (λ d, d <| drpc_Meta ::= λ m, RemoveFinalizer m DRPCFinalizer |>);;
                err ← Update_drpc;
                mret (match err with
                      | Some e => wrapf ("failed to update drpc " +:+ error_text e) e
                      | None => None
                      end)
            end
        end
    end.
End lifecycle.
