(* ===== verification/Reconcile.v ===== *)
(** * The reconcile loop of a DRPC

    internal/controller/drplacementcontrol_controller.go ([Reconcile],
    [createDRPCInstance], [reconcileDRPCInstance]) and the entry points of
    drplacementcontrol.go ([startProcessing], [processPlacement],
    [processTestFailoverFlowIfEnabled]): everything from the read of a DRPC to the
    result that says when it is reconciled again. *)

From Stdlib Require Import ZArith.
From S2P Require Import Prelude Meta Names Conditions Api PeerClasses Events Telemetry NetworkMapping.
From S2P Require Import Hub ManifestWorks Placement VRGBuild DRPCStatus DRPCWorks DRPC HubRecovery.
From S2P Require Import Conflicts StatusRefresh DRPCLifecycle.

(** The parts of [RamenConfig] a reconcile reads. *)
Record RamenConfig := mkRamenConfig {
  rc_Config : Config;
  rc_VolSyncDisabled : bool;
  rc_VolsyncSupported : bool;
  rc_RetainNamespaceSCCAcrossPeers : bool;
}.

(** The reads of [Reconcile] itself: the configuration, the DRPCs of the hub, and a
    DRPC read again. *)
Class ReconcileEnv := {
  env_config : nat → RamenConfig + GoError;
  env_list_all_drpcs : nat → list DRPlacementControl + GoError;
  env_get_drpc : nat → DRPlacementControl → DRPlacementControl + GoError;
}.

(** ctrl.Result *)
Record Result := mkResult { res_Requeue : bool; res_RequeueAfter : Z }.
Definition no_requeue : Result := mkResult false 0.
Definition requeue_now : Result := mkResult true 0.

(** [errors.Is] for an error that is compared by identity. *)
Fixpoint errors_Is (e target : GoError) : bool :=
  match e, target with
  | Errorf m None, Errorf m' None => bool_decide (m = m')
  | Errorf _ (Some e'), _ => errors_Is e' target
  | _, _ => false
  end.

Definition DRPolicyValidated : string := "Validated".

Definition DrpolicyValidated (drpolicy : DRPolicy) : option GoError :=
  match FindCondition (dpt_Conditions (drp_Status drpolicy)) DRPolicyValidated with
  | Some c => if bool_decide (cond_Status c ≠ ConditionTrue) then errorf (cond_Message c) else None
  | None => errorf "validated condition absent"
  end.

(** ** Processing a DRPC that has been read *)

Section processing.
Context `{Env} `{DRPCInstance} `{HubReads}.

Definition processTestFailoverFlowIfEnabled : Op (bool * option GoError) :=
  d ← gets w_drpc;
  let s := drpc_Spec d in
  if dsp_DryRun s && bool_decide (dsp_Action s ≠ ActionFailover) then
    let msg := "dryRun is enabled but action is not failover" in
    recordFailure "ValidationFailed" msg;;
    mret (false, errorf msg)
  else if dsp_DryRun s && bool_decide (dsp_Action s = ActionFailover) &&
          bool_decide (dsp_FailoverCluster s ≠ "") &&
          negb (HasAnnotation (drpc_Meta d) DRPCTestFailoverDryRunAnnotation) then
    modify_drpc (λ d, d <| drpc_Meta ::= λ m, (AddAnnotation m DRPCTestFailoverDryRunAnnotation "true").2 |>);;
    err ← Update_drpc;
    mret (match err with
          | Some e => (false, wrapf ("failed to add test failover annotation: " +:+ error_text e) e)
          | None => (false, None)
          end)
  else mret (true, None).

Definition processPlacement : Op Done :=
  r ← processTestFailoverFlowIfEnabled;
  match r with
  | (_, Some e) => mret (false, Some e)
  | (false, None) => mret (false, None)
  | (true, None) => executeAction
  end.

(** The value is whether to requeue. *)
Definition startProcessing : Op bool :=
  r ← processPlacement;
  should ← shouldUpdateStatus;
  now ← time_Now; s ← status;
  err ← (if (should : bool) || statusUpdateTimeElapsed now s
         then vrgs ← gets w_vrgs; updateDRPCStatus (Some vrgs) else mret None);
  mret (match err, r with
        | Some _, _ => true
        | None, (_, Some _) => true
        | None, (done, None) => negb done
        end).

Definition reconcileDRPCInstance : Op Result :=
  d ← gets w_drpc; vrgs ← gets w_vrgs;
  let beforeProcessing := default 0%Z (dst_LastUpdateTime (drpc_Status d)) in
  managed ← ensureVRGsManagedByDRPC vrgs d d_vrgNamespace;
  if negb managed then mret requeue_now
  else
    labelled ← ensureGlobalVGRLabel;
    if negb labelled then mret requeue_now
    else
      requeue ← startProcessing;
      s ← status; inProgress ← gets w_mcvRequestInProgress;
      if inProgress && bool_decide (dst_Phase s ≠ PhaseUnset)
      then mret (mkResult false (getRequeueDuration (dst_Phase s)))
      else if (requeue : bool) then mret requeue_now
      else
        let afterProcessing := default 0%Z (dst_LastUpdateTime s) in
        now ← time_Now;
        mret (mkResult false (getStatusCheckDelay now beforeProcessing afterProcessing)).
End processing.

(** ** The loop *)

Section reconcile.
Context `{Env} `{HubReads} `{LifecycleEnv} `{Snapshot} `{ReconcileEnv}.

Definition getAndEnsureValidDRPolicy : Op (DRPolicy + GoError) :=
  drpc ← gets w_drpc;
  r ← GetDRPolicy drpc;
  mret (match r with
        | inr e => inr (Errorf ("failed to get DRPolicy " +:+ error_text e) (Some e))
        | inl drPolicy =>
            if ResourceIsDeleted (drp_Meta drPolicy)
            then inr (Errorf ("drPolicy '" +:+ dsp_DRPolicyRef (drpc_Spec drpc) +:+
                        "' referred by the DRPC is deleted, DRPC reconciliation would fail") None)
            else match DrpolicyValidated drPolicy with
                 | Some e => inr (Errorf ("DRPolicy not valid " +:+ error_text e) (Some e))
                 | None => inl drPolicy
                 end
        end).

(** The type of DR and whether VolSync is disabled, from the policy, the views and the
    configuration. *)
Definition instance_kind (drPolicy : DRPolicy) (drpc : DRPlacementControl) (cfg : RamenConfig)
    (vrgs : gmap string VolumeReplicationGroup) : DRType * bool + GoError :=
  let admin disabled :=
    if negb disabled && drpcInAdminNamespace drpc (rc_Config cfg) then negb (rc_VolsyncSupported cfg) else disabled in
  if allVRGPeerClassesOffloaded (snd <$> map_to_list vrgs) then inl (DRTypeAsync, admin (rc_VolSyncDisabled cfg))
  else match dRPolicySupportsMetro drPolicy None with
       | (_, _, Some e) => inr (Errorf ("failed to check if DRPolicy supports Metro: " +:+ error_text e) (Some e))
       | (true, _, None) => inl (DRTypeSync, true)
       | (false, _, None) => inl (DRTypeAsync, admin (rc_VolSyncDisabled cfg))
       end.

(** The rules, and the condition of the DRPC that says whether they could be loaded. *)
Definition loadNetworkMapping (drPolicy : DRPolicy) : Op (option NetworkMappingRules) :=
  drpc ← gets w_drpc;
  t ← tick;
  let set st reason msg :=
    now ← time_Now;
    modify_status (λ s, s <| dst_Conditions ::= λ l,
      (addOrUpdateCondition now l ConditionNetworkMappingLoaded (om_Generation (drpc_Meta drpc)) st reason msg).2 |>) in
  match LoadNetworkMapping me_Compile me_range_keys me_Unmarshal (me_ConfigMap t) (drpc_Meta drpc) drPolicy with
  | inr e => set ConditionFalse "NetworkMappingLoadFailed" (error_text e);; mret None
  | inl None => mret None
  | inl (Some rules) =>
      set ConditionTrue "NetworkMappingLoaded" "Network mapping loaded successfully";; mret (Some rules)
  end.

Definition createDRPCInstance (drPolicy : DRPolicy) (cfg : RamenConfig) : Op (DRPCInstance + GoError) :=
  drpc ← gets w_drpc; p ← gets w_placement;
  r ← GetDRClusters drPolicy;
  match r with
  | inr e => mret (inr e)
  | inl drClusters =>
      err ← getDRPCPlacementRule drPolicy;
      match err with
      | Some e => mret (inr e)
      | None =>
          r ← selectVRGNamespace drpc p;
          match r with
          | inr e => mret (inr e)
          | inl vrgNamespace =>
              r ← getVRGsFromManagedClusters drpc drClusters vrgNamespace;
              match r with
              | (_, _, _, Some e) => mret (inr e)
              | (vrgs, cqs, _, None) =>
                  networkMappingRules ← loadNetworkMapping drPolicy;
                  saved ← status;
                  match instance_kind drPolicy drpc cfg vrgs with
                  | inr e => mret (inr e)
                  | inl (drType, volSyncDisabled) =>
                      modify (λ w, w <| w_vrgs := vrgs |> <| w_mcvRequestInProgress := false |>
                                     <| w_requeueAfter := 0%Z |>);;
                      mret (inl {| d_drPolicy := drPolicy; d_drClusters := drClusters; d_drType := drType;
                                   d_volSyncDisabled := volSyncDisabled; d_vrgNamespace := vrgNamespace;
                                   d_InstName := om_Name (drpc_Meta drpc); d_numClustersQueriedSuccessfully := cqs;
                                   d_savedInstanceStatus := saved;
                                   d_RetainNamespaceSCCAcrossPeers := rc_RetainNamespaceSCCAcrossPeers cfg;
                                   d_RamenOperandsNamespace := cfg_RamenOpsNamespace (rc_Config cfg);
                                   d_networkMappingRules := networkMappingRules |})
                  end
              end
          end
      end
  end.

(** A failure that is recorded in the DRPC's Available condition and returned. *)
Definition fail (e : GoError) : Op (Result * option GoError) :=
  recordFailure "Error" (error_text e);; mret (no_requeue, Some e).

(** [Reconcile] once the placement holds this DRPC and no other one conflicts. *)
Definition reconcile_owned (drPolicy : DRPolicy) (cfg : RamenConfig) : Op (Result * option GoError) :=
  p ← gets w_placement;
  r ← ensureDRPCStatusConsistency drPolicy p;
  match r with
  | (_, Some e) => mret (no_requeue, Some e)
  | (true, None) => err ← updateDRPCStatus None; mret (requeue_now, err)
  | (false, None) =>
      r ← createDRPCInstance drPolicy cfg;
      match r with
      | inl d => res ← @reconcileDRPCInstance _ d _; mret (res, None)
      | inr e =>
          if errors_Is e ErrInitialWaitTimeForDRPCPlacementRule then
            recordFailure "Waiting" (error_text ErrInitialWaitTimeForDRPCPlacementRule +:+ " - wait time: 5");;
            mret (mkResult false (Second * 5), None)
          else
            err2 ← updateDRPCStatus None;
            mret (no_requeue, wrapf ("failed to create DRPC instance (" +:+ error_text e +:+ ") and (" +:+
                    match err2 with Some e2 => error_text e2 | None => "<nil>" end +:+ ")") e)
      end
  end.

(** [Reconcile] with the DRPC, the configuration and the placement read. *)
Definition reconcile_read (cfg : RamenConfig) : Op (Result * option GoError) :=
  drpc ← gets w_drpc; p ← gets w_placement;
  if isBeingDeleted drpc (placement_meta p) then err ← processDeletion; mret (no_requeue, err)
  else match ensureDRPCValidNamespace drpc (rc_Config cfg) with
       | Some e => fail e
       | None =>
           t ← tick; t' ← tick;
           match ensureNoConflictingDRPCs (rc_Config cfg) (env_list_all_drpcs t) (env_get_drpc t') drpc (Some p) with
           | Some e => fail e
           | None =>
               r ← getAndEnsureValidDRPolicy;
               match r with
               | inr e => fail e
               | inl drPolicy =>
                   r ← updateAndSetOwner;
                   match r with
                   | (_, Some e) => mret (no_requeue, Some e)
                   | (true, None) => mret (requeue_now, None)
                   | (false, None) => reconcile_owned drPolicy cfg
                   end
               end
           end
       end.

(** The DRPC as read, with its conditions initialised, and what is saved of it. *)
Definition begin_reconcile (now : Z) (w : World) : World :=
  let d := w_api_drpc w in
  w <| w_drpc := d <| drpc_Status ::= λ s, s <| dst_Conditions ::= λ l,
         ensureDRPCConditionsInited now l (om_Generation (drpc_Meta d)) "Initialization" |> |> |>
    <| w_savedInstanceStatus := drpc_Status d |> <| w_savedDRActionCount := action_count d |>
    <| w_placement := NoPlacement |>.

Definition Reconcile : Op (Result * option GoError) :=
  err ← api_err;
  match err with
  | Some e => mret (no_requeue, if IsNotFound e then None
                                else wrapf ("failed to get DRPC object: " +:+ error_text e) e)
  | None =>
      now ← time_Now; modify (begin_reconcile now);;
      t ← tick;
      match env_config t with
      | inr e => fail (Errorf ("failed to get the ramen configMap: " +:+ error_text e) (Some e))
      | inl cfg =>
          drpc ← gets w_drpc;
          match getPlacementOrPlacementRule drpc with
          | inl p =>
              modify (λ w, w <| w_placement := p |>
                             <| w_predicates := match w_api_placement w with Some (_, l) => l | None => [] end |>);;
              reconcile_read cfg
          | inr e => if IsNotFound e && ResourceIsDeleted (drpc_Meta drpc) then reconcile_read cfg else fail e
          end
      end
  end.
End reconcile.
