(* ===== verification/ReconcileSpec.v ===== *)
(** Theorems about the loop of the DRPC controller and the deletion of a DRPC. *)

From Stdlib Require Import ZArith.
From S2P Require Import Prelude Meta Names Conditions Api PeerClasses Events Telemetry NetworkMapping Hub.
From S2P Require Import ManifestWorks Scenario Placement VRGBuild DRPCStatus DRPCWorks DRPC Frames Safety.
From S2P Require Import HubRecovery RecoverySpec Conflicts StatusRefresh DRPCLifecycle Reconcile.

(** * Deleting a DRPC: what is removed, and when

    Theorems about DRPCLifecycle.v: the VRGs, and after them everything else, go in an
    order that never leaves a secondary behind its primary, and the DRPC itself goes
    last. *)

(** [drops P]: only the clock, the cloned rules and the ManifestWorks change, and the
    ManifestWorks removed, or marked as being deleted, are among those of [P]. *)
Definition works (w w' : World) : Prop :=
  ∃ n m r, w_tick w ≤ n ∧ w' = w <| w_tick := n |> <| w_mws := m |> <| w_rules := r |>.

Definition drops (P : string * string → Prop) (w w' : World) : Prop :=
  works w w' ∧ ∀ k, work_lives w k → ¬ work_lives w' k → P k.

#[export] Instance works_preorder : PreOrder works.
Proof.
  split; [intros w; exists (w_tick w), (w_mws w), (w_rules w); by destruct w|].
  intros u v w (n&m&r&?&->) (n'&m'&r'&?&->). exists n', m', r'. simpl in *. split; [lia|done].
Qed.

#[export] Instance drops_preorder P : PreOrder (drops P).
Proof.
  split; [intros w; split; [reflexivity|]; by intros k|].
  intros u v w [Huv Du] [Hvw Dv]. split; [by etransitivity|]. intros k Hk Hn.
  destruct (decide (work_lives v k)); [by apply Dv|by apply Du].
Qed.

Lemma drops_mono (P Q : string * string → Prop) w w' : (∀ k, P k → Q k) → drops P w w' → drops Q w w'.
Proof. intros HPQ [? D]. split; [done|]. intros k Hk Hn. by apply HPQ, D. Qed.

Lemma reads_drops P w w' : reads w w' → drops P w w'.
Proof.
  intros (n&Hn&->). split; [exists n, (w_mws w), (w_rules w); by destruct w|]. by intros k ?.
Qed.

Lemma works_intro w n m r : w_tick w ≤ n → works w (w <| w_tick := n |> <| w_mws := m |> <| w_rules := r |>).
Proof. intros. by exists n, m, r. Qed.

Create HintDb drops discriminated.
#[export] Hint Constants Opaque : drops.
Ltac drops := repeat preserves_step ltac:(solve [auto with drops nocore]).

Section drops.
Context `{Env} `{HubReads} `{LifecycleEnv} (P : string * string → Prop).

Lemma reading_drops {A} (m : Op A) : preserves reads m → preserves (drops P) m.
Proof. apply preserves_mono, reads_drops. Qed.

Lemma tick_drops : preserves (drops P) tick.
Proof. apply reading_drops, tick_reads. Qed.
Lemma api_err_drops : preserves (drops P) api_err.
Proof. apply reading_drops, api_err_reads. Qed.
#[local] Hint Resolve tick_drops api_err_drops : drops.

Lemma modify_works_drops f :
  (∀ w, works w (f w)) → (∀ w k, work_lives w k → ¬ work_lives (f w) k → P k) →
  preserves (drops P) (modify f).
Proof. intros Hw Hk. apply preserves_modify. intros w. split; [apply Hw|apply Hk]. Qed.

(** A work is written; it was not there, or keeps its deletion timestamp. *)
Lemma insert_drops k mw w :
  (∀ old, w_mws w !! k = Some old → om_DeletionTimestamp (mw_Meta old) = None → om_DeletionTimestamp (mw_Meta mw) = None) →
  drops P w (w <| w_mws ::= <[k := mw]> |>).
Proof.
  intros Hk. split; [exists (w_tick w), (<[k := mw]> (w_mws w)), (w_rules w); by destruct w|].
  intros k' (old & Ho & Hd) Hn. exfalso. apply Hn. unfold work_lives. simpl. destruct (decide (k = k')) as [<-|Hne].
  - exists mw. rewrite lookup_insert_eq. split; [done|by eapply Hk].
  - exists old. by rewrite lookup_insert_ne.
Qed.

Lemma Get_mw_drops n c : preserves (drops P) (Get_mw n c).
Proof. unfold Get_mw. drops. Qed.
Lemma Create_mw_drops mw : preserves (drops P) (Create_mw mw).
Proof.
  intros w. unfold Create_mw. rewrite run_bind. etransitivity; [apply api_err_drops|].
  destruct (api_err w) as [[e|] w1]; cbn [fst snd]; [reflexivity|]. rewrite run_bind. cbn [gets fst snd].
  destruct (w_mws w1 !! _) eqn:E; [reflexivity|]. apply insert_drops. intros old Ho. congruence.
Qed.
Lemma Update_mw_drops mw : preserves (drops P) (Update_mw mw).
Proof.
  intros w. unfold Update_mw. rewrite run_bind. etransitivity; [apply api_err_drops|].
  destruct (api_err w) as [[e|] w1]; cbn [fst snd]; [reflexivity|]. rewrite run_bind. cbn [gets fst snd].
  destruct (w_mws w1 !! _) as [old|] eqn:E; [|reflexivity]. apply insert_drops. intros old' Ho Hd. simpl. congruence.
Qed.
#[local] Hint Resolve Get_mw_drops Create_mw_drops Update_mw_drops : drops.

Lemma RetryOnConflict_drops fn : preserves (drops P) fn → preserves (drops P) (RetryOnConflict fn).
Proof. intros Hf. unfold RetryOnConflict. generalize 3. intros n. induction n; simpl; drops. Qed.

Lemma createOrUpdateManifestWork_drops mw c : preserves (drops P) (createOrUpdateManifestWork mw c).
Proof.
  unfold createOrUpdateManifestWork. drops. apply RetryOnConflict_drops. drops.
Qed.
#[local] Hint Resolve createOrUpdateManifestWork_drops : drops.

Lemma FindManifestWork_drops n c : preserves (drops P) (FindManifestWork n c).
Proof. unfold FindManifestWork. drops. Qed.
Lemma CreateOrUpdateVRG_drops n ns c v a : preserves (drops P) (CreateOrUpdateVRGManifestWork n ns c v a).
Proof. unfold CreateOrUpdateVRGManifestWork. drops. Qed.
Lemma CreateOrUpdateNamespace_drops n ns c a l :
  preserves (drops P) (CreateOrUpdateNamespaceManifestWork n ns c a l).
Proof. unfold CreateOrUpdateNamespaceManifestWork. drops. Qed.
#[local] Hint Resolve FindManifestWork_drops CreateOrUpdateVRG_drops CreateOrUpdateNamespace_drops : drops.

(** Adoption removes nothing. *)
Lemma ensureVRGsManagedByDRPC_drops vrgs d ns : preserves (drops P) (ensureVRGsManagedByDRPC vrgs d ns).
Proof.
  unfold ensureVRGsManagedByDRPC. drops.
  assert (E : ∀ b l, preserves (drops P) (adopt_all d ns b l)); [|apply E].
  intros b l. revert b. induction l as [|[c v] l IH]; intros b; simpl; [drops|].
  unfold adoptVRG, adoptOrphanVRG, adoptExistingVRGManifestWork. drops.
Qed.

Lemma Get_mw_key n c w mw :
  (Get_mw n c w).1 = inl mw → (om_Namespace (mw_Meta mw), om_Name (mw_Meta mw)) = (c, n).
Proof.
  unfold Get_mw. rewrite run_bind. simpl. destruct (env_api_err _); [done|]. simpl.
  destruct (w_mws w !! (c, n)); [|done]. by intros [= <-].
Qed.

Lemma Delete_mw_drops mw : P (om_Namespace (mw_Meta mw), om_Name (mw_Meta mw)) → preserves (drops P) (Delete_mw mw).
Proof.
  intros HP w. unfold Delete_mw. rewrite run_bind. etransitivity; [apply tick_drops|]. cbn [tick fst snd].
  destruct (env_api_err _); [reflexivity|]. rewrite run_bind. cbn [gets fst snd].
  set (w1 := w <| w_tick ::= S |>). destruct (w_mws w1 !! _) as [old|] eqn:E; [|reflexivity]. rewrite run_bind. cbn [modify fst snd].
  set (k0 := (_, _)) in *. split.
  - match goal with |- works _ ?w2 => exists (w_tick w1), (w_mws w2), (w_rules w1) end. split; [done|]. subst w1. by destruct w.
  - intros k (m & Hm & Hd) Hn. destruct (decide (k = k0)) as [->|Hne]; [done|]. exfalso. apply Hn. exists m. split; [|done].
    simpl. case_bool_decide; [by rewrite lookup_delete_ne|by rewrite lookup_insert_ne].
Qed.

Lemma DeleteManifestWork_drops n c : P (c, n) → preserves (drops P) (DeleteManifestWork n c).
Proof.
  intros HP w. unfold DeleteManifestWork. rewrite run_bind. etransitivity; [apply Get_mw_drops|].
  destruct (Get_mw n c w).1 as [mw|e] eqn:E; [|destruct (IsNotFound e); apply preserves_ret, _].
  apply Get_mw_key in E. apply preserves_bind; [apply _|apply Delete_mw_drops; by rewrite E|].
  intros. apply preserves_ret, _.
Qed.

Lemma rules_drops f : preserves (drops P) (modify (λ w, w <| w_rules ::= f |>)).
Proof.
  apply modify_works_drops; [|by intros w k ?].
  intros w. exists (w_tick w), (w_mws w), (f (w_rules w)). by destruct w.
Qed.

Lemma each_drops {A} (f : A → Op (option GoError)) l :
  (∀ x, x ∈ l → preserves (drops P) (f x)) → preserves (drops P) (each f l).
Proof.
  induction l as [|x l IH]; intros Hf; simpl; [drops|].
  apply preserves_bind; [apply _|apply Hf, elem_of_cons; by left|]. intros [e|]; [drops|].
  apply IH. intros y Hy. apply Hf, elem_of_cons. by right.
Qed.
End drops.

#[export] Hint Resolve tick_drops api_err_drops rules_drops Get_mw_drops Create_mw_drops
  Update_mw_drops DeleteManifestWork_drops : drops.

(** ** The order *)

Definition during (w w' : World) (t : nat) : Prop := w_tick w ≤ t ∧ t < w_tick w'.

(** The DRPC a reconcile works on: the one it started with, or the server's copy that
    a status update returned. *)
Definition worked_on (w : World) (d : DRPlacementControl) : Prop :=
  same_identity (w_drpc w) d ∧
  (drpc_Meta d = drpc_Meta (w_drpc w) ∨ drpc_Meta d = drpc_Meta (w_api_drpc w)).

(** The managed clusters asked for the VRG of [drpc] between two states of a
    reconcile, with their replies: the clusters of the policy read there, asked in the
    VRG's namespace as it was selected there. At least one of them answered: with a
    VRG, or that there is none. *)
Definition asked `{Env} `{HubReads} (w w' : World) (drpc : DRPlacementControl) (ns : string)
    (replies : list (DRCluster * (VolumeReplicationGroup + GoError))) : Prop :=
  ∃ p,
    (∃ w0, w_tick w ≤ w_tick w0 ∧ w_tick w0 ≤ w_tick w' ∧ (selectVRGNamespace drpc (w_placement w) w0).1 = inl ns) ∧
    (∃ t, during w w' t ∧ env_get_drpolicy t (dsp_DRPolicyRef (drpc_Spec drpc)) = inl p) ∧
    Forall2 (λ n a, (∃ t, during w w' t ∧ env_get_drcluster t n = inl a.1) ∧
                    ∃ t, during w w' t ∧
                      env_GetVRGFromManagedCluster t (om_Name (drpc_Meta drpc)) ns (om_Name (dc_Meta a.1)) = a.2)
      (DRPolicyClusterNames p) replies ∧
    (replies = [] ∨ ∃ a, a ∈ replies ∧ answered a.2 = true).

(** The VRGs such replies show: those of DRClusters that are not being deleted. *)
Definition shown_by (replies : list (DRCluster * (VolumeReplicationGroup + GoError)))
    (vrgs : gmap string VolumeReplicationGroup) : Prop :=
  (∀ c v, vrgs !! c = Some v →
     ∃ dc, (dc, inl v) ∈ replies ∧ om_Name (dc_Meta dc) = c ∧ ResourceIsDeleted (dc_Meta dc) = false) ∧
  (∀ dc v, (dc, inl v) ∈ replies → ResourceIsDeleted (dc_Meta dc) = false → is_Some (vrgs !! om_Name (dc_Meta dc))).

(** The views a query of the policy's clusters returned between two states of a
    reconcile. *)
Definition queried `{Env} `{HubReads} (w w' : World) (drpc : DRPlacementControl) (ns : string)
    (vrgs : gmap string VolumeReplicationGroup) : Prop :=
  ∃ replies, asked w w' drpc ns replies ∧ shown_by replies vrgs.

Definition in_state (st : ReplicationState) (v : VolumeReplicationGroup) : Prop :=
  vsp_ReplicationState (vrg_Spec v) = st.

(** The ManifestWorks a deletion may remove when it has these views: a secondary VRG's;
    a primary's, if there is no secondary; any other, if there is no VRG. *)
Inductive may_remove (name : string) (vrgs : gmap string VolumeReplicationGroup) : string * string → Prop :=
  | may_remove_secondary c v : vrgs !! c = Some v → in_state Secondary v → may_remove name vrgs (c, name)
  | may_remove_primary c v : vrgs !! c = Some v → in_state Primary v →
      (∀ c' v', vrgs !! c' = Some v' → ¬ in_state Secondary v') → may_remove name vrgs (c, name)
  | may_remove_rest k : vrgs = ∅ → may_remove name vrgs k.

Section order.
Context `{Env} `{HubReads} `{LifecycleEnv}.

Lemma getVRGs_reads d cs ns : preserves reads (getVRGsFromManagedClusters d cs ns).
Proof.
  unfold getVRGsFromManagedClusters.
  assert (E : ∀ n g l, preserves reads (gather_all n ns g l)).
  { intros n g l. revert g. induction l as [|c l IH]; intros g; simpl; [apply preserves_ret, _|].
    apply preserves_bind; [apply _|apply GetVRGFromManagedCluster_reads|]. intros. apply IH. }
  apply preserves_bind; [apply _|apply E|]. intros. apply preserves_ret, _.
Qed.

Lemma get_drclusters_reads names : preserves reads (get_drclusters names).
Proof. induction names; simpl; repeat preserves_step ltac:(solve [apply tick_reads|done]). Qed.

Lemma get_drclusters_answers names w cs :
  (get_drclusters names w).1 = inl cs →
  Forall2 (λ n c, ∃ t, during w (get_drclusters names w).2 t ∧ env_get_drcluster t n = inl c) names cs.
Proof.
  revert w cs. induction names as [|n names IH]; intros w cs; simpl; [by intros [= <-]|].
  rewrite run_bind. cbn [tick fst snd]. destruct (env_get_drcluster _ n) as [c|e] eqn:E; [|done].
  rewrite run_bind. set (w1 := w <| w_tick ::= S |>). cbn [fst snd mret M_ret]. pose proof (IH w1) as IHn.
  assert (R : reads w1 (get_drclusters names w1).2) by apply get_drclusters_reads.
  destruct R as (n1 & Hn1 & Hw). simpl in Hn1.
  destruct (get_drclusters names w1).1 as [l|] eqn:El; [|done]. intros [= <-]. rewrite Hw in *. constructor.
  - exists (w_tick w). split; [split; simpl; lia|done].
  - eapply Forall2_impl; [by apply IHn|]. intros x y (t & [Ht1 Ht2] & Hx). exists t. split; [|done]. split; simpl in *; lia.
Qed.

Lemma Forall2_and_r {A B} (P : A → B → Prop) (Q : B → Prop) l k :
  Forall2 P l k → Forall Q k → Forall2 (λ x y, P x y ∧ Q y) l k.
Proof. induction 1; inversion 1; constructor; auto. Qed.

(** The replies gathered show what the loop's map holds. *)
Lemma gather_shown_by g l :
  let vrgs := ga_vrgs (foldl (λ g a, gather g a.1 a.2) g l) in
  (∀ c v, vrgs !! c = Some v → ga_vrgs g !! c = Some v ∨
     ∃ dc, (dc, inl v) ∈ l ∧ om_Name (dc_Meta dc) = c ∧ ResourceIsDeleted (dc_Meta dc) = false) ∧
  (∀ c, is_Some (ga_vrgs g !! c) → is_Some (vrgs !! c)) ∧
  (∀ dc v, (dc, inl v) ∈ l → ResourceIsDeleted (dc_Meta dc) = false → is_Some (vrgs !! om_Name (dc_Meta dc))).
Proof.
  revert g. induction l as [|[dc r] l IH]; intros g; cbv zeta; cbn [foldl fst snd].
  { split_and!; [by left|done|]. intros ?? []%elem_of_nil. }
  destruct (IH (gather g dc r)) as (I1 & I2 & I3). cbv zeta in *.
  assert (G : ∀ c, is_Some (ga_vrgs g !! c) → is_Some (ga_vrgs (gather g dc r) !! c)).
  { intros c Hc. unfold gather. destruct r as [v|e]; case_match; try done. simpl. rewrite lookup_insert_is_Some'. by right. }
  split_and!.
  - intros c v [Hg|(dc'&?&?&?)]%I1; [|right; exists dc'; split_and!; [by apply list_elem_of_further|done..]].
    revert Hg. unfold gather. destruct r as [v'|e]; [destruct (ResourceIsDeleted (dc_Meta dc)) eqn:Ed|case_match]; try by left.
    cbn [ga_vrgs]. intros [[<- <-]|[_ ?]]%lookup_insert_Some; [|by left]. right. exists dc. split_and!; [apply list_elem_of_here|done..].
  - intros c Hc. by apply I2, G.
  - intros dc' v [[= -> <-]|Hin]%elem_of_cons Hd; [|by eapply I3]. apply I2. unfold gather. rewrite Hd. cbn [ga_vrgs].
    by rewrite lookup_insert_eq.
Qed.

Lemma answers_asked n ns t cs :
  (answers n ns t cs).*1 = cs ∧
  Forall (λ a, ∃ t', t ≤ t' ∧ t' < t + length cs ∧ env_GetVRGFromManagedCluster t' n ns (om_Name (dc_Meta a.1)) = a.2)
    (answers n ns t cs).
Proof.
  revert t. induction cs as [|c cs IH]; intros t; simpl; [done|]. destruct (IH (S t)) as [E F]. split; [by f_equal/=|]. constructor.
  - exists t. split_and!; [done|lia|done].
  - eapply Forall_impl; [exact F|]. intros a (t' & ? & ? & ?). exists t'. split_and!; [lia|lia|done].
Qed.

Lemma gather_all_tick n ns g cs w : w_tick (gather_all n ns g cs w).2 = w_tick w + length cs.
Proof.
  revert g w. induction cs as [|c cs IH]; intros g w; simpl; [lia|]. rewrite run_bind, IH. simpl. lia.
Qed.

(** A query without an error: each cluster was asked during it, one answered, and the
    views are those the replies show. *)
Lemma getVRGs_asked d cs ns w vrgs n f :
  (getVRGsFromManagedClusters d cs ns w).1 = (vrgs, n, f, None) →
  ∃ replies, replies.*1 = cs ∧
    Forall (λ a, ∃ t, during w (getVRGsFromManagedClusters d cs ns w).2 t ∧
      env_GetVRGFromManagedCluster t (om_Name (drpc_Meta d)) ns (om_Name (dc_Meta a.1)) = a.2) replies ∧
    (replies = [] ∨ ∃ a, a ∈ replies ∧ answered a.2 = true) ∧ shown_by replies vrgs.
Proof.
  unfold getVRGsFromManagedClusters. rewrite run_bind, run_ret. cbn [fst snd]. rewrite gather_all_answers.
  set (l := answers _ ns (w_tick w) cs). intros E. exists l.
  destruct (answers_asked (om_Name (drpc_Meta d)) ns (w_tick w) cs) as [F1 F2]. fold l in F1, F2.
  pose proof (gather_shown_by (mkGathered ∅ 0 "") l) as (G1 & _ & G3). cbv zeta in G1, G3.
  pose proof (gather_queried (mkGathered ∅ 0 "") l) as Hq.
  set (g := foldl _ (mkGathered ∅ 0 "") l) in *. assert (vrgs = ga_vrgs g) as ->.
  { by repeat (case_bool_decide; [congruence|]); injection E. }
  split_and!; [done| | |split; [|done]].
  - eapply Forall_impl; [exact F2|]. intros a (t & ? & ? & ?). exists t. split; [|done].
    split; [done|]. by rewrite gather_all_tick.
  - destruct (List.filter (λ a, answered a.2) l) as [|a l'] eqn:Ef.
    + left. apply (f_equal length) in F1. rewrite length_fmap in F1. apply nil_length_inv. rewrite F1. simpl in Hq.
      case_bool_decide as E1; [congruence|]. by rewrite bool_decide_true in E.
    + right. exists a. assert (Hin : List.In a (List.filter (λ a, answered a.2) l)) by (rewrite Ef; by left).
      apply List.filter_In in Hin as [?%list_elem_of_In ?]. done.
  - intros c v [Hv|?]%G1; [|done]. simpl in Hv. by rewrite lookup_empty in Hv.
Qed.

Lemma delete_vrgs_drops P d ns vrgs st b l :
  (∀ c v, (c, v) ∈ l → in_state st v → P (c, ManifestWorkName (om_Name (drpc_Meta d)) ns MWTypeVRG)) →
  preserves (drops P) (delete_vrgs d ns vrgs st b l).
Proof.
  revert b. induction l as [|[c v] l IH]; intros b HP; simpl; [apply preserves_ret, _|].
  assert (IH' : ∀ b, preserves (drops P) (delete_vrgs d ns vrgs st b l)).
  { intros b'. apply IH. intros c' v' Hin. apply HP, elem_of_cons. by right. }
  case_bool_decide as Es; [|apply IH'].
  apply preserves_bind; [apply _|apply ensureVRGsManagedByDRPC_drops|]. intros [|]; [|apply preserves_ret, _].
  apply preserves_bind; [apply _|apply DeleteManifestWork_drops, (HP c v); [apply elem_of_cons; by left|done]|].
  intros [e|]; [apply preserves_ret, _|apply IH'].
Qed.

Lemma delete_vrgs_found d ns vrgs st b l w :
  (delete_vrgs d ns vrgs st b l w).1 = inl false → b = false ∧ ∀ c v, (c, v) ∈ l → ¬ in_state st v.
Proof.
  revert b w. induction l as [|[c v] l IH]; intros b w; simpl.
  - intros [= ->]. split; [done|]. intros ?? Hin. by apply elem_of_nil in Hin.
  - case_bool_decide as Es.
    + rewrite run_bind. destruct (ensureVRGsManagedByDRPC _ _ _ _).1; [|done]. cbn [negb]. rewrite run_bind.
      destruct (DeleteManifestWork _ _ _).1; [done|]. by intros [? _]%IH.
    + intros [? Hl]%IH. split; [done|]. intros c' v' [[= -> ->]|Hin]%elem_of_cons; [done|by eapply Hl].
Qed.

Lemma ensureVRGsDeleted_drops P vrgs d ns st :
  (∀ c v, vrgs !! c = Some v → in_state st v → P (c, ManifestWorkName (om_Name (drpc_Meta d)) ns MWTypeVRG)) →
  preserves (drops P) (ensureVRGsDeleted vrgs d ns st).
Proof.
  intros HP. unfold ensureVRGsDeleted. apply preserves_bind; [apply _|apply tick_drops|]. intros t.
  apply preserves_bind; [apply _|apply delete_vrgs_drops|intros; apply preserves_ret, _].
  intros c v. rewrite env_range_perm. intros ?%elem_of_map_to_list. by apply HP.
Qed.

Lemma ensureVRGsDeleted_done vrgs d ns st w c v :
  (ensureVRGsDeleted vrgs d ns st w).1 = None → vrgs !! c = Some v → ¬ in_state st v.
Proof.
  unfold ensureVRGsDeleted. rewrite !run_bind. simpl.
  destruct (delete_vrgs _ _ _ _ _ _ _).1 as [[|]|] eqn:E; [done| |done]. intros _ Hv.
  apply delete_vrgs_found in E as [_ E]. apply (E c). rewrite env_range_perm. by apply elem_of_map_to_list.
Qed.

Lemma DeleteMCVs_reads d names ns : preserves reads (deleteAllManagedClusterViews d names ns).
Proof.
  assert (T : ∀ a b c e, preserves reads (DeleteManagedClusterView a b c e)).
  { intros. unfold DeleteManagedClusterView. apply preserves_bind; [apply _|apply tick_reads|].
    intros. apply preserves_ret, _. }
  assert (E : ∀ A (f : A → Op (option GoError)) l, (∀ x, preserves reads (f x)) → preserves reads (each f l)).
  { intros A f l Hf. induction l as [|x l IH]; simpl; repeat preserves_step ltac:(solve [done|apply Hf]). }
  unfold deleteAllManagedClusterViews, deleteProtectedNamespaceMCVs. apply E. intros x.
  repeat preserves_step ltac:(first [apply T|apply E; intros; repeat preserves_step ltac:(apply T)]).
Qed.

Lemma drops_tick P w w' : drops P w w' → w_tick w ≤ w_tick w'.
Proof. by intros [(n&m&r&?&->) _]. Qed.
Lemma reads_tick w w' : reads w w' → w_tick w ≤ w_tick w'.
Proof. by intros (n&?&->). Qed.

(** What a step of the deletion does, in a reconcile that began in [u]: it removes
    works as the views it has queried allow, and reports no error only if they were
    empty; or it fails without removing anything. *)
Definition in_order (u w : World) (d : DRPlacementControl) (r : option GoError * World) : Prop :=
  (∃ ns vrgs, queried u r.2 d ns vrgs ∧
     drops (may_remove (ManifestWorkName (om_Name (drpc_Meta d)) ns MWTypeVRG) vrgs) w r.2 ∧
     (r.1 = None → vrgs = ∅)) ∨
  (drops (λ _, False) w r.2 ∧ is_Some r.1).

(** A first step that removes nothing does not matter. *)
Lemma in_order_first {A} (m : Op A) (k : A → Op (option GoError)) u w d :
  preserves (drops (λ _, False)) m →
  (w_tick w ≤ w_tick (m w).2 → in_order u (m w).2 d (k (m w).1 (m w).2)) → in_order u w d ((m ≫= k) w).
Proof.
  intros D O. rewrite run_bind. specialize (D w). specialize (O (drops_tick _ _ _ D)).
  destruct O as [(ns&vrgs&Q&D2&Hn)|[D2 He]].
  - left. exists ns, vrgs. split_and!; [done|etransitivity; [|exact D2]|done]. by eapply drops_mono; [|exact D].
  - right. split; [by etransitivity|done].
Qed.

Lemma in_order_error u w d e : in_order u w d (mret (M := M World) (Some e) w).
Proof. right. split; [reflexivity|done]. Qed.

Lemma asked_wider w w1 w2 w3 d ns replies :
  w_tick w ≤ w_tick w1 → w_tick w2 ≤ w_tick w3 → w_placement w = w_placement w1 →
  asked w1 w2 d ns replies → asked w w3 d ns replies.
Proof.
  intros T1 T2 Ep (p & (w0 & ? & ? & Hw0) & (t & [? ?] & Ht) & F & Ha).
  assert (W : ∀ t', during w1 w2 t' → during w w3 t') by (intros t' [? ?]; split; lia).
  exists p. split_and!; [exists w0|exists t|eapply Forall2_impl; [exact F|]|done].
  - rewrite Ep. split_and!; [lia|lia|done].
  - split; [|done]. split; lia.
  - intros n a [(t1 & ? & ?) (t2 & ? & ?)]. split; [exists t1|exists t2]; auto.
Qed.

Lemma queried_wider w w1 w2 w3 d ns vrgs :
  w_tick w ≤ w_tick w1 → w_tick w2 ≤ w_tick w3 → w_placement w = w_placement w1 →
  queried w1 w2 d ns vrgs → queried w w3 d ns vrgs.
Proof. intros ??? (l & A & S). exists l. split; [by eapply asked_wider|done]. Qed.

(** After the views turned out empty, anything may go. *)
Lemma in_order_after P u w d w1 r :
  in_order u w d (None, w1) → drops P w1 r.2 → in_order u w d r.
Proof.
  intros [(ns&vrgs&Q&D2&Hn)|[_ [e He]]]; [|by simpl in He]. intros D.
  left. exists ns, vrgs. simpl in *. rewrite (Hn eq_refl) in *. split_and!; [|etransitivity; [exact D2|]|done].
  - eapply queried_wider; [..|exact Q]; [done|by eapply drops_tick|done].
  - eapply drops_mono; [|exact D]. intros k _. by apply may_remove_rest.
Qed.

Lemma cleanupVRGs_in_order p d ns u w :
  w_tick u ≤ w_tick w →
  (∃ w0, w_tick u ≤ w_tick w0 ∧ w_tick w0 ≤ w_tick w ∧ (selectVRGNamespace d (w_placement u) w0).1 = inl ns) →
  (∃ t, during u w t ∧ env_get_drpolicy t (dsp_DRPolicyRef (drpc_Spec d)) = inl p) →
  in_order u w d (cleanupVRGs p d ns w).
Proof.
  intros Tu (w0 & Hw0 & Hw0' & Hns) (tp & [Htp Htp'] & Hp). unfold cleanupVRGs.
  apply in_order_first; [apply reading_drops, GetDRClusters_reads|]. intros Tc.
  destruct (GetDRClusters p w).1 as [cs|e] eqn:Ec; [|apply in_order_error].
  apply get_drclusters_answers in Ec. unfold GetDRClusters in *.
  set (wc := (get_drclusters _ w).2) in *. clearbody wc. rewrite run_bind.
  destruct (getVRGsFromManagedClusters d cs ns wc).1 as [[[vrgs n] f] [e|]] eqn:Ev;
    [right; split; [apply reads_drops, getVRGs_reads|done]|].
  apply getVRGs_asked in Ev as (replies & Er & F & Ha & Hs).
  set (name := ManifestWorkName (om_Name (drpc_Meta d)) ns MWTypeVRG).
  assert (R := getVRGs_reads d cs ns wc).
  set (w1 := (getVRGsFromManagedClusters d cs ns wc).2) in *. clearbody w1.
  (* it is enough to see what is removed, and that success means no view *)
  assert (K : ∀ r, drops (may_remove name vrgs) w1 r.2 → (r.1 = None → vrgs = ∅) → in_order u wc d r).
  { intros r D Hr. left. exists ns, vrgs. split_and!; [|etransitivity; [by apply reads_drops|done]|done].
    exists replies. split; [|done]. apply drops_tick in D. apply reads_tick in R. exists p.
    split_and!; [exists w0; split_and!; [done|lia|done]|exists tp; split; [split; lia|done]| |done].
    subst cs. rewrite Forall2_fmap_r in Ec. eapply Forall2_impl; [exact (Forall2_and_r _ _ _ _ Ec F)|]. intros x a [(t' & [? ?] & ?) (t & [? ?] & ?)].
    split; [exists t'|exists t]; (split; [split; lia|done]). }
  rewrite run_bind.
  assert (D1 : drops (may_remove name vrgs) w1 (ensureVRGsDeleted vrgs d ns Secondary w1).2).
  { apply ensureVRGsDeleted_drops. intros c v Hv Hst. by eapply may_remove_secondary. }
  destruct (ensureVRGsDeleted vrgs d ns Secondary w1).1 as [e|] eqn:E1; [by apply K|]. rewrite run_bind.
  assert (D2 := ensureVRGsDeleted_drops (may_remove name vrgs) vrgs d ns Primary (λ c v Hv Hst,
    may_remove_primary name vrgs c v Hv Hst (λ c' v' Hv', ensureVRGsDeleted_done _ _ _ _ _ _ _ E1 Hv'))
    (ensureVRGsDeleted vrgs d ns Secondary w1).2).
  destruct (ensureVRGsDeleted vrgs d ns Primary _).1 as [e|]; [apply K; [by etransitivity|done]|].
  case_bool_decide as Es; [apply K; [by etransitivity|done]|].
  assert (vrgs = ∅) as Ee by (apply map_size_empty_inv; lia).
  apply K; [|done]. etransitivity; [exact D1|]. etransitivity; [exact D2|]. rewrite run_bind.
  apply reads_drops, DeleteMCVs_reads.
Qed.

Lemma deleteClonedPlacementRule_drops P n ns : preserves (drops P) (deleteClonedPlacementRule n ns).
Proof. unfold deleteClonedPlacementRule, getClonedPlacementRule. drops. Qed.

Abbreviation anything := (drops (λ _ : string * string, True)).

Lemma DeleteNamespaceManifestWork_drops n c : preserves anything (DeleteNamespaceManifestWork n c).
Proof.
  unfold DeleteNamespaceManifestWork, ensureOrphanDeleteOption. drops; try by apply DeleteManifestWork_drops.
  apply modify_works_drops; [|done]. intros w. by apply (works_intro w (w_tick w) _ (w_rules w)).
Qed.

Lemma DeleteRecipeManifestWork_drops i ns c : preserves anything (DeleteRecipeManifestWork i ns c).
Proof. unfold DeleteRecipeManifestWork. drops; by apply DeleteManifestWork_drops. Qed.

Lemma delete_other_works d pol ns :
  preserves anything (err ← deleteNamespaceManifestWorks d pol ns;
    match err with Some e => mret (Some e)
    | None => each (DeleteRecipeManifestWork (om_Name (drpc_Meta d)) ns) (DRPolicyClusterNames pol) end).
Proof.
  apply preserves_bind; [apply _| |].
  - unfold deleteNamespaceManifestWorks. apply each_drops. intros x _. apply each_drops.
    intros y _. apply DeleteNamespaceManifestWork_drops.
  - intros [e|]; [apply preserves_ret, _|]. apply each_drops. intros y _. apply DeleteRecipeManifestWork_drops.
Qed.

Lemma finalizeDRPC_in_order w : in_order w w (w_drpc w) (finalizeDRPC w).
Proof.
  unfold finalizeDRPC. do 2 (rewrite run_bind; cbn [gets fst snd]). cbv zeta. generalize (w_drpc w) as d. intros d.
  apply in_order_first; [case_bool_decide; [apply deleteClonedPlacementRule_drops|apply preserves_ret, _]|].
  match goal with |- _ → in_order _ ?w1 _ (match ?o with _ => _ end _) => generalize w1; destruct o end;
    intros w1 T1; [apply in_order_error|].
  apply in_order_first; [apply reading_drops, selectVRGNamespace_reads|]. intros T2.
  destruct (selectVRGNamespace d (w_placement w) w1).1 as [ns|] eqn:En; [|apply in_order_error].
  set (w2 := (selectVRGNamespace d (w_placement w) w1).2) in *. clearbody w2.
  apply in_order_first; [apply reading_drops, GetDRPolicy_reads|]. intros T3.
  destruct (GetDRPolicy d w2).1 as [pol|] eqn:Ep; [|apply in_order_error].
  apply in_order_first; [apply reading_drops, tick_reads|]. intros T4.
  destruct (env_CleanupSecretPropagation _ _ _); [apply in_order_error|].
  assert (Hp : ∃ t, during w (tick (GetDRPolicy d w2).2).2 t ∧ env_get_drpolicy t (dsp_DRPolicyRef (drpc_Spec d)) = inl pol).
  { revert Ep. unfold GetDRPolicy. rewrite run_bind. simpl. destruct (env_get_drpolicy _ _) eqn:E; [|done].
    intros [= <-]. exists (w_tick w2). split; [|done]. split; simpl; lia. }
  set (w3 := (tick (GetDRPolicy d w2).2).2) in *. clearbody w3. rewrite run_bind.
  assert (O : in_order w w3 d (cleanupVRGs pol d ns w3)).
  { apply cleanupVRGs_in_order; [lia|exists w1; split_and!; [done|lia|done]|done]. }
  destruct (cleanupVRGs pol d ns w3) as [[e|] w4]; cbn [fst snd] in *; [exact O|].
  eapply in_order_after; [exact O|apply delete_other_works].
Qed.

(** ** The whole deletion *)

(** The other steps leave the ManifestWorks and the stored DRPC's metadata alone. *)
Definition aside (w w' : World) : Prop :=
  w_tick w ≤ w_tick w' ∧ w_mws w' = w_mws w ∧ drpc_Meta (w_api_drpc w') = drpc_Meta (w_api_drpc w).

#[export] Instance aside_preorder : PreOrder aside.
Proof. split; [done|]. intros u v w (?&?&?) (?&?&?). split_and!; [lia|congruence..]. Qed.

Lemma reads_aside {A} (m : Op A) : preserves reads m → preserves aside m.
Proof. intros Hm w. by destruct (Hm w) as (n&?&->). Qed.

Lemma Status_Update_aside : preserves aside Status_Update_drpc.
Proof.
  unfold Status_Update_drpc. repeat preserves_step ltac:(first
    [apply reads_aside, api_err_reads|apply preserves_modify; done]).
Qed.

Lemma setDeletionStatusAndUpdate_aside : preserves aside setDeletionStatusAndUpdate.
Proof.
  unfold setDeletionStatusAndUpdate, setProgression, modify_status, modify_drpc. repeat preserves_step ltac:(first
    [apply reads_aside; solve [apply time_Now_reads]|apply Status_Update_aside|apply preserves_modify; done]).
Qed.

Lemma finalizePlacement_aside : preserves aside finalizePlacement.
Proof.
  unfold finalizePlacement, alignPlacementPredicateWithDecision, Update_placement, modify_placement,
    getClusterDecisionFromPlacement, getPlacementDecisionFromPlacement.
  repeat preserves_step ltac:(first [apply reads_aside, api_err_reads|apply preserves_modify; done]).
Qed.

Lemma release_placement_aside p : preserves aside (release_placement p).
Proof.
  destruct p; simpl; try destruct (ContainsFinalizer _ _); apply finalizePlacement_aside || apply preserves_ret, _.
Qed.

Lemma setDeletionStatusAndUpdate_quiet : preserves quiet setDeletionStatusAndUpdate.
Proof.
  unfold setDeletionStatusAndUpdate. quiet. by apply modify_drpc_quiet.
Qed.

Lemma setDeletionStatusAndUpdate_meta w :
  let d := w_drpc (setDeletionStatusAndUpdate w).2 in
  drpc_Meta d = drpc_Meta (w_drpc w) ∨ drpc_Meta d = drpc_Meta (w_api_drpc w).
Proof.
  cbv zeta. unfold setDeletionStatusAndUpdate, setProgression, modify_status, modify_drpc, status. rewrite !run_bind.
  cbn [gets modify fst snd]. repeat (case_match; rewrite ?run_bind; simpl); auto.
  all: unfold Status_Update_drpc, api_err; rewrite !run_bind; simpl; case_match; rewrite ?run_bind; simpl; auto.
Qed.

(** A deletion either stops before anything is removed, or runs [finalizeDRPC] and,
    if that succeeded, only steps aside of the ManifestWorks, the removal of the
    DRPC's finalizer last. *)
Lemma processDeletion_shape w :
  let w' := (processDeletion w).2 in
  aside w w' ∨
  ∃ w1, quiet w w1 ∧ aside w w1 ∧ (in_sync w → worked_on w (w_drpc w1)) ∧
    (w' = (finalizeDRPC w1).2 ∨
     (finalizeDRPC w1).1 = None ∧ w_tick (finalizeDRPC w1).2 ≤ w_tick w' ∧ w_mws w' = w_mws (finalizeDRPC w1).2).
Proof.
  unfold processDeletion. rewrite run_bind. cbn [gets fst snd].
  destruct (negb _); [left; reflexivity|]. rewrite run_bind.
  pose proof (setDeletionStatusAndUpdate_aside w) as A. pose proof (setDeletionStatusAndUpdate_quiet w) as Q.
  destruct (setDeletionStatusAndUpdate w).1; [by left|]. right. exists (setDeletionStatusAndUpdate w).2.
  split_and!; [done|done|intros Hs; split; [by apply Q|apply setDeletionStatusAndUpdate_meta]|]. rewrite run_bind. generalize (setDeletionStatusAndUpdate w).2. clear w A Q. intros w.
  destruct (finalizeDRPC w) as [[e|] w1]; cbn [fst snd] in *; [by left|]. right. split; [done|].
  rewrite run_bind. cbn [gets fst snd]. rewrite run_bind.
  pose proof (release_placement_aside (w_placement w1) w1) as (?&?&_).
  destruct (release_placement _ w1).1; [done|]. generalize dependent (release_placement (w_placement w1) w1).2.
  intros w2 ? <-.
  unfold setProgression, status, Update_drpc, api_err, modify_status, modify_drpc. rewrite !run_bind.
  cbn [gets modify fst snd]. repeat case_match; simpl; by split; [lia|].
Qed.


(** C31: the DRPC goes last: its finalizer is removed only if every cluster of the
    policy was asked for the VRG in this reconcile, in the namespace selected for it,
    at least one of them answered, and no answer was a VRG, unless the DRCluster that
    holds it is being deleted. A cluster that did not answer does not hold the
    finalizer. *)
Theorem deletion_waits_for_vrgs w :
  in_sync w → ContainsFinalizer (drpc_Meta (w_api_drpc w)) DRPCFinalizer = true →
  ContainsFinalizer (drpc_Meta (w_api_drpc (processDeletion w).2)) DRPCFinalizer = false →
  ∃ d ns replies, worked_on w d ∧ asked w (processDeletion w).2 d ns replies ∧
    ∀ dc v, (dc, inl v) ∈ replies → ResourceIsDeleted (dc_Meta dc) = true.
Proof.
  intros Hs Hc Hn.
  destruct (processDeletion_shape w) as [(_&_&E)|(w1&[_ (_&_&Epl&_)]&(Ht&_&E)&Hd&Hf)]; [rewrite E in Hn; congruence|].
  specialize (Hd Hs).
  assert (L : drpc_Meta (w_api_drpc (finalizeDRPC w1).2) = drpc_Meta (w_api_drpc w)).
  { rewrite <- E. by destruct (finalizeDRPC_in_order w1) as [(ns&vrgs&_&[(n&m&r&_&->) _]&_)|[[(n&m&r&_&->) _] _]]. }
  destruct Hf as [Ef|(Ef&Ht2&_)]; [rewrite Ef, L in Hn; congruence|].
  destruct (finalizeDRPC_in_order w1) as [(ns&vrgs&(l&A&_&S)&_&Hv)|[_ [e He]]]; [|congruence].
  rewrite (Hv Ef) in S. exists (w_drpc w1), ns, l. split_and!; [done|by eapply asked_wider|].
  intros dc v Hin. destruct (ResourceIsDeleted (dc_Meta dc)) eqn:Ed; [done|].
  destruct (S dc v Hin Ed) as [x Hx]. by rewrite lookup_empty in Hx.
Qed.
End order.

(** A hub with a primary on east and a secondary on west; and one without VRGs. *)
Module DeletionCase.
#[export] Instance reads : HubReads := {|
  env_list_appsets := λ _, inl None;
  env_get_drcluster := λ _ c, inl (drcluster c ConditionFalse);
  env_get_drpolicy := λ _ _, inl (policy "5m");
|}.
#[export] Instance lifecycle : LifecycleEnv := {|
  env_CleanupSecretPropagation := λ _ _ _, None;
  env_DeleteManagedClusterView := λ _ _ _ _ _, None;
  env_userRuleClusters := [];
|}.
Definition managed (v : VolumeReplicationGroup) : VolumeReplicationGroup :=
  v <| vrg_Meta ::= λ m, m <| om_Annotations := {[DRPCUIDAnnotation := ""]} |> |>.
Definition views : gmap string VolumeReplicationGroup := managed <$> home_east.
Definition doomed : DRPlacementControl :=
  drpc ActionNone false <| drpc_Meta ::= λ m,
    m <| om_Finalizers := [DRPCFinalizer] |> <| om_DeletionTimestamp := Some 1%Z |> |>.
Definition start (vrgs : gmap string VolumeReplicationGroup) : World := hub doomed vrgs "east".
End DeletionCase.


Lemma deletion_waits_for_vrgs_witness :
  ∃ d ns replies, worked_on (DeletionCase.start ∅) d ∧
    @asked (calm (shown ∅)) DeletionCase.reads (DeletionCase.start ∅)
      (@processDeletion (calm (shown ∅)) DeletionCase.reads DeletionCase.lifecycle (DeletionCase.start ∅)).2 d ns replies ∧
    ∀ dc v, (dc, inl v) ∈ replies → ResourceIsDeleted (dc_Meta dc) = true.
Proof.
  apply (@deletion_waits_for_vrgs (calm (shown ∅)) DeletionCase.reads DeletionCase.lifecycle (DeletionCase.start ∅));
    [repeat split|vm_compute; reflexivity..].
Defined.

(** A cluster that cannot be queried does not hold the deletion up: with west
    unreachable and no VRG on east the DRPC goes, and west's primary VRG ManifestWork
    stays. *)
Example deletion_past_unreachable_cluster :
  let views c := if bool_decide (c = "west") then inr (Errorf "timed out" None) else inr (not_found "app") in
  let w' := (@processDeletion (calm views) DeletionCase.reads DeletionCase.lifecycle
               (DeletionCase.start {["west" := as_primary]})).2 in
  ContainsFinalizer (drpc_Meta (w_api_drpc w')) DRPCFinalizer = false ∧
  (λ mw, ExtractVRGFromManifestWork mw) <$> (w_mws w' !! ("west", ManifestWorkName "app" "ns" MWTypeVRG)) =
    Some (inl as_primary).
Proof. vm_compute. split; reflexivity. Qed.

(** * One reconcile: promotions, dry runs, scheduling

    Theorems about Reconcile.v: a reconcile as a whole promotes a VRG only where the
    DRPC's action says or where it found a primary to adopt, and when it asks to be
    run again. *)

Section promotions.
Context `{Env} `{DRPCInstance} `{HubReads}.

(** The cluster a DRPC's action is to make primary. *)
Definition target (s : DRPlacementControlSpec) : string :=
  match dsp_Action s with ActionFailover => dsp_FailoverCluster s | _ => dsp_PreferredCluster s end.

Lemma executeAction_target w c :
  in_sync w → primary_on w c = false → primary_on (executeAction w).2 c = true →
  c = target (drpc_Spec (w_drpc w)).
Proof.
  intros Hs. unfold executeAction, target. rewrite run_bind. simpl. destruct (dsp_Action _); intros A1 A2.
  - by apply RunInitialDeployment_justified in A2 as [-> _].
  - by apply RunFailover_justified in A2 as [-> _].
  - destruct (RunRelocate_justified w) as [_ J]. by destruct (J Hs c A1 A2) as [-> _].
Qed.

(** ** The steps around the action promote nothing *)

Abbreviation nothing := (promotes (λ _, False)).

Lemma status_only_promotes w w' : w_tick w ≤ w_tick w' → status_only w w' → nothing w w'.
Proof.
  intros Ht (Em&Es&E). unfold stored in E. injection E as Ea Ew _ _ _ _ _. split.
  - split; [done|]. intros (?&?&?&?). unfold in_sync, same_identity in *. rewrite Ea, Em, Es. done.
  - intros c _. unfold primary_on. by rewrite Ew.
Qed.

Lemma updateResourceCondition_tick vrgs w : w_tick w ≤ w_tick (updateResourceCondition vrgs w).2.
Proof.
  assert (R : preserves (λ w w', w_tick w ≤ w_tick w') (updateResourceCondition vrgs)); [|apply R].
  assert (P : PreOrder (λ w w' : World, w_tick w ≤ w_tick w')) by (split; [intros ?; lia|intros ???; simpl; lia]).
  assert (T : ∀ A (m : Op A), preserves reads m → preserves (λ w w', w_tick w ≤ w_tick w') m).
  { intros A m. apply preserves_mono, reads_tick. }
  unfold updateResourceCondition, getVRG. repeat preserves_step ltac:(first
    [ apply T; solve [auto using selectVRGNamespace_reads, clusterForVRGStatus_reads, assignConditions_reads,
        time_Now_reads, GetVRGFromManagedCluster_reads, GetAvailableS3Profiles_reads,
        GetLastKnownVRGPrimaryFromS3_reads]
    | apply preserves_modify; done ]).
Qed.

Lemma updateResourceCondition_promotes vrgs : preserves nothing (updateResourceCondition vrgs).
Proof.
  intros w. apply status_only_promotes; [apply updateResourceCondition_tick|apply updateResourceCondition_status_only].
Qed.

Lemma sync_identical d : same_identity d (syncDRActionCountAnnotation d).2.
Proof.
  unfold syncDRActionCountAnnotation. destruct (next_counts _ _); [|done].
  unfold AddAnnotation. by case_bool_decide.
Qed.

Lemma persist_action_count_quiet : preserves quiet persist_action_count.
Proof.
  unfold persist_action_count. quiet.
  - apply modify_drpc_quiet. apply sync_identical.
  - apply preserves_modify. intros w. by apply quiet_intro.
Qed.

Lemma updateDRPCStatus_promotes vrgs : preserves nothing (updateDRPCStatus vrgs).
Proof.
  unfold updateDRPCStatus. repeat preserves_step ltac:(first
    [ apply updateResourceCondition_promotes
    | apply (preserves_mono _ _ _ (quiet_promotes _)); solve
        [ apply persist_action_count_quiet | by apply modify_drpc_quiet | auto with quiet nocore ] ]).
Qed.

#[local] Hint Resolve updateDRPCStatus_promotes : promotes.

Lemma recordFailure_promotes r m : preserves nothing (recordFailure r m).
Proof.
  unfold recordFailure. repeat preserves_step ltac:(first
    [ apply updateDRPCStatus_promotes | apply (preserves_mono _ _ _ (quiet_promotes _)); solve [auto with quiet nocore] ]).
Qed.

Lemma ensureGlobalVGRLabel_quiet : preserves quiet ensureGlobalVGRLabel.
Proof.
  unfold ensureGlobalVGRLabel. quiet. apply modify_drpc_quiet. intros d. unfold same_identity, AddLabel. simpl. by case_bool_decide.
Qed.

Lemma processTestFailoverFlow_promotes : preserves nothing processTestFailoverFlowIfEnabled.
Proof.
  unfold processTestFailoverFlowIfEnabled. repeat preserves_step ltac:(first
    [ apply recordFailure_promotes
    | apply (preserves_mono _ _ _ (quiet_promotes _)); solve
        [ auto with quiet nocore
        | apply modify_drpc_quiet; intros d; unfold same_identity, AddAnnotation; simpl; by case_bool_decide ] ]).
Qed.

Lemma processTestFailoverFlow_continues w :
  (processTestFailoverFlowIfEnabled w).1 = (true, None) →
  (processTestFailoverFlowIfEnabled w).2 = w ∧
  (dsp_DryRun (drpc_Spec (w_drpc w)) = true → dsp_Action (drpc_Spec (w_drpc w)) = ActionFailover).
Proof.
  unfold processTestFailoverFlowIfEnabled. rewrite run_bind. cbn [gets fst snd].
  destruct (_ && bool_decide (_ ≠ _)) eqn:E1.
  - rewrite run_bind. done.
  - destruct (_ && _ && _ && _); [rewrite !run_bind; simpl; repeat case_match; done|].
    intros _. split; [done|]. intros Ed. rewrite Ed in E1. simpl in E1. bools. by apply dec_stable.
Qed.

(** Adoption: what becomes primary is a primary that a view shows. *)
Lemma adoption_primary w c :
  om_Name (drpc_Meta (w_drpc w)) = d_InstName →
  let w1 := (ensureVRGsManagedByDRPC (w_vrgs w) (w_drpc w) d_vrgNamespace w).2 in
  base w w1 ∧ w_vrgs w1 = w_vrgs w ∧
  (primary_on w c = false → primary_on w1 c = true → ∃ v, w_vrgs w !! c = Some v ∧ isVRGPrimary v = true).
Proof.
  intros En. cbv zeta.
  destruct (ensureVRGsManagedByDRPC_drops (λ _, False) (w_vrgs w) (w_drpc w) d_vrgNamespace w) as [(n&m&r&_&E)_].
  unfold ensureVRGsManagedByDRPC in *. rewrite run_bind in *. simpl in *.
  set (l := env_range (w_tick w) (w_vrgs w)) in *.
  destruct (adopt_all_adopts (w_drpc w) d_vrgNamespace l true l (λ _ h, h) (w <| w_tick ::= S |>)) as [B A0].
  pose proof (λ c v', adopts_spec _ _ _ _ c v' (conj B A0)) as A. rewrite En in A. split_and!; [etransitivity; [apply (quiet_base _ _ (tick_quiet w))|exact B]|by rewrite E|].
  intros Hc Hc'. revert Hc'. unfold primary_on at 1.
  set (w1 := (adopt_all _ _ _ _ _).2) in *. destruct (w_mws w1 !! _) as [mw|] eqn:Em; [|done]. intros Hp.
  assert (∃ v', vrg_at (ManifestWorkName d_InstName d_vrgNamespace MWTypeVRG) w1 c = Some v' ∧ isVRGPrimary v' = true)
    as (v'&Hv&Hv').
  { unfold vrg_at. change vrgMWName with (ManifestWorkName d_InstName d_vrgNamespace MWTypeVRG) in Em. rewrite Em. simpl. revert Hp. unfold spec_primary.
    destruct (mws_Manifests _) as [|x ?]; [done|]. destruct (manifest_as_vrg x) as [v|]; [|done]. by eexists. }
  destruct (A c v' Hv) as [(v&Hw&Ev)|(v&Hin&Ev)].
  - exfalso. revert Hc. unfold primary_on. change vrgMWName with (ManifestWorkName d_InstName d_vrgNamespace MWTypeVRG). revert Hw. unfold vrg_at. simpl.
    destruct (w_mws w !! _); [|done]. simpl. unfold spec_primary. destruct (mws_Manifests _) as [|x ?]; [done|].
    destruct (manifest_as_vrg x) as [u|]; [|done]. intros [= ->]. revert Hv'. unfold isVRGPrimary. rewrite Ev. congruence.
  - exists v. split; [by apply (range_primary _ (w_tick w))|]. revert Hv'. unfold isVRGPrimary. by rewrite Ev.
Qed.

(** A promotion during the processing is the action's. *)
Lemma startProcessing_promotes w c :
  primary_on w c = false → primary_on (startProcessing w).2 c = true →
  primary_on (executeAction w).2 c = true ∧
  (dsp_DryRun (drpc_Spec (w_drpc w)) = true → dsp_Action (drpc_Spec (w_drpc w)) = ActionFailover).
Proof.
  intros Hc. unfold startProcessing. rewrite run_bind. intros Hp.
  assert (T : preserves nothing (
    should ← shouldUpdateStatus; now ← time_Now; s ← status;
    err ← (if (should : bool) || statusUpdateTimeElapsed now s
           then vrgs ← gets w_vrgs; updateDRPCStatus (Some vrgs) else mret None);
    mret (match err, (processPlacement w).1 with
          | Some _, _ => true | None, (_, Some _) => true | None, (done, None) => negb done end))).
  { unfold status. promotes. }
  destruct (T (processPlacement w).2) as [_ Tp]. apply Tp in Hp; [|tauto]. clear T Tp.
  revert Hp. unfold processPlacement. rewrite run_bind.
  destruct (processTestFailoverFlow_promotes w) as [_ Tp]. pose proof (processTestFailoverFlow_continues w) as Tc.
  destruct (processTestFailoverFlowIfEnabled w) as [[[|] [e|]] w1]; cbn [fst snd] in *;
    try (intros Hp; apply Tp in Hp; [congruence|tauto]).
  destruct Tc as [-> Td]; [done|]. done.
Qed.

(** C5: whatever a reconcile of a DRPC does, adoption of VRGs and the update of its
    status included, a cluster's VRG ManifestWork becomes primary only because the
    reconcile's views show a primary VRG there that is adopted, or because it is the
    target of the DRPC's action, the action itself turned it primary, and the DRPC is
    not a test failover of another action. *)
Theorem reconcile_promotes_target w c :
  in_sync w → om_Name (drpc_Meta (w_drpc w)) = d_InstName →
  primary_on w c = false → primary_on (reconcileDRPCInstance w).2 c = true →
  (∃ v, w_vrgs w !! c = Some v ∧ isVRGPrimary v = true) ∨
  c = target (drpc_Spec (w_drpc w)) ∧
  (dsp_DryRun (drpc_Spec (w_drpc w)) = true → dsp_Action (drpc_Spec (w_drpc w)) = ActionFailover) ∧
  ∃ w1, base w w1 ∧ w_vrgs w1 = w_vrgs w ∧ primary_on w1 c = false ∧ primary_on (executeAction w1).2 c = true.
Proof.
  intros Hs En Hc. unfold reconcileDRPCInstance. do 2 (rewrite run_bind; cbn [gets fst snd]). cbv zeta.
  rewrite run_bind. destruct (adoption_primary w c En) as (B&Ev&Ha). cbv zeta in *.
  set (w1 := (ensureVRGsManagedByDRPC _ _ _ w).2) in *.
  destruct (primary_on w1 c) eqn:E1; [intros _; left; by apply Ha|].
  destruct (negb _); [simpl; congruence|]. rewrite run_bind.
  pose proof (ensureGlobalVGRLabel_quiet w1) as Q. set (w2 := (ensureGlobalVGRLabel w1).2) in *.
  assert (E2 : primary_on w2 c = false) by (by rewrite (quiet_primary_on _ _ c Q)).
  destruct (negb _); [simpl; congruence|]. rewrite run_bind. intros Hp. right.
  assert (Hp2 : primary_on (startProcessing w2).2 c = true).
  { revert Hp. generalize (startProcessing w2). intros [b w3]. rewrite !run_bind. cbn [gets fst snd status].
    destruct (_ && _); [done|]. by destruct b. }
  apply startProcessing_promotes in Hp2 as [Hp2 Hd]; [|done].
  assert (B2 : base w w2) by (etransitivity; [exact B|exact (quiet_base _ _ Q)]).
  destruct (proj2 B2 Hs) as [Hs2 (Hspec&_)]. rewrite <- Hspec in Hd.
  split_and!; [rewrite Hspec; by apply executeAction_target|done|].
  exists w2. split_and!; try done. destruct Q as (_&_&->&_). done.
Qed.
End promotions.

(** Both clusters show a managed secondary: the relocation to east promotes it. *)
Module TurnCase.
Definition views : gmap string VolumeReplicationGroup := DeletionCase.managed <$> all_secondary.
#[export] Instance env : Env := calm (shown views).
#[export] Instance inst : DRPCInstance := instance DRTypeAsync ConditionFalse.
Definition start : World := hub (drpc ActionRelocate false) views "".
Definition after : World := (@reconcileDRPCInstance env inst DeletionCase.reads start).2.
End TurnCase.

Lemma reconcile_promotes_target_witness :
  @primary_on TurnCase.inst TurnCase.after "east" = true ∧
  "east" = target (drpc_Spec (w_drpc TurnCase.start)).
Proof.
  split; [vm_compute; reflexivity|].
  destruct (@reconcile_promotes_target TurnCase.env TurnCase.inst DeletionCase.reads TurnCase.start "east")
    as [(v&E&P)|(T&_)]; [repeat split|reflexivity|vm_compute; reflexivity..| |exact T].
  vm_compute in E. injection E as <-. discriminate P.
Defined.

(** ** When the next reconcile is due *)

(** a DRPC that needs nothing is reconciled again after at most ten minutes, and
    never later than ten minutes after the last update of its status — unless these
    have passed without an update: then the delay is zero, which asks for no further
    reconcile at all. *)
Theorem status_check_delay_bounds now before after :
  (before ≤ now)%Z →
  let d := getStatusCheckDelay now before after in
  (0 ≤ d ≤ StatusCheckDelay)%Z ∧
  (d = 0 ↔ before = after ∧ before + StatusCheckDelay ≤ now)%Z ∧
  (0 < d → now + d = (if bool_decide (before = after) then before else now) + StatusCheckDelay)%Z.
Proof.
  intros Hn. cbv zeta. assert (0 < StatusCheckDelay)%Z by done. unfold getStatusCheckDelay.
  repeat case_bool_decide; try done; split_and!; try lia.
Qed.

Lemma status_check_delay_bounds_witness :
  let d := getStatusCheckDelay (Minute * 8) 0 0 in
  (0 ≤ d ≤ StatusCheckDelay)%Z ∧ (d = 0 ↔ 0 = 0 ∧ 0 + StatusCheckDelay ≤ Minute * 8)%Z ∧
  (0 < d → Minute * 8 + d = (if bool_decide (0 = 0) then 0 else Minute * 8) + StatusCheckDelay)%Z.
Proof. apply (status_check_delay_bounds (Minute * 8) 0 0). vm_compute. discriminate. Defined.

(** A settled DRPC whose status was last updated twenty minutes ago: its third
    reconcile changes nothing and asks for no other, so that its status is refreshed
    again only when something else triggers a reconcile. *)
Module IdleCase.
Definition views : gmap string VolumeReplicationGroup := DeletionCase.managed <$> home_east.
#[export] Instance env : Env := calm (shown views).
(** The next reconcile: the DRPC read from the server, the views as before. *)
Definition again (w : World) : World :=
  begin_reconcile 0 (w <| w_vrgs := views |> <| w_api_drpc ::= λ d, d <| drpc_Status ::= λ s,
    s <| dst_LastUpdateTime := Some (- Minute * 20)%Z |> |> |>) <| w_placement := w_placement w |>.
Definition inst (w : World) : DRPCInstance := {|
  d_drPolicy := policy "5m"; d_drClusters := [drcluster "east" ConditionFalse; drcluster "west" ConditionFalse];
  d_drType := DRTypeAsync; d_volSyncDisabled := true; d_vrgNamespace := "ns"; d_InstName := "app";
  d_numClustersQueriedSuccessfully := 2; d_savedInstanceStatus := drpc_Status (w_drpc w);
  d_RetainNamespaceSCCAcrossPeers := false; d_RamenOperandsNamespace := "ramen-ops"; d_networkMappingRules := None |}.
Definition run (w : World) : Result * World := @reconcileDRPCInstance env (inst (again w)) DeletionCase.reads (again w).
Definition settled : World := (run (run (hub (drpc ActionNone false) views "east")).2).2.
End IdleCase.

Example idle_drpc_not_requeued : (IdleCase.run IdleCase.settled).1 = no_requeue.
Proof. vm_compute. reflexivity. Qed.
