(* ===== verification/MaintenanceModes.v ===== *)
(** * Maintenance modes of a cluster's storage

    internal/controller/drcluster_mmode.go: before a regional failover to a cluster
    some of its storage must enter a maintenance mode.  The DRCluster's reconcile
    finds the modes that the DRPCs failing over to it require, asks for them by
    ManifestWork, withdraws those required no more, and reports what the cluster's
    views show; and drplacementcontrol_watcher.go, the DRPCs that are failing over.

    A nil dereference or a slice out of range is a panic, [None] for the loops below:
    the reconcile ends there. *)

From Stdlib Require Import ZArith.
From S2P Require Import Prelude Meta Names Conditions Api PeerClasses PolicyPeers Hub ManifestWorks Views ClassViews.
From S2P Require Import DRClusters DRPC HubRecovery Conflicts StatusRefresh Reconcile.

Record DRPCAndPolicy := mkDRPCAndPolicy {
  dap_drpc : DRPlacementControl;
  dap_drPolicy : DRPolicy;
}.

(** The placement and the ApplicationSets at the time of a read, and the order of a
    range over a map: any order. *)
Class ModeReads := {
  env_snapshot : nat → Snapshot;
  env_range_si : nat → gmap string StorageIdentifiers → list (string * StorageIdentifiers);
  env_range_si_perm : ∀ t m, env_range_si t m ≡ₚ map_to_list m;
  env_range_mw : nat → gmap string ManifestWork → list (string * ManifestWork);
  env_range_mw_perm : ∀ t m, env_range_mw t m ≡ₚ map_to_list m;
}.

Definition DrpolicyContainsDrcluster (drpolicy : DRPolicy) (drcluster : string) : bool :=
  bool_decide (drcluster ∈ DRPolicyClusterNames drpolicy).

(** The Available condition is true at the DRPC's generation. *)
Definition drpc_available (drpc : DRPlacementControl) : bool :=
  match FindCondition (dst_Conditions (drpc_Status drpc)) ConditionAvailable with
  | Some c => bool_decide (cond_Status c = ConditionTrue) &&
              bool_decide (cond_ObservedGeneration c = om_Generation (drpc_Meta drpc))
  | None => false
  end.

Definition failing_over_to (drpolicy : DRPolicy) (drcluster : string) (drpc : DRPlacementControl) : bool :=
  bool_decide (dsp_DRPolicyRef (drpc_Spec drpc) = om_Name (drp_Meta drpolicy)) &&
  negb (ResourceIsDeleted (drpc_Meta drpc)) &&
  (bool_decide (dsp_Action (drpc_Spec drpc) = ActionFailover) &&
   bool_decide (dsp_FailoverCluster (drpc_Spec drpc) = drcluster)) &&
  negb (drpc_available drpc).

Section modes.
Context `{Env} `{ViewCodec} `{ClusterReads} `{HubReads} `{ReconcileEnv} `{ModeReads}.

(** ** DRPCs failing over to a cluster *)

Definition DRPCsFailingOverToClusterForPolicy (drpolicy : DRPolicy) (drcluster : string)
    : Op (list DRPlacementControl + GoError) :=
  t ← tick;
  mret (match env_list_all_drpcs t with
        | inr e => inr e
        | inl drpcs => inl (filter (λ d, failing_over_to drpolicy drcluster d = true) drpcs)
        end).

(** The loop over the policies.  A metro policy ends it ([break]); so does, without an
    error, one with fewer than two clusters. *)
Fixpoint failing_over_by_policy (drpolicies : list DRPolicy) (drcluster : string) (found : list DRPCAndPolicy)
    : Op (list DRPCAndPolicy + GoError) :=
  match drpolicies with
  | [] => mret (inl found)
  | drpolicy :: drpolicies' =>
      if negb (DrpolicyContainsDrcluster drpolicy drcluster)
      then failing_over_by_policy drpolicies' drcluster found
      else
        r ← GetDRClusters drpolicy;
        match r with
        | inr e => mret (inr e)
        | inl drClusters =>
            if bool_decide (length drClusters <= 1) then mret (inl [])
            else
              match dRPolicySupportsMetro drpolicy None with
              | (_, Some e) => mret (inr (Errorf ("failed to check if DRPolicy supports Metro: " +:+ error_text e) (Some e)))
              | (metro, _, None) =>
                  if (metro : bool) then mret (inl found)
                  else
                    r ← DRPCsFailingOverToClusterForPolicy drpolicy drcluster;
                    match r with
                    | inr e => mret (inr e)
                    | inl drpcs =>
                        failing_over_by_policy drpolicies' drcluster
                          (found ++ ((λ d, mkDRPCAndPolicy d drpolicy) <$> drpcs))
                    end
              end
        end
  end.

Definition DRPCsFailingOverToCluster (drcluster : string) : Op (list DRPCAndPolicy + GoError) :=
  t ← tick;
  match env_list_drpolicies t with
  | inr e => mret (inr e)
  | inl drpolicies => failing_over_by_policy drpolicies drcluster []
  end.

Definition placement_of (drpc : DRPlacementControl) : Op (UserPlacement + GoError) :=
  t ← tick; mret (@getPlacementOrPlacementRule (env_snapshot t) drpc).

(** ** Modes required *)

Definition getVRGs (drpcCollection : DRPCAndPolicy) : Op (gmap string VolumeReplicationGroup + GoError) :=
  r ← GetDRClusters (dap_drPolicy drpcCollection);
  match r with
  | inr e => mret (inr e)
  | inl drClusters =>
      r ← placement_of (dap_drpc drpcCollection);
      match r with
      | inr e => mret (inr e)
      | inl placementObj =>
          r ← selectVRGNamespace (dap_drpc drpcCollection) placementObj;
          match r with
          | inr e => mret (inr e)
          | inl vrgNamespace =>
              r ← getVRGsFromManagedClusters (dap_drpc drpcCollection) drClusters vrgNamespace;
              mret (match r with
                    | (_, Some e) => inr e
                    | (vrgs, _, _, None) => inl vrgs
                    end)
          end
      end
  end.

Definition set_requeue : COp unit := modify (λ w, w <| cw_requeue := true |>).

(** The modes one DRPC requires; [inl None] when its VRGs are unknown. *)
Definition modes_of_drpc (drpcCollection : DRPCAndPolicy)
    : COp (option (gmap string StorageIdentifiers) + GoError) :=
  r ← on_hub (getVRGs drpcCollection);
  match r with
  | inr _ => set_requeue;; mret (inl None)
  | inl vrgs =>
      r ← on_hub (placement_of (dap_drpc drpcCollection));
      match r with
      | inr e => mret (inr e)
      | inl placementObj =>
          r ← on_hub (selectVRGNamespace (dap_drpc drpcCollection) placementObj);
          match r with
          | inr e => mret (inr e)
          | inl vrgNamespace =>
              object ← gets cw_object;
              r ← on_hub (requiresRegionalFailoverPrerequisites [dcs_S3ProfileName (dc_Spec object)]
                            (om_Name (drpc_Meta (dap_drpc drpcCollection))) vrgNamespace vrgs
                            (om_Name (dc_Meta object)));
              mret (inl (if (r.1 : bool) then Some r.2 else None))
          end
      end
  end.

(** The loop: the first storage identifiers of a key are kept. *)
Fixpoint modes_of_drpcs (l : list DRPCAndPolicy) (allActivations : gmap string StorageIdentifiers)
    : COp (gmap string StorageIdentifiers + GoError) :=
  match l with
  | [] => mret (inl allActivations)
  | d :: l' =>
      r ← modes_of_drpc d;
      match r with
      | inr e => mret (inr e)
      | inl None => modes_of_drpcs l' allActivations
      | inl (Some required) => modes_of_drpcs l' (allActivations ∪ required)
      end
  end.

Definition mModeActivationsRequired : COp (gmap string StorageIdentifiers + GoError) :=
  name ← gets object_name;
  r ← on_hub (DRPCsFailingOverToCluster name);
  match r with
  | inr e => set_requeue;; mret (inr e)
  | inl drpcCollections => modes_of_drpcs drpcCollections ∅
  end.

(** ** Activation *)

Definition activateRegionalFailoverPrequisite (identifier : StorageIdentifiers) : COp (option GoError) :=
  let id := idf_ID (si_ReplicationID identifier) in
  let meta := (AddLabel (named_meta id "") CreatedByRamenLabel "true").2 in
  let mMode := mkMaintenanceMode meta
                 (mkMaintenanceModeSpec (si_StorageProvisioner identifier) id [MModeFailover])
                 (mkMaintenanceModeStatus "" 0 []) in
  name ← gets object_name;
  on_hub (CreateOrUpdateMModeManifestWork id name mMode {[DRClusterNameAnnotation := name]}).

Fixpoint activate_all (l : list (string * StorageIdentifiers)) : COp unit :=
  match l with
  | [] => mret ()
  | (_, identifier) :: l' =>
      err ← activateRegionalFailoverPrequisite identifier;
      (match err with Some _ => set_requeue | None => mret () end);;
      activate_all l'
  end.

Definition activateRegionalFailoverPrequisites (activationsRequired : gmap string StorageIdentifiers) : COp unit :=
  t ← on_hub tick;
  activate_all (env_range_si t activationsRequired).

(** ** Withdrawal *)

Definition uses_backend (storageProvisioner targetID : string) (vrg : VolumeReplicationGroup) : bool :=
  existsb (λ pvc, bool_decide (si_StorageProvisioner (pp_StorageIdentifiers pvc) = storageProvisioner) &&
                  bool_decide (idf_ID (si_ReplicationID (pp_StorageIdentifiers pvc)) = targetID))
    (vst_ProtectedPVCs (vrg_Status vrg)).

Definition drpcUsesStorageBackend (drpc : DRPlacementControl) (storageProvisioner targetID : string) : Op bool :=
  r ← GetDRPolicy drpc;
  match r with
  | inr _ => mret true
  | inl drPolicy =>
      r ← getVRGs (mkDRPCAndPolicy drpc drPolicy);
      mret (match r with
            | inr _ => true
            | inl vrgs => existsb (λ kv, uses_backend storageProvisioner targetID kv.2) (map_to_list vrgs)
            end)
  end.

Fixpoint needed_by (l : list DRPCAndPolicy) (storageProvisioner targetID : string) : Op bool :=
  match l with
  | [] => mret false
  | d :: l' =>
      if drpc_available (dap_drpc d) then needed_by l' storageProvisioner targetID
      else
        used ← drpcUsesStorageBackend (dap_drpc d) storageProvisioner targetID;
        if (used : bool) then mret true else needed_by l' storageProvisioner targetID
  end.

Definition mmodeStillNeededByFailoverDRPC (storageProvisioner targetID : string) : COp bool :=
  name ← gets object_name;
  r ← on_hub (DRPCsFailingOverToCluster name);
  match r with
  | inr _ => set_requeue;; mret true
  | inl l => on_hub (needed_by l storageProvisioner targetID)
  end.

Definition expireClusterMModeActivation (mw : ManifestWork) : COp (option GoError) :=
  on_hub (DeleteManifestWork (om_Name (mw_Meta mw)) (om_Namespace (mw_Meta mw))).

Definition mode_key (m : MaintenanceMode) : string :=
  mms_StorageProvisioner (mm_Spec m) +:+ mms_TargetID (mm_Spec m).

(** Whether the work survives: asked for now, or still needed. *)
Definition mode_survives (activationsRequired : gmap string StorageIdentifiers) (mModeRequest : MaintenanceMode)
    : COp bool :=
  match activationsRequired !! mode_key mModeRequest with
  | Some _ => mret true
  | None => mmodeStillNeededByFailoverDRPC (mms_StorageProvisioner (mm_Spec mModeRequest))
              (mms_TargetID (mm_Spec mModeRequest))
  end.

Fixpoint prune_modes (mws : list ManifestWork) (activationsRequired : gmap string StorageIdentifiers)
    (survivors : gmap string ManifestWork) : COp (option (gmap string ManifestWork)) :=
  match mws with
  | [] => mret (Some survivors)
  | mw :: mws' =>
      match ExtractMModeFromManifestWork mw with
      | inr _ => set_requeue;; prune_modes mws' activationsRequired survivors
      | inl None => mret None
      | inl (Some mModeRequest) =>
          survives ← mode_survives activationsRequired mModeRequest;
          if (survives : bool)
          then prune_modes mws' activationsRequired (<[mms_TargetID (mm_Spec mModeRequest) := mw]> survivors)
          else
            err ← expireClusterMModeActivation mw;
            (match err with Some _ => set_requeue | None => mret () end);;
            prune_modes mws' activationsRequired survivors
      end
  end.

Definition pruneMModesActivations (activationsRequired : gmap string StorageIdentifiers)
    : COp (option (gmap string ManifestWork * option GoError)) :=
  name ← gets object_name;
  r ← on_hub (ListMModeManifests name);
  match r with
  | inr e => set_requeue;; mret (Some (∅, Some e))
  | inl mws =>
      r ← prune_modes mws activationsRequired ∅;
      mret (match r with Some survivors => Some (survivors, None) | None => None end)
  end.

(** ** Views and status *)

(** [None]: a panic. *)
Fixpoint create_mode_views (l : list (string * ManifestWork)) : COp (option unit) :=
  match l with
  | [] => mret (Some ())
  | (_, mw) :: l' =>
      match ExtractMModeFromManifestWork mw with
      | inr _ => set_requeue;; create_mode_views l'
      | inl None => mret None
      | inl (Some mModeRequest) =>
          name ← gets object_name;
          r ← on_hub (GetMModeFromManagedCluster (mms_TargetID (mm_Spec mModeRequest)) name
                        {[DRClusterNameAnnotation := name]});
          (match r with inr _ => set_requeue | inl _ => mret () end);;
          create_mode_views l'
      end
  end.

Definition createMModeMCV (manifests : gmap string ManifestWork) : COp (option unit) :=
  t ← on_hub tick;
  create_mode_views (env_range_mw t manifests).

Definition pruneMModeMCV (inMModeMCV : ManagedClusterView) (survivors : gmap string ManifestWork)
    : COp (option (option MaintenanceMode)) :=
  match GetResource json_MaintenanceMode inMModeMCV with
  | inl mMode => mret (Some (Some mMode))
  | inr e =>
      if negb (IsNotFound e) then set_requeue;; mret (Some None)
      else
        match ClusterScopedResourceNameFromMCVName (om_Name (mcv_Meta inMModeMCV)) with
        | None => mret None
        | Some key =>
            match survivors !! key with
            | Some _ => mret (Some None)
            | None =>
                if ResourceIsDeleted (mcv_Meta inMModeMCV) then mret (Some None)
                else
                  name ← gets object_name;
                  err ← on_hub (DeleteManagedClusterView name (om_Name (mcv_Meta inMModeMCV)));
                  (match err with Some _ => set_requeue | None => mret () end);;
                  mret (Some None)
            end
        end
  end.

(** What is reported of a view: what it shows, or for a survivor that it shows nothing. *)
Definition mode_status (mcv : ManagedClusterView) (survivors : gmap string ManifestWork) (shown : option MaintenanceMode)
    : option (option ClusterMaintenanceMode) :=
  match shown with
  | Some m => Some (Some (mkClusterMaintenanceMode (mms_StorageProvisioner (mm_Spec m)) (mms_TargetID (mm_Spec m))
                            (mmt_State (mm_Status m)) (mmt_Conditions (mm_Status m))))
  | None =>
      match ClusterScopedResourceNameFromMCVName (om_Name (mcv_Meta mcv)) with
      | None => None
      | Some key =>
          match survivors !! key with
          | None => Some None
          | Some mw =>
              match ExtractMModeFromManifestWork mw with
              | inr _ => Some None
              | inl None => None
              | inl (Some m) =>
                  Some (Some (mkClusterMaintenanceMode (mms_StorageProvisioner (mm_Spec m)) (mms_TargetID (mm_Spec m))
                                MModeStateUnknown []))
              end
          end
      end
  end.

Fixpoint report_modes (mcvs : list ManagedClusterView) (survivors : gmap string ManifestWork) : COp (option unit) :=
  match mcvs with
  | [] => mret (Some ())
  | mcv :: mcvs' =>
      shown ← pruneMModeMCV mcv survivors;
      match shown with
      | None => mret None
      | Some shown =>
          match mode_status mcv survivors shown with
          | None => mret None
          | Some None => report_modes mcvs' survivors
          | Some (Some s) =>
              modify_dcstatus (λ st, st <| dct_MaintenanceModes ::= λ l, l ++ [s] |>);;
              report_modes mcvs' survivors
          end
      end
  end.

Definition updateMModeActivationStatus (survivors : gmap string ManifestWork) : COp (option unit) :=
  r ← createMModeMCV survivors;
  match r with
  | None => mret None
  | Some _ =>
      name ← gets object_name;
      r ← on_hub (ListMModesMCVs name);
      match r with
      | inr _ =>
          set_requeue;;
          modify_dcstatus (λ st, st <| dct_MaintenanceModes := [] |>);;
          mret None
      | inl mcvs =>
          modify_dcstatus (λ st, st <| dct_MaintenanceModes := [] |>);;
          report_modes mcvs survivors
      end
  end.

(** ** The handler

    [None]: a panic; [Some err] the result. *)

Definition clusterMModeHandler : COp (option (option GoError)) :=
  r ← mModeActivationsRequired;
  match r with
  | inr e => set_requeue;; mret (Some (Some e))
  | inl allActivations =>
      object ← gets cw_object;
      (if checkFailoverMaintenanceActivations object allActivations then mret ()
       else activateRegionalFailoverPrequisites allActivations);;
      r ← pruneMModesActivations allActivations;
      match r with
      | None => mret None
      | Some (survivors, err) =>
          (match err with Some _ => set_requeue | None => mret () end);;
          r ← updateMModeActivationStatus survivors;
          mret (match r with None => None | Some _ => Some None end)
      end
  end.

(** ** Cleanup

    The works are listed in the DRCluster's own namespace, which for a cluster scoped
    object is empty: in all namespaces. *)

Fixpoint delete_mode_works (mws : list ManifestWork) : Op (option GoError) :=
  match mws with
  | [] => mret None
  | mw :: mws' =>
      err ← DeleteManifestWork (om_Name (mw_Meta mw)) (om_Namespace (mw_Meta mw));
      match err with
      | Some e => mret (Some e)
      | None => delete_mode_works mws'
      end
  end.

Fixpoint delete_mode_views (cluster : string) (views : list ManagedClusterView) : Op (option GoError) :=
  match views with
  | [] => mret None
  | v :: views' =>
      err ← DeleteManagedClusterView cluster (om_Name (mcv_Meta v));
      match err with
      | Some e => mret (Some e)
      | None => delete_mode_views cluster views'
      end
  end.

Definition drClusterMModeCleanup (drcluster : DRCluster) : Op (option GoError) :=
  r ← ListMModeManifests (om_Namespace (dc_Meta drcluster));
  match r with
  | inr e => mret (Some e)
  | inl mws =>
      err ← delete_mode_works mws;
      match err with
      | Some e => mret (Some e)
      | None =>
          r ← ListMModesMCVs (om_Name (dc_Meta drcluster));
          match r with
          | inr e => mret (Some e)
          | inl views => delete_mode_views (om_Name (dc_Meta drcluster)) views
          end
      end
  end.
End modes.
