(* ===== verification/DRClusterDeploy.v ===== *)
(** * Deploying the operator to a cluster

    internal/controller/drclusters.go with the settings of ramenconfig.go it reads:
    the ManifestWork that holds the roles of the work agent and, if deployment is
    automated, the operator's namespace, role, group, configuration and subscription.
    [drClusterUndeploy] takes all of a cluster's works and views back. *)

From S2P Require Import Prelude Meta Names Conditions Api PolicyPeers Hub ManifestWorks Views ClassViews.
From S2P Require Import DRClusters DRPC HubRecovery Conflicts StatusRefresh Reconcile MaintenanceModes.

(** ** Configuration *)

Record S3StoreProfile := mkS3StoreProfile {
  sp_S3ProfileName : string;
  sp_S3Bucket : string;
  sp_S3CompatibleEndpoint : string;
  sp_S3Region : string;
  sp_S3SecretRef : string;
  sp_VeleroNamespaceSecretKeyRef : option (string * string);
}.

(** [RamenConfig.DrClusterOperator] *)
Record DrClusterOperatorConfig := mkDrClusterOperatorConfig {
  dco_DeploymentAutomationEnabled : bool;
  dco_S3SecretDistributionEnabled : bool;
  dco_ChannelName : string;
  dco_PackageName : string;
  dco_NamespaceName : string;
  dco_CatalogSourceName : string;
  dco_CatalogSourceNamespaceName : string;
  dco_ClusterServiceVersionName : string;
}.

(** The parts of [RamenConfig] the policy and cluster controllers read. *)
Record OperatorConfig := mkOperatorConfig {
  oc_LeaderElection : option string;
  oc_S3StoreProfiles : list S3StoreProfile;
  oc_DrClusterOperator : DrClusterOperatorConfig;
  oc_KubeObjectProtectionDisabled : bool;
  oc_VeleroNamespaceName : string;
  oc_RamenOpsNamespace : string;
}.
#[export] Instance eta_OperatorConfig : Eta OperatorConfig := λ c,
  mkOperatorConfig (oc_LeaderElection c) (oc_S3StoreProfiles c) (oc_DrClusterOperator c)
    (oc_KubeObjectProtectionDisabled c) (oc_VeleroNamespaceName c) (oc_RamenOpsNamespace c).

(** The operator's namespace (an environment variable), the read of the configuration,
    its YAML, and the ManagedClusterAddOn that deploys VolSync. *)
Class ConfigEnv := {
  RamenOperatorNamespace : string;
  env_operator_config : nat → OperatorConfig + GoError;
  yaml_Marshal : OperatorConfig → string + GoError;
  env_CreateOrUpdate_addon : nat → string → option GoError;
}.

Definition drClusterOperatorNameDefault : string := "ramen-dr-cluster-operator".
Definition DrClusterOperatorConfigMapName : string := drClusterOperatorNameDefault +:+ "-config".
Definition drClusterLeaderElectionResourceName : string := "dr-cluster.ramendr.openshift.io".
Definition ConfigMapRamenConfigKeyName : string := "ramen_manager_config.yaml".
Definition drClusterOperatorPackageNameDefault : string := drClusterOperatorNameDefault.
Definition drClusterOperatorChannelNameDefault : string := "alpha".
Definition drClusterOperatorCatalogSourceNameDefault : string := "ramen-catalog".
Definition drClusterOperatorClusterServiceVersionNameDefault : string :=
  drClusterOperatorPackageNameDefault +:+ ".v0.0.1".

Section deploy.
Context `{Env} `{ConfigEnv}.

Definition ConfigMapGet : Op (OperatorConfig + GoError) := t ← tick; mret (env_operator_config t).

Definition drClusterOperatorChannelNameOrDefault (c : OperatorConfig) : string :=
  let v := dco_ChannelName (oc_DrClusterOperator c) in
  if bool_decide (v = "") then drClusterOperatorChannelNameDefault else v.
Definition drClusterOperatorPackageNameOrDefault (c : OperatorConfig) : string :=
  let v := dco_PackageName (oc_DrClusterOperator c) in
  if bool_decide (v = "") then drClusterOperatorPackageNameDefault else v.
Definition drClusterOperatorNamespaceNameOrDefault (c : OperatorConfig) : string :=
  let v := dco_NamespaceName (oc_DrClusterOperator c) in
  if bool_decide (v = "") then RamenOperatorNamespace else v.
Definition drClusterOperatorCatalogSourceNameOrDefault (c : OperatorConfig) : string :=
  let v := dco_CatalogSourceName (oc_DrClusterOperator c) in
  if bool_decide (v = "") then drClusterOperatorCatalogSourceNameDefault else v.
Definition drClusterOperatorCatalogSourceNamespaceNameOrDefault (c : OperatorConfig) : string :=
  let v := dco_CatalogSourceNamespaceName (oc_DrClusterOperator c) in
  if bool_decide (v = "") then RamenOperatorNamespace else v.
Definition drClusterOperatorClusterServiceVersionNameOrDefault (c : OperatorConfig) : string :=
  let v := dco_ClusterServiceVersionName (oc_DrClusterOperator c) in
  if bool_decide (v = "") then drClusterOperatorClusterServiceVersionNameDefault else v.

Definition RamenConfigS3StoreProfilePointerGet (c : OperatorConfig) (profileName : string) : option S3StoreProfile :=
  find_first (λ p, bool_decide (sp_S3ProfileName p = profileName)) (oc_S3StoreProfiles c).

(** ** Objects *)

Definition ramen_labels : gmap string string := {[CreatedByRamenLabel := "true"]}.

Definition Namespace (name : string) : Manifest := MNamespace (named_meta name "" <| om_Labels := ramen_labels |>).

Definition olmClusterRole : Manifest :=
  cluster_role "olm-edit" "operators.coreos.com" "operatorgroups" "create,get,list,update,delete".

Definition operatorGroup (namespaceName : string) : Manifest :=
  MObject "operators.coreos.com/v1" "OperatorGroup"
    (named_meta "ramen-operator-group" namespaceName <| om_Labels := ramen_labels |>) "".

Definition subscription (namespaceName channelName packageName catalogSourceName catalogSourceNamespaceName
    clusterServiceVersionName : string) : Subscription :=
  mkSubscription (named_meta "ramen-dr-cluster-subscription" namespaceName <| om_Labels := ramen_labels |>)
    catalogSourceName catalogSourceNamespaceName packageName channelName clusterServiceVersionName "Automatic".

Definition ConfigMapNew (namespaceName name : string) (c : OperatorConfig) : Manifest + GoError :=
  match yaml_Marshal c with
  | inr e => inr (Errorf ("config map yaml marshal " +:+ error_text e) (Some e))
  | inl y => inl (MObject "v1" "ConfigMap" (named_meta name namespaceName <| om_Labels := ramen_labels |>)
                    (ConfigMapRamenConfigKeyName +:+ ": " +:+ y))
  end.

Definition objectsToDeploy (hubOperatorRamenConfig : OperatorConfig) : list Manifest + GoError :=
  let drClusterOperatorNamespaceName := drClusterOperatorNamespaceNameOrDefault hubOperatorRamenConfig in
  let ramenConfig := hubOperatorRamenConfig <| oc_LeaderElection ::= λ l,
                       (λ _, drClusterLeaderElectionResourceName) <$> l |> in
  match ConfigMapNew drClusterOperatorNamespaceName DrClusterOperatorConfigMapName ramenConfig with
  | inr e => inr e
  | inl drClusterOperatorConfigMap =>
      let objects := if bool_decide (oc_RamenOpsNamespace ramenConfig ≠ "")
                     then [Namespace (oc_RamenOpsNamespace ramenConfig)] else [] in
      inl (objects ++ [Namespace drClusterOperatorNamespaceName; olmClusterRole;
                       operatorGroup drClusterOperatorNamespaceName; drClusterOperatorConfigMap])
  end.

Fixpoint extract_subscription (ms : list Manifest) : option Subscription + GoError :=
  match ms with
  | [] => inl None
  | MRaw _ :: _ => inr (Errorf "failed to unmarshal JSON" None)
  | MSubscription s :: _ => inl (Some s)
  | _ :: ms' => extract_subscription ms'
  end.

Definition SubscriptionFromDrClusterManifestWork (clusterName : string) : Op (option Subscription + GoError) :=
  r ← GetDrClusterManifestWork clusterName;
  mret (match r with
        | inr e => inr (Errorf ("failed fetching cluster manifest work " +:+ error_text e) (Some e))
        | inl None => inl None
        | inl (Some mw) =>
            match extract_subscription (mws_Manifests (mw_Spec mw)) with
            | inr e => inr (Errorf ("failed fetching subscription from cluster '" +:+ clusterName +:+ "' manifest " +:+
                                    error_text e) (Some e))
            | inl s => inl s
            end
        end).

(** The subscription asked for by the configuration. *)
Definition configured_subscription (c : OperatorConfig) : Subscription :=
  subscription (drClusterOperatorNamespaceNameOrDefault c) (drClusterOperatorChannelNameOrDefault c)
    (drClusterOperatorPackageNameOrDefault c) (drClusterOperatorCatalogSourceNameOrDefault c)
    (drClusterOperatorCatalogSourceNamespaceNameOrDefault c)
    (drClusterOperatorClusterServiceVersionNameOrDefault c).

Definition appendSubscriptionObject (drcluster : string) (c : OperatorConfig) (objects : list Manifest)
    : Op (list Manifest + GoError) :=
  r ← SubscriptionFromDrClusterManifestWork drcluster;
  mret (match r with
        | inr e => inr e
        | inl (Some mwSub) =>
            if bool_decide (sub_Channel mwSub = drClusterOperatorChannelNameOrDefault c) &&
               bool_decide (sub_CatalogSource mwSub = drClusterOperatorCatalogSourceNameOrDefault c) &&
               bool_decide (sub_CatalogSourceNamespace mwSub =
                            drClusterOperatorCatalogSourceNamespaceNameOrDefault c) &&
               bool_decide (sub_Package mwSub = drClusterOperatorPackageNameOrDefault c)
            then inl (objects ++ [MSubscription mwSub])
            else inl (objects ++ [MSubscription (configured_subscription c)])
        | inl None => inl (objects ++ [MSubscription (configured_subscription c)])
        end).

Definition DeployVolSyncToCluster (managedClusterName : string) : Op (option GoError) :=
  t ← tick;
  mret (match env_CreateOrUpdate_addon t managedClusterName with
        | Some e => wrapf ("error creating or updating VolSync ManagedClusterAddOn (" +:+ error_text e +:+ ")") e
        | None => None
        end).

Definition drClusterDeploy (ramenConfig : OperatorConfig) : COp (option GoError) :=
  drcluster ← gets object_name;
  objects ← (if dco_DeploymentAutomationEnabled (oc_DrClusterOperator ramenConfig) then
               match objectsToDeploy ramenConfig with
               | inr e => mret (inr e)
               | inl objects =>
                   r ← on_hub (appendSubscriptionObject drcluster ramenConfig objects);
                   match r with
                   | inr e => mret (inr e)
                   | inl objects =>
                       err ← on_hub (DeployVolSyncToCluster drcluster);
                       mret (match err with
                             | Some e => inr (Errorf ("unable to deploy volsync to drcluster: " +:+ error_text e) (Some e))
                             | None => inl objects
                             end)
                   end
               end
             else mret (inl []) : COp (list Manifest + GoError));
  match objects with
  | inr e => mret (Some e)
  | inl objects => on_hub (CreateOrUpdateDrClusterManifestWork drcluster objects {[DRClusterNameAnnotation := drcluster]})
  end.

(** ** Undeploying *)

Context `{ViewCodec} `{ClusterReads}.

Definition drClusterUndeploy (drcluster : DRCluster) : Op (option GoError) :=
  let name := om_Name (dc_Meta drcluster) in
  t ← tick;
  match env_list_drpolicies t with
  | inr e => mret (wrapf ("drpolicies list: " +:+ error_text e) e)
  | inl drpolicies =>
      if bool_decide (name ∈ drpolicies ≫= DRPolicyClusterNames)
      then mret (errorf ("drcluster '" +:+ name +:+ "' referenced in one or more existing drPolicy resources"))
      else
        err ← deleteViewsForClasses name;
        match err with
        | Some e => mret (Some e)
        | None =>
            err ← DeleteDRClusterConfigManagedClusterView name;
            match err with
            | Some e => mret (Some e)
            | None =>
                err ← DeleteManifestWork (BuildManifestWorkName name "" MWTypeDRCConfig) name;
                match err with
                | Some e => mret (Some e)
                | None =>
                    r ← FindManifestWork (BuildManifestWorkName name "" MWTypeDRCConfig) name;
                    match r with
                    | inl _ => mret (errorf ("waiting for DRClusterConfig resource deletion on cluster (" +:+ name +:+ ")"))
                    | inr _ =>
                        err ← drClusterMModeCleanup drcluster;
                        match err with
                        | Some e => mret (Some e)
                        | None =>
                            err ← DeleteManifestWork DrClusterManifestWorkName name;
                            mret (match err with
                                  | Some e => wrapf ("drcluster '" +:+ name +:+ "' manifest work delete: " +:+
                                                     error_text e) e
                                  | None => None
                                  end)
                        end
                    end
                end
            end
        end
  end.
End deploy.
