(* ===== verification/DRClusterReconcile.v ===== *)
(** * The DRCluster controller's reconcile

    internal/controller/drcluster_controller.go: [Reconcile], the processing of a
    DRCluster and of its deletion, the validation of its object store and CIDRs, and
    the DRClusterConfig it is given.  Metrics are left out. *)

From Stdlib Require Import ZArith.
From S2P Require Import Prelude Meta Names Cidr Conditions Api PeerClasses PolicyPeers Hub ManifestWorks Views ClassViews.
From S2P Require Import DRClusters Fencing DRPCWorks DRPC HubRecovery ProtectedCondition Conflicts StatusRefresh Reconcile.
From S2P Require Import MaintenanceModes DRClusterDeploy.

Definition ReasonValidationFailed : string := "ValidationFailed".
Definition NoS3StoreAvailable : string := "NoS3".

(** ObjectStoreGetter: a connection to a profile's store, and the checks of its bucket. *)
Class StoreChecks := {
  env_ObjectStore : nat → string → option GoError;
  env_HeadBucket : nat → string → option GoError;
  env_ListKeys : nat → string → string → option GoError;
}.

(** ** CIDRs *)

Fixpoint join_comma (l : list string) : string :=
  match l with
  | [] => ""
  | [s] => s
  | s :: l' => s +:+ ", " +:+ join_comma l'
  end.

Definition invalid_cidrs (drcluster : DRCluster) : list string :=
  filter (λ c, valid_CIDR c = false) (dcs_CIDRs (dc_Spec drcluster)).

Definition validateCIDRsFormat (drcluster : DRCluster) : option GoError :=
  match invalid_cidrs drcluster with
  | [] => None
  | l => errorf ("invalid CIDRs format specified " +:+ join_comma l)
  end.

(** [nil] is [None]: the provisioner has not reported yet. *)
Definition detected_cidrs (drcConfig : DRClusterConfig) : option (gset string) :=
  let details := dcct_StorageAccessDetails (dcc_Status drcConfig) in
  if bool_decide (length details = 0) then
    match FindCondition (dcct_Conditions (dcc_Status drcConfig)) DRClusterConfigConfigurationProcessed with
    | Some c => if bool_decide (cond_Status c ≠ ConditionTrue) then None else Some ∅
    | None => None
    end
  else Some (list_to_set (details ≫= sad_CIDRs)).

Section cidrs.
Context `{Env} `{ViewCodec}.

Definition getCIDRSFromDRCC : COp (option (gset string) + GoError) :=
  name ← gets object_name;
  r ← on_hub (getDRCCFromCluster name);
  mret (match r with
        | inr e => if IsNotFound e then inl None else inr e
        | inl drcConfig => inl (detected_cidrs drcConfig)
        end).

Definition checkDetectedCIDRsConfigured (cidrsFromDRCC cidrsFromDRCluster : gset string) : COp (option GoError) :=
  match set_List (cidrsFromDRCC ∖ cidrsFromDRCluster) with
  | [] => mret None
  | unconfiguredCIDRs =>
      let msg := "detected CIDRs not configured: " +:+ join_comma unconfiguredCIDRs in
      setCIDRsValidatedConditionDetectedCIDRsUnconfigured msg;;
      mret (errorf msg)
  end.

Definition checkUndetectedCIDRsFound (cidrsFromDRCC cidrsFromDRCluster : gset string) : COp bool :=
  match set_List (cidrsFromDRCluster ∖ cidrsFromDRCC) with
  | [] => mret false
  | undetectedCIDRs =>
      setCIDRsValidatedConditionUndetectedCIDRsFound
        ("warning: CIDRs not detected by storage provisioner: " +:+ join_comma undetectedCIDRs);;
      mret true
  end.

Definition validateCIDRs : COp (option GoError) :=
  object ← gets cw_object;
  if bool_decide (length (dcs_CIDRs (dc_Spec object)) = 0) then
    modify_dcstatus (λ s, s <| dct_Conditions ::= λ l, RemoveStatusCondition l DRClusterConditionTypeCIDRsValidated |>);;
    mret None
  else
    match validateCIDRsFormat object with
    | Some e => setCIDRsValidatedConditionInvalidFormat (error_text e);; mret (Some e)
    | None =>
        r ← getCIDRSFromDRCC;
        match r with
        | inr e => mret (Some e)
        | inl None => mret None
        | inl (Some cidrsFromDRCC) =>
            let cidrsFromDRCluster := list_to_set (dcs_CIDRs (dc_Spec object)) in
            err ← checkDetectedCIDRsConfigured cidrsFromDRCC cidrsFromDRCluster;
            match err with
            | Some e => mret (Some e)
            | None =>
                undetectedCIDRsFound ← checkUndetectedCIDRsFound cidrsFromDRCC cidrsFromDRCluster;
                (if (undetectedCIDRsFound : bool) then mret ()
                 else setCIDRsValidatedConditionSucceeded "All detected CIDRs are configured");;
                mret None
            end
        end
    end.
End cidrs.

(** ** The object store, the operator's deployment *)

Section checks.
Context `{Env} `{ViewCodec} `{ClusterReads} `{StoreChecks}.

Definition s3ProfileValidate (s3ProfileName listKeyPrefix : string) : Op (string * option GoError) :=
  let failed reason e := (reason, wrapf (s3ProfileName +:+ ": " +:+ error_text e) e) in
  t ← tick;
  match env_ObjectStore t s3ProfileName with
  | Some e => mret (failed "s3ConnectionFailed" e)
  | None =>
      t ← tick;
      match env_HeadBucket t s3ProfileName with
      | Some e => mret (failed "s3BucketNotFound" e)
      | None =>
          t ← tick;
          mret (match env_ListKeys t s3ProfileName listKeyPrefix with
                | Some e => failed "s3ListFailed" e
                | None => ("", None)
                end)
      end
  end.

Definition validateS3Profile (drcluster : DRCluster) (listKeyPrefix : string) : Op (string * option GoError) :=
  if bool_decide (dcs_S3ProfileName (dc_Spec drcluster) ≠ NoS3StoreAvailable)
  then s3ProfileValidate (dcs_S3ProfileName (dc_Spec drcluster)) listKeyPrefix
  else mret ("", None).

Definition getDRClusterDeployedStatus (drcluster : DRCluster) : Op (option GoError) :=
  r ← GetDrClusterManifestWork (om_Name (dc_Meta drcluster));
  mret (match r with
        | inr e => errorf ("error in fetching DRCluster ManifestWork " +:+ error_text e)
        | inl None => errorf "missing DRCluster ManifestWork resource <nil>"
        | inl (Some mw) => if IsManifestInAppliedState mw then None
                           else errorf "DRCluster ManifestWork is not in applied state"
        end).

(** ** The DRClusterConfig *)

(** The intervals of the policies that have the cluster, each once. *)
Definition add_schedule (drcluster : string) (schedules : list string) (drpolicy : DRPolicy) : list string :=
  let interval := dps_SchedulingInterval (drp_Spec drpolicy) in
  if ResourceIsDeleted (drp_Meta drpolicy) then schedules
  else if bool_decide (interval = "") then schedules
  else if negb (DrpolicyContainsDrcluster drpolicy drcluster) then schedules
  else if bool_decide (interval ∈ schedules) then schedules
  else schedules ++ [interval].

Definition ensureNoDuplicateSchedules (drcluster : string) : Op (list string + GoError) :=
  r ← GetAllDRPolicies;
  mret (match r with
        | inr e => inr e
        | inl drpolicies => inl (foldl (add_schedule drcluster) [] drpolicies)
        end).

Definition generateDRClusterConfig : COp (DRClusterConfig + GoError) :=
  name ← gets object_name;
  r ← on_hub (NewManagedClusterInstance name);
  match r with
  | inr e => mret (inr e)
  | inl mc =>
      match ClusterID mc with
      | inr e => mret (inr e)
      | inl clusterID =>
          r ← on_hub (ensureNoDuplicateSchedules name);
          mret (match r with
                | inr e => inr e
                | inl schedules =>
                    inl (mkDRClusterConfig (AddLabel (named_meta name "") CreatedByRamenLabel "true").2
                           (mkDRClusterConfigSpec schedules clusterID) zero_dccstatus)
                end)
      end
  end.

Definition ensureDRClusterConfig : COp (option GoError) :=
  r ← generateDRClusterConfig;
  match r with
  | inr e => mret (Some e)
  | inl drcConfig =>
      name ← gets object_name;
      err ← on_hub (CreateOrUpdateDRCConfigManifestWork name drcConfig);
      match err with
      | Some e => mret (wrapf ("failed to create or update DRClusterConfig manifest on cluster " +:+ name +:+ " (" +:+
                               error_text e +:+ ")") e)
      | None =>
          applied ← on_hub (IsClusterManifestApplied name name MWTypeDRCConfig);
          mret (if (applied : bool) then None
                else errorf ("DRClusterConfig is not applied to cluster (" +:+ name +:+ ")"))
      end
  end.
End checks.

(** ** Reconcile *)

Section reconcile.
Context `{Env} `{ViewCodec} `{ClusterReads} `{HubReads} `{ReconcileEnv} `{ModeReads}.
Context `{FenceApi} `{ConfigEnv} `{StoreChecks}.

Definition COutcome : Type := Result * option GoError.

(** An error return: the Validated condition is false for a reason, and written. *)
Definition not_validated (reason : string) (e : GoError) (what : string) : COp COutcome :=
  e' ← validatedSetFalseAndUpdate reason e;
  mret (no_requeue, wrapf (what +:+ ": " +:+ error_text e') e').

(** What comes after the deployment and fencing: the checks that make it valid. *)
Definition validate_cluster (k : COp COutcome) : COp COutcome :=
  object ← gets cw_object;
  r ← on_hub (validateS3Profile object ("/" +:+ om_Name (dc_Meta object)));
  match r with
  | (reason, Some e) => not_validated reason e "drclusters s3Profile validate"
  | (_, None) =>
      err ← on_hub (getDRClusterDeployedStatus object);
      match err with
      | Some e => not_validated "DrClustersDeployStatusCheckFailed" e "drclusters deploy status"
      | None =>
          err ← ensureDRClusterConfig;
          match err with
          | Some e => not_validated "DRClusterConfigInProgress" e "failed to ensure DRClusterConfig"
          | None =>
              err ← validateCIDRs;
              match err with
              | Some _ => not_validated ReasonValidationFailed (Errorf "CIDRs validation failed" None)
                            "drclusters CIDRs validate"
              | None => k
              end
          end
      end
  end.

Definition processCreateOrUpdate : COp COutcome :=
  r ← on_hub ConfigMapGet;
  match r with
  | inr e => not_validated "ConfigMapGetFailed" e "config map get"
  | inl ramenConfig =>
      err ← addLabelsAndFinalizers;
      match err with
      | Some e => not_validated "FinalizerAddFailed" e "finalizer add update"
      | None =>
          err ← drClusterDeploy ramenConfig;
          match err with
          | Some e => not_validated "DrClustersDeployFailed" e "drclusters deploy"
          | None =>
              r ← clusterFenceHandle;
              let requeue := r.1 in
              validate_cluster (
                setDRClusterValidatedCondition "Validated the cluster";;
                r ← clusterMModeHandler;
                match r with
                | None => mret (no_requeue, Some panic_nil)
                | Some err =>
                    let requeue := match err with Some _ => true | None => requeue end in
                    cluster_statusUpdate;;
                    again ← gets cw_requeue;
                    mret (mkResult (requeue || again) 0, None)
                end)
          end
      end
  end.

Definition processDeletion : COp COutcome :=
  object ← gets cw_object;
  err ← on_hub (drClusterUndeploy object);
  match err with
  | Some e => mret (no_requeue, wrapf ("drclusters undeploy: " +:+ error_text e) e)
  | None =>
      let fence := dcs_ClusterFence (dc_Spec object) in
      stop ← (if bool_decide (fence = ClusterFenceStateFenced) || bool_decide (fence = ClusterFenceStateUnfenced) then
                r ← handleDeletion;
                mret (match r with
                      | (_, Some e) => Some (no_requeue, wrapf ("cleanup update: " +:+ error_text e) e)
                      | (true, None) => Some (mkResult true 0, None)
                      | (false, None) => None
                      end)
              else mret None : COp (option COutcome));
      match stop with
      | Some r => mret r
      | None =>
          err ← finalizerRemove;
          mret (match err with
                | Some e => (no_requeue, wrapf ("finalizer remove update: " +:+ error_text e) e)
                | None => (no_requeue, None)
                end)
      end
  end.

(** The reconcile of the DRCluster that was read, or of the failure to read it. *)
Definition DRCluster_Reconcile (read : DRCluster + GoError) : COp COutcome :=
  match read with
  | inr e => mret (no_requeue, if IsNotFound e then None else wrapf ("get: " +:+ error_text e) e)
  | inl drcluster =>
      modify (λ w, w <| cw_object := drcluster |> <| cw_api_object := drcluster |> <| cw_requeue := false |>);;
      initializeStatus;;
      if ResourceIsDeleted (dc_Meta drcluster) then processDeletion else processCreateOrUpdate
  end.
End reconcile.
