(* ===== verification/PolicySecrets.v ===== *)
(** * The S3 secrets of a policy's clusters

    internal/controller/drpolicy.go: every cluster of a policy is given the secrets of
    the S3 profiles of all the policy's clusters; when a policy is deleted, each of its
    clusters loses those that no other policy needs there. *)

From S2P Require Import Prelude Meta Names Conditions Api Hub HubObjects Secrets.
From S2P Require Import MaintenanceModes DRClusterDeploy.

(** The order of a range over a map: any order of its keys. *)
Class KeyOrder := {
  env_keys : nat → gset string → list string;
  env_keys_perm : ∀ t s, env_keys t s ≡ₚ elements s;
}.

(** ** Profiles and secrets *)

(** The profile of the last DRCluster with the name. *)
Definition cluster_profile (drclusters : list DRCluster) (managedCluster : string) : string :=
  foldl (λ s3ProfileName c, if bool_decide (om_Name (dc_Meta c) = managedCluster)
                            then dcs_S3ProfileName (dc_Spec c) else s3ProfileName) "" drclusters.

Definition DRPolicyS3Profiles (drpolicy : DRPolicy) (drclusters : list DRCluster) : gset string :=
  list_to_set (cluster_profile drclusters <$> DRPolicyClusterNames drpolicy).

(** The secrets that are known, and an error if a cluster's profile is not configured;
    that of the last such cluster. *)
Definition drPolicySecretNames (drpolicy : DRPolicy) (drclusters : list DRCluster) (rmnCfg : OperatorConfig)
    : gset string * option GoError :=
  foldl (λ '(secretNames, err) managedCluster,
    let s3ProfileName := cluster_profile drclusters managedCluster in
    match RamenConfigS3StoreProfilePointerGet rmnCfg s3ProfileName with
    | Some s3Profile => ({[sp_S3SecretRef s3Profile]} ∪ secretNames, err)
    | None => (secretNames, errorf ("missing profile name (" +:+ s3ProfileName +:+ ") in config for DRCluster (" +:+
                                    managedCluster +:+ ")"))
    end) (∅, None) (DRPolicyClusterNames drpolicy).

(** The policies other than the ignored one that have the cluster. *)
Definition drClusterListMustHaveS3Profiles (drpolicies : list DRPolicy) (drclusters : list DRCluster)
    (clusterName : string) (ignorePolicy : option DRPolicy) : gset string :=
  foldl (λ mustHaveS3Profiles p,
    if bool_decide (Some (om_Name (drp_Meta p)) = (λ i, om_Name (drp_Meta i)) <$> ignorePolicy) then mustHaveS3Profiles
    else if DrpolicyContainsDrcluster p clusterName then mustHaveS3Profiles ∪ DRPolicyS3Profiles p drclusters
    else mustHaveS3Profiles) ∅ drpolicies.

Definition drClusterListMustHaveSecrets (drpolicies : list DRPolicy) (drclusters : list DRCluster)
    (clusterName : string) (ignorePolicy : option DRPolicy) (ramenConfig : OperatorConfig) : gset string :=
  let mustHaveS3Profiles := drClusterListMustHaveS3Profiles drpolicies drclusters clusterName ignorePolicy in
  foldl (λ mustHaveS3Secrets p,
    if bool_decide (sp_S3ProfileName p ∈ mustHaveS3Profiles) then {[sp_S3SecretRef p]} ∪ mustHaveS3Secrets
    else mustHaveS3Secrets) ∅ (oc_S3StoreProfiles ramenConfig).

Definition secrets_distributed (c : OperatorConfig) : bool :=
  dco_DeploymentAutomationEnabled (oc_DrClusterOperator c) && dco_S3SecretDistributionEnabled (oc_DrClusterOperator c).

(** Secrets are delivered for Velero too. *)
Definition velero_delivered (c : OperatorConfig) : bool :=
  negb (oc_KubeObjectProtectionDisabled c) && bool_decide (oc_VeleroNamespaceName c ≠ "").

Section deploy.
Context `{Env} `{ServerVersions} `{ConfigEnv} `{KeyOrder}.

(** ** Adding *)

(** One secret to one cluster, in the formats that are delivered. *)
Definition deploy_secret (rmnCfg : OperatorConfig) (clusterName secretName : string) : SOp (option GoError) :=
  let targetNS := drClusterOperatorNamespaceNameOrDefault rmnCfg in
  err? AddSecretToCluster secretName clusterName RamenOperatorNamespace targetNS SecretFormatRamen ""
    then e => mret (wrapf ("cannot add secret '" +:+ secretName +:+ "' to drcluster '" +:+ clusterName +:+ "': " +:+
                           error_text e) e);
  if velero_delivered rmnCfg then
    err? AddSecretToCluster secretName clusterName RamenOperatorNamespace targetNS SecretFormatVelero
           (oc_VeleroNamespaceName rmnCfg)
      then e => mret (wrapf ("cannot add secret '" +:+ secretName +:+ "' to drcluster '" +:+ clusterName +:+
                             "' in format 'velero': " +:+ error_text e) e);
    mret None
  else mret None.

(** A loop that stops at the first error. *)
Fixpoint each {W B} (f : B → M W (option GoError)) (l : list B) : M W (option GoError) :=
  match l with
  | [] => mret None
  | x :: l' => err? f x then e => mret (Some e); each f l'
  end.

Definition drClusterSecretsDeploy (clusterName : string) (drpolicy : DRPolicy) (drclusters : list DRCluster)
    (rmnCfg : OperatorConfig) : SOp (option GoError) :=
  if negb (secrets_distributed rmnCfg) then mret None
  else
    let '(drPolicySecrets, err) := drPolicySecretNames drpolicy drclusters rmnCfg in
    if bool_decide (err ≠ None) && bool_decide (size drPolicySecrets = 0) then mret err
    else each (deploy_secret rmnCfg clusterName) (set_List drPolicySecrets).

Definition propagateS3Secret (drpolicy : DRPolicy) (drclusters : list DRCluster)
    (hubOperatorRamenConfig : OperatorConfig) : SOp (option GoError) :=
  each (λ clusterName, drClusterSecretsDeploy clusterName drpolicy drclusters hubOperatorRamenConfig)
    (DRPolicyClusterNames drpolicy).

(** ** Removing *)

Definition deleteSecretFromCluster (s3SecretToDelete clusterName : string) (ramenConfig : OperatorConfig)
    : SOp (option GoError) :=
  let failed e := mret (wrapf ("unable to delete secret in format 'ramen' for s3Profile '" +:+ s3SecretToDelete +:+
                               "' on drcluster '" +:+ clusterName +:+ "': " +:+ error_text e) e) in
  err? RemoveSecretFromCluster s3SecretToDelete clusterName RamenOperatorNamespace SecretFormatRamen
    then e => failed e;
  if velero_delivered ramenConfig then
    err? RemoveSecretFromCluster s3SecretToDelete clusterName RamenOperatorNamespace SecretFormatVelero
      then e => failed e;
    mret None
  else mret None.

Definition undeploy_cluster (ramenConfig : OperatorConfig) (mustHave mayDelete : gset string) (clusterName : string)
    : SOp (option GoError) :=
  each (λ s, if bool_decide (s ∈ mustHave) then mret None else deleteSecretFromCluster s clusterName ramenConfig)
    (set_List mayDelete).

Definition drClustersUndeploySecrets (drpolicy : DRPolicy) (drclusters : list DRCluster) (drpolicies : list DRPolicy)
    (ramenConfig : OperatorConfig) : SOp (option GoError) :=
  if negb (secrets_distributed ramenConfig) then mret None
  else
    let mustHaveS3Secrets c := drClusterListMustHaveSecrets drpolicies drclusters c (Some drpolicy) ramenConfig in
    let mayDeleteS3Secrets := (drPolicySecretNames drpolicy drclusters ramenConfig).1 in
    t ← at_hub tick;
    each (λ c, undeploy_cluster ramenConfig (mustHaveS3Secrets c) mayDeleteS3Secrets c)
      (env_keys t (list_to_set (DRPolicyClusterNames drpolicy))).

(** [drpolicies] is the result of the list call. *)
Definition drPolicyUndeploy (drpolicies : list DRPolicy + GoError) (drpolicy : DRPolicy) (drclusters : list DRCluster)
    (ramenConfig : OperatorConfig) : SOp (option GoError) :=
  match drpolicies with
  | inr e => mret (wrapf ("drpolicies list: " +:+ error_text e) e)
  | inl l => drClustersUndeploySecrets drpolicy drclusters l ramenConfig
  end.
End deploy.
