(* ===== verification/DRPolicies.v ===== *)
(** * The DRPolicy controller

    internal/controller/drpolicy_controller.go: validation of a policy and its
    conflicts with others, its peer classes and network attachments, the delivery of its
    clusters' secrets, its deletion.  Metrics and watches are left out. *)

From Stdlib Require Import ZArith.
From stdpp Require Import sorting pretty.
From S2P Require Import Prelude Meta Names Conditions Api PeerClasses PolicyPeers NetworkMapping Hub HubObjects Secrets Views ClassViews.
From S2P Require Import DRClusters DRPC HubRecovery Conflicts StatusRefresh Reconcile MaintenanceModes DRClusterDeploy.
From S2P Require Import DRClusterReconcile PolicySecrets.

Definition ReasonDRClusterNotFound : string := "DRClusterNotFound".
Definition ReasonDRClustersUnavailable : string := "DRClustersUnavailable".
Definition ReasonDRPolicyConflictFound : string := "DRPolicyConflictFound".
Definition ReasonNoEligibleNetworkAttachments : string := "NoEligibleNetworkAttachments".
Definition ReasonSucceeded : string := "Succeeded".
Definition ConditionNetworkAttachmentsValidated : string := "NetworkAttachmentsValidated".
Definition drPolicyFinalizerName : string := "drpolicies.ramendr.openshift.io/ramen".
Definition DRClusterPairCount : nat := 2.

(** ** Validation *)

(** [%v] of a list of strings. *)
Fixpoint join_space (l : list string) : string :=
  match l with
  | [] => ""
  | [s] => s
  | s :: l' => s +:+ " " +:+ join_space l'
  end.
Definition fmt_strings (l : list string) : string := "[" +:+ join_space l +:+ "]".

Definition validated_cluster (c : DRCluster) : bool :=
  match FindCondition (dct_Conditions (dc_Status c)) DRClusterValidated with
  | Some cond => bool_decide (cond_Status cond = ConditionTrue)
  | None => false
  end.

(** The pairs of a name of the policy and a DRCluster with the name. *)
Definition clusters_found (drpolicy : DRPolicy) (drclusters : list DRCluster) : list DRCluster :=
  dps_DRClusters (drp_Spec drpolicy) ≫= λ specCluster,
    filter (λ c, om_Name (dc_Meta c) = specCluster) drclusters.

Definition ensureDRClustersAvailable (drpolicy : DRPolicy) (drclusters : list DRCluster) : option (string * GoError) :=
  let found := clusters_found drpolicy drclusters in
  if bool_decide (length found ≠ length (dps_DRClusters (drp_Spec drpolicy)))
  then Some (ReasonDRClusterNotFound, Errorf ("failed to find DRClusters specified in policy (" +:+
                                        fmt_strings (dps_DRClusters (drp_Spec drpolicy)) +:+ ")") None)
  else if bool_decide (length (filter (λ c, validated_cluster c = true) found) = 0)
  then Some (ReasonDRClustersUnavailable, Errorf ("none of the DRClusters are validated (" +:+
                                            fmt_strings (dps_DRClusters (drp_Spec drpolicy)) +:+ ")") None)
  else None.

Definition validateDRPolicy (drpolicy : DRPolicy) (drclusters : list DRCluster) : option (string * GoError) :=
  if bool_decide (length (dps_DRClusters (drp_Spec drpolicy)) = 0)
  then Some (ReasonValidationFailed, Errorf "missing DRClusters list in policy" None)
  else ensureDRClustersAvailable drpolicy drclusters.

(** ** Conflicts *)

Definition has_any (v : list string) (common : gset string) : bool :=
  existsb (λ c, bool_decide (c ∈ common)) v.

Definition haveOverlappingMetroZones (d1 d2 : DRPolicy) (drClusterIDsToNames : gmap string string) : bool :=
  let metro d := (dRPolicySupportsMetro d (Some drClusterIDsToNames)).1 in
  let commonClusters : gset string :=
    list_to_set (DRPolicyClusterNames d1) ∩ list_to_set (DRPolicyClusterNames d2) in
  if bool_decide (size commonClusters = 0) then false
  else if (metro d2).1 && existsb (λ v, has_any v commonClusters) (metro d2).2 then true
  else (metro d1).1 && existsb (λ v, has_any v commonClusters) (metro d1).2.

Fixpoint HasConflictingDRPolicy (match_ : DRPolicy) (l : list DRPolicy) (drClusterIDsToNames : gmap string string)
    : option GoError :=
  match l with
  | [] => None
  | drp :: l' =>
      if bool_decide (om_Name (drp_Meta drp) = om_Name (drp_Meta match_)) then
        HasConflictingDRPolicy match_ l' drClusterIDsToNames
      else if bool_decide (om_CreationTimestamp (drp_Meta match_) < om_CreationTimestamp (drp_Meta drp))%Z then
        HasConflictingDRPolicy match_ l' drClusterIDsToNames
      else if haveOverlappingMetroZones match_ drp drClusterIDsToNames then
        errorf ("drpolicy: " +:+ om_Name (drp_Meta match_) +:+ " has overlapping clusters with another drpolicy " +:+
                om_Name (drp_Meta drp))
      else HasConflictingDRPolicy match_ l' drClusterIDsToNames
  end.

Section conflicts.
Context `{Env} `{ClusterReads}.

Definition validatePolicyConflicts (drpolicy : DRPolicy) (drClusterIDsToNames : gmap string string)
    : Op (option GoError) :=
  if bool_decide (0 < length (dpt_Sync (drp_Status drpolicy))) &&
     bool_decide (0 < length (dpt_Async (drp_Status drpolicy)))
  then mret (errorf "invalid DRPolicy: a policy cannot contain both sync and async configurations")
  else
    get? drpolicies := GetAllDRPolicies
      then e => mret (wrapf ("validate managed cluster in drpolicy " +:+ om_Name (drp_Meta drpolicy) +:+ " failed: " +:+
                             error_text e) e);
    mret (match HasConflictingDRPolicy drpolicy drpolicies drClusterIDsToNames with
          | Some e => wrapf ("validate managed cluster in drpolicy failed: " +:+ error_text e) e
          | None => None
          end).

(** The DRClusters, and the names of those whose ID can be read.  A cluster that has not
    joined is left out, one without an ID is an error. *)
Fixpoint cluster_ids (drClusters : list DRCluster) (ids : gmap string string) : Op (gmap string string + GoError) :=
  match drClusters with
  | [] => mret (inl ids)
  | c :: drClusters' =>
      let name := om_Name (dc_Meta c) in
      r ← NewManagedClusterInstance name;
      match r with
      | inr _ => cluster_ids drClusters' ids
      | inl mc =>
          match ClusterID mc with
          | inr e => mret (inr (Errorf ("drclusters cluster ID (" +:+ name +:+ "): " +:+ error_text e) (Some e)))
          | inl clID => cluster_ids drClusters' (<[clID := name]> ids)
          end
      end
  end.

Definition getDRClusterDetails : Op (list DRCluster * gmap string string + GoError) :=
  t ← tick;
  match env_list_drclusters t with
  | inr e => mret (inr (Errorf ("drclusters list: " +:+ error_text e) (Some e)))
  | inl drClusters =>
      get? ids := cluster_ids drClusters ∅ then e => mret (inr e);
      mret (if bool_decide (size ids = 0) then inr (Errorf "no DRClusters found" None) else inl (drClusters, ids))
  end.
End conflicts.

(** ** The state *)

Record PolicyWorld := mkPolicyWorld {
  pw_store : ObjectStore;
  pw_object : DRPolicy;
  pw_api_object : DRPolicy;
}.
#[export] Instance eta_PolicyWorld : Eta PolicyWorld := λ w,
  mkPolicyWorld (pw_store w) (pw_object w) (pw_api_object w).

Abbreviation POp := (M PolicyWorld).

Definition at_store {A} (m : SOp A) : POp A := λ w,
  let r := m (pw_store w) in (r.1, w <| pw_store := r.2 |>).
Definition from_hub {A} (m : Op A) : POp A := at_store (at_hub m).

Definition modify_dpstatus (f : DRPolicyStatus → DRPolicyStatus) : POp unit :=
  modify (λ w, w <| pw_object ::= λ o, o <| drp_Status ::= f |> |>).

(** ** Status and metadata (drpolicyUpdater) *)

Section updater.
Context `{Env}.

Definition policy_statusUpdate : POp (option GoError) :=
  err? from_hub api_err then e => mret (Some e);
  modify (λ w,
    let api := pw_api_object w <| drp_Status := drp_Status (pw_object w) |> in
    w <| pw_api_object := api |> <| pw_object := api |>);;
  mret None.

Definition Update_drpolicy : POp (option GoError) :=
  err? from_hub api_err then e => mret (Some e);
  modify (λ w,
    let api := pw_api_object w <| drp_Meta := drp_Meta (pw_object w) |> <| drp_Spec := drp_Spec (pw_object w) |> in
    w <| pw_api_object := api |> <| pw_object := api |>);;
  mret None.

(** A condition of the object in memory; the result is whether it changed. *)
Definition set_pcondition (conditionType : string) (status : ConditionStatus) (reason message : string) : POp bool :=
  now ← from_hub time_Now;
  o ← gets pw_object;
  let r := GenericStatusConditionSet (om_Generation (drp_Meta o)) now (dpt_Conditions (drp_Status o))
             conditionType status reason message in
  modify_dpstatus (λ s, s <| dpt_Conditions := r.2 |>);;
  mret r.1.

Definition policy_statusConditionSet (conditionType : string) (status : ConditionStatus) (reason message : string)
    : POp (option GoError) :=
  updated ← set_pcondition conditionType status reason message;
  if (updated : bool) then policy_statusUpdate else mret None.

Definition validatedSetTrue : POp (option GoError) :=
  policy_statusConditionSet DRPolicyValidated ConditionTrue ReasonSucceeded "drpolicy validated".

Definition validatedSetFalse (reason : string) (e : GoError) : POp GoError :=
  err1 ← policy_statusConditionSet DRPolicyValidated ConditionFalse reason (error_text e);
  mret (default e err1).

Definition is_validated_reason (f : Condition → bool) (o : DRPolicy) : bool :=
  existsb (λ c, bool_decide (cond_Type c = DRPolicyValidated) && f c) (dpt_Conditions (drp_Status o)).

Definition isConflictFound : DRPolicy → bool :=
  is_validated_reason (λ c, bool_decide (cond_Reason c = ReasonDRPolicyConflictFound)).
Definition isNADsMissing : DRPolicy → bool :=
  is_validated_reason (λ c, bool_decide (cond_Status c = ConditionFalse) && bool_decide (cond_Reason c = "NADsMissing")).

Definition policy_update_resource (u : ResourceUpdater) : POp (option GoError) :=
  modify (λ w, w <| pw_object ::= λ o, o <| drp_Meta := ru_obj u |> |>);;
  if ru_objModified u then Update_drpolicy else mret None.

Definition policy_addLabelsAndFinalizers : POp (option GoError) :=
  m ← gets (λ w, drp_Meta (pw_object w));
  policy_update_resource (ru_AddFinalizer (ru_AddLabel (NewResourceUpdater m) OCMBackupLabelKey OCMBackupLabelValue)
                            drPolicyFinalizerName).

Definition policy_finalizerRemove : POp (option GoError) :=
  m ← gets (λ w, drp_Meta (pw_object w));
  policy_update_resource (ru_RemoveFinalizer (NewResourceUpdater m) drPolicyFinalizerName).

(** ** Network attachments: status *)

(** The first condition of a type is cut out. *)
Fixpoint cut_condition (conditionType : string) (conds : list Condition) : list Condition :=
  match conds with
  | [] => []
  | c :: l => if bool_decide (cond_Type c = conditionType) then l else c :: cut_condition conditionType l
  end.

Definition clearNADStatus : POp (option GoError) :=
  o ← gets pw_object;
  let hasCondition := bool_decide (FindCondition (dpt_Conditions (drp_Status o))
                                     ConditionNetworkAttachmentsValidated ≠ None) in
  let hasPeers := bool_decide (0 < length (dpt_NetworkPeers (drp_Status o))) in
  if negb hasCondition && negb hasPeers then mret None
  else
    modify_dpstatus (λ s, s <| dpt_Conditions ::= cut_condition ConditionNetworkAttachmentsValidated |>
                            <| dpt_NetworkPeers := [] |>);;
    err? policy_statusUpdate
      then e => mret (wrapf ("clearing stale NAD status for " +:+ om_Name (drp_Meta o) +:+ ": " +:+ error_text e) e);
    mret None.

Definition setValidationSucceeded : POp (option GoError) :=
  o ← gets pw_object;
  if negb (isNetworkMappingEnabled o) then
    if bool_decide (FindCondition (dpt_Conditions (drp_Status o)) ConditionNetworkAttachmentsValidated ≠ None)
    then clearNADStatus
    else if negb (isConflictFound o) then validatedSetTrue else mret None
  else if isConflictFound o || isNADsMissing o then mret None
  else validatedSetTrue.
End updater.

(** ** Network attachments: the validator *)

Record NADMissingEntry := mkNADMissingEntry {
  nm_NADName : string;
  nm_NADNamespace : string;
  nm_MissingOnA : bool;
  nm_ClusterA : string;
  nm_MissingOnB : bool;
  nm_ClusterB : string;
}.

(** An inventory, keyed by namespace/name; of two entries with a key the last is kept. *)
Definition nad_inventory (nads : list NetworkAttachment) : gmap string NetworkAttachment :=
  foldl (λ m na, <[na_Namespace na +:+ "/" +:+ na_Name na := na]> m) ∅ nads.

(** [sort.Slice] by namespace, then name: no two entries compare equal. *)
Definition by_name {A} (namespace name : A → string) (x y : A) : Prop :=
  if bool_decide (namespace x ≠ namespace y) then String.leb (namespace x) (namespace y) = true
  else String.leb (name x) (name y) = true.
#[export] Instance by_name_dec {A} (namespace name : A → string) : RelDecision (by_name namespace name).
Proof. intros x y. unfold by_name. case_bool_decide; apply _. Defined.

Definition missing_nads (clusterA clusterB : string) (infoA infoB : gmap string NetworkAttachment)
    : list NADMissingEntry :=
  let onlyA := (map_to_list (infoA ∖ infoB)).*2 in
  let onlyB := (map_to_list (infoB ∖ infoA)).*2 in
  merge_sort (by_name nm_NADNamespace nm_NADName)
    (((λ na, mkNADMissingEntry (na_Name na) (na_Namespace na) false "" true clusterB) <$> onlyA) ++
     ((λ na, mkNADMissingEntry (na_Name na) (na_Namespace na) true clusterA false "") <$> onlyB)).

(** The attachments of both clusters.  When the clusters have one name its type is the
    second's. *)
Definition network_peers (clusterA clusterB : string) (nadsA nadsB : gmap string NetworkAttachment)
    : list NetworkPeer :=
  merge_sort (by_name np_NADNamespace np_NADName)
    (omap (λ kv : string * NetworkAttachment,
       naB ← nadsB !! kv.1;
       Some (mkNetworkPeer (na_Name kv.2) (na_Namespace kv.2)
               (<[clusterB := na_CNIType naB]> {[clusterA := na_CNIType kv.2]})))
       (map_to_list nadsA)).

(** The namespace is written only when it is empty. *)
Definition missing_nad_message (m : NADMissingEntry) : string :=
  (if bool_decide (String.length (nm_NADNamespace m) = 0) then nm_NADNamespace m +:+ "/" +:+ nm_NADName m
   else nm_NADName m) +:+
  (if nm_MissingOnA m then " missing on " +:+ nm_ClusterA m else "") +:+
  (if nm_MissingOnB m then (if nm_MissingOnA m then " and" else "") +:+ " missing on " +:+ nm_ClusterB m else "").

Fixpoint join_semicolon (l : list string) : string :=
  match l with
  | [] => ""
  | [s] => s
  | s :: l' => s +:+ "; " +:+ join_semicolon l'
  end.

Definition buildMissingNADsMessage (missing : list NADMissingEntry) : string :=
  "NADs missing on one or more clusters: " +:+ join_semicolon (missing_nad_message <$> missing).

Section nads.
Context `{Env} `{ViewCodec}.

Definition clusterNADInfo (clusterName : string) : Op (gmap string NetworkAttachment + GoError) :=
  get? drcc := GetDRClusterConfigFromManagedCluster clusterName {[AllDRPolicyAnnotation := clusterName]}
    then e => mret (inr (Errorf ("ManagedClusterView for DRClusterConfig " +:+ clusterName +:+ ": " +:+ error_text e)
                           (Some e)));
  mret (inl (nad_inventory (dcct_NetworkAttachments (dcc_Status drcc)))).

Definition validateNADsAcrossClusters : POp (list NADMissingEntry + GoError) :=
  o ← gets pw_object;
  match dps_DRClusters (drp_Spec o) with
  | clusterA :: clusterB :: _ =>
      let failed c e := mret (inr (Errorf ("reading DRClusterConfig for " +:+ c +:+ ": " +:+ error_text e) (Some e))) in
      get? infoA := from_hub (clusterNADInfo clusterA) then e => failed clusterA e;
      get? infoB := from_hub (clusterNADInfo clusterB) then e => failed clusterB e;
      modify_dpstatus (λ s, s <| dpt_NetworkPeers := network_peers clusterA clusterB infoA infoB |>);;
      mret (inl (missing_nads clusterA clusterB infoA infoB))
  | l => mret (inr (Errorf ("drpolicy " +:+ om_Name (drp_Meta o) +:+ " has " +:+ pretty (length l) +:+
                             " clusters, expected at least " +:+ pretty DRClusterPairCount) None))
  end.

Definition UpdateNADValidationCondition : POp (bool * option GoError) :=
  o ← gets pw_object;
  if negb (isNetworkMappingEnabled o) then err ← clearNADStatus; mret (false, err)
  else
    get? missing := validateNADsAcrossClusters then e => mret (false, Some e);
    peers ← gets (λ w, dpt_NetworkPeers (drp_Status (pw_object w)));
    (if bool_decide (length missing = 0) && bool_decide (length peers = 0) then
       set_pcondition ConditionNetworkAttachmentsValidated ConditionTrue ReasonNoEligibleNetworkAttachments
         ("No NADs eligible for static-IP translation were discovered on either cluster; " +:+
          "symmetry is trivially satisfied but no IP translation will occur.")
     else if bool_decide (length missing = 0) then
       set_pcondition ConditionNetworkAttachmentsValidated ConditionTrue "Validated"
         "NADs are symmetric across both clusters"
     else
       set_pcondition ConditionNetworkAttachmentsValidated ConditionFalse "NADsMissing"
         (buildMissingNADsMessage missing);;
       set_pcondition DRPolicyValidated ConditionFalse "NADsMissing"
         "one or more NADs are absent on a peer cluster; see NetworkAttachmentsValidated condition");;
    err? policy_statusUpdate
      then e => mret (false, wrapf ("status update for NAD validation: " +:+ error_text e) e);
    mret (bool_decide (length missing = 0), None).

(** [None]: go on. *)
Definition validateNADs : POp (option COutcome) :=
  o ← gets pw_object;
  if negb (isNetworkMappingEnabled o) then mret None
  else
    r ← UpdateNADValidationCondition;
    match r with
    | (_, Some e) => mret (Some (mkResult true 0, Some e))
    | (true, None) => mret None
    | (false, None) =>
        e ← validatedSetFalse "NADsMissing"
              (Errorf "one or more NADs are absent on a peer cluster; see NetworkAttachmentsValidated condition" None);
        mret (Some (no_requeue, Some e))
    end.
End nads.

(** ** Reconcile *)

Section reconcile.
Context `{Env} `{ViewCodec} `{ClusterReads} `{ReconcileEnv} `{ServerVersions} `{ConfigEnv} `{KeyOrder}.

Definition updatePeerClasses : POp (option GoError) :=
  o ← gets pw_object;
  if bool_decide (length (dps_DRClusters (drp_Spec o)) <= 1)
  then mret (errorf ("cannot form peerClasses, insufficient clusters (" +:+ pretty (length (dps_DRClusters (drp_Spec o))) +:+
                     ") in policy"))
  else
    get? cls := from_hub (policy_classes (dps_DRClusters (drp_Spec o))) then e => mret (Some e);
    match findAllPeers cls (dps_SchedulingInterval (drp_Spec o)) with
    | None => mret (errorf "panic: index out of range")
    | Some (syncPeers, asyncPeers) =>
        modify (λ w, w <| pw_object ::= λ o, updatePeerClassStatus o syncPeers asyncPeers |>);;
        policy_statusUpdate
    end.

(** An error of a step of the reconcile. *)
Definition step_failed (what : string) (e : GoError) : COutcome := (no_requeue, wrapf (what +:+ ": " +:+ error_text e) e).

(** Metrics follow; only the interval's conversion can fail there. *)
Definition initiateDRPolicyMetrics (drpolicy : DRPolicy) : option GoError :=
  match dRPolicySupportsMetro drpolicy None with
  | (_, _, Some e) => wrapf ("failed to check if DRPolicy supports Metro: " +:+ error_text e) e
  | (true, _, None) => None
  | (false, _, None) =>
      match GetSecondsFromSchedulingInterval drpolicy with
      | inr e => wrapf ("error in setting drpolicy metrics: unable to convert scheduling interval to seconds: " +:+
                        error_text e) e
      | inl _ => None
      end
  end.

Definition policy_reconcile (drclusters : list DRCluster) (ramenConfig : OperatorConfig)
    (drClusterIDsToNames : gmap string string) : POp COutcome :=
  err? setValidationSucceeded then e => mret (step_failed "unable to set drpolicy validation" e);
  err? updatePeerClasses then e => mret (step_failed "drpolicy peerClass update" e);
  o ← gets pw_object;
  err? at_store (propagateS3Secret o drclusters ramenConfig) then e => mret (step_failed "drpolicy deploy" e);
  err? from_hub (validatePolicyConflicts o drClusterIDsToNames)
    then e => (e' ← validatedSetFalse ReasonDRPolicyConflictFound e; mret (no_requeue, Some e'));
  stop ← validateNADs;
  match stop with
  | Some r => mret r
  | None =>
      err? validatedSetTrue then e => mret (step_failed "unable to set drpolicy validation" e);
      o ← gets pw_object;
      mret (match initiateDRPolicyMetrics o with
            | Some e => step_failed "error in intiating policy metrics" e
            | None => (no_requeue, None)
            end)
  end.

Definition deleteDRPolicy (drclusters : list DRCluster) (ramenConfig : OperatorConfig) : POp (option GoError) :=
  o ← gets pw_object;
  t ← from_hub tick;
  match env_list_all_drpcs t with
  | inr e => mret (wrapf ("drpcs list: " +:+ error_text e) e)
  | inl drpcs =>
      match find_first (λ d, bool_decide (om_Name (drp_Meta o) = dsp_DRPolicyRef (drpc_Spec d))) drpcs with
      | Some drpc1 => mret (errorf ("this drpolicy is referenced in existing drpc resource name '" +:+
                                    om_Name (drpc_Meta drpc1) +:+ "' "))
      | None =>
          t ← from_hub tick;
          err? at_store (drPolicyUndeploy (env_list_drpolicies t) o drclusters ramenConfig)
            then e => mret (wrapf ("drpolicy undeploy: " +:+ error_text e) e);
          err? policy_finalizerRemove then e => mret (wrapf ("finalizer remove update: " +:+ error_text e) e);
          o ← gets pw_object;
          mret (match (dRPolicySupportsMetro o None).2 with
                | Some e => wrapf ("failed to check if DRPolicy supports Metro: " +:+ error_text e) e
                | None => None
                end)
      end
  end.

Definition CreateRamenOpsNamespace (ramenconfig : OperatorConfig) : SOp (option GoError) :=
  if bool_decide (oc_RamenOpsNamespace ramenconfig = "") then mret None
  else CreateNamespaceIfNotExists (oc_RamenOpsNamespace ramenconfig).

(** An error return after the Validated condition was set. *)
Definition invalid (reason what : string) (e : GoError) : POp COutcome :=
  e' ← validatedSetFalse reason e;
  mret (step_failed what e').

(** The reconcile of the DRPolicy that was read, or of the failure to read it. *)
Definition DRPolicy_Reconcile (read : DRPolicy + GoError) : POp COutcome :=
  match read with
  | inr e => mret (no_requeue, if IsNotFound e then None else wrapf ("get: " +:+ error_text e) e)
  | inl drpolicy =>
      modify (λ w, w <| pw_object := drpolicy |> <| pw_api_object := drpolicy |>);;
      get? ramenConfig := from_hub ConfigMapGet then e => invalid "ConfigMapGetFailed" "config map get" e;
      err? at_store (CreateRamenOpsNamespace ramenConfig)
        then e => invalid "NamespaceCreateFailed" "failed to create RamenOpsNamespace" e;
      get? details := from_hub getDRClusterDetails then e => invalid "drClusterDetailsFailed" "drclusters details" e;
      let '(drclusters, drClusterIDsToNames) := details in
      if ResourceIsDeleted (drp_Meta drpolicy) && bool_decide (drPolicyFinalizerName ∈ om_Finalizers (drp_Meta drpolicy))
      then err ← deleteDRPolicy drclusters ramenConfig; mret (no_requeue, err)
      else
        match validateDRPolicy drpolicy drclusters with
        | Some (reason, e) =>
            err1 ← policy_statusConditionSet DRPolicyValidated ConditionFalse reason (error_text e);
            mret (match err1 with
                  | Some e1 => step_failed "validate" e1
                  | None => if bool_decide (reason ≠ ReasonDRClusterNotFound) then step_failed "validate" e
                            else (no_requeue, None)
                  end)
        | None =>
            err? policy_addLabelsAndFinalizers then e => invalid "FinalizerAddFailed" "finalizer add update" e;
            policy_reconcile drclusters ramenConfig drClusterIDsToNames
        end
  end.
End reconcile.
