(* ===== verification/DRPoliciesSpec.v ===== *)
(** Theorems about the policy controller and the secrets of a policy. *)

From Stdlib Require Import ZArith.
From S2P Require Import Prelude Meta Names Conditions Api PeerClasses PolicyPeers NetworkMapping Hub HubObjects.
From S2P Require Import Secrets SecretsSpec Views ClassViews DRClusters Scenario DRPC HubRecovery Conflicts.
From S2P Require Import StatusRefresh Reconcile MaintenanceModes DRClusterDeploy DRClusterReconcile.
From S2P Require Import PolicySecrets DRPolicies.

(** * A policy's secrets reach its clusters and stay there

    About drpolicy.go: what its deployment delivers, what its removal leaves to the
    clusters of other policies, and what an interrupted removal breaks. *)

(** ** Which secrets *)

Lemma foldl_union {A} (f : A → gset string) (P : A → bool) l (acc : gset string) x :
  x ∈ foldl (λ s a, if P a then s ∪ f a else s) acc l ↔ x ∈ acc ∨ ∃ a, a ∈ l ∧ P a = true ∧ x ∈ f a.
Proof.
  revert acc. induction l as [|a l IH]; intros acc; simpl; [set_solver|]. rewrite IH.
  destruct (P a) eqn:E.
  - rewrite elem_of_union. split.
    + intros [[H|H]|(b & Hb & HP & Hx)]; [by left|right; exists a|right; exists b]; eauto using list_elem_of_here,
        list_elem_of_further.
    + intros [H|(b & [->|Hb]%elem_of_cons & HP & Hx)]; [by left; left|by left; right|right]. eauto.
  - split; intros [H|(b & Hb & HP & Hx)]; [by left|right|by left|right].
    + eauto using list_elem_of_further.
    + apply elem_of_cons in Hb as [->|Hb]; [congruence|eauto].
Qed.

Lemma mustHaveS3Profiles_spec drpolicies drclusters c ignore_ pr :
  pr ∈ drClusterListMustHaveS3Profiles drpolicies drclusters c ignore_ ↔
  ∃ q, q ∈ drpolicies ∧ Some (om_Name (drp_Meta q)) ≠ (λ i, om_Name (drp_Meta i)) <$> ignore_ ∧
       c ∈ DRPolicyClusterNames q ∧ pr ∈ DRPolicyS3Profiles q drclusters.
Proof.
  unfold drClusterListMustHaveS3Profiles.
  set (P q := negb (bool_decide (Some (om_Name (drp_Meta q)) = (λ i, om_Name (drp_Meta i)) <$> ignore_)) &&
              DrpolicyContainsDrcluster q c).
  transitivity (pr ∈ foldl (λ s q, if P q then s ∪ DRPolicyS3Profiles q drclusters else s) ∅ drpolicies).
  { revert drpolicies. generalize (∅ : gset string). unfold P.
    intros acc l. revert acc. induction l as [|q l IH]; intros acc; simpl; [done|].
    rewrite IH. case_bool_decide; simpl; done. }
  rewrite foldl_union. unfold P, DrpolicyContainsDrcluster. split.
  - intros [Hx|(q & Hq & HP & Hx)]; [set_solver|]. bools. exists q. eauto.
  - intros (q & Hq & Hn & Hc & Hx). right. exists q. split; [done|]. split; [|done].
    by rewrite bool_decide_false, bool_decide_true.
Qed.

Lemma mustHaveSecrets_intro drpolicies drclusters c ignore_ cfg pr :
  pr ∈ oc_S3StoreProfiles cfg →
  sp_S3ProfileName pr ∈ drClusterListMustHaveS3Profiles drpolicies drclusters c ignore_ →
  sp_S3SecretRef pr ∈ drClusterListMustHaveSecrets drpolicies drclusters c ignore_ cfg.
Proof.
  intros Hin Hm. unfold drClusterListMustHaveSecrets. generalize (∅ : gset string).
  induction (oc_S3StoreProfiles cfg) as [|a l IH]; intros acc; [by apply elem_of_nil in Hin|]. simpl.
  apply elem_of_cons in Hin as [<-|Hin]; [|by apply IH]. rewrite bool_decide_true by done. clear IH.
  assert (Hacc : sp_S3SecretRef pr ∈ {[sp_S3SecretRef pr]} ∪ acc) by set_solver.
  revert Hacc. generalize ({[sp_S3SecretRef pr]} ∪ acc). induction l as [|b l IH]; intros s Hs; simpl; [done|].
  apply IH. case_bool_decide; set_solver.
Qed.

(** A known secret is that of a configured profile of one of the policy's clusters. *)
Lemma drPolicySecretNames_elem q drclusters cfg s :
  s ∈ (drPolicySecretNames q drclusters cfg).1 →
  ∃ pr, pr ∈ oc_S3StoreProfiles cfg ∧ sp_S3SecretRef pr = s ∧ sp_S3ProfileName pr ∈ DRPolicyS3Profiles q drclusters.
Proof.
  unfold drPolicySecretNames, DRPolicyS3Profiles.
  set (step := λ '(secretNames, err) managedCluster, _).
  assert (H : ∀ l acc, s ∈ (foldl step acc l).1 → s ∈ acc.1 ∨ ∃ pr, pr ∈ oc_S3StoreProfiles cfg ∧
      sp_S3SecretRef pr = s ∧ sp_S3ProfileName pr ∈ (list_to_set (cluster_profile drclusters <$> l) : gset string)).
  { induction l as [|c l IH]; intros [names err] Hs; simpl in *; [by left|].
    apply IH in Hs as [Hs|(pr & ? & ? & ?)]; [|right; exists pr; set_solver].
    unfold RamenConfigS3StoreProfilePointerGet in Hs. destruct (find_first _ _) as [pr|] eqn:E; [|by left].
    apply find_first_Some in E as [Hin Hn]. bools. simpl in Hs. apply elem_of_union in Hs as [Hs|Hs]; [|by left].
    apply elem_of_singleton in Hs as ->. right. exists pr. set_solver. }
  intros Hs. apply H in Hs as [Hs|Hs]; [set_solver|done].
Qed.

Lemma needed_must_have drpolicies drclusters cfg p q c s :
  q ∈ drpolicies → om_Name (drp_Meta q) ≠ om_Name (drp_Meta p) → c ∈ DRPolicyClusterNames q →
  s ∈ (drPolicySecretNames q drclusters cfg).1 →
  s ∈ drClusterListMustHaveSecrets drpolicies drclusters c (Some p) cfg.
Proof.
  intros Hq Hn Hc (pr & Hin & <- & Hp)%drPolicySecretNames_elem. apply mustHaveSecrets_intro; [done|].
  apply mustHaveS3Profiles_spec. exists q. repeat split; try done. cbn. congruence.
Qed.

Lemma each_run {W B} (f : B → M W (option GoError)) x l w :
  each f (x :: l) w = match (f x w).1 with Some e => (Some e, (f x w).2) | None => each f l (f x w).2 end.
Proof. simpl. rewrite or_return_run. by destruct (f x w).1. Qed.

(** An invariant of the rounds of a loop that stops at the first error. *)
Lemma each_invariant {W B} (f : B → M W (option GoError)) l (I : W → Prop) w :
  (∀ x w, x ∈ l → I w → I (f x w).2) → I w → I (each f l w).2.
Proof.
  revert w. induction l as [|x l IH]; intros w Hf Hw; [done|]. rewrite each_run.
  assert (Hx : I (f x w).2) by (apply Hf; [set_solver|done]).
  destruct (f x w).1; [done|]. apply IH; [set_solver|done].
Qed.

Lemma each_success {W B} (f : B → M W (option GoError)) l (I : W → Prop) (R : relation W) `{!PreOrder R}
    (Q : B → W → Prop) w :
  (∀ y w w', R w w' → Q y w → Q y w') →
  (∀ x w, x ∈ l → I w → (f x w).1 = None → I (f x w).2 ∧ R w (f x w).2 ∧ Q x (f x w).2) →
  I w → (each f l w).1 = None → I (each f l w).2 ∧ R w (each f l w).2 ∧ ∀ x, x ∈ l → Q x (each f l w).2.
Proof.
  intros HQ. revert w. induction l as [|x l IH]; intros w Hf Hw Hn.
  { split; [done|]. split; [simpl; reflexivity|]. by intros x ?%elem_of_nil. }
  rewrite each_run in *. destruct (f x w).1 eqn:Ex; [done|].
  destruct (Hf x w) as (H1 & H2 & H3); [by apply list_elem_of_here|done..|].
  destruct (IH (f x w).2) as (J1 & J2 & J3); [|done..|].
  { intros y w1 Hy. apply Hf. by apply list_elem_of_further. }
  split; [done|]. split; [by trans (f x w).2|]. intros y [->|Hy]%elem_of_cons; [by eapply HQ|by apply J3].
Qed.

Section removal.
Context `{Env} `{ServerVersions} `{ConfigEnv} `{KeyOrder}.

(** One secret is taken from a cluster: other secrets stay, and this one elsewhere. *)
Lemma deleteSecretFromCluster_keeps cfg s' c' s f c w :
  truthful → (s' = s → c' ≠ c) → (∀ f', policy_name s' f' = policy_name s f → s' = s) →
  live RamenOperatorNamespace s w ∧ delivered RamenOperatorNamespace (policy_name s f) c w →
  live RamenOperatorNamespace s (deleteSecretFromCluster s' c' cfg w).2 ∧
  delivered RamenOperatorNamespace (policy_name s f) c (deleteSecretFromCluster s' c' cfg w).2.
Proof.
  intros HT Hc Hcol Hw.
  assert (Hr : ∀ f' w, live RamenOperatorNamespace s w ∧ delivered RamenOperatorNamespace (policy_name s f) c w →
    live RamenOperatorNamespace s (RemoveSecretFromCluster s' c' RamenOperatorNamespace f' w).2 ∧
    delivered RamenOperatorNamespace (policy_name s f) c (RemoveSecretFromCluster s' c' RamenOperatorNamespace f' w).2).
  { clear w Hw. intros f' w [Hl Hd]. split; [by apply RemoveSecret_live|].
    destruct (decide (policy_name s' f' = policy_name s f)) as [E|Hne];
      [|eapply kept_delivered; [by apply RemoveSecret_other|done]].
    pose proof (Hcol f' E) as ->. rewrite <- E in *. apply RemoveSecret_same; [done..| |done]. by intros <-; apply Hc. }
  unfold deleteSecretFromCluster. rewrite or_return_run. apply (Hr SecretFormatRamen) in Hw.
  destruct (RemoveSecretFromCluster _ _ _ SecretFormatRamen w).1; [done|].
  destruct (velero_delivered cfg); [|done]. rewrite or_return_run. apply (Hr SecretFormatVelero) in Hw.
  by destruct (RemoveSecretFromCluster _ _ _ SecretFormatVelero _).1.
Qed.

(** C25: deleting a policy takes no secret from a cluster that another policy needs there,
    as long as policy names do not collide.  If policy [q] has the cluster and the secret,
    the secret is live on the hub and it is delivered to the cluster, then it still is
    after [drClustersUndeploySecrets] of policy [p], however that ends, provided that no
    other secret of [p] has the needed one's policy name in some format (as the secret
    [vX] has with the Velero format of [X]) and failing calls report neither "not found"
    nor "already exists". *)
Theorem undeploy_keeps_needed_secrets p q drclusters drpolicies cfg s c f w :
  let w' := (drClustersUndeploySecrets p drclusters drpolicies cfg w).2 in
  truthful → q ∈ drpolicies → om_Name (drp_Meta q) ≠ om_Name (drp_Meta p) →
  c ∈ DRPolicyClusterNames q → s ∈ (drPolicySecretNames q drclusters cfg).1 →
  (∀ s' f', s' ∈ (drPolicySecretNames p drclusters cfg).1 → policy_name s' f' = policy_name s f → s' = s) →
  live RamenOperatorNamespace s w → delivered RamenOperatorNamespace (policy_name s f) c w →
  delivered RamenOperatorNamespace (policy_name s f) c w'.
Proof.
  intros w' HT Hq Hn Hc Hs Hcol Hl Hd. subst w'. unfold drClustersUndeploySecrets.
  destruct (secrets_distributed cfg); [|done]. cbn [negb]. rewrite run_bind. cbn [fst snd].
  set (I w := live RamenOperatorNamespace s w ∧ delivered RamenOperatorNamespace (policy_name s f) c w).
  match goal with |- delivered _ _ _ ?w' => enough (I w') as [_ Hw] by exact Hw end.
  apply each_invariant; [|by split]. intros c' w' Hc' Hw'. unfold undeploy_cluster.
  apply each_invariant; [|done]. intros s' w1 Hs'%elem_of_set_List Hw1. case_bool_decide as Hm; [done|].
  apply deleteSecretFromCluster_keeps; [done| |by intros f'; apply Hcol|done].
  intros -> ->. apply Hm. by apply (needed_must_have drpolicies drclusters cfg p q).
Qed.

(** ** Deployment *)

(** In the formats that are delivered. *)
Definition all_delivered (cfg : OperatorConfig) (s c : string) (w : ObjectStore) : Prop :=
  delivered RamenOperatorNamespace (policy_name s SecretFormatRamen) c w ∧
  (velero_delivered cfg = true → delivered RamenOperatorNamespace (policy_name s SecretFormatVelero) c w).

Definition all_kept (cfg : OperatorConfig) (w w' : ObjectStore) : Prop :=
  ∀ s c, all_delivered cfg s c w → all_delivered cfg s c w'.
#[local] Instance all_kept_preorder cfg : PreOrder (all_kept cfg).
Proof. split; [by intros w s c ?|]. intros x y z Hxy Hyz s c Hx. by apply Hyz, Hxy. Qed.

Context (HT : truthful).

Lemma deploy_secret_delivers cfg c s w :
  intact RamenOperatorNamespace w → (deploy_secret cfg c s w).1 = None →
  intact RamenOperatorNamespace (deploy_secret cfg c s w).2 ∧ all_kept cfg w (deploy_secret cfg c s w).2 ∧
  all_delivered cfg s c (deploy_secret cfg c s w).2.
Proof.
  intros Hi. unfold deploy_secret. rewrite or_return_run.
  pose proof (AddSecretToCluster_adds RamenOperatorNamespace HT s c (drClusterOperatorNamespaceNameOrDefault cfg)
    SecretFormatRamen "" w Hi) as H1'.
  destruct (AddSecretToCluster _ _ _ _ SecretFormatRamen _ w) as [[e|] w1]; cbn [fst snd] in *; [done|].
  destruct (H1' eq_refl) as (Hi1 & Hd1 & Hk1). unfold all_kept, all_delivered.
  destruct (velero_delivered cfg).
  - rewrite or_return_run.
    pose proof (AddSecretToCluster_adds RamenOperatorNamespace HT s c (drClusterOperatorNamespaceNameOrDefault cfg)
      SecretFormatVelero (oc_VeleroNamespaceName cfg) w1 Hi1) as H2'.
    destruct (AddSecretToCluster _ _ _ _ SecretFormatVelero _ w1) as [[e|] w2]; cbn [fst snd] in *; [done|].
    destruct (H2' eq_refl) as (Hi2 & Hd2 & Hk2). intros _. split; [done|]. split; [|by split; [apply Hk2|]].
    intros s' c' [Ha Hb]. split; [by apply Hk2, Hk1|]. intros Hv. by apply Hk2, Hk1, Hb.
  - intros _. split; [done|]. split; [|done]. intros s' c' [Ha _]. split; [by apply Hk1|done].
Qed.

Lemma drClusterSecretsDeploy_delivers c p drclusters cfg w :
  let r := drClusterSecretsDeploy c p drclusters cfg w in
  secrets_distributed cfg = true → intact RamenOperatorNamespace w → r.1 = None →
  intact RamenOperatorNamespace r.2 ∧ all_kept cfg w r.2 ∧
  ∀ s, s ∈ (drPolicySecretNames p drclusters cfg).1 → all_delivered cfg s c r.2.
Proof.
  intros r Hon Hi. subst r. unfold drClusterSecretsDeploy. rewrite Hon. cbn [negb].
  destruct (drPolicySecretNames p drclusters cfg) as [names err]. cbn [fst].
  destruct (bool_decide (err ≠ None) && _) eqn:Eb; [cbn; intros ->; by bools|]. intros Hn.
  destruct (each_success (deploy_secret cfg c) (set_List names) (intact RamenOperatorNamespace) (all_kept cfg)
    (λ s, all_delivered cfg s c) w) as (J1 & J2 & J3);
    [by intros s w1 w2 Hk Hs; apply Hk|intros s w' _ Hi' Hn'; by apply deploy_secret_delivers|done|done|].
  split; [done|]. split; [done|]. intros s Hs. by apply J3, elem_of_set_List.
Qed.

(** C26: on a hub where no earlier removal was interrupted (each rule has its policy and
    its binding) and failing calls report neither "not found" nor "already exists", a policy
    whose secrets were propagated without an error has them
    delivered: for each of its clusters and each secret of those of its clusters' profiles
    that are configured, the rule of the secret's policy lists the cluster, and the policy
    and its binding exist, in the formats that are distributed.  Whatever was delivered
    before still is, and no rule is left without its policy and binding. *)
Theorem propagated_secrets_delivered p drclusters cfg w :
  let r := propagateS3Secret p drclusters cfg w in
  secrets_distributed cfg = true → intact RamenOperatorNamespace w → r.1 = None →
  intact RamenOperatorNamespace r.2 ∧
  (∀ c s, c ∈ DRPolicyClusterNames p → s ∈ (drPolicySecretNames p drclusters cfg).1 → all_delivered cfg s c r.2) ∧
  (∀ s c, all_delivered cfg s c w → all_delivered cfg s c r.2).
Proof.
  intros r Hon Hi Hn. subst r. unfold propagateS3Secret in *.
  destruct (each_success (λ c, drClusterSecretsDeploy c p drclusters cfg) (DRPolicyClusterNames p)
    (intact RamenOperatorNamespace) (all_kept cfg)
    (λ c w, ∀ s, s ∈ (drPolicySecretNames p drclusters cfg).1 → all_delivered cfg s c w) w) as (J1 & J2 & J3);
    [|intros c w' _ Hi' Hn'; by apply drClusterSecretsDeploy_delivers|done|done|].
  { intros c w1 w2 Hk Hc s Hs. by apply Hk, Hc. }
  split; [done|]. split; [|done]. intros c s Hc Hs. by apply J3.
Qed.

(** ** An interrupted removal *)

(** a binding that was deleted is not created again while the rule is there, so that
    an addition may answer without an error and yet deliver nothing.  The binding is the
    first of the resources that [deletePolicyResources] deletes and the rule the last: a
    removal that fails in between leaves such a state behind. *)
Theorem lost_binding_is_not_restored s c f targetNS veleroNS w :
  let ns := RamenOperatorNamespace in
  let w' := (AddSecretToCluster s c ns targetNS f veleroNS w).2 in
  is_Some (os_rules w !! rule_key ns (policy_name s f)) → os_bindings w !! binding_key ns (policy_name s f) = None →
  ¬ delivered ns (policy_name s f) c w'.
Proof.
  intros ns w' Hr Hb. subst w'. intros (_ & _ & Hs). rewrite (AddSecretToCluster_unbound _ ns s c targetNS f veleroNS w)
    in Hs by done. by apply is_Some_None in Hs.
Qed.
End removal.

(** ** A concrete hub *)

Module SecretScene.
#[export] Instance env : Env := calm (shown ∅).
#[export] Instance versions : ServerVersions := λ _, "7".
#[export] Instance order : KeyOrder := {| env_keys := λ _ s, elements s; env_keys_perm := λ _ _, reflexivity _ |}.
#[export] Instance config : ConfigEnv := {|
  RamenOperatorNamespace := "ramen-system";
  env_operator_config := λ _, inr (not_found "config");
  yaml_Marshal := λ _, inl "";
  env_CreateOrUpdate_addon := λ _ _, None;
|}.

(** One profile per cluster, delivered in both formats. *)
Definition profile (c : string) : S3StoreProfile := mkS3StoreProfile ("s3-" +:+ c) "bucket" "" "" (c +:+ "-secret") None.
Definition cfg : OperatorConfig :=
  mkOperatorConfig None [profile "east"; profile "west"]
    (mkDrClusterOperatorConfig true true "" "" "" "" "" "") false "velero" "".
Definition clusters : list DRCluster := [drcluster "east" ConditionFalse; drcluster "west" ConditionFalse].
Definition other : DRPolicy := policy "1h" <| drp_Meta ::= λ m, m <| om_Name := "other" |> |>.

Definition secret (c : string) : key * Secret :=
  (("ramen-system", c +:+ "-secret"), mkSecret (named_meta (c +:+ "-secret") "ramen-system") ∅).
Definition empty_store : ObjectStore :=
  mkObjectStore (hub (drpc ActionNone false) ∅ "") ∅ (list_to_map [secret "east"; secret "west"]) ∅ ∅ ∅.

(** The store once the policy's secrets are delivered. *)
Definition full_store : ObjectStore := (propagateS3Secret (policy "5m") clusters cfg empty_store).2.

(** The calls of a tick fail. *)
Definition failing (ticks : list nat) : Env :=
  let c := calm (shown ∅) in {|
  env_now := @env_now c;
  env_api_err := λ t, if bool_decide (t ∈ ticks) then Some (StatusError ReasonOther "timeout") else None;
  env_GetVRGFromManagedCluster := @env_GetVRGFromManagedCluster c;
  env_GetNSFromManagedCluster := @env_GetNSFromManagedCluster c;
  env_GetRecipeFromManagedCluster := @env_GetRecipeFromManagedCluster c;
  env_s3_vrg := @env_s3_vrg c;
  env_list_drpcs := @env_list_drpcs c;
  env_ReconcileVolSyncReplicationSecret := @env_ReconcileVolSyncReplicationSecret c;
  env_PropagateSecretToClusters := @env_PropagateSecretToClusters c;
  env_range := @env_range c;
  env_range_perm := @env_range_perm c;
  env_mapping := @env_mapping c;
  env_fmt_placement := @env_fmt_placement c;
  env_fmt_status := @env_fmt_status c;
  env_fmt_vrgs := @env_fmt_vrgs c;
  env_codec := @env_codec c;
|}.

(** east's secret delivered to east; its removal fails at the policy's deletion. *)
Definition one_cluster : ObjectStore :=
  (AddSecretToCluster "east-secret" "east" "ramen-system" "ramen-system" SecretFormatRamen "" empty_store).2.
Definition at_tick (t : nat) (w : ObjectStore) : ObjectStore := w <| os_hub ::= λ h, h <| w_tick := t |> |>.
Definition interrupted : (option GoError) * ObjectStore :=
  @RemoveSecretFromCluster (failing [3]) _ "east-secret" "east" "ramen-system" SecretFormatRamen (at_tick 0 one_cluster).
End SecretScene.

Section witness.
Import SecretScene.

Lemma calm_truthful : truthful.
Proof. intros t e [=]. Qed.

Lemma propagated_secrets_delivered_witness :
  all_delivered cfg "east-secret" "west" full_store ∧ all_delivered cfg "west-secret" "east" full_store.
Proof.
  destruct (propagated_secrets_delivered calm_truthful (policy "5m") clusters cfg empty_store) as (_ & Hd & _).
  - reflexivity.
  - split; [intros k x Hx; by destruct (lookup_empty_Some (M := gmap key) k x Hx)..|].
    intros p [x Hx]. by destruct (lookup_empty_Some (M := gmap key) _ x Hx).
  - vm_compute. reflexivity.
  - split; apply Hd; vm_compute; set_solver.
Defined.

Lemma undeploy_keeps_needed_secrets_witness :
  delivered RamenOperatorNamespace (policy_name "east-secret" SecretFormatVelero) "west"
    (drClustersUndeploySecrets (policy "5m") clusters [policy "5m"; other] cfg full_store).2.
Proof.
  apply (undeploy_keeps_needed_secrets (policy "5m") other clusters [policy "5m"; other] cfg "east-secret" "west"
           SecretFormatVelero full_store calm_truthful).
  - set_solver.
  - done.
  - vm_compute. set_solver.
  - apply (bool_decide_unpack _). vm_compute. exact I.
  - intros s' f' Hs' Hf. destruct f'; [|by injection Hf]. exfalso.
    assert (E : (drPolicySecretNames (policy "5m") clusters cfg).1 = {["west-secret"; "east-secret"]})
      by (vm_compute; reflexivity).
    rewrite E in Hs'. apply elem_of_union in Hs' as [->%elem_of_singleton| ->%elem_of_singleton]; discriminate Hf.
  - eexists. split; [vm_compute; reflexivity|done].
  - split; [|split; [|vm_compute; by eexists]]; eexists; (split; [vm_compute; reflexivity|]); [|done].
    split; [done|]. cbn. set_solver.
Defined.

Lemma lost_binding_is_not_restored_witness :
  let added := AddSecretToCluster "east-secret" "west" RamenOperatorNamespace "ramen-system" SecretFormatRamen ""
                 interrupted.2 in
  interrupted.1 ≠ None ∧ added.1 = None ∧
  ¬ delivered RamenOperatorNamespace (policy_name "east-secret" SecretFormatRamen) "west" added.2.
Proof.
  cbv zeta. split; [by vm_compute|]. split; [vm_compute; reflexivity|].
  apply (lost_binding_is_not_restored calm_truthful "east-secret" "west" SecretFormatRamen "ramen-system" ""
           interrupted.2); [by vm_compute; eexists|vm_compute; reflexivity].
Defined.
End witness.

(** * What the DRPolicy controller promises

    Conflicts between policies are found exactly, and a reconcile that ends without an
    error has reported the policy's validity as it is. *)

(** ** Conflicts *)

(** A cluster of a policy's that is in one of its metro zones. *)
Definition metro_cluster (d : DRPolicy) (ids : gmap string string) (c : string) : Prop :=
  (dRPolicySupportsMetro d (Some ids)).1.1 = true ∧ ∃ v, v ∈ (dRPolicySupportsMetro d (Some ids)).1.2 ∧ c ∈ v.

(** Two policies share a cluster that one of them has in a metro zone. *)
Definition overlapping (d1 d2 : DRPolicy) (ids : gmap string string) : Prop :=
  ∃ c, c ∈ DRPolicyClusterNames d1 ∧ c ∈ DRPolicyClusterNames d2 ∧ (metro_cluster d1 ids c ∨ metro_cluster d2 ids c).

Lemma has_any_spec v common : has_any v common = true ↔ ∃ c, c ∈ v ∧ c ∈ common.
Proof.
  unfold has_any. rewrite existsb_exists. setoid_rewrite list_elem_of_In. split; intros (c & Hc & Hb); exists c; by bools; auto using bool_decide_eq_true_2.
Qed.

Lemma zones_spec d ids common :
  (dRPolicySupportsMetro d (Some ids)).1.1 && existsb (λ v, has_any v common) (dRPolicySupportsMetro d (Some ids)).1.2 = true ↔
  ∃ c, c ∈ common ∧ metro_cluster d ids c.
Proof.
  rewrite andb_true_iff, existsb_exists. unfold metro_cluster. split.
  - intros (Hm & v & Hv%list_elem_of_In & (c & Hc & Hin)%has_any_spec). exists c. eauto 6.
  - intros (c & Hin & Hm & v & Hv & Hc). split; [done|]. exists v. rewrite <- list_elem_of_In. split; [done|].
    apply has_any_spec. eauto.
Qed.

Lemma haveOverlappingMetroZones_spec d1 d2 ids : haveOverlappingMetroZones d1 d2 ids = true ↔ overlapping d1 d2 ids.
Proof.
  unfold haveOverlappingMetroZones, overlapping. cbv zeta. set (common := _ ∩ _ : gset string).
  assert (Hc : ∀ c, c ∈ common ↔ c ∈ DRPolicyClusterNames d1 ∧ c ∈ DRPolicyClusterNames d2) by (subst common; set_solver).
  clearbody common. case_bool_decide as Hs.
  - split; [done|]. intros (c & H1 & H2 & _). apply size_empty_inv in Hs. assert (Hin : c ∈ common) by (by apply Hc).
    by apply Hs in Hin.
  - transitivity ((∃ c, c ∈ common ∧ metro_cluster d2 ids c) ∨ (∃ c, c ∈ common ∧ metro_cluster d1 ids c)).
    + rewrite <- !zones_spec. destruct ((dRPolicySupportsMetro d2 (Some ids)).1.1 && _); [by split; [left|]|].
      split; [by right|by intros [?|?]].
    + setoid_rewrite Hc. split; [intros [(c & [] & ?)|(c & [] & ?)]|intros (c & ? & ? & [?|?])]; eauto 6.
Qed.

(** conflicts between policies are found exactly.  A policy is rejected if and only if
    the list has a policy of another name, not created after it, with which it shares a
    cluster that one of the two has in a metro zone. *)
Theorem policy_conflicts_found_exactly d l ids :
  HasConflictingDRPolicy d l ids ≠ None ↔
  ∃ d', d' ∈ l ∧ om_Name (drp_Meta d') ≠ om_Name (drp_Meta d) ∧
        (om_CreationTimestamp (drp_Meta d') <= om_CreationTimestamp (drp_Meta d))%Z ∧ overlapping d d' ids.
Proof.
  induction l as [|x l IH]; simpl.
  { split; [done|]. by intros (? & ?%elem_of_nil & _). }
  setoid_rewrite elem_of_cons.
  assert (Hl : (∃ d', d' ∈ l ∧ om_Name (drp_Meta d') ≠ om_Name (drp_Meta d) ∧
      (om_CreationTimestamp (drp_Meta d') <= om_CreationTimestamp (drp_Meta d))%Z ∧ overlapping d d' ids) →
    ∃ d', (d' = x ∨ d' ∈ l) ∧ om_Name (drp_Meta d') ≠ om_Name (drp_Meta d) ∧
      (om_CreationTimestamp (drp_Meta d') <= om_CreationTimestamp (drp_Meta d))%Z ∧ overlapping d d' ids)
    by (intros (d' & ? & ?); exists d'; auto).
  case_bool_decide as Hn; [rewrite IH; split; [done|]; intros (d' & [->|Hd] & ? & ?); [done|eauto]|].
  case_bool_decide as Ht; [rewrite IH; split; [done|]; intros (d' & [->|Hd] & ? & ? & ?); [lia|eauto]|].
  destruct (haveOverlappingMetroZones d x ids) eqn:Eo.
  - apply haveOverlappingMetroZones_spec in Eo. split; [|done]. intros _. exists x. split; [by left|]. split; [done|].
    split; [lia|done].
  - rewrite IH. split; [done|]. intros (d' & [->|Hd] & ? & ? & Ho); [|eauto].
    apply haveOverlappingMetroZones_spec in Ho. congruence.
Qed.

(** ** Status writes *)

(** A condition with a status and a reason. *)
Definition reports (o : DRPolicy) (t : string) (st : ConditionStatus) (reason : string) : Prop :=
  ∃ c, FindCondition (dpt_Conditions (drp_Status o)) t = Some c ∧ cond_Status c = st ∧ cond_Reason c = reason.

Lemma GenericStatusConditionSet_find gen now conds t st reason msg :
  ∃ c, FindCondition (GenericStatusConditionSet gen now conds t st reason msg).2 t = Some c ∧
       cond_Status c = st ∧ cond_Reason c = reason.
Proof.
  unfold GenericStatusConditionSet. destruct (FindCondition conds t) as [c|] eqn:E.
  - destruct (_ && _) eqn:Eb; [bools; by exists c|]. cbn [snd]. exists (ConditionUpdate gen now st reason msg c).
    rewrite FindCondition_update_same, E by done. by repeat split; unfold ConditionUpdate; case_bool_decide.
  - cbn [snd]. unfold ConditionAppend. eexists. split; [|split].
    + pose proof (FindCondition_app_same conds (mkCondition t st gen now reason msg)) as Ha. cbn in Ha. by apply Ha.
    + done.
    + done.
Qed.

Lemma GenericStatusConditionSet_other gen now conds t st reason msg t' :
  t ≠ t' → FindCondition (GenericStatusConditionSet gen now conds t st reason msg).2 t' = FindCondition conds t'.
Proof.
  intros Hne. unfold GenericStatusConditionSet. destruct (FindCondition conds t).
  - destruct (_ && _); [done|]. cbn [snd]. by rewrite FindCondition_update_other.
  - cbn [snd]. by apply FindCondition_app_other.
Qed.

(** The object in memory is the server's, up to its status, and entirely. *)
Definition meta_settled (w : PolicyWorld) : Prop :=
  drp_Meta (pw_object w) = drp_Meta (pw_api_object w) ∧ drp_Spec (pw_object w) = drp_Spec (pw_api_object w).
Definition settled (w : PolicyWorld) : Prop := pw_object w = pw_api_object w.

(** The policy, but for its conditions and network peers. *)
Definition steady (o o' : DRPolicy) : Prop :=
  drp_Meta o' = drp_Meta o ∧ drp_Spec o' = drp_Spec o ∧
  dpt_Sync (drp_Status o') = dpt_Sync (drp_Status o) ∧ dpt_Async (drp_Status o') = dpt_Async (drp_Status o).

#[export] Instance steady_preorder : PreOrder steady.
Proof. split; [by intros o|]. intros x y z (a & b & c & d) (a' & b' & c' & d'). by repeat split; etrans. Qed.

(** The conflict check sees no more of a policy than that. *)
Lemma steady_conflict o o' l ids : steady o o' → HasConflictingDRPolicy o' l ids = HasConflictingDRPolicy o l ids.
Proof.
  destruct o as [m sp [cs a s n]], o' as [m' sp' [cs' a' s' n']]. intros (Em & Es & E1 & E2). cbn in *. subst.
  induction l as [|x l IH]; [done|]. simpl in *. by rewrite IH.
Qed.

Section updater.
Context `{Env}.

Lemma policy_statusUpdate_ok w :
  meta_settled w → (policy_statusUpdate w).1 = None →
  pw_object (policy_statusUpdate w).2 = pw_object w ∧ settled (policy_statusUpdate w).2.
Proof.
  intros [Hm Hs]. unfold policy_statusUpdate. rewrite or_return_run.
  destruct (from_hub api_err w).1; [done|]. intros _. rewrite run_bind. cbn [modify fst snd mret M_ret].
  split; [|done]. cbn. rewrite <- Hm, <- Hs. by destruct (pw_object w).
Qed.

(** A condition set in memory. *)
Definition with_condition (gen now : Z) (t : string) (st : ConditionStatus) (reason msg : string) (o : DRPolicy) : DRPolicy :=
  o <| drp_Status ::= λ s, s <| dpt_Conditions ::= λ l, (GenericStatusConditionSet gen now l t st reason msg).2 |> |>.

Lemma set_pcondition_run t st reason msg w :
  ∃ gen now, pw_object (set_pcondition t st reason msg w).2 = with_condition gen now t st reason msg (pw_object w) ∧
    pw_api_object (set_pcondition t st reason msg w).2 = pw_api_object w ∧
    ((set_pcondition t st reason msg w).1 = false → pw_object (set_pcondition t st reason msg w).2 = pw_object w).
Proof.
  unfold set_pcondition. rewrite !run_bind. cbn [gets fst snd]. 
  eexists _, _. split; [reflexivity|]. split; [done|]. cbn [fst snd]. intros Hf.
  assert (Hg : ∀ g n l, (GenericStatusConditionSet g n l t st reason msg).1 = false →
      (GenericStatusConditionSet g n l t st reason msg).2 = l).
  { intros g n l. unfold GenericStatusConditionSet. destruct (FindCondition l t); [|done]. by destruct (_ && _). }
  apply Hg in Hf. cbn in *. destruct w as [ws [m sp [cs a s n]] api]. cbn in *. by rewrite Hf.
Qed.

Lemma with_condition_steady gen now t st reason msg o : steady o (with_condition gen now t st reason msg o).
Proof. done. Qed.

Lemma with_condition_reports gen now t st reason msg o : reports (with_condition gen now t st reason msg o) t st reason.
Proof. apply GenericStatusConditionSet_find. Qed.

Lemma with_condition_other gen now t st reason msg o t' st' reason' :
  t ≠ t' → reports o t' st' reason' → reports (with_condition gen now t st reason msg o) t' st' reason'.
Proof.
  intros Hne (c & Hc & ?). exists c. split; [|done]. rewrite <- Hc. by apply GenericStatusConditionSet_other.
Qed.

Lemma policy_statusConditionSet_ok t st reason msg w :
  let r := policy_statusConditionSet t st reason msg w in
  settled w → r.1 = None →
  settled r.2 ∧ ∃ gen now, pw_object r.2 = with_condition gen now t st reason msg (pw_object w).
Proof.
  intros r Hw Hn. subst r. unfold policy_statusConditionSet in *. rewrite run_bind in *.
  destruct (set_pcondition_run t st reason msg w) as (gen & now & Eo & Ea & Ef).
  set (r := set_pcondition t st reason msg w) in *. clearbody r. unfold settled in *.
  destruct r.1.
  - destruct (policy_statusUpdate_ok r.2) as [E1 E2]; [|done|].
    { split; rewrite Eo, Ea, <- Hw; done. }
    split; [done|]. exists gen, now. by rewrite E1.
  - cbn [snd mret M_ret]. split; [|by eauto]. by rewrite Ef, Ea.
Qed.

Lemma clearNADStatus_ok w :
  settled w → (clearNADStatus w).1 = None → settled (clearNADStatus w).2 ∧ steady (pw_object w) (pw_object (clearNADStatus w).2).
Proof.
  intros Hw. unfold clearNADStatus. rewrite run_bind. cbn [gets fst snd]. destruct (_ && _); [done|].
  rewrite run_bind, or_return_run. set (w1 := (modify_dpstatus _ w).2).
  assert (Hm : meta_settled w1) by (unfold settled in Hw; split; cbn; by rewrite Hw).
  destruct (policy_statusUpdate w1).1 eqn:E; [done|]. intros _. cbn [snd mret M_ret].
  destruct (policy_statusUpdate_ok w1 Hm E) as [-> ?]. done.
Qed.

Lemma setValidationSucceeded_ok w :
  settled w → (setValidationSucceeded w).1 = None →
  settled (setValidationSucceeded w).2 ∧ steady (pw_object w) (pw_object (setValidationSucceeded w).2).
Proof.
  intros Hw. unfold setValidationSucceeded. rewrite run_bind. cbn [gets fst snd].
  assert (Ht : (validatedSetTrue w).1 = None →
    settled (validatedSetTrue w).2 ∧ steady (pw_object w) (pw_object (validatedSetTrue w).2)).
  { intros Hn. destruct (policy_statusConditionSet_ok _ _ _ _ w Hw Hn) as (? & gen & now & E). split; [done|].
    unfold validatedSetTrue. rewrite E. apply with_condition_steady. }
  destruct (negb _); [case_bool_decide; [by apply clearNADStatus_ok|destruct (negb _); done]|]. destruct (_ || _); done.
Qed.
End updater.

Section reconcile.
Context `{Env} `{ViewCodec} `{ClusterReads} `{ReconcileEnv} `{ServerVersions} `{ConfigEnv} `{KeyOrder}.

Lemma updatePeerClasses_ok w :
  settled w → (updatePeerClasses w).1 = None →
  settled (updatePeerClasses w).2 ∧ drp_Meta (pw_object (updatePeerClasses w).2) = drp_Meta (pw_object w) ∧
  drp_Spec (pw_object (updatePeerClasses w).2) = drp_Spec (pw_object w).
Proof.
  intros Hw. unfold updatePeerClasses. rewrite run_bind. cbn [gets fst snd]. case_bool_decide; [done|].
  rewrite result_or_return_run. destruct (from_hub _ w).1 as [cls|e]; [|done].
  destruct (findAllPeers _ _) as [[syncPeers asyncPeers]|]; [|done]. rewrite run_bind. intros Hn.
  set (w1 := (modify _ _).2) in *.
  assert (Hm : meta_settled w1) by (unfold settled in Hw; split; cbn; by rewrite Hw).
  destruct (policy_statusUpdate_ok w1 Hm Hn) as [-> ?]. done.
Qed.

(** What the conflict check answers for. *)
Definition free_of_conflicts (o : DRPolicy) (ids : gmap string string) : Prop :=
  (dpt_Sync (drp_Status o) = [] ∨ dpt_Async (drp_Status o) = []) ∧
  ∃ t l, env_list_drpolicies t = inl l ∧ HasConflictingDRPolicy o l ids = None.

Lemma validatePolicyConflicts_ok o ids h :
  (validatePolicyConflicts o ids h).1 = None → free_of_conflicts o ids.
Proof.
  unfold validatePolicyConflicts, free_of_conflicts. destruct (_ && _) eqn:Eb; [done|].
  rewrite result_or_return_run. unfold GetAllDRPolicies. rewrite run_bind. cbn [fst snd mret M_ret tick].
  destruct (env_list_drpolicies _) as [l|e] eqn:El; [|done]. cbn [fst snd mret M_ret].
  destruct (HasConflictingDRPolicy o l ids) eqn:Ec; [done|]. intros _. split; [|by eauto].
  apply andb_false_iff in Eb as [Eb|Eb]; bools; [left|right]; apply nil_length_inv; lia.
Qed.

Lemma validateNADs_ok w :
  settled w → (validateNADs w).1 = None →
  settled (validateNADs w).2 ∧ steady (pw_object w) (pw_object (validateNADs w).2) ∧
  (isNetworkMappingEnabled (pw_object w) = true →
   ∃ reason, reports (pw_object (validateNADs w).2) ConditionNetworkAttachmentsValidated ConditionTrue reason).
Proof.
  intros Hw. unfold validateNADs. rewrite run_bind. cbn [gets fst snd].
  destruct (isNetworkMappingEnabled (pw_object w)) eqn:En; cbn [negb]; [|done]. rewrite run_bind.
  assert (Hu : (UpdateNADValidationCondition w).1 = (true, None) →
    settled (UpdateNADValidationCondition w).2 ∧ steady (pw_object w) (pw_object (UpdateNADValidationCondition w).2) ∧
    ∃ reason, reports (pw_object (UpdateNADValidationCondition w).2) ConditionNetworkAttachmentsValidated ConditionTrue reason).
  { unfold UpdateNADValidationCondition. rewrite run_bind. cbn [gets fst snd]. rewrite En. cbn [negb].
    rewrite result_or_return_run.
    assert (Hs : meta_settled (validateNADsAcrossClusters w).2 ∧ steady (pw_object w) (pw_object (validateNADsAcrossClusters w).2)).
    { unfold validateNADsAcrossClusters. rewrite run_bind. cbn [gets fst snd].
      assert (Hms : meta_settled w) by (split; by rewrite Hw).
      destruct (dps_DRClusters _) as [|a [|b l]]; [done..|]. rewrite result_or_return_run.
      destruct (from_hub (clusterNADInfo a) w).1; [|done]. rewrite result_or_return_run.
      destruct (from_hub (clusterNADInfo b) _).1; by split. }
    set (r := validateNADsAcrossClusters w) in *. clearbody r. destruct Hs as [Hm Hst].
    destruct r.1 as [missing|e]; [|done]. rewrite run_bind. cbn [gets fst snd]. rewrite run_bind, or_return_run.
    destruct (bool_decide_reflect (length missing = 0)) as [Hl|Hl]; cbn [andb];
      [|by destruct (policy_statusUpdate _).1].
    match goal with |- context [policy_statusUpdate ?x] => set (w1 := x) end.
    destruct (policy_statusUpdate w1).1 eqn:Eu; [done|]. cbn [fst snd mret M_ret]. intros _.
    assert (Hc : ∃ reason msg gen now, pw_object w1 = with_condition gen now ConditionNetworkAttachmentsValidated
        ConditionTrue reason msg (pw_object r.2) ∧ pw_api_object w1 = pw_api_object r.2).
    { subst w1. case_bool_decide;
        match goal with |- context [set_pcondition ?t ?st ?reason ?msg ?x] =>
          destruct (set_pcondition_run t st reason msg x) as (gen & now & E1 & E2 & _) end; eauto 10. }
    destruct Hc as (reason & msg & gen & now & E1 & E2).
    assert (Hm1 : meta_settled w1) by (destruct Hm; by split; rewrite E1, E2).
    destruct (policy_statusUpdate_ok w1 Hm1 Eu) as [Eo Hse]. rewrite Eo. split; [done|].
    split; [trans (pw_object r.2); [done|]; rewrite E1; apply with_condition_steady|].
    exists reason. rewrite E1. apply with_condition_reports. }
  destruct (UpdateNADValidationCondition w) as [[[] [e|]] w1]; cbn [fst snd] in *; [done| |done|].
  - intros _. destruct (Hu eq_refl) as (? & ? & ?). done.
  - rewrite run_bind. done.
Qed.

(** ** The reconcile *)

(** What a policy that is reported valid has passed. *)
Definition checked (o : DRPolicy) (ids : gmap string string) : Prop :=
  reports o DRPolicyValidated ConditionTrue ReasonSucceeded ∧ free_of_conflicts o ids ∧
  (isNetworkMappingEnabled o = true → ∃ reason, reports o ConditionNetworkAttachmentsValidated ConditionTrue reason).

Lemma policy_reconcile_ok drclusters cfg ids w :
  let r := policy_reconcile drclusters cfg ids w in
  settled w → r.1 = (no_requeue, None) →
  settled r.2 ∧ checked (pw_object r.2) ids ∧ drp_Spec (pw_object r.2) = drp_Spec (pw_object w).
Proof.
  intros r Hw Hn. subst r. unfold policy_reconcile in *. rewrite or_return_run in *.
  destruct (setValidationSucceeded w).1 eqn:E1; [done|]. destruct (setValidationSucceeded_ok w Hw E1) as [S1 (_ & T1 & _)].
  set (w1 := (setValidationSucceeded w).2) in *. clearbody w1. rewrite or_return_run in *.
  destruct (updatePeerClasses w1).1 eqn:E2; [done|]. destruct (updatePeerClasses_ok w1 S1 E2) as (S2 & _ & T2).
  set (w2 := (updatePeerClasses w1).2) in *. clearbody w2. rewrite run_bind in *. cbn [gets fst snd] in *.
  rewrite or_return_run in *. destruct (at_store _ w2).1; [done|]. set (w3 := (at_store _ w2).2) in *.
  assert (S3 : settled w3) by done. assert (O3 : pw_object w3 = pw_object w2) by done. clearbody w3.
  rewrite or_return_run in *. destruct (from_hub _ w3).1 as [e|] eqn:E4.
  { rewrite run_bind in Hn. done. }
  apply validatePolicyConflicts_ok in E4. set (w4 := (from_hub _ w3).2) in *.
  assert (S4 : settled w4) by done. assert (O4 : pw_object w4 = pw_object w2) by done. clearbody w4.
  rewrite run_bind in *. destruct (validateNADs w4).1 eqn:E5.
  { exfalso. revert E5 Hn. unfold validateNADs. rewrite run_bind. cbn [gets fst snd].
    destruct (negb _); [done|]. rewrite run_bind.
    destruct (UpdateNADValidationCondition w4) as [[[] [e|]] w5]; cbn [fst snd mret M_ret]; try congruence.
    rewrite run_bind. cbn [fst snd mret M_ret]. congruence. }
  destruct (validateNADs_ok w4 S4 E5) as (S5 & T5 & N5). set (w5 := (validateNADs w4).2) in *. clearbody w5.
  rewrite or_return_run in *. unfold validatedSetTrue in *.
  destruct (policy_statusConditionSet _ _ _ _ w5).1 eqn:E6; [done|].
  destruct (policy_statusConditionSet_ok _ _ _ _ w5 S5 E6) as (S6 & gen & now & O6).
  set (w6 := (policy_statusConditionSet _ _ _ _ w5).2) in *. clearbody w6. rewrite run_bind in *.
  cbn [gets fst snd mret M_ret] in *. rewrite O6.
  assert (T6 : steady (pw_object w2) (with_condition gen now DRPolicyValidated ConditionTrue ReasonSucceeded
    "drpolicy validated" (pw_object w5))).
  { trans (pw_object w5); [by rewrite <- O4|apply with_condition_steady]. }
  split; [done|]. split; [|by destruct T6 as (_ & -> & _); rewrite T2].
  split; [apply with_condition_reports|]. split.
  - destruct E4 as (Hone & t & l & Hl & Hc). destruct T6 as (? & ? & Es & Ea) eqn:ET. split; [by rewrite Es, Ea|].
    exists t, l. split; [done|]. by rewrite (steady_conflict (pw_object w2)).
  - intros Hen. destruct N5 as [reason Hr]; [|exists reason; by apply with_condition_other]. rewrite O4.
    unfold isNetworkMappingEnabled in *. by destruct T6 as (_ & <- & _).
Qed.

Lemma policy_addLabelsAndFinalizers_ok w :
  let r := policy_addLabelsAndFinalizers w in
  settled w → r.1 = None → settled r.2 ∧ drp_Spec (pw_object r.2) = drp_Spec (pw_object w).
Proof.
  intros r Hw Hn. subst r. unfold policy_addLabelsAndFinalizers, policy_update_resource in *. rewrite run_bind in *.
  cbn [gets fst snd] in *. set (m := drp_Meta (pw_object w)) in *.
  change (ru_AddFinalizer (ru_AddLabel (NewResourceUpdater m) OCMBackupLabelKey OCMBackupLabelValue) drPolicyFinalizerName)
    with (ru_chain m [OpAddLabel OCMBackupLabelKey OCMBackupLabelValue; OpAddFinalizer drPolicyFinalizerName]) in *.
  pose proof (ru_chain_faithful m [OpAddLabel OCMBackupLabelKey OCMBackupLabelValue; OpAddFinalizer drPolicyFinalizerName])
    as Hf. set (u := ru_chain m _) in *. clearbody u. rewrite run_bind in *. cbn [modify fst snd] in *.
  destruct (ru_objModified u) eqn:Em.
  - unfold Update_drpolicy in *. rewrite or_return_run in *. destruct (from_hub api_err _).1; [done|]. done.
  - split; [|done]. unfold settled in *. cbn. rewrite (Hf Em). rewrite <- Hw. by destruct (pw_object w) eqn:E.
Qed.

(** Names are unique on the server. *)
Definition unique_names (l : list DRCluster) : Prop := NoDup ((λ c, om_Name (dc_Meta c)) <$> l).

Lemma named_clusters l s :
  unique_names l → (length (filter (λ c, om_Name (dc_Meta c) = s) l) <= 1)%nat ∧
    (length (filter (λ c, om_Name (dc_Meta c) = s) l) = 1 ↔ ∃ c, c ∈ l ∧ om_Name (dc_Meta c) = s).
Proof.
  unfold unique_names. induction l as [|x l IH]; intros Hnd; simpl.
  { split; [lia|]. split; [done|]. by intros (c & ?%elem_of_nil & _). }
  cbn in Hnd. apply NoDup_cons in Hnd as [Hx Hnd]. destruct (IH Hnd) as [I1 I2]. rewrite filter_cons. case_decide as Hs.
  - assert (E : filter (λ c, om_Name (dc_Meta c) = s) l = []).
    { apply filter_none. intros c Hc Hcs. apply Hx, list_elem_of_fmap. exists c. by rewrite Hcs, Hs. }
    rewrite E. simpl. split; [lia|]. split; [|done]. intros _. exists x. by split; [apply list_elem_of_here|].
  - split; [done|]. rewrite I2. split; intros (c & Hc & E); exists c; (split; [|done]).
    + by apply list_elem_of_further.
    + apply elem_of_cons in Hc as [->|Hc]; [done|done].
Qed.

(** The count of [ensureDRClustersAvailable] tells whether all clusters are there. *)
Lemma clusters_found_all p l :
  unique_names l →
  length (clusters_found p l) = length (dps_DRClusters (drp_Spec p)) ↔
  ∀ s, s ∈ dps_DRClusters (drp_Spec p) → ∃ c, c ∈ l ∧ om_Name (dc_Meta c) = s.
Proof.
  intros Hu. unfold clusters_found.
  assert (H' : ∀ names, (length (names ≫= λ s, filter (λ c, om_Name (dc_Meta c) = s) l) <= length names)%nat ∧
    (length (names ≫= λ s, filter (λ c, om_Name (dc_Meta c) = s) l) = length names ↔
     ∀ s, s ∈ names → ∃ c, c ∈ l ∧ om_Name (dc_Meta c) = s)).
  { induction names as [|s names [I1 I2]].
    { cbn. split; [lia|]. split; [|done]. by intros _ s ?%elem_of_nil. }
    rewrite bind_cons, length_app. cbn [length]. destruct (named_clusters l s Hu) as [N1 N2]. split; [lia|]. split.
    - intros E s' [->|Hs]%elem_of_cons; [apply N2; lia|apply I2; [lia|done]].
    - intros Hall. assert (E1 : length (filter (λ c, om_Name (dc_Meta c) = s) l) = 1) by (apply N2, Hall, list_elem_of_here).
      assert (E2 : length (names ≫= λ s, filter (λ c, om_Name (dc_Meta c) = s) l) = length names).
      { apply I2. intros s' Hs. by apply Hall, list_elem_of_further. }
      lia. }
  apply H'.
Qed.

Lemma getDRClusterDetails_ok h x : (getDRClusterDetails h).1 = inl x → ∃ t, env_list_drclusters t = inl x.1.
Proof.
  unfold getDRClusterDetails. rewrite run_bind. cbn [tick fst snd].
  destruct (env_list_drclusters (w_tick h)) as [l|e] eqn:E; [|done]. rewrite result_or_return_run.
  destruct (cluster_ids l ∅ _).1 as [ids|e]; [|done]. cbn [fst mret M_ret]. case_bool_decide; [done|].
  intros [= <-]. eauto.
Qed.

Lemma invalid_errs reason what e w : (invalid reason what e w).1 ≠ (no_requeue, None).
Proof. unfold invalid. rewrite run_bind. done. Qed.

(** A reconcile of a policy that is not to be deleted and that ends without an error has
    reported its validity as it is.  Either a cluster of the policy has no DRCluster, and
    its Validated condition is false for that reason; or each has one, at least one of
    them validated, the condition is true, and then the policy has no synchronous next
    to asynchronous peer classes, no conflict with the policies that were listed, and,
    if it maps networks, its network attachments were found on both clusters. *)
Theorem policy_validity_reported_soundly drpolicy w :
  let r := DRPolicy_Reconcile (inl drpolicy) w in
  let o := pw_api_object r.2 in
  (∀ t l, env_list_drclusters t = inl l → unique_names l) →
  ¬ (ResourceIsDeleted (drp_Meta drpolicy) = true ∧ drPolicyFinalizerName ∈ om_Finalizers (drp_Meta drpolicy)) →
  r.1 = (no_requeue, None) →
  ∃ t drclusters ids, env_list_drclusters t = inl drclusters ∧
    let present := ∀ s, s ∈ dps_DRClusters (drp_Spec drpolicy) → ∃ c, c ∈ drclusters ∧ om_Name (dc_Meta c) = s in
    (¬ present ∧ reports o DRPolicyValidated ConditionFalse ReasonDRClusterNotFound) ∨
    (present ∧ (∃ c, c ∈ clusters_found drpolicy drclusters ∧ validated_cluster c = true) ∧ checked o ids).
Proof.
  intros r o Hu Hdel Hn. subst o r. unfold DRPolicy_Reconcile in *. rewrite run_bind in *. cbn [modify fst snd] in *.
  set (w0 := w <| pw_object := drpolicy |> <| pw_api_object := drpolicy |>) in *.
  assert (S0 : settled w0 ∧ pw_object w0 = drpolicy) by done. clearbody w0. rewrite result_or_return_run in *.
  destruct (from_hub ConfigMapGet w0).1 as [cfg|e]; [|by destruct (invalid_errs _ _ _ _ Hn)].
  set (w1 := (from_hub ConfigMapGet w0).2) in *. assert (S1 : settled w1 ∧ pw_object w1 = drpolicy) by exact S0.
  clearbody w1. rewrite or_return_run in *.
  destruct (at_store _ w1).1 as [e|]; [by destruct (invalid_errs _ _ _ _ Hn)|].
  set (w2 := (at_store _ w1).2) in *. assert (S2 : settled w2 ∧ pw_object w2 = drpolicy) by exact S1. clearbody w2.
  rewrite result_or_return_run in *.
  destruct (from_hub getDRClusterDetails w2).1 as [[drclusters ids]|e] eqn:Ed; [|by destruct (invalid_errs _ _ _ _ Hn)].
  apply getDRClusterDetails_ok in Ed as [t Et]. cbn [fst] in Et. exists t, drclusters, ids. split; [done|].
  pose proof (clusters_found_all drpolicy drclusters (Hu _ _ Et)) as Hf. cbv zeta.
  set (w3 := (from_hub getDRClusterDetails w2).2) in *. assert (S3 : settled w3 ∧ pw_object w3 = drpolicy) by exact S2.
  clearbody w3. destruct (ResourceIsDeleted _ && bool_decide _) eqn:Edl; [by bools; destruct Hdel|].
  destruct (validateDRPolicy drpolicy drclusters) as [[reason e]|] eqn:Ev; unfold validateDRPolicy, ensureDRClustersAvailable in Ev.
  - rewrite run_bind in *. destruct (policy_statusConditionSet _ _ _ _ w3).1 eqn:Es; [done|]. cbn [fst snd mret M_ret] in *.
    destruct (policy_statusConditionSet_ok _ _ _ _ w3 ltac:(apply S3) Es) as (S4 & gen & now & O4).
    case_bool_decide as Hr; [done|]. left.
    case_bool_decide; [by simplify_eq|]. case_bool_decide as Hl; [|by case_bool_decide; simplify_eq].
    split; [by rewrite <- Hf|]. unfold settled in S4. rewrite <- S4, O4, Hr. apply with_condition_reports.
  - case_bool_decide; [done|]. case_bool_decide as Hl; [done|]. case_bool_decide as Hv; [done|].
    right. split; [by apply Hf|]. split.
    + destruct (filter (λ c, validated_cluster c = true) (clusters_found drpolicy drclusters)) as [|c l'] eqn:El; [done|].
      exists c. assert (Hc : c ∈ filter (λ c, validated_cluster c = true) (clusters_found drpolicy drclusters))
        by (rewrite El; apply list_elem_of_here). apply list_elem_of_filter in Hc as [? ?]. done.
    + rewrite or_return_run in *.
      destruct (policy_addLabelsAndFinalizers w3).1 eqn:Ea; [by destruct (invalid_errs _ _ _ _ Hn)|].
      destruct (policy_addLabelsAndFinalizers_ok w3 ltac:(apply S3) Ea) as [S4 _].
      destruct (policy_reconcile_ok drclusters cfg ids _ S4 Hn) as (S5 & Hc & _). unfold settled in S5. by rewrite <- S5.
Qed.
End reconcile.

(** ** A concrete policy *)

Module PolicyScene.
Definition validated (c : string) : DRCluster :=
  drcluster c ConditionFalse <| dc_Status ::= λ s, s <| dct_Conditions := [condition DRClusterValidated ConditionTrue] |> |>.

(** A policy of the same clusters, created later. *)
Definition younger : DRPolicy := SecretScene.other <| drp_Meta ::= λ m, m <| om_CreationTimestamp := 1%Z |> |>.

#[export] Instance reads : ClusterReads := {|
  env_ManagedCluster := @env_ManagedCluster FenceScene.reads;
  env_list_drpolicies := λ _, inl [policy "5m"; younger];
  env_list_drclusters := λ _, inl [validated "east"; validated "west"];
  env_read_drcluster := λ _ c, inl (validated c);
  ManagedClusterConditionJoined := "Joined";
|}.
#[export] Instance config : ConfigEnv := {|
  RamenOperatorNamespace := "ramen-system";
  env_operator_config := λ _, inl SecretScene.cfg;
  yaml_Marshal := λ _, inl "";
  env_CreateOrUpdate_addon := λ _ _, None;
|}.
#[export] Instance drpcs : ReconcileEnv := {|
  env_config := λ _, inr (not_found "config");
  env_list_all_drpcs := λ _, inl [];
  env_get_drpc := λ _ d, inl d;
|}.

Definition scene : PolicyWorld :=
  mkPolicyWorld (SecretScene.empty_store <| os_hub ::= λ h, h <| w_views := list_to_map FenceScene.class_views |> |>)
    (policy "5m") (policy "5m").
End PolicyScene.

Section witness.
Import FenceScene SecretScene PolicyScene.

Lemma policy_validity_reported_soundly_witness :
  let o := pw_api_object (@DRPolicy_Reconcile _ _ PolicyScene.reads _ _ PolicyScene.config _ (inl (policy "5m")) scene).2 in
  ∃ t drclusters ids, @env_list_drclusters PolicyScene.reads t = inl drclusters ∧
    let present := ∀ s, s ∈ dps_DRClusters (drp_Spec (policy "5m")) → ∃ c, c ∈ drclusters ∧ om_Name (dc_Meta c) = s in
    (¬ present ∧ reports o DRPolicyValidated ConditionFalse ReasonDRClusterNotFound) ∨
    (present ∧ (∃ c, c ∈ clusters_found (policy "5m") drclusters ∧ validated_cluster c = true) ∧
     @checked PolicyScene.reads o ids).
Proof.
  apply (@policy_validity_reported_soundly _ _ PolicyScene.reads _ _ PolicyScene.config _ (policy "5m") scene).
  - intros t l [= <-]. vm_compute. repeat constructor; set_solver.
  - intros [Hd _]. discriminate Hd.
  - vm_compute. reflexivity.
Defined.
End witness.
