(* ===== verification/DRClusterSpec.v ===== *)
(** * Valid CIDRs, and the end of a DRCluster

    When the CIDRs of a DRCluster pass, and what is gone when its finalizer is removed. *)

From Stdlib Require Import ZArith.
From stdpp Require Import sorting.
From S2P Require Import Prelude Meta Names Cidr Conditions Api PeerClasses PolicyPeers Hub ManifestWorks Views ClassViews.
From S2P Require Import DRClusters Fencing DRPCWorks DRPC HubRecovery ProtectedCondition Conflicts StatusRefresh Reconcile.
From S2P Require Import Scenario FencingSpec FencingLiveness.
From S2P Require Import MaintenanceModes DRClusterDeploy DRClusterReconcile.

(** ** CIDRs *)

Lemma set_List_empty (s : gset string) : set_List s = [] ↔ s = ∅.
Proof.
  unfold set_List. pose proof (merge_sort_Permutation string_le (elements s)) as Hp. split.
  - intros E. rewrite E in Hp. apply Permutation_nil_l in Hp. by apply leibniz_equiv, elements_empty_inv.
  - intros ->. rewrite elements_empty in *. by apply Permutation_nil_r in Hp.
Qed.

Lemma validateCIDRsFormat_None d :
  validateCIDRsFormat d = None ↔ ∀ c, c ∈ dcs_CIDRs (dc_Spec d) → valid_CIDR c = true.
Proof.
  unfold validateCIDRsFormat, invalid_cidrs, errorf. induction (dcs_CIDRs (dc_Spec d)) as [|x l IH].
  - split; [|done]. intros _ c []%elem_of_nil.
  - destruct (valid_CIDR x) eqn:E.
    + rewrite filter_cons_False by congruence. rewrite IH. split.
      * intros Hl c [->|Hc]%elem_of_cons; auto.
      * intros Hl c Hc. apply Hl. by right.
    + rewrite filter_cons_True by done. split; [done|]. intros Hl.
      rewrite (Hl x) in E; [done|by left].
Qed.

Lemma RemoveStatusCondition_find l t : FindCondition (RemoveStatusCondition l t) t = None.
Proof.
  apply find_first_None. intros c [Hc Hin]%list_elem_of_In%filter_In%and_comm.
  by destruct (bool_decide_reflect (cond_Type c = t)); simpl in *; [|apply bool_decide_eq_false].
Qed.

Section cidrs.
Context `{Env} `{ViewCodec}.

(** The status of a DRCluster's condition, if it has one. *)
Definition dc_condition (t : string) (d : DRCluster) : option ConditionStatus :=
  cond_Status <$> FindCondition (dct_Conditions (dc_Status d)) t.

Lemma set_dccondition_status t r s m w :
  dc_condition t (cw_object (set_dccondition t r s m w).2) = Some s.
Proof. unfold dc_condition. destruct (set_dccondition_find t r s m w) as (c & -> & <- & _). done. Qed.

Ltac cidr_condition :=
  unfold setCIDRsValidatedConditionSucceeded, setCIDRsValidatedConditionUndetectedCIDRsFound,
    setCIDRsValidatedConditionDetectedCIDRsUnconfigured, setCIDRsValidatedConditionInvalidFormat;
  apply set_dccondition_status.

(** What the view of the cluster's DRClusterConfig says of the CIDRs its storage uses. *)
Definition cidrs_seen (w : ClusterWorld) : option (gset string) + GoError := (getCIDRSFromDRCC w).1.

Lemma getCIDRS_object w : cw_object (getCIDRSFromDRCC w).2 = cw_object w.
Proof. unfold getCIDRSFromDRCC. by rewrite run_bind. Qed.

Lemma check_cidrs_spec detected configured w :
  let r := (err ← checkDetectedCIDRsConfigured detected configured;
            match err with
            | Some e => mret (Some e)
            | None =>
                undetectedCIDRsFound ← checkUndetectedCIDRsFound detected configured;
                (if (undetectedCIDRsFound : bool) then mret ()
                 else setCIDRsValidatedConditionSucceeded "All detected CIDRs are configured");;
                mret None
            end) w in
  (r.1 = None ↔ detected ⊆ configured) ∧
  dc_condition DRClusterConditionTypeCIDRsValidated (cw_object r.2) =
    Some (if bool_decide (detected ⊆ configured) then ConditionTrue else ConditionFalse).
Proof.
  cbv zeta. rewrite run_bind. unfold checkDetectedCIDRsConfigured, errorf.
  destruct (set_List (detected ∖ configured)) as [|x l] eqn:El.
  - apply set_List_empty in El. assert (Hs : detected ⊆ configured) by set_solver.
    rewrite (bool_decide_eq_true_2 _ Hs). cbn [fst snd mret M_ret]. rewrite run_bind. unfold checkUndetectedCIDRsFound.
    destruct (set_List (configured ∖ detected)) as [|y l'].
    + rewrite run_ret. cbn [fst snd]. rewrite run_bind. cbn [fst snd mret M_ret]. split; [done|].
      cidr_condition.
    + rewrite run_bind, run_ret. cbn [fst snd]. rewrite run_bind, !run_ret. cbn [fst snd]. split; [done|].
      cidr_condition.
  - assert (Hs : ¬ detected ⊆ configured).
    { intros Hs. assert (E : detected ∖ configured = ∅) by set_solver. apply set_List_empty in E. congruence. }
    rewrite (bool_decide_eq_false_2 _ Hs), run_bind. cbn [fst snd mret M_ret]. split; [done|].
    cidr_condition.
Qed.

(** the CIDRs of a DRCluster pass exactly if there are none (and then no condition
    speaks of them), or all are well formed and, as far as the cluster's storage has
    reported the CIDRs it detected, each of these is configured; the CIDRsValidated
    condition is then true, and false if they do not pass for a reason of their own. *)
Theorem cidrs_validated_exactly w :
  let r := validateCIDRs w in
  let cidrs := dcs_CIDRs (dc_Spec (cw_object w)) in
  let status := dc_condition DRClusterConditionTypeCIDRsValidated (cw_object r.2) in
  let well_formed := ∀ c, c ∈ cidrs → valid_CIDR c = true in
  (cidrs = [] → r.1 = None ∧ status = None) ∧
  (cidrs ≠ [] → ¬ well_formed → r.1 ≠ None ∧ status = Some ConditionFalse) ∧
  (cidrs ≠ [] → well_formed →
   match cidrs_seen w with
   | inr e => r.1 = Some e
   | inl None => r.1 = None ∧ cw_object r.2 = cw_object w
   | inl (Some detected) =>
       (r.1 = None ↔ ∀ c, c ∈ detected → c ∈ cidrs) ∧
       (r.1 = None → status = Some ConditionTrue) ∧ (r.1 ≠ None → status = Some ConditionFalse)
   end).
Proof.
  cbv zeta. unfold validateCIDRs. rewrite run_bind. cbn [gets fst snd].
  case_bool_decide as Hl.
  { apply nil_length_inv in Hl as Hl'. rewrite Hl'. split_and!; [|done|done]. intros _. rewrite run_bind. split; [done|].
    unfold dc_condition. simpl. by rewrite RemoveStatusCondition_find. }
  assert (Hne : dcs_CIDRs (dc_Spec (cw_object w)) ≠ []) by (intros E; by rewrite E in Hl).
  destruct (validateCIDRsFormat (cw_object w)) as [e|] eqn:Ef.
  { split_and!; [done| |].
    - intros _ _. rewrite run_bind. split; [done|]. cidr_condition.
    - intros _ Hw. apply validateCIDRsFormat_None in Hw. congruence. }
  pose proof (proj1 (validateCIDRsFormat_None _) Ef) as Hw. split_and!; [done|done|]. intros _ _. rewrite run_bind. unfold cidrs_seen.
  pose proof (getCIDRS_object w) as Eo. destruct (getCIDRSFromDRCC w) as [[[detected|]|e] w1]; cbn [fst snd] in *; [|done..].
  destruct (check_cidrs_spec detected (list_to_set (dcs_CIDRs (dc_Spec (cw_object w)))) w1) as [Hr Hs].
  assert (Hsub : detected ⊆ list_to_set (dcs_CIDRs (dc_Spec (cw_object w))) ↔
                 ∀ c, c ∈ detected → c ∈ dcs_CIDRs (dc_Spec (cw_object w))) by set_solver.
  rewrite Hr, Hsub in *. rewrite Hs. split; [done|]. rewrite !(bool_decide_ext _ _ Hsub).
  by split; [intros Hd; rewrite bool_decide_eq_true_2|intros Hd; rewrite bool_decide_eq_false_2].
Qed.
End cidrs.

(** ** Release *)

(** The API server's DRCluster is untouched and no ManifestWork is added. *)
Definition winds_down (w w' : ClusterWorld) : Prop :=
  cw_api_object w' = cw_api_object w ∧ fewer_works (cw_hub w) (cw_hub w').
#[export] Instance winds_down_preorder : PreOrder winds_down.
Proof.
  split; [intros w; split; [done|reflexivity]|]. intros u v w [E1 ?] [E2 ?]. split; [congruence|by etransitivity].
Qed.

Lemma on_hub_winds_down {A} (m : Op A) : preserves fewer_works m → preserves winds_down (on_hub m).
Proof. intros Hm w. split; [done|]. apply Hm. Qed.

Section undeploy.
Context `{Env} `{ViewCodec} `{ClusterReads} `{FenceApi}.

Lemma works_fewer {A} (m : Op A) : preserves same_works m → preserves fewer_works m.
Proof. apply preserves_mono, same_works_fewer. Qed.

Lemma DeleteManagedClusterView_works c n : preserves same_works (DeleteManagedClusterView c n).
Proof.
  unfold DeleteManagedClusterView. apply preserves_bind; [apply _|apply Get_mcv_works|].
  intros [v|e]; [apply Delete_mcv_works|]. destruct (IsNotFound e); works.
Qed.

Lemma deleteViewsForClasses_works c : preserves same_works (deleteViewsForClasses c).
Proof.
  assert (Hp : ∀ l c ns, preserves same_works (pruneViews (λ c, listMCVsWithLabel c l) c ns)).
  { intros. apply pruneViews_works. intro. apply list_mcvs_works. }
  unfold deleteViewsForClasses.
  repeat (apply preserves_bind; [apply _|apply Hp|intros [e|]; [works|]]). apply Hp.
Qed.

Lemma list_modes_works c : preserves same_works (ListMModeManifests c).
Proof. unfold ListMModeManifests. works. Qed.

Lemma delete_mode_works_fewer mws : preserves fewer_works (delete_mode_works mws).
Proof.
  induction mws as [|mw mws IH]; simpl; [apply preserves_ret; apply _|].
  apply preserves_bind; [apply _|apply DeleteManifestWork_fewer|].
  intros [e|]; [apply preserves_ret; apply _|done].
Qed.

Lemma delete_mode_views_works c vs : preserves same_works (delete_mode_views c vs).
Proof.
  induction vs as [|v vs IH]; simpl; [works|].
  apply preserves_bind; [apply _|apply DeleteManagedClusterView_works|intros [e|]; [works|done]].
Qed.

Lemma modeCleanup_fewer d : preserves fewer_works (drClusterMModeCleanup d).
Proof.
  apply preserves_bind; [apply _|apply works_fewer, list_modes_works|].
  intros [mws|e]; [|apply preserves_ret; apply _].
  apply preserves_bind; [apply _|apply delete_mode_works_fewer|].
  intros [e|]; [apply preserves_ret; apply _|].
  apply preserves_bind; [apply _|apply works_fewer, list_mcvs_works|].
  intros [vs|e]; [apply works_fewer, delete_mode_views_works|apply preserves_ret; apply _].
Qed.

Lemma FindManifestWork_works n c : preserves same_works (FindManifestWork n c).
Proof. unfold FindManifestWork, Get_mw. works. Qed.

(** The policies, as the reconcile finds them in [h], do not have the cluster. *)
Definition unreferenced (h : World) (name : string) : Prop :=
  ∃ policies, env_list_drpolicies (w_tick h) = inl policies ∧
    ∀ p, p ∈ policies → name ∉ DRPolicyClusterNames p.

Lemma drClusterUndeploy_fewer d : preserves fewer_works (drClusterUndeploy d).
Proof.
  unfold drClusterUndeploy. apply preserves_bind; [apply _|apply works_fewer, tick_works|]. intros t.
  destruct (env_list_drpolicies t) as [ps|e]; [|apply preserves_ret; apply _].
  case_bool_decide; [apply preserves_ret; apply _|].
  apply preserves_bind; [apply _|apply works_fewer, deleteViewsForClasses_works|].
  intros [e|]; [apply preserves_ret; apply _|].
  apply preserves_bind; [apply _|apply works_fewer, DeleteManagedClusterView_works|].
  intros [e|]; [apply preserves_ret; apply _|].
  apply preserves_bind; [apply _|apply DeleteManifestWork_fewer|].
  intros [e|]; [apply preserves_ret; apply _|].
  apply preserves_bind; [apply _|apply works_fewer, FindManifestWork_works|].
  intros [mw|e]; [apply preserves_ret; apply _|].
  apply preserves_bind; [apply _|apply modeCleanup_fewer|].
  intros [e'|]; [apply preserves_ret; apply _|].
  apply preserves_bind; [apply _|apply DeleteManifestWork_fewer|intro; apply preserves_ret; apply _].
Qed.

(** The works that a DRCluster's own reconcile keeps on the cluster are gone or being
    deleted; that of the DRClusterConfig is gone, as long as no API call fails. *)
Definition works_released (name : string) (h : World) : Prop :=
  ¬ work_lives h (name, BuildManifestWorkName name "" MWTypeDRCConfig) ∧
  ¬ work_lives h (name, DrClusterManifestWorkName) ∧
  ((∀ t, env_api_err t = None) → w_mws h !! (name, BuildManifestWorkName name "" MWTypeDRCConfig) = None).

Lemma works_released_fewer name h h' : fewer_works h h' → works_released name h → works_released name h'.
Proof. intros [Hl Hn] (?&?&?). split_and!; auto. Qed.

Lemma FindManifestWork_absent n c h e :
  c ≠ "" → (∀ t, env_api_err t = None) → (FindManifestWork n c h).1 = inr e →
  w_mws (FindManifestWork n c h).2 !! (c, n) = None.
Proof.
  intros Hc Ha. unfold FindManifestWork, Get_mw. rewrite bool_decide_eq_false_2 by done.
  rewrite !run_bind, api_err_run. simpl. rewrite Ha. simpl. destruct (w_mws h !! (c, n)) eqn:E; [done|]. by intros _.
Qed.

Lemma drClusterUndeploy_unreferenced d h :
  (drClusterUndeploy d h).1 = None → unreferenced h (om_Name (dc_Meta d)).
Proof.
  unfold drClusterUndeploy. rewrite run_bind. cbn [tick fst snd].
  destruct (env_list_drpolicies (w_tick h)) as [ps|e] eqn:Ep; [|done]. case_bool_decide as Hin; [done|]. intros _.
  exists ps. split; [done|]. intros p Hp Hn. apply Hin, list_elem_of_bind. by exists p.
Qed.

Lemma drClusterUndeploy_done d h :
  let name := om_Name (dc_Meta d) in
  name ≠ "" → honest_errors → (drClusterUndeploy d h).1 = None →
  unreferenced h name ∧ works_released name (drClusterUndeploy d h).2.
Proof.
  intros name Hname Hh Hr. split; [by apply drClusterUndeploy_unreferenced|]. revert Hr.
  unfold drClusterUndeploy. fold name. rewrite run_bind. cbn [tick fst snd].
  destruct (env_list_drpolicies (w_tick h)) as [ps|e] eqn:Ep; [|done].
  case_bool_decide as Hin; [done|]. rewrite run_bind.
  destruct (deleteViewsForClasses name _) as [[e|] h1]; [done|]. cbn [fst snd]. rewrite run_bind.
  destruct (DeleteDRClusterConfigManagedClusterView name h1) as [[e|] h2]; [done|]. cbn [fst snd]. rewrite run_bind.
  pose proof (DeleteManifestWork_gone (BuildManifestWorkName name "" MWTypeDRCConfig) name h2 Hh) as Hg1.
  destruct (DeleteManifestWork _ name h2) as [[e|] h3]; [done|]. cbn [fst snd] in *. rewrite run_bind.
  pose proof (FindManifestWork_works (BuildManifestWorkName name "" MWTypeDRCConfig) name h3) as Hf1%same_works_fewer.
  pose proof (FindManifestWork_absent (BuildManifestWorkName name "" MWTypeDRCConfig) name h3) as Habs.
  destruct (FindManifestWork _ name h3) as [[mw|e] h4]; [done|]. cbn [fst snd] in *. rewrite run_bind.
  pose proof (modeCleanup_fewer d h4) as Hf2.
  destruct (drClusterMModeCleanup d h4) as [[e'|] h5]; [done|]. cbn [fst snd] in *. rewrite run_bind.
  pose proof (DeleteManifestWork_gone DrClusterManifestWorkName name h5 Hh) as Hg2.
  pose proof (DeleteManifestWork_fewer DrClusterManifestWorkName name h5) as Hf3.
  destruct (DeleteManifestWork _ name h5) as [[e'|] h6]; cbn [fst snd mret M_ret] in *; [done|]. intros _.
  assert (Hf : fewer_works h4 h6) by (by etransitivity). split_and!.
  - apply (proj1 Hf), (proj1 Hf1). by apply Hg1.
  - by apply Hg2.
  - intros Ha. apply (proj2 Hf). by apply (Habs e).
Qed.

Lemma set_fence_winds_down r f c m : preserves winds_down (set_fence r f c m).
Proof. intros w. split; [done|]. apply same_works_fewer, (set_fence_same r f c m w). Qed.

Lemma peer_of_object_winds_down : preserves winds_down peer_of_object.
Proof.
  apply preserves_bind; [apply _|apply on_hub_winds_down, works_fewer|].
  { unfold GetAllDRPolicies. works. }
  intros [ps|e]; [|apply preserves_ret; apply _].
  apply preserves_bind; [apply _|apply preserves_gets; apply _|intros o].
  apply preserves_bind; [apply _| |intro; apply preserves_ret; apply _].
  intros w. split; [done|]. destruct (getPeerCluster_spec ps o (cw_hub w)) as [[n E] _].
  rewrite on_hub_run. cbn [snd cw_hub upd_field]. rewrite E. by apply same_works_fewer.
Qed.

Lemma removeFencingCR_winds_down c : preserves winds_down (removeFencingCR c).
Proof.
  apply preserves_bind; [apply _|apply on_hub_winds_down, works_fewer, getNFClasses_works|].
  intros [cs|e]; [|apply preserves_ret; apply _].
  apply preserves_bind; [apply _|apply preserves_gets; apply _|intros name].
  apply preserves_bind; [apply _|apply on_hub_winds_down, delete_nf_works_fewer|intro; apply preserves_ret; apply _].
Qed.

Lemma cleanClusters_winds_down cs : preserves winds_down (cleanClusters cs).
Proof.
  apply preserves_bind; [apply _| |].
  - generalize false, 0%nat. induction cs as [|c cs IH]; intros b n; simpl; [apply preserves_ret; apply _|].
    apply preserves_bind; [apply _|apply removeFencingCR_winds_down|]. intros [[] [e|]]; apply IH.
  - intros [b n]. apply preserves_bind; [apply _| |intro; apply preserves_ret; apply _].
    unfold setDRClusterCleanCondition, setDRClusterCleaningCondition. case_bool_decide; apply set_fence_winds_down.
Qed.
End undeploy.

Section release.
Context `{Env} `{ViewCodec} `{ClusterReads} `{FenceApi}.

Definition has_finalizer (w : ClusterWorld) : Prop :=
  drClusterFinalizerName ∈ om_Finalizers (dc_Meta (cw_api_object w)).

Definition fence_asked (d : DRCluster) : Prop :=
  dcs_ClusterFence (dc_Spec d) = ClusterFenceStateFenced ∨ dcs_ClusterFence (dc_Spec d) = ClusterFenceStateUnfenced.

Lemma handleDeletion_winds_down : preserves winds_down handleDeletion.
Proof.
  intros w. unfold handleDeletion. rewrite run_bind. pose proof (peer_of_object_winds_down w) as Hw.
  destruct (peer_of_object w) as [[peer|e] w1]; cbn [fst snd] in *; [|done].
  rewrite run_bind. cbn [gets fst snd]. etransitivity; [exact Hw|]. apply cleanClusters_winds_down.
Qed.

Lemma finalizerRemove_hub w : w_mws (cw_hub (finalizerRemove w).2) = w_mws (cw_hub w).
Proof.
  unfold finalizerRemove, update_resource. rewrite run_bind. cbn [gets fst snd]. rewrite run_bind.
  destruct (ru_objModified (ru_RemoveFinalizer _ _)); [|done]. unfold Update_drcluster. rewrite run_bind, on_hub_run, api_err_run. simpl.
  by destruct (env_api_err _).
Qed.

(** C22: a DRCluster goes only when nothing needs it. A reconcile of a DRCluster being
    deleted removes its finalizer only if the DRPolicies it listed do not have the
    cluster, and the ManifestWorks of its DRClusterConfig and of its operator are gone
    or being deleted; the DRClusterConfig's is gone from the server, as long as no API
    call fails. Calls that fail never report "not found". *)
Theorem drcluster_released_clean w :
  let w' := (processDeletion w).2 in
  let name := om_Name (dc_Meta (cw_object w)) in
  name ≠ "" → honest_errors → has_finalizer w → ¬ has_finalizer w' →
  unreferenced (cw_hub w) name ∧ works_released name (cw_hub w').
Proof.
  cbv zeta. intros Hname Hh Hf. unfold processDeletion. rewrite run_bind. cbn [gets fst snd]. rewrite run_bind.
  pose proof (on_hub_winds_down _ (drClusterUndeploy_fewer (cw_object w)) w) as Hw1.
  pose proof (drClusterUndeploy_done (cw_object w) (cw_hub w) Hname Hh) as Hd.
  change ((drClusterUndeploy (cw_object w) (cw_hub w)).1) with ((on_hub (drClusterUndeploy (cw_object w)) w).1) in Hd.
  change ((drClusterUndeploy (cw_object w) (cw_hub w)).2) with (cw_hub (on_hub (drClusterUndeploy (cw_object w)) w).2) in Hd.
  destruct (on_hub (drClusterUndeploy (cw_object w)) w) as [[e|] w1]; cbn [fst snd] in *.
  { intros Hn. exfalso. apply Hn. unfold has_finalizer. cbn [mret M_ret snd]. by rewrite (proj1 Hw1). }
  destruct (Hd eq_refl) as [Hun Hno]. clear Hd. rewrite run_bind.
  match goal with |- context [(if ?b then ?m else ?n) w1] => set (fenced := b); set (clean := m); set (none := n) end.
  assert (Hw2 : winds_down w1 ((if fenced then clean else none) w1).2).
  { destruct fenced; [|reflexivity]. unfold clean. rewrite run_bind. pose proof (handleDeletion_winds_down w1) as Hw.
    by destruct (handleDeletion w1) as [[[] [e|]] w2]. }
  destruct ((if fenced then clean else none) w1) as [stop w2]. cbn [fst snd] in *. destruct stop as [r|].
  { intros Hn. exfalso. apply Hn. change (has_finalizer w2). unfold has_finalizer.
    by rewrite (proj1 Hw2), (proj1 Hw1). }
  intros _. rewrite run_bind. cbn [mret M_ret snd]. split; [done|].
  eapply works_released_fewer; [apply same_works_fewer, finalizerRemove_hub|].
  eapply works_released_fewer; [apply Hw2|done].
Qed.

Lemma getPeerCluster_none ps d h :
  (∀ p, p ∈ ps → om_Name (dc_Meta d) ∉ DRPolicyClusterNames p) → ∃ e, (getPeerCluster ps d h).1 = inr e.
Proof.
  induction ps as [|p ps IH]; intros Hn; simpl; [by eexists|].
  rewrite bool_decide_eq_false_2 by (apply Hn; by left). apply IH. intros q Hq. apply Hn. by right.
Qed.

(** a DRCluster that is asked to be fenced or unfenced cannot be deleted.  While the
    policies do not change, its reconcile never removes its finalizer: the first step of
    the deletion requires that no policy has the cluster, the cleanup of its fences that
    one does. *)
Theorem fenced_drcluster_stays w policies :
  let w' := (processDeletion w).2 in
  (∀ t, env_list_drpolicies t = inl policies) → fence_asked (cw_object w) →
  has_finalizer w → has_finalizer w'.
Proof.
  cbv zeta. intros Hps Ha Hf. unfold processDeletion. rewrite run_bind. cbn [gets fst snd]. rewrite run_bind.
  pose proof (on_hub_winds_down _ (drClusterUndeploy_fewer (cw_object w)) w) as Hw1.
  pose proof (drClusterUndeploy_unreferenced (cw_object w) (cw_hub w)) as Hd.
  change ((drClusterUndeploy (cw_object w) (cw_hub w)).1) with ((on_hub (drClusterUndeploy (cw_object w)) w).1) in Hd.
  assert (Eo : cw_object (on_hub (drClusterUndeploy (cw_object w)) w).2 = cw_object w) by done.
  destruct (on_hub (drClusterUndeploy (cw_object w)) w) as [[e|] w1]; cbn [fst snd] in *;
    [unfold has_finalizer; cbn [mret M_ret snd]; by rewrite (proj1 Hw1)|].
  destruct (Hd eq_refl) as (ps & Et & Hn). rewrite Hps in Et. injection Et as <-.
  assert (Eb : bool_decide (dcs_ClusterFence (dc_Spec (cw_object w)) = ClusterFenceStateFenced) ||
               bool_decide (dcs_ClusterFence (dc_Spec (cw_object w)) = ClusterFenceStateUnfenced) = true).
  { destruct Ha as [-> | ->]; done. }
  rewrite Eb, !run_bind. pose proof (handleDeletion_winds_down w1) as Hw2.
  assert (He : ∃ e, (handleDeletion w1).1 = (true, Some e)).
  { unfold handleDeletion, peer_of_object, GetAllDRPolicies. rewrite !run_bind, on_hub_run, run_bind. cbn [tick fst snd mret M_ret].
    rewrite Hps, run_bind. cbn [gets fst snd]. rewrite run_bind, on_hub_run. cbn [fst snd].
    match goal with |- context [getPeerCluster ?a ?b ?c] =>
      destruct (getPeerCluster_none a b c) as [e ->] end; [|by eexists].
    intros p Hp. simpl. rewrite Eo. by apply Hn. }
  destruct He as [e He]. destruct (handleDeletion w1) as [r w2]. cbn [fst snd] in *. subst r. cbn [mret M_ret fst snd].
  unfold has_finalizer. by rewrite (proj1 Hw2), (proj1 Hw1).
Qed.
End release.

Section witness.
Import FenceScene.

(** A hub without policies, and east, which is to go. *)
Definition alone : ClusterReads := {|
  env_ManagedCluster := λ _ c, inl (mkManagedCluster c [condition "Joined" ConditionTrue] [("id.k8s.io", c)]);
  env_list_drpolicies := λ _, inl [];
  env_list_drclusters := λ _, inl [];
  env_read_drcluster := λ _ c, inl (drcluster c ConditionFalse);
  ManagedClusterConditionJoined := "Joined";
|}.
Definition going (fence : ClusterFenceState) : ClusterWorld :=
  scene (east fence Available <| dc_Meta ::= λ m, m <| om_Finalizers := [drClusterFinalizerName] |> |>) [].

(** East's DRClusterConfig and operator are still there; the operator's work has a
    finalizer. *)
Definition deployed : ClusterWorld :=
  let w := going ClusterFenceStateUnset in
  let work n fs := mkManifestWork (named_meta n "east" <| om_Finalizers := fs |>) (mkManifestWorkSpec [] None) [] in
  w <| cw_hub ::= λ h, h <| w_mws := list_to_map (map (λ mw, ((om_Namespace (mw_Meta mw), om_Name (mw_Meta mw)), mw))
    [work (BuildManifestWorkName "east" "" MWTypeDRCConfig) [];
     work DrClusterManifestWorkName ["cluster.open-cluster-management.io/manifest-work-cleanup"]]) |> |>.

Lemma drcluster_released_clean_witness :
  let w' := (@processDeletion _ _ alone deployed).2 in
  @unreferenced alone (cw_hub deployed) "east" ∧ works_released "east" (cw_hub w') ∧
  is_Some (w_mws (cw_hub w') !! ("east", DrClusterManifestWorkName)).
Proof.
  cbv zeta.
  destruct (@drcluster_released_clean _ _ alone deployed) as (Hu & Hw);
    [done|done|by apply list_elem_of_here| |split_and!; [done|done|eexists; vm_compute; reflexivity]].
  unfold has_finalizer. replace (om_Finalizers _) with (@nil string) by (vm_compute; reflexivity).
  apply not_elem_of_nil.
Defined.

Lemma fenced_drcluster_stays_witness :
  has_finalizer (@processDeletion _ _ alone (going ClusterFenceStateFenced)).2.
Proof.
  apply (@fenced_drcluster_stays _ _ alone (going ClusterFenceStateFenced) []); [done|by left|].
  by apply list_elem_of_here.
Defined.
End witness.
