(* ===== verification/ModesSpec.v ===== *)
(** * Maintenance modes, reported and withdrawn

    A DRCluster reports a maintenance mode activated, on which a regional failover
    relies, only if a view shows it; and the ManifestWork of a mode goes only when no
    DRPC that is failing over to the cluster needs it. *)

From Stdlib Require Import ZArith.
From S2P Require Import Prelude Meta Names Conditions Api PeerClasses PolicyPeers Hub ManifestWorks Views ClassViews.
From S2P Require Import DRClusters DRPC HubRecovery Conflicts StatusRefresh Reconcile Scenario FencingSpec.
From S2P Require Import Frames RecoverySpec ReconcileSpec FencingLiveness MaintenanceModes DRClusterSpec.

Section modes.
Context `{Env} `{ViewCodec} `{ClusterReads} `{HubReads} `{ReconcileEnv} `{ModeReads}.

(** ** What is reported *)

(** A maintenance mode view of [cluster] on hub [h] shows the mode as reported. *)
Definition view_shows (h : World) (cluster : string) (m : ClusterMaintenanceMode) : Prop :=
  ∃ k v mode, w_views h !! k = Some v ∧ in_namespace cluster (mcv_Meta v) = true ∧
    HasLabelWithValue (mcv_Meta v) MModesLabel "" = true ∧ GetResource json_MaintenanceMode v = inl mode ∧
    cmm_StorageProvisioner m = mms_StorageProvisioner (mm_Spec mode) ∧
    cmm_TargetID m = mms_TargetID (mm_Spec mode) ∧ cmm_Conditions m = mmt_Conditions (mm_Status mode).

Definition reported (h : World) (cluster : string) (m : ClusterMaintenanceMode) : Prop :=
  cmm_Conditions m = [] ∨ view_shows h cluster m.

Definition modes_of (w : ClusterWorld) : list ClusterMaintenanceMode :=
  dct_MaintenanceModes (dc_Status (cw_object w)).

Lemma set_requeue_object w : cw_object (set_requeue w).2 = cw_object w.
Proof. done. Qed.

Lemma requeue_on_err_object {A} (err : option A) w :
  cw_object ((match err with Some _ => set_requeue | None => mret () end : COp unit) w).2 = cw_object w.
Proof. by destruct err. Qed.

Lemma pruneMModeMCV_spec v survivors w :
  let r := pruneMModeMCV v survivors w in
  cw_object r.2 = cw_object w ∧
  ∀ m, r.1 = Some (Some m) → GetResource json_MaintenanceMode v = inl m.
Proof.
  unfold pruneMModeMCV. destruct (GetResource json_MaintenanceMode v) as [m|e]; [by split; [|intros ? [= ->]]|].
  destruct (negb (IsNotFound e)); [done|]. destruct (ClusterScopedResourceNameFromMCVName _) as [key|]; [|done].
  destruct (survivors !! key); [done|]. destruct (ResourceIsDeleted _); [done|].
  rewrite !run_bind, on_hub_run. cbn [fst snd gets mret M_ret]. by rewrite requeue_on_err_object.
Qed.

Lemma report_modes_sound h cluster vs survivors w :
  (∀ v, v ∈ vs → ∃ k, w_views h !! k = Some v ∧ in_namespace cluster (mcv_Meta v) = true ∧
     HasLabelWithValue (mcv_Meta v) MModesLabel "" = true) →
  Forall (reported h cluster) (modes_of w) →
  Forall (reported h cluster) (modes_of (report_modes vs survivors w).2).
Proof.
  revert w. induction vs as [|v vs IH]; intros w Hv Hw; simpl; [done|]. rewrite run_bind.
  destruct (pruneMModeMCV_spec v survivors w) as [Eo Hs].
  destruct (pruneMModeMCV v survivors w) as [[shown|] w1]; cbn [fst snd] in *;
    [|unfold modes_of in *; cbn [mret M_ret snd]; by rewrite Eo].
  destruct (mode_status v survivors shown) as [[m|]|] eqn:Em.
  - rewrite run_bind. apply IH; [intros; apply Hv; by right|]. unfold modes_of in *. simpl. rewrite Eo.
    apply Forall_app. split; [done|]. apply Forall_singleton. revert Em. unfold mode_status.
    destruct shown as [mode|].
    + intros [= <-]. right. destruct (Hv v) as (k & Hk & Hn & Hl); [by left|].
      exists k, v, mode. by specialize (Hs mode eq_refl).
    + destruct (ClusterScopedResourceNameFromMCVName _) as [key|]; [|done].
      destruct (survivors !! key) as [mw|]; [|done].
      destruct (ExtractMModeFromManifestWork mw) as [[mode|]|e]; [|done..]. intros [= <-]. by left.
  - apply IH; [intros; apply Hv; by right|]. unfold modes_of in *. by rewrite Eo.
  - unfold modes_of in *. cbn [mret M_ret snd]. by rewrite Eo.
Qed.

Lemma activation_has_condition l si a :
  checkActivationForStorageIdentifier l si a = true →
  ∃ m c, m ∈ l ∧ cmm_StorageProvisioner m = si_StorageProvisioner si ∧
    cmm_TargetID m = idf_ID (si_ReplicationID si) ∧
    c ∈ cmm_Conditions m ∧ cond_Type c = a ∧ cond_Status c = ConditionTrue.
Proof.
  unfold checkActivationForStorageIdentifier.
  destruct (find_first _ l) as [m|] eqn:Em; [|done]. apply find_first_Some in Em as [Hm Hk].
  destruct (find_first _ (cmm_Conditions m)) as [c|] eqn:Ec; [|done]. apply find_first_Some in Ec as [Hc Ht].
  intros Hs. apply andb_true_iff in Hk as [??]. bools. by exists m, c.
Qed.

Lemma list_mcvs_views ns l h vs :
  (listMCVsWithLabel ns l h).1 = inl vs →
  w_views (listMCVsWithLabel ns l h).2 = w_views h ∧
  ∀ v, v ∈ vs → ∃ k, w_views h !! k = Some v ∧ in_namespace ns (mcv_Meta v) = true ∧
    HasLabelWithValue (mcv_Meta v) l "" = true.
Proof.
  unfold listMCVsWithLabel. rewrite run_bind, api_err_run. simpl. destruct (env_api_err _); [done|].
  intros [= <-]. split; [done|]. intros v [Hp Hin]%list_elem_of_filter. apply andb_true_iff in Hp as [??].
  apply list_elem_of_fmap in Hin as ([k u] & -> & Hk%elem_of_map_to_list). by exists k.
Qed.

(** C21: an activation is reported only if it is seen.  If, after a reconcile has brought
    the maintenance modes of a DRCluster up to date, the failover prerequisites of some
    storage read as activated from them, then a view of the cluster shows the
    maintenance mode of that storage with its activation condition true. *)
Theorem activation_reported_soundly survivors w si :
  let w1 := (createMModeMCV survivors w).2 in
  let w' := (updateMModeActivationStatus survivors w).2 in
  (createMModeMCV survivors w).1 = Some () →
  checkActivationForStorageIdentifier (modes_of w') si MModeConditionFailoverActivated = true →
  ∃ m c, view_shows (cw_hub w1) (object_name w1) m ∧ cmm_StorageProvisioner m = si_StorageProvisioner si ∧
    cmm_TargetID m = idf_ID (si_ReplicationID si) ∧
    c ∈ cmm_Conditions m ∧ cond_Type c = MModeConditionFailoverActivated ∧ cond_Status c = ConditionTrue.
Proof.
  cbv zeta. intros Hc Ha. apply activation_has_condition in Ha as (m & c & Hm & ? & ? & Hin & ? & ?).
  exists m, c. split_and!; try done. revert Hm. unfold updateMModeActivationStatus. rewrite run_bind.
  destruct (createMModeMCV survivors w) as [r w1]. cbn [fst snd] in *. subst r. rewrite run_bind. cbn [gets fst snd].
  rewrite run_bind, on_hub_run. cbn [fst snd]. unfold ListMModesMCVs.
  pose proof (list_mcvs_views (object_name w1) MModesLabel (cw_hub w1)) as Hl.
  destruct (listMCVsWithLabel _ _ (cw_hub w1)) as [[vs|e] h1]; cbn [fst snd] in *; rewrite !run_bind; [|by intros []%elem_of_nil].
  destruct (Hl vs eq_refl) as [_ Hv]. intros Hm.
  eapply Forall_forall in Hm; [|apply (report_modes_sound (cw_hub w1) (object_name w1)); [exact Hv|by apply Forall_nil]].
  destruct Hm as [E|?]; [|done]. rewrite E in Hin. by apply elem_of_nil in Hin.
Qed.
End modes.

(** ** What is withdrawn *)

(** [J] holds of every key whose ManifestWork goes, or is asked to go. *)
Definition withdraws (J : string * string → Prop) (w w' : ClusterWorld) : Prop :=
  cw_object w' = cw_object w ∧
  ∀ k, work_lives (cw_hub w) k → ¬ work_lives (cw_hub w') k → J k.

#[export] Instance withdraws_preorder J : PreOrder (withdraws J).
Proof.
  split.
  - intros w. split; [done|]. by intros k.
  - intros u v w [E1 H1] [E2 H2]. split; [congruence|]. intros k Hk Hn.
    destruct (decide (work_lives (cw_hub v) k)); auto.
Qed.

Section withdrawal.
Context `{Env} `{ViewCodec} `{ClusterReads} `{HubReads} `{ReconcileEnv} `{ModeReads}.
Context (J : string * string → Prop).

Lemma same_works_withdraws {A} (m : Op A) : preserves same_works m → preserves (withdraws J) (on_hub m).
Proof. intros Hm w. split; [done|]. intros k Hk Hn. destruct Hn. unfold work_lives in *. simpl. by rewrite (Hm (cw_hub w)). Qed.

Lemma set_requeue_withdraws : preserves (withdraws J) set_requeue.
Proof. intros w. split; [done|]. by intros k Hk []. Qed.

Lemma GetDRClusters_works p : preserves same_works (GetDRClusters p).
Proof.
  unfold GetDRClusters. induction (DRPolicyClusterNames p) as [|n ns IH]; simpl; [works|].
  apply preserves_bind; [apply _|apply tick_works|]. intros t.
  destruct (env_get_drcluster t n); [|works]. apply preserves_bind; [apply _|exact IH|intro; works].
Qed.

Lemma selectVRGNamespace_works d p : preserves same_works (selectVRGNamespace d p).
Proof. unfold selectVRGNamespace, getApplicationDestinationNamespace. works. Qed.

Lemma getVRGs_works d : preserves same_works (getVRGs d).
Proof.
  unfold getVRGs, placement_of, getVRGsFromManagedClusters.
  apply preserves_bind; [apply _|apply GetDRClusters_works|]. intros [cs|e]; [|works].
  apply preserves_bind; [apply _|works|]. intros [p|e]; [|works].
  apply preserves_bind; [apply _|apply selectVRGNamespace_works|]. intros [ns|e]; [|works].
  apply preserves_bind; [apply _| |intro; works].
  apply preserves_bind; [apply _| |intro; works].
  generalize (mkGathered ∅ 0 ""). induction cs as [|c cs IH]; intros g; simpl; [works|].
  apply preserves_bind; [apply _|unfold GetVRGFromManagedCluster; works|]. intros r. apply IH.
Qed.

Lemma failing_over_works ps c found : preserves same_works (failing_over_by_policy ps c found).
Proof.
  revert found. induction ps as [|p ps IH]; intros found; simpl; [works|].
  destruct (negb _); [apply IH|]. apply preserves_bind; [apply _|apply GetDRClusters_works|].
  intros [cs|e]; [|works]. case_bool_decide; [works|].
  destruct (dRPolicySupportsMetro p None) as [[[] names] [e|]]; [works..|].
  apply preserves_bind; [apply _|unfold DRPCsFailingOverToClusterForPolicy; works|]. intros [found'|e]; [apply IH|works].
Qed.

Lemma DRPCsFailingOver_works c : preserves same_works (DRPCsFailingOverToCluster c).
Proof.
  unfold DRPCsFailingOverToCluster. apply preserves_bind; [apply _|apply tick_works|].
  intros t. destruct (env_list_drpolicies t); [apply failing_over_works|works].
Qed.

Lemma requires_works ps n ns vrgs c : preserves same_works (requiresRegionalFailoverPrerequisites ps n ns vrgs c).
Proof.
  unfold requiresRegionalFailoverPrerequisites, lastKnownPrimary, getLastKnownPrimaryVRG, range_map.
  apply preserves_bind; [apply _| |intro; works]. apply preserves_bind; [apply _|works|].
  intros [v|]; [works|]. unfold GetLastKnownVRGPrimaryFromS3. generalize (@None VolumeReplicationGroup).
  induction ps as [|p ps IH]; intros latest; simpl; [works|].
  apply preserves_bind; [apply _|apply tick_works|]. intros t. apply IH.
Qed.

Lemma modes_of_drpcs_withdraws l acc : preserves (withdraws J) (modes_of_drpcs l acc).
Proof.
  revert acc. induction l as [|d l IH]; intros acc; simpl; [apply preserves_ret; apply _|].
  apply preserves_bind; [apply _| |intros [[?|]|e]; [apply IH|apply IH|apply preserves_ret; apply _]].
  apply preserves_bind; [apply _|apply same_works_withdraws, getVRGs_works|]. intros [vrgs|e].
  2:{ apply preserves_bind; [apply _|apply set_requeue_withdraws|intro; apply preserves_ret; apply _]. }
  apply preserves_bind; [apply _|apply same_works_withdraws; unfold placement_of; works|].
  intros [p|e]; [|apply preserves_ret; apply _].
  apply preserves_bind; [apply _|apply same_works_withdraws, selectVRGNamespace_works|].
  intros [ns|e]; [|apply preserves_ret; apply _].
  apply preserves_bind; [apply _|apply preserves_gets; apply _|intros o].
  apply preserves_bind; [apply _|apply same_works_withdraws, requires_works|intro; apply preserves_ret; apply _].
Qed.

Lemma required_withdraws : preserves (withdraws J) mModeActivationsRequired.
Proof.
  apply preserves_bind; [apply _|apply preserves_gets; apply _|intros name].
  apply preserves_bind; [apply _|apply same_works_withdraws, DRPCsFailingOver_works|].
  intros [l|e]; [apply modes_of_drpcs_withdraws|].
  apply preserves_bind; [apply _|apply set_requeue_withdraws|intro; apply preserves_ret; apply _].
Qed.

Lemma on_hub_drops {A} (m : Op A) : preserves (drops (λ _, False)) m → preserves (withdraws J) (on_hub m).
Proof. intros Hm w. split; [done|]. intros k Hk Hn. by destruct (proj2 (Hm (cw_hub w)) k Hk Hn). Qed.

Lemma activate_withdraws si : preserves (withdraws J) (activateRegionalFailoverPrequisite si).
Proof.
  apply preserves_bind; [apply _|apply preserves_gets; apply _|intros name].
  apply on_hub_drops, preserves_bind; [apply _|apply createOrUpdateManifestWork_drops|].
  intro. apply preserves_ret. apply _.
Qed.

Lemma activate_all_withdraws l : preserves (withdraws J) (activate_all l).
Proof.
  induction l as [|[k si] l IH]; simpl; [apply preserves_ret; apply _|].
  apply preserves_bind; [apply _|apply activate_withdraws|intros err].
  apply preserves_bind; [apply _| |done].
  destruct err; [apply set_requeue_withdraws|apply preserves_ret; apply _].
Qed.

Lemma stillNeeded_withdraws p t : preserves (withdraws J) (mmodeStillNeededByFailoverDRPC p t).
Proof.
  apply preserves_bind; [apply _|apply preserves_gets; apply _|intros name].
  apply preserves_bind; [apply _|apply same_works_withdraws, DRPCsFailingOver_works|]. intros [l|e].
  - apply same_works_withdraws. induction l as [|d l IH]; simpl; [works|]. destruct (drpc_available _); [done|].
    apply preserves_bind; [apply _| |intros []; works; exact IH].
    unfold drpcUsesStorageBackend, GetDRPolicy. apply preserves_bind; [apply _|works|].
    intros [pol|e]; [|works]. apply preserves_bind; [apply _|apply getVRGs_works|intro; works].
  - apply preserves_bind; [apply _|apply set_requeue_withdraws|intro; apply preserves_ret; apply _].
Qed.

Lemma create_mode_views_withdraws l : preserves (withdraws J) (create_mode_views l).
Proof.
  induction l as [|[k mw] l IH]; simpl; [apply preserves_ret; apply _|].
  destruct (ExtractMModeFromManifestWork mw) as [[m|]|e].
  - apply preserves_bind; [apply _|apply preserves_gets; apply _|intros name].
    apply preserves_bind; [apply _|apply same_works_withdraws, getResource_works|intros r].
    apply preserves_bind; [apply _| |done].
    destruct r; [apply preserves_ret; apply _|apply set_requeue_withdraws].
  - apply preserves_ret. apply _.
  - apply preserves_bind; [apply _|apply set_requeue_withdraws|done].
Qed.
End withdrawal.

Section pruning.
Context `{Env} `{ViewCodec} `{ClusterReads} `{HubReads} `{ReconcileEnv} `{ModeReads}.

(** Seen from a DRCluster, no DRPC failing over to it was found to use the storage of a
    mode: each is available by now, or none of its VRGs has a volume of that storage. *)
Definition unneeded (d : DRCluster) (mode : MaintenanceMode) : Prop :=
  ∃ h l, (DRPCsFailingOverToCluster (om_Name (dc_Meta d)) h).1 = inl l ∧
    ∀ c, c ∈ l → drpc_available (dap_drpc c) = false →
    ∃ h', (drpcUsesStorageBackend (dap_drpc c) (mms_StorageProvisioner (mm_Spec mode))
             (mms_TargetID (mm_Spec mode)) h').1 = false.

(** The ManifestWork under a key asks for a mode that is neither required nor needed. *)
Definition dispensable (d : DRCluster) (required : gmap string StorageIdentifiers) (k : string * string) : Prop :=
  ∃ mw mode, (om_Namespace (mw_Meta mw), om_Name (mw_Meta mw)) = k ∧
    ExtractMModeFromManifestWork mw = inl (Some mode) ∧
    required !! mode_key mode = None ∧ unneeded d mode.

Lemma stillNeeded_false p t w :
  (mmodeStillNeededByFailoverDRPC p t w).1 = false →
  ∃ h l, (DRPCsFailingOverToCluster (object_name w) h).1 = inl l ∧
    ∀ c, c ∈ l → drpc_available (dap_drpc c) = false → ∃ h', (drpcUsesStorageBackend (dap_drpc c) p t h').1 = false.
Proof.
  unfold mmodeStillNeededByFailoverDRPC. rewrite run_bind. cbn [gets fst snd]. rewrite run_bind, on_hub_run. cbn [fst snd].
  destruct (DRPCsFailingOverToCluster (object_name w) (cw_hub w)) as [[l|e] h1] eqn:El; cbn [fst snd]; [|by rewrite run_bind].
  rewrite on_hub_run. cbn [fst snd cw_hub]. intros Hn. exists (cw_hub w), l. rewrite El. split; [done|].
  revert Hn. generalize (cw_hub (w <| cw_hub := h1 |>)). clear. induction l as [|d l IH]; intros h; simpl;
    [intros _ c []%elem_of_nil|].
  destruct (drpc_available (dap_drpc d)) eqn:Ed.
  - intros Hn c [->|Hc]%elem_of_cons Hc'; [congruence|]. by eapply IH.
  - rewrite run_bind. destruct (drpcUsesStorageBackend _ p t h).1 eqn:Eu; [done|].
    intros Hn c [->|Hc]%elem_of_cons Hc'; [by exists h|]. by eapply IH.
Qed.

Lemma delete_work_withdraws (J : string * string → Prop) n c :
  J (c, n) → preserves (withdraws J) (on_hub (DeleteManifestWork n c)).
Proof.
  intros HJ w. split; [done|]. intros k Hk Hn. by apply (DeleteManifestWork_drops J n c HJ (cw_hub w)).
Qed.

Lemma prune_modes_withdraws d required mws survivors w :
  cw_object w = d → withdraws (dispensable d required) w (prune_modes mws required survivors w).2.
Proof.
  revert survivors w. induction mws as [|mw mws IH]; intros survivors w Ho; simpl; [reflexivity|].
  destruct (ExtractMModeFromManifestWork mw) as [[mode|]|e] eqn:Ee; [|reflexivity|].
  2:{ rewrite run_bind. pose proof (set_requeue_withdraws (dispensable d required) w) as Hw.
      etransitivity; [exact Hw|]. apply IH. by rewrite (proj1 Hw). }
  rewrite run_bind. assert (Hs : withdraws (dispensable d required) w (mode_survives required mode w).2 ∧
    ((mode_survives required mode w).1 = false → required !! mode_key mode = None ∧ unneeded d mode)).
  { unfold mode_survives. destruct (required !! mode_key mode); [by split; [reflexivity|]|].
    split; [apply stillNeeded_withdraws|]. intros (h & l & El & Hl)%stillNeeded_false. split; [done|].
    exists h, l. split; [by rewrite <- El, <- Ho|done]. }
  destruct Hs as [Hw1 Hu]. destruct (mode_survives required mode w) as [[] w1]; cbn [fst snd] in *.
  - etransitivity; [exact Hw1|]. apply IH. by rewrite (proj1 Hw1).
  - destruct (Hu eq_refl) as [Hr Hn]. rewrite !run_bind.
    assert (HJ : dispensable d required (om_Namespace (mw_Meta mw), om_Name (mw_Meta mw))) by by exists mw, mode.
    pose proof (delete_work_withdraws _ _ _ HJ w1) as Hw2. unfold expireClusterMModeActivation.
    destruct (on_hub (DeleteManifestWork _ _) w1) as [err w2]. cbn [fst snd] in *.
    set (m := match err with Some _ => set_requeue | None => mret () end).
    assert (Hw3 : withdraws (dispensable d required) w2 (m w2).2).
    { destruct err; [apply set_requeue_withdraws|reflexivity]. }
    etransitivity; [exact Hw1|]. etransitivity; [exact Hw2|]. etransitivity; [exact Hw3|].
    apply IH. by rewrite (proj1 Hw3), (proj1 Hw2), (proj1 Hw1).
Qed.
End pruning.

Section handler.
Context `{Env} `{ViewCodec} `{ClusterReads} `{HubReads} `{ReconcileEnv} `{ModeReads}.

Definition keeps_works (w w' : ClusterWorld) : Prop := same_works (cw_hub w) (cw_hub w').
#[local] Instance keeps_works_preorder : PreOrder keeps_works.
Proof. split; [done|]. intros u v w. unfold keeps_works. by etransitivity. Qed.

Lemma on_hub_keeps {A} (m : Op A) : preserves same_works m → preserves keeps_works (on_hub m).
Proof. intros Hm w. apply Hm. Qed.

Lemma requeue_keeps {A} (err : option A) :
  preserves keeps_works (match err with Some _ => set_requeue | None => mret () end : COp unit).
Proof. by destruct err. Qed.

Lemma report_modes_keeps vs survivors : preserves keeps_works (report_modes vs survivors).
Proof.
  induction vs as [|v vs IH]; simpl; [apply preserves_ret; apply _|].
  apply preserves_bind; [apply _| |].
  - unfold pruneMModeMCV. destruct (GetResource _ v); [apply preserves_ret; apply _|].
    destruct (negb _); [done|]. destruct (ClusterScopedResourceNameFromMCVName _); [|done].
    destruct (survivors !! _); [done|]. destruct (ResourceIsDeleted _); [done|].
    apply preserves_bind; [apply _|done|intros name].
    apply preserves_bind; [apply _|apply on_hub_keeps, DeleteManagedClusterView_works|intros err].
    apply preserves_bind; [apply _|apply requeue_keeps|done].
  - intros [shown|]; [|done]. destruct (mode_status v survivors shown) as [[m|]|]; [|exact IH|done].
    apply preserves_bind; [apply _|done|intro; exact IH].
Qed.

Lemma updateStatus_keeps survivors : preserves keeps_works (updateMModeActivationStatus survivors).
Proof.
  apply preserves_bind; [apply _| |intros [[]|]; [|done]].
  { apply preserves_bind; [apply _|done|intros t]. induction (env_range_mw t survivors) as [|[k mw] l IH]; simpl; [done|].
    destruct (ExtractMModeFromManifestWork mw) as [[m|]|e]; [|done|apply preserves_bind; [apply _|done|done]].
    apply preserves_bind; [apply _|done|intros name].
    apply preserves_bind; [apply _|apply on_hub_keeps, getResource_works|intros r].
    apply preserves_bind; [apply _|by destruct r|done]. }
  apply preserves_bind; [apply _|done|intros name].
  apply preserves_bind; [apply _|apply on_hub_keeps, list_mcvs_works|intros [vs|e]].
  - apply preserves_bind; [apply _|done|intro; apply report_modes_keeps].
  - apply preserves_bind; [apply _|done|intro]. apply preserves_bind; [apply _|done|done].
Qed.

Lemma pruneMModes_withdraws required w :
  withdraws (dispensable (cw_object w) required) w (pruneMModesActivations required w).2.
Proof.
  unfold pruneMModesActivations. rewrite run_bind. cbn [gets fst snd]. rewrite run_bind.
  pose proof (same_works_withdraws (dispensable (cw_object w) required) _ (list_modes_works (object_name w)) w) as Hw.
  destruct (on_hub (ListMModeManifests _) w) as [[mws|e] w1]; cbn [fst snd] in *; rewrite run_bind.
  - cbn [fst snd mret M_ret]. etransitivity; [exact Hw|]. apply prune_modes_withdraws. by rewrite (proj1 Hw).
  - etransitivity; [exact Hw|]. apply set_requeue_withdraws.
Qed.

(** a maintenance mode is withdrawn only when no failover needs it.  A reconcile of
    the maintenance modes of a DRCluster, whatever fails in it, asks for the deletion of
    a ManifestWork only if it asks for a mode that is not among those required by the DRPCs failing
    over to the cluster, none of which was found to use the storage of the mode
    either. *)
Theorem mode_withdrawn_when_unneeded w k :
  work_lives (cw_hub w) k → ¬ work_lives (cw_hub (clusterMModeHandler w).2) k →
  ∃ required, (mModeActivationsRequired w).1 = inl required ∧ dispensable (cw_object w) required k.
Proof.
  unfold clusterMModeHandler. rewrite run_bind. intros Hk.
  pose proof (required_withdraws (λ k, ∃ required, (mModeActivationsRequired w).1 = inl required ∧
    dispensable (cw_object w) required k) w) as Hw1.
  destruct (mModeActivationsRequired w) as [[required|e] w1]; cbn [fst snd] in *.
  2:{ rewrite run_bind. cbn [mret M_ret snd]. intros Hn. by apply Hw1. }
  rewrite run_bind. cbn [gets fst snd]. rewrite run_bind.
  match goal with |- context [(if ?b then ?m1 else ?m2) w1] => set (act := (if b then m1 else m2)) end.
  assert (Hw2 : withdraws (λ k, ∃ required', @inl _ GoError required = inl required' ∧
    dispensable (cw_object w) required' k) w1 (act w1).2).
  { unfold act. destruct (checkFailoverMaintenanceActivations _ _); [reflexivity|].
    unfold activateRegionalFailoverPrequisites. rewrite run_bind. etransitivity.
    - apply same_works_withdraws, tick_works.
    - apply activate_all_withdraws. }
  destruct (act w1) as [[] w2]. cbn [fst snd] in *. rewrite run_bind.
  pose proof (pruneMModes_withdraws required w2) as Hw3.
  destruct (pruneMModesActivations required w2) as [r w3]. cbn [fst snd] in *. intros Hn.
  assert (Hn3 : ¬ work_lives (cw_hub w3) k).
  { revert Hn. unfold work_lives. destruct r as [[survivors err]|]; [|done]. rewrite !run_bind. cbn [mret M_ret snd].
    set (w4 := (_ w3).2). assert (Hw4 : keeps_works w3 w4) by apply requeue_keeps.
    intros Hn. rewrite (updateStatus_keeps survivors w4) in Hn. by rewrite <- Hw4. }
  destruct (decide (work_lives (cw_hub w1) k)); [|by apply Hw1].
  destruct (decide (work_lives (cw_hub w2) k)); [|by apply Hw2].
  exists required. split; [done|]. rewrite <- (proj1 Hw1), <- (proj1 Hw2). apply Hw3; eauto.
Qed.
End handler.

(** east, whose storage [rep-1] is in maintenance though nothing fails over to it. *)
Module ModesCase.
Import FenceScene.
Definition mode : MaintenanceMode :=
  mkMaintenanceMode (named_meta "rep-1" "") (mkMaintenanceModeSpec "csi" "rep-1" [MModeFailover])
    (mkMaintenanceModeStatus MModeStateCompleted 1 [condition MModeConditionFailoverActivated ConditionTrue]).
#[export] Instance mode_codec : ViewCodec := {|
  json_VRG := λ _, inl as_primary;
  json_Namespace := λ _, inl (named_meta "ns" "");
  json_Recipe := λ _, inl (mkRecipe (named_meta "recipe" "ns") "");
  json_NetworkFence := λ _, inr (not_found "fence");
  json_NetworkFenceClass := λ _, inr (not_found "class");
  json_MaintenanceMode := λ _, inl mode;
  json_DRClusterConfig := λ _, inl config;
  json_StorageClass := λ _, inr (not_found "class");
  json_SnapshotClass := λ _, inr (not_found "class");
  json_ReplicationClass := λ _, inr (not_found "class");
  json_CRD := λ _, inr (not_found "crd");
  ConditionViewProcessing := "Processing"; ReasonGetResourceFailed := "GetResourceFailed";
  ramen_GV := ("", ""); csiaddons_GV := ("", ""); storage_GV := ("", ""); snapshot_GV := ("", "");
  replication_GV := ("", ""); core_GV := ("", ""); recipe_GV := ("", ""); apiextensions_GV := ("", "");
  public_vgs_GV := ("", ""); private_vgs_GV := ("", ""); VGSCRDName := ""; VGSCRDPrivateName := "";
|}.
#[export] Instance hub_reads : HubReads := {|
  env_list_appsets := λ _, inl None;
  env_get_drcluster := λ _ c, inl (drcluster c ConditionFalse);
  env_get_drpolicy := λ _ _, inl (policy "5m");
|}.
#[export] Instance reconcile_env : ReconcileEnv := {|
  env_config := λ _, inr (not_found "config");
  env_list_all_drpcs := λ _, inl [];
  env_get_drpc := λ _ d, inl d;
|}.
#[export] Instance mode_reads : ModeReads := {|
  env_snapshot := λ _, {|
    PlacementDisableAnnotation := "disable";
    snap_drpolicy := λ _, inl (policy "5m");
    snap_placement := λ n _, inr (not_found n);
    snap_placementrule := λ n _, inr (not_found n);
    snap_appsets := inl None;
  |};
  env_range_si := λ _ m, map_to_list m;
  env_range_si_perm := λ _ _, reflexivity _;
  env_range_mw := λ _ m, map_to_list m;
  env_range_mw_perm := λ _ _, reflexivity _;
|}.
Definition work : ManifestWork := generateMModeManifestWork "rep-1" "east" mode ∅.
Definition mode_view : (string * string) * ManagedClusterView :=
  let v := view "east" "rep-1-mmode-mcv" "mode" in
  (v.1, v.2 <| mcv_Meta ::= λ m, m <| om_Labels := {[MModesLabel := ""]} |> |>).
Definition start : ClusterWorld :=
  scene (east ClusterFenceStateUnset Available) [mode_view]
    <| cw_hub ::= λ h, h <| w_mws := {[("east", "rep-1-mmode-mw") := work]} |> |>.
Definition storage : StorageIdentifiers := mkStorageIdentifiers "csi" (mkIdentifier "" []) (mkIdentifier "rep-1" []).
End ModesCase.

Section witness.
Import FenceScene ModesCase.

Lemma activation_reported_soundly_witness :
  ∃ m c, view_shows (cw_hub (createMModeMCV {["rep-1" := work]} start).2)
           (object_name (createMModeMCV {["rep-1" := work]} start).2) m ∧
    cmm_StorageProvisioner m = si_StorageProvisioner storage ∧ cmm_TargetID m = idf_ID (si_ReplicationID storage) ∧
    c ∈ cmm_Conditions m ∧ cond_Type c = MModeConditionFailoverActivated ∧ cond_Status c = ConditionTrue.
Proof. apply (activation_reported_soundly {["rep-1" := work]} start storage); vm_compute; reflexivity. Defined.

Lemma mode_withdrawn_when_unneeded_witness :
  ∃ required, (mModeActivationsRequired start).1 = inl required ∧
    dispensable (cw_object start) required ("east", "rep-1-mmode-mw").
Proof.
  apply (mode_withdrawn_when_unneeded start); [by eexists|].
  intros (mw & Hmw & _). vm_compute in Hmw. discriminate Hmw.
Defined.
End witness.
