(* ===== verification/Workflows.v ===== *)
(** * Recipes and their workflows

    The steps of a capture and of a recovery of Kubernetes objects: kubeobjects/requests.go's
    types, hooks/common/hook_spec_builder.go, util/recipe.go, and of vrg_kubeobjects.go and
    vrg_recipe.go the conversion of a recipe into steps and its validation.

    The types of a recipe are of github.com/ramendr/recipe; of them the fields the code
    reads.  Its operations, checks and jobs are those of kubeobjects, field by field.  A
    label selector is a pointer, shared between a recipe or a VRG and the steps. *)

From Stdlib Require Import ZArith Ascii.
From S2P Require Import Prelude Meta Names Conditions Api Telemetry.
#[local] Open Scope record_scope.

(** ** Hooks and steps (kubeobjects/requests.go) *)

Record ScaleSpec := mkScaleSpec { ss_Operation : string }.

Record Check_ := mkCheck { ck_Name : string; ck_Condition : string; ck_OnError : string; ck_Timeout : Z }.

Record Operation := mkOperation {
  op_Name : string;
  op_Container : string;
  op_Command : string;
  op_OnError : string;
  op_Timeout : Z;
  op_InverseOp : string;
}.

Record JobSpec := mkJobSpec {
  jb_Name : string;
  jb_OnError : string;
  jb_Timeout : Z;
  jb_InverseOp : string;
  jb_ForceCreate : option bool;
}.

(** [*metav1.LabelSelector]: the VRG's KubeObjectSelector, or that of a group or of a hook
    of the recipe. *)
Inductive SelectorPtr := OwnSelector | GroupSelector (group : nat) | HookSelector (hook : nat).
#[export] Instance SelectorPtr_eq : EqDecision SelectorPtr.
Proof. solve_decision. Defined.

Record HookSpec := mkHookSpec {
  hs_Name : string;
  hs_Namespace : string;
  hs_Type : string;
  hs_SelectResource : string;
  hs_LabelSelector : option SelectorPtr;
  hs_NameSelector : string;
  hs_SinglePodOnly : bool;
  hs_OnError : string;
  hs_Timeout : Z;
  hs_Essential : option bool;
  hs_SkipHookIfNotPresent : bool;
  hs_Op : Operation;
  hs_Chk : Check_;
  hs_Scale : ScaleSpec;
  hs_Job : JobSpec;
}.
#[export] Instance eta_HookSpec : Eta HookSpec := λ h,
  mkHookSpec (hs_Name h) (hs_Namespace h) (hs_Type h) (hs_SelectResource h) (hs_LabelSelector h) (hs_NameSelector h)
    (hs_SinglePodOnly h) (hs_OnError h) (hs_Timeout h) (hs_Essential h) (hs_SkipHookIfNotPresent h) (hs_Op h)
    (hs_Chk h) (hs_Scale h) (hs_Job h).
Definition zero_hook : HookSpec :=
  mkHookSpec "" "" "" "" None "" false "" 0 None false (mkOperation "" "" "" "" 0 "") (mkCheck "" "" "" 0)
    (mkScaleSpec "") (mkJobSpec "" "" 0 "" None).

(** [Spec], with the fields of the embedded [KubeResourcesSpec]. *)
Record KubeSpec := mkKubeSpec {
  ks_IncludedNamespaces : list string;
  ks_IncludedResources : list string;
  ks_ExcludedResources : list string;
  ks_Hook : HookSpec;
  ks_IsHook : bool;
  ks_GroupEssential : option bool;
  ks_LabelSelector : option SelectorPtr;
  ks_OrLabelSelectors : list LabelSelector;
  ks_IncludeClusterResources : option bool;
}.
#[export] Instance eta_KubeSpec : Eta KubeSpec := λ s,
  mkKubeSpec (ks_IncludedNamespaces s) (ks_IncludedResources s) (ks_ExcludedResources s) (ks_Hook s) (ks_IsHook s)
    (ks_GroupEssential s) (ks_LabelSelector s) (ks_OrLabelSelectors s) (ks_IncludeClusterResources s).
Definition zero_kubespec : KubeSpec := mkKubeSpec [] [] [] zero_hook false None None [] None.

Record CaptureSpec := mkCaptureSpec { cs_Name : string; cs_Spec : KubeSpec }.
#[export] Instance eta_CaptureSpec : Eta CaptureSpec := λ c, mkCaptureSpec (cs_Name c) (cs_Spec c).

(** NamespaceMapping, RestoreStatus and ExistingResourcePolicy, which nothing sets, are left
    out; the reference to a resource modifier is the name of a ConfigMap. *)
Record RecoverSpec := mkRecoverSpec {
  rs_BackupName : string;
  rs_Spec : KubeSpec;
  rs_ResourceModifier : option string;
}.
#[export] Instance eta_RecoverSpec : Eta RecoverSpec := λ r,
  mkRecoverSpec (rs_BackupName r) (rs_Spec r) (rs_ResourceModifier r).

(** ** Recipes *)

Record Group := mkGroup {
  grp_Name : string;
  grp_BackupRef : string;
  grp_IncludedNamespaces : list string;
  grp_IncludedResourceTypes : list string;
  grp_ExcludedResourceTypes : list string;
  grp_LabelSelector : option LabelSelector;
  grp_IncludeClusterResources : option bool;
  grp_Essential : option bool;
}.
#[export] Instance eta_Group : Eta Group := λ g,
  mkGroup (grp_Name g) (grp_BackupRef g) (grp_IncludedNamespaces g) (grp_IncludedResourceTypes g)
    (grp_ExcludedResourceTypes g) (grp_LabelSelector g) (grp_IncludeClusterResources g) (grp_Essential g).

Record Hook := mkHook {
  hk_Name : string;
  hk_Namespace : string;
  hk_Type : string;
  hk_SelectResource : string;
  hk_LabelSelector : option LabelSelector;
  hk_NameSelector : string;
  hk_SinglePodOnly : bool;
  hk_OnError : string;
  hk_Timeout : Z;
  hk_Essential : option bool;
  hk_SkipHookIfNotPresent : bool;
  hk_Ops : list Operation;
  hk_Chks : list Check_;
  hk_Jobs : list JobSpec;
}.
#[export] Instance eta_Hook : Eta Hook := λ h,
  mkHook (hk_Name h) (hk_Namespace h) (hk_Type h) (hk_SelectResource h) (hk_LabelSelector h) (hk_NameSelector h)
    (hk_SinglePodOnly h) (hk_OnError h) (hk_Timeout h) (hk_Essential h) (hk_SkipHookIfNotPresent h) (hk_Ops h)
    (hk_Chks h) (hk_Jobs h).

(** An element of a sequence is a map from the kind of a step to its name, here in the order
    in which the range over it takes it. *)
Record Workflow := mkWorkflow {
  wfl_Name : string;
  wfl_Sequence : list (list (string * string));
  wfl_FailOn : string;
}.

Record RecipeSpec := mkRecipeSpec {
  rsp_Volumes : option Group;
  rsp_Groups : list Group;
  rsp_Hooks : list Hook;
  rsp_Workflows : list Workflow;
}.
#[export] Instance eta_RecipeSpec : Eta RecipeSpec := λ r,
  mkRecipeSpec (rsp_Volumes r) (rsp_Groups r) (rsp_Hooks r) (rsp_Workflows r).

(** util/recipe.go; the selector of the claims is apart, in the instance, and so is the
    recipe, which the selectors of the steps point into. *)
Record RecipeElements := mkRecipeElements {
  re_CaptureWorkflow : list CaptureSpec;
  re_RecoverWorkflow : list RecoverSpec;
  re_CaptureFailOn : string;
  re_RestoreFailOn : string;
  re_StopRecipeReconcile : bool;
}.
#[export] Instance eta_RecipeElements : Eta RecipeElements := λ r,
  mkRecipeElements (re_CaptureWorkflow r) (re_RecoverWorkflow r) (re_CaptureFailOn r) (re_RestoreFailOn r)
    (re_StopRecipeReconcile r).
Definition zero_elements : RecipeElements := mkRecipeElements [] [] "" "" false.

Definition WorkflowAnyError : string := "any-error".
Definition WorkflowEssentialError : string := "essential-error".
Definition WorkflowFullError : string := "full-error".
(** Constants of the recipe API. *)
Definition BackupWorkflowName : string := "backup".
Definition RestoreWorkflowName : string := "restore".

(** ** The hook of a step (hooks/common/hook_spec_builder.go) *)

Definition hook_base (hook : Hook) : HookSpec :=
  zero_hook <| hs_Name := hk_Name hook |> <| hs_Namespace := hk_Namespace hook |> <| hs_Type := hk_Type hook |>
            <| hs_Timeout := hk_Timeout hook |> <| hs_OnError := hk_OnError hook |>
            <| hs_Essential := hk_Essential hook |>.

Definition with_selection (hook : Hook) (p : option SelectorPtr) (h : HookSpec) : HookSpec :=
  h <| hs_SelectResource := hk_SelectResource hook |> <| hs_LabelSelector := p |> <| hs_NameSelector := hk_NameSelector hook |>.

Definition GetCheckHookSpec (hook : Hook) (p : option SelectorPtr) (opName : string) : option HookSpec :=
  chk ← find_first (λ chk, ck_Name chk =? opName) (hk_Chks hook);
  Some (with_selection hook p (hook_base hook)
          <| hs_SkipHookIfNotPresent := hk_SkipHookIfNotPresent hook |>
          <| hs_Chk := mkCheck opName (ck_Condition chk) (ck_OnError chk) (ck_Timeout chk) |>).

Definition GetExecHookSpec (hook : Hook) (p : option SelectorPtr) (opName : string) : option HookSpec :=
  op ← find_first (λ op, op_Name op =? opName) (hk_Ops hook);
  Some (with_selection hook p (hook_base hook)
          <| hs_SinglePodOnly := hk_SinglePodOnly hook |>
          <| hs_Op := mkOperation opName (op_Container op) (op_Command op) (op_OnError op) (op_Timeout op) (op_InverseOp op) |>).

Definition GetScaleHookSpec (hook : Hook) (p : option SelectorPtr) (opName : string) : option HookSpec :=
  Some (with_selection hook p (hook_base hook) <| hs_Scale := mkScaleSpec opName |>).

Definition GetJobHookSpec (hook : Hook) (p : option SelectorPtr) (opName : string) : option HookSpec :=
  job ← find_first (λ job, jb_Name job =? opName) (hk_Jobs hook);
  Some (hook_base hook
          <| hs_Job := mkJobSpec opName (jb_OnError job) (jb_Timeout job) (jb_InverseOp job) (jb_ForceCreate job) |>).

Definition GetHookSpecFromRecipe (hook : Hook) (p : option SelectorPtr) (opName : string) : option HookSpec :=
  if hk_Type hook =? "exec" then GetExecHookSpec hook p opName
  else if hk_Type hook =? "check" then GetCheckHookSpec hook p opName
  else if hk_Type hook =? "scale" then GetScaleHookSpec hook p opName
  else if hk_Type hook =? "job" then GetJobHookSpec hook p opName
  else None.

(** ** Steps of a recipe (vrg_kubeobjects.go) *)

Definition getHookSpecFromHook (hook : Hook) (p : option SelectorPtr) (suffix : string) : HookSpec :=
  default zero_hook (GetHookSpecFromRecipe hook p suffix).

Definition hook_kubespec (hook : Hook) (p : option SelectorPtr) (suffix : string) : KubeSpec :=
  let hookSpec := getHookSpecFromHook hook p suffix in
  zero_kubespec <| ks_IncludedNamespaces := [hk_Namespace hook] |> <| ks_IncludedResources := ["pod"] |>
                <| ks_Hook := hookSpec |> <| ks_IsHook := true |> <| ks_LabelSelector := hs_LabelSelector hookSpec |>
                <| ks_IncludeClusterResources := Some false |>.

Definition convertRecipeHookToCaptureSpec (hook : Hook) (p : option SelectorPtr) (suffix : string) : CaptureSpec :=
  mkCaptureSpec (hk_Name hook +:+ "-" +:+ suffix) (hook_kubespec hook p suffix).

Definition convertRecipeHookToRecoverSpec (hook : Hook) (p : option SelectorPtr) (suffix : string) : RecoverSpec :=
  mkRecoverSpec "" (hook_kubespec hook p suffix) None.

Definition group_kubespec (group : Group) (p : option SelectorPtr) : KubeSpec :=
  zero_kubespec <| ks_IncludedNamespaces := grp_IncludedNamespaces group |>
                <| ks_IncludedResources := grp_IncludedResourceTypes group |>
                <| ks_ExcludedResources := grp_ExcludedResourceTypes group |>
                <| ks_LabelSelector := p |> <| ks_IncludeClusterResources := grp_IncludeClusterResources group |>.

(** Whether the group is essential is not carried over. *)
Definition convertRecipeGroupToRecoverSpec (group : Group) (p : option SelectorPtr) : RecoverSpec :=
  mkRecoverSpec (if grp_BackupRef group ≠? "" then grp_BackupRef group else grp_Name group) (group_kubespec group p) None.

Definition convertRecipeGroupToCaptureSpec (group : Group) (p : option SelectorPtr) : CaptureSpec :=
  mkCaptureSpec (grp_Name group) (group_kubespec group p <| ks_GroupEssential := grp_Essential group |>).

Definition newNotFound (resource name : string) : GoError :=
  StatusError ReasonNotFound (resource +:+ " " +:+ quoted name +:+ " not found").

Fixpoint split_slash_once (s : string) : option (string * string) :=
  match s with
  | EmptyString => None
  | String c s' => if Ascii.eqb c "/" then Some ("", s') else p ← split_slash_once s'; Some (String c p.1, p.2)
  end.

(** Exactly one slash. *)
Definition validateAndGetHookDetails (name : string) : (string * string) + GoError :=
  let invalid := inr (Errorf "invalid format: hook name provided should be of the form part1/part2" None) in
  match split_slash_once name with
  | Some (prefix, suffix) => match split_slash_once suffix with None => inl (prefix, suffix) | Some _ => invalid end
  | None => invalid
  end.

(** The first that matches, with its place. *)
Fixpoint find_index {A} (P : A → bool) (i : nat) (l : list A) : option (nat * A) :=
  match l with [] => None | x :: l' => if P x then Some (i, x) else find_index P (S i) l' end.

Definition getHookFromRecipe (recipe : RecipeSpec) (prefix : string) : (nat * Hook) + GoError :=
  match find_index (λ h, hk_Name h =? prefix) 0 (rsp_Hooks recipe) with
  | Some hook => inl hook
  | None => inr (newNotFound "Recipe.Spec.Hook.Name" prefix)
  end.

(** The shared body of [getResourceAndConvertToCaptureGroup] and
    [getResourceAndConvertToRecoverGroup].  No spec stands for the error for the group of
    volumes; a recipe without volumes has none to compare with, and the code panics. *)
Definition convert_resource {A} (of_group : Group → option SelectorPtr → A)
    (of_hook : Hook → option SelectorPtr → string → A) (recipe : RecipeSpec) (resourceType name : string) : option A + GoError :=
  if resourceType =? "group" then
    match find_index (λ g, grp_Name g =? name) 0 (rsp_Groups recipe) with
    | Some (i, group) => inl (Some (of_group group ((λ _, GroupSelector i) <$> grp_LabelSelector group)))
    | None =>
        match rsp_Volumes recipe with
        | None => inr (Errorf "panic: nil pointer dereference" None)
        | Some volumes => if name =? grp_Name volumes then inl None else inr (newNotFound "Recipe.Spec.Group.Name" name)
        end
    end
  else if resourceType =? "hook" then
    match validateAndGetHookDetails name with
    | inr e => inr (Errorf ("Internal error occurred: " +:+ error_text e) None)
    | inl (prefix, suffix) =>
        match getHookFromRecipe recipe prefix with
        | inr _ => inr (newNotFound "Recipe.Spec" resourceType)
        | inl (i, hook) => inl (Some (of_hook hook ((λ _, HookSelector i) <$> hk_LabelSelector hook) suffix))
        end
    end
  else inr (newNotFound "Recipe.Spec" resourceType).

Definition getResourceAndConvertToCaptureGroup (recipe : RecipeSpec) (resourceType name : string) : option CaptureSpec + GoError :=
  convert_resource convertRecipeGroupToCaptureSpec convertRecipeHookToCaptureSpec recipe resourceType name.
Definition getResourceAndConvertToRecoverGroup (recipe : RecipeSpec) (resourceType name : string) : option RecoverSpec + GoError :=
  convert_resource convertRecipeGroupToRecoverSpec convertRecipeHookToRecoverSpec recipe resourceType name.

Definition getBackupWorkflow (recipe : RecipeSpec) : option Workflow :=
  find_first (λ w, wfl_Name w =? BackupWorkflowName) (rsp_Workflows recipe).
Definition getRestoreWorkflow (recipe : RecipeSpec) : option Workflow :=
  find_first (λ w, wfl_Name w =? RestoreWorkflowName) (rsp_Workflows recipe).

Definition validateWorkflow (workflow : Workflow) : option GoError :=
  if bool_decide (wfl_Sequence workflow = []) then None
  else if existsb (existsb (λ r, r.1 =? "group")) (wfl_Sequence workflow) then None
  else errorf "a workflow must contain at least one group".

(** An element of the slice, zero to begin with; the group of volumes leaves it as it is. *)
Fixpoint fill_element {A} (convert : string → string → option A + GoError) (resource : list (string * string)) (cur : A) : A + GoError :=
  match resource with
  | [] => inl cur
  | (resourceType, resourceName) :: resource' =>
      match convert resourceType resourceName with
      | inr e => inr e
      | inl spec => fill_element convert resource' (default cur spec)
      end
  end.
Fixpoint fill_elements {A} (convert : string → string → option A + GoError) (zero : A) (sequence : list (list (string * string)))
    : list A + GoError :=
  match sequence with
  | [] => inl []
  | resource :: sequence' =>
      match fill_element convert resource zero with
      | inr e => inr e
      | inl x => match fill_elements convert zero sequence' with inl l => inl (x :: l) | inr e => inr e end
      end
  end.

(** [None]: ErrWorkflowNotFound. *)
Definition steps_of {A} (convert : string → string → option A + GoError) (zero : A) (workflow : option Workflow)
    : option ((list A * string) + GoError) :=
  workflow ← workflow;
  Some (match validateWorkflow workflow with
        | Some e => inr e
        | None => match fill_elements convert zero (wfl_Sequence workflow) with
                  | inl l => inl (l, wfl_FailOn workflow)
                  | inr e => inr e
                  end
        end).

Definition getCaptureGroups (recipe : RecipeSpec) : option ((list CaptureSpec * string) + GoError) :=
  steps_of (getResourceAndConvertToCaptureGroup recipe) (mkCaptureSpec "" zero_kubespec) (getBackupWorkflow recipe).
Definition getRecoverGroups (recipe : RecipeSpec) : option ((list RecoverSpec * string) + GoError) :=
  steps_of (getResourceAndConvertToRecoverGroup recipe) (mkRecoverSpec "" zero_kubespec None) (getRestoreWorkflow recipe).

(** [stopExecution]: should further execution be stopped *)
Definition shouldStopExecution (failOn : string) (essential : bool) : bool :=
  if failOn =? WorkflowAnyError then true
  else if failOn =? WorkflowEssentialError then essential
  else false.

(** ** Requests and Velero's objects

    Of github.com/vmware-tanzu/velero, what the code writes and reads.  In an object on the
    server the selector is a value.  The fields of a backup that are the same for all of
    them are left out. *)

(** kubeobjects.StorageLocation: the profile stands for what is read of it, the endpoint,
    bucket, region, secret and certificates. *)
Record StorageLocation := mkStorageLocation { sl_Profile : string; sl_KeyPrefix : string }.
#[export] Instance StorageLocation_eq : EqDecision StorageLocation.
Proof. solve_decision. Defined.

Inductive BackupPhase :=
  | BackupPhaseUnset | BackupPhaseNew | BackupPhaseQueued | BackupPhaseReadyToStart | BackupPhaseInProgress
  | BackupPhaseWaitingForPluginOperations | BackupPhaseWaitingForPluginOperationsPartiallyFailed
  | BackupPhaseDeleting | BackupPhaseFinalizing | BackupPhaseFinalizingPartiallyFailed
  | BackupPhaseFailedValidation | BackupPhasePartiallyFailed | BackupPhaseFailed | BackupPhaseCompleted.
#[export] Instance BackupPhase_eq : EqDecision BackupPhase.
Proof. solve_decision. Defined.

Definition BackupPhase_string (p : BackupPhase) : string :=
  match p with
  | BackupPhaseUnset => ""
  | BackupPhaseNew => "New"
  | BackupPhaseQueued => "Queued"
  | BackupPhaseReadyToStart => "ReadyToStart"
  | BackupPhaseInProgress => "InProgress"
  | BackupPhaseWaitingForPluginOperations => "WaitingForPluginOperations"
  | BackupPhaseWaitingForPluginOperationsPartiallyFailed => "WaitingForPluginOperationsPartiallyFailed"
  | BackupPhaseDeleting => "Deleting"
  | BackupPhaseFinalizing => "Finalizing"
  | BackupPhaseFinalizingPartiallyFailed => "FinalizingPartiallyFailed"
  | BackupPhaseFailedValidation => "FailedValidation"
  | BackupPhasePartiallyFailed => "PartiallyFailed"
  | BackupPhaseFailed => "Failed"
  | BackupPhaseCompleted => "Completed"
  end.

Inductive RestorePhase :=
  | RestorePhaseUnset | RestorePhaseNew | RestorePhaseInProgress | RestorePhaseWaitingForPluginOperations
  | RestorePhaseWaitingForPluginOperationsPartiallyFailed | RestorePhaseFinalizing
  | RestorePhaseFinalizingPartiallyFailed | RestorePhaseFailed | RestorePhaseFailedValidation
  | RestorePhasePartiallyFailed | RestorePhaseCompleted.
#[export] Instance RestorePhase_eq : EqDecision RestorePhase.
Proof. solve_decision. Defined.

Definition RestorePhase_string (p : RestorePhase) : string :=
  match p with
  | RestorePhaseUnset => ""
  | RestorePhaseNew => "New"
  | RestorePhaseInProgress => "InProgress"
  | RestorePhaseWaitingForPluginOperations => "WaitingForPluginOperations"
  | RestorePhaseWaitingForPluginOperationsPartiallyFailed => "WaitingForPluginOperationsPartiallyFailed"
  | RestorePhaseFinalizing => "Finalizing"
  | RestorePhaseFinalizingPartiallyFailed => "FinalizingPartiallyFailed"
  | RestorePhaseFailed => "Failed"
  | RestorePhaseFailedValidation => "FailedValidation"
  | RestorePhasePartiallyFailed => "PartiallyFailed"
  | RestorePhaseCompleted => "Completed"
  end.

Record BackupSpec := mkBackupSpec {
  bks_IncludedNamespaces : list string;
  bks_IncludedResources : list string;
  bks_ExcludedResources : list string;
  bks_LabelSelector : LabelSelector;
  bks_OrLabelSelectors : list LabelSelector;
  bks_IncludeClusterResources : bool;
  bks_StorageLocation : string;
}.
#[export] Instance eta_BackupSpec : Eta BackupSpec := λ x,
  mkBackupSpec (bks_IncludedNamespaces x) (bks_IncludedResources x) (bks_ExcludedResources x) (bks_LabelSelector x)
    (bks_OrLabelSelectors x) (bks_IncludeClusterResources x) (bks_StorageLocation x).

Record Backup := mkBackup {
  bk_Meta : ObjectMeta;
  bk_Spec : BackupSpec;
  bk_Phase : BackupPhase;
  bk_StartTimestamp : option Z;
  bk_CompletionTimestamp : option Z;
}.
#[export] Instance eta_Backup : Eta Backup := λ x,
  mkBackup (bk_Meta x) (bk_Spec x) (bk_Phase x) (bk_StartTimestamp x) (bk_CompletionTimestamp x).

Record RestoreSpec := mkRestoreSpec {
  rts_BackupName : string;
  rts_IncludedResources : list string;
  rts_ExcludedResources : list string;
  rts_LabelSelector : option LabelSelector;
  rts_OrLabelSelectors : list LabelSelector;
  rts_IncludeClusterResources : bool;
  rts_ResourceModifier : option string;
}.

Record Restore := mkRestore {
  rst_Meta : ObjectMeta;
  rst_Spec : RestoreSpec;
  rst_Phase : RestorePhase;
  rst_ItemsRestored : option Z;
  rst_StartTimestamp : option Z;
  rst_CompletionTimestamp : option Z;
}.
#[export] Instance eta_Restore : Eta Restore := λ x,
  mkRestore (rst_Meta x) (rst_Spec x) (rst_Phase x) (rst_ItemsRestored x) (rst_StartTimestamp x) (rst_CompletionTimestamp x).

Record BackupStorageLocation := mkBSL {
  bsl_Meta : ObjectMeta;
  bsl_Profile : string;
  bsl_Prefix : string;
  bsl_Available : bool;
}.
#[export] Instance eta_BSL : Eta BackupStorageLocation := λ x,
  mkBSL (bsl_Meta x) (bsl_Profile x) (bsl_Prefix x) (bsl_Available x).
