(* ===== verification/Volumes.v ===== *)
(** * Volumes on a managed cluster

    What the VRG controller works on: claims and volumes, the VolumeReplication and
    VolumeGroupReplication resources that ask csi-addons to replicate them, the classes
    that describe the storage, the workload's pods and attachments, and the S3 stores
    that keep copies of the claims and volumes.  One reconcile of a VRG is a computation
    over [Volumes], which has these next to the fields of [VRGInstance].  As in Hub.v a
    call takes a tick and the environment answers as a function of the tick.

    A [*corev1.PersistentVolumeClaim] is a location of [v_heap]: the elements of
    [v.volRepPVCs] are passed around, and updated, by pointer.  A copy of a claim is a
    new location; that copies share the label and annotation maps in Go is not
    represented, as no copy outlives the call it is made for. *)

From Stdlib Require Import ZArith.
From stdpp Require Import pretty.
From S2P Require Import Prelude Meta Names Conditions Api VRGStatus PolicyPeers Events Workflows.

(** ** Claims and volumes *)

Record PVCSpec := mkPVCSpec {
  pvcs_VolumeName : string;
  pvcs_StorageClassName : option string;
  pvcs_AccessModes : list string;
  pvcs_Resources : string;
  pvcs_VolumeMode : option string;
  pvcs_VolumeAttributesClassName : option string;
}.
#[export] Instance eta_PVCSpec : Eta PVCSpec := λ x,
  mkPVCSpec (pvcs_VolumeName x) (pvcs_StorageClassName x) (pvcs_AccessModes x) (pvcs_Resources x)
    (pvcs_VolumeMode x) (pvcs_VolumeAttributesClassName x).
#[export] Instance PVCSpec_eq : EqDecision PVCSpec.
Proof. solve_decision. Defined.

(** The capacity is that of [Status.Capacity[storage]], in bytes. *)
Record PersistentVolumeClaim := mkPVC {
  pvc_Meta : ObjectMeta;
  pvc_Spec : PVCSpec;
  pvc_Phase : string;
  pvc_Capacity : Z;
}.
#[export] Instance eta_PVC : Eta PersistentVolumeClaim := λ x,
  mkPVC (pvc_Meta x) (pvc_Spec x) (pvc_Phase x) (pvc_Capacity x).
#[export] Instance PVC_eq : EqDecision PersistentVolumeClaim.
Proof. solve_decision. Defined.
Definition zero_pvc : PersistentVolumeClaim := mkPVC zero_meta (mkPVCSpec "" None [] "" None None) "" 0.
Definition ClaimBound : string := "Bound".

Inductive ReclaimPolicy := ReclaimRetain | ReclaimDelete | ReclaimRecycle | ReclaimUnset.
#[export] Instance ReclaimPolicy_eq : EqDecision ReclaimPolicy.
Proof. solve_decision. Defined.

Record ObjectReference := mkObjectReference {
  oref_Kind : string;
  oref_Namespace : string;
  oref_Name : string;
  oref_UID : string;
  oref_APIVersion : string;
  oref_ResourceVersion : string;
}.
#[export] Instance eta_ObjectReference : Eta ObjectReference := λ x,
  mkObjectReference (oref_Kind x) (oref_Namespace x) (oref_Name x) (oref_UID x) (oref_APIVersion x)
    (oref_ResourceVersion x).
#[export] Instance ObjectReference_eq : EqDecision ObjectReference.
Proof. solve_decision. Defined.

(** corev1.SecretReference: name and namespace. *)
Definition SecretReference : Type := string * string.

Record CSIPersistentVolumeSource := mkCSI {
  csi_Driver : string;
  csi_VolumeHandle : string;
  csi_FSType : string;
  csi_VolumeAttributes : gmap string string;
  csi_ControllerPublishSecretRef : option SecretReference;
  csi_NodeStageSecretRef : option SecretReference;
  csi_NodePublishSecretRef : option SecretReference;
  csi_ControllerExpandSecretRef : option SecretReference;
  csi_NodeExpandSecretRef : option SecretReference;
}.
#[export] Instance eta_CSI : Eta CSIPersistentVolumeSource := λ x,
  mkCSI (csi_Driver x) (csi_VolumeHandle x) (csi_FSType x) (csi_VolumeAttributes x)
    (csi_ControllerPublishSecretRef x) (csi_NodeStageSecretRef x) (csi_NodePublishSecretRef x)
    (csi_ControllerExpandSecretRef x) (csi_NodeExpandSecretRef x).
#[export] Instance CSI_eq : EqDecision CSIPersistentVolumeSource.
Proof. solve_decision. Defined.

Record PVSpec := mkPVSpec {
  pvs_ReclaimPolicy : ReclaimPolicy;
  pvs_ClaimRef : option ObjectReference;
  pvs_StorageClassName : string;
  pvs_CSI : option CSIPersistentVolumeSource;
  pvs_AccessModes : list string;
  pvs_VolumeMode : option string;
}.
#[export] Instance eta_PVSpec : Eta PVSpec := λ x,
  mkPVSpec (pvs_ReclaimPolicy x) (pvs_ClaimRef x) (pvs_StorageClassName x) (pvs_CSI x) (pvs_AccessModes x)
    (pvs_VolumeMode x).
#[export] Instance PVSpec_eq : EqDecision PVSpec.
Proof. solve_decision. Defined.

Record PersistentVolume := mkPV {
  pv_Meta : ObjectMeta;
  pv_Spec : PVSpec;
  pv_Phase : string;
}.
#[export] Instance eta_PV : Eta PersistentVolume := λ x, mkPV (pv_Meta x) (pv_Spec x) (pv_Phase x).
#[export] Instance PV_eq : EqDecision PersistentVolume.
Proof. solve_decision. Defined.
Definition VolumeBound : string := "Bound".
Definition VolumeReleased : string := "Released".

(** ** Replication resources (csi-addons) *)

Inductive VRReplicationState := VRPrimary | VRSecondary | VRResync | VRStateUnset.
#[export] Instance VRReplicationState_eq : EqDecision VRReplicationState.
Proof. solve_decision. Defined.
Definition VRReplicationState_string (s : VRReplicationState) : string :=
  match s with VRPrimary => "primary" | VRSecondary => "secondary" | VRResync => "resync" | VRStateUnset => "" end.

Definition VRConditionValidated : string := "Validated".
Definition VRConditionCompleted : string := "Completed".
Definition VRConditionDegraded : string := "Degraded".
Definition VRConditionResyncing : string := "Resyncing".
Definition VRConditionReplicating : string := "Replicating".

Record VolumeReplicationStatus := mkVRStatus {
  vrs_State : State;
  vrs_Conditions : list Condition;
  vrs_ObservedGeneration : Z;
  vrs_LastSyncTime : option Z;
  vrs_LastSyncDuration : option Z;
  vrs_LastSyncBytes : option Z;
  vrs_DestinationVolumeID : string;
}.
#[export] Instance eta_VRStatus : Eta VolumeReplicationStatus := λ x,
  mkVRStatus (vrs_State x) (vrs_Conditions x) (vrs_ObservedGeneration x) (vrs_LastSyncTime x)
    (vrs_LastSyncDuration x) (vrs_LastSyncBytes x) (vrs_DestinationVolumeID x).
#[export] Instance VRStatus_eq : EqDecision VolumeReplicationStatus.
Proof. solve_decision. Defined.
Definition zero_vrstatus : VolumeReplicationStatus := mkVRStatus StateUnset [] 0 None None None "".

Record VolumeReplicationSpec := mkVRSpec {
  vrp_VolumeReplicationClass : string;
  vrp_ReplicationState : VRReplicationState;
  vrp_DataSource : string * string;
  vrp_AutoResync : bool;
}.
#[export] Instance eta_VRSpec : Eta VolumeReplicationSpec := λ x,
  mkVRSpec (vrp_VolumeReplicationClass x) (vrp_ReplicationState x) (vrp_DataSource x) (vrp_AutoResync x).
#[export] Instance VRSpec_eq : EqDecision VolumeReplicationSpec.
Proof. solve_decision. Defined.

Record VolumeReplication := mkVR {
  vr_Meta : ObjectMeta;
  vr_Spec : VolumeReplicationSpec;
  vr_Status : VolumeReplicationStatus;
}.
#[export] Instance eta_VR : Eta VolumeReplication := λ x, mkVR (vr_Meta x) (vr_Spec x) (vr_Status x).
#[export] Instance VR_eq : EqDecision VolumeReplication.
Proof. solve_decision. Defined.

Record VolumeGroupReplicationSpec := mkVGRSpec {
  vgp_ReplicationState : VRReplicationState;
  vgp_VolumeReplicationClassName : string;
  vgp_VolumeGroupReplicationClassName : string;
  vgp_VolumeGroupReplicationContentName : string;
  vgp_External : bool;
  vgp_AutoResync : bool;
  vgp_Selector : option LabelSelector;
}.
#[export] Instance eta_VGRSpec : Eta VolumeGroupReplicationSpec := λ x,
  mkVGRSpec (vgp_ReplicationState x) (vgp_VolumeReplicationClassName x)
    (vgp_VolumeGroupReplicationClassName x) (vgp_VolumeGroupReplicationContentName x) (vgp_External x)
    (vgp_AutoResync x) (vgp_Selector x).
#[export] Instance VGRSpec_eq : EqDecision VolumeGroupReplicationSpec.
Proof. solve_decision. Defined.

Record VolumeGroupReplication := mkVGR {
  vgr_Meta : ObjectMeta;
  vgr_Spec : VolumeGroupReplicationSpec;
  vgr_Status : VolumeReplicationStatus;
  vgr_PVCRefs : list string;
}.
#[export] Instance eta_VGR : Eta VolumeGroupReplication := λ x,
  mkVGR (vgr_Meta x) (vgr_Spec x) (vgr_Status x) (vgr_PVCRefs x).
#[export] Instance VGR_eq : EqDecision VolumeGroupReplication.
Proof. solve_decision. Defined.

(** A mapping is of a volume's name, its handle, and the handle of its replica. *)
Record PVMapping := mkPVMapping {
  pvm_Name : string;
  pvm_VolumeHandle : string;
  pvm_DestinationVolumeHandle : string;
}.
#[export] Instance PVMapping_eq : EqDecision PVMapping.
Proof. solve_decision. Defined.

Record VolumeGroupReplicationContent := mkVGRC {
  vgrc_Meta : ObjectMeta;
  vgrc_Ref : option (string * string);
  vgrc_Handle : string;
  vgrc_ClassName : string;
  vgrc_VolumeHandles : list string;
  vgrc_Attributes : gmap string string;
  vgrc_Mappings : list PVMapping;
  vgrc_DestinationVolumeGroupID : string;
}.
#[export] Instance eta_VGRC : Eta VolumeGroupReplicationContent := λ x,
  mkVGRC (vgrc_Meta x) (vgrc_Ref x) (vgrc_Handle x) (vgrc_ClassName x) (vgrc_VolumeHandles x)
    (vgrc_Attributes x) (vgrc_Mappings x) (vgrc_DestinationVolumeGroupID x).
#[export] Instance VGRC_eq : EqDecision VolumeGroupReplicationContent.
Proof. solve_decision. Defined.

(** ** The workload *)

Record Pod := mkPod {
  pod_Namespace : string;
  pod_Name : string;
  pod_ClaimNames : list string;
  pod_Phase : string;
  pod_Ready : bool;
}.
Record VolumeAttachment := mkVolumeAttachment {
  att_Source : option string;
  att_NodeName : string;
}.

(** [ReadyToUse] of a status that may be missing. *)
Record VolumeSnapshot := mkVolumeSnapshot {
  vsn_Meta : ObjectMeta;
  vsn_SourcePVC : option string;
  vsn_ClassName : option string;
  vsn_ReadyToUse : option bool;
}.
#[export] Instance eta_VolumeSnapshot : Eta VolumeSnapshot := λ x,
  mkVolumeSnapshot (vsn_Meta x) (vsn_SourcePVC x) (vsn_ClassName x) (vsn_ReadyToUse x).

(** A KubeVirt machine, with the annotations of its template, if it has one. *)
Record VirtualMachine := mkVirtualMachine {
  vm_Meta : ObjectMeta;
  vm_TemplateAnnotations : option (gmap string string);
}.
#[export] Instance eta_VirtualMachine : Eta VirtualMachine := λ x, mkVirtualMachine (vm_Meta x) (vm_TemplateAnnotations x).

(** ** VolSync's resources: the time of a source's last synchronisation, the names of the
    sources of a group, and the address of a destination. *)
Record ReplicationSource := mkReplicationSource {
  rsrc_Meta : ObjectMeta;
  rsrc_LastSyncTime : option Z;
}.
#[export] Instance eta_ReplicationSource : Eta ReplicationSource := λ x,
  mkReplicationSource (rsrc_Meta x) (rsrc_LastSyncTime x).
Record ReplicationGroupSource := mkReplicationGroupSource {
  rgs_Meta : ObjectMeta;
  rgs_ReplicationSources : list string;
}.
#[export] Instance eta_ReplicationGroupSource : Eta ReplicationGroupSource := λ x,
  mkReplicationGroupSource (rgs_Meta x) (rgs_ReplicationSources x).

(** With the address of a status that has one. *)
Record ReplicationDestination := mkReplicationDestination {
  rdst_Meta : ObjectMeta;
  rdst_Address : option string;
}.
#[export] Instance eta_ReplicationDestination : Eta ReplicationDestination := λ x,
  mkReplicationDestination (rdst_Meta x) (rdst_Address x).

(** ** S3 stores

    What is uploaded: objects of these types.  A bucket holds bytes by key. *)

Inductive S3Object :=
  | S3PV (pv : PersistentVolume)
  | S3PVC (pvc : PersistentVolumeClaim)
  | S3VGR (vgr : VolumeGroupReplication)
  | S3VGRC (vgrc : VolumeGroupReplicationContent)
  | S3VRG (vrg : VolumeReplicationGroup).

(** A [gzip.Writer]: the text written to it, and whether it was closed. *)
Record GzipWriter := mkGzipWriter {
  gw_text : string;
  gw_closed : bool;
}.

(** What is read through a [gzip.Reader]: text, and the error that cuts it short. *)
Abbreviation GzipStream := (string * option GoError)%type.

(** ** The state

    [k_] fields are the cluster's and the stores', with cluster-scoped objects in the
    namespace [""] and [k_objects] the metadata of objects of other kinds; [v_] fields are
    those of [VRGInstance] or, for [v_vrgLastUploadVersion], [v_recipeRetries],
    [v_lastSeenProtectedVMsList] and the excluded resources, what the process remembers of
    the VRG from one reconcile to the next.  [v_selectorShared] is whether the selector of
    the claims has its label map from the VRG's spec, and so shares it. *)

(** Namespace and name. *)
Abbreviation NamespacedName := (string * string)%type.
Abbreviation ptr := nat.

(** [cachedObjectStorer]: a store by the name of its profile, or an error. *)
Record cachedObjectStorer := mkCachedObjectStorer {
  cos_storer : option string;
  cos_err : option GoError;
}.

Record Volumes := mkVolumes {
  k_pvcs : gmap NamespacedName PersistentVolumeClaim;
  k_pvs : gmap NamespacedName PersistentVolume;
  k_vrs : gmap NamespacedName VolumeReplication;
  k_vgrs : gmap NamespacedName VolumeGroupReplication;
  k_vgrcs : gmap NamespacedName VolumeGroupReplicationContent;
  k_storageClasses : gmap NamespacedName StorageClass;
  k_vrClasses : list ReplicationClass;
  k_vgrClasses : list ReplicationClass;
  k_vacs : gset string;
  k_crds : gset string;
  k_pods : list Pod;
  k_attachments : list VolumeAttachment;
  k_snapshots : gmap NamespacedName VolumeSnapshot;
  k_snapshotClasses : list SnapshotClass;
  k_replicationSources : gmap NamespacedName ReplicationSource;
  k_replicationGroupSources : gmap NamespacedName ReplicationGroupSource;
  k_replicationDestinations : gmap NamespacedName ReplicationDestination;
  k_vms : gmap NamespacedName VirtualMachine;
  k_objects : gmap (GVK * NamespacedName) ObjectMeta;
  k_configMaps : gmap NamespacedName ConfigMap;
  k_recipes : gmap NamespacedName RecipeSpec;
  k_backups : gmap NamespacedName Backup;
  k_restores : gmap NamespacedName Restore;
  k_bsls : gmap NamespacedName BackupStorageLocation;
  k_vrgs : list VolumeReplicationGroup;
  k_s3 : gmap string (gmap string string);
  v_instance : VolumeReplicationGroup;
  v_savedInstanceStatus : VolumeReplicationGroupStatus;
  v_recipe : option RecipeSpec;
  v_recipeElements : RecipeElements;
  v_pvcNamespaces : list string;
  v_selectorShared : bool;
  v_pvcSelector : LabelSelector;
  v_heap : list PersistentVolumeClaim;
  v_volRepPVCs : list ptr;
  v_volSyncPVCs : list ptr;
  v_replClassList : list ReplicationClass;
  v_grpReplClassList : list ReplicationClass;
  v_vrcUpdated : bool;
  v_storageClassCache : gmap string StorageClass;
  v_vacCache : gset string;
  v_snapshotClassList : option (list SnapshotClass);
  v_objectStorers : gmap string cachedObjectStorer;
  v_s3StoreAccessors : list string;
  v_vrgLastUploadVersion : option string;
  v_recipeRetries : option Z;
  v_lastSeenProtectedVMsList : gmap string (list string);
  v_cachedExcludedResources : list string;
  v_cachedExclusions : option (list string);
  v_workloadStatus : string;
  v_vrgObjectProtected : option Condition;
  v_kubeObjectsProtected : option Condition;
  v_events : EventReporter;
  v_requeue : bool;
  v_tick : nat;
}.
#[export] Instance eta_Volumes : Eta Volumes := λ w,
  mkVolumes (k_pvcs w) (k_pvs w) (k_vrs w) (k_vgrs w) (k_vgrcs w) (k_storageClasses w) (k_vrClasses w)
    (k_vgrClasses w) (k_vacs w) (k_crds w) (k_pods w) (k_attachments w) (k_snapshots w) (k_snapshotClasses w)
    (k_replicationSources w) (k_replicationGroupSources w) (k_replicationDestinations w) (k_vms w) (k_objects w)
    (k_configMaps w) (k_recipes w) (k_backups w) (k_restores w) (k_bsls w) (k_vrgs w) (k_s3 w) (v_instance w)
    (v_savedInstanceStatus w) (v_recipe w) (v_recipeElements w) (v_pvcNamespaces w) (v_selectorShared w)
    (v_pvcSelector w) (v_heap w) (v_volRepPVCs w) (v_volSyncPVCs w) (v_replClassList w) (v_grpReplClassList w)
    (v_vrcUpdated w) (v_storageClassCache w) (v_vacCache w) (v_snapshotClassList w) (v_objectStorers w)
    (v_s3StoreAccessors w) (v_vrgLastUploadVersion w) (v_recipeRetries w) (v_lastSeenProtectedVMsList w)
    (v_cachedExcludedResources w) (v_cachedExclusions w) (v_workloadStatus w) (v_vrgObjectProtected w)
    (v_kubeObjectsProtected w) (v_events w) (v_requeue w) (v_tick w).

Abbreviation VOp := (M Volumes).

(** ** The environment *)

Class VolEnv := {
  (** The clock, the failure of the API call made at a tick, and the version the server
      gives an object that is written. *)
  kenv_now : nat → Z;
  kenv_api_err : nat → option GoError;
  kenv_resourceVersion : nat → string;
  (** The digest of a claim's spec ([HashPVC]), and the storage it requests. *)
  kenv_hash : PVCSpec → string;
  kenv_storageRequest : string → Z;
  (** ObjectStoreGetter, and the failure of an S3 client's call. *)
  kenv_ObjectStore : nat → string → option GoError;
  kenv_s3_err : nat → option GoError;
  (** The keys, less one, that a store puts on a page of a list. *)
  kenv_s3_page : nat → nat;
  (** encoding/json: the text an object is encoded as, and the decoder of each type. *)
  kenv_json : S3Object → string + GoError;
  kenv_json_PV : GzipStream → PersistentVolume + GoError;
  kenv_json_PVC : GzipStream → PersistentVolumeClaim + GoError;
  kenv_json_VGR : GzipStream → VolumeGroupReplication + GoError;
  kenv_json_VGRC : GzipStream → VolumeGroupReplicationContent + GoError;
  kenv_json_VRG : GzipStream → VolumeReplicationGroup + GoError;
  (** compress/gzip: the bytes a writer has put in the buffer below it, and the failure of
      its [Close]; of some bytes, the failure of [NewReader], what is read from them, and
      the failure of the reader's [Close]. *)
  kenv_gzip : GzipWriter → string;
  kenv_gzip_Close : GzipWriter → option GoError;
  kenv_gzip_NewReader : string → option GoError;
  kenv_gunzip : string → GzipStream;
  kenv_gunzip_Close : string → option GoError;
  (** The order of a range over the groups, or over the keys of a map: any order. *)
  kenv_range : nat → gmap NamespacedName (list ptr) → list (NamespacedName * list ptr);
  kenv_range_perm : ∀ t m, kenv_range t m ≡ₚ map_to_list m;
  kenv_range_keys : nat → gset string → list string;
  kenv_range_keys_perm : ∀ t s, kenv_range_keys t s ≡ₚ elements s;
  (** metav1.LabelSelectorAsSelector *)
  kenv_LabelSelectorAsSelector : LabelSelector → (gmap string string → bool) + GoError;
}.

(** What a reconcile reads of its configuration: the admin namespaces, whether removing a
    claim's protection is enabled. *)
Class VRGConfig := {
  v_ramenOperatorNamespace : string;
  v_ramenOperandsNamespace : string;
  v_VolumeUnprotectionEnabled : bool;
}.

Definition absent (what : string) : GoError := StatusError ReasonNotFound (what +:+ " not found").
Definition present (what : string) : GoError := StatusError ReasonAlreadyExists (what +:+ " already exists").
Definition nn_string (n : NamespacedName) : string := n.1 +:+ "/" +:+ n.2.

Section calls.
Context `{VolEnv}.

Definition vtick : VOp nat := λ w, (v_tick w, w <| v_tick ::= S |>).
Definition vnow : VOp Z := t ← vtick; mret (kenv_now t).
Definition vapi_err : VOp (option GoError) := t ← vtick; mret (kenv_api_err t).

(** *** Objects of the API server

    [merge old new] is what the server stores for an update: status, deletion time and
    the like are its own.  [born] is what it stores for a new object.  A deleted object
    is gone with its last finalizer. *)
Section kind.
Context {A : Type} (proj : Volumes → gmap NamespacedName A) `{!Setter proj}.
Context (meta : A → ObjectMeta) (with_meta : (ObjectMeta → ObjectMeta) → A → A).
Context (merge : A → A → A) (born : A → A).

Definition object_key (x : A) : NamespacedName := (om_Namespace (meta x), om_Name (meta x)).

Definition kGet (n : NamespacedName) : VOp (A + GoError) :=
  err? vapi_err then e => mret (inr e);
  table ← gets proj;
  mret (match table !! n with
        | Some x => inl (with_meta (λ m, m <| om_Namespace := n.1 |> <| om_Name := n.2 |>) x)
        | None => inr (absent n.2)
        end).

Definition kCreate (x : A) : VOp (option GoError) :=
  err? vapi_err then e => mret (Some e);
  table ← gets proj;
  match table !! object_key x with
  | Some _ => mret (Some (present (om_Name (meta x))))
  | None =>
      t ← vtick;
      modify (λ w, w <| proj ::= <[object_key x :=
        with_meta (λ m, m <| om_ResourceVersion := kenv_resourceVersion t |>) (born x)]> |>);;
      mret None
  end.

(** The result is the object as stored, which the client puts in the caller's. *)
Definition kUpdate (x : A) : VOp (A + GoError) :=
  err? vapi_err then e => mret (inr e);
  table ← gets proj;
  match table !! object_key x with
  | None => mret (inr (absent (om_Name (meta x))))
  | Some old =>
      t ← vtick;
      let x' := with_meta (λ m, m <| om_ResourceVersion := kenv_resourceVersion t |>) (merge old x) in
      (if ResourceIsDeleted (meta x') && bool_decide (om_Finalizers (meta x') = [])
       then modify (λ w, w <| proj ::= delete (object_key x) |>)
       else modify (λ w, w <| proj ::= <[object_key x := x']> |>));;
      mret (inl x')
  end.

Definition kDelete (n : NamespacedName) : VOp (option GoError) :=
  err? vapi_err then e => mret (Some e);
  table ← gets proj;
  match table !! n with
  | None => mret (Some (absent n.2))
  | Some x =>
      t ← vtick;
      (if bool_decide (om_Finalizers (meta x) = [])
       then modify (λ w, w <| proj ::= delete n |>)
       else modify (λ w, w <| proj ::= <[n := with_meta (λ m, m <| om_DeletionTimestamp :=
              Some (default (kenv_now t) (om_DeletionTimestamp m)) |>) x]> |>));;
      mret None
  end.
End kind.

(** What an update of a client leaves alone: the identity of the object and its times. *)
Definition server_meta (old new : ObjectMeta) : ObjectMeta :=
  new <| om_UID := om_UID old |> <| om_CreationTimestamp := om_CreationTimestamp old |>
      <| om_DeletionTimestamp := om_DeletionTimestamp old |> <| om_Generation := om_Generation old |>.

(** A change of the spec of a custom resource makes a new generation. *)
Definition next_generation (same_spec : bool) (m : ObjectMeta) : ObjectMeta :=
  if same_spec then m else m <| om_Generation ::= Z.succ |>.

Definition merge_pvc (old new : PersistentVolumeClaim) : PersistentVolumeClaim :=
  new <| pvc_Meta := server_meta (pvc_Meta old) (pvc_Meta new) |> <| pvc_Phase := pvc_Phase old |>
      <| pvc_Capacity := pvc_Capacity old |>.
Definition merge_pv (old new : PersistentVolume) : PersistentVolume :=
  new <| pv_Meta := server_meta (pv_Meta old) (pv_Meta new) |> <| pv_Phase := pv_Phase old |>.
Definition merge_vr (old new : VolumeReplication) : VolumeReplication :=
  new <| vr_Meta := next_generation (vr_Spec old =? vr_Spec new) (server_meta (vr_Meta old) (vr_Meta new)) |>
      <| vr_Status := vr_Status old |>.
Definition merge_vgr (old new : VolumeGroupReplication) : VolumeGroupReplication :=
  new <| vgr_Meta := next_generation (vgr_Spec old =? vgr_Spec new) (server_meta (vgr_Meta old) (vgr_Meta new)) |>
      <| vgr_Status := vgr_Status old |> <| vgr_PVCRefs := vgr_PVCRefs old |>.
Definition merge_vgrc (old new : VolumeGroupReplicationContent) : VolumeGroupReplicationContent :=
  let same := (vgrc_Ref old =? vgrc_Ref new) && (vgrc_Handle old =? vgrc_Handle new) &&
              (vgrc_ClassName old =? vgrc_ClassName new) && (vgrc_VolumeHandles old =? vgrc_VolumeHandles new) &&
              (vgrc_Attributes old =? vgrc_Attributes new) in
  new <| vgrc_Meta := next_generation same (server_meta (vgrc_Meta old) (vgrc_Meta new)) |>
      <| vgrc_Mappings := vgrc_Mappings old |>
      <| vgrc_DestinationVolumeGroupID := vgrc_DestinationVolumeGroupID old |>.

Definition Get_pvc := kGet k_pvcs (λ f x, x <| pvc_Meta ::= f |>).
Definition Create_pvc := kCreate k_pvcs pvc_Meta (λ f x, x <| pvc_Meta ::= f |>)
  (λ x, x <| pvc_Phase := "Pending" |> <| pvc_Capacity := 0%Z |>).
Definition Update_pvc := kUpdate k_pvcs pvc_Meta (λ f x, x <| pvc_Meta ::= f |>) merge_pvc.
Definition Delete_pvc := kDelete k_pvcs pvc_Meta (λ f x, x <| pvc_Meta ::= f |>).
Definition Get_pv (name : string) := kGet k_pvs (λ f x, x <| pv_Meta ::= f |>) ("", name).
Definition Create_pv := kCreate k_pvs pv_Meta (λ f x, x <| pv_Meta ::= f |>) (λ x, x <| pv_Phase := "Pending" |>).
Definition Update_pv := kUpdate k_pvs pv_Meta (λ f x, x <| pv_Meta ::= f |>) merge_pv.
Definition Delete_pv (name : string) := kDelete k_pvs pv_Meta (λ f x, x <| pv_Meta ::= f |>) ("", name).
Definition Get_vr := kGet k_vrs (λ f x, x <| vr_Meta ::= f |>).
Definition Create_vr := kCreate k_vrs vr_Meta (λ f x, x <| vr_Meta ::= f |>)
  (λ x, x <| vr_Meta ::= λ m, m <| om_Generation := 1%Z |> |> <| vr_Status := zero_vrstatus |>).
Definition Update_vr := kUpdate k_vrs vr_Meta (λ f x, x <| vr_Meta ::= f |>) merge_vr.
Definition Delete_vr := kDelete k_vrs vr_Meta (λ f x, x <| vr_Meta ::= f |>).
Definition Get_vgr := kGet k_vgrs (λ f x, x <| vgr_Meta ::= f |>).
Definition Create_vgr := kCreate k_vgrs vgr_Meta (λ f x, x <| vgr_Meta ::= f |>)
  (λ x, x <| vgr_Meta ::= λ m, m <| om_Generation := 1%Z |> |> <| vgr_Status := zero_vrstatus |> <| vgr_PVCRefs := [] |>).
Definition Update_vgr := kUpdate k_vgrs vgr_Meta (λ f x, x <| vgr_Meta ::= f |>) merge_vgr.
Definition Delete_vgr := kDelete k_vgrs vgr_Meta (λ f x, x <| vgr_Meta ::= f |>).
Definition Get_vgrc (name : string) := kGet k_vgrcs (λ f x, x <| vgrc_Meta ::= f |>) ("", name).
Definition Create_vgrc := kCreate k_vgrcs vgrc_Meta (λ f x, x <| vgrc_Meta ::= f |>)
  (λ x, x <| vgrc_Meta ::= λ m, m <| om_Generation := 1%Z |> |> <| vgrc_Mappings := [] |>
          <| vgrc_DestinationVolumeGroupID := "" |>).
Definition Create_snapshot := kCreate k_snapshots vsn_Meta (λ f x, x <| vsn_Meta ::= f |>)
  (λ x, x <| vsn_ReadyToUse := None |>).
Definition Delete_snapshot := kDelete k_snapshots vsn_Meta (λ f x, x <| vsn_Meta ::= f |>).
Definition Update_vgrc := kUpdate k_vgrcs vgrc_Meta (λ f x, x <| vgrc_Meta ::= f |>) merge_vgrc.

(** A list call: the objects that match. *)
Definition kList {A} (proj : Volumes → list A) (matches : A → bool) : VOp (list A + GoError) :=
  err? vapi_err then e => mret (inr e);
  l ← gets proj;
  mret (inl (List.filter matches l)).

(** *** The instance *)

Definition modify_vrg (f : VolumeReplicationGroup → VolumeReplicationGroup) : VOp unit :=
  modify (λ w, w <| v_instance ::= f |>).
Definition requeue : VOp unit := modify (λ w, w <| v_requeue := true |>).

(** [*pvc], [*pvc = x], [&x]. *)
Definition load (p : ptr) : VOp PersistentVolumeClaim := gets (λ w, default zero_pvc (v_heap w !! p)).
Definition store (p : ptr) (x : PersistentVolumeClaim) : VOp unit := modify (λ w, w <| v_heap ::= <[p := x]> |>).
Definition alloc (x : PersistentVolumeClaim) : VOp ptr := λ w, (length (v_heap w), w <| v_heap ::= λ l, l ++ [x] |>).

(** [client.Update(ctx, pvc)]: a success refreshes the object behind the pointer. *)
Definition Update_pvc_at (p : ptr) : VOp (option GoError) :=
  pvc ← load p;
  r ← Update_pvc pvc;
  match r with
  | inl x => store p x;; mret None
  | inr e => mret (Some e)
  end.

Definition report_event (eventType reason msg : string) : VOp unit :=
  now ← vnow; now' ← vnow;
  modify (λ w, w <| v_events ::= λ r,
    ReportIfNotPresent now now' r (vrg_Meta (v_instance w)) eventType reason msg |>).
End calls.

Definition pvc_name (x : PersistentVolumeClaim) : string := om_Name (pvc_Meta x).
Definition pvc_namespace (x : PersistentVolumeClaim) : string := om_Namespace (pvc_Meta x).
Definition pvc_nn (x : PersistentVolumeClaim) : NamespacedName := (pvc_namespace x, pvc_name x).
Definition pv_name (x : PersistentVolume) : string := om_Name (pv_Meta x).
Definition vrg_nn (v : VolumeReplicationGroup) : string :=
  om_Namespace (vrg_Meta v) +:+ "/" +:+ om_Name (vrg_Meta v).
