(* ===== verification/VolRepStatus.v ===== *)
(** * What a replication resource says of its claims

    internal/controller/vrg_volrep.go: how the status of a VolumeReplication, or of a
    VolumeGroupReplication, becomes the DataReady and DataProtected conditions of the
    claims it replicates and the verdict that it has reached the state asked for; and the
    short cut of vrg_volgrouprep_global.go for groups that are shared between VRGs. *)

From Stdlib Require Import ZArith.
From S2P Require Import Prelude Meta Names Conditions Api VRGStatus PolicyPeers Events Volumes.

Definition VGRCRDName : string := "volumegroupreplications.replication.storage.openshift.io".
Definition ConsistencyGroupLabel : string := "ramendr.openshift.io/consistency-group".

(** [for _, x := range l] *)
Fixpoint for_each {W A} (f : A → M W unit) (l : list A) : M W unit :=
  match l with
  | [] => mret tt
  | x :: l' => f x;; for_each f l'
  end.

Inductive conditionState := conditionMissing | conditionStale | conditionUnknown | conditionKnown.
#[export] Instance conditionState_eq : EqDecision conditionState.
Proof. solve_decision. Defined.

(** Of [volRep] only the generation is read. *)
Definition isVRConditionMet (generation : Z) (status : VolumeReplicationStatus) (conditionType : string)
    (desiredStatus : ConditionStatus) : bool * conditionState * string :=
  match FindCondition (vrs_Conditions status) conditionType with
  | None =>
      (false, conditionMissing,
       "Failed to get the " +:+ conditionType +:+ " condition from status of VolumeReplication resource.")
  | Some c =>
      if generation ≠? cond_ObservedGeneration c then
        (false, conditionStale,
         "Stale generation for condition " +:+ conditionType +:+ " from status of VolumeReplication resource.")
      else if cond_Status c =? ConditionUnknown then
        (false, conditionUnknown,
         "Unknown status for condition " +:+ conditionType +:+ " from status of VolumeReplication resource.")
      else if cond_Status c ≠? desiredStatus then (false, conditionKnown, cond_Message c)
      else (true, conditionKnown, "")
  end.

Section status.
Context `{VolEnv}.

(** ** The conditions of a claim *)

Definition update_pvc_status (pvcNamespace pvcName : string)
    (set : Z → ProtectedPVC → Z → ProtectedPVC) : VOp unit :=
  now ← vnow;
  modify_vrg (λ v, with_protected_pvc v pvcNamespace pvcName (λ p, set now p (om_Generation (vrg_Meta v)))).

Definition updatePVCDataReadyCondition (pvcNamespace pvcName reason message : string) : VOp unit :=
  update_pvc_status pvcNamespace pvcName (λ now p, setPVCDataReadyCondition now p reason message).

Definition updatePVCDataProtectedCondition (pvcNamespace pvcName reason message : string) : VOp unit :=
  update_pvc_status pvcNamespace pvcName (λ now p, setPVCDataProtectedCondition now p reason message).

Definition updatePVCClusterDataProtectedCondition (pvcNamespace pvcName reason message : string) : VOp unit :=
  update_pvc_status pvcNamespace pvcName (λ now p, setPVCClusterDataProtectedCondition now p reason message).

Definition updatePVCDestinationInfoAvailableCondition (pvcNamespace pvcName reason message : string) : VOp unit :=
  update_pvc_status pvcNamespace pvcName (λ now p, setPVCDestinationInfoAvailableCondition now p reason message).

Definition updatePVCReplicationHealthyCondition (pvcNamespace pvcName : string) (status : ConditionStatus)
    (reason message : string) : VOp unit :=
  update_pvc_status pvcNamespace pvcName (λ now p observedGeneration,
    p <| pp_Conditions ::= λ conditions, set_condition now conditions
           (new_condition VRGConditionTypeReplicationHealthy status reason observedGeneration message) |>).

(** The loops over claims. *)
Definition data_ready_all (pvcs : list ptr) (reason message : string) : VOp unit :=
  for_each (λ p, pvc ← load p; updatePVCDataReadyCondition (pvc_namespace pvc) (pvc_name pvc) reason message) pvcs.

Definition data_ready_and_protected_all (pvcs : list ptr) (ready protected message : string) : VOp unit :=
  for_each (λ p,
    pvc ← load p;
    updatePVCDataReadyCondition (pvc_namespace pvc) (pvc_name pvc) ready message;;
    updatePVCDataProtectedCondition (pvc_namespace pvc) (pvc_name pvc) protected message) pvcs.

Definition checkAndUpdateDestinationInfoAvailable (pvcs : list ptr) (status : VolumeReplicationStatus) : VOp unit :=
  match FindCondition (vrs_Conditions status) VRGConditionTypeDestinationInfoAvailable with
  | None => mret tt
  | Some destInfoCond =>
      for_each (λ p,
        pvc ← load p;
        if cond_Status destInfoCond =? ConditionTrue then
          updatePVCDestinationInfoAvailableCondition (pvc_namespace pvc) (pvc_name pvc)
            VRGConditionReasonReady "VolumeReplication destination info is available"
        else
          updatePVCDestinationInfoAvailableCondition (pvc_namespace pvc) (pvc_name pvc)
            VRGConditionReasonProgressing "VolumeReplication destination info not yet available") pvcs
  end.

Definition checkAndUpdateReplicationHealthy (pvcs : list ptr) (status : VolumeReplicationStatus) : VOp unit :=
  match FindCondition (vrs_Conditions status) VRConditionReplicating with
  | None => mret tt
  | Some replicatingCond =>
      let reason := match cond_Status replicatingCond with
                    | ConditionTrue => VRGConditionReasonReady
                    | ConditionFalse => VRGConditionReasonError
                    | _ => VRGConditionReasonErrorUnknown
                    end in
      let message := if cond_Message replicatingCond =? ""
                     then "VolumeReplication Replicating condition has no message"
                     else cond_Message replicatingCond in
      for_each (λ p,
        pvc ← load p;
        updatePVCReplicationHealthyCondition (pvc_namespace pvc) (pvc_name pvc)
          (cond_Status replicatingCond) reason message) pvcs
  end.

(** ** Consistency groups *)

(** util/misc.go *)
Definition IsCRDInstalled (crdName : string) : VOp bool :=
  err ← vapi_err; crds ← gets k_crds;
  mret (match err with Some _ => false | None => bool_decide (crdName ∈ crds) end).
Definition IsCGEnabledForVolRep : VOp bool := IsCRDInstalled VGRCRDName.

(** The definition's presence is only asked for when the label is there. *)
Definition isCGEnabled (pvc : PersistentVolumeClaim) : VOp (string * bool) :=
  match om_Labels (pvc_Meta pvc) !! ConsistencyGroupLabel with
  | None => mret ("", false)
  | Some cg => b ← IsCGEnabledForVolRep; mret (cg, b)
  end.

Definition pvcInGroupedList (groups : list (list string)) (pvcName : string) : bool :=
  existsb (λ grouped, bool_decide (pvcName ∈ grouped)) groups.

Definition groupAlreadyHasThisSyncTime (saved : list ProtectedPVC) (groups : list (list string))
    (pvcName : string) (vgrSyncTime : option Z) : bool :=
  match vgrSyncTime with
  | None => false
  | Some t =>
      existsb (λ other,
        (pp_Name other ≠? pvcName) && (pp_LastSyncTime other =? Some t) &&
        existsb (λ grouped, bool_decide (pvcName ∈ grouped) && bool_decide (pp_Name other ∈ grouped)) groups) saved
  end.

Definition isPVCSyncedInVGR (saved : list ProtectedPVC) (groups : list (list string))
    (pvc : PersistentVolumeClaim) (protectedPVC : ProtectedPVC) (vgrSyncTime : option Z) : bool :=
  match vgrSyncTime with
  | None => true
  | Some t =>
      if negb (pvcInGroupedList groups (pvc_name pvc)) then false
      else if negb (bool_decide (om_CreationTimestamp (pvc_Meta pvc) < t)%Z) then false
      else if (pp_LastSyncTime protectedPVC =? None) &&
              groupAlreadyHasThisSyncTime saved groups (pvc_name pvc) vgrSyncTime then false
      else true
  end.

(** The assignments through the pointer of an entry that is there. *)
Definition set_sync (time duration bytes : option Z) (p : ProtectedPVC) : ProtectedPVC :=
  let p := p <| pp_LastSyncTime := time |> <| pp_LastSyncDuration := duration |> in
  if pp_ProtectedByVolSync p then p else p <| pp_LastSyncBytes := bytes |>.

Definition updatePVCLastSyncCounters (p : ptr) (status : option VolumeReplicationStatus) : VOp unit :=
  pvc ← load p;
  v ← gets v_instance;
  match FindProtectedPVC v (pvc_namespace pvc) (pvc_name pvc) with
  | None => mret tt
  | Some protectedPVC =>
      match status with
      | None =>
          modify_vrg (λ v, with_protected_pvc v (pvc_namespace pvc) (pvc_name pvc) (set_sync None None None))
      | Some status =>
          cg ← isCGEnabled pvc;
          saved ← gets v_savedInstanceStatus;
          if cg.2 && negb (isPVCSyncedInVGR (vst_ProtectedPVCs saved) (vst_PVCGroups (vrg_Status v)) pvc
                             protectedPVC (vrs_LastSyncTime status))
          then mret tt
          else modify_vrg (λ v, with_protected_pvc v (pvc_namespace pvc) (pvc_name pvc)
                 (set_sync (vrs_LastSyncTime status) (vrs_LastSyncDuration status) (vrs_LastSyncBytes status)))
      end
  end.

(** ** Groups shared between VRGs (vrg_volgrouprep_global.go) *)

Definition globalVGRLabel (v : VolumeReplicationGroup) : string := map_get (om_Labels (vrg_Meta v)) GlobalVGRLabel.
Definition hasGlobalVGRLabel (v : VolumeReplicationGroup) : bool := globalVGRLabel v ≠? "".

Definition isGlobalVGRStateMatched (status : VolumeReplicationStatus) (desiredState : ReplicationState) : bool :=
  match desiredState with
  | Primary => vrs_State status =? PrimaryState
  | Secondary => vrs_State status =? SecondaryState
  | ReplicationUnset => false
  end.

Definition validateGlobalVGRStatus (pvcs : list ptr) (status : VolumeReplicationStatus)
    (state : ReplicationState) : VOp bool :=
  v ← gets v_instance;
  if negb (hasGlobalVGRLabel v) then mret false
  else if negb (isGlobalVGRStateMatched status state) then mret false
  else
    let dataReadyReason := if state ≠? Primary then VRGConditionReasonReplicated else VRGConditionReasonReady in
    for_each (λ p,
      pvc ← load p;
      updatePVCDataReadyCondition (pvc_namespace pvc) (pvc_name pvc) dataReadyReason
        "PVC in the VolumeReplicationGroup is ready for use";;
      updatePVCDataProtectedCondition (pvc_namespace pvc) (pvc_name pvc) VRGConditionReasonDataProtected
        "PVC in the VolumeReplicationGroup is data protected by storage provider";;
      updatePVCLastSyncCounters p (Some status)) pvcs;;
    mret true.

(** ** The verdict *)

Definition validateVRValidatedStatus (pvcs : list ptr) (generation : Z) (status : VolumeReplicationStatus)
    : VOp (bool * conditionState) :=
  let '(conditionMet, condState, errorMsg) :=
    isVRConditionMet generation status VRConditionValidated ConditionTrue in
  if negb conditionMet then
    let errorMsg := if errorMsg =? "" then "VolumeReplication resource not validated" else errorMsg in
    (if condState ≠? conditionMissing
     then data_ready_and_protected_all pvcs VRGConditionReasonError VRGConditionReasonError errorMsg
     else mret tt);;
    mret (conditionMet, condState)
  else mret (conditionMet, condState).

Definition validateVRCompletedStatus (pvcs : list ptr) (generation : Z) (state : ReplicationState)
    (status : VolumeReplicationStatus) : VOp bool :=
  let '(conditionMet, _, errorMsg) := isVRConditionMet generation status VRConditionCompleted ConditionTrue in
  if negb conditionMet then
    let '(action, stateString) := match state with
                                  | Primary => ("promoted", "primary")
                                  | Secondary => ("demoted", "secondary")
                                  | ReplicationUnset => ("", "")
                                  end in
    let errorMsg := if errorMsg =? ""
                    then "VolumeReplication resource for pvc not " +:+ action +:+ " to " +:+ stateString
                    else errorMsg in
    data_ready_and_protected_all pvcs VRGConditionReasonError VRGConditionReasonError errorMsg;;
    mret false
  else mret true.

Definition checkResyncCompletionAsSecondary (pvcs : list ptr) (generation : Z)
    (status : VolumeReplicationStatus) : VOp bool :=
  let '(conditionMet, _, errorMsg) := isVRConditionMet generation status VRConditionResyncing ConditionFalse in
  if negb conditionMet then
    let errorMsg := if errorMsg =? "" then "VolumeReplication resource for pvc not syncing as Secondary"
                    else errorMsg in
    data_ready_and_protected_all pvcs VRGConditionReasonError VRGConditionReasonError errorMsg;;
    mret false
  else
    let '(conditionMet, _, errorMsg) := isVRConditionMet generation status VRConditionDegraded ConditionFalse in
    if negb conditionMet then
      let errorMsg := if errorMsg =? ""
                      then "VolumeReplication resource for pvc is not syncing and is degraded as Secondary"
                      else errorMsg in
      data_ready_and_protected_all pvcs VRGConditionReasonError VRGConditionReasonError errorMsg;;
      mret false
    else if vrs_State status ≠? SecondaryState then
      data_ready_and_protected_all pvcs VRGConditionReasonError VRGConditionReasonError
        "VolumeReplication resource is not syncing and is not degraded, but still not in Secondary state";;
      mret false
    else
      data_ready_and_protected_all pvcs VRGConditionReasonReplicated VRGConditionReasonDataProtected
        "VolumeReplication resource for the pvc as Secondary is in sync with Primary";;
      checkAndUpdateDestinationInfoAvailable pvcs status;;
      checkAndUpdateReplicationHealthy pvcs status;;
      mret true.

Definition validateAdditionalVRStatusForSecondary (pvcs : list ptr) (generation : Z)
    (status : VolumeReplicationStatus) : VOp bool :=
  for_each (λ p, updatePVCLastSyncCounters p None) pvcs;;
  if negb (isVRConditionMet generation status VRConditionResyncing ConditionTrue).1.1
  then checkResyncCompletionAsSecondary pvcs generation status
  else
    let '(conditionMet, _, errorMsg) := isVRConditionMet generation status VRConditionDegraded ConditionTrue in
    if negb conditionMet then
      let errorMsg := if errorMsg =? ""
                      then "VolumeReplication resource for pvc is not in Degraded condition while resyncing"
                      else errorMsg in
      for_each (λ p,
        pvc ← load p;
        updatePVCDataProtectedCondition (pvc_namespace pvc) (pvc_name pvc) VRGConditionReasonError errorMsg;;
        updatePVCDataReadyCondition (pvc_namespace pvc) (pvc_name pvc) VRGConditionReasonError errorMsg) pvcs;;
      mret false
    else
      data_ready_and_protected_all pvcs VRGConditionReasonReplicating VRGConditionReasonReplicating
        "VolumeReplication resource for the pvc is syncing as Secondary";;
      checkAndUpdateDestinationInfoAvailable pvcs status;;
      checkAndUpdateReplicationHealthy pvcs status;;
      mret true.

(** The part after the validation of a primary. *)
Definition validate_completed (pvcs : list ptr) (generation : Z) (state : ReplicationState)
    (status : VolumeReplicationStatus) : VOp bool :=
  completed ← validateVRCompletedStatus pvcs generation state status;
  if negb completed then mret false
  else if state =? Secondary then validateAdditionalVRStatusForSecondary pvcs generation status
  else
    for_each (λ p,
      pvc ← load p;
      updatePVCDataReadyCondition (pvc_namespace pvc) (pvc_name pvc) VRGConditionReasonReady
        "PVC in the VolumeReplicationGroup is ready for use";;
      updatePVCDataProtectedCondition (pvc_namespace pvc) (pvc_name pvc) VRGConditionReasonReady
        "PVC in the VolumeReplicationGroup is ready for use";;
      updatePVCLastSyncCounters p (Some status)) pvcs;;
    checkAndUpdateDestinationInfoAvailable pvcs status;;
    checkAndUpdateReplicationHealthy pvcs status;;
    mret true.

Definition validateVRStatus (pvcs : list ptr) (generation : Z) (state : ReplicationState)
    (status : VolumeReplicationStatus) : VOp bool :=
  if state =? Primary then
    r ← validateVRValidatedStatus pvcs generation status;
    let '(validated, condState) := r in
    if negb validated && (condState ≠? conditionMissing) then
      if condState =? conditionKnown
      then v ← gets v_instance; mret (ResourceIsDeleted (vrg_Meta v))
      else mret false
    else validate_completed pvcs generation state status
  else validate_completed pvcs generation state status.

Definition checkVRStatus (pvcs : list ptr) (generation : Z) (status : VolumeReplicationStatus) : VOp bool :=
  v ← gets v_instance;
  valid ← (if hasGlobalVGRLabel v then validateGlobalVGRStatus pvcs status (vsp_ReplicationState (vrg_Spec v))
           else mret false);
  if (valid : bool) then mret true
  else if generation ≠? vrs_ObservedGeneration status then
    data_ready_all pvcs VRGConditionReasonProgressing "VolumeReplication generation not updated in status";;
    mret false
  else
    match vsp_ReplicationState (vrg_Spec v) with
    | Primary => validateVRStatus pvcs generation Primary status
    | Secondary => validateVRStatus pvcs generation Secondary status
    | ReplicationUnset =>
        data_ready_all pvcs VRGConditionReasonError "VolumeReplicationGroup state invalid";;
        mret false
    end.
End status.
