(* ===== verification/VolRepClasses.v ===== *)
(** * The classes of a claim

    internal/controller/vrg_volrep.go and volumereplicationgroup_controller.go: the storage
    class of a claim, read once and cached, the replication classes of the cluster, and the
    choice of the one that replicates the claim's storage at the VRG's schedule; the
    entry of a claim in the VRG's status, with the identifiers of its storage.

    The VRG's [Spec.Async] is set where the source dereferences it: without it the VRG is
    a synchronous one, which uses no replication class. *)

From Stdlib Require Import ZArith Ascii.
From S2P Require Import Prelude Meta Names Conditions Api VRGStatus PolicyPeers Events Views Volumes VolRepStatus.

Definition defaultVRCAnnotationKey : string := "replication.storage.openshift.io/is-default-class".

(** [strings.Split(s, ",")] *)
Fixpoint split_comma (s : string) : list string :=
  match s with
  | EmptyString => [""]
  | String c s' =>
      if bool_decide (c = ","%char) then "" :: split_comma s'
      else match split_comma s' with
           | [] => [String c ""]
           | w :: ws => String c w :: ws
           end
  end.

Definition MModesFromCSV (modes : string) : list MMode :=
  List.filter (λ mode, mode =? MModeFailover) (split_comma modes).

(** Labels a client asks for are all on the object. *)
Definition labels_match (want : gmap string string) (m : ObjectMeta) : bool :=
  bool_decide (map_Forall (λ k v, om_Labels m !! k = Some v) want).

(** The body of the loop of [selectVolumeReplicationClass]. *)
Definition replication_class_matches (async : VRGAsyncSpec) (storageClass : StorageClass) (rIDLabel : string)
    (c : ReplicationClass) : bool :=
  let sc_label := λ k, map_get (om_Labels (sc_Meta storageClass)) k in
  match rc_Parameters c !! ReplicationClassScheduleKey with
  | None => false
  | Some schedulingInterval =>
      if sc_Provisioner storageClass ≠? rc_Provisioner c then false
      else if schedulingInterval ≠? va_SchedulingInterval async then false
      else if va_PeerClasses async =? [] then true
      else match om_Labels (rc_Meta c) !! StorageIDLabel, om_Labels (rc_Meta c) !! rIDLabel with
           | Some sID, Some rID => (sID =? sc_label StorageIDLabel) && (rID =? sc_label rIDLabel)
           | _, _ => false
           end
  end.

(** ** The choice among several *)

Definition filterDefaultVRC (replicationClassList : list ReplicationClass) (objType : string)
    : ReplicationClass + GoError :=
  match List.filter (λ c, map_get (om_Annotations (rc_Meta c)) defaultVRCAnnotationKey =? "true")
          replicationClassList with
  | [] => inr (Errorf ("multiple " +:+ objType +:+ " found, with no default annotation, " +:+
                       defaultVRCAnnotationKey) None)
  | [c] => inl c
  | _ => inr (Errorf ("multiple " +:+ objType +:+ " found with default annotation, " +:+
                      defaultVRCAnnotationKey) None)
  end.

(** The type that an error message names is that of the classes looked at, if any. *)
Definition choose_class (matching all : list ReplicationClass) (typeName : string) : ReplicationClass + GoError :=
  let objType := if all is [] then "" else typeName in
  match matching with
  | [] => inr (Errorf ("no " +:+ objType +:+ " found to match provisioner and schedule") None)
  | [c] => inl c
  | _ => filterDefaultVRC matching objType
  end.

Section classes.
Context `{VolEnv}.

Definition async_spec (v : VolumeReplicationGroup) : VRGAsyncSpec :=
  default (mkVRGAsyncSpec zero_selector zero_selector zero_selector "" []) (vsp_Async (vrg_Spec v)).

Definition getStorageClassFromSCName (scName : string) : VOp (StorageClass + GoError) :=
  cache ← gets v_storageClassCache;
  match cache !! scName with
  | Some storageClass => mret (inl storageClass)
  | None =>
      get? storageClass := kGet k_storageClasses (λ _ x, x) ("", scName)
      then e => mret (inr (Errorf ("failed to get the storageclass with name " +:+ scName) (Some e)));
      modify (λ w, w <| v_storageClassCache ::= <[scName := storageClass]> |>);;
      mret (inl storageClass)
  end.

Definition getStorageClass (pvc : PersistentVolumeClaim) : VOp (StorageClass + GoError) :=
  match pvcs_StorageClassName (pvc_Spec pvc) with
  | None | Some "" =>
      mret (inr (Errorf ("missing StorageClass name for pvc (" +:+ nn_string (pvc_nn pvc) +:+ ")") None))
  | Some scName => getStorageClassFromSCName scName
  end.

Definition validateVolumeAttributeClassExists (vacName : string) : VOp (option GoError) :=
  cache ← gets v_vacCache;
  if bool_decide (vacName ∈ cache) then mret None
  else
    err ← vapi_err; vacs ← gets k_vacs;
    match err with
    | None =>
        if bool_decide (vacName ∈ vacs)
        then modify (λ w, w <| v_vacCache ::= λ s, {[vacName]} ∪ s |>);; mret None
        else mret (wrapf ("failed to get the volumeattributesclass with name " +:+ vacName) (absent vacName))
    | Some e => mret (wrapf ("failed to get the volumeattributesclass with name " +:+ vacName) e)
    end.

Definition updateReplicationClassList : VOp (option GoError) :=
  updated ← gets v_vrcUpdated;
  if (updated : bool) then mret None
  else
    v ← gets v_instance;
    let matches := λ c, labels_match (ls_MatchLabels (va_ReplicationClassSelector (async_spec v))) (rc_Meta c) in
    get? l := kList k_vrClasses matches
    then e => mret (wrapf "failed to list Replication Classes" e);
    modify (λ w, w <| v_replClassList := l |>);;
    cg ← IsCGEnabledForVolRep;
    if (cg : bool) then
      get? l := kList k_vgrClasses matches
      then e => mret (wrapf "failed to list Group Replication Classes" e);
      modify (λ w, w <| v_grpReplClassList := l |> <| v_vrcUpdated := true |>);; mret None
    else modify (λ w, w <| v_vrcUpdated := true |>);; mret None.

Definition selectVolumeReplicationClass (pvc : PersistentVolumeClaim) (selectVolumeGroup : bool)
    : VOp (ReplicationClass + GoError) :=
  err? updateReplicationClassList then e => mret (inr e);
  replClassList ← gets v_replClassList;
  grpReplClassList ← gets v_grpReplClassList;
  if (if replClassList ++ grpReplClassList is [] then true else false) then
    mret (inr (Errorf "no VolumeReplicationClass and VolumeGroupReplicationClass available" None))
  else
    get? storageClass := getStorageClass pvc
    then e => mret (inr (Errorf ("failed to get the storageclass of pvc " +:+ pvc_name pvc) (Some e)));
    v ← gets v_instance;
    let all := if selectVolumeGroup then grpReplClassList else replClassList in
    let rIDLabel := if selectVolumeGroup then GroupReplicationIDLabel else ReplicationIDLabel in
    let typeName := if selectVolumeGroup then "VolumeGroupReplicationClass" else "VolumeReplicationClass" in
    mret (choose_class
            (List.filter (replication_class_matches (async_spec v) storageClass rIDLabel) all) all typeName).

(** ** The entry of a claim in the status *)

Definition identifier_from (labels : gmap string string) (label : string) (i : Identifier) : Identifier :=
  match labels !! label with
  | None => i
  | Some value =>
      let i := i <| idf_ID := value |> in
      match labels !! MModesLabel with
      | None => i
      | Some modes => i <| idf_Modes := MModesFromCSV modes |>
      end
  end.

Definition setPVCStorageIdentifiers (storageClass : StorageClass) (pvc : PersistentVolumeClaim)
    : VOp (option GoError) :=
  if HasLabel (sc_Meta storageClass) StorageOffloadedLabel then mret None
  else
    v ← gets v_instance;
    get? volumeReplicationClass := selectVolumeReplicationClass pvc false
    then e => mret (wrapf ("failed to find the appropriate VolumeReplicationClass (" +:+
                           om_Name (vrg_Meta v) +:+ ")") e);
    modify_vrg (λ v, with_protected_pvc v (pvc_namespace pvc) (pvc_name pvc) (λ p,
      p <| pp_StorageIdentifiers ::= λ s,
        s <| si_StorageProvisioner := sc_Provisioner storageClass |>
          <| si_StorageID ::= identifier_from (om_Labels (sc_Meta storageClass)) StorageIDLabel |>
          <| si_ReplicationID ::= identifier_from (om_Labels (rc_Meta volumeReplicationClass)) ReplicationIDLabel |>
      |>));;
    mret None.

Definition updateProtectedPVCs (pvc : PersistentVolumeClaim) : VOp (option GoError) :=
  v ← gets v_instance;
  if vsp_Sync (vrg_Spec v) ≠? None then mret None
  else
    get? storageClass := getStorageClass pvc
    then e => mret (wrapf ("failed to get the storageclass for pvc " +:+ pvc_name pvc) e);
    cg ← isCGEnabled pvc;
    get? _class := selectVolumeReplicationClass pvc cg.2
    then e => mret (wrapf ("failed to find the appropriate VolumeReplicationClass (" +:+
                           om_Name (vrg_Meta v) +:+ ")") e);
    modify_vrg (λ v, with_protected_pvc v (pvc_namespace pvc) (pvc_name pvc) (λ p,
      p <| pp_ProtectedByVolSync := false |>
        <| pp_StorageClassName := pvcs_StorageClassName (pvc_Spec pvc) |>
        <| pp_Labels := om_Labels (pvc_Meta pvc) |>
        <| pp_AccessModes := pvcs_AccessModes (pvc_Spec pvc) |>
        <| pp_Resources := pvcs_Resources (pvc_Spec pvc) |>
        <| pp_VolumeMode := pvcs_VolumeMode (pvc_Spec pvc) |>));;
    setPVCStorageIdentifiers storageClass pvc.
End classes.
