(* ===== verification/VolRep.v ===== *)
(** * Replicating a claim

    internal/controller/vrg_volrep.go: taking a claim under protection (owner, finalizer,
    retention of its volume), the VolumeReplication that replicates it, and giving the
    claim up again. *)

From Stdlib Require Import ZArith.
From stdpp Require Import pretty.
From S2P Require Import Prelude Meta Names Conditions Api VRGStatus PolicyPeers Events Volumes VolRepStatus VolRepClasses.
#[local] Open Scope record_scope.

Definition PvcVRFinalizerProtected : string := "volumereplicationgroups.ramendr.openshift.io/pvc-vr-protection".
Definition pvcVRAnnotationProtectedKey : string := "volumereplicationgroups.ramendr.openshift.io/vr-protected".
Definition pvcVRAnnotationProtectedValue : string := "protected".
Definition pvcVRAnnotationArchivedKey : string := "volumereplicationgroups.ramendr.openshift.io/vr-archived".
Definition pvcVRAnnotationArchivedVersionV1 : string := "archiveV1".
Definition pvVRAnnotationRetentionKey : string := "volumereplicationgroups.ramendr.openshift.io/vr-retained".
Definition pvVRAnnotationRetentionValue : string := "retained".
Definition pvLeftBehindLabelKey : string := "ramendr.openshift.io/pv-left-behind-by-ramen".
Definition EventReasonVRCreateFailed : string := "VRCreateFailed".
Definition EventReasonVRUpdateFailed : string := "VRUpdateFailed".

(** ** The claim and its volume *)

(** [undoPVRetention]: the policy is put back only where it was changed. *)
Definition undoPVRetention (pv : PersistentVolume) : PersistentVolume :=
  if om_Annotations (pv_Meta pv) !! pvVRAnnotationRetentionKey ≠? Some pvVRAnnotationRetentionValue then pv
  else pv <| pv_Spec ::= λ s, s <| pvs_ReclaimPolicy := ReclaimDelete |> |>
          <| pv_Meta ::= λ m, m <| om_Annotations ::= delete pvVRAnnotationRetentionKey |> |>.

Definition isPVCDeletedAndNotProtected (pvc : PersistentVolumeClaim) : bool * string :=
  if negb (ContainsFinalizer (pvc_Meta pvc) PvcVRFinalizerProtected) && ResourceIsDeleted (pvc_Meta pvc)
  then (true, "Skipping pvc marked for deletion") else (false, "").

Definition skipPVC (pvc : PersistentVolumeClaim) : bool * string :=
  if pvc_Phase pvc ≠? ClaimBound then (true, "PVC not bound yet") else isPVCDeletedAndNotProtected pvc.

Definition protection_complete (pvc : PersistentVolumeClaim) : bool :=
  (map_get (om_Annotations (pvc_Meta pvc)) pvcVRAnnotationProtectedKey =? pvcVRAnnotationProtectedValue) &&
  ContainsFinalizer (pvc_Meta pvc) PvcVRFinalizerProtected.

Section protection.
Context `{VolEnv} `{VRGConfig}.

(** The in-memory status of the VRG loses the claim. *)
Definition pvc_status_delete (pvc : PersistentVolumeClaim) : VOp unit :=
  modify_vrg (λ v, pvcStatusDeleteIfPresent v (pvc_namespace pvc) (pvc_name pvc)).

(** *** Use of a claim (util/pvcs_util.go) *)

Definition IsPVCInUseByPod (n : NamespacedName) (inUsePodMustBeReady : bool) : VOp (bool * option GoError) :=
  r ← kList k_pods (λ p, (pod_Namespace p =? n.1) && bool_decide (n.2 ∈ pod_ClaimNames p));
  mret (match r with
        | inr e => (false, wrapf ("unable to lookup pods to check if pvc is in use (" +:+ error_text e +:+ ")") e)
        | inl [] => (false, None)
        | inl pods =>
            if inUsePodMustBeReady
            then (foldl (λ ready p, if pod_Phase p =? "Running" then pod_Ready p else ready) false pods, None)
            else (true, None)
        end).

(** A failure to list the attachments is not returned. *)
Definition IsPVAttachedToNode (pvc : PersistentVolumeClaim) : VOp (bool * option GoError) :=
  let pvName := pvcs_VolumeName (pvc_Spec pvc) in
  if pvName =? "" then mret (false, None)
  else
    r ← kList k_attachments (λ a, att_Source a =? Some pvName);
    mret (match r with
          | inl (_ :: _) => (true, None)
          | _ => (false, None)
          end).

Definition isPVCInUse (pvc : PersistentVolumeClaim) (operation : string) : VOp bool :=
  r ← IsPVCInUseByPod (pvc_nn pvc) false;
  if (r.2 ≠? None) || r.1 then
    updatePVCDataReadyCondition (pvc_namespace pvc) (pvc_name pvc) VRGConditionReasonProgressing
      (operation +:+ " failed as PVC is potentially in use by a pod");;
    mret true
  else
    r ← IsPVAttachedToNode pvc;
    if (r.2 ≠? None) || r.1 then
      updatePVCDataReadyCondition (pvc_namespace pvc) (pvc_name pvc) VRGConditionReasonProgressing
        (operation +:+ " failed as PersistentVolume for PVC is still attached to node(s)");;
      mret true
    else mret false.

Definition isPVCReadyForSecondary (pvc : PersistentVolumeClaim) : VOp bool :=
  v ← gets v_instance;
  if (vsp_Action (vrg_Spec v) ≠? VRGActionFailover) && negb (ResourceIsDeleted (pvc_Meta pvc)) then
    updatePVCDataReadyCondition (pvc_namespace pvc) (pvc_name pvc) VRGConditionReasonProgressing
      "unable to transition to Secondary as PVC is not deleted";;
    mret false
  else inUse ← isPVCInUse pvc "Secondary transition"; mret (negb inUse).

(** *** Volumes *)

Definition getPVFromPVC (pvc : PersistentVolumeClaim) : VOp (PersistentVolume + GoError) :=
  r ← Get_pv (pvcs_VolumeName (pvc_Spec pvc));
  mret (match r with
        | inl pv => inl pv
        | inr e => inr (Errorf ("failed to get PV /" +:+ pvcs_VolumeName (pvc_Spec pvc) +:+ " from PVC " +:+
                                nn_string (pvc_nn pvc)) (Some e))
        end).

(** [addAnnotationForResource] (vrg_volgrouprep.go): [update] writes the resource. *)
Definition addAnnotationForResource (meta : ObjectMeta) (resourceType annotationKey annotationValue : string)
    (update : ObjectMeta → VOp (option GoError)) : VOp (option GoError) :=
  if om_Annotations meta !! annotationKey =? Some annotationValue then mret None
  else
    err ← update (meta <| om_Annotations ::= <[annotationKey := annotationValue]> |>);
    v ← gets v_instance;
    mret (match err with
          | None => None
          | Some e => wrapf ("failed to update " +:+ resourceType +:+ " (" +:+ om_Namespace meta +:+ "/" +:+
                             om_Name meta +:+ ") annotation (" +:+ annotationKey +:+
                             ") belonging to VolumeReplicationGroup (" +:+ vrg_nn v +:+ ")") e
          end).

Definition update_pv_meta (pv : PersistentVolume) (m : ObjectMeta) : VOp (option GoError) :=
  r ← Update_pv (pv <| pv_Meta := m |>); mret (match r with inl _ => None | inr e => Some e end).

(** The claim behind the pointer has the change whether the write succeeds or not. *)
Definition update_pvc_meta (p : ptr) (m : ObjectMeta) : VOp (option GoError) :=
  pvc ← load p; store p (pvc <| pvc_Meta := m |>);; Update_pvc_at p.

Definition retainPVForPVC (pvc : PersistentVolumeClaim) : VOp (option GoError) :=
  v ← gets v_instance;
  get? pv := Get_pv (pvcs_VolumeName (pvc_Spec pvc))
  then e => mret (wrapf ("failed to get PersistentVolume resource (" +:+ pvcs_VolumeName (pvc_Spec pvc) +:+
      ") for PersistentVolumeClaim resource (" +:+ nn_string (pvc_nn pvc) +:+
      ") belonging to VolumeReplicationGroup (" +:+ vrg_nn v +:+ ")") e);
  if pvs_ReclaimPolicy (pv_Spec pv) =? ReclaimRetain then mret None
  else
    let pv := pv <| pv_Spec ::= λ s, s <| pvs_ReclaimPolicy := ReclaimRetain |> |> in
    addAnnotationForResource (pv_Meta pv) "PersistentVolume" pvVRAnnotationRetentionKey
      pvVRAnnotationRetentionValue (update_pv_meta pv).

Definition addProtectedAnnotationForPVC (p : ptr) : VOp (option GoError) :=
  pvc ← load p;
  addAnnotationForResource (pvc_Meta pvc) "PersistentVolumeClaim" pvcVRAnnotationProtectedKey
    pvcVRAnnotationProtectedValue (update_pvc_meta p).

(** *** Protection *)

Definition pvc_error (pvc : PersistentVolumeClaim) (msg : string) : VOp unit :=
  updatePVCDataReadyCondition (pvc_namespace pvc) (pvc_name pvc) VRGConditionReasonError msg.

(** Whether to requeue. *)
Definition protectPVC (p : ptr) : VOp bool :=
  v ← gets v_instance;
  pvc ← load p;
  let '(comparison, m) := ObjectOwnerSetIfNotAlready (pvc_Meta pvc) (vrg_Meta v) in
  store p (pvc <| pvc_Meta := m |>);;
  if comparison =? Different then
    pvc_error pvc "PVC owned by another resource";; mret false
  else
    let '(finalizerAdded, m) := AddFinalizer m PvcVRFinalizerProtected in
    store p (pvc <| pvc_Meta := m |>);;
    err? (if finalizerAdded || (comparison =? Absent) then Update_pvc_at p else mret None)
    then _e => (pvc_error pvc "Failed to update PVC to add owner and/or Protected Finalizer";; mret true);
    pvc ← load p;
    err? retainPVForPVC pvc
    then _e => (pvc_error pvc "Failed to retain PV for PVC";; mret true);
    if ResourceIsDeleted (pvc_Meta pvc) then mret false
    else
      err? addProtectedAnnotationForPVC p
      then _e => (pvc_error pvc "Failed to add protected annotatation to PVC";; mret true);
      mret false.

(** Requeue and skip. *)
Definition preparePVCForVRProtection (p : ptr) : VOp (bool * bool) :=
  pvc ← load p;
  if protection_complete pvc then mret (false, false)
  else
    let '(skip, msg) := skipPVC pvc in
    if skip then
      updatePVCDataReadyCondition (pvc_namespace pvc) (pvc_name pvc) VRGConditionReasonProgressing
        (if msg =? "" then "PVC not ready" else msg);;
      mret (false, true)
    else requeue ← protectPVC p; mret (requeue, false).

Definition preparePVCForVRDeletion (p : ptr) : VOp (option GoError) :=
  pvc ← load p;
  v ← gets v_instance;
  get? pv := getPVFromPVC pvc then e => mret (Some e);
  let pv := if (vsp_Async (vrg_Spec v) ≠? None) || (vsp_ReplicationState (vrg_Spec v) =? Primary)
            then undoPVRetention pv
            else pv <| pv_Meta ::= λ m, m <| om_Labels ::= <[pvLeftBehindLabelKey := om_UID (vrg_Meta v)]> |> |> in
  let pv := pv <| pv_Meta ::= λ m, m <| om_Annotations ::= delete pvcVRAnnotationArchivedKey |> |> in
  get? _pv := Update_pv pv
  then e => mret (wrapf ("failed to update PersistentVolume " +:+ pvcs_VolumeName (pvc_Spec pvc) +:+ " claimed by " +:+
      nn_string (pvc_nn pvc) +:+ "for deletion of VR owned by VolumeReplicationGroup " +:+ vrg_nn v) e);
  let m := (ObjectOwnerUnsetIfSet (pvc_Meta pvc) (vrg_Meta v)).2 in
  let m := RemoveFinalizer m PvcVRFinalizerProtected in
  let m := m <| om_Annotations ::= delete pvcVRAnnotationProtectedKey |>
             <| om_Annotations ::= delete pvcVRAnnotationArchivedKey |>
             <| om_Labels ::= delete ConsistencyGroupLabel |> in
  store p (pvc <| pvc_Meta := m |>);;
  err? Update_pvc_at p
  then e => mret (wrapf ("failed to update PersistentVolumeClaim " +:+ nn_string (pvc_nn pvc) +:+
      "for deletion of VR owned by VolumeReplicationGroup " +:+ vrg_nn v) e);
  pvc_status_delete pvc;;
  mret None.

Definition left_behind_error (v : VolumeReplicationGroup) (pv : PersistentVolume) (e : GoError) : GoError :=
  Errorf ("failed to delete PersistentVolume " +:+ pv_name pv +:+ " left behind by VRG " +:+ vrg_nn v) (Some e).

(** [errors.Join] of the errors of the deletions. *)
Fixpoint delete_left_behind (v : VolumeReplicationGroup) (pvs : list PersistentVolume) : VOp (list GoError) :=
  match pvs with
  | [] => mret []
  | pv :: pvs' =>
      if pv_Phase pv ≠? VolumeReleased then delete_left_behind v pvs'
      else if ResourceIsDeleted (pv_Meta pv) then delete_left_behind v pvs'
      else
        err ← Delete_pv (pv_name pv);
        errs ← delete_left_behind v pvs';
        mret (match err with
              | Some e => if IsNotFound e then errs else left_behind_error v pv e :: errs
              | None => errs
              end)
  end.

Definition deleteLeftBehindPVs : VOp (option GoError) :=
  v ← gets v_instance;
  if (vsp_Sync (vrg_Spec v) =? None) || (vsp_ReplicationState (vrg_Spec v) ≠? Secondary) then mret None
  else
    get? pvs := kList (λ w, (map_to_list (k_pvs w)).*2)
                  (λ pv, om_Labels (pv_Meta pv) !! pvLeftBehindLabelKey =? Some (om_UID (vrg_Meta v)))
    then e => mret (wrapf ("failed to list PersistentVolumes left behind by VRG " +:+ vrg_nn v) e);
    errs ← delete_left_behind v pvs;
    mret (match errs with [] => None | e :: _ => Some e end).
End protection.

(** ** The VolumeReplication of a claim *)

Section replication.
Context `{VolEnv} `{VRGConfig}.

Definition autoResync (v : VolumeReplicationGroup) (state : VRReplicationState) : bool :=
  if state ≠? VRSecondary then false
  else if map_get (om_Annotations (vrg_Meta v)) DRPCTestFailoverDryRunAnnotation =? "true" then true
  else vsp_Action (vrg_Spec v) =? VRGActionFailover.

Fixpoint find_claim (heap : list PersistentVolumeClaim) (n : NamespacedName) (ptrs : list ptr)
    : option PersistentVolumeClaim :=
  match ptrs with
  | [] => None
  | p :: ptrs' =>
      let pvc := default zero_pvc (heap !! p) in
      if pvc_nn pvc =? n then Some pvc else find_claim heap n ptrs'
  end.

Definition getPVCForVRNSName (n : NamespacedName) : VOp (PersistentVolumeClaim + GoError) :=
  heap ← gets v_heap; ptrs ← gets v_volRepPVCs;
  mret (match find_claim heap n ptrs with
        | Some pvc => inl pvc
        | None => inr (Errorf ("failed to get the pvc with namespaced name " +:+ nn_string n) None)
        end).

Definition vrgInAdminNamespace (v : VolumeReplicationGroup) : bool :=
  bool_decide (om_Namespace (vrg_Meta v) ∈ [v_ramenOperandsNamespace; v_ramenOperatorNamespace]).

Definition vrgGVK : GVK := ("ramendr.openshift.io/v1alpha1", "VolumeReplicationGroup").

(** The owner reference of a resource in the VRG's namespace, unless it is an admin one. *)
Definition set_owner (v : VolumeReplicationGroup) (kind : string) (m : ObjectMeta) : ObjectMeta + GoError :=
  if vrgInAdminNamespace v then inl m
  else match SetControllerReference vrgGVK (vrg_Meta v) m with
       | inl m => inl m
       | inr e => inr (Errorf ("failed to set owner reference to " +:+ kind +:+ " resource (" +:+ om_Name m +:+ "/" +:+
                               om_Namespace m +:+ ")") (Some e))
       end.

Definition createVR (n : NamespacedName) (state : VRReplicationState) : VOp (option GoError) :=
  get? pvc := getPVCForVRNSName n then e => mret (Some e);
  v ← gets v_instance;
  get? volumeReplicationClass := selectVolumeReplicationClass pvc false
  then e => mret (wrapf ("failed to find the appropriate VolumeReplicationClass (" +:+
                         om_Name (vrg_Meta v) +:+ ")") e);
  let m := (AddLabel (named_meta n.2 n.1 <| om_Labels := OwnerLabels (vrg_Meta v) |>) CreatedByRamenLabel "true").2 in
  let spec := mkVRSpec (om_Name (rc_Meta volumeReplicationClass)) state ("PersistentVolumeClaim", n.2)
                (autoResync v state) in
  match set_owner v "VolumeReplication" m with
  | inr e => mret (Some e)
  | inl m =>
      err ← Create_vr (mkVR m spec zero_vrstatus);
      mret (match err with
            | Some e => wrapf ("failed to create VolumeReplication resource (" +:+ n.2 +:+ "/" +:+ n.1 +:+ ")") e
            | None => None
            end)
  end.

(** Requeue, ready, and the error. *)
Definition updateVR (p : ptr) (volRep : VolumeReplication) (state : VRReplicationState)
    : VOp (bool * bool * option GoError) :=
  v ← gets v_instance;
  pvc ← load p;
  if (vrp_ReplicationState (vr_Spec volRep) =? state) && (vrp_AutoResync (vr_Spec volRep) =? autoResync v state) then
    ready ← checkVRStatus [p] (om_Generation (vr_Meta volRep)) (vr_Status volRep);
    mret (false, ready, None)
  else
    let volRep := volRep <| vr_Spec ::= λ s, s <| vrp_ReplicationState := state |>
                                               <| vrp_AutoResync := autoResync v state |> |> in
    get? _vr := Update_vr volRep
    then e =>
      (report_event EventTypeWarning EventReasonVRUpdateFailed (error_text e);;
       pvc_error pvc "Failed to update VolumeReplication resource";;
       mret (true, false,
         wrapf ("failed to update VolumeReplication resource (" +:+ om_Namespace (vr_Meta volRep) +:+ "/" +:+
                om_Name (vr_Meta volRep) +:+ ") as " +:+ VRReplicationState_string state +:+
                ", belonging to VolumeReplicationGroup (" +:+ vrg_nn v +:+ ")") e));
    updatePVCDataReadyCondition (pvc_namespace pvc) (pvc_name pvc) VRGConditionReasonProgressing
      "Updated VolumeReplication resource for PVC";;
    mret (false, false, None).

Definition createOrUpdateVR (n : NamespacedName) (p : ptr) (state : VRReplicationState)
    : VOp (bool * bool * option GoError) :=
  v ← gets v_instance;
  r ← Get_vr n;
  match r with
  | inl volRep => updateVR p volRep state
  | inr e =>
      if negb (IsNotFound e) then
        updatePVCDataReadyCondition n.1 n.2 VRGConditionReasonErrorUnknown "Failed to get VolumeReplication resource";;
        mret (true, false,
          wrapf ("failed to get VolumeReplication resource (" +:+ nn_string n +:+
                 ") belonging to VolumeReplicationGroup (" +:+ vrg_nn v +:+ ")") e)
      else
        err? createVR n state
        then e =>
          (report_event EventTypeWarning EventReasonVRCreateFailed (error_text e);;
           updatePVCDataReadyCondition n.1 n.2 VRGConditionReasonError "Failed to create VolumeReplication resource";;
           mret (true, false,
             wrapf ("failed to create VolumeReplication resource (" +:+ nn_string n +:+
                    ") belonging to VolumeReplicationGroup (" +:+ vrg_nn v +:+ ")") e));
        updatePVCDataReadyCondition n.1 n.2 VRGConditionReasonProgressing
          "Created VolumeReplication resource for PVC";;
        mret (false, false, None)
  end.

Definition processVRAsPrimary (n : NamespacedName) (p : ptr) : VOp (bool * bool * option GoError) :=
  v ← gets v_instance;
  if vsp_Async (vrg_Spec v) ≠? None then createOrUpdateVR n p VRPrimary
  else if vsp_Sync (vrg_Spec v) ≠? None then
    let msg := "PVC in the VolumeReplicationGroup is ready for use" in
    updatePVCDataReadyCondition n.1 n.2 VRGConditionReasonReady msg;;
    updatePVCDataProtectedCondition n.1 n.2 VRGConditionReasonReady msg;;
    updatePVCLastSyncCounters p None;;
    mret (false, true, None)
  else mret (true, true, None).

Definition processVRAsSecondary (n : NamespacedName) (p : ptr) : VOp (bool * bool * option GoError) :=
  v ← gets v_instance;
  if vsp_Async (vrg_Spec v) ≠? None then createOrUpdateVR n p VRSecondary
  else if vsp_Sync (vrg_Spec v) ≠? None then
    let msg := "VolumeReplication resource for the pvc as Secondary is in sync with Primary" in
    updatePVCDataReadyCondition n.1 n.2 VRGConditionReasonReplicated msg;;
    updatePVCDataProtectedCondition n.1 n.2 VRGConditionReasonDataProtected msg;;
    updatePVCLastSyncCounters p None;;
    mret (false, true, None)
  else mret (true, true, None).

(** Requeue, ready, skip. *)
Definition reconcileVRAsSecondary (p : ptr) : VOp (bool * bool * bool) :=
  pvc ← load p;
  isReady ← isPVCReadyForSecondary pvc;
  if negb isReady then mret (true, false, true)
  else
    r ← processVRAsSecondary (pvc_nn pvc) p;
    mret (r.1.1, r.1.2, false).

(** *** Deleting it *)

Definition ensureVRDeletedFromAPIServer {A} (get : VOp (A + GoError)) (n : NamespacedName) : VOp (option GoError) :=
  r ← get;
  mret (match r with
        | inl _ => errorf ("waiting for deletion of VolumeReplication resource (" +:+ nn_string n +:+ "), %!w(<nil>)")
        | inr e => if IsNotFound e then None
                   else wrapf ("failed to get VolumeReplication resource (" +:+ nn_string n +:+ ")") e
        end).

Definition deleteVR (n : NamespacedName) : VOp (option GoError) :=
  err ← Delete_vr n;
  match err with
  | Some e =>
      mret (if IsNotFound e then None
            else wrapf ("failed to delete VolumeReplication resource (" +:+ nn_string n +:+ ")") e)
  | None => ensureVRDeletedFromAPIServer (Get_vr n) n
  end.

Definition undoPVCFinalizersAndPVRetention (p : ptr) : VOp bool :=
  pvc ← load p;
  err? deleteVR (pvc_nn pvc) then _e => mret true;
  err? preparePVCForVRDeletion p then _e => mret true;
  mret false.

(** Missing, and requeue. *)
Definition reconcileMissingVR (p : ptr) : VOp (bool * bool) :=
  v ← gets v_instance;
  if vsp_Async (vrg_Spec v) =? None then mret (false, false)
  else
    pvc ← load p;
    r ← Get_vr (pvc_nn pvc);
    match r with
    | inl volRep => mret (false, ResourceIsDeleted (vr_Meta volRep))
    | inr e =>
        if negb (IsNotFound e) then mret (false, true)
        else
          err? preparePVCForVRDeletion p then _e => mret (true, true);
          mret (true, false)
    end.

Definition reconcileVRForDeletion (p : ptr) : VOp bool :=
  v ← gets v_instance;
  pvc ← load p;
  if vsp_ReplicationState (vrg_Spec v) =? Secondary then
    r ← reconcileVRAsSecondary p;
    let '(requeue, ready, skip) := r in
    if (requeue : bool) then mret true
    else if (skip : bool) || negb ready then mret false
    else undoPVCFinalizersAndPVRetention p
  else
    r ← processVRAsPrimary (pvc_nn pvc) p;
    let '(requeue, ready, err) := r in
    if (err ≠? None) || (requeue : bool) || negb ready then mret true
    else undoPVCFinalizersAndPVRetention p.

Definition reconcilePVCVRAsSecondary (p : ptr) : VOp bool :=
  r ← reconcileMissingVR p;
  if (r.1 : bool) || r.2 then mret true
  else
    r ← reconcileVRAsSecondary p;
    let '(requeue, ready, skip) := r in
    if (requeue : bool) || (skip : bool) || negb ready then mret requeue
    else undoPVCFinalizersAndPVRetention p.
End replication.
