(* ===== verification/ObjectStores.v ===== *)
(** * The S3 stores of a managed cluster

    internal/controller/s3utils.go: keys, uploads, lists and downloads of typed objects, with
    the treatment of AWS errors; and the part of vrg_volrep.go that uploads claims and
    their volumes to the stores of a VRG and deletes them.  A store is the bucket of its
    profile, which holds bytes: objects are encoded and compressed on the way up, and
    decompressed and decoded on the way down, with the libraries' functions for both as
    parameters. *)

From Stdlib Require Import ZArith.
From stdpp Require Import pretty.
From S2P Require Import Prelude Meta Names Conditions Api VRGStatus PolicyPeers Events Volumes VolRepStatus VolRepClasses.
From S2P Require Import VolRep.
#[local] Open Scope record_scope.

Definition NoS3Store : string := "NoS3".
Definition EventReasonUploadFailed : string := "UploadFailed".
Definition destinationVolumeHandleAnnotation : string := "ramendr.openshift.io/destination-volume-handle".

(** ** Keys *)

(** [reflect.Type.String()] of the uploaded types. *)
Definition type_PV : string := "v1.PersistentVolume".
Definition type_PVC : string := "v1.PersistentVolumeClaim".
Definition type_VGR : string := "v1alpha1.VolumeGroupReplication".
Definition type_VGRC : string := "v1alpha1.VolumeGroupReplicationContent".

Definition S3KeyPrefix (namespacedName : string) : string := namespacedName +:+ "/".
Definition typedKey (pfx suffix typ : string) : string := pfx +:+ typ +:+ "/" +:+ suffix.

(** ** Errors *)

(** [errors.As(err, &awserr.Error)] *)
Fixpoint is_aws_error (e : GoError) : bool :=
  match e with
  | AwsError _ _ => true
  | StatusError _ _ => false
  | Errorf _ (Some e') => is_aws_error e'
  | Errorf _ None => false
  end.
Fixpoint find_aws_error (e : GoError) : option (string * string) :=
  match e with
  | AwsError code msg => Some (code, msg)
  | StatusError _ _ => None
  | Errorf _ (Some e') => find_aws_error e'
  | Errorf _ None => None
  end.

(** Of an AWS error only the text is kept: the result wraps the prefix. *)
Definition processAwsError (errMsgPrefix : GoError) (err : GoError) : GoError :=
  match find_aws_error err with
  | None => Errorf (error_text errMsgPrefix +:+ ": " +:+ error_text err) (Some err)
  | Some (code, msg) =>
      Errorf (error_text errMsgPrefix +:+ ": code: " +:+ code +:+ ", message: " +:+ msg) (Some errMsgPrefix)
  end.

Definition ErrCodeNoSuchBucket : string := "NoSuchBucket".
Definition isAwsErrCodeNoSuchBucket (e : GoError) : bool :=
  match find_aws_error e with Some (code, _) => code =? ErrCodeNoSuchBucket | None => false end.

Section stores.
Context `{VolEnv} `{VRGConfig}.

(** ** One store *)

Definition s3_err : VOp (option GoError) := t ← vtick; mret (kenv_s3_err t).
Definition bucket (s : string) (w : Volumes) : gmap string string := default ∅ (k_s3 w !! s).

(** *** Encoding

    [NewWriter], then [Encode], which writes the text of the object, then [Close]. *)
Definition encode_object (what : string) (uploadContent : S3Object) : string + GoError :=
  let gzWriter := mkGzipWriter "" false in
  match kenv_json uploadContent with
  | inr e => inr (Errorf ("failed to json encode " +:+ what) (Some e))
  | inl text =>
      let gzWriter := mkGzipWriter (gw_text gzWriter +:+ text) (gw_closed gzWriter) in
      match kenv_gzip_Close gzWriter with
      | Some e => inr (Errorf ("failed to close gzip writer of " +:+ what) (Some e))
      | None => inl (kenv_gzip (mkGzipWriter (gw_text gzWriter) true))
      end
  end.

(** [io.EOF], and [errors.Is(err, io.EOF)]. *)
Definition io_EOF : GoError := Errorf "EOF" None.
Fixpoint is_EOF (e : GoError) : bool :=
  match e with
  | Errorf text None => text =? error_text io_EOF
  | Errorf _ (Some e') => is_EOF e'
  | _ => false
  end.

(** [NewReader], then [Decode], then [Close].  At the end of the file [NewReader] returns
    no reader; the code goes on, and the decoder dereferences nil. *)
Definition decode_object {A} (decode : GzipStream → A + GoError) (what bytes : string) : A + GoError :=
  match kenv_gzip_NewReader bytes with
  | Some e => if is_EOF e then inr (Errorf "panic: nil pointer dereference" None)
              else inr (Errorf ("failed to unzip data of " +:+ what) (Some e))
  | None =>
      match decode (kenv_gunzip bytes) with
      | inr e => inr (Errorf ("failed to decode json decoder of " +:+ what) (Some e))
      | inl x =>
          match kenv_gunzip_Close bytes with
          | Some e => inr (Errorf ("failed to close gzip reader of " +:+ what) (Some e))
          | None => inl x
          end
      end
  end.

Definition UploadObject (s key : string) (uploadContent : S3Object) : VOp (option GoError) :=
  match encode_object (s +:+ ":" +:+ key) uploadContent with
  | inr e => mret (Some e)
  | inl encodedUploadContent =>
      err? s3_err
      then e => mret (Some (processAwsError (Errorf ("failed to upload data of " +:+ s +:+ ":" +:+ key) None) e));
      modify (λ w, w <| k_s3 ::= <[s := <[key := encodedUploadContent]> (bucket s w)]> |>);; mret None
  end.

Definition DownloadObject {A} (decode : GzipStream → A + GoError) (s key : string) : VOp (A + GoError) :=
  let prefix := Errorf ("failed to download data of " +:+ s +:+ ":" +:+ key) None in
  err? s3_err then e => mret (inr (processAwsError prefix e));
  objects ← gets (bucket s);
  mret (match objects !! key with
        | Some bytes => decode_object decode (s +:+ ":" +:+ key) bytes
        | None => inr (processAwsError prefix (AwsError "NoSuchKey" "The specified key does not exist."))
        end).

(** *** Listing *)

Record ListObjectsV2Output := mkListObjectsV2Output {
  lo_Contents : list string;
  lo_IsTruncated : bool;
  lo_NextContinuationToken : option string;
}.

(** The keys that follow a key in a list. *)
Fixpoint keys_after (k : string) (l : list string) : list string :=
  match l with
  | [] => []
  | k' :: l' => if k' =? k then l' else keys_after k l'
  end.

(** A page of the keys with a prefix, in lexicographic order.  The token stands for the
    last key of the page before. *)
Definition list_page (keys : list string) (token : option string) (max : nat) : ListObjectsV2Output :=
  let rest := match token with None => keys | Some k => keys_after k keys end in
  let page := take max rest in
  if bool_decide (max < length rest) then mkListObjectsV2Output page true (last page)
  else mkListObjectsV2Output page false None.

Definition ListObjectsV2 (s keyPrefix : string) (token : option string) : VOp (ListObjectsV2Output + GoError) :=
  err? s3_err then e => mret (inr e);
  t ← vtick;
  objects ← gets (bucket s);
  mret (inl (list_page (List.filter (String.prefix keyPrefix) (set_List (dom objects))) token (S (kenv_s3_page t)))).

(** The loop over the pages.  [fuel] bounds their number: every page but the last has a
    key, so that as many rounds as there are keys, and one, are enough. *)
Fixpoint list_pages (fuel : nat) (s keyPrefix : string) (nextContinuationToken : option string) (keys : list string)
    : VOp (list string + GoError) :=
  match fuel with
  | O => mret (inr (Errorf "more pages than keys" None))
  | S fuel =>
      get? result := ListObjectsV2 s keyPrefix nextContinuationToken
      then e => mret (inr (processAwsError (Errorf "failed to list objects in bucket" None) e));
      let keys := keys ++ lo_Contents result in
      if lo_IsTruncated result then list_pages fuel s keyPrefix (lo_NextContinuationToken result) keys
      else mret (inl keys)
  end.

Definition ListKeys (s keyPrefix : string) : VOp (list string + GoError) :=
  objects ← gets (bucket s);
  list_pages (S (size objects)) s keyPrefix None [].

Definition DeleteObjects (s : string) (keys : list string) : VOp (option GoError) :=
  err? s3_err then e => mret (Some (processAwsError (Errorf "unable to process batch delete" None) e));
  modify (λ w, w <| k_s3 ::= <[s := foldr delete (bucket s w) keys]> |>);; mret None.

Definition DeleteObjectsWithKeyPrefix (s keyPrefix : string) : VOp (option GoError) :=
  get? keys := ListKeys s keyPrefix
  then e => mret (Some (processAwsError
                    (Errorf ("unable to ListKeys in DeleteObjects from endpoint " +:+ s +:+ " keyPrefix " +:+ keyPrefix) None) e));
  err? DeleteObjects s keys
  then e => mret (wrapf ("unable to DeleteObjects from endpoint " +:+ s +:+ " keyPrefix " +:+ keyPrefix) e);
  mret None.

(** ** Typed objects *)

Definition UploadPV (s pfx suffix : string) (pv : PersistentVolume) := UploadObject s (typedKey pfx suffix type_PV) (S3PV pv).
Definition UploadPVC (s pfx suffix : string) (pvc : PersistentVolumeClaim) :=
  UploadObject s (typedKey pfx suffix type_PVC) (S3PVC pvc).
Definition UploadVGR (s pfx suffix : string) (vgr : VolumeGroupReplication) :=
  UploadObject s (typedKey pfx suffix type_VGR) (S3VGR vgr).
Definition UploadVGRC (s pfx suffix : string) (vgrc : VolumeGroupReplicationContent) :=
  UploadObject s (typedKey pfx suffix type_VGRC) (S3VGRC vgrc).

(** [decode] is the JSON decoder of the type. *)
Fixpoint download_keys {A} (decode : GzipStream → A + GoError) (s : string) (keys : list string) : VOp (list A + GoError) :=
  match keys with
  | [] => mret (inl [])
  | key :: keys' =>
      get? a := DownloadObject decode s key
      then e => mret (inr (Errorf ("unable to DownloadObject of key " +:+ key) (Some e)));
      get? l := download_keys decode s keys' then e => mret (inr e);
      mret (inl (a :: l))
  end.

Definition DownloadTypedObjects {A} (decode : GzipStream → A + GoError) (typ s keyPrefix : string) : VOp (list A + GoError) :=
  get? keys := ListKeys s (typedKey keyPrefix "" typ)
  then e => mret (inr (Errorf ("unable to ListKeys of type " +:+ typ +:+ " keyPrefix " +:+
                               typedKey keyPrefix "" typ) (Some e)));
  download_keys decode s keys.

Definition downloadPVs := DownloadTypedObjects kenv_json_PV type_PV.
Definition downloadPVCs := DownloadTypedObjects kenv_json_PVC type_PVC.
Definition downloadVGRs := DownloadTypedObjects kenv_json_VGR type_VGR.
Definition downloadVGRCs := DownloadTypedObjects kenv_json_VGRC type_VGRC.

(** ** The stores of the VRG *)

Definition s3KeyPrefix (v : VolumeReplicationGroup) : string := S3KeyPrefix (vrg_nn v).

Definition getCachedObjectStorer (s3ProfileName : string) : VOp (option string * option GoError) :=
  cache ← gets v_objectStorers;
  mret (match cache !! s3ProfileName with
        | Some c => (cos_storer c, cos_err c)
        | None => (None, None)
        end).

Definition cacheObjectStorer (s3ProfileName : string) (objectStore : option string) (err : option GoError) : VOp unit :=
  modify (λ w, w <| v_objectStorers ::= <[s3ProfileName := mkCachedObjectStorer objectStore err]> |>).

Definition getObjectStorer (s3ProfileName : string) : VOp (option string * option GoError) :=
  r ← getCachedObjectStorer s3ProfileName;
  if (r.1 ≠? None) || (r.2 ≠? None) then mret r
  else
    t ← vtick;
    let r := match kenv_ObjectStore t s3ProfileName with
             | Some e => (None, Some (Errorf ("error creating object store for s3Profile " +:+ s3ProfileName) (Some e)))
             | None => (Some s3ProfileName, None)
             end in
    cacheObjectStorer s3ProfileName r.1 r.2;;
    mret r.

(** The cache of a store becomes an error only if the failed upload wraps an AWS error. *)
Definition UploadPVAndPVCtoS3 (s3ProfileName objectStore : string) (pv : PersistentVolume)
    (pvc : PersistentVolumeClaim) : VOp (option GoError) :=
  v ← gets v_instance;
  err? UploadPV objectStore (s3KeyPrefix v) (pv_name pv) pv
  then e =>
    ((if is_aws_error e
      then cacheObjectStorer s3ProfileName None
             (errorf ("persistent error while uploading to s3 profile " +:+ s3ProfileName +:+ ", will retry later"))
      else mret tt);;
     mret (wrapf ("error uploading PV to s3Profile " +:+ s3ProfileName +:+
                  ", failed to protect cluster data for PVC " +:+ pvc_name pvc) e));
  err? UploadPVC objectStore (s3KeyPrefix v) (nn_string (pvc_nn pvc)) pvc
  then e => mret (wrapf ("error uploading PVC to s3Profile " +:+ s3ProfileName +:+
                         ", failed to protect cluster data for PVC " +:+ nn_string (pvc_nn pvc)) e);
  mret None.

Definition UploadPVandPVCtoS3Store (s3ProfileName : string) (pvc : PersistentVolumeClaim) (pv : PersistentVolume)
    : VOp (option GoError) :=
  if s3ProfileName =? "" then
    mret (errorf ("missing S3 profiles, failed to protect cluster data for PVC " +:+ pvc_name pvc))
  else
    r ← getObjectStorer s3ProfileName;
    match r with
    | (_, Some e) => mret (wrapf ("error getting object store, failed to protect cluster data for PVC " +:+ pvc_name pvc) e)
    | (objectStore, None) => UploadPVAndPVCtoS3 s3ProfileName (default s3ProfileName objectStore) pv pvc
    end.

(** The profiles uploaded to, and the error that ended the loop. *)
Fixpoint upload_profiles (p : ptr) (pv : PersistentVolume) (profiles succeeded : list string)
    : VOp (list string * option GoError) :=
  match profiles with
  | [] => mret (succeeded, None)
  | s3ProfileName :: profiles' =>
      pvc ← load p;
      err? UploadPVandPVCtoS3Store s3ProfileName pvc pv
      then e =>
        (updatePVCClusterDataProtectedCondition (pvc_namespace pvc) (pvc_name pvc) VRGConditionReasonUploadError (error_text e);;
         report_event EventTypeWarning EventReasonUploadFailed (error_text e);;
         mret (succeeded, Some e));
      upload_profiles p pv profiles' (succeeded ++ [s3ProfileName])
  end.

Definition UploadPVandPVCtoS3Stores (p : ptr) : VOp (list string * option GoError) :=
  pvc ← load p;
  v ← gets v_instance;
  get? pv := getPVFromPVC pvc
  then e => mret ([], wrapf ("error getting PV for PVC, failed to protect cluster data for PVC " +:+ pvc_name pvc) e);
  upload_profiles p pv (vsp_S3Profiles (vrg_Spec v)) [].

(** *** Archived already *)

Definition generateArchiveAnnotation (gen : Z) : string := pvcVRAnnotationArchivedVersionV1 +:+ "-" +:+ pretty gen.

(** util/pvcs_util.go *)
Definition HashPVC (pvc : PersistentVolumeClaim) : string := kenv_hash (pvc_Spec pvc).

Definition isArchivedAlready (pvc : PersistentVolumeClaim) : VOp bool :=
  get? pv := getPVFromPVC pvc then _e => mret false;
  if map_get (om_Annotations (pvc_Meta pvc)) pvcVRAnnotationArchivedKey ≠? HashPVC pvc then mret false
  else mret (map_get (om_Annotations (pv_Meta pv)) pvcVRAnnotationArchivedKey =?
             generateArchiveAnnotation (om_Generation (pv_Meta pv))).

Definition isPVCResizeCompleted (pvc : PersistentVolumeClaim) : bool :=
  bool_decide (kenv_storageRequest (pvcs_Resources (pvc_Spec pvc)) ≤ pvc_Capacity pvc)%Z.

Definition addArchivedAnnotationForPVC (p : ptr) : VOp (option GoError) :=
  pvc ← load p;
  err? addAnnotationForResource (pvc_Meta pvc) "PersistentVolumeClaim" pvcVRAnnotationArchivedKey (HashPVC pvc)
         (update_pvc_meta p)
  then e => mret (Some e);
  pvc ← load p;
  v ← gets v_instance;
  get? pv := getPVFromPVC pvc
  then e => mret (wrapf ("failed to get PersistentVolume () belonging to VolumeReplicationGroup (" +:+ vrg_nn v +:+ ")") e);
  addAnnotationForResource (pv_Meta pv) "PersistentVolume" pvcVRAnnotationArchivedKey
    (generateArchiveAnnotation (om_Generation (pv_Meta pv))) (update_pv_meta pv).

Definition handleNoS3ProfilesError (pvc : PersistentVolumeClaim) : VOp (option GoError) :=
  updatePVCClusterDataProtectedCondition (pvc_namespace pvc) (pvc_name pvc) VRGConditionReasonUploadError
    "Error uploading PV cluster data because VRG spec has no S3 profiles";;
  mret (errorf ("error uploading cluster data of PV " +:+ pvc_name pvc +:+ " because VRG spec has no S3 profiles")).

(** [%v] of a slice of strings. *)
Definition fmt_list (l : list string) : string := "[" +:+ String.concat " " l +:+ "]".

Definition uploadPVandPVCtoS3Stores (p : ptr) : VOp (option GoError) :=
  v ← gets v_instance;
  pvc ← load p;
  let set_protected := updatePVCClusterDataProtectedCondition (pvc_namespace pvc) (pvc_name pvc) in
  if vsp_DryRun (vrg_Spec v) then mret None
  else
    archived ← isArchivedAlready pvc;
    if (archived : bool) then
      set_protected VRGConditionReasonUploaded ("PV cluster data already protected for PVC " +:+ pvc_name pvc);; mret None
    else if negb (isPVCResizeCompleted pvc) then mret (errorf ("resize is in progress for pvc " +:+ pvc_name pvc))
    else
      let numProfilesToUpload := length (vsp_S3Profiles (vrg_Spec v)) in
      if bool_decide (numProfilesToUpload = 0) then handleNoS3ProfilesError pvc
      else
        r ← UploadPVandPVCtoS3Stores p;
        let '(s3Profiles, err) := r in
        let numProfilesUploaded := length s3Profiles in
        let count := pretty (Z.of_nat numProfilesUploaded) +:+ " of " +:+ pretty (Z.of_nat numProfilesToUpload) +:+
                     " S3 profile(s): " +:+ fmt_list s3Profiles in
        match err with
        | Some e => mret (wrapf ("failed to upload PV/PVC with error (" +:+ error_text e +:+ "). Uploaded to " +:+
                                 fmt_list s3Profiles +:+ " S3 profile(s)") e)
        | None =>
            if bool_decide (numProfilesUploaded ≠ numProfilesToUpload) then
              set_protected VRGConditionReasonUploadError ("uploaded PV/PVC cluster data to only  " +:+ count);;
              mret (errorf ("uploaded PV/PVC cluster data to only  " +:+ count))
            else
              err? addArchivedAnnotationForPVC p
              then e =>
                (set_protected VRGConditionReasonClusterDataAnnotationFailed
                   ("failed to add archived annotation: " +:+ error_text e);;
                 mret (wrapf ("failed to add archived annotation for PVC (" +:+ nn_string (pvc_nn pvc) +:+ ")") e));
              set_protected VRGConditionReasonUploaded ("Done uploading PV/PVC cluster data to " +:+ count);;
              mret None
        end.

(** *** Deleting from the stores *)

Fixpoint s3StoresDo (do : string → VOp (option GoError)) (msg : string) (profiles : list string) : VOp (option GoError) :=
  match profiles with
  | [] => mret None
  | s3ProfileName :: profiles' =>
      if s3ProfileName =? NoS3Store then s3StoresDo do msg profiles'
      else
        err? (t ← vtick;
              match kenv_ObjectStore t s3ProfileName with
              | Some e => mret (wrapf ("failed to get client for s3Profile " +:+ s3ProfileName) e)
              | None => do s3ProfileName
              end)
        then e => mret (wrapf (msg +:+ " using profile " +:+ s3ProfileName) e);
        s3StoresDo do msg profiles'
  end.

Definition deleteClusterDataInS3Stores : VOp (option GoError) :=
  v ← gets v_instance;
  let keyPrefix := s3KeyPrefix v in
  s3StoresDo (λ s, DeleteObjectsWithKeyPrefix s keyPrefix) ("delete objects with key prefix " +:+ keyPrefix)
    (vsp_S3Profiles (vrg_Spec v)).

Definition pvAndPvcObjectReplicasDelete (pvc : PersistentVolumeClaim) : VOp (option GoError) :=
  v ← gets v_instance;
  let keyPrefix := s3KeyPrefix v in
  let keys := [typedKey keyPrefix (pvcs_VolumeName (pvc_Spec pvc)) type_PV;
               typedKey keyPrefix (nn_string (pvc_nn pvc)) type_PVC] ++
              (if pvc_namespace pvc =? om_Namespace (vrg_Meta v)
               then [typedKey keyPrefix (pvc_name pvc) type_PVC] else []) in
  s3StoresDo (λ s, DeleteObjects s keys) ("delete object replicas " +:+ fmt_list keys) (vsp_S3Profiles (vrg_Spec v)).

(** ** Destination handles

    [(false, nil)], an error, or [(true, nil)]. *)
Definition destinationInfoAvailableOrSkip (conditions : list Condition) (description : string)
    : bool * option GoError :=
  match FindCondition conditions VRGConditionTypeDestinationInfoAvailable with
  | None => (false, None)
  | Some c =>
      if cond_Status c ≠? ConditionTrue
      then (false, errorf ("destination info is not available for " +:+ description))
      else (true, None)
  end.

Definition applyDestinationVolumeHandleToPV (pv : PersistentVolume) (destinationVolumeHandle : string)
    : VOp (option GoError) :=
  if map_get (om_Annotations (pv_Meta pv)) destinationVolumeHandleAnnotation =? destinationVolumeHandle then mret None
  else
    let pv := pv <| pv_Meta ::= λ m, m <| om_Annotations ::= λ a,
                delete pvcVRAnnotationArchivedKey (<[destinationVolumeHandleAnnotation := destinationVolumeHandle]> a) |> |> in
    get? _pv := Update_pv pv
    then e => mret (wrapf ("failed to update PersistentVolume " +:+ pv_name pv +:+
                           " with destination volume handle annotation") e);
    mret None.

Definition annotateWithDestinationVolumeHandleForVolRep (pvc : PersistentVolumeClaim) : VOp (option GoError) :=
  v ← gets v_instance;
  if vsp_Sync (vrg_Spec v) ≠? None then mret None
  else
    get? pv := getPVFromPVC pvc then e => mret (wrapf ("failed to get PV for PVC " +:+ pvc_name pvc) e);
    get? volRep := Get_vr (pvc_nn pvc) then e => mret (Some e);
    match destinationInfoAvailableOrSkip (vrs_Conditions (vr_Status volRep)) ("VR " +:+ om_Name (vr_Meta volRep)) with
    | (_, Some e) => mret (Some e)
    | (false, None) => mret None
    | (true, None) =>
        if vrs_DestinationVolumeID (vr_Status volRep) =? ""
        then mret (errorf ("destination volume ID is empty for VR " +:+ om_Name (vr_Meta volRep)))
        else applyDestinationVolumeHandleToPV pv (vrs_DestinationVolumeID (vr_Status volRep))
    end.
End stores.
