(* ===== verification/VolGroupRep.v ===== *)
(** * Replicating claims in consistency groups

    internal/controller/vrg_volgrouprep.go and vrg_volgrouprep_global.go: one
    VolumeGroupReplication replicates the claims of a consistency group; a global one is
    shared between VRGs, which have to agree before any of them changes it. *)

From Stdlib Require Import ZArith.
From stdpp Require Import pretty.
From S2P Require Import Prelude Meta Names Conditions Api VRGStatus PolicyPeers Events Volumes VolRepStatus VolRepClasses.
From S2P Require Import VolRep ObjectStores.
#[local] Open Scope record_scope.

Definition destinationVolumeGroupHandleAnnotation : string := "ramendr.openshift.io/destination-volume-group-handle".

Section conditions.
Context `{VolEnv}.

Definition set_vrg_condition (type : string) (status : ConditionStatus) (reason message : string) : VOp unit :=
  now ← vnow;
  modify_vrg (λ v, v <| vrg_Status ::= λ s, s <| vst_Conditions ::= λ l,
    set_condition now l (new_condition type status reason (om_Generation (vrg_Meta v)) message) |> |>).

Definition setGlobalStateCondition := set_vrg_condition VRGConditionTypeGlobalState.
Definition setGlobalSecondaryCondition := set_vrg_condition VRGConditionTypeGlobalSecondary.
End conditions.

(** ** Agreement of the VRGs that share a group *)

Section global.
Context `{VolEnv} `{VRGConfig}.

Definition globalVGRNamespacedName (v : VolumeReplicationGroup) : NamespacedName :=
  (v_ramenOperatorNamespace, globalVGRLabel v).

(** The label value doubles as the name of the shared resource.  [update] writes the VRG. *)
Definition addGlobalVGRLabel (grID : string) (update : VOp (option GoError)) : VOp (option GoError) :=
  v ← gets v_instance;
  let '(added, m) := AddLabel (vrg_Meta v) GlobalVGRLabel (GlobalVGRName grID) in
  modify_vrg (λ v, v <| vrg_Meta := m |>);;
  if added then
    err? update then e => mret (wrapf ("failed to add label " +:+ GlobalVGRLabel +:+ " to VRG " +:+ vrg_nn v) e);
    mret None
  else mret None.

Definition same_vrg (a b : VolumeReplicationGroup) : bool :=
  (om_Name (vrg_Meta a) =? om_Name (vrg_Meta b)) && (om_Namespace (vrg_Meta a) =? om_Namespace (vrg_Meta b)).

Definition list_sharing (v : VolumeReplicationGroup) : VOp (list VolumeReplicationGroup + GoError) :=
  kList k_vrgs (λ o, om_Labels (vrg_Meta o) !! GlobalVGRLabel =? Some (globalVGRLabel v)).

Definition isGlobalStateInConsensus : VOp bool :=
  v ← gets v_instance;
  let state := vsp_ReplicationState (vrg_Spec v) in
  get? vrgs := list_sharing v then _e => mret false;
  let pending := List.filter (λ o, negb (same_vrg o v) && (vsp_ReplicationState (vrg_Spec o) ≠? state)) vrgs in
  match pending with
  | _ :: _ =>
      setGlobalStateCondition ConditionFalse ConditionReasonConsensusNotReached
        ("Pending: " +:+ String.concat ", " (vrg_nn <$> pending) +:+ "; expected state " +:+
         ReplicationState_string state);;
      mret false
  | [] =>
      setGlobalStateCondition ConditionTrue ConditionReasonConsensusReached
        ("Consensus reached for state " +:+ ReplicationState_string state);;
      mret true
  end.

Definition isSiblingReadyForGlobalSecondary (sibling : VolumeReplicationGroup) : bool :=
  match FindCondition (vst_Conditions (vrg_Status sibling)) VRGConditionTypeGlobalSecondary with
  | None => false
  | Some c => (cond_Status c =? ConditionTrue) && (cond_Reason c ≠? VRGConditionReasonUnused) &&
              (cond_ObservedGeneration c =? om_Generation (vrg_Meta sibling))
  end.

Definition areSiblingVRGsReadyForGlobalSecondary : VOp bool :=
  v ← gets v_instance;
  get? vrgs := list_sharing v then _e => mret false;
  mret (forallb (λ o, same_vrg o v || ResourceIsDeleted (vrg_Meta o) || isSiblingReadyForGlobalSecondary o) vrgs).

Definition isGlobalDeleteInConsensus : VOp bool :=
  v ← gets v_instance;
  get? vrgs := list_sharing v then _e => mret false;
  mret (forallb (λ o, ResourceIsDeleted (vrg_Meta o)) vrgs).

Definition deleteVGR (n : NamespacedName) : VOp (option GoError) :=
  err ← Delete_vgr n;
  match err with
  | Some e =>
      mret (if IsNotFound e then None
            else wrapf ("failed to delete VolumeGroupReplication resource (" +:+ nn_string n +:+ ")") e)
  | None => ensureVRDeletedFromAPIServer (Get_vgr n) n
  end.

(** Whether to requeue. *)
Definition deleteGlobalVGR : VOp bool :=
  consensus ← isGlobalDeleteInConsensus;
  if negb consensus then mret false
  else
    v ← gets v_instance;
    err? deleteVGR (globalVGRNamespacedName v) then _e => mret true;
    mret false.
End global.

(** ** The group of a claim *)

Section groups.
Context `{VolEnv} `{VRGConfig}.

Definition vgrNamespacedName (v : VolumeReplicationGroup) (cg pvcNamespace : string) : NamespacedName :=
  if hasGlobalVGRLabel v then globalVGRNamespacedName v
  else (pvcNamespace, CreateVGRName cg (om_Name (vrg_Meta v))).

Definition addPVCToGroupPVCs (v : VolumeReplicationGroup) (p : ptr) (pvc : PersistentVolumeClaim) (cg : string)
    (groupPVCs : gmap NamespacedName (list ptr)) : gmap NamespacedName (list ptr) :=
  let vgrKey := vgrNamespacedName v cg (pvc_namespace pvc) in
  <[vgrKey := default [] (groupPVCs !! vgrKey) ++ [p]]> groupPVCs.

Definition getVGRClassReplicationID (pvc : PersistentVolumeClaim) : VOp (string + GoError) :=
  get? storageClass := getStorageClass pvc then e => mret (inr e);
  mret (match om_Labels (sc_Meta storageClass) !! GroupReplicationIDLabel with
        | Some grID => inl grID
        | None => inr (Errorf ("storageClass " +:+ om_Name (sc_Meta storageClass) +:+
                               " is missing groupReplicationID for PVC " +:+ nn_string (pvc_nn pvc)) None)
        end).

(** [NewResourceUpdater(pvc).AddLabel(key, value).Update(...)] *)
Definition update_pvc_label (p : ptr) (key value : string) : VOp (option GoError) :=
  pvc ← load p;
  let '(added, m) := AddLabel (pvc_Meta pvc) key value in
  if added then update_pvc_meta p m else mret None.

Fixpoint labelPVCsWithVGROwner (pvcs : list ptr) (vgrName : string) : VOp (option GoError) :=
  match pvcs with
  | [] => mret None
  | p :: pvcs' =>
      err? update_pvc_label p "volumegroupreplication-owner" vgrName
      then e => mret (wrapf "failed to update PVC labels" e);
      labelPVCsWithVGROwner pvcs' vgrName
  end.

(** metav1's [AddLabelToSelector] changes the selector it is given. *)
Definition add_label_to_selector (key value : string) : VOp LabelSelector :=
  modify (λ w, w <| v_pvcSelector ::= λ s, s <| ls_MatchLabels ::= <[key := value]> |> |>);;
  shared ← gets v_selectorShared;
  (if (shared : bool)
   then modify_vrg (λ v, v <| vrg_Spec ::= λ s, s <| vsp_PVCSelector ::= λ l,
          l <| ls_MatchLabels ::= <[key := value]> |> |> |>)
   else mret tt);;
  gets v_pvcSelector.

Definition createVGR (n : NamespacedName) (pvcs : list ptr) (state : VRReplicationState) : VOp (option GoError) :=
  pvc ← load (default 0%nat (head pvcs));
  v ← gets v_instance;
  get? storageClass := getStorageClass pvc then e => mret (Some e);
  let offloaded := HasLabel (sc_Meta storageClass) StorageOffloadedLabel in
  get? volumeGroupReplicationClass := selectVolumeReplicationClass pvc true
  then e => mret (wrapf ("failed to find the appropriate VolumeGroupReplicationClass (" +:+
                         om_Name (vrg_Meta v) +:+ ")") e);
  get? volumeReplicationClassName :=
    (if offloaded then mret (inl "")
     else r ← selectVolumeReplicationClass pvc false;
          mret (match r with inl c => inl (om_Name (rc_Meta c)) | inr e => inr e end))
  then e => mret (wrapf ("failed to find the appropriate VolumeReplicationClass (" +:+
                         om_Name (vrg_Meta v) +:+ ")") e);
  match om_Labels (pvc_Meta pvc) !! ConsistencyGroupLabel with
  | None => mret (errorf ("failed to create VolumeGroupReplication (" +:+ nn_string n +:+ ") %!w(<nil>)"))
  | Some cg =>
      let isGlobal := hasGlobalVGRLabel v in
      selector ← (if isGlobal || offloaded then mret (mkLabelSelector {[ConsistencyGroupLabel := cg]} [])
                  else add_label_to_selector ConsistencyGroupLabel cg);
      let labels := if isGlobal then ∅ else OwnerLabels (vrg_Meta v) in
      let m := (AddLabel (named_meta n.2 n.1 <| om_Labels := labels |>) CreatedByRamenLabel "true").2 in
      let spec := mkVGRSpec state volumeReplicationClassName (om_Name (rc_Meta volumeGroupReplicationClass)) ""
                    offloaded false (Some selector) in
      match (if isGlobal then inl m else set_owner v "VolumeGroupReplication" m) with
      | inr e => mret (Some e)
      | inl m =>
          err? Create_vgr (mkVGR m spec zero_vrstatus [])
          then e => mret (wrapf ("failed to create VolumeGroupReplication resource (" +:+ n.2 +:+ "/" +:+ n.1 +:+ ")") e);
          mret None
      end
  end.

Definition updateVGR (pvcs : list ptr) (volRep : VolumeGroupReplication) (state : VRReplicationState)
    : VOp (bool * bool * option GoError) :=
  v ← gets v_instance;
  if (vgp_ReplicationState (vgr_Spec volRep) =? state) && (vgp_AutoResync (vgr_Spec volRep) =? autoResync v state) then
    ready ← checkVRStatus pvcs (om_Generation (vgr_Meta volRep)) (vgr_Status volRep);
    mret (false, ready, None)
  else
    let volRep := volRep <| vgr_Spec ::= λ s, s <| vgp_ReplicationState := state |>
                                                <| vgp_AutoResync := autoResync v state |> |> in
    get? _vgr := Update_vgr volRep
    then e =>
      (report_event EventTypeWarning EventReasonVRUpdateFailed (error_text e);;
       data_ready_all pvcs VRGConditionReasonError "Failed to update VolumeGroupReplication resource";;
       mret (true, false,
         wrapf ("failed to update VolumeGroupReplication resource (" +:+ om_Namespace (vgr_Meta volRep) +:+ "/" +:+
                om_Name (vgr_Meta volRep) +:+ ") as " +:+ VRReplicationState_string state +:+
                ", belonging to VolumeReplicationGroup (" +:+ vrg_nn v +:+ ")") e));
    data_ready_all pvcs VRGConditionReasonProgressing "Updated VolumeGroupReplication resource";;
    mret (false, false, None).

Definition createOrUpdateVGR (n : NamespacedName) (pvcs : list ptr) (state : VRReplicationState)
    : VOp (bool * bool * option GoError) :=
  err? labelPVCsWithVGROwner pvcs n.2 then e => mret (true, false, Some e);
  v ← gets v_instance;
  r ← Get_vgr n;
  match r with
  | inl volRep => updateVGR pvcs volRep state
  | inr e =>
      if negb (IsNotFound e) then
        data_ready_all pvcs VRGConditionReasonErrorUnknown "Failed to get VolumeGroupReplication resource";;
        mret (true, false,
          wrapf ("failed to get VolumeGroupReplication resource (" +:+ nn_string n +:+
                 ") belonging to VolumeReplicationGroup (" +:+ vrg_nn v +:+ ")") e)
      else
        err? createVGR n pvcs state
        then e =>
          (if hasGlobalVGRLabel v && IsAlreadyExists e then mret (true, false, None)
           else
             report_event EventTypeWarning EventReasonVRCreateFailed (error_text e);;
             data_ready_all pvcs VRGConditionReasonError "Failed to create VolumeGroupReplication resource";;
             mret (true, false,
               wrapf ("failed to create VolumeGroupReplication resource (" +:+ nn_string n +:+
                      ") belonging to VolumeReplicationGroup (" +:+ vrg_nn v +:+ ")") e));
        data_ready_all pvcs VRGConditionReasonProgressing "Created VolumeGroupReplication resource";;
        mret (false, false, None)
  end.

Definition processVGRAsPrimary (n : NamespacedName) (pvcs : list ptr) := createOrUpdateVGR n pvcs VRPrimary.
Definition processVGRAsSecondary (n : NamespacedName) (pvcs : list ptr) := createOrUpdateVGR n pvcs VRSecondary.

(** ** As secondary *)

Fixpoint all_ready_for_secondary (pvcs : list ptr) : VOp bool :=
  match pvcs with
  | [] => mret true
  | p :: pvcs' =>
      pvc ← load p;
      isReady ← isPVCReadyForSecondary pvc;
      if negb isReady then mret false else all_ready_for_secondary pvcs'
  end.

(** Requeue, ready, skip. *)
Definition reconcileVGRAsSecondary (n : NamespacedName) (pvcs : list ptr) : VOp (bool * bool * bool) :=
  v ← gets v_instance;
  let isGlobal := hasGlobalVGRLabel v in
  isReady ← all_ready_for_secondary pvcs;
  if negb isReady then
    (if isGlobal then setGlobalSecondaryCondition ConditionFalse VRGConditionReasonPVCsInUse "PVCs are still in use"
     else mret tt);;
    mret (true, false, true)
  else
    siblings ← (if isGlobal then
                  setGlobalSecondaryCondition ConditionTrue VRGConditionReasonPVCsNotInUse "PVCs are not in use";;
                  areSiblingVRGsReadyForGlobalSecondary
                else mret true);
    if negb siblings then mret (true, false, true)
    else
      r ← processVGRAsSecondary n pvcs;
      mret (r.1.1, r.1.2, false).

Fixpoint prepare_all_for_deletion (pvcs : list ptr) : VOp (option GoError) :=
  match pvcs with
  | [] => mret None
  | p :: pvcs' =>
      err? preparePVCForVRDeletion p then e => mret (Some e);
      prepare_all_for_deletion pvcs'
  end.

(** Missing, and requeue. *)
Definition reconcileMissingVGR (n : NamespacedName) (pvcs : list ptr) : VOp (bool * bool) :=
  v ← gets v_instance;
  if vsp_Async (vrg_Spec v) =? None then mret (false, false)
  else
    r ← Get_vgr n;
    match r with
    | inl volRep => mret (false, ResourceIsDeleted (vgr_Meta volRep))
    | inr e =>
        if negb (IsNotFound e) then mret (false, true)
        else
          err? prepare_all_for_deletion pvcs then _e => mret (true, true);
          mret (true, false)
    end.

Definition undoPVCFinalizersAndPVRetentionForVGR (n : NamespacedName) (pvcs : list ptr) : VOp bool :=
  v ← gets v_instance;
  err? (if hasGlobalVGRLabel v then mret None else deleteVGR n) then _e => mret true;
  err? prepare_all_for_deletion pvcs then _e => mret true;
  mret false.

Definition reconcileVGRForDeletion (n : NamespacedName) (pvcs : list ptr) : VOp bool :=
  v ← gets v_instance;
  if vsp_ReplicationState (vrg_Spec v) =? Secondary then
    r ← reconcileVGRAsSecondary n pvcs;
    let '(requeue, ready, skip) := r in
    if (requeue : bool) then mret true
    else if (skip : bool) || negb ready then mret false
    else undoPVCFinalizersAndPVRetentionForVGR n pvcs
  else
    r ← processVGRAsPrimary n pvcs;
    let '(requeue, ready, err) := r in
    if (err ≠? None) || (requeue : bool) || negb ready then mret true
    else undoPVCFinalizersAndPVRetentionForVGR n pvcs.

(** A range over the groups. *)
Definition range_groups (groupPVCs : gmap NamespacedName (list ptr)) : VOp (list (NamespacedName * list ptr)) :=
  t ← vtick; mret (kenv_range t groupPVCs).

Definition pvcsUnprotectVolGroupRep (groupPVCs : gmap NamespacedName (list ptr)) : VOp unit :=
  groups ← range_groups groupPVCs;
  for_each (λ g : NamespacedName * list ptr,
    r ← reconcileMissingVGR g.1 g.2;
    if (r.1 : bool) || r.2 then (if (r.2 : bool) then requeue else mret tt)
    else
      again ← reconcileVGRForDeletion g.1 g.2;
      if (again : bool) then requeue else mret tt) groups.

Fixpoint secondary_groups (groups : list (NamespacedName * list ptr)) (requeue : bool) : VOp bool :=
  match groups with
  | [] => mret requeue
  | (n, pvcs) :: groups' =>
      r ← reconcileMissingVGR n pvcs;
      if (r.1 : bool) || r.2 then secondary_groups groups' true
      else
        r ← reconcileVGRAsSecondary n pvcs;
        let '(again, ready, skip) := r in
        if (again : bool) then secondary_groups groups' true
        else if (skip : bool) || negb ready then secondary_groups groups' requeue
        else
          again ← undoPVCFinalizersAndPVRetentionForVGR n pvcs;
          secondary_groups groups' (requeue || again)
  end.

Definition reconcileVolGroupRepsAsSecondary (requeue : bool) (groupPVCs : gmap NamespacedName (list ptr)) : VOp bool :=
  v ← gets v_instance;
  if hasGlobalVGRLabel v && bool_decide (groupPVCs = ∅) then
    setGlobalSecondaryCondition ConditionTrue VRGConditionReasonPVCsNotInUse "PVCs are not in use";; mret requeue
  else
    consensus ← (if hasGlobalVGRLabel v then isGlobalStateInConsensus else mret true);
    if negb consensus then mret true
    else groups ← range_groups groupPVCs; secondary_groups groups requeue.
End groups.

(** ** As primary *)

Section primary.
Context `{VolEnv} `{VRGConfig}.

Definition getVGRCFromVGR (vgr : VolumeGroupReplication) : VOp (VolumeGroupReplicationContent + GoError) :=
  let vgrcName := vgp_VolumeGroupReplicationContentName (vgr_Spec vgr) in
  r ← Get_vgrc vgrcName;
  mret (match r with
        | inl vgrc => inl vgrc
        | inr e => inr (Errorf ("failed to get VGRC /" +:+ vgrcName +:+ " from VGR " +:+
                                om_Namespace (vgr_Meta vgr) +:+ "/" +:+ om_Name (vgr_Meta vgr)) (Some e))
        end).

Definition update_vgr_meta (vgr : VolumeGroupReplication) (m : ObjectMeta) : VOp (option GoError) :=
  r ← Update_vgr (vgr <| vgr_Meta := m |>); mret (match r with inl _ => None | inr e => Some e end).
Definition update_vgrc_meta (vgrc : VolumeGroupReplicationContent) (m : ObjectMeta) : VOp (option GoError) :=
  r ← Update_vgrc (vgrc <| vgrc_Meta := m |>); mret (match r with inl _ => None | inr e => Some e end).

(** *** Destination handles *)

Fixpoint find_mapping (name : string) (l : list PVMapping) : option PVMapping :=
  match l with
  | [] => None
  | m :: l' => if pvm_Name m =? name then Some m else find_mapping name l'
  end.

Definition findAndApplyPVMapping (vgrc : VolumeGroupReplicationContent) (pv : PersistentVolume) (vgrName : string)
    : VOp (option GoError) :=
  match find_mapping (pv_name pv) (vgrc_Mappings vgrc) with
  | None => mret (errorf ("no persistent volume mapping for PV " +:+ pv_name pv +:+
                          " in VolumeGroupReplicationContent " +:+ om_Name (vgrc_Meta vgrc)))
  | Some pvMapping =>
      if pvm_DestinationVolumeHandle pvMapping =? ""
      then mret (errorf ("destination volume ID is empty for VGR " +:+ vgrName))
      else applyDestinationVolumeHandleToPV pv (pvm_DestinationVolumeHandle pvMapping)
  end.

Definition annotateWithDestinationVolumeHandleForVolGroupRep (n : NamespacedName) (pvc : PersistentVolumeClaim)
    : VOp (option GoError) :=
  v ← gets v_instance;
  if vsp_Sync (vrg_Spec v) ≠? None then mret None
  else
    get? pv := getPVFromPVC pvc then e => mret (wrapf ("failed to get PV for PVC " +:+ pvc_name pvc) e);
    get? vgr := Get_vgr n then e => mret (Some e);
    match destinationInfoAvailableOrSkip (vrs_Conditions (vgr_Status vgr)) ("VGR " +:+ om_Name (vgr_Meta vgr)) with
    | (_, Some e) => mret (Some e)
    | (false, None) => mret None
    | (true, None) =>
        get? vgrc := getVGRCFromVGR vgr
        then e => mret (wrapf ("failed to get VolumeGroupReplicationContent for VGR " +:+ om_Name (vgr_Meta vgr)) e);
        findAndApplyPVMapping vgrc pv (om_Name (vgr_Meta vgr))
    end.

Definition findAndApplyVolumeGroupHandle (vgrc : VolumeGroupReplicationContent) (vgrName : string)
    : VOp (option GoError) :=
  let handle := vgrc_DestinationVolumeGroupID vgrc in
  if handle =? "" then mret (errorf ("destination volume group ID is empty for VGR " +:+ vgrName))
  else if map_get (om_Annotations (vgrc_Meta vgrc)) destinationVolumeGroupHandleAnnotation =? handle then mret None
  else
    err? update_vgrc_meta vgrc (vgrc_Meta vgrc <| om_Annotations ::= λ a,
           delete pvcVRAnnotationArchivedKey (<[destinationVolumeGroupHandleAnnotation := handle]> a) |>)
    then e => mret (wrapf ("failed to update VolumeGroupReplicationContent " +:+ om_Name (vgrc_Meta vgrc) +:+
                           " with destination volume group handle annotation") e);
    mret None.

Definition annotateWithDestinationVolumeGroupHandle (n : NamespacedName) : VOp (option GoError) :=
  v ← gets v_instance;
  if vsp_Sync (vrg_Spec v) ≠? None then mret None
  else
    get? vgr := Get_vgr n then e => mret (Some e);
    match destinationInfoAvailableOrSkip (vrs_Conditions (vgr_Status vgr)) ("VGR " +:+ om_Name (vgr_Meta vgr)) with
    | (_, Some e) => mret (Some e)
    | (false, None) => mret None
    | (true, None) =>
        get? vgrc := getVGRCFromVGR vgr
        then e => mret (wrapf ("failed to get VolumeGroupReplicationContent for VGR " +:+ om_Name (vgr_Meta vgr)) e);
        findAndApplyVolumeGroupHandle vgrc (om_Name (vgr_Meta vgr))
    end.

(** *** Copies in the stores *)

Definition isVGRandVGRCArchivedAlready (vgr : VolumeGroupReplication) : VOp bool :=
  get? vgrc := getVGRCFromVGR vgr then _e => mret false;
  let archived := λ m, map_get (om_Annotations m) pvcVRAnnotationArchivedKey =?
                         generateArchiveAnnotation (om_Generation m) in
  mret (archived (vgr_Meta vgr) && archived (vgrc_Meta vgrc)).

Definition addArchivedAnnotationForVGRandVGRC (vgr : VolumeGroupReplication) : VOp (option GoError) :=
  err? addAnnotationForResource (vgr_Meta vgr) "VolumeGroupReplication" pvcVRAnnotationArchivedKey
         (generateArchiveAnnotation (om_Generation (vgr_Meta vgr))) (update_vgr_meta vgr)
  then e => mret (Some e);
  v ← gets v_instance;
  get? vgrc := getVGRCFromVGR vgr
  then e => mret (wrapf ("failed to update VGRC () annotation (" +:+ pvcVRAnnotationArchivedKey +:+
                         ") belonging toVolumeReplicationGroup (" +:+ vrg_nn v +:+ ")") e);
  addAnnotationForResource (vgrc_Meta vgrc) "VolumeGroupReplicationContent" pvcVRAnnotationArchivedKey
    (generateArchiveAnnotation (om_Generation (vgrc_Meta vgrc))) (update_vgrc_meta vgrc).

Definition vgr_nn (vgr : VolumeGroupReplication) : NamespacedName := (om_Namespace (vgr_Meta vgr), om_Name (vgr_Meta vgr)).

Definition UploadVGRAndVGRCtoS3 (s3ProfileName objectStore : string) (vgr : VolumeGroupReplication)
    (vgrc : VolumeGroupReplicationContent) : VOp (option GoError) :=
  v ← gets v_instance;
  err? UploadVGRC objectStore (s3KeyPrefix v) (om_Name (vgrc_Meta vgrc)) vgrc
  then e =>
    ((if is_aws_error e
      then cacheObjectStorer s3ProfileName None
             (errorf ("persistent error while uploading to s3 profile " +:+ s3ProfileName +:+ ", will retry later"))
      else mret tt);;
     mret (wrapf ("error uploading VGRC to s3Profile " +:+ s3ProfileName +:+
                  ", failed to protect cluster data for VGRC " +:+ om_Name (vgrc_Meta vgrc)) e));
  err? UploadVGR objectStore (s3KeyPrefix v) (nn_string (vgr_nn vgr)) vgr
  then e => mret (wrapf ("error uploading VGR to s3Profile " +:+ s3ProfileName +:+
                         ", failed to protect cluster data for VGR " +:+ nn_string (vgr_nn vgr)) e);
  mret None.

Definition UploadVGRandVGRCtoS3Store (s3ProfileName : string) (vgr : VolumeGroupReplication)
    (vgrc : VolumeGroupReplicationContent) : VOp (option GoError) :=
  if s3ProfileName =? "" then
    mret (errorf ("missing S3 profiles, failed to protect cluster data for VGR " +:+ om_Name (vgr_Meta vgr)))
  else
    r ← getObjectStorer s3ProfileName;
    match r with
    | (_, Some e) => mret (wrapf ("error getting object store, failed to protect cluster data for VGR " +:+
                                  om_Name (vgr_Meta vgr)) e)
    | (objectStore, None) => UploadVGRAndVGRCtoS3 s3ProfileName (default s3ProfileName objectStore) vgr vgrc
    end.

Fixpoint upload_group_profiles (vgr : VolumeGroupReplication) (vgrc : VolumeGroupReplicationContent)
    (profiles succeeded : list string) : VOp (list string * option GoError) :=
  match profiles with
  | [] => mret (succeeded, None)
  | s3ProfileName :: profiles' =>
      err? UploadVGRandVGRCtoS3Store s3ProfileName vgr vgrc
      then e => (report_event EventTypeWarning EventReasonUploadFailed (error_text e);; mret (succeeded, Some e));
      upload_group_profiles vgr vgrc profiles' (succeeded ++ [s3ProfileName])
  end.

Definition UploadVGRandVGRCtoS3Stores (vgr : VolumeGroupReplication) : VOp (list string * option GoError) :=
  v ← gets v_instance;
  get? vgrc := getVGRCFromVGR vgr
  then e => mret ([], wrapf ("error getting VGRC for VGR, failed to protect cluster data for VGR " +:+
                             om_Name (vgr_Meta vgr)) e);
  upload_group_profiles vgr vgrc (vsp_S3Profiles (vrg_Spec v)) [].

Definition uploadVGRandVGRCtoS3Stores (n : NamespacedName) : VOp (option GoError) :=
  v ← gets v_instance;
  if vsp_DryRun (vrg_Spec v) then mret None
  else
    get? vgr := Get_vgr n then e => mret (wrapf ("failed to get VGR (" +:+ error_text e +:+ ")") e);
    if vgp_External (vgr_Spec vgr) then mret None
    else
      archived ← isVGRandVGRCArchivedAlready vgr;
      if (archived : bool) then mret None
      else
        let numProfilesToUpload := length (vsp_S3Profiles (vrg_Spec v)) in
        if bool_decide (numProfilesToUpload = 0) then
          mret (errorf ("error uploading cluster data of VGR and VGRC " +:+ om_Name (vgr_Meta vgr) +:+
                        " because VRG spec has no S3 profiles"))
        else
          r ← UploadVGRandVGRCtoS3Stores vgr;
          match r with
          | (s3Profiles, Some e) =>
              mret (wrapf ("failed to upload VGR/VGRC with error (" +:+ error_text e +:+ "). Uploaded to " +:+
                           fmt_list s3Profiles +:+ " S3 profile(s)") e)
          | (s3Profiles, None) =>
              if bool_decide (length s3Profiles ≠ numProfilesToUpload) then
                mret (errorf ("uploaded VGR/VGRC cluster data to only  " +:+ pretty (Z.of_nat (length s3Profiles)) +:+ " of " +:+
                              pretty (Z.of_nat numProfilesToUpload) +:+ " S3 profile(s): " +:+ fmt_list s3Profiles))
              else addArchivedAnnotationForVGRandVGRC vgr
          end.

(** *** Reconciling the groups *)

Definition protect_group_claim (n : NamespacedName) (p : ptr) : VOp unit :=
  pvc ← load p;
  err? annotateWithDestinationVolumeHandleForVolGroupRep n pvc then _e => requeue;
  err? uploadPVandPVCtoS3Stores p then _e => requeue;
  mret tt.

Definition primary_group (isGlobal : bool) (g : NamespacedName * list ptr) : VOp unit :=
  r ← processVGRAsPrimary g.1 g.2;
  let '(again, _, err) := r in
  (if (again : bool) then requeue else mret tt);;
  match err with
  | Some _ => mret tt
  | None =>
      for_each (protect_group_claim g.1) g.2;;
      err? annotateWithDestinationVolumeGroupHandle g.1 then _e => requeue;
      if isGlobal then mret tt
      else err? uploadVGRandVGRCtoS3Stores g.1 then _e => requeue; mret tt
  end.

Definition reconcileVolGroupRepsAsPrimary (groupPVCs : gmap NamespacedName (list ptr)) : VOp unit :=
  v ← gets v_instance;
  let isGlobal := hasGlobalVGRLabel v in
  consensus ← (if isGlobal then isGlobalStateInConsensus else mret true);
  if negb consensus then requeue
  else groups ← range_groups groupPVCs; for_each (primary_group isGlobal) groups.

(** *** Taking one claim out of its group *)

(** Whether the label was found reset. *)
Definition resetCGLabelValue (p : ptr) : VOp (bool * option GoError) :=
  pvc ← load p;
  r ← isCGEnabled pvc;
  if negb r.2 then mret (false, errorf "PVC is not protected as part of a consistency group")
  else if r.1 =? "" then mret (true, None)
  else
    err? update_pvc_label p ConsistencyGroupLabel ""
    then e => mret (false, errorf ("error (" +:+ error_text e +:+ ") updating PVC labels"));
    mret (false, None).

Definition getVGRUsingSCLabel (pvc : PersistentVolumeClaim) : VOp (VolumeGroupReplication + GoError) :=
  get? grID := getVGRClassReplicationID pvc then _e => mret (inr (Errorf "error determining replicationID" None));
  v ← gets v_instance;
  Get_vgr (vgrNamespacedName v grID (pvc_namespace pvc)).

Definition ensurePVCUnprotected (pvc : PersistentVolumeClaim) (vgr : VolumeGroupReplication) : bool :=
  negb (ResourceIsDeleted (vgr_Meta vgr)) && bool_decide (pvc_name pvc ∉ vgr_PVCRefs vgr).

Definition deleteVGRIfUnused (vgr : VolumeGroupReplication) : VOp (option GoError) :=
  match vgr_PVCRefs vgr with
  | _ :: _ => mret None
  | [] => deleteVGR (vgr_nn vgr)
  end.

Definition pvcUnprotectVolGroupRep (p : ptr) : VOp unit :=
  pvc ← load p;
  let retry := λ reason msg, updatePVCDataReadyCondition (pvc_namespace pvc) (pvc_name pvc) reason msg;; requeue in
  let retrying := λ e, retry VRGConditionReasonError
    ("Retrying, on error (" +:+ error_text e +:+ ") processing PVC for deletion or deselection from protection") in
  r ← resetCGLabelValue p;
  match r with
  | (_, Some e) => retrying e
  | (false, None) =>
      retry VRGConditionReasonError
        "PVC is deleted or deselected from protection, and is not protected as part of a consistency group"
  | (true, None) =>
      pvc ← load p;
      r ← getVGRUsingSCLabel pvc;
      let finish :=
        err? preparePVCForVRDeletion p
        then e => retry VRGConditionReasonError
          ("Retrying due to error (" +:+ error_text e +:+ ") processing PVC for deletion or deselection from protection");
        mret tt in
      match r with
      | inr e => if IsNotFound e then finish else retrying e
      | inl vgr =>
          if negb (ensurePVCUnprotected pvc vgr) then
            retry VRGConditionReasonProgressing "PVC is being processed for deletion or deselection from protection"
          else
            err? deleteVGRIfUnused vgr then e => retrying e;
            finish
      end
  end.
End primary.
