(* ===== verification/VolRepReconcile.v ===== *)
(** * Reconciling the replicated claims of a VRG

    internal/controller/vrg_volrep.go: the loops over [v.volRepPVCs] of a primary, a
    secondary and a deleted VRG, each claim on its own or in its consistency group, and
    the snapshots that a dry run of a failover takes and its end removes
    (GetVolumeSnapshotClassFromPVCStorageClass is of volsync/vshandler.go). *)

From Stdlib Require Import ZArith Ascii.
From stdpp Require Import pretty.
From S2P Require Import Prelude Meta Names Conditions Api VRGStatus PolicyPeers Events Volumes VolRepStatus VolRepClasses.
From S2P Require Import VolRep ObjectStores VolGroupRep.
#[local] Open Scope record_scope.

Definition dryRunSnapshotLabel : string := "ramendr.openshift.io/dry-run-snapshot".
Definition dryRunVRGLabel : string := "ramendr.openshift.io/dry-run-vrg".
Definition VolumeSnapshotIsDefaultAnnotation : string := "snapshot.storage.kubernetes.io/is-default-class".

(** ** Strings *)

(** [strings.ToLower], of ASCII. *)
Definition lower_ascii (c : ascii) : ascii :=
  let n := nat_of_ascii c in
  if bool_decide (65 ≤ n ∧ n ≤ 90) then ascii_of_nat (n + 32) else c.
Fixpoint to_lower (s : string) : string :=
  match s with EmptyString => "" | String c s' => String (lower_ascii c) (to_lower s') end.
(** [strings.Contains] *)
Fixpoint contains (sub s : string) : bool :=
  String.prefix sub s || match s with EmptyString => false | String _ s' => contains sub s' end.

Definition isCephFSProvisioner (provisioner : string) : bool := contains "cephfs" (to_lower provisioner).

(** ** When a dry run has snapshots *)

Definition shouldTakeDryRunSnapshots (v : VolumeReplicationGroup) : bool :=
  (vsp_ReplicationState (vrg_Spec v) =? Primary) && vsp_DryRun (vrg_Spec v) &&
  (vsp_Action (vrg_Spec v) =? VRGActionFailover).

Definition shouldCleanupDryRunSnapshots (v : VolumeReplicationGroup) : bool :=
  if (vsp_ReplicationState (vrg_Spec v) =? Secondary) && negb (vsp_DryRun (vrg_Spec v)) then true
  else (vsp_ReplicationState (vrg_Spec v) =? Primary) && negb (vsp_DryRun (vrg_Spec v)) &&
       (vsp_Action (vrg_Spec v) =? VRGActionFailover).

Definition dry_run_labels (vrgName : string) : gmap string string :=
  {[dryRunSnapshotLabel := "true"; dryRunVRGLabel := vrgName]}.

Definition isDefaultVolumeSnapshotClass (c : SnapshotClass) : bool :=
  om_Annotations (ssc_Meta c) !! VolumeSnapshotIsDefaultAnnotation =? Some "true".

(** The loop of [getVolumeSnapshotClassFromPVCStorageClass]: the first match, or the last
    default one. *)
Definition snapshot_class_step (storageClass : StorageClass) (matched : string) (c : SnapshotClass) : string :=
  let sID := map_get (om_Labels (ssc_Meta c)) StorageIDLabel in
  if (sID ≠? "") && (sID ≠? map_get (om_Labels (sc_Meta storageClass)) StorageIDLabel) then matched
  else if ssc_Driver c =? sc_Provisioner storageClass then
    (if (matched =? "") || isDefaultVolumeSnapshotClass c then om_Name (ssc_Meta c) else matched)
  else matched.

Section snapshots.
Context `{VolEnv}.

Definition list_snapshots (namespace : option string) (vrgName : string) : VOp (list VolumeSnapshot + GoError) :=
  kList (λ w, (map_to_list (k_snapshots w)).*2) (λ s,
    match namespace with None => true | Some ns => om_Namespace (vsn_Meta s) =? ns end &&
    labels_match (dry_run_labels vrgName) (vsn_Meta s)).

(** *** The class of a snapshot (volsync/vshandler.go) *)

Definition GetVolumeSnapshotClasses : VOp (list SnapshotClass + GoError) :=
  cached ← gets v_snapshotClassList;
  match cached with
  | Some l => mret (inl l)
  | None =>
      v ← gets v_instance;
      match kenv_LabelSelectorAsSelector (va_VolumeSnapshotClassSelector (async_spec v)) with
      | inr e => mret (inr (Errorf "unable to use volume snapshot label selector" (Some e)))
      | inl matches =>
          get? l := kList k_snapshotClasses (λ c, matches (om_Labels (ssc_Meta c)))
          then e => mret (inr (Errorf "error listing volumesnapshotclasses" (Some e)));
          modify (λ w, w <| v_snapshotClassList := Some l |>);;
          mret (inl l)
      end
  end.

Definition getVolumeSnapshotClassFromPVCStorageClass (storageClass : StorageClass) : VOp (string + GoError) :=
  get? classes := GetVolumeSnapshotClasses then e => mret (inr e);
  let matched := foldl (snapshot_class_step storageClass) "" classes in
  mret (if matched =? ""
        then inr (Errorf ("unable to find matching volumesnapshotclass for storage provisioner " +:+
                          sc_Provisioner storageClass) None)
        else inl matched).

(** The handler reads the class from the server, without a cache. *)
Definition GetVolumeSnapshotClassFromPVCStorageClass (storageClassName : option string) : VOp (string + GoError) :=
  match storageClassName with
  | None | Some "" => mret (inr (Errorf "no storageClassName given, cannot proceed" None))
  | Some scName =>
      get? storageClass := kGet k_storageClasses (λ _ x, x) ("", scName)
      then e => mret (inr (Errorf "error getting storage class" (Some e)));
      getVolumeSnapshotClassFromPVCStorageClass storageClass
  end.

(** *** Taking them *)

Definition createSnapshot (pvc : PersistentVolumeClaim) (snapshotClassName : string) : VOp (option GoError) :=
  v ← gets v_instance;
  let m := named_meta (pvc_name pvc +:+ "-snapshot") (pvc_namespace pvc)
             <| om_Labels := <[CreatedByRamenLabel := "true"]> (dry_run_labels (om_Name (vrg_Meta v))) |> in
  err? Create_snapshot (mkVolumeSnapshot m (Some (pvc_name pvc)) (Some snapshotClassName) None)
  then e => mret (if IsAlreadyExists e then None else Some e);
  mret None.

Definition createSnapshotForPVC (p : ptr) : VOp (option GoError) :=
  pvc ← load p;
  get? snapshotClassName := GetVolumeSnapshotClassFromPVCStorageClass (pvcs_StorageClassName (pvc_Spec pvc))
  then e => mret (Some e);
  createSnapshot pvc snapshotClassName.

Fixpoint createSnapshotsForPVCs (pvcs : list ptr) : VOp (option GoError) :=
  match pvcs with
  | [] => mret None
  | p :: pvcs' => err? createSnapshotForPVC p then e => mret (Some e); createSnapshotsForPVCs pvcs'
  end.

Fixpoint filter_non_cephfs (pvcs : list ptr) : VOp (list ptr + GoError) :=
  match pvcs with
  | [] => mret (inl [])
  | p :: pvcs' =>
      pvc ← load p;
      get? storageClass := getStorageClass pvc then e => mret (inr e);
      get? rest := filter_non_cephfs pvcs' then e => mret (inr e);
      mret (inl (if isCephFSProvisioner (sc_Provisioner storageClass) then rest else p :: rest))
  end.

Definition filterNonCephFSPVCs : VOp (list ptr + GoError) :=
  pvcs ← gets v_volRepPVCs; filter_non_cephfs pvcs.

Definition snapshotsUpToDateFromMap (snapshotMap : gmap string VolumeSnapshot) (pvcNames : list string) : bool :=
  if bool_decide (size snapshotMap ≠ length pvcNames) then false
  else forallb (λ name,
         match snapshotMap !! name with
         | None => false
         | Some snapshot => vsn_ReadyToUse snapshot =? Some true
         end) pvcNames.

(** By the name of the claim alone: a later one replaces an earlier one. *)
Definition add_snapshot (snapshotMap : gmap string VolumeSnapshot) (s : VolumeSnapshot) : gmap string VolumeSnapshot :=
  match vsn_SourcePVC s with None => snapshotMap | Some pvcName => <[pvcName := s]> snapshotMap end.

Fixpoint collect_snapshots (vrgName : string) (namespaces : list string) (snapshotMap : gmap string VolumeSnapshot)
    : VOp (gmap string VolumeSnapshot + GoError) :=
  match namespaces with
  | [] => mret (inl snapshotMap)
  | namespace :: namespaces' =>
      get? snapshots := list_snapshots (Some namespace) vrgName
      then e => mret (inr (Errorf ("listing dry-run snapshots in namespace " +:+ namespace) (Some e)));
      collect_snapshots vrgName namespaces' (foldl add_snapshot snapshotMap snapshots)
  end.

Definition ensureSnapshotsForDryRun : VOp (option GoError) :=
  get? nonCephFSPVCs := filterNonCephFSPVCs then e => mret (wrapf "filtering non-CephFS PVCs" e);
  match nonCephFSPVCs with
  | [] => mret None
  | _ =>
      heap ← gets v_heap;
      v ← gets v_instance;
      let pvcs := (λ p, default zero_pvc (heap !! p)) <$> nonCephFSPVCs in
      t ← vtick;
      get? snapshotMap := collect_snapshots (om_Name (vrg_Meta v))
                            (kenv_range_keys t (list_to_set (pvc_namespace <$> pvcs))) ∅
      then e => mret (Some e);
      if snapshotsUpToDateFromMap snapshotMap (pvc_name <$> pvcs) then mret None
      else createSnapshotsForPVCs nonCephFSPVCs
  end.

(** *** Removing them *)

Fixpoint delete_snapshots (snapshots : list VolumeSnapshot) (errorCount : nat) : VOp nat :=
  match snapshots with
  | [] => mret errorCount
  | s :: snapshots' =>
      err ← Delete_snapshot (om_Namespace (vsn_Meta s), om_Name (vsn_Meta s));
      delete_snapshots snapshots'
        (match err with
         | Some e => if IsNotFound e then errorCount else S errorCount
         | None => errorCount
         end)
  end.

Definition cleanupDryRunSnapshots : VOp (option GoError) :=
  v ← gets v_instance;
  get? snapshots := list_snapshots None (om_Name (vrg_Meta v))
  then e => mret (wrapf "failed to list dry-run snapshots" e);
  errorCount ← delete_snapshots snapshots 0;
  mret (if bool_decide (errorCount = 0) then None
        else errorf ("failed to delete " +:+ pretty (Z.of_nat errorCount) +:+ " snapshots during cleanup")).
End snapshots.

Section reconcile.
Context `{VolEnv} `{VRGConfig}.
Abbreviation Groups := (gmap NamespacedName (list ptr)).

(** ** Giving claims up *)

(** The claims whose groups are given up together are collected. *)
Fixpoint unprotect_claims (pvcs : list ptr) (groupPVCs : Groups) : VOp Groups :=
  match pvcs with
  | [] => mret groupPVCs
  | p :: pvcs' =>
      pvc ← load p;
      if negb (ContainsFinalizer (pvc_Meta pvc) PvcVRFinalizerProtected) then unprotect_claims pvcs' groupPVCs
      else
        r ← preparePVCForVRProtection p;
        if (r.1 : bool) || r.2 then requeue;; unprotect_claims pvcs' groupPVCs
        else
          pvc ← load p;
          cg ← isCGEnabled pvc;
          v ← gets v_instance;
          if (cg.2 : bool) then
            get? group := (if cg.1 =? "" then getVGRClassReplicationID pvc else mret (inl cg.1))
            then _e => (requeue;; unprotect_claims pvcs' groupPVCs);
            unprotect_claims pvcs' (addPVCToGroupPVCs v p pvc group groupPVCs)
          else
            r ← reconcileMissingVR p;
            if (r.2 : bool) then requeue;; unprotect_claims pvcs' groupPVCs
            else if (r.1 : bool) then unprotect_claims pvcs' groupPVCs
            else
              again ← reconcileVRForDeletion p;
              (if (again : bool) then requeue else mret tt);;
              unprotect_claims pvcs' groupPVCs
  end.

Definition pvcsUnprotectVolRep (pvcs : list ptr) : VOp unit :=
  groupPVCs ← unprotect_claims pvcs ∅;
  pvcsUnprotectVolGroupRep groupPVCs.

(** The claim is passed by value: what is done to it, is done to a copy. *)
Definition pvcUnprotectVolRep (pvc : PersistentVolumeClaim) : VOp unit :=
  if negb v_VolumeUnprotectionEnabled then mret tt
  else
    err? pvAndPvcObjectReplicasDelete pvc then _e => requeue;
    cg ← isCGEnabled pvc;
    p ← alloc pvc;
    if (cg.2 : bool) then pvcUnprotectVolGroupRep p else pvcsUnprotectVolRep [p].

Definition pvcUnprotectVolRepIfDeleted (pvc : PersistentVolumeClaim) : VOp bool :=
  if negb (ResourceIsDeleted (pvc_Meta pvc)) then mret false
  else
    v ← gets v_instance;
    if (vsp_ReplicationState (vrg_Spec v) ≠? Primary) || vsp_PrepareForFinalSync (vrg_Spec v) ||
       vsp_RunFinalSync (vrg_Spec v) then mret true
    else pvcUnprotectVolRep pvc;; mret true.

(** ** As primary *)

(** One claim of the loop: the groups with it, if it is in one. *)
Definition process_pvc_as_primary (p : ptr) (groupPVCs : Groups) : VOp Groups :=
  pvc ← load p;
  deleted ← pvcUnprotectVolRepIfDeleted pvc;
  if (deleted : bool) then mret groupPVCs
  else
    err? updateProtectedPVCs pvc then _e => (requeue;; mret groupPVCs);
    r ← preparePVCForVRProtection p;
    if (r.1 : bool) then requeue;; mret groupPVCs
    else if (r.2 : bool) then mret groupPVCs
    else
      pvc ← load p;
      cg ← isCGEnabled pvc;
      if (cg.2 : bool) then v ← gets v_instance; mret (addPVCToGroupPVCs v p pvc cg.1 groupPVCs)
      else
        r ← processVRAsPrimary (pvc_nn pvc) p;
        (if (r.1.1 : bool) then requeue else mret tt);;
        match r.2 with
        | Some _ => mret groupPVCs
        | None =>
            pvc ← load p;
            err? annotateWithDestinationVolumeHandleForVolRep pvc then _e => (requeue;; mret groupPVCs);
            err? uploadPVandPVCtoS3Stores p then _e => (requeue;; mret groupPVCs);
            mret groupPVCs
        end.

Fixpoint process_pvcs_as_primary (pvcs : list ptr) (groupPVCs : Groups) : VOp Groups :=
  match pvcs with
  | [] => mret groupPVCs
  | p :: pvcs' =>
      groupPVCs ← process_pvc_as_primary p groupPVCs;
      process_pvcs_as_primary pvcs' groupPVCs
  end.

Definition processPVCsAsPrimary : VOp Groups :=
  pvcs ← gets v_volRepPVCs; process_pvcs_as_primary pvcs ∅.

Definition reconcileVolRepsAsPrimary : VOp unit :=
  v ← gets v_instance;
  err? (if shouldCleanupDryRunSnapshots v then cleanupDryRunSnapshots else mret None) then _e => requeue;
  err? (if (vst_State (vrg_Status v) =? PrimaryState) && shouldTakeDryRunSnapshots v
        then ensureSnapshotsForDryRun else mret None)
  then _e => requeue;
  groupPVCs ← processPVCsAsPrimary;
  reconcileVolGroupRepsAsPrimary groupPVCs.

(** ** As secondary *)

(** Whether to requeue, and the groups. *)
Definition processPVCAsSecondary (p : ptr) (groupPVCs : Groups) : VOp (bool * Groups) :=
  pvc ← load p;
  if negb (ContainsFinalizer (pvc_Meta pvc) PvcVRFinalizerProtected) then
    pvc_status_delete pvc;; mret (false, groupPVCs)
  else
    err? updateProtectedPVCs pvc then _e => mret (true, groupPVCs);
    r ← preparePVCForVRProtection p;
    if (r.1 : bool) || r.2 then mret (r.1, groupPVCs)
    else
      pvc ← load p;
      cg ← isCGEnabled pvc;
      if (cg.2 : bool) then v ← gets v_instance; mret (false, addPVCToGroupPVCs v p pvc cg.1 groupPVCs)
      else again ← reconcilePVCVRAsSecondary p; mret (again, groupPVCs).

Fixpoint process_pvcs_as_secondary (pvcs : list ptr) (requeue : bool) (groupPVCs : Groups) : VOp (bool * Groups) :=
  match pvcs with
  | [] => mret (requeue, groupPVCs)
  | p :: pvcs' =>
      r ← processPVCAsSecondary p groupPVCs;
      process_pvcs_as_secondary pvcs' (requeue || r.1) r.2
  end.

Definition reconcileVolRepsAsSecondary : VOp bool :=
  v ← gets v_instance;
  err? (if shouldCleanupDryRunSnapshots v then cleanupDryRunSnapshots else mret None) then _e => mret true;
  pvcs ← gets v_volRepPVCs;
  r ← process_pvcs_as_secondary pvcs false ∅;
  reconcileVolGroupRepsAsSecondary r.1 r.2.
End reconcile.
