(* ===== verification/VolRepRestore.v ===== *)
(** * Restoring claims and volumes from the stores

    internal/controller/vrg_volrep.go and vrg_volgrouprep.go: a VRG that becomes primary
    creates the volumes, the claims and the consistency groups that its peer uploaded.
    Each is cleaned of what belongs to the other cluster and created; one that exists
    counts as restored if it is the one wanted.

    A volume in a store has a [ClaimRef] and a group's content its reference, and a volume
    of a class with secrets is a CSI volume: the source dereferences these.  Objects are
    values here: the lists that the source cleans in place are its own, and what it
    appends to [v.volRepPVCs] are copies made before the cleaning replaces the maps. *)

From Stdlib Require Import ZArith.
From stdpp Require Import pretty.
From S2P Require Import Prelude Meta Names Conditions Api VRGStatus PolicyPeers Events Volumes VolRepStatus VolRepClasses.
From S2P Require Import VolRep ObjectStores VolGroupRep.
#[local] Open Scope record_scope.

Definition RestoreAnnotation : string := "volumereplicationgroups.ramendr.openshift.io/ramen-restore".
Definition RestoredByRamen : string := "True".
Definition clusterIDKey : string := "clusterID".
Definition groupReplicationSecretName : string := "replication.storage.openshift.io/group-replication-secret-name".
Definition groupReplicationSecretNamespace : string := "replication.storage.openshift.io/group-replication-secret-namespace".
Definition controllerPublishSecretName : string := "csi.storage.k8s.io/controller-publish-secret-name".
Definition controllerPublishSecretNamespace : string := "csi.storage.k8s.io/controller-publish-secret-namespace".
Definition nodeStageSecretName : string := "csi.storage.k8s.io/node-stage-secret-name".
Definition nodeStageSecretNamespace : string := "csi.storage.k8s.io/node-stage-secret-namespace".
Definition nodePublishSecretName : string := "csi.storage.k8s.io/node-publish-secret-name".
Definition nodePublishSecretNamespace : string := "csi.storage.k8s.io/node-publish-secret-namespace".
Definition controllerExpandSecretName : string := "csi.storage.k8s.io/controller-expand-secret-name".
Definition controllerExpandSecretNamespace : string := "csi.storage.k8s.io/controller-expand-secret-namespace".
Definition nodeExpandSecretName : string := "csi.storage.k8s.io/node-expand-secret-name".
Definition nodeExpandSecretNamespace : string := "csi.storage.k8s.io/node-expand-secret-namespace".
Definition provisionerSecretName : string := "csi.storage.k8s.io/provisioner-secret-name".
Definition provisionerSecretNamespace : string := "csi.storage.k8s.io/provisioner-secret-namespace".
Definition provisionerDeletionSecretName : string := "volume.kubernetes.io/provisioner-deletion-secret-name".
Definition provisionerDeletionSecretNamespace : string := "volume.kubernetes.io/provisioner-deletion-secret-namespace".
Definition provisionerKeyName : string := "pv.kubernetes.io/provisioned-by".
Definition EventReasonVolumeAttributesClassValidationFailed : string := "VolumeAttributesClassValidationFailed".

(** ** What belongs to the other cluster *)

Definition pruned_prefixes : list string :=
  ["pv.kubernetes.io"; "volume.kubernetes.io"; "replication.storage.openshift.io";
   "volumereplicationgroups.ramendr.openshift.io"; "volsync.backube"].
Definition PruneAnnotations (annotations : gmap string string) : gmap string string :=
  filter (λ kv : string * string, existsb (λ p, String.prefix p kv.1) pruned_prefixes = false) annotations.

Definition addRestoreAnnotation (m : ObjectMeta) : ObjectMeta :=
  m <| om_Annotations ::= <[RestoreAnnotation := RestoredByRamen]> |>.

(** The reference is of the name and the namespace, and exists unless both are empty. *)
Definition secretsFromSC (params : gmap string string) (secretName secretNamespace : string)
    : SecretReference * bool :=
  let secretRef := (map_get params secretName, map_get params secretNamespace) in
  (secretRef, secretRef ≠? ("", "")).

Definition set_secret (params : gmap string string) (secretName secretNamespace : string)
    (set : SecretReference → CSIPersistentVolumeSource → CSIPersistentVolumeSource) (pv : PersistentVolume)
    : PersistentVolume :=
  let '(secFromSC, exists_) := secretsFromSC params secretName secretNamespace in
  if (exists_ : bool) then pv <| pv_Spec ::= λ s, s <| pvs_CSI ::= fmap (set secFromSC) |> |> else pv.

Definition annotate_pv (key value : string) (pv : PersistentVolume) : PersistentVolume :=
  pv <| pv_Meta ::= λ m, (AddAnnotation m key value).2 |>.

(** The last of the secrets is stored where the one before it is. *)
Definition processPVSecrets (pv : PersistentVolume) (sc : StorageClass) : PersistentVolume :=
  let params := sc_Parameters sc in
  let pv := set_secret params nodeStageSecretName nodeStageSecretNamespace
              (λ r c, c <| csi_NodeStageSecretRef := Some r |>) pv in
  let pv := set_secret params nodePublishSecretName nodePublishSecretNamespace
              (λ r c, c <| csi_NodePublishSecretRef := Some r |>) pv in
  let pv := set_secret params nodeExpandSecretName nodeExpandSecretNamespace
              (λ r c, c <| csi_NodeExpandSecretRef := Some r |>) pv in
  let pv := set_secret params controllerExpandSecretName controllerExpandSecretNamespace
              (λ r c, c <| csi_ControllerExpandSecretRef := Some r |>) pv in
  let pv := set_secret params controllerPublishSecretName controllerPublishSecretNamespace
              (λ r c, c <| csi_ControllerExpandSecretRef := Some r |>) pv in
  let '(secFromSC, exists_) := secretsFromSC params provisionerSecretName provisionerSecretNamespace in
  let pv := if (exists_ : bool)
            then annotate_pv provisionerDeletionSecretNamespace secFromSC.2
                   (annotate_pv provisionerDeletionSecretName secFromSC.1 pv)
            else pv in
  annotate_pv provisionerKeyName (sc_Provisioner sc) pv.

Definition updatePVClusterIDForRestore (v : VolumeReplicationGroup) (pv : PersistentVolume) (sc : StorageClass)
    : PersistentVolume :=
  if vsp_Sync (vrg_Spec v) ≠? None then pv
  else
    let clusterID := map_get (sc_Parameters sc) clusterIDKey in
    if clusterID =? "" then pv
    else pv <| pv_Spec ::= λ s, s <| pvs_CSI ::= fmap (λ c,
           c <| csi_VolumeAttributes ::= <[clusterIDKey := clusterID]> |>) |> |>.

(** The volume is that of the destination, if the source had its handle. *)
Definition use_destination_handle (pv : PersistentVolume) : PersistentVolume :=
  let destHandle := map_get (om_Annotations (pv_Meta pv)) destinationVolumeHandleAnnotation in
  match pvs_CSI (pv_Spec pv) with
  | Some csi =>
      if destHandle =? "" then pv
      else pv <| pv_Spec ::= λ s, s <| pvs_CSI := Some (csi <| csi_VolumeHandle := destHandle |>) |> |>
              <| pv_Meta ::= λ m, m <| om_Annotations ::= delete destinationVolumeHandleAnnotation |> |>
  | None => pv
  end.

Definition cleanupPVCForRestore (pvc : PersistentVolumeClaim) : PersistentVolumeClaim :=
  pvc <| pvc_Meta ::= λ m,
    m <| om_Annotations ::= PruneAnnotations |> <| om_Finalizers := [] |> <| om_ResourceVersion := "" |>
      <| om_OwnerReferences := [] |> <| om_UID := "" |> |>.

Definition OptionalEqual (a b : string) : bool := (a =? "") || (b =? "") || (a =? b).

(** [x] is bound; both have a claim. *)
Definition claim_ref (pv : PersistentVolume) : ObjectReference :=
  default (mkObjectReference "" "" "" "" "" "") (pvs_ClaimRef (pv_Spec pv)).

Definition pvMatches (x y : PersistentVolume) : bool :=
  (pv_name x =? pv_name y) &&
  match pvs_CSI (pv_Spec x), pvs_CSI (pv_Spec y) with
  | Some cx, Some cy => (csi_Driver cx =? csi_Driver cy) && (csi_FSType cx =? csi_FSType cy)
  | _, _ => true
  end &&
  OptionalEqual (oref_Kind (claim_ref x)) (oref_Kind (claim_ref y)) &&
  (oref_Namespace (claim_ref x) =? oref_Namespace (claim_ref y)) &&
  (oref_Name (claim_ref x) =? oref_Name (claim_ref y)) &&
  (pvs_AccessModes (pv_Spec x) =? pvs_AccessModes (pv_Spec y)) &&
  (pvs_VolumeMode (pv_Spec x) =? pvs_VolumeMode (pv_Spec y)).

(** ** Two volumes of a claim *)

(** The first element whose key came before, with the element that has it. *)
Fixpoint find_duplicate {A} (key : A → string) (seen : gmap string A) (l : list A) : option (A * A) :=
  match l with
  | [] => None
  | x :: l' =>
      match seen !! key x with
      | Some prev => Some (prev, x)
      | None => find_duplicate key (<[key x := x]> seen) l'
      end
  end.

Definition claim_key (pv : PersistentVolume) : string :=
  oref_Namespace (claim_ref pv) +:+ "/" +:+ oref_Name (claim_ref pv).

Definition checkPVClusterData (pvList : list PersistentVolume) : option GoError :=
  match find_duplicate claim_key ∅ pvList with
  | None => None
  | Some (prevPV, thisPV) =>
      errorf ("when restoring PV cluster data, detected conflicting claimKey " +:+ claim_key thisPV +:+ " in PVs " +:+
              pv_name prevPV +:+ " and " +:+ pv_name thisPV)
  end.

Definition vgr_key (vgrc : VolumeGroupReplicationContent) : string := nn_string (default ("", "") (vgrc_Ref vgrc)).

Definition checkVGRCClusterData (vgrcList : list VolumeGroupReplicationContent) : option GoError :=
  match find_duplicate vgr_key ∅ vgrcList with
  | None => None
  | Some (prevVGRC, thisVGRC) =>
      errorf ("when restoring VGRC cluster data, detected conflicting vgrKey " +:+ vgr_key thisVGRC +:+ " in VGRCs " +:+
              om_Name (vgrc_Meta prevVGRC) +:+ " and " +:+ om_Name (vgrc_Meta thisVGRC))
  end.

Section restore.
Context `{VolEnv} `{VRGConfig}.

(** ** Objects of a kind *)

(** What [restoreClusterDataObjects] is given of a kind: the cleaning, the annotation, the
    creation, the check of an object that exists, and the update of one that is a claim. *)
Record Restorable (A : Type) := mkRestorable {
  rs_type : string;
  rs_cleanup : A → VOp (A + GoError);
  rs_annotate : A → A;
  rs_create : A → VOp (option GoError);
  rs_validate : A → VOp (option GoError);
  rs_update : option (A → VOp (option GoError));
}.
#[global] Arguments mkRestorable {A}.
#[global] Arguments rs_type {A}.
#[global] Arguments rs_cleanup {A}.
#[global] Arguments rs_annotate {A}.
#[global] Arguments rs_create {A}.
#[global] Arguments rs_validate {A}.
#[global] Arguments rs_update {A}.

Definition handleExistingObject {A} (k : Restorable A) (object : A) : VOp bool :=
  err? rs_validate k object then _e => mret false;
  match rs_update k with
  | None => mret true
  | Some update => err? update object then _e => mret false; mret true
  end.

(** The number of objects restored, and the error of a cleaning that ends the loop. *)
Fixpoint restore_objects {A} (k : Restorable A) (objList : list A) (numRestored : nat) : VOp (nat * option GoError) :=
  match objList with
  | [] => mret (numRestored, None)
  | object :: objList' =>
      get? cleaned := rs_cleanup k object then e => mret (numRestored, Some e);
      let object := rs_annotate k cleaned in
      err ← rs_create k object;
      match err with
      | None => restore_objects k objList' (S numRestored)
      | Some e =>
          if IsAlreadyExists e then
            restored ← handleExistingObject k object;
            restore_objects k objList' (if (restored : bool) then S numRestored else numRestored)
          else restore_objects k objList' numRestored
      end
  end.

Definition restoreClusterDataObjects {A} (k : Restorable A) (objList : list A) : VOp (nat * option GoError) :=
  r ← restore_objects k objList 0;
  mret (match r with
        | (numRestored, Some e) => (numRestored, Some e)
        | (numRestored, None) =>
            (numRestored,
             if bool_decide (numRestored ≠ length objList)
             then errorf ("failed to restore all " +:+ rs_type k +:+ ". Total/Restored " +:+
                          pretty (Z.of_nat (length objList)) +:+ "/" +:+ pretty (Z.of_nat numRestored))
             else None)
        end).

(** ** Volumes *)

Definition cleanupPVForRestore (pv : PersistentVolume) : VOp (PersistentVolume + GoError) :=
  v ← gets v_instance;
  let pv := pv <| pv_Meta ::= λ m, m <| om_ResourceVersion := "" |> <| om_Labels ::= delete pvLeftBehindLabelKey |> |>
               <| pv_Spec ::= λ s, s <| pvs_ClaimRef ::= fmap (λ r,
                    r <| oref_UID := "" |> <| oref_ResourceVersion := "" |> <| oref_APIVersion := "" |>) |> |> in
  let pv := use_destination_handle pv in
  get? sc := getStorageClassFromSCName (pvs_StorageClassName (pv_Spec pv)) then e => mret (inr e);
  mret (inl (processPVSecrets (updatePVClusterIDForRestore v pv sc) sc)).

Definition annotate_restored_pv (pv : PersistentVolume) : PersistentVolume := pv <| pv_Meta ::= addRestoreAnnotation |>.

Definition updateExistingPVForSync (pv : PersistentVolume) : VOp (option GoError) :=
  get? pv := cleanupPVForRestore pv then e => mret (Some e);
  get? _pv := Update_pv (annotate_restored_pv pv)
  then e => mret (wrapf ("failed to cleanup existing PV for sync DR PV: " +:+ pv_name pv) e);
  mret None.

Definition validateExistingPV (pv : PersistentVolume) : VOp (option GoError) :=
  v ← gets v_instance;
  get? existingPV := Get_pv (pv_name pv) then e => mret (wrapf ("failed to get PV " +:+ pv_name pv) e);
  if pv_Phase existingPV =? VolumeBound then
    let n := (oref_Namespace (claim_ref pv), oref_Name (claim_ref pv)) in
    get? pvc := Get_pvc n
    then e => mret (wrapf ("found bound PV " +:+ pv_name existingPV +:+ " to claim " +:+ nn_string n +:+
                           " but unable to validate claim exists") e);
    mret (if ResourceIsDeleted (pvc_Meta pvc)
          then errorf ("existing bound PV " +:+ pv_name existingPV +:+ " claim " +:+ nn_string n +:+
                       " deletion timestamp non-zero")
          else if pvMatches existingPV pv then None
          else errorf ("existing PV (" +:+ pv_name existingPV +:+
                       ") is bound and doesn't match with the PV to be restored"))
  else if vsp_Sync (vrg_Spec v) ≠? None then updateExistingPVForSync existingPV
  else mret (if map_get (om_Annotations (pv_Meta existingPV)) RestoreAnnotation =? RestoredByRamen then None
             else errorf ("found existing PV (" +:+ pv_name existingPV +:+
                          ") not restored by Ramen and not matching with backed up PV")).

Definition restorable_pv : Restorable PersistentVolume :=
  mkRestorable "[]v1.PersistentVolume" cleanupPVForRestore annotate_restored_pv Create_pv validateExistingPV None.

Definition restorePVsFromObjectStore (objectStore s3ProfileName : string) : VOp (nat * option GoError) :=
  v ← gets v_instance;
  get? pvList := downloadPVs objectStore (s3KeyPrefix v) then e => mret (0, Some e);
  match checkPVClusterData pvList with
  | Some e => mret (0, wrapf ("Error found in PV cluster data in S3 store " +:+ s3ProfileName) e)
  | None => restoreClusterDataObjects restorable_pv pvList
  end.

(** ** Claims *)

Definition validateVolumeAttributesClassForRestore (pvc : PersistentVolumeClaim) : VOp unit :=
  match pvcs_VolumeAttributesClassName (pvc_Spec pvc) with
  | None | Some "" => mret tt
  | Some vacName =>
      err? validateVolumeAttributeClassExists vacName
      then e => report_event EventTypeWarning EventReasonVolumeAttributesClassValidationFailed
                  ("Could not confirm VolumeAttributesClass " +:+ vacName +:+ " referenced by PVC " +:+
                   nn_string (pvc_nn pvc) +:+ " exists on this cluster: " +:+ error_text e);
      mret tt
  end.

Definition validateExistingPVC (pvc : PersistentVolumeClaim) : VOp (option GoError) :=
  get? existingPVC := Get_pvc (pvc_nn pvc)
  then e => mret (wrapf ("failed to get existing PVC " +:+ nn_string (pvc_nn pvc)) e);
  mret (if pvc_Phase existingPVC ≠? ClaimBound
        then errorf ("PVC " +:+ nn_string (pvc_nn pvc) +:+ " exists and is not bound (phase: " +:+
                     pvc_Phase existingPVC +:+ ")")
        else if ResourceIsDeleted (pvc_Meta existingPVC)
        then errorf ("existing bound PVC " +:+ nn_string (pvc_nn pvc) +:+ " is being deleted")
        else if pvcs_VolumeName (pvc_Spec existingPVC) ≠? pvcs_VolumeName (pvc_Spec pvc)
        then errorf ("PVC " +:+ nn_string (pvc_nn pvc) +:+ " exists and bound to a different PV " +:+
                     pvcs_VolumeName (pvc_Spec existingPVC) +:+ " than PV " +:+ pvcs_VolumeName (pvc_Spec pvc) +:+
                     " desired")
        else None).

Definition cleanup_pvc (pvc : PersistentVolumeClaim) : VOp (PersistentVolumeClaim + GoError) :=
  validateVolumeAttributesClassForRestore (cleanupPVCForRestore pvc);;
  mret (inl (cleanupPVCForRestore pvc)).

Definition restorable_pvc : Restorable PersistentVolumeClaim :=
  mkRestorable "[]v1.PersistentVolumeClaim" cleanup_pvc (λ pvc, pvc <| pvc_Meta ::= addRestoreAnnotation |>)
    Create_pvc validateExistingPVC
    (Some (λ pvc, r ← Update_pvc pvc; mret (match r with inl _ => None | inr e => Some e end))).

Fixpoint append_claims (pvcList : list PersistentVolumeClaim) : VOp unit :=
  match pvcList with
  | [] => mret tt
  | pvc :: pvcList' =>
      p ← alloc pvc;
      modify (λ w, w <| v_volRepPVCs ::= λ l, l ++ [p] |>);;
      append_claims pvcList'
  end.

Definition restorePVCsFromObjectStore (objectStore : string) : VOp (nat * option GoError) :=
  v ← gets v_instance;
  get? pvcList := downloadPVCs objectStore (s3KeyPrefix v) then e => mret (0, Some e);
  append_claims pvcList;;
  restoreClusterDataObjects restorable_pvc pvcList.

(** ** The profiles, in their order *)

(** [restore] is of one store; an attempt that is neither complete nor an error leaves
    the error of the loop nil. *)
Fixpoint restore_profiles (restore : string → VOp (option nat * option GoError)) (profiles : list string)
    (err : option GoError) (NoS3 : bool) : VOp (nat * option GoError) :=
  match profiles with
  | [] => if NoS3 then mret (0, None) else requeue;; mret (0, err)
  | s3ProfileName :: profiles' =>
      if s3ProfileName =? NoS3Store then restore_profiles restore profiles' err true
      else
        t ← vtick;
        match kenv_ObjectStore t s3ProfileName with
        | Some e => restore_profiles restore profiles' (Some e) NoS3
        | None =>
            r ← restore s3ProfileName;
            match r with
            | (Some count, _) => mret (count, None)
            | (None, e) => restore_profiles restore profiles' e NoS3
            end
        end
  end.

(** Both counts, if both restores are complete and agree. *)
Definition restore_both (first second : VOp (nat * option GoError)) : VOp (option nat * option GoError) :=
  r ← first;
  match r with
  | (_, Some e) => mret (None, Some e)
  | (count, None) =>
      r ← second;
      mret (match r with
            | (_, Some e) => (None, Some e)
            | (count', None) => (if bool_decide (count = count') then Some (count + count') else None, None)
            end)
  end.

Definition restorePVsAndPVCsFromS3 : VOp (nat * option GoError) :=
  v ← gets v_instance;
  restore_profiles
    (λ s3ProfileName, restore_both (restorePVsFromObjectStore s3ProfileName s3ProfileName)
                                   (restorePVCsFromObjectStore s3ProfileName))
    (vsp_S3Profiles (vrg_Spec v)) (errorf "s3Profiles empty") false.

Definition restorePVsAndPVCsForVolRep : VOp (nat * option GoError) :=
  v ← gets v_instance;
  match vsp_S3Profiles (vrg_Spec v) with
  | [] => requeue;; mret (0, errorf "no S3Profiles configured")
  | profiles =>
      r ← restorePVsAndPVCsFromS3;
      mret (match r with
            | (_, Some e) => (0, wrapf ("failed to restore PVs and PVCs using profile list (" +:+ fmt_list profiles +:+ ")") e)
            | (count, None) => (count, None)
            end)
  end.

(** ** Consistency groups *)

Definition get_vgr_class (name : string) : VOp (ReplicationClass + GoError) :=
  err? vapi_err then e => mret (inr e);
  l ← gets k_vgrClasses;
  mret (match List.find (λ c, om_Name (rc_Meta c) =? name) l with Some c => inl c | None => inr (absent name) end).

(** The first mapping of a handle. *)
Fixpoint map_handle (vgrcName handle : string) (mappings : list PVMapping) : string + GoError :=
  match mappings with
  | [] => inl handle
  | m :: mappings' =>
      if pvm_VolumeHandle m ≠? handle then map_handle vgrcName handle mappings'
      else if pvm_DestinationVolumeHandle m =? "" then
        inr (Errorf ("destination volume ID is empty for VGRC " +:+ vgrcName +:+ ", PV " +:+ pvm_Name m +:+
                     ", volumeHandle " +:+ handle) None)
      else inl (pvm_DestinationVolumeHandle m)
  end.

Fixpoint map_handles (vgrcName : string) (mappings : list PVMapping) (handles : list string) : list string + GoError :=
  match handles with
  | [] => inl []
  | handle :: handles' =>
      match map_handle vgrcName handle mappings with
      | inr e => inr e
      | inl h => match map_handles vgrcName mappings handles' with inr e => inr e | inl hs => inl (h :: hs) end
      end
  end.

Definition updateVGRCVolumeHandlesForRestore (vgrc : VolumeGroupReplicationContent)
    : VolumeGroupReplicationContent + GoError :=
  match map_handles (om_Name (vgrc_Meta vgrc)) (vgrc_Mappings vgrc) (vgrc_VolumeHandles vgrc) with
  | inr e => inr e
  | inl handles => inl (vgrc <| vgrc_VolumeHandles := handles |>)
  end.

Definition updateVGRCClusterIDForRestore (vgrc : VolumeGroupReplicationContent)
    : VOp (VolumeGroupReplicationContent + GoError) :=
  get? vgrclass := get_vgr_class (vgrc_ClassName vgrc) then e => mret (inr e);
  let clusterID := map_get (rc_Parameters vgrclass) clusterIDKey in
  mret (inl (if clusterID =? "" then vgrc
             else vgrc <| vgrc_Attributes ::= <[clusterIDKey := clusterID]> |>)).

Definition processVGRCSecrets (vgrc : VolumeGroupReplicationContent) : VOp (VolumeGroupReplicationContent + GoError) :=
  get? vgrclass := get_vgr_class (vgrc_ClassName vgrc) then e => mret (inr e);
  let copy := λ key vgrc,
    let value := map_get (rc_Parameters vgrclass) key in
    if value =? "" then vgrc else vgrc <| vgrc_Meta ::= λ m, (AddAnnotation m key value).2 |> in
  mret (inl (copy groupReplicationSecretNamespace (copy groupReplicationSecretName vgrc))).

Definition cleanupVGRCForRestore (vgrc : VolumeGroupReplicationContent) : VOp (VolumeGroupReplicationContent + GoError) :=
  let vgrc := vgrc <| vgrc_Meta ::= λ m, m <| om_ResourceVersion := "" |> |> <| vgrc_Ref := None |> in
  let destHandle := map_get (om_Annotations (vgrc_Meta vgrc)) destinationVolumeGroupHandleAnnotation in
  let vgrc := if destHandle =? "" then vgrc
              else vgrc <| vgrc_Handle := destHandle |>
                        <| vgrc_Meta ::= λ m, m <| om_Annotations ::= delete destinationVolumeGroupHandleAnnotation |> |> in
  match updateVGRCVolumeHandlesForRestore vgrc with
  | inr e => mret (inr e)
  | inl vgrc =>
      get? vgrc := updateVGRCClusterIDForRestore vgrc then e => mret (inr e);
      processVGRCSecrets vgrc
  end.

Definition cleanupVGRForRestore (vgr : VolumeGroupReplication) : VOp (VolumeGroupReplication + GoError) :=
  v ← gets v_instance;
  let m := vgr_Meta vgr <| om_Annotations ::= PruneAnnotations |> <| om_Finalizers := [] |>
             <| om_ResourceVersion := "" |> <| om_OwnerReferences := [] |> in
  mret (match set_owner v "VolumeGroupReplication" m with
        | inl m => inl (vgr <| vgr_Meta := m |>)
        | inr e => inr e
        end).

Definition validateExistingVGRC (vgrc : VolumeGroupReplicationContent) : VOp (option GoError) :=
  let name := om_Name (vgrc_Meta vgrc) in
  get? existingVGRC := Get_vgrc name then e => mret (wrapf ("failed to get existing VGRC " +:+ name) e);
  mret (if ResourceIsDeleted (vgrc_Meta existingVGRC) then errorf ("existing VGRC " +:+ name +:+ " is being deleted")
        else None).

Definition validateExistingVGR (vgr : VolumeGroupReplication) : VOp (option GoError) :=
  let n := vgr_nn vgr in
  let content := λ x, vgp_VolumeGroupReplicationContentName (vgr_Spec x) in
  get? existingVGR := Get_vgr n then e => mret (wrapf ("failed to get existing VGR " +:+ nn_string n) e);
  mret (if ResourceIsDeleted (vgr_Meta existingVGR) then errorf ("existing VGR " +:+ nn_string n +:+ " is being deleted")
        else if content existingVGR ≠? content vgr
        then errorf ("VGR " +:+ nn_string n +:+ " exists and refers to a different VGRC " +:+ content existingVGR +:+
                     " than VGRC " +:+ content vgr +:+ " desired")
        else None).

Definition restorable_vgrc : Restorable VolumeGroupReplicationContent :=
  mkRestorable "[]v1alpha1.VolumeGroupReplicationContent" cleanupVGRCForRestore
    (λ x, x <| vgrc_Meta ::= addRestoreAnnotation |>) Create_vgrc validateExistingVGRC None.
Definition restorable_vgr : Restorable VolumeGroupReplication :=
  mkRestorable "[]v1alpha1.VolumeGroupReplication" cleanupVGRForRestore
    (λ x, x <| vgr_Meta ::= addRestoreAnnotation |>) Create_vgr validateExistingVGR None.

Definition restoreVGRCsFromObjectStore (objectStore s3ProfileName : string) : VOp (nat * option GoError) :=
  v ← gets v_instance;
  get? vgrcList := downloadVGRCs objectStore (s3KeyPrefix v) then e => mret (0, Some e);
  match checkVGRCClusterData vgrcList with
  | Some e => mret (0, wrapf ("Error found in VGRC cluster data in S3 store " +:+ s3ProfileName) e)
  | None => restoreClusterDataObjects restorable_vgrc vgrcList
  end.

Definition restoreVGRsFromObjectStore (objectStore : string) : VOp (nat * option GoError) :=
  v ← gets v_instance;
  get? vgrList := downloadVGRs objectStore (s3KeyPrefix v) then e => mret (0, Some e);
  restoreClusterDataObjects restorable_vgr vgrList.

Definition restoreVGRsAndVGRCsFromS3 : VOp (option GoError) :=
  v ← gets v_instance;
  r ← restore_profiles
        (λ s3ProfileName, restore_both (restoreVGRCsFromObjectStore s3ProfileName s3ProfileName)
                                       (restoreVGRsFromObjectStore s3ProfileName))
        (vsp_S3Profiles (vrg_Spec v)) (errorf "s3Profiles empty") false;
  mret r.2.

Definition restoreVGRsAndVGRCsForVolRep : VOp (option GoError) :=
  cg ← IsCGEnabledForVolRep;
  if negb cg then mret None
  else
    v ← gets v_instance;
    match vsp_S3Profiles (vrg_Spec v) with
    | [] => requeue;; mret (errorf "no S3Profiles configured")
    | profiles =>
        err? restoreVGRsAndVGRCsFromS3
        then e => mret (wrapf ("failed to restore VGRs and VGRCs using profile list (" +:+ fmt_list profiles +:+ ")") e);
        mret None
    end.
End restore.
