(* ===== verification/VRGAggregate.v ===== *)
(** * The conditions and the state of a VRG

    internal/controller/vrg_volrep.go, vrg_volsync.go and
    volumereplicationgroup_controller.go: what the conditions of the protected claims make
    of the VRG's own, the times and sizes of the last synchronisation, the observed state
    that the hub acts on, and the update of the status.

    The check of the virtual machines ([validateVMsForStandaloneProtection], in
    VirtualMachines) is an argument of what needs its result. *)

From Stdlib Require Import ZArith.
From stdpp Require Import pretty.
From S2P Require Import Prelude Meta Names Conditions Api VRGStatus PolicyPeers Events Volumes VolRepStatus VolRepClasses.
#[local] Open Scope record_scope.

Definition VGSCRDName : string := "volumegroupsnapshots.groupsnapshot.storage.k8s.io".
Definition VGSCRDPrivateName : string := "volumegroupsnapshots.groupsnapshot.storage.openshift.io".
Definition VRGOwnerNameLabel : string := "volumereplicationgroups-owner".
Definition VRGOwnerNamespaceLabel : string := "volumereplicationgroups-owner-namespace".

(** Two's complement, at 64 bits. *)
Definition int64 (z : Z) : Z := ((z + 2 ^ 63) mod 2 ^ 64 - 2 ^ 63)%Z.

Section vrg.
Context (v : VolumeReplicationGroup).
Let spec := vrg_Spec v.
Let generation := om_Generation (vrg_Meta v).
Let protectedPVCs := vst_ProtectedPVCs (vrg_Status v).

(** The claims replicated by VolumeReplication. *)
Definition volrep_entries : list ProtectedPVC := List.filter (λ p, negb (pp_ProtectedByVolSync p)) protectedPVCs.

Definition vrgReadyStatus (reason : string) : Condition :=
  if vsp_ReplicationState spec =? Secondary then
    if reason =? VRGConditionReasonUnused then
      newVRGDataReplicatingCondition generation reason
        (if vsp_Sync spec ≠? None then "PVC protection as secondary is complete, or no PVCs needed protection"
         else "PVC protection as secondary is complete, or no PVCs needed protection using VolumeReplication scheme")
    else newVRGDataReplicatingCondition generation VRGConditionReasonReplicating
           "PVCs in the VolumeReplicationGroup group are replicating"
  else
    newVRGAsPrimaryReadyCondition generation reason
      (if reason =? VRGConditionReasonUnused then
         (if vsp_Sync spec ≠? None then "No PVCs are protected, no PVCs found matching the selector"
          else "No PVCs are protected using VolumeReplication scheme")
       else "PVCs in the VolumeReplicationGroup are ready for use").

(** ** DataReady *)

(** Ready, and progressing: the loop ends at the first claim that is not ready. *)
Fixpoint data_ready_of (l : list ProtectedPVC) (vrgReady : bool) : bool * bool :=
  match l with
  | [] => (vrgReady, false)
  | p :: l' =>
      match FindCondition (pp_Conditions p) VRGConditionTypeDataReady with
      | None => (false, false)
      | Some condition =>
          if hasGlobalVGRLabel v && (cond_ObservedGeneration condition ≠? generation) then (false, true)
          else if cond_Reason condition =? VRGConditionReasonProgressing then (false, true)
          else if (cond_Reason condition =? VRGConditionReasonError) ||
                  (cond_Reason condition =? VRGConditionReasonErrorUnknown) then (false, false)
          else data_ready_of l' vrgReady
      end
  end.

Definition aggregateVolRepDataReadyCondition (volRepPVCs : nat) : Condition :=
  if bool_decide (volRepPVCs = 0) then vrgReadyStatus VRGConditionReasonUnused
  else
    let '(vrgReady, vrgProgressing) := data_ready_of volrep_entries (negb (bool_decide (protectedPVCs = []))) in
    if vrgReady then vrgReadyStatus VRGConditionReasonReady
    else if vrgProgressing then newVRGDataProgressingCondition generation "VolumeReplicationGroup is progressing"
    else newVRGDataErrorCondition generation "All PVCs of the VolumeReplicationGroup are not ready".

(** ** DataProtected *)

(** Protected, and replicating. *)
Fixpoint data_protected_of (l : list ProtectedPVC) (vrgProtected vrgReplicating : bool) : bool * bool :=
  match l with
  | [] => (vrgProtected, vrgReplicating)
  | p :: l' =>
      match FindCondition (pp_Conditions p) VRGConditionTypeDataProtected with
      | None => (false, false)
      | Some condition =>
          if (cond_Reason condition =? VRGConditionReasonReplicating) ||
             (cond_Reason condition =? VRGConditionReasonReady) then data_protected_of l' false true
          else if (cond_Reason condition =? VRGConditionReasonError) ||
                  (cond_Reason condition =? VRGConditionReasonErrorUnknown) then (false, false)
          else data_protected_of l' vrgProtected vrgReplicating
      end
  end.

Definition aggregateVolRepDataProtectedCondition (volRepPVCs : nat) : Condition :=
  if bool_decide (volRepPVCs = 0) then
    newVRGAsDataProtectedUnusedCondition generation
      (if vsp_ReplicationState spec =? Secondary then
         (if vsp_Sync spec ≠? None then "PVC protection as secondary is complete, or no PVCs needed protection"
          else "PVC protection as secondary is complete, or no PVCs needed protection using VolumeReplication scheme")
       else if vsp_Sync spec ≠? None then "No PVCs are protected, no PVCs found matching the selector"
       else "No PVCs are protected using VolumeReplication scheme")
  else
    let '(vrgProtected, vrgReplicating) := data_protected_of volrep_entries true false in
    if vrgProtected then
      newVRGAsDataProtectedCondition generation "PVCs in the VolumeReplicationGroup are data protected "
    else if vrgReplicating then
      newVRGDataProtectionProgressCondition generation "VolumeReplicationGroup is replicating"
    else newVRGAsDataNotProtectedCondition generation "All PVCs of the VolumeReplicationGroup are not ready".

(** ** ClusterDataProtected *)

(** The reason of the first claim in error, or whether one is being protected. *)
Fixpoint cluster_data_of (l : list ProtectedPVC) (atleastOneProtecting : bool) : string + bool :=
  match l with
  | [] => inr atleastOneProtecting
  | p :: l' =>
      match FindCondition (pp_Conditions p) VRGConditionTypeClusterDataProtected with
      | None => cluster_data_of l' true
      | Some condition =>
          if cond_Reason condition =? VRGConditionReasonUploading then cluster_data_of l' true
          else if cond_Reason condition ≠? VRGConditionReasonUploaded then inl (cond_Reason condition)
          else cluster_data_of l' atleastOneProtecting
      end
  end.

(** A synchronous VRG without claims gets a condition of another type. *)
Definition aggregateVolRepClusterDataProtectedCondition (volRepPVCs : nat) : Condition :=
  if vsp_ReplicationState spec =? Secondary then
    newVRGClusterDataProtectedUnusedCondition generation "Cluster data is not protected as Secondary"
  else if bool_decide (volRepPVCs = 0) then
    if vsp_Sync spec ≠? None then
      newVRGAsDataProtectedUnusedCondition generation "No PVCs are protected, no PVCs found matching the selector"
    else newVRGClusterDataProtectedUnusedCondition generation "No PVCs are protected using VolumeReplication scheme"
  else
    match cluster_data_of volrep_entries false with
    | inl reason =>
        newVRGClusterDataUnprotectedCondition generation reason "Cluster data of one or more PVs are unprotected"
    | inr true =>
        newVRGClusterDataProtectingCondition generation
          "Cluster data of one or more PVs are in the process of being protected"
    | inr false => newVRGClusterDataProtectedCondition generation "Cluster data of all PVs are protected"
    end.

(** ** DestinationInfoAvailable and ReplicationHealthy *)

Definition conditions_of (type : string) : list Condition :=
  omap (λ p, FindCondition (pp_Conditions p) type) volrep_entries.

Definition aggregateVolRepDestinationInfoAvailableCondition : option Condition :=
  match conditions_of VRGConditionTypeDestinationInfoAvailable with
  | [] => None
  | l =>
      Some (if forallb (λ c, cond_Status c =? ConditionTrue) l
            then new_condition VRGConditionTypeDestinationInfoAvailable ConditionTrue VRGConditionReasonReady generation
                   "Destination info is available for all VolumeReplication resources"
            else new_condition VRGConditionTypeDestinationInfoAvailable ConditionFalse VRGConditionReasonProgressing
                   generation "Destination info is not yet available for one or more VolumeReplication resources")
  end.

(** The claims that report, with their conditions. *)
Definition collectReplicationHealthyPVCConditions : list (ProtectedPVC * Condition) :=
  omap (λ p, (λ c, (p, c)) <$> FindCondition (pp_Conditions p) VRGConditionTypeReplicationHealthy) volrep_entries.

Definition newVRGReplicationHealthyCondition (observedGeneration : Z) (status : ConditionStatus)
    (reason message : string) : Condition :=
  new_condition VRGConditionTypeReplicationHealthy status reason observedGeneration message.

Definition replicationHealthyPVCMessage (p : ProtectedPVC) (c : Condition) : string :=
  "VolumeReplication for PVC " +:+ pp_Namespace p +:+ "/" +:+ pp_Name p +:+ ": " +:+ cond_Message c.

Definition aggregateVolRepReplicationHealthyCondition : option Condition :=
  let found := collectReplicationHealthyPVCConditions in
  let first := λ s, List.find (λ pc, cond_Status pc.2 =? s) found in
  match found with
  | [] => None
  | _ =>
      Some (match first ConditionFalse with
            | Some (p, c) =>
                newVRGReplicationHealthyCondition generation ConditionFalse VRGConditionReasonError
                  (replicationHealthyPVCMessage p c)
            | None =>
                match first ConditionUnknown with
                | Some (p, c) =>
                    newVRGReplicationHealthyCondition generation ConditionUnknown VRGConditionReasonErrorUnknown
                      (replicationHealthyPVCMessage p c)
                | None => newVRGReplicationHealthyCondition generation ConditionTrue VRGConditionReasonReady
                            "VolumeReplication resources are replicating"
                end
            end)
  end.

(** ** VolSync *)

Definition isVolSyncProtectedPVCConditionReady (conType : string) : bool :=
  negb (bool_decide (protectedPVCs = [])) &&
  forallb (λ p, negb (pp_ProtectedByVolSync p) ||
                match FindCondition (pp_Conditions p) conType with
                | None => false
                | Some c => cond_Status c =? ConditionTrue
                end) protectedPVCs.

Definition aggregateVolSyncDataReadyCondition (workloadStatus : string) (volSyncPVCs : nat) : Condition :=
  let data_ready := λ status reason, new_condition VRGConditionTypeDataReady status reason generation in
  if bool_decide (volSyncPVCs = 0) then
    data_ready ConditionTrue VRGConditionReasonUnused "No PVCs are protected using Volsync scheme"
  else if vsp_ReplicationState spec =? Secondary then
    if workloadStatus =? "active" then
      data_ready ConditionFalse VRGConditionReasonProgressing "Some of the VolSync PVCs are active"
    else data_ready ConditionTrue VRGConditionReasonUnused
           "Volsync based PVC protection does not report DataReady condition as Secondary"
  else if isVolSyncProtectedPVCConditionReady VRGConditionTypeVolSyncPVsRestored ||
          isVolSyncProtectedPVCConditionReady VRGConditionTypeVolSyncRepSourceSetup then
    data_ready ConditionTrue VRGConditionReasonReady "All VolSync PVCs are ready"
  else data_ready ConditionFalse VRGConditionReasonProgressing "Not all VolSync PVCs are ready".

(** ** Conflicts *)

Definition IsSecondaryVRG : bool :=
  (vsp_ReplicationState spec =? Secondary) && (vst_State (vrg_Status v) =? SecondaryState).

Definition IsDRActionInProgress : bool :=
  let state := vst_State (vrg_Status v) in
  let action := vsp_Action spec ≠? VRGActionNone in
  if negb action && ((state =? UnknownState) || (state =? StateUnset)) then false
  else if ResourceIsDeleted (vrg_Meta v) then false
  else (((vsp_ReplicationState spec =? Secondary) && (state ≠? SecondaryState)) ||
        ((vsp_ReplicationState spec =? Primary) && (state ≠? PrimaryState))) && action.

Definition hasConflictingVolRepPVCsOnSecondary (volRepPVCs : list PersistentVolumeClaim) : bool :=
  IsSecondaryVRG && existsb (λ pvc, negb (ResourceIsDeleted (pvc_Meta pvc))) volRepPVCs.

Definition validateSecondaryPVCConflictForVolRep (volRepPVCs : list PersistentVolumeClaim) : option Condition :=
  if IsDRActionInProgress then None
  else if hasConflictingVolRepPVCsOnSecondary volRepPVCs then
    Some (updateVRGNoClusterDataConflictCondition generation ConditionFalse
            VRGConditionReasonClusterDataConflictSecondary "No PVC on the secondary should match the label selector")
  else None.

Definition aggregateVolRepClusterDataConflictCondition (volRepPVCs : list PersistentVolumeClaim) : Condition :=
  match validateSecondaryPVCConflictForVolRep volRepPVCs with
  | Some c => c
  | None => new_condition VRGConditionTypeNoClusterDataConflict ConditionTrue VRGConditionReasonNoConflictDetected
              generation "No PVC conflict detected for VolumeReplication scheme"
  end.

Definition validateSecondaryPVCConflictForVolsync (volSyncPVCs : list PersistentVolumeClaim) : bool :=
  IsSecondaryVRG &&
  existsb (λ pvc, negb (existsb (λ rd, (pvc_name pvc =? pp_Name (rd_ProtectedPVC rd)) &&
                                       (pvc_namespace pvc =? pp_Namespace (rd_ProtectedPVC rd)))
                                (vss_RDSpec (vsp_VolSync spec)))) volSyncPVCs.

Definition aggregateVolSyncClusterDataConflictCondition (volSyncPVCs : list PersistentVolumeClaim) : Condition :=
  if validateSecondaryPVCConflictForVolsync volSyncPVCs then
    updateVRGNoClusterDataConflictCondition generation ConditionFalse VRGConditionReasonClusterDataConflictSecondary
      "A PVC that is not a replication destination should not match the label selector."
  else new_condition VRGConditionTypeNoClusterDataConflict ConditionTrue VRGConditionReasonNoConflictDetected generation
         "No PVC conflict detected for VolumeSync scheme".

Definition clusterDataConflict (msg : string) (status : ConditionStatus) : option Condition :=
  match vsp_ReplicationState spec with
  | Primary =>
      Some (updateVRGNoClusterDataConflictCondition generation status VRGConditionReasonClusterDataConflictPrimary msg)
  | Secondary =>
      Some (updateVRGNoClusterDataConflictCondition generation status VRGConditionReasonClusterDataConflictSecondary msg)
  | ReplicationUnset => None
  end.

(** [vmErr] is the error of the check of the virtual machines of a VM recipe. *)
Definition aggregateVMNoClusterDataConflictCondition (vmErr : option GoError) : option Condition :=
  match vmErr with
  | Some e => clusterDataConflict ("VM protection validation failed on the " +:+
                ReplicationState_string (vsp_ReplicationState spec) +:+ " cluster due to a " +:+ error_text e) ConditionFalse
  | None => clusterDataConflict "No resource conflict" ConditionTrue
  end.

Definition PrioritizePrimaryClusterDataConflictCondition (vm pvc : Condition) : Condition :=
  if cond_Reason vm =? cond_Reason pvc then
    vm <| cond_Message := "Both VM and PVC resource conflicting on " +:+
                          ReplicationState_string (vsp_ReplicationState spec) +:+ " cluster" |>
  else if cond_Reason vm =? VRGConditionReasonClusterDataConflictPrimary then vm
  else pvc.

Definition aggregateVRGNoClusterDataConflictCondition (vmErr : option GoError)
    (volRepPVCs : list PersistentVolumeClaim) : option Condition :=
  let pvc := aggregateVolRepClusterDataConflictCondition volRepPVCs in
  let pvcConflict := cond_Status pvc =? ConditionFalse in
  match aggregateVMNoClusterDataConflictCondition vmErr with
  | None => if pvcConflict then Some pvc else None
  | Some vm =>
      match cond_Status vm =? ConditionFalse, pvcConflict with
      | false, false => Some vm
      | true, true => Some (PrioritizePrimaryClusterDataConflictCondition vm pvc)
      | true, false => Some vm
      | false, true => Some pvc
      end
  end.

Definition aggregateVRGAutoCleanupCondition (volSyncPVCs : nat) : option Condition :=
  let cur := FindCondition (vst_Conditions (vrg_Status v)) VRGConditionTypeAutoCleanup in
  let desired := λ status reason, new_condition VRGConditionTypeAutoCleanup status reason generation in
  if negb (IsVMRecipe (vsp_KubeObjectProtection spec)) || bool_decide (0 < volSyncPVCs) then cur
  else if negb IsDRActionInProgress then
    Some (desired ConditionTrue VRGConditionReasonUnused "No DR action in progress; no resource cleanup required")
  else Some (match cur with
             | Some c => desired (cond_Status c) (cond_Reason c) (cond_Message c)
             | None => desired ConditionUnknown "Progressing" "DR action in progress; auto cleanup status unknown"
             end).

(** ** The last synchronisation *)

Fixpoint least_sync_time (l : list ProtectedPVC) (least : option Z) : option Z :=
  match l with
  | [] => least
  | p :: l' =>
      match pp_LastSyncTime p, least with
      | None, _ => None
      | Some t, None => least_sync_time l' (Some t)
      | Some t, Some t' => least_sync_time l' (if bool_decide (t < t')%Z then Some t else least)
      end
  end.
Definition updateVRGLastGroupSyncTime : VolumeReplicationGroup :=
  v <| vrg_Status ::= λ s, s <| vst_LastGroupSyncTime := least_sync_time protectedPVCs None |> |>.

Definition max_duration (max : option Z) (p : ProtectedPVC) : option Z :=
  match max, pp_LastSyncDuration p with
  | None, d => d
  | Some m, Some d => if bool_decide (m < d)%Z then Some d else max
  | Some _, None => max
  end.
Definition updateVRGLastGroupSyncDuration : VolumeReplicationGroup :=
  v <| vrg_Status ::= λ s, s <| vst_LastGroupSyncDuration := foldl max_duration None protectedPVCs |> |>.

Definition add_bytes (total : option Z) (p : ProtectedPVC) : option Z :=
  match total, pp_LastSyncBytes p with
  | None, b => b
  | Some t, Some b => Some (int64 (t + b))
  | Some _, None => total
  end.
Definition updateLastGroupSyncBytes : VolumeReplicationGroup :=
  v <| vrg_Status ::= λ s, s <| vst_LastGroupSyncBytes := foldl add_bytes None protectedPVCs |> |>.

(** ** The state *)

Definition getStatusStateFromSpecState (state : ReplicationState) : State :=
  match state with Primary => PrimaryState | Secondary => SecondaryState | ReplicationUnset => UnknownState end.

Definition is_true_now (c : Condition) : bool :=
  (cond_Status c =? ConditionTrue) && (cond_ObservedGeneration c =? generation).

Definition updateStatusStateForSecondary (volRepPVCs : nat) : State :=
  if vsp_Action spec ≠? VRGActionRelocate then SecondaryState
  else match FindCondition (vst_Conditions (vrg_Status v)) VRGConditionTypeDataProtected with
       | None => if bool_decide (volRepPVCs = 0) then SecondaryState else UnknownState
       | Some c => if is_true_now c then SecondaryState else UnknownState
       end.

(** The condition is there: [updateVRGConditions] or the initial conditions set it. *)
Definition updateStatusState (volRepPVCs : nat) : State :=
  match FindCondition (vst_Conditions (vrg_Status v)) VRGConditionTypeDataReady with
  | None => UnknownState
  | Some c =>
      if negb (is_true_now c) then UnknownState
      else if vsp_ReplicationState spec =? Primary then getStatusStateFromSpecState (vsp_ReplicationState spec)
      else updateStatusStateForSecondary volRepPVCs
  end.

Definition isConditionDataReady : bool :=
  match FindCondition (vst_Conditions (vrg_Status v)) VRGConditionTypeDataReady with
  | None => false
  | Some c => is_true_now c
  end.

Definition isVRGReasonError (c : Condition) : bool :=
  bool_decide (cond_Reason c ∈ [VRGConditionReasonError; VRGConditionReasonErrorUnknown; VRGConditionReasonUploadError;
    VRGConditionReasonClusterDataAnnotationFailed; VRGConditionReasonClusterDataConflictPrimary;
    VRGConditionReasonClusterDataConflictSecondary]).
End vrg.

(** ** On the instance *)

Section instance.
Context `{VolEnv} `{VRGConfig}.

Definition modify_conditions (f : Z → VolumeReplicationGroup → list Condition → list Condition) : VOp unit :=
  now ← vnow;
  modify_vrg (λ v, v <| vrg_Status ::= λ s, s <| vst_Conditions ::= f now v |> |>).

(** [util.MergeConditions] into the conditions of the VRG; the log entry is left out. *)
Definition logAndSetConditions (subconditions : list (option Condition)) : VOp unit :=
  modify_conditions (λ now _ conditions,
    (MergeConditions (SetStatusCondition now) conditions [VRGConditionReasonUnused] subconditions).2).

Definition claims_of (ptrs : Volumes → list ptr) : VOp (list PersistentVolumeClaim) :=
  gets (λ w, (λ p, default zero_pvc (v_heap w !! p)) <$> ptrs w).

(** *** Restoring once *)

(** The shared body of [shouldRestoreClusterData] and [shouldRestoreKubeObjects]: [set]
    records the generation for which nothing is to be restored. *)
Definition should_restore (conditionType restoredReason finalSync older : string)
    (set : Z → list Condition → Z → string → list Condition) : VOp bool :=
  v ← gets v_instance;
  let skip := λ msg, modify_conditions (λ now v conditions, set now conditions (om_Generation (vrg_Meta v)) msg);; mret false in
  if vsp_PrepareForFinalSync (vrg_Spec v) || vsp_RunFinalSync (vrg_Spec v) then skip finalSync
  else match FindCondition (vst_Conditions (vrg_Status v)) conditionType with
       | None => mret true
       | Some c =>
           if cond_Status c ≠? ConditionTrue then mret true
           else if cond_ObservedGeneration c =? om_Generation (vrg_Meta v) then mret false
           else if cond_Reason c =? restoredReason then skip older
           else mret true
       end.

Definition shouldRestoreClusterData : VOp bool :=
  should_restore VRGConditionTypeClusterDataReady VRGConditionReasonClusterDataRestored
    "PV and PVC restore skipped, as VRG is orchestrating final sync"
    "PV and PVC restore skipped, an older generation as Primary has already applied the restore"
    setVRGClusterDataReadyCondition.

Definition shouldRestoreKubeObjects : VOp bool :=
  should_restore VRGConditionTypeKubeObjectsReady VRGConditionReasonKubeObjectsRestored
    "k8s resource restore skipped, as VRG is orchestrating final sync"
    "k8s resource restore skipped, an older generation as Primary has already applied the restore"
    setVRGKubeObjectsReadyCondition.

(** *** VolSync's protection *)

(** volsync/vshandler.go *)
Definition isRSLastSyncTimeReady (lastSyncTime : option Z) : bool :=
  match lastSyncTime with Some t => t ≠? 0%Z | None => false end.

Definition IsRSDataProtected (pvcName pvcNamespace : string) : VOp (bool * option GoError) :=
  r ← kGet k_replicationSources (λ f x, x <| rsrc_Meta ::= f |>) (pvcNamespace, pvcName);
  mret (match r with
        | inl rs => (isRSLastSyncTimeReady (rsrc_LastSyncTime rs), None)
        | inr e => (false, if IsNotFound e then None else Some (Errorf (error_text e) (Some e)))
        end).

(** Ready, and the number of claims looked at. *)
Fixpoint volsync_protected (l : list ProtectedPVC) (count : nat) : VOp (bool * nat) :=
  match l with
  | [] => mret (true, count)
  | p :: l' =>
      if negb (pp_ProtectedByVolSync p) then volsync_protected l' count
      else
        let status := λ t, cond_Status <$> FindCondition (pp_Conditions p) t in
        if status VRGConditionTypeVolSyncRepSourceSetup ≠? Some ConditionTrue then mret (false, S count)
        else if match status VRGConditionTypeVolSyncFinalSyncInProgress with
                | Some s => s ≠? ConditionTrue
                | None => false
                end then mret (false, S count)
        else
          r ← IsRSDataProtected (pp_Name p) (pp_Namespace p);
          if (r.2 ≠? None) || negb r.1 then mret (false, S count) else volsync_protected l' (S count)
  end.

Definition buildDataProtectedCondition : VOp Condition :=
  v ← gets v_instance;
  volSyncPVCs ← claims_of v_volSyncPVCs;
  let generation := om_Generation (vrg_Meta v) in
  if bool_decide (volSyncPVCs = []) && bool_decide (vss_RDSpec (vsp_VolSync (vrg_Spec v)) = []) then
    mret (newVRGAsDataProtectedUnusedCondition generation "No PVCs are protected using Volsync scheme")
  else if vsp_ReplicationState (vrg_Spec v) =? Secondary then
    mret (newVRGAsDataProtectedUnusedCondition generation
            "Volsync based PVC protection does not report DataProtected/ClusterDataProtected conditions as Secondary")
  else
    r ← volsync_protected (vst_ProtectedPVCs (vrg_Status v)) 0;
    let actual := length (List.filter (λ pvc, negb (ResourceIsDeleted (pvc_Meta pvc))) volSyncPVCs) in
    mret (if r.1 && negb (bool_decide (r.2 < actual)) then
            new_condition VRGConditionTypeDataProtected ConditionTrue VRGConditionReasonDataProtected generation
              "All VolSync PVCs are protected"
          else new_condition VRGConditionTypeDataProtected ConditionFalse VRGConditionReasonProgressing generation
                 "Not all VolSync PVCs are protected").

Definition aggregateVolSyncDataProtectedConditions : VOp (Condition * Condition) :=
  c ← buildDataProtectedCondition;
  mret (c, c <| cond_Type := VRGConditionTypeClusterDataProtected |>).

(** Neither for a synchronous VRG. *)
Definition volSync_conditions (v : VolumeReplicationGroup) : VOp (option (Condition * Condition)) :=
  if vsp_Sync (vrg_Spec v) ≠? None then mret None
  else r ← aggregateVolSyncDataProtectedConditions; mret (Some r).

(** *** The summary *)

Definition updateVRGDataReadyCondition : VOp unit :=
  v ← gets v_instance;
  volRepPVCs ← gets v_volRepPVCs;
  volSyncPVCs ← gets v_volSyncPVCs;
  workloadStatus ← gets v_workloadStatus;
  logAndSetConditions
    [if vsp_Sync (vrg_Spec v) =? None
     then Some (aggregateVolSyncDataReadyCondition v workloadStatus (length volSyncPVCs)) else None;
     Some (aggregateVolRepDataReadyCondition v (length volRepPVCs))].

(** The conditions after DataReady and DataProtected.  [vmErr] is called for the virtual
    machines of a VM recipe. *)
Definition update_other_conditions (vmErr : VOp (option GoError)) (v : VolumeReplicationGroup)
    (volRepPVCs volSyncPVCs : list PersistentVolumeClaim) (volSyncClusterDataProtected : option Condition) : VOp unit :=
  vrgObjectProtected ← gets v_vrgObjectProtected;
  kubeObjectsProtected ← gets v_kubeObjectsProtected;
  logAndSetConditions [volSyncClusterDataProtected;
                       Some (aggregateVolRepClusterDataProtectedCondition v (length volRepPVCs));
                       vrgObjectProtected; kubeObjectsProtected];;
  err ← (if IsVMRecipe (vsp_KubeObjectProtection (vrg_Spec v)) then vmErr else mret None);
  logAndSetConditions [(if vsp_Sync (vrg_Spec v) ≠? None then None
                        else Some (aggregateVolSyncClusterDataConflictCondition v volSyncPVCs));
                       aggregateVRGNoClusterDataConflictCondition v err volRepPVCs];;
  v ← gets v_instance;
  logAndSetConditions [aggregateVRGAutoCleanupCondition v (length volSyncPVCs)];;
  (match aggregateVolRepDestinationInfoAvailableCondition v with
   | Some c => logAndSetConditions [Some c]
   | None => mret tt
   end);;
  (match aggregateVolRepReplicationHealthyCondition v with
   | Some c => logAndSetConditions [Some c]
   | None => mret tt
   end);;
  modify_vrg updateVRGLastGroupSyncTime;;
  modify_vrg updateVRGLastGroupSyncDuration;;
  modify_vrg updateLastGroupSyncBytes.

(** The aggregates read the spec and the claims of the instance, which setting conditions
    leaves as they are, and AutoCleanup. *)
Definition updateVRGConditions (vmErr : VOp (option GoError)) : VOp unit :=
  v ← gets v_instance;
  volRepPVCs ← claims_of v_volRepPVCs;
  volSyncPVCs ← claims_of v_volSyncPVCs;
  volSync ← volSync_conditions v;
  updateVRGDataReadyCondition;;
  logAndSetConditions [fst <$> volSync; Some (aggregateVolRepDataProtectedCondition v (length volRepPVCs))];;
  update_other_conditions vmErr v volRepPVCs volSyncPVCs (snd <$> volSync).

(** *** Updating the status *)

Definition IsCGEnabledForVolSync : VOp bool :=
  public ← IsCRDInstalled VGSCRDName;
  if (public : bool) then mret true else IsCRDInstalled VGSCRDPrivateName.

(** The names that are not empty, of the groups that have one. *)
Definition named_groups (groups : list (list string)) : list (list string) :=
  List.filter (λ g, negb (bool_decide (g = []))) ((λ g, List.filter (λ n, n ≠? "") g) <$> groups).

Definition updateProtectedCGsForVolRep : VOp (list (list string) + GoError) :=
  v ← gets v_instance;
  get? vgrs := kList (λ w, (map_to_list (k_vgrs w)).*2) (λ vgr, labels_match (OwnerLabels (vrg_Meta v)) (vgr_Meta vgr))
  then e => mret (inr (Errorf "failed to list Volume Group Replications" (Some e)));
  mret (inl (named_groups (vgr_PVCRefs <$> vgrs))).

Definition updateProtectedCGsForVolSync : VOp (list (list string) + GoError) :=
  v ← gets v_instance;
  get? rgss := kList (λ w, (map_to_list (k_replicationGroupSources w)).*2) (λ rgs, labels_match
                 {[VRGOwnerNameLabel := om_Name (vrg_Meta v); VRGOwnerNamespaceLabel := om_Namespace (vrg_Meta v)]}
                 (rgs_Meta rgs))
  then e => mret (inr (Errorf "failed to list Replication Group Sources" (Some e)));
  mret (inl (named_groups (rgs_ReplicationSources <$> rgss))).

(** [Status().Update]: the status of the VRG that the server has is the instance's. *)
Definition is_instance (v o : VolumeReplicationGroup) : bool :=
  (om_Name (vrg_Meta o) =? om_Name (vrg_Meta v)) && (om_Namespace (vrg_Meta o) =? om_Namespace (vrg_Meta v)).
Definition update_vrg_status : VOp (option GoError) :=
  err? vapi_err then e => mret (Some e);
  v ← gets v_instance;
  vrgs ← gets k_vrgs;
  if existsb (is_instance v) vrgs then
    modify (λ w, w <| k_vrgs ::= fmap (λ o, if is_instance v o then o <| vrg_Status := vrg_Status v |> else o) |>);;
    mret None
  else mret (Some (absent (om_Name (vrg_Meta v)))).

(** Whether to requeue, given whether the caller does. *)
Definition updateVRGStatus (requeue : bool) : VOp bool :=
  volrep ← IsCGEnabledForVolRep;
  get? volRepGroups := (if (volrep : bool) then updateProtectedCGsForVolRep else mret (inl [])) then _e => mret true;
  volsync ← IsCGEnabledForVolSync;
  get? volSyncGroups := (if (volsync : bool) then updateProtectedCGsForVolSync else mret (inl [])) then _e => mret true;
  volRepPVCs ← gets v_volRepPVCs;
  modify_vrg (λ v, v <| vrg_Status ::= λ s, s <| vst_PVCGroups := volRepGroups ++ volSyncGroups |> |>);;
  modify_vrg (λ v, v <| vrg_Status ::= λ s, s <| vst_State := updateStatusState v (length volRepPVCs) |>
                                              <| vst_ObservedGeneration := om_Generation (vrg_Meta v) |> |>);;
  v ← gets v_instance;
  saved ← gets v_savedInstanceStatus;
  if vrg_Status v =? saved then mret requeue
  else
    now ← vnow;
    modify_vrg (λ v, v <| vrg_Status ::= λ s, s <| vst_LastUpdateTime := now |> |>);;
    err? update_vrg_status then _e => mret true;
    mret requeue.

Definition updateVRGConditionsAndStatus (vmErr : VOp (option GoError)) (requeue : bool) : VOp bool :=
  updateVRGConditions vmErr;;
  updateVRGStatus requeue.

(** *** The initial status of a secondary *)

Definition resetInitialStatusAsSecondary : VOp bool :=
  v ← gets v_instance;
  let unused := λ t, match FindCondition (vst_Conditions (vrg_Status v)) t with
                     | Some c => cond_Reason c =? VRGConditionReasonClusterDataUnused
                     | None => false
                     end in
  let discovered := vst_StaticIPDiscoveryStatus (vrg_Status v) ≠? None in
  let update := negb (unused VRGConditionTypeClusterDataReady) || negb (unused VRGConditionTypeKubeObjectsReady) ||
                discovered in
  modify_vrg (λ v, v <| vrg_Status ::= λ s, s <| vst_StaticIPDiscoveryStatus := None |> |>);;
  modify_conditions (λ now v conditions, setVRGClusterDataReadyConditionUnused now conditions
    (om_Generation (vrg_Meta v)) "PV and PVC restore skipped as Secondary");;
  modify_conditions (λ now v conditions, setVRGKubeObjectsReadyConditionUnused now conditions
    (om_Generation (vrg_Meta v)) "k8s resource restore skipped as Secondary");;
  again ← gets v_requeue;
  (if update then _r ← updateVRGStatus again; mret tt else mret tt);;
  mret update.

(** *** Entries of claims that are no longer there *)

Definition cleanupProtectedPVCs (pvcsUnderDeselection : gset NamespacedName) : VOp unit :=
  if negb v_VolumeUnprotectionEnabled then mret tt
  else
    volRepPVCs ← claims_of v_volRepPVCs;
    volSyncPVCs ← claims_of v_volSyncPVCs;
    let pvcs : gset NamespacedName := list_to_set (pvc_nn <$> volRepPVCs ++ volSyncPVCs) in
    modify_vrg (λ v, v <| vrg_Status ::= λ s, s <| vst_ProtectedPVCs ::=
      List.filter (λ p, bool_decide ((pp_Namespace p, pp_Name p) ∈ pvcs)) |> |>).
End instance.
