(* ===== verification/ClaimSelection.v ===== *)
(** * The claims of a VRG

    internal/controller/volumereplicationgroup_controller.go, vrg_offloaded.go and
    util/pvcs_util.go: which claims of the cluster a VRG protects, and which of them by
    VolumeReplication and which by VolSync. *)

From Stdlib Require Import ZArith.
From S2P Require Import Prelude Meta Names Conditions Api VRGStatus PolicyPeers Events Volumes VolRepStatus VolRepClasses VolRep VolGroupRep VolRepReconcile VRGAggregate.
#[local] Open Scope record_scope.

Definition CreatedByLabelKey : string := "app.kubernetes.io/created-by".
Definition CreatedByLabelValueVolSync : string := "volsync".

(** ** Writing the VRG *)

Definition merge_vrg (old new : VolumeReplicationGroup) : VolumeReplicationGroup :=
  new <| vrg_Meta := next_generation (vrg_Spec old =? vrg_Spec new) (server_meta (vrg_Meta old) (vrg_Meta new)) |>
      <| vrg_Status := vrg_Status old |>.

Section update.
Context `{VolEnv}.

(** [Update(ctx, v.instance)]: the instance becomes what the server has, status included. *)
Definition Update_vrg : VOp (option GoError) :=
  err? vapi_err then e => mret (Some e);
  v ← gets v_instance;
  vrgs ← gets k_vrgs;
  match find_first (is_instance v) vrgs with
  | None => mret (Some (absent (om_Name (vrg_Meta v))))
  | Some old =>
      t ← vtick;
      let v' := merge_vrg old v <| vrg_Meta ::= λ m, m <| om_ResourceVersion := kenv_resourceVersion t |> |> in
      (if ResourceIsDeleted (vrg_Meta v') && bool_decide (om_Finalizers (vrg_Meta v') = [])
       then modify (λ w, w <| k_vrgs ::= List.filter (λ o, negb (is_instance v o)) |>)
       else modify (λ w, w <| k_vrgs ::= fmap (λ o, if is_instance v o then v' else o) |>));;
      modify_vrg (λ _, v');;
      mret None
  end.
End update.

(** ** Listing (util/pvcs_util.go) *)

(** [selection.NotIn] with one value: an object without the label matches. *)
Definition label_not_in (key value : string) (labels : gmap string string) : bool :=
  labels !! key ≠? Some value.

Section listing.
Context `{VolEnv} `{VRGConfig}.

Definition ListPVCsByPVCSelector (pvcLabelSelector : LabelSelector) (namespaces : list string) (volSyncDisabled : bool)
    : VOp (list PersistentVolumeClaim + GoError) :=
  match kenv_LabelSelectorAsSelector pvcLabelSelector with
  | inr e => mret (inr (Errorf ("error with PVC label selector, " +:+ error_text e) (Some e)))
  | inl pvcSelector =>
      let matches := λ labels, pvcSelector labels &&
        (volSyncDisabled || (label_not_in CreatedByLabelKey CreatedByLabelValueVolSync labels &&
                             label_not_in CreatedByRamenLabel "true" labels)) in
      get? items := kList (λ w, (map_to_list (k_pvcs w)).*2) (λ pvc, matches (om_Labels (pvc_Meta pvc)))
      then e => mret (inr (Errorf ("failed to list PersistentVolumeClaims, " +:+ error_text e) (Some e)));
      mret (inl (List.filter (λ pvc, bool_decide (pvc_namespace pvc ∈ namespaces)) items))
  end.

Definition listPVCsByPVCSelector (labelSelector : LabelSelector) : VOp (list PersistentVolumeClaim + GoError) :=
  v ← gets v_instance;
  namespaces ← gets v_pvcNamespaces;
  ListPVCsByPVCSelector labelSelector namespaces (vss_Disabled (vsp_VolSync (vrg_Spec v))).

Definition listPVCsByVrgPVCSelector : VOp (list PersistentVolumeClaim + GoError) :=
  selector ← gets v_pvcSelector;
  listPVCsByPVCSelector selector.

Definition listPVCsOwnedByVrg : VOp (list PersistentVolumeClaim + GoError) :=
  v ← gets v_instance;
  listPVCsByPVCSelector (zero_selector <| ls_MatchLabels := OwnerLabels (vrg_Meta v) |>).

(** The items of a list, each at a location of its own. *)
Fixpoint alloc_all (pvcs : list PersistentVolumeClaim) : VOp (list ptr) :=
  match pvcs with
  | [] => mret []
  | pvc :: pvcs' => p ← alloc pvc; ps ← alloc_all pvcs'; mret (p :: ps)
  end.

(** [copy] of a slice of claims. *)
Fixpoint copy_claims (pvcs : list ptr) : VOp (list ptr) :=
  match pvcs with
  | [] => mret []
  | p :: pvcs' => pvc ← load p; q ← alloc pvc; qs ← copy_claims pvcs'; mret (q :: qs)
  end.

(** [append(v.volRepPVCs, *pvc)] and [append(v.volSyncPVCs, *pvc)] *)
Definition append_volRepPVC (p : ptr) : VOp unit :=
  pvc ← load p; q ← alloc pvc; modify (λ w, w <| v_volRepPVCs ::= λ l, l ++ [q] |>).
Definition append_volSyncPVC (p : ptr) : VOp unit :=
  pvc ← load p; q ← alloc pvc; modify (λ w, w <| v_volSyncPVCs ::= λ l, l ++ [q] |>).

(** ** Peer classes *)

(** The last of the classes with the name, or none. *)
Definition last_peer_class (scName : string) (peerClasses : list PeerClass) : option PeerClass :=
  foldl (λ found pc, if scName =? pc_StorageClassName pc then Some pc else found) None peerClasses.

Definition findPeerClassMatchingSC (storageClass : StorageClass) (peerClasses : list PeerClass)
    (pvc : PersistentVolumeClaim) : VOp (PeerClass + GoError) :=
  let scName := om_Name (sc_Meta storageClass) in
  match om_Labels (sc_Meta storageClass) !! StorageIDLabel with
  | None => mret (inr (Errorf ("label (" +:+ StorageIDLabel +:+ ") not found in storageClass for PVC " +:+ pvc_name pvc) None))
  | Some sID =>
      match last_peer_class scName peerClasses with
      | None =>
          let msg := "peerClass matching storageClass " +:+ scName +:+ " not found for PVC" in
          updatePVCDataReadyCondition (pvc_namespace pvc) (pvc_name pvc) VRGConditionReasonPeerClassNotFound msg;;
          mret (inr (Errorf msg None))
      | Some peerClass =>
          mret (if bool_decide (sID ∈ pc_StorageID peerClass) then inl peerClass
                else match pc_StorageID peerClass with
                     | [] => inr (Errorf "runtime error: index out of range [0] with length 0" None)
                     | first :: _ => inr (Errorf ("storageID mismatch between peerClass (" +:+ first +:+
                                                  ") and StorageClass (" +:+ sID +:+ ")") None)
                     end)
      end
  end.

(** *** Classes of replication and of snapshots *)

Definition findMatchingReplicationClass (peerClass : PeerClass) (storageClass : StorageClass) (c : ReplicationClass) : bool :=
  let label := λ key, map_get (om_Labels (rc_Meta c)) key in
  let storage := (label StorageIDLabel =? map_get (om_Labels (sc_Meta storageClass)) StorageIDLabel) &&
                 (rc_Provisioner c =? sc_Provisioner storageClass) in
  (storage && (label ReplicationIDLabel =? pc_ReplicationID peerClass)) ||
  (storage && (label GroupReplicationIDLabel =? pc_GroupReplicationID peerClass)).

Definition findReplicationClassUsingPeerClass (peerClass : PeerClass) (storageClass : StorageClass)
    : VOp (option ReplicationClass) :=
  classes ← gets (if pc_Grouping peerClass then v_grpReplClassList else v_replClassList);
  mret (find_first (findMatchingReplicationClass peerClass storageClass) classes).

Definition findVolSnapClass (storageClass : StorageClass) : VOp (option SnapshotClass + GoError) :=
  get? snapshotClasses := GetVolumeSnapshotClasses then e => mret (inr e);
  mret (inl (find_first (λ c,
    (map_get (om_Labels (ssc_Meta c)) StorageIDLabel =? map_get (om_Labels (sc_Meta storageClass)) StorageIDLabel) &&
    (ssc_Driver c =? sc_Provisioner storageClass)) snapshotClasses)).

(** *** Labels of consistency groups *)

Definition addVolRepConsistencyGroupLabel (p : ptr) : VOp (option GoError) :=
  pvc ← load p;
  cg ← isCGEnabled pvc;
  if (cg.2 : bool) && ResourceIsDeleted (pvc_Meta pvc) then mret None
  else
    get? groupReplicationID := getVGRClassReplicationID pvc then e => mret (Some e);
    update_pvc_label p ConsistencyGroupLabel groupReplicationID.

Definition getCGLabelValue (scName : option string) (pvcName pvcNamespace : string) : VOp (string + GoError) :=
  match scName with
  | None | Some "" => mret (inr (Errorf ("missing storage class name for PVC " +:+ pvcNamespace +:+ "/" +:+ pvcName) None))
  | Some name =>
      get? storageClass := getStorageClassFromSCName name then e => mret (inr e);
      mret (match om_Labels (sc_Meta storageClass) !! StorageIDLabel with
            | None => inr (Errorf ("missing storageID for PVC " +:+ pvcNamespace +:+ "/" +:+ pvcName) None)
            | Some storageID => inl (GenerateCombinedName pvcNamespace storageID)
            end)
  end.

Definition addConsistencyGroupLabel (p : ptr) : VOp (option GoError) :=
  pvc ← load p;
  get? cgLabelVal := getCGLabelValue (pvcs_StorageClassName (pvc_Spec pvc)) (pvc_name pvc) (pvc_namespace pvc)
  then e => mret (Some e);
  update_pvc_label p ConsistencyGroupLabel cgLabelVal.

(** ** A synchronous VRG *)

Definition sync_peer_classes (v : VolumeReplicationGroup) : list PeerClass :=
  default [] (vs_PeerClasses <$> vsp_Sync (vrg_Spec v)).

Fixpoint validate_sync (peerClasses : list PeerClass) (pvcs : list ptr) : VOp (option GoError) :=
  match pvcs with
  | [] => mret None
  | p :: pvcs' =>
      pvc ← load p;
      get? storageClass := getStorageClass pvc then e => mret (Some e);
      get? _peerClass := findPeerClassMatchingSC storageClass peerClasses pvc then e => mret (Some e);
      validate_sync peerClasses pvcs'
  end.

Definition validateSyncPVCs (pvcs : list ptr) : VOp (option GoError) :=
  v ← gets v_instance;
  if bool_decide (sync_peer_classes v = []) then mret None else validate_sync (sync_peer_classes v) pvcs.

Definition updateSyncPVCs (pvcs : list ptr) : VOp (option GoError) :=
  err? validateSyncPVCs pvcs then e => mret (Some e);
  copies ← copy_claims pvcs;
  modify (λ w, w <| v_volRepPVCs := copies |>);;
  mret None.

(** ** An asynchronous VRG *)

(** A VRG being deleted keeps to what its status says; an entry counts once each time it is there. *)
Fixpoint separate_by_entries (p : ptr) (pvc : PersistentVolumeClaim) (entries : list ProtectedPVC) : VOp unit :=
  match entries with
  | [] => mret tt
  | entry :: entries' =>
      (if (pvc_name pvc =? pp_Name entry) && (pvc_namespace pvc =? pp_Namespace entry)
       then if pp_ProtectedByVolSync entry then append_volSyncPVC p else append_volRepPVC p
       else mret tt);;
      separate_by_entries p pvc entries'
  end.

Fixpoint separatePVCsUsingVRGStatus (pvcs : list ptr) : VOp unit :=
  match pvcs with
  | [] => mret tt
  | p :: pvcs' =>
      pvc ← load p;
      v ← gets v_instance;
      separate_by_entries p pvc (vst_ProtectedPVCs (vrg_Status v));;
      separatePVCsUsingVRGStatus pvcs'
  end.

Definition separatePVCsUsingOnlySC (storageClass : StorageClass) (p : ptr) : VOp unit :=
  v ← gets v_instance;
  classes ← gets v_replClassList;
  if negb (IsPVCMarkedForVolSync (om_Annotations (vrg_Meta v))) &&
     existsb (λ c, sc_Provisioner storageClass =? rc_Provisioner c) classes
  then append_volRepPVC p
  else append_volSyncPVC p.

Definition label_error (pvc : PersistentVolumeClaim) (e : GoError) : option GoError :=
  wrapf ("failed to label PVC " +:+ nn_string (pvc_nn pvc) +:+ " for consistency group (" +:+ error_text e +:+ ")") e.

(** With a replication ID the claim is replicated, or it is an error. *)
Definition separate_replicated (peerClass : PeerClass) (storageClass : StorageClass) (p : ptr) : VOp (option GoError) :=
  pvc ← load p;
  found ← findReplicationClassUsingPeerClass peerClass storageClass;
  match found with
  | None => mret (errorf ("failed to find replicationClass matching peerClass for PVC " +:+ nn_string (pvc_nn pvc)))
  | Some _ =>
      err? (if pc_Grouping peerClass then addVolRepConsistencyGroupLabel p else mret None)
      then e => mret (label_error pvc e);
      append_volRepPVC p;;
      mret None
  end.

Definition separatePVCUsingPeerClassAndSC (peerClasses : list PeerClass) (storageClass : StorageClass) (p : ptr)
    : VOp (option GoError) :=
  pvc ← load p;
  get? peerClass := findPeerClassMatchingSC storageClass peerClasses pvc then e => mret (Some e);
  v ← gets v_instance;
  if negb (IsPVCMarkedForVolSync (om_Annotations (vrg_Meta v))) && (pc_ReplicationID peerClass ≠? "")
  then separate_replicated peerClass storageClass p
  else if vss_Disabled (vsp_VolSync (vrg_Spec v))
  then mret (errorf "failed to find matching peerClass for PVC and VolSync is disabled")
  else
    get? snapClass := findVolSnapClass storageClass then e => mret (Some e);
    match snapClass with
    | None => mret (errorf ("failed to find snapshotClass for PVC " +:+ nn_string (pvc_nn pvc)))
    | Some _ =>
        err? (if pc_Grouping peerClass && negb (vsp_RunFinalSync (vrg_Spec v)) then addConsistencyGroupLabel p else mret None)
        then e => mret (label_error pvc e);
        append_volSyncPVC p;;
        mret None
    end.

Fixpoint separate_async (peerClasses : list PeerClass) (pvcs : list ptr) : VOp (option GoError) :=
  match pvcs with
  | [] => mret None
  | p :: pvcs' =>
      pvc ← load p;
      get? storageClass := getStorageClass pvc then e => mret (Some e);
      err? (if bool_decide (peerClasses = []) then separatePVCsUsingOnlySC storageClass p;; mret None
            else separatePVCUsingPeerClassAndSC peerClasses storageClass p)
      then e => mret (Some e);
      separate_async peerClasses pvcs'
  end.

Definition separateAsyncPVCs (pvcs : list ptr) : VOp (option GoError) :=
  v ← gets v_instance;
  err? separate_async (va_PeerClasses (async_spec v)) pvcs then e => mret (Some e);
  volRepPVCs ← gets v_volRepPVCs;
  volSyncPVCs ← gets v_volSyncPVCs;
  mret (if bool_decide (length pvcs = length volRepPVCs + length volSyncPVCs) then None
        else errorf "no PVCs are protected").

(** *** Offloaded storage (vrg_offloaded.go) *)

Definition isOffloadedByPeerClass (scName sID : string) (peerClass : PeerClass) : bool :=
  (scName =? pc_StorageClassName peerClass) && bool_decide (sID ∈ pc_StorageID peerClass) && pc_Offloaded peerClass.

Definition isOffloadedByPeerClasses (v : VolumeReplicationGroup) (sc : StorageClass) : bool + GoError :=
  match om_Labels (sc_Meta sc) !! StorageIDLabel with
  | None => inr (Errorf ("missing " +:+ StorageIDLabel +:+ " label in StorageClass (" +:+ om_Name (sc_Meta sc) +:+ ")") None)
  | Some sID => inl (existsb (isOffloadedByPeerClass (om_Name (sc_Meta sc)) sID) (va_PeerClasses (async_spec v)))
  end.

Definition isGloballyOffloadedByPeerClasses (v : VolumeReplicationGroup) (scName : string) : bool * string :=
  match find_first (λ pc, (scName =? pc_StorageClassName pc) && pc_Global pc) (va_PeerClasses (async_spec v)) with
  | Some pc => (true, pc_GroupReplicationID pc)
  | None => (false, "")
  end.

Definition hasGlobalPeerClass (v : VolumeReplicationGroup) : bool := existsb pc_Global (va_PeerClasses (async_spec v)).

(** [first] is the index 0 of the loop; [offloaded] what the first claim said. *)
Fixpoint check_offloaded (first offloaded : bool) (pvcs : list ptr) : VOp (bool + GoError) :=
  match pvcs with
  | [] => mret (inl offloaded)
  | p :: pvcs' =>
      pvc ← load p;
      get? storageClass := getStorageClass pvc then e => mret (inr e);
      v ← gets v_instance;
      let bySC := HasLabel (sc_Meta storageClass) StorageOffloadedLabel in
      match isOffloadedByPeerClasses v storageClass with
      | inr e => mret (inr e)
      | inl byPeer =>
          if negb (Bool.eqb byPeer bySC) then
            mret (inr (Errorf ("mismatched peerClass offload support (" +:+ (if byPeer then "true" else "false") +:+
              ") with current StorageClass (" +:+ default "" (pvcs_StorageClassName (pvc_Spec pvc)) +:+
              ") offload support (" +:+ (if bySC then "true" else "false") +:+ ") for PVC (" +:+ pvc_name pvc +:+ "/" +:+
              pvc_namespace pvc +:+ ")") None))
          else if first then check_offloaded false bySC pvcs'
          else if Bool.eqb bySC offloaded then check_offloaded false offloaded pvcs'
          else mret (inr (Errorf "invalid list of PVCs to protect, found a mix of offloaded and non-offloaded PVCs" None))
      end
  end.

Fixpoint label_offloaded (pvcs : list ptr) : VOp (option GoError) :=
  match pvcs with
  | [] => mret None
  | p :: pvcs' =>
      pvc ← load p;
      err? addVolRepConsistencyGroupLabel p
      then e => mret (wrapf ("failed to label offloaded PVC " +:+ nn_string (pvc_nn pvc) +:+ " for consistency group (" +:+
                             error_text e +:+ ")") e);
      label_offloaded pvcs'
  end.

Definition processOffloadedPVCs (pvcs : list ptr) : VOp (bool + GoError) :=
  v ← gets v_instance;
  if bool_decide (va_PeerClasses (async_spec v) = []) then mret (inl false)
  else
    get? offloaded := check_offloaded true false pvcs then e => mret (inr e);
    if negb offloaded then mret (inl false)
    else
      err? label_offloaded pvcs then e => mret (inr e);
      copies ← copy_claims pvcs;
      modify (λ w, w <| v_volRepPVCs := copies |>);;
      mret (inl true).

(** The group of all claims, or an error; none for no claims. *)
Fixpoint global_group (first : bool) (grID : string) (pvcs : list ptr) : VOp (string + GoError) :=
  match pvcs with
  | [] => mret (inl grID)
  | p :: pvcs' =>
      pvc ← load p;
      v ← gets v_instance;
      let scName := default "" (pvcs_StorageClassName (pvc_Spec pvc)) in
      let '(pvcGlobal, pvcGRID) := isGloballyOffloadedByPeerClasses v scName in
      if negb pvcGlobal then
        mret (inr (Errorf ("peerClass for StorageClass (" +:+ scName +:+ ") is not globally offloaded for PVC (" +:+
                           nn_string (pvc_nn pvc) +:+ ")") None))
      else if first then global_group false pvcGRID pvcs'
      else if pvcGRID ≠? grID
      then mret (inr (Errorf "not all PVCs share the same GroupReplicationID, cannot use global VGR" None))
      else global_group false grID pvcs'
  end.

Definition processGloballyOffloadedPVCs (pvcs : list ptr) : VOp (option GoError) :=
  v ← gets v_instance;
  if negb (hasGlobalPeerClass v) then mret None
  else
    get? grID := global_group true "" pvcs then e => mret (Some e);
    addGlobalVGRLabel grID Update_vrg.

Definition updateAsyncPVCs (pvcs : list ptr) : VOp (option GoError) :=
  err? updateReplicationClassList then e => mret (Some e);
  v ← gets v_instance;
  if ResourceIsDeleted (vrg_Meta v) then separatePVCsUsingVRGStatus pvcs;; mret None
  else
    get? offloaded := processOffloadedPVCs pvcs then e => mret (Some e);
    if (offloaded : bool) then processGloballyOffloadedPVCs pvcs else separateAsyncPVCs pvcs.

Definition updatePVCList : VOp (option GoError) :=
  get? items := listPVCsByVrgPVCSelector then e => mret (Some e);
  pvcs ← alloc_all items;
  v ← gets v_instance;
  if bool_decide (vsp_Async (vrg_Spec v) = None) then updateSyncPVCs pvcs else updateAsyncPVCs pvcs.
End listing.
