(* ===== verification/VirtualMachines.v ===== *)
(** * Virtual machines of a VRG

    util/vm_util.go, and of volumereplicationgroup_controller.go and vrg_volrep.go what
    concerns the machines of a VM recipe: conflicts between the clusters, the clean-up of a
    secondary, and the discovery of static addresses; of vrg_staticip.go their
    translation by a Velero resource modifier.

    The walk up the owners of an object is given fuel; VirtualMachinesSpec says how much is
    enough. *)

From Stdlib Require Import ZArith Ascii.
From S2P Require Import Prelude Meta Names Conditions Api VRGStatus PolicyPeers Events Telemetry Volumes VolRepStatus VolRepClasses VolRep VolRepReconcile VRGAggregate.
#[local] Open Scope record_scope.

Definition KindVirtualMachine : string := "VirtualMachine".
Definition KubeVirtAPIVersion : string := "kubevirt.io/v1".
Definition VMStaticIPAnnotation : string := "network.kubevirt.io/addresses".
Definition VMList : string := "PROTECTED_VMS".
Definition K8SLabelSelector : string := "K8S_RESOURCE_SELECTOR".
Definition VMLabelSelector : string := "ramendr.openshift.io/k8s-resource-selector".
Definition ProtectedVMNamespace : string := "VM_NAMESPACE".
Definition VRGConditionReasonAutoCleanupProgressing : string := "Progressing".
Definition VRGConditionReasonAutoCleanupCompleted : string := "Completed".

Record VMStaticIPInfo := mkVMStaticIPInfo {
  vsi_VMName : string;
  vsi_Namespace : string;
  vsi_HasStaticIP : bool;
  vsi_PrimaryAddresses : gmap string (list string);
}.

(** *** The resource modifier (vrg_staticip.go) *)

Definition resourceModifierDataKey : string := "resource-modifiers.yaml".
Definition resourceModifierNameSuffix : string := "-resource-modifier".
Definition resourceModifierComponentLabel : string := "ramendr.openshift.io/resource-modifier".
Definition kubevirtAddressAnnotationPath : string := "/spec/template/metadata/annotations/network.kubevirt.io~1addresses".
Definition kubevirtVMGroupResource : string := "virtualmachines.kubevirt.io".
Definition resourceModifierVersion : string := "v1".

Record jsonPatch := mkJsonPatch { jp_Operation : string; jp_Path : string; jp_Value : string }.
Record resourceModifierConditions := mkResourceModifierConditions {
  rmc_GroupResource : string;
  rmc_ResourceNameRegex : string;
  rmc_Namespaces : list string;
}.
Record resourceModifierRule := mkResourceModifierRule {
  rmr_Conditions : resourceModifierConditions;
  rmr_Patches : list jsonPatch;
}.
Record resourceModifiers := mkResourceModifiers {
  rm_Version : string;
  rm_ResourceModifierRules : list resourceModifierRule;
}.

(** What is read of libraries: the decoding of the annotation, the order of a range over
    the networks it has, the encoding of rules as YAML; the namespace of Velero, and the
    fuel of the walk. *)
Class VMEnv := {
  vme_ParseAddresses : string → option (gmap string (list string));
  vme_range : nat → gmap string (list string) → list (string * list string);
  vme_range_perm : ∀ t m, vme_range t m ≡ₚ map_to_list m;
  vme_Marshal : resourceModifiers → string + GoError;
  vme_veleroNamespaceName : string;
  vme_fuel : nat;
}.

(** [json.Marshal] of a string: quotes, backslashes, control characters and the characters
    that HTML reserves are escaped; others, of valid UTF-8, are not. *)
Definition hex_char (n : nat) : ascii := if bool_decide (n < 10) then ascii_of_nat (48 + n) else ascii_of_nat (87 + n).
Definition json_escape (c : ascii) : string :=
  let n := nat_of_ascii c in
  let backslash := ascii_of_nat 92 in
  let short := λ x, String backslash (String x "") in
  if (n =? 34) || (n =? 92) then String backslash (String c "")
  else if n =? 8 then short "b"%char
  else if n =? 12 then short "f"%char
  else if n =? 10 then short "n"%char
  else if n =? 13 then short "r"%char
  else if n =? 9 then short "t"%char
  else if bool_decide (n < 32) || (n =? 60) || (n =? 62) || (n =? 38)
  then String backslash ("u00" +:+ String (hex_char (n / 16)) (String (hex_char (n mod 16)) ""))
  else String c "".
Fixpoint json_body (s : string) : string :=
  match s with EmptyString => "" | String c s' => json_escape c +:+ json_body s' end.
Definition json_string (s : string) : string := quoted (json_body s).

Definition buildAnnotationPatchValue (networkName targetIP : string) : string :=
  json_string ("{" +:+ json_string networkName +:+ ":[" +:+ json_string targetIP +:+ "]}").

Definition modifier_rule (ref : ResourceReference) (networkName : string) (addr : AddressTranslation) : resourceModifierRule :=
  mkResourceModifierRule
    (mkResourceModifierConditions kubevirtVMGroupResource ("^" +:+ rref_Name ref +:+ "$")
       (if rref_Namespace ref ≠? "" then [rref_Namespace ref] else []))
    [mkJsonPatch "replace" kubevirtAddressAnnotationPath (buildAnnotationPatchValue networkName (at_TargetIP addr))].

Definition modifier_rules (translations : list IPTranslationSpec) : list resourceModifierRule :=
  t ← translations; net ← ipt_Networks t; modifier_rule (ipt_ResourceRef t) (nt_NetworkName net) <$> nt_Addresses net.

Definition hasStaticIPTranslation (v : VolumeReplicationGroup) : bool :=
  match vsp_StaticIPTranslationSpec (vrg_Spec v) with
  | Some spec => negb (bool_decide (sit_IPTranslations spec = []))
  | None => false
  end.

Definition recipe_parameter (v : VolumeReplicationGroup) (key : string) : list string :=
  default [] (vsp_KubeObjectProtection (vrg_Spec v) ≫= λ kop, kop_RecipeParameters kop !! key).

Definition vrg_isDiscoveredApp (v : VolumeReplicationGroup) : bool :=
  match vsp_ProtectedNamespaces (vrg_Spec v) with Some ns => bool_decide (ns ≠ []) | None => false end.

Definition isNamespaceScopedVMProtection (v : VolumeReplicationGroup) : bool :=
  vrg_isDiscoveredApp v &&
  match vsp_KubeObjectProtection (vrg_Spec v) with
  | Some kop => (kop_KubeObjectSelector kop ≠? None) && (kop_RecipeRef kop =? None)
  | None => false
  end.

Definition isSingleGroupRestore (v : VolumeReplicationGroup) : bool :=
  IsVMRecipe (vsp_KubeObjectProtection (vrg_Spec v)) || isNamespaceScopedVMProtection v.

Section machines.
Context `{VolEnv} `{VRGConfig} `{VMEnv}.

Definition Get_vm := kGet k_vms (λ f x, x <| vm_Meta ::= f |>).
Definition Delete_vm := kDelete k_vms vm_Meta (λ f x, x <| vm_Meta ::= f |>).

(** ** Lists of machines *)

Fixpoint list_by_labels (ns : string) (selectors : list string) : VOp (list string + GoError) :=
  match selectors with
  | [] => mret (inl [])
  | ls :: selectors' =>
      get? vms := kList (λ w, (map_to_list (k_vms w)).*2)
                    (λ vm, (om_Namespace (vm_Meta vm) =? ns) && labels_match {[VMLabelSelector := ls]} (vm_Meta vm))
      then e => mret (inr e);
      get? more := list_by_labels ns selectors' then e => mret (inr e);
      mret (inl (((λ vm, om_Name (vm_Meta vm)) <$> vms) ++ more))
  end.

Fixpoint ListVMsByLabelSelector (vmLabelSelector namespaces : list string) : VOp (list string + GoError) :=
  match namespaces with
  | [] => mret (inl [])
  | ns :: namespaces' =>
      get? names := list_by_labels ns vmLabelSelector then e => mret (inr e);
      get? more := ListVMsByLabelSelector vmLabelSelector namespaces' then e => mret (inr e);
      mret (inl (names ++ more))
  end.

(** The pairs of a namespace and a name, each looked up until it is found. *)
Fixpoint find_vms (lookups : list NamespacedName) (seenVMs : gset NamespacedName) : VOp (list VirtualMachine + GoError) :=
  match lookups with
  | [] => mret (inl [])
  | n :: lookups' =>
      if bool_decide (n ∈ seenVMs) then find_vms lookups' seenVMs
      else
        r ← Get_vm n;
        match r with
        | inr e => if IsNotFound e then find_vms lookups' seenVMs else mret (inr e)
        | inl vm =>
            get? more := find_vms lookups' ({[n]} ∪ seenVMs) then e => mret (inr e);
            mret (inl (vm :: more))
        end
  end.

Definition ListVMsByVMNamespace (vmNamespaceList vmList : list string) : VOp (list VirtualMachine + GoError) :=
  find_vms (ns ← vmNamespaceList; vm ← vmList; [(ns, vm)]) ∅.

(** The machines found, and whether one is being deleted. *)
Definition IsVMDeletionInProgress (vmList vmNamespaceList : list string) : VOp ((list VirtualMachine * bool) + GoError) :=
  get? foundVMs := ListVMsByVMNamespace vmNamespaceList vmList then e => mret (inr e);
  mret (inl (foundVMs, existsb (λ vm, ResourceIsDeleted (vm_Meta vm)) foundVMs)).

Fixpoint DeleteVMs (foundVMs : list VirtualMachine) : VOp (option GoError) :=
  match foundVMs with
  | [] => mret None
  | vm :: foundVMs' =>
      let n := (om_Namespace (vm_Meta vm), om_Name (vm_Meta vm)) in
      err? Delete_vm n then e => mret (wrapf ("failed to delete VM " +:+ nn_string n +:+ ": " +:+ error_text e) e);
      DeleteVMs foundVMs'
  end.

(** ** Owners *)

Definition isKubeVirtVM (o : OwnerReference) : bool :=
  (or_Kind o =? KindVirtualMachine) && (or_APIVersion o =? KubeVirtAPIVersion).

Definition fetchPartialMeta (ns : string) (o : OwnerReference) : VOp (ObjectMeta + GoError) :=
  err? vapi_err then e => mret (inr e);
  vms ← gets k_vms;
  objects ← gets k_objects;
  mret (match (if isKubeVirtVM o then vm_Meta <$> vms !! (ns, or_Name o)
               else objects !! ((or_APIVersion o, or_Kind o), (ns, or_Name o))) with
        | Some m => inl m
        | None => inr (absent (or_Name o))
        end).

(** The loop, with the top of the stack first; no result if the fuel runs out.  All items
    are of one namespace. *)
Fixpoint walk_owners (fuel : nat) (ns : string) (stack : list OwnerReference) : VOp (option (ObjectMeta + GoError)) :=
  match fuel with
  | 0 => mret None
  | S fuel' =>
      match stack with
      | [] => mret (Some (inr (Errorf "no VM found in ownership chain" None)))
      | cur :: stack' =>
          r ← fetchPartialMeta ns cur;
          match r with
          | inr _ => walk_owners fuel' ns stack'
          | inl m =>
              if om_UID m ≠? or_UID cur then walk_owners fuel' ns stack'
              else if isKubeVirtVM cur then mret (Some (inl m))
              else walk_owners fuel' ns (rev (om_OwnerReferences m) ++ stack')
          end
      end
  end.

Definition IsOwnedByVM (obj : ObjectMeta) : VOp (ObjectMeta + GoError) :=
  r ← walk_owners vme_fuel (om_Namespace obj) (rev (om_OwnerReferences obj));
  mret (default (inr (Errorf "no end of the ownership chain" None)) r).

(** ** Static addresses *)

Definition classifyVMStaticIP (vm : VirtualMachine) : VMStaticIPInfo + GoError :=
  let info := mkVMStaticIPInfo (om_Name (vm_Meta vm)) (om_Namespace (vm_Meta vm)) in
  match vm_TemplateAnnotations vm ≫= (.!! VMStaticIPAnnotation) with
  | None => inl (info false ∅)
  | Some raw =>
      match vme_ParseAddresses raw with
      | Some addresses => inl (info true addresses)
      | None => inr (Errorf ("VM " +:+ om_Namespace (vm_Meta vm) +:+ "/" +:+ om_Name (vm_Meta vm) +:+
                             " has malformed static IP annotation " +:+ quoted raw +:+ " (invalid JSON format); " +:+
                             "expected format: {" +:+ quoted "interface-name" +:+ ": [" +:+ quoted "ip-address" +:+ "]}. " +:+
                             "Fix the annotation value to allow IP translation") None)
      end
  end.

Fixpoint classify_all (vms : list VirtualMachine) : list VMStaticIPInfo + GoError :=
  match vms with
  | [] => inl []
  | vm :: vms' =>
      match classifyVMStaticIP vm with
      | inr e => inr e
      | inl info => match classify_all vms' with inl infos => inl (info :: infos) | inr e => inr e end
      end
  end.

Definition ValidateStaticIPNetworkMapping (vmList vmNamespaceList : list string) : VOp (list VMStaticIPInfo + GoError) :=
  if bool_decide (vmList = []) then mret (inr (Errorf "cannot perform VM network discovery: protected VM list is empty" None))
  else
    get? vms := ListVMsByVMNamespace vmNamespaceList vmList
    then e => mret (inr (Errorf ("failed to list protected VMs for static IP validation: " +:+ error_text e) (Some e)));
    mret (if bool_decide (length vms = 0)
          then inr (Errorf "none of the configured protected VMs were found in the protected namespaces" None)
          else classify_all vms).

Fixpoint buildDiscoveredResources (infos : list VMStaticIPInfo) : VOp (list DiscoveredResource) :=
  match infos with
  | [] => mret []
  | info :: infos' =>
      if negb (vsi_HasStaticIP info) then buildDiscoveredResources infos'
      else
        t ← vtick;
        rest ← buildDiscoveredResources infos';
        mret (mkDiscoveredResource (mkResourceReference "" "" (vsi_Namespace info) (vsi_VMName info))
                ((λ na, mkDiscoveredNetwork na.1 na.2) <$> vme_range t (vsi_PrimaryAddresses info)) :: rest)
  end.

Definition validateAndRecordStaticIPDiscovery (vmList vmNamespace : list string) : VOp (option GoError) :=
  get? infos := ValidateStaticIPNetworkMapping vmList vmNamespace
  then e => mret (wrapf ("static IP validation failed: " +:+ error_text e) e);
  resources ← buildDiscoveredResources infos;
  modify_vrg (λ v, v <| vrg_Status ::= λ s, s <| vst_StaticIPDiscoveryStatus := Some (mkStaticIPDiscoveryStatus resources) |> |>);;
  mret None.

(** ** Conflicts between the clusters *)

Definition CheckForVMConflictOnPrimary : VOp (option GoError) :=
  v ← gets v_instance;
  let vmNamespace := recipe_parameter v ProtectedVMNamespace in
  let vmList := recipe_parameter v VMList in
  get? foundVMs := ListVMsByLabelSelector (recipe_parameter v K8SLabelSelector) vmNamespace then e => mret (Some e);
  if negb (bool_decide (list_to_set foundVMs =@{gset string} list_to_set vmList)) then
    mret (errorf ("mismatch between VMs in the protection spec and those matched by the " +:+
                  "label selector, potentially affecting failover or recovery"))
  else validateAndRecordStaticIPDiscovery vmList vmNamespace.

Definition CheckForVMNameConflictOnSecondary (vmNamespaceList vmList : list string) : VOp (option GoError) :=
  get? foundVMs := ListVMsByVMNamespace vmNamespaceList vmList then e => mret (Some e);
  mret (if bool_decide (length foundVMs = 0) then None
        else errorf ("protected VMs on the primary cluster share names with VMs on " +:+
                     "the secondary site, which may impact failover or recovery")).

Definition CheckForVMConflictOnSecondary : VOp (option GoError) :=
  v ← gets v_instance;
  let vmNamespaceList := recipe_parameter v ProtectedVMNamespace in
  err? CheckForVMNameConflictOnSecondary vmNamespaceList (recipe_parameter v VMList) then e => mret (Some e);
  get? foundVMs := ListVMsByLabelSelector (recipe_parameter v K8SLabelSelector) vmNamespaceList then e => mret (Some e);
  mret (if bool_decide (foundVMs = []) then None
        else errorf ("protected VMs on the primary cluster match labeled VMs on the secondary site," +:+
                     " potentially impacting failover or recovery")).

Definition validateVMsForStandaloneProtection : VOp (option GoError) :=
  v ← gets v_instance;
  if IsDRActionInProgress v then mret None
  else match vsp_ReplicationState (vrg_Spec v) with
       | Secondary => CheckForVMConflictOnSecondary
       | Primary => CheckForVMConflictOnPrimary
       | ReplicationUnset => mret None
       end.

Definition isResourceConflict : VOp bool := err ← validateVMsForStandaloneProtection; mret (err ≠? None).

(** ** Cleaning up a secondary *)

Definition set_auto_cleanup (observed : VolumeReplicationGroup → Z) (status : ConditionStatus) (reason message : string) : VOp unit :=
  modify_conditions (λ now v conditions, setVRGAutoCleanupCondition now conditions (observed v) status reason message).

Definition updateVRGAutoCleanupCondition : VOp unit :=
  v ← gets v_instance;
  volSyncPVCs ← gets v_volSyncPVCs;
  let set := set_auto_cleanup (λ v, om_Generation (vrg_Meta v)) in
  if negb (vrg_isDiscoveredApp v) then
    set ConditionFalse VRGConditionReasonUnused
      "Automated Cleanup not applicable: GitOps manages the application's resource lifecycle."
  else if negb (IsVMRecipe (vsp_KubeObjectProtection (vrg_Spec v))) then
    set ConditionFalse VRGConditionReasonUnused
      "Automated cleanup is not supported for this application's protection configuration."
  else if bool_decide (volSyncPVCs ≠ []) then
    set ConditionFalse VRGConditionReasonUnused
      "Automated cleanup not applicable for VMs with volumes protected by VolSync."
  else if negb (IsDRActionInProgress v) then
    set ConditionTrue VRGConditionReasonUnused
      "Automated cleanup is supported, but no DR action is in progress and no cleanup is currently required."
  else mret tt.

(** The condition is there: the initial conditions set it. *)
Definition IsVMAutoCleanUpNotFeasible (v : VolumeReplicationGroup) : bool :=
  match FindCondition (vst_Conditions (vrg_Status v)) VRGConditionTypeAutoCleanup with
  | Some c => (cond_Status c =? ConditionFalse) && (cond_Reason c =? VRGConditionReasonAutoCleanupNotFeasible)
  | None => false
  end.

(** The machines found, and whether to skip the rest and requeue. *)
Definition skipVMCleanupVerificationCheck : VOp (list VirtualMachine * bool) :=
  v ← gets v_instance;
  let vmList := recipe_parameter v VMList in
  if bool_decide (vmList = []) then mret ([], true)
  else
    r ← IsVMDeletionInProgress vmList (recipe_parameter v ProtectedVMNamespace);
    mret (match r with inr _ => ([], true) | inl found => found end).

Record pvcProcessResult := mkPvcProcessResult {
  ppr_vm : option ObjectMeta;
  ppr_skip : bool;
  ppr_retry : bool;
}.

Definition handleExistingOwnerRef (pvc : PersistentVolumeClaim) : VOp pvcProcessResult :=
  r ← IsOwnedByVM (pvc_Meta pvc);
  mret (match r with
        | inr _ => mkPvcProcessResult None true false
        | inl vm => mkPvcProcessResult (Some vm) false false
        end).

Definition verifyVMPVCOwnershipAndUsage (pvc : PersistentVolumeClaim) : VOp pvcProcessResult :=
  if bool_decide (om_OwnerReferences (pvc_Meta pvc) = []) then mret (mkPvcProcessResult None true false)
  else handleExistingOwnerRef pvc.

(** [owned] is whether the map of claims to machines has an entry. *)
Fixpoint validate_ownership (pvcs : list PersistentVolumeClaim) (owned : bool) : VOp bool :=
  match pvcs with
  | [] => mret owned
  | pvc :: pvcs' =>
      if ResourceIsDeleted (pvc_Meta pvc) then validate_ownership pvcs' owned
      else
        res ← verifyVMPVCOwnershipAndUsage pvc;
        if ppr_skip res then mret false
        else if ppr_retry res then mret false
        else validate_ownership pvcs' (owned || (ppr_vm res ≠? None))
  end.

Definition collectProtectedPVCs : VOp (list PersistentVolumeClaim) :=
  volRepPVCs ← claims_of v_volRepPVCs;
  volSyncPVCs ← claims_of v_volSyncPVCs;
  mret (volRepPVCs ++ volSyncPVCs).

Definition validatePVCOwnershipOnVMs : VOp bool :=
  protectedPVCs ← collectProtectedPVCs;
  validate_ownership protectedPVCs false.

Definition ShouldCleanupVMForSecondary : VOp bool :=
  let set := set_auto_cleanup (λ v, vst_ObservedGeneration (vrg_Status v)) in
  found ← skipVMCleanupVerificationCheck;
  if (found.2 : bool) then mret true
  else if bool_decide (length found.1 = 0) then
    set ConditionTrue VRGConditionReasonAutoCleanupCompleted "VM resource cleanup completed";; mret false
  else
    yes ← validatePVCOwnershipOnVMs;
    if negb yes then
      set ConditionFalse VRGConditionReasonAutoCleanupNotFeasible
        "skipping automatic cleanup; protected resources not fully VM-owned.";; mret false
    else _err ← DeleteVMs found.1; mret true.

Definition HandleSecondaryConflictsAndCleanup : VOp bool :=
  let set := set_auto_cleanup (λ v, vst_ObservedGeneration (vrg_Status v)) in
  v ← gets v_instance;
  if negb (IsVMRecipe (vsp_KubeObjectProtection (vrg_Spec v))) then
    set ConditionFalse VRGConditionReasonUnused
      "AutoCleanup is not applicable for protection schemes other than vm-recipe.";; mret false
  else
    conflict ← isResourceConflict;
    if (conflict : bool) then mret false
    else
      v ← gets v_instance;
      volSyncPVCs ← gets v_volSyncPVCs;
      if negb (IsDRActionInProgress v) then
        (if bool_decide (volSyncPVCs ≠ [])
         then set ConditionFalse VRGConditionReasonUnused
                "Applications containing VolSync-protected volumes are excluded from AutoCleanup."
         else set ConditionTrue VRGConditionReasonUnused "No disaster recovery operation in progress.");; mret false
      else if IsVMAutoCleanUpNotFeasible v then mret false
      else
        again ← ShouldCleanupVMForSecondary;
        (if (again : bool)
         then set ConditionTrue VRGConditionReasonAutoCleanupProgressing "VM resource cleanup is in progress"
         else mret tt);;
        mret again.

(** ** The resource modifier of static addresses *)

Definition resourceModifierConfigMapName (v : VolumeReplicationGroup) : string :=
  om_Name (vrg_Meta v) +:+ resourceModifierNameSuffix.

Definition resourceModifierLabels (v : VolumeReplicationGroup) : gmap string string :=
  <[CreatedByRamenLabel := "true"]> (<[resourceModifierComponentLabel := "true"]> (OwnerLabels (vrg_Meta v))).

Definition buildResourceModifierYAML (translations : list IPTranslationSpec) : string + GoError :=
  match vme_Marshal (mkResourceModifiers resourceModifierVersion (modifier_rules translations)) with
  | inl out => inl out
  | inr e => inr (Errorf ("marshal ResourceModifiers to YAML: " +:+ error_text e) (Some e))
  end.

Definition Get_cm := kGet k_configMaps (λ f x, x <| cfm_Meta ::= f |>).
Definition Create_cm := kCreate k_configMaps cfm_Meta (λ f x, x <| cfm_Meta ::= f |>) (λ x, x).
Definition Delete_cm := kDelete k_configMaps cfm_Meta (λ f x, x <| cfm_Meta ::= f |>).

(** A merge patch of one key: what another client wrote to the object meanwhile stays. *)
Definition Patch_cm (n : NamespacedName) (key value : string) : VOp (option GoError) :=
  err? vapi_err then e => mret (Some e);
  table ← gets k_configMaps;
  match table !! n with
  | None => mret (Some (absent n.2))
  | Some old =>
      t ← vtick;
      modify (λ w, w <| k_configMaps ::= <[n := old <| cfm_Data ::= <[key := value]> |>
        <| cfm_Meta ::= λ m, m <| om_ResourceVersion := kenv_resourceVersion t |> |>]> |>);;
      mret None
  end.

Definition createOrUpdateResourceModifierCM (namespace yamlData : string) : VOp (option GoError) :=
  v ← gets v_instance;
  let n := (namespace, resourceModifierConfigMapName v) in
  r ← Get_cm n;
  match r with
  | inr e =>
      if negb (IsNotFound e) then mret (wrapf ("get ResourceModifier ConfigMap: " +:+ error_text e) e)
      else
        err? Create_cm (mkConfigMap (named_meta n.2 namespace <| om_Labels := resourceModifierLabels v |>)
                                    {[resourceModifierDataKey := yamlData]})
        then e => mret (wrapf ("create ResourceModifier ConfigMap: " +:+ error_text e) e);
        mret None
  | inl cm =>
      err? Patch_cm n resourceModifierDataKey yamlData
      then e => mret (wrapf ("patch ResourceModifier ConfigMap: " +:+ error_text e) e);
      mret None
  end.

(** Whether to requeue. *)
Definition staticIPResourceModifierReconcile : VOp bool :=
  v ← gets v_instance;
  if negb (hasStaticIPTranslation v) then mret false
  else match buildResourceModifierYAML (default [] (sit_IPTranslations <$> vsp_StaticIPTranslationSpec (vrg_Spec v))) with
       | inr _ => mret true
       | inl yaml => err ← createOrUpdateResourceModifierCM vme_veleroNamespaceName yaml; mret (err ≠? None)
       end.

(** Whether to requeue, and the error. *)
Definition ensureResourceModifierCM : VOp (bool * option GoError) :=
  v ← gets v_instance;
  r ← Get_cm (vme_veleroNamespaceName, resourceModifierConfigMapName v);
  match r with
  | inl _ => mret (false, None)
  | inr e =>
      if negb (IsNotFound e) then mret (true, wrapf ("check ResourceModifier ConfigMap: " +:+ error_text e) e)
      else _again ← staticIPResourceModifierReconcile; mret (true, None)
  end.

Definition deleteResourceModifierCM : VOp (option GoError) :=
  v ← gets v_instance;
  let n := (vme_veleroNamespaceName, resourceModifierConfigMapName v) in
  r ← Get_cm n;
  match r with
  | inr e => mret (if IsNotFound e then None
                   else wrapf ("get ResourceModifier ConfigMap for deletion: " +:+ error_text e) e)
  | inl cm =>
      if negb (labels_match (resourceModifierLabels v) (cfm_Meta cm)) then mret None
      else
        err? Delete_cm n then e => mret (wrapf ("delete ResourceModifier ConfigMap: " +:+ error_text e) e);
        mret None
  end.
End machines.
