(* ===== verification/VolSyncReconcile.v ===== *)
(** * VolSync's part of a VRG

    internal/controller/vrg_volsync.go: protecting claims by VolSync as primary, receiving
    them as secondary, restoring and giving them up.

    The handler of VolSync's own resources (volsync/vshandler.go, cephfscg/cghandler.go) is
    an interface here: [VSHandler] has the methods that are called.  A method's result is
    that of the Go method, with the resources it returns reduced to what is read of them. *)

From Stdlib Require Import ZArith.
From stdpp Require Import pretty.
From S2P Require Import Prelude Meta Names Conditions Api VRGStatus PolicyPeers Events Volumes VolRepStatus VolRepClasses VolRep VolRepReconcile VolRepRestore VRGAggregate ClaimSelection.
#[local] Open Scope record_scope.

Definition VolSync_PVCFinalizerProtected : string := "volumereplicationgroups.ramendr.openshift.io/pvc-volsync-protection".
Definition MarkForDeletion : string := "ramendr.io/marked-for-deletion".

(** Times and durations of the last synchronisation, of a status. *)
Abbreviation SyncStatus := (option Z * option Z)%type.

Class VSHandler := {
  (** volsync/vshandler.go *)
  vsh_IsCopyMethodDirect : bool;
  vsh_EnsurePVCfromRD : VolSyncReplicationDestinationSpec → bool → VOp (option GoError);
  vsh_CleanupRDNotInSpecList : list VolSyncReplicationDestinationSpec → ReplicationState → VOp (option GoError);
  vsh_PreparePVC : NamespacedName → string → bool → bool → bool → bool → VOp (option GoError);
  vsh_RetainPVForPVC : PersistentVolumeClaim → VOp (option GoError);
  vsh_StripPVCOwnerReferences : PersistentVolumeClaim → VOp (option GoError);
  (** The final sync is complete, and the status of the source that is returned, if one is. *)
  vsh_ReconcileRS : VolSyncReplicationSourceSpec → bool → option MoverConfig → VOp ((bool * option (option SyncStatus)) + GoError);
  (** A destination is returned, and the information for the status. *)
  vsh_ReconcileRD : VolSyncReplicationDestinationSpec → option MoverConfig →
    VOp ((bool * option VolSyncReplicationDestinationInfo) + GoError);
  vsh_CleanupPVClaimRefForPVCDeletion : PersistentVolumeClaim → VOp (option GoError);
  vsh_IsPVCInUseByNonRDPod : NamespacedName → VOp (bool + GoError);
  vsh_UndoPVRetentionForPVC : PersistentVolumeClaim → VOp (option GoError);
  vsh_UnprotectVolSyncPVC : PersistentVolumeClaim → VOp (option GoError);
  vsh_DeleteRS : string → string → VOp (option GoError);
  vsh_DeleteRD : string → string → VOp (option GoError);
  vsh_DeleteSnapshots : string → VOp (option GoError);
  (** cephfscg: the first argument of a method of the handler of a group is its label. *)
  cgh_EnsurePVCfromRGD : string → VolSyncReplicationDestinationSpec → bool → VOp (option GoError);
  cgh_CreateOrUpdateReplicationGroupSource : string → string → bool → VOp ((option SyncStatus * bool) + GoError);
  cgh_CreateOrUpdateReplicationGroupDestination : string → string → string → list VolSyncReplicationDestinationSpec →
    VOp (ObjectMeta + GoError);
  cgh_DeleteRGS : string → string → VOp (option GoError);
  cgh_DeleteRGD : string → string → VOp (option GoError);
  (** util/cephfs_cg.go *)
  cgh_IsReplicationGroupDestinationReady : ObjectMeta → VOp (bool + GoError);
}.

(** ** Helpers *)

Definition rdspecs (v : VolumeReplicationGroup) : list VolSyncReplicationDestinationSpec := vss_RDSpec (vsp_VolSync (vrg_Spec v)).
Definition submariner (v : VolumeReplicationGroup) : bool := IsSubmarinerEnabled (om_Annotations (vrg_Meta v)).

Definition PruneLabels (pvcLabels : gmap string string) : gmap string string := delete ConsistencyGroupLabel pvcLabels.

(** When several classes have the name, the last one decides. *)
Definition peerClassGroupsVolSync (v : VolumeReplicationGroup) (scName : option string) : bool + GoError :=
  match scName with
  | None | Some "" => inr (Errorf "missing storage class name for VolSync peerClass lookup" None)
  | Some name =>
      inl (match vsp_Async (vrg_Spec v) with
           | None => false
           | Some async => default false (pc_Grouping <$> last_peer_class name (va_PeerClasses async))
           end)
  end.

Definition getRSSpecForPVC (v : VolumeReplicationGroup) (pvc : PersistentVolumeClaim) : VolSyncReplicationSourceSpec + GoError :=
  match find_first (λ rs, (pp_Name (rs_ProtectedPVC rs) =? pvc_name pvc) &&
                          (pp_Namespace (rs_ProtectedPVC rs) =? pvc_namespace pvc)) (vss_RSSpec (vsp_VolSync (vrg_Spec v))) with
  | Some rsSpec => inl rsSpec
  | None => inr (Errorf ("no VolSyncReplicationSourceSpec found for PVC " +:+ nn_string (pvc_nn pvc)) None)
  end.

(** util/cephfs_cg.go's [GetRSMoverConfig] is the same lookup. *)
Definition GetRSMoverConfig (name namespace : string) (moverConfigs : list MoverConfig) : option MoverConfig :=
  find_first (λ mc, (mc_PVCName mc =? name) && (mc_PVCNameSpace mc =? namespace)) moverConfigs.
Definition GetVRGMoverConfig (v : VolumeReplicationGroup) (name namespace : string) : option MoverConfig :=
  GetRSMoverConfig name namespace (vss_MoverConfig (vsp_VolSync (vrg_Spec v))).

Definition getCGLablelFromPVC (pvc : PersistentVolumeClaim) (finalSync : bool) : string * bool :=
  let set := λ m, match m !! ConsistencyGroupLabel with Some "" | None => None | Some value => Some value end in
  match set (om_Labels (pvc_Meta pvc)) with
  | Some value => (value, true)
  | None =>
      match (if finalSync then set (om_Annotations (pvc_Meta pvc)) else None) with
      | Some value => (value, true)
      | None => ("", false)
      end
  end.

Definition commonProtectedPVCNamespace (specs : list VolSyncReplicationDestinationSpec) : string :=
  match specs with
  | [] => ""
  | spec :: _ =>
      let namespace := pp_Namespace (rd_ProtectedPVC spec) in
      if forallb (λ s, pp_Namespace (rd_ProtectedPVC s) =? namespace) specs then namespace else ""
  end.

(** volsync/vshandler.go *)
Definition AppendOrUpdateRdInfo (rdInfoList : list VolSyncReplicationDestinationInfo)
    (newInfo : VolSyncReplicationDestinationInfo) : list VolSyncReplicationDestinationInfo :=
  let same := λ info, (pp_Name (ri_ProtectedPVC info) =? pp_Name (ri_ProtectedPVC newInfo)) &&
                      (pp_Namespace (ri_ProtectedPVC info) =? pp_Namespace (ri_ProtectedPVC newInfo)) in
  if pp_Name (ri_ProtectedPVC newInfo) =? "" then rdInfoList
  else if existsb same rdInfoList then update_first same (λ _, newInfo) rdInfoList
  else rdInfoList ++ [newInfo].

(** The key by which the specs of groups are left out: namespace, dash, name. *)
Definition rdspec_key (rdSpec : VolSyncReplicationDestinationSpec) : string :=
  pp_Namespace (rd_ProtectedPVC rdSpec) +:+ "-" +:+ pp_Name (rd_ProtectedPVC rdSpec).

(** [findProtectedPVC], or a copy of the entry given. *)
Definition entry_or (pp : ProtectedPVC) (v : VolumeReplicationGroup) : VolumeReplicationGroup :=
  match FindProtectedPVC v (pp_Namespace pp) (pp_Name pp) with
  | Some _ => v
  | None => v <| vrg_Status ::= λ s, s <| vst_ProtectedPVCs ::= λ l, l ++ [pp] |> |>
  end.

Section volsync.
Context `{VolEnv} `{VRGConfig} `{VSHandler}.

(** [NewResourceUpdater(pvc)...Update(...)]: a write if something changed. *)
Definition write_claim (p : ptr) (u : ResourceUpdater) : VOp (option GoError) :=
  if ru_objModified u then update_pvc_meta p (ru_obj u) else mret None.

Definition remove_volsync_finalizer (p : ptr) : VOp (option GoError) :=
  pvc ← load p;
  write_claim p (ru_RemoveFinalizer (NewResourceUpdater (pvc_Meta pvc)) VolSync_PVCFinalizerProtected).

Definition set_entry_condition (pp : NamespacedName) (set : Z → list Condition → Z → string → list Condition)
    (msg : string) : VOp unit :=
  update_pvc_status pp.1 pp.2 (λ now p generation, p <| pp_Conditions ::= λ c, set now c generation msg |>).

(** ** Restoring *)

Definition ensure_claim (rdSpec : VolSyncReplicationDestinationSpec) (failoverAction : bool) : VOp (option GoError) :=
  v ← gets v_instance;
  let pp := rd_ProtectedPVC rdSpec in
  cg ← IsCGEnabledForVolSync;
  match (if (cg : bool) then peerClassGroupsVolSync v (pp_StorageClassName pp) else inl false) with
  | inr e => mret (Some e)
  | inl true =>
      get? cgLabelVal := getCGLabelValue (pp_StorageClassName pp) (pp_Name pp) (pp_Namespace pp) then e => mret (Some e);
      cgh_EnsurePVCfromRGD cgLabelVal rdSpec failoverAction
  | inl false => vsh_EnsurePVCfromRD rdSpec failoverAction
  end.

Fixpoint restore_rdspecs (specs : list VolSyncReplicationDestinationSpec) (numPVsRestored : nat) : VOp nat :=
  match specs with
  | [] => mret numPVsRestored
  | rdSpec :: specs' =>
      v ← gets v_instance;
      let rdSpec := rdSpec <| rd_ProtectedPVC ::= λ pp, pp <| pp_Conditions := [] |> |> in
      let pp := rd_ProtectedPVC rdSpec in
      err ← ensure_claim rdSpec (vsp_Action (vrg_Spec v) =? VRGActionFailover);
      modify_vrg (entry_or pp);;
      match err with
      | Some e =>
          set_entry_condition (pp_Namespace pp, pp_Name pp) setVRGConditionTypeVolSyncPVRestoreError (error_text e);;
          restore_rdspecs specs' numPVsRestored
      | None =>
          set_entry_condition (pp_Namespace pp, pp_Name pp) setVRGConditionTypeVolSyncPVRestoreComplete "PVC restored";;
          restore_rdspecs specs' (S numPVsRestored)
      end
  end.

Definition restorePVsAndPVCsForVolSync : VOp (nat * option GoError) :=
  v ← gets v_instance;
  if bool_decide (rdspecs v = []) then mret (0, None)
  else
    n ← restore_rdspecs (rdspecs v) 0;
    mret (n, if bool_decide (n = length (rdspecs v)) then None
             else errorf ("failed to restore all PVCs. Restored " +:+ pretty (Z.of_nat n) +:+ " PVCs out of " +:+
                          pretty (Z.of_nat (length (rdspecs v))) +:+ " RDSpecs")).

(** ** Giving claims up *)

Definition Get_rgs := kGet k_replicationGroupSources (λ f x, x <| rgs_Meta ::= f |>).
Definition Update_rgs := kUpdate k_replicationGroupSources rgs_Meta (λ f x, x <| rgs_Meta ::= f |>)
  (λ old new, new <| rgs_Meta := server_meta (rgs_Meta old) (rgs_Meta new) |>
                  <| rgs_ReplicationSources := rgs_ReplicationSources old |>).
Definition DeleteReplicationGroupSource (n : NamespacedName) : VOp (option GoError) :=
  err ← kDelete k_replicationGroupSources rgs_Meta (λ f x, x <| rgs_Meta ::= f |>) n;
  mret (match err with Some e => if IsNotFound e then None else Some e | None => None end).

Definition markRGSResourceForDeletion (name namespace : string) : VOp (option GoError) :=
  get? rgs := Get_rgs (namespace, name) then e => mret (if IsNotFound e then None else Some e);
  get? _rgs := Update_rgs (rgs <| rgs_Meta ::= λ m, m <| om_Annotations ::= <[MarkForDeletion := "true"]> |> |>)
  then e => mret (Some e);
  mret None.

(** Whether a source was deleted. *)
Definition cleanupRGSMarkedForDeletion (name namespace : string) : VOp (bool + GoError) :=
  get? rgs := Get_rgs (namespace, name) then e => mret (if IsNotFound e then inl false else inr e);
  if map_get (om_Annotations (rgs_Meta rgs)) MarkForDeletion =? "true" then
    err? DeleteReplicationGroupSource (namespace, name) then e => mret (inr e);
    mret (inl true)
  else mret (inl false).

Definition pvcUnprotectVolSync (pvc : PersistentVolumeClaim) : VOp unit :=
  if negb v_VolumeUnprotectionEnabled then mret tt
  else
    cg ← (if bool_decide (is_Some (om_Labels (pvc_Meta pvc) !! ConsistencyGroupLabel)) then IsCGEnabledForVolSync else mret false);
    err? (if (cg : bool) then markRGSResourceForDeletion (map_get (om_Labels (pvc_Meta pvc)) ConsistencyGroupLabel) (pvc_namespace pvc)
          else mret None) then _e => requeue;
    err? vsh_UndoPVRetentionForPVC pvc then _e => requeue;
    err? vsh_UnprotectVolSyncPVC pvc then _e => requeue;
    pvc_status_delete pvc.

Definition isPVCDeletedForUnprotection (v : VolumeReplicationGroup) (pvc : PersistentVolumeClaim) : bool :=
  ResourceIsDeleted (pvc_Meta pvc) &&
  negb ((vsp_ReplicationState (vrg_Spec v) ≠? Primary) || vsp_PrepareForFinalSync (vrg_Spec v) || vsp_RunFinalSync (vrg_Spec v)).

Fixpoint pvcsUnprotectVolSync (pvcs : list ptr) : VOp unit :=
  match pvcs with
  | [] => mret tt
  | p :: pvcs' => pvc ← load p; pvcUnprotectVolSync pvc;; pvcsUnprotectVolSync pvcs'
  end.

Definition pvcUnprotectVolSyncIfDeleted (pvc : PersistentVolumeClaim) : VOp bool :=
  v ← gets v_instance;
  if negb (isPVCDeletedForUnprotection v pvc) then mret false
  else pvcUnprotectVolSync pvc;; mret true.

Fixpoint undo_retention (pvcs : list ptr) : VOp (option GoError) :=
  match pvcs with
  | [] => mret None
  | p :: pvcs' =>
      pvc ← load p;
      err? vsh_UndoPVRetentionForPVC pvc then e => mret (Some e);
      undo_retention pvcs'
  end.
Definition undoPVRetentionForVolSyncPVCs : VOp (option GoError) := pvcs ← gets v_volSyncPVCs; undo_retention pvcs.

Definition doCleanupResources (name namespace : string) : VOp (option GoError) :=
  v ← gets v_instance;
  err? vsh_DeleteRS name namespace then e => mret (Some e);
  err? vsh_DeleteRD name namespace then e => mret (Some e);
  err? vsh_DeleteSnapshots namespace then e => mret (Some e);
  err? cgh_DeleteRGS (om_Name (vrg_Meta v)) (om_Namespace (vrg_Meta v)) then e => mret (Some e);
  cgh_DeleteRGD (om_Name (vrg_Meta v)) (om_Namespace (vrg_Meta v)).

Definition deleteDestinationPVC (name namespace : string) : VOp (option GoError) :=
  let failed := λ what e, wrapf ("failed to " +:+ what +:+ " destination PVC " +:+ namespace +:+ "/" +:+ name +:+ ": " +:+
                                 error_text e) e in
  get? pvc := Get_pvc (namespace, name) then e => mret (if IsNotFound e then None else failed "get" e);
  err? vsh_UndoPVRetentionForPVC pvc then e => mret (failed "undo PV retention for" e);
  p ← alloc pvc;
  err? remove_volsync_finalizer p then e => mret (failed "remove finalizer from" e);
  Delete_pvc (namespace, name).

Fixpoint cleanup_claims (pvcs : list ptr) : VOp (option GoError) :=
  match pvcs with
  | [] => mret None
  | p :: pvcs' =>
      pvc ← load p;
      err? doCleanupResources (pvc_name pvc) (pvc_namespace pvc) then e => mret (Some e);
      err? remove_volsync_finalizer p then e => mret (Some e);
      cleanup_claims pvcs'
  end.

Fixpoint cleanup_destinations (state : ReplicationState) (specs : list VolSyncReplicationDestinationSpec) : VOp (option GoError) :=
  match specs with
  | [] => mret None
  | rdSpec :: specs' =>
      let pp := rd_ProtectedPVC rdSpec in
      err? doCleanupResources (pp_Name pp) (pp_Namespace pp) then e => mret (Some e);
      err? (if state =? Secondary then deleteDestinationPVC (pp_Name pp) (pp_Namespace pp) else mret None)
      then e => mret (Some e);
      cleanup_destinations state specs'
  end.

Definition cleanupResources : VOp (option GoError) :=
  pvcs ← gets v_volSyncPVCs;
  err? cleanup_claims pvcs then e => mret (Some e);
  v ← gets v_instance;
  cleanup_destinations (vsp_ReplicationState (vrg_Spec v)) (rdspecs v).

(** ** As primary *)

(** Requeue and skip; else the claim has an entry in the status. *)
Definition buildProtectedPVCForPVC (pvc : PersistentVolumeClaim) : VOp (bool * bool) :=
  let spec := pvc_Spec pvc in
  let newProtectedPVC := new_protected_pvc (pvc_namespace pvc) (pvc_name pvc)
        <| pp_ProtectedByVolSync := true |> <| pp_StorageClassName := pvcs_StorageClassName spec |>
        <| pp_Annotations := PruneAnnotations (om_Annotations (pvc_Meta pvc)) |>
        <| pp_Labels := PruneLabels (om_Labels (pvc_Meta pvc)) |>
        <| pp_AccessModes := pvcs_AccessModes spec |> <| pp_Resources := pvcs_Resources spec |>
        <| pp_VolumeMode := pvcs_VolumeMode spec |> in
  deleted ← pvcUnprotectVolSyncIfDeleted pvc;
  if (deleted : bool) then mret (false, true)
  else
    v ← gets v_instance;
    p ← alloc pvc;
    err? write_claim p (ru_AddLabel (ru_AddLabel (ru_AddFinalizer (NewResourceUpdater (pvc_Meta pvc)) VolSync_PVCFinalizerProtected)
           LabelOwnerNamespaceName (om_Namespace (vrg_Meta v))) LabelOwnerName (om_Name (vrg_Meta v)))
    then _e => mret (true, false);
    modify_vrg (λ v, with_protected_pvc v (pvc_namespace pvc) (pvc_name pvc)
                       (λ old, newProtectedPVC <| pp_Conditions := pp_Conditions old |>));;
    mret (false, false).

Definition set_entry_sync (n : NamespacedName) (status : SyncStatus) : VOp unit :=
  modify_vrg (λ v, with_protected_pvc v n.1 n.2 (λ p,
    p <| pp_LastSyncTime := status.1 |> <| pp_LastSyncDuration := status.2 |>)).

(** The claim of a consistency group; whether to requeue. *)
Definition reconcile_group_source (pvc : PersistentVolumeClaim) (cg : string) : VOp bool :=
  v ← gets v_instance;
  if vsp_PrepareForFinalSync (vrg_Spec v) then mret true
  else
    get? deleted := cleanupRGSMarkedForDeletion cg (pvc_namespace pvc) then _e => mret true;
    if (deleted : bool) then mret true
    else
      get? r := cgh_CreateOrUpdateReplicationGroupSource cg (pvc_namespace pvc) (vsp_RunFinalSync (vrg_Spec v))
      then _e => (set_entry_condition (pvc_nn pvc) setVRGConditionTypeVolSyncRepSourceSetupError "VolSync setup failed";; mret true);
      set_entry_condition (pvc_nn pvc) setVRGConditionTypeVolSyncRepSourceSetupComplete "Ready";;
      (match r.1 with Some status => set_entry_sync (pvc_nn pvc) status | None => mret tt end);;
      mret (vsp_RunFinalSync (vrg_Spec v) && negb r.2).

(** The claim of a source of its own. *)
Definition reconcile_source (pvc : PersistentVolumeClaim) (rsSpec : VolSyncReplicationSourceSpec) : VOp bool :=
  v ← gets v_instance;
  let pp := rs_ProtectedPVC rsSpec in
  get? r := vsh_ReconcileRS rsSpec (vsp_RunFinalSync (vrg_Spec v)) (GetVRGMoverConfig v (pp_Name pp) (pp_Namespace pp))
  then _e => (set_entry_condition (pvc_nn pvc) setVRGConditionTypeVolSyncRepSourceSetupError "VolSync setup failed";; mret true);
  match r.2 with
  | None => mret true
  | Some rs =>
      set_entry_condition (pvc_nn pvc) setVRGConditionTypeVolSyncRepSourceSetupComplete "Ready";;
      (match rs with Some status => set_entry_sync (pvc_nn pvc) status | None => mret tt end);;
      mret (vsp_RunFinalSync (vrg_Spec v) && negb r.1)
  end.

(** Requeue, and whether the final sync is prepared. *)
Definition reconcilePVCAsVolSyncPrimary (pvc : PersistentVolumeClaim) : VOp (bool * bool) :=
  r ← buildProtectedPVCForPVC pvc;
  if (r.1 : bool) then mret (true, false)
  else if (r.2 : bool) then mret (false, false)
  else
    v ← gets v_instance;
    let entry := FindProtectedPVC v (pvc_namespace pvc) (pvc_name pvc) in
    match (if submariner v
           then inl (mkVolSyncReplicationSourceSpec (default (new_protected_pvc (pvc_namespace pvc) (pvc_name pvc)) entry) None None)
           else getRSSpecForPVC v pvc) with
    | inr _ => mret (true, false)
    | inl rsSpec =>
        let '(cg, ok) := getCGLablelFromPVC pvc (vsp_RunFinalSync (vrg_Spec v)) in
        isCGEnabled ← (if (ok : bool) then IsCGEnabledForVolSync else mret false);
        err? vsh_PreparePVC (pvc_nn pvc) cg isCGEnabled vsh_IsCopyMethodDirect (vsp_PrepareForFinalSync (vrg_Spec v))
               (vsp_RunFinalSync (vrg_Spec v)) then _e => mret (true, false);
        err? vsh_RetainPVForPVC pvc then _e => mret (true, false);
        err? vsh_StripPVCOwnerReferences pvc then _e => mret (true, false);
        again ← (if (isCGEnabled : bool) then reconcile_group_source pvc cg else reconcile_source pvc rsSpec);
        mret (again, true)
    end.

Fixpoint volsync_claims_as_primary (pvcs : list ptr) (again prepared : bool) : VOp (bool * bool) :=
  match pvcs with
  | [] => mret (again, prepared)
  | p :: pvcs' =>
      pvc ← load p;
      r ← reconcilePVCAsVolSyncPrimary pvc;
      volsync_claims_as_primary pvcs' (again || r.1) (prepared && r.2)
  end.

Definition final_sync_complete : VOp unit :=
  modify_vrg (λ v, v <| vrg_Status ::= λ s, s <| vst_FinalSyncComplete := vsp_RunFinalSync (vrg_Spec v) |> |>).

(** Requeue, and whether the final sync is prepared. *)
Definition reconcileVolSyncAsPrimary : VOp (bool * bool) :=
  pvcs ← gets v_volSyncPVCs;
  v ← gets v_instance;
  if bool_decide (pvcs = []) then final_sync_complete;; mret (false, true)
  else
    err? vsh_CleanupRDNotInSpecList (rdspecs v) (vsp_ReplicationState (vrg_Spec v)) then _e => mret (true, false);
    r ← volsync_claims_as_primary pvcs false true;
    if (r.1 : bool) then mret (true, r.2)
    else final_sync_complete;; mret (false, true).

(** ** As secondary *)

Fixpoint claims_active (pvcs : list ptr) : VOp bool :=
  match pvcs with
  | [] => mret false
  | p :: pvcs' =>
      pvc ← load p;
      r ← vsh_IsPVCInUseByNonRDPod (pvc_nn pvc);
      match r with
      | inl false => claims_active pvcs'
      | inl true | inr _ => modify (λ w, w <| v_workloadStatus := "active" |>);; mret true
      end
  end.
Definition updateWorkloadActivityAsSecondary : VOp bool := pvcs ← gets v_volSyncPVCs; claims_active pvcs.

Fixpoint handle_deleting (pvcs : list ptr) (again : bool) : VOp bool :=
  match pvcs with
  | [] => mret again
  | p :: pvcs' =>
      pvc ← load p;
      if negb (ResourceIsDeleted (pvc_Meta pvc)) then handle_deleting pvcs' again
      else
        err? vsh_CleanupPVClaimRefForPVCDeletion pvc then _e => handle_deleting pvcs' true;
        err? remove_volsync_finalizer p then _e => handle_deleting pvcs' true;
        handle_deleting pvcs' again
  end.
Definition handleDeletingVolSyncPVCsAsSecondary : VOp bool := pvcs ← gets v_volSyncPVCs; handle_deleting pvcs false.

(** The keys of the specs in groups, and the groups. *)
Fixpoint group_rdspecs (specs : list VolSyncReplicationDestinationSpec) (usingCG : gset string)
    (groups : gmap string (list VolSyncReplicationDestinationSpec))
    : VOp (gset string * (gmap string (list VolSyncReplicationDestinationSpec) + GoError)) :=
  match specs with
  | [] => mret (usingCG, inl groups)
  | rdSpec :: specs' =>
      v ← gets v_instance;
      let pp := rd_ProtectedPVC rdSpec in
      cg ← IsCGEnabledForVolSync;
      if negb cg then group_rdspecs specs' usingCG groups
      else match peerClassGroupsVolSync v (pp_StorageClassName pp) with
           | inr e => mret (usingCG, inr e)
           | inl false => group_rdspecs specs' usingCG groups
           | inl true =>
               get? cgLabelVal := getCGLabelValue (pp_StorageClassName pp) (pp_Name pp) (pp_Namespace pp)
               then e => mret (usingCG, inr e);
               let rdSpec := rdSpec <| rd_MoverConfig := GetRSMoverConfig (pp_Name pp) (pp_Namespace pp)
                                                            (vss_MoverConfig (vsp_VolSync (vrg_Spec v))) |> in
               group_rdspecs specs' ({[rdspec_key rdSpec]} ∪ usingCG)
                 (<[cgLabelVal := default [] (groups !! cgLabelVal) ++ [rdSpec]]> groups)
           end
  end.

Fixpoint collect_rdinfo (specs : list VolSyncReplicationDestinationSpec) : VOp (option GoError) :=
  match specs with
  | [] => mret None
  | spec :: specs' =>
      let pvcName := pp_Name (rd_ProtectedPVC spec) in
      let namespace := pp_Namespace (rd_ProtectedPVC spec) in
      get? rd := kGet k_replicationDestinations (λ f x, x <| rdst_Meta ::= f |>) (namespace, pvcName) then e => mret (Some e);
      match rdst_Address rd with
      | None => mret (errorf ("ReplicationDestination is not ready or missing RsyncTLS address PVC " +:+ pvcName))
      | Some address =>
          modify_vrg (λ v, v <| vrg_Status ::= λ s, s <| vst_RDInfo ::= λ l, AppendOrUpdateRdInfo l
            (mkVolSyncReplicationDestinationInfo (new_protected_pvc namespace pvcName) (Some (mkRsyncTLSConfig address None))) |> |>);;
          collect_rdinfo specs'
      end
  end.

Definition updateRDInfoFromReplicationDestinations (groupVal : list VolSyncReplicationDestinationSpec) : VOp (option GoError) :=
  err? collect_rdinfo groupVal then e => mret (Some e);
  update_vrg_status.

Fixpoint create_group_destinations (groups : list (string * list VolSyncReplicationDestinationSpec)) (again : bool)
    : VOp (bool * option GoError) :=
  match groups with
  | [] => mret (again, None)
  | (groupKey, groupVal) :: groups' =>
      v ← gets v_instance;
      let namespace := commonProtectedPVCNamespace groupVal in
      if namespace =? "" then mret (true, errorf ("RDSpecs in the group " +:+ groupKey +:+ " have different namespaces"))
      else
        get? rgd := cgh_CreateOrUpdateReplicationGroupDestination groupKey (om_Name (vrg_Meta v)) namespace groupVal
        then e => mret (true, Some e);
        get? ready := cgh_IsReplicationGroupDestinationReady rgd then e => mret (true, Some e);
        err? (if submariner v then mret None else updateRDInfoFromReplicationDestinations groupVal)
        then e => mret (true, Some e);
        create_group_destinations groups' (again || negb ready)
  end.

Definition createOrUpdateReplicationDestinations (groups : gmap string (list VolSyncReplicationDestinationSpec))
    : VOp (bool * option GoError) :=
  t ← vtick;
  create_group_destinations ((λ k, (k, default [] (groups !! k))) <$> kenv_range_keys t (dom groups)) false.

(** The keys of the specs in groups, requeue, and the error. *)
Definition reconcileCGMembership : VOp (gset string * bool * option GoError) :=
  v ← gets v_instance;
  r ← group_rdspecs (rdspecs v) ∅ ∅;
  match r.2 with
  | inr e => mret (r.1, true, Some e)
  | inl groups => r' ← createOrUpdateReplicationDestinations groups; mret (r.1, r'.1, r'.2)
  end.

Fixpoint reconcile_destinations (specs : list VolSyncReplicationDestinationSpec) (usingCG : gset string) (again : bool)
    : VOp (bool * option GoError) :=
  match specs with
  | [] => mret (again, None)
  | rdSpec :: specs' =>
      v ← gets v_instance;
      let pp := rd_ProtectedPVC rdSpec in
      if bool_decide (rdspec_key rdSpec ∈ usingCG) then reconcile_destinations specs' usingCG again
      else
        get? r := vsh_ReconcileRD rdSpec (GetVRGMoverConfig v (pp_Name pp) (pp_Namespace pp)) then e => mret (true, Some e);
        (match r.2 with
         | Some info => modify_vrg (λ v, v <| vrg_Status ::= λ s, s <| vst_RDInfo ::= λ l, AppendOrUpdateRdInfo l info |> |>)
         | None => mret tt
         end);;
        reconcile_destinations specs' usingCG (again || negb r.1)
  end.

Definition reconcileNonCG (usingCG : gset string) : VOp (bool * option GoError) :=
  v ← gets v_instance;
  r ← reconcile_destinations (rdspecs v) usingCG false;
  match r.2 with
  | Some e => mret (true, Some e)
  | None =>
      err? (if submariner v then mret None else update_vrg_status) then e => mret (true, Some e);
      mret (r.1, None)
  end.

(** Whether to requeue. *)
Definition reconcileRDSpecForDeletionOrReplication : VOp bool :=
  v ← gets v_instance;
  err? vsh_CleanupRDNotInSpecList (rdspecs v) (vsp_ReplicationState (vrg_Spec v)) then _e => mret true;
  r ← reconcileCGMembership;
  match r.2 with
  | Some _ => mret r.1.2
  | None => r' ← reconcileNonCG r.1.1; mret (if r'.2 is Some _ then true else r'.1)
  end.

Definition reconcileVolSyncAsSecondary : VOp bool :=
  modify_vrg (λ v, v <| vrg_Status ::= λ s, s <| vst_ProtectedPVCs ::= List.filter (λ p, negb (pp_ProtectedByVolSync p)) |> |>);;
  active ← updateWorkloadActivityAsSecondary;
  active ← (if (active : bool) then updateWorkloadActivityAsSecondary else mret false);
  if (active : bool) then mret true
  else
    modify_vrg (λ v, v <| vrg_Status ::= λ s, s <| vst_PrepareForFinalSyncComplete := false |>
                                                <| vst_FinalSyncComplete := false |> |>);;
    again ← handleDeletingVolSyncPVCsAsSecondary;
    if (again : bool) then mret true else reconcileRDSpecForDeletionOrReplication.
End volsync.
