(* ===== verification/Velero.v ===== *)
(** * Requests to Velero

    kubeobjects/requests.go's interface to a manager of requests to capture and recover
    Kubernetes objects, and the manager that is used, of Velero: kubeobjects/velero/requests.go,
    bsl.go and exclude_resources.go. *)

From Stdlib Require Import ZArith Ascii.
From S2P Require Import Prelude Meta Names Conditions Api VRGStatus PolicyPeers Events Telemetry Workflows Volumes VolRepStatus VolRepClasses VolRep VirtualMachines.
#[local] Open Scope record_scope.

(** ** The interface *)

(** [RequestProcessingError], [ErrRestoreCompletedWithZeroResources], and other errors. *)
Inductive RequestError := Processing (state : string) | ZeroResources | RequestFailed (e : GoError).
Definition request_error_text (e : RequestError) : string :=
  match e with
  | Processing s => s
  | ZeroResources => "restore completed with 0 resources restored"
  | RequestFailed e => error_text e
  end.

Class RequestsManager := {
  Request : Type;
  rq_Name : Request → string;
  (** [Object().GetGeneration()] and [Object().GetAnnotations()] *)
  rq_Generation : Request → Z;
  rq_Annotations : Request → gmap string string;
  rq_StartTime : Request → VOp Z;
  rq_Status : Request → option RequestError;
  rq_Deallocate : Request → VOp (option GoError);
  rm_ProtectsPath : string;
  rm_ProtectRequestCreate : StorageLocation → KubeSpec → string → string → gmap string string → gmap string string →
    VOp (option GoError);
  (** The capture to recover from is its name and, if one is there, its request. *)
  rm_RecoverRequestCreate : StorageLocation → RecoverSpec → string → string → option Request → string →
    gmap string string → gmap string string → VOp (option RequestError);
  rm_ProtectRequestsGet : string → gmap string string → VOp (list Request + GoError);
  rm_RecoverRequestsGet : string → gmap string string → VOp (list Request + GoError);
  rm_ProtectRequestsDelete : string → gmap string string → VOp (option GoError);
  rm_RecoverRequestsDelete : string → gmap string string → VOp (option GoError);
  rm_ProtectBSLsDelete : string → gmap string string → VOp (option GoError);
}.

(** Of requests of one name, the last. *)
Definition RequestsMapKeyedByName `{RequestsManager} (requests : list Request) : gmap string Request :=
  foldl (λ m r, <[rq_Name r := r]> m) ∅ requests.

(** ** Selectors behind pointers *)

Definition selector_at (w : Volumes) (p : SelectorPtr) : option LabelSelector :=
  match p with
  | OwnSelector => vsp_KubeObjectProtection (vrg_Spec (v_instance w)) ≫= kop_KubeObjectSelector
  | GroupSelector i => v_recipe w ≫= λ r, rsp_Groups r !! i ≫= grp_LabelSelector
  | HookSelector i => v_recipe w ≫= λ r, rsp_Hooks r !! i ≫= hk_LabelSelector
  end.

Definition set_selector_at (p : SelectorPtr) (s : LabelSelector) : VOp unit :=
  match p with
  | OwnSelector =>
      modify_vrg (λ v, v <| vrg_Spec ::= λ sp, sp <| vsp_KubeObjectProtection ::= fmap (λ k, k <| kop_KubeObjectSelector := Some s |>) |> |>)
  | GroupSelector i =>
      modify (λ w, w <| v_recipe ::= fmap (λ r, r <| rsp_Groups ::= alter (λ g, g <| grp_LabelSelector := Some s |>) i |>) |>)
  | HookSelector i =>
      modify (λ w, w <| v_recipe ::= fmap (λ r, r <| rsp_Hooks ::= alter (λ h, h <| hk_LabelSelector := Some s |>) i |>) |>)
  end.

(** ** Velero *)

Definition protectsPath : string := "velero/backups/".
Definition recoversPath : string := "velero/restores/".

Inductive VeleroRequest := BackupRequest (backup : Backup) | RestoreRequest (restore : Restore).

Definition backupRealStatusProcess (backup : Backup) : option RequestError :=
  match bk_Phase backup with
  | BackupPhaseCompleted => None
  | BackupPhaseNew | BackupPhaseQueued | BackupPhaseReadyToStart | BackupPhaseInProgress
  | BackupPhaseWaitingForPluginOperations | BackupPhaseWaitingForPluginOperationsPartiallyFailed
  | BackupPhaseDeleting | BackupPhaseFinalizing | BackupPhaseFinalizingPartiallyFailed =>
      Some (Processing ("backup" +:+ BackupPhase_string (bk_Phase backup)))
  | BackupPhaseFailedValidation | BackupPhasePartiallyFailed | BackupPhaseFailed =>
      Some (RequestFailed (Errorf ("backup" +:+ BackupPhase_string (bk_Phase backup)) None))
  | BackupPhaseUnset => Some (Processing "backup.status.phase absent")
  end.

Definition restoreStatusProcess (restore : Restore) : option RequestError :=
  match rst_Phase restore with
  | RestorePhaseCompleted =>
      match rst_ItemsRestored restore with
      | None => Some ZeroResources
      | Some n => if bool_decide (n = 0%Z) then Some ZeroResources else None
      end
  | RestorePhaseNew | RestorePhaseInProgress | RestorePhaseWaitingForPluginOperations
  | RestorePhaseWaitingForPluginOperationsPartiallyFailed | RestorePhaseFinalizing
  | RestorePhaseFinalizingPartiallyFailed =>
      Some (Processing ("restore" +:+ RestorePhase_string (rst_Phase restore)))
  | RestorePhaseFailed | RestorePhaseFailedValidation | RestorePhasePartiallyFailed =>
      Some (RequestFailed (Errorf ("restore" +:+ RestorePhase_string (rst_Phase restore)) None))
  | RestorePhaseUnset => Some (Processing "restore.status.phase absent")
  end.

Section velero.
Context `{VolEnv}.

(** [DeleteAllOf]: the objects of a namespace with the labels. *)
Definition kDeleteAllOf {A} (proj : Volumes → gmap NamespacedName A) `{!Setter proj} (meta : A → ObjectMeta)
    (with_meta : (ObjectMeta → ObjectMeta) → A → A) (ns : string) (labels : gmap string string) : VOp (option GoError) :=
  err? vapi_err then e => mret (Some e);
  t ← vtick;
  modify (λ w, w <| proj ::= omap (λ x,
    if (om_Namespace (meta x) =? ns) && labels_match labels (meta x) then
      if bool_decide (om_Finalizers (meta x) = []) then None
      else Some (with_meta (λ m, m <| om_DeletionTimestamp := Some (default (kenv_now t) (om_DeletionTimestamp m)) |>) x)
    else Some x) |>);;
  mret None.

Definition Create_backup := kCreate k_backups bk_Meta (λ f x, x <| bk_Meta ::= f |>)
  (λ x, x <| bk_Meta ::= λ m, m <| om_Generation := 1%Z |> |> <| bk_Phase := BackupPhaseUnset |>
          <| bk_StartTimestamp := None |> <| bk_CompletionTimestamp := None |>).
Definition Delete_backup := kDelete k_backups bk_Meta (λ f x, x <| bk_Meta ::= f |>).
Definition Create_restore := kCreate k_restores rst_Meta (λ f x, x <| rst_Meta ::= f |>)
  (λ x, x <| rst_Meta ::= λ m, m <| om_Generation := 1%Z |> |> <| rst_Phase := RestorePhaseUnset |>
          <| rst_ItemsRestored := None |> <| rst_StartTimestamp := None |> <| rst_CompletionTimestamp := None |>).
Definition Delete_restore := kDelete k_restores rst_Meta (λ f x, x <| rst_Meta ::= f |>).
Definition Get_bsl := kGet k_bsls (λ f x, x <| bsl_Meta ::= f |>).
Definition Create_bsl := kCreate k_bsls bsl_Meta (λ f x, x <| bsl_Meta ::= f |>) (λ x, x <| bsl_Available := false |>).
Definition Update_bsl := kUpdate k_bsls bsl_Meta (λ f x, x <| bsl_Meta ::= f |>)
  (λ old new, new <| bsl_Meta := server_meta (bsl_Meta old) (bsl_Meta new) |> <| bsl_Available := bsl_Available old |>).

(** *** Storage locations (bsl.go) *)

Definition bslSpec (loc : StorageLocation) (bsl : BackupStorageLocation) : BackupStorageLocation :=
  bsl <| bsl_Profile := sl_Profile loc |> <| bsl_Prefix := sl_KeyPrefix loc +:+ "velero/" |>.

(** An update that would change nothing is not sent. *)
Definition bslCreateOrUpdate (loc : StorageLocation) (labels : gmap string string) (n : NamespacedName) : VOp (option GoError) :=
  let mutate := λ bsl, bslSpec loc (bsl <| bsl_Meta ::= λ m, m <| om_Labels := <[CreatedByRamenLabel := "true"]> labels |> |>) in
  let failed := λ e, wrapf ("failed to create or update BackupStorageLocation: " +:+ error_text e) e in
  r ← Get_bsl n;
  match r with
  | inr e =>
      if negb (IsNotFound e) then mret (failed e)
      else err? Create_bsl (mutate (mkBSL (named_meta n.2 n.1) "" "" false)) then e => mret (failed e); mret None
  | inl bsl =>
      let new := mutate bsl in
      if (om_Labels (bsl_Meta new) =? om_Labels (bsl_Meta bsl)) && (bsl_Profile new =? bsl_Profile bsl) &&
         (bsl_Prefix new =? bsl_Prefix bsl) then mret None
      else get? _bsl := Update_bsl new then e => mret (failed e); mret None
  end.

Definition checkBSLAvailability (n : NamespacedName) : VOp (option GoError) :=
  get? bsl := Get_bsl n then e => mret (wrapf ("failed to check BSL status: " +:+ error_text e) e);
  mret (if bsl_Available bsl then None else errorf ("BSL " +:+ nn_string n +:+ " not yet available")).

(** *** Backups *)

(** The requirement is appended to the selector behind the pointer. *)
Definition getBackupSpecFromObjectsSpec (spec : KubeSpec) : VOp BackupSpec :=
  w ← gets id;
  let selector := default zero_selector (ks_LabelSelector spec ≫= selector_at w)
        <| ls_MatchExpressions ::= λ l, l ++ [(CreatedByRamenLabel, "NotIn", ["true"])] |> in
  (match ks_LabelSelector spec with Some p => set_selector_at p selector | None => mret tt end);;
  mret (mkBackupSpec (ks_IncludedNamespaces spec) (ks_IncludedResources spec) (ks_ExcludedResources spec) selector
          (ks_OrLabelSelectors spec) (default false (ks_IncludeClusterResources spec)) "").

Definition backupRequest (n : NamespacedName) (spec : BackupSpec) (labels annotations : gmap string string) : Backup :=
  mkBackup (named_meta n.2 n.1 <| om_Labels := <[CreatedByRamenLabel := "true"]> labels |> <| om_Annotations := annotations |>)
    spec BackupPhaseUnset None None.

Definition backupRequestCreate (loc : StorageLocation) (spec : BackupSpec) (n : NamespacedName)
    (labels annotations : gmap string string) : VOp (option GoError) :=
  err? bslCreateOrUpdate loc labels n then e => mret (Some e);
  err? checkBSLAvailability n
  then e => mret (wrapf ("BSL " +:+ nn_string n +:+ " not available for backup creation: " +:+ error_text e) e);
  Create_backup (backupRequest n (spec <| bks_StorageLocation := n.2 |>) labels annotations).

Definition objectCreate (create : VOp (option GoError)) : VOp (option GoError) :=
  err ← create;
  mret (match err with
        | Some e => if IsAlreadyExists e then None else wrapf ("object create: " +:+ error_text e) e
        | None => None
        end).
Definition objectDelete (delete : VOp (option GoError)) : VOp (option GoError) :=
  err ← delete;
  mret (match err with
        | Some e => if IsNotFound e then None else wrapf ("object delete: " +:+ error_text e) e
        | None => None
        end).

Definition backupRequestDelete (n : NamespacedName) : VOp (option GoError) := objectDelete (Delete_backup n).
Definition restoreRequestDelete (backup restore : NamespacedName) : VOp (option GoError) :=
  err? objectDelete (Delete_restore restore) then e => mret (Some e);
  backupRequestDelete backup.

(** *** Restores *)

Definition restore_object (ns restoreName : string) (spec : RecoverSpec) (selector : option LabelSelector) (backupName : string)
    (labels : gmap string string) : Restore :=
  mkRestore (named_meta restoreName ns <| om_Labels := <[CreatedByRamenLabel := "true"]> labels |>)
    (mkRestoreSpec backupName (ks_IncludedResources (rs_Spec spec)) (ks_ExcludedResources (rs_Spec spec)) selector
       (ks_OrLabelSelectors (rs_Spec spec)) (default false (ks_IncludeClusterResources (rs_Spec spec))) (rs_ResourceModifier spec))
    RestorePhaseUnset None None None.

Definition backupRestore (backup : Backup) (spec : RecoverSpec) (restoreName : string) (labels : gmap string string) : VOp (option GoError) :=
  w ← gets id;
  objectCreate (Create_restore (restore_object (om_Namespace (bk_Meta backup)) restoreName spec
    (ks_LabelSelector (rs_Spec spec) ≫= selector_at w) (om_Name (bk_Meta backup)) labels)).

Definition backupDummyStatusProcessAndRestore (backup : Backup) (spec : RecoverSpec) (restoreName : string)
    (labels : gmap string string) : VOp (option RequestError) :=
  match bk_Phase backup with
  | BackupPhaseCompleted | BackupPhasePartiallyFailed | BackupPhaseFailed =>
      err ← backupRestore backup spec restoreName labels; mret (RequestFailed <$> err)
  | BackupPhaseNew | BackupPhaseQueued | BackupPhaseReadyToStart | BackupPhaseInProgress
  | BackupPhaseWaitingForPluginOperations | BackupPhaseWaitingForPluginOperationsPartiallyFailed
  | BackupPhaseDeleting | BackupPhaseFinalizing | BackupPhaseFinalizingPartiallyFailed =>
      mret (Some (Processing ("backup" +:+ BackupPhase_string (bk_Phase backup))))
  | BackupPhaseFailedValidation => mret (Some (RequestFailed (Errorf ("backup" +:+ BackupPhase_string (bk_Phase backup)) None)))
  | BackupPhaseUnset => mret (Some (Processing "backup.status.phase absent"))
  end.

(** A request that is not a backup is as none. *)
Definition restoreRealCreate (loc : StorageLocation) (spec : RecoverSpec) (ns backupName : string)
    (captureRequest : option VeleroRequest) (restoreName : string) (labels annotations : gmap string string) : VOp (option RequestError) :=
  match captureRequest with
  | Some (BackupRequest backup) => backupDummyStatusProcessAndRestore backup spec restoreName labels
  | _ =>
      backupSpec ← getBackupSpecFromObjectsSpec (rs_Spec spec);
      err ← backupRequestCreate loc backupSpec (ns, backupName) labels annotations;
      mret (match err with
            | Some e => Some (RequestFailed (Errorf ("backup dummy request create: " +:+ error_text e) (Some e)))
            | None => None
            end)
  end.

(** *** The manager *)

Definition velero_meta (r : VeleroRequest) : ObjectMeta :=
  match r with BackupRequest b => bk_Meta b | RestoreRequest r => rst_Meta r end.

Definition StartTime (r : VeleroRequest) : VOp Z :=
  let '(start, completion) := match r with
                              | BackupRequest b => (bk_StartTimestamp b, bk_CompletionTimestamp b)
                              | RestoreRequest r => (rst_StartTimestamp r, rst_CompletionTimestamp r)
                              end in
  match start, completion with
  | Some t, _ => mret t
  | None, Some t => mret t
  | None, None => vnow
  end.

Definition Deallocate (r : VeleroRequest) : VOp (option GoError) :=
  match r with
  | BackupRequest b => backupRequestDelete (om_Namespace (bk_Meta b), om_Name (bk_Meta b))
  | RestoreRequest r =>
      restoreRequestDelete (om_Namespace (rst_Meta r), rts_BackupName (rst_Spec r)) (om_Namespace (rst_Meta r), om_Name (rst_Meta r))
  end.

Definition ProtectRequestCreate (loc : StorageLocation) (spec : KubeSpec) (ns name : string) (labels annotations : gmap string string)
    : VOp (option GoError) :=
  backupSpec ← getBackupSpecFromObjectsSpec spec;
  backupRequestCreate loc backupSpec (ns, name) labels annotations.

Definition list_labelled {A} (proj : Volumes → gmap NamespacedName A) (meta : A → ObjectMeta) (ns : string) (labels : gmap string string)
    : VOp (list A + GoError) :=
  kList (λ w, (map_to_list (proj w)).*2) (λ x, (om_Namespace (meta x) =? ns) && labels_match labels (meta x)).

Definition ProtectRequestsGet (ns : string) (labels : gmap string string) : VOp (list VeleroRequest + GoError) :=
  get? l := list_labelled k_backups bk_Meta ns labels then e => mret (inr e);
  mret (inl (BackupRequest <$> l)).
Definition RecoverRequestsGet (ns : string) (labels : gmap string string) : VOp (list VeleroRequest + GoError) :=
  get? l := list_labelled k_restores rst_Meta ns labels then e => mret (inr e);
  mret (inl (RestoreRequest <$> l)).

Definition ProtectRequestsDelete (ns : string) (labels : gmap string string) : VOp (option GoError) :=
  err? kDeleteAllOf k_backups bk_Meta (λ f x, x <| bk_Meta ::= f |>) ns labels
  then e => mret (wrapf ("backup requests delete: " +:+ error_text e) e);
  mret None.
Definition RecoverRequestsDelete (ns : string) (labels : gmap string string) : VOp (option GoError) :=
  err? kDeleteAllOf k_restores rst_Meta (λ f x, x <| rst_Meta ::= f |>) ns labels
  then e => mret (wrapf ("restore requests delete: " +:+ error_text e) e);
  ProtectRequestsDelete ns labels.
Definition ProtectBSLsDelete (ns : string) (labels : gmap string string) : VOp (option GoError) :=
  kDeleteAllOf k_bsls bsl_Meta (λ f x, x <| bsl_Meta ::= f |>) ns labels.

Definition velero_requests : RequestsManager := {|
  Request := VeleroRequest;
  rq_Name := λ r, om_Name (velero_meta r);
  rq_Generation := λ r, om_Generation (velero_meta r);
  rq_Annotations := λ r, om_Annotations (velero_meta r);
  rq_StartTime := StartTime;
  rq_Status := λ r, match r with BackupRequest b => backupRealStatusProcess b | RestoreRequest r => restoreStatusProcess r end;
  rq_Deallocate := Deallocate;
  rm_ProtectsPath := protectsPath;
  rm_ProtectRequestCreate := ProtectRequestCreate;
  rm_RecoverRequestCreate := restoreRealCreate;
  rm_ProtectRequestsGet := ProtectRequestsGet;
  rm_RecoverRequestsGet := RecoverRequestsGet;
  rm_ProtectRequestsDelete := ProtectRequestsDelete;
  rm_RecoverRequestsDelete := RecoverRequestsDelete;
  rm_ProtectBSLsDelete := ProtectBSLsDelete;
|}.
End velero.

(** ** Resources left out of every backup (exclude_resources.go)

    [v_cachedExclusions] is the manager's cache, nil at first.  The warnings of
    [validateCriticalExclusions] are only logged. *)

Definition DefaultExcludedResourcesConfigMapName : string := "default-excluded-resources".
Definition ExcludedResourcesKey : string := "resources".

Definition getDefaultExcludedResources : list string :=
  ["volumereplications.replication.storage.openshift.io"; "volumegroupreplications.replication.storage.openshift.io";
   "replicationsources.volsync.backube"; "replicationdestinations.volsync.backube";
   "persistentvolumeclaims"; "persistentvolumes"; "endpointslices.discovery.k8s.io"; "endpoints";
   "volumesnapshots.snapshot.storage.k8s.io"; "volumegroupsnapshots.groupsnapshot.storage.k8s.io"].

(** White space of ASCII. *)
Definition is_space (c : ascii) : bool :=
  let n := nat_of_ascii c in (n =? 32) || (bool_decide (9 ≤ n) && bool_decide (n ≤ 13)).
Fixpoint trim_left (l : list ascii) : list ascii :=
  match l with c :: l' => if is_space c then trim_left l' else l | [] => [] end.
Definition TrimSpace (s : string) : string :=
  String.string_of_list_ascii (rev (trim_left (rev (trim_left (String.list_ascii_of_string s))))).

Fixpoint split_commas (s : string) : list string :=
  match s with
  | EmptyString => [""]
  | String c s' =>
      if Ascii.eqb c "," then "" :: split_commas s'
      else match split_commas s' with x :: l => String c x :: l | [] => [String c ""] end
  end.

Definition parseCommaSeparated (data : string) : list string :=
  List.filter (λ x, x ≠? "") (TrimSpace <$> split_commas data).

(** [json.Unmarshal] of a list of strings. *)
Class ListCodec := { lc_Unmarshal : string → option (list string) }.

Section excluded.
Context `{VolEnv} `{VRGConfig} `{ListCodec}.

Definition parseExcludedResources (configMap : ConfigMap) : list string + GoError :=
  match cfm_Data configMap !! ExcludedResourcesKey with
  | None => inr (Errorf ("ConfigMap missing key " +:+ ExcludedResourcesKey) None)
  | Some "" => inl []
  | Some data =>
      let exclusions := default (parseCommaSeparated data) (lc_Unmarshal data) in
      inl (List.filter (λ x, x ≠? "") (TrimSpace <$> exclusions))
  end.

Definition excluded_key : NamespacedName := (v_ramenOperatorNamespace, DefaultExcludedResourcesConfigMapName).

Definition default_config_map : ConfigMap :=
  mkConfigMap (named_meta DefaultExcludedResourcesConfigMapName v_ramenOperatorNamespace
                 <| om_Labels := {["app.kubernetes.io/name" := "ramen-dr-cluster-operator";
                                   "app.kubernetes.io/component" := "kubeobjects-protection";
                                   "app.kubernetes.io/managed-by" := "ramen-dr-cluster-operator";
                                   CreatedByRamenLabel := "true"]} |>
                 <| om_Annotations := {["ramen.openshift.io/description" :=
                      "Default list of resources to exclude from Velero backups. " +:+
                      "You can modify this ConfigMap to customize the exclusions. " +:+
                      "Changes will be picked up on the next reconciliation.";
                      "ramen.openshift.io/version" := "v1"]} |>)
    {[ExcludedResourcesKey := "[" +:+ String.concat "," (json_string <$> getDefaultExcludedResources) +:+ "]"]}.

Definition createDefaultConfigMap : VOp (ConfigMap + GoError) :=
  err? Create_cm default_config_map then e => mret (inr (Errorf ("failed to create ConfigMap: " +:+ error_text e) (Some e)));
  mret (inl default_config_map).

Definition EnsureConfigMap : VOp (list string + GoError) :=
  r ← Get_cm excluded_key;
  get? configMap := match r with
                    | inl cm => mret (inl cm)
                    | inr e =>
                        if negb (IsNotFound e)
                        then mret (inr (Errorf ("failed to get ConfigMap " +:+ nn_string excluded_key +:+ ": " +:+ error_text e) (Some e)))
                        else get? cm := createDefaultConfigMap
                             then e => mret (inr (Errorf ("failed to create default ConfigMap: " +:+ error_text e) (Some e)));
                             mret (inl cm)
                    end
  then e => mret (inr e);
  match parseExcludedResources configMap with
  | inr _ => mret (inl getDefaultExcludedResources)
  | inl exclusions => modify (λ w, w <| v_cachedExclusions := Some exclusions |>);; mret (inl exclusions)
  end.

Definition GetExcludedResources : VOp (list string + GoError) :=
  cached ← gets v_cachedExclusions;
  match cached with Some l => mret (inl l) | None => EnsureConfigMap end.

Definition ReloadExcludedResources : VOp (list string + GoError) :=
  r ← Get_cm excluded_key;
  match r with
  | inr e => if IsNotFound e then EnsureConfigMap
             else mret (inr (Errorf ("failed to reload ConfigMap: " +:+ error_text e) (Some e)))
  | inl configMap =>
      match parseExcludedResources configMap with
      | inr _ => cached ← gets v_cachedExclusions; mret (inl (default [] cached))
      | inl exclusions => modify (λ w, w <| v_cachedExclusions := Some exclusions |>);; mret (inl exclusions)
      end
  end.

(** The reconciler's: at a reconcile, and when the ConfigMap changes. *)
Definition ensureExcludedResourcesCM (disabled : bool) : VOp unit :=
  cached ← gets v_cachedExcludedResources;
  if disabled || negb (bool_decide (cached = [])) then mret tt
  else
    r ← EnsureConfigMap;
    match r with
    | inl l => modify (λ w, w <| v_cachedExcludedResources := l |>)
    | inr _ => mret tt
    end.

Definition excluded_resources_changed : VOp unit :=
  r ← ReloadExcludedResources;
  match r with
  | inl l => modify (λ w, w <| v_cachedExcludedResources := l |>)
  | inr _ => mret tt
  end.
End excluded.
