(* ===== verification/KubeObjects.v ===== *)
(** * Protection of Kubernetes objects

    vrg_kubeobjects.go, vrg_recipe.go, vrg_pvc_selector.go, vrg_vrgobject.go and
    s3_store_accessors.go: the workflows of a VRG from its recipe; captures, of which two
    alternate under the numbers 0 and 1 and one is the one to recover from; recovery from
    the first store that has it; the upload of the VRG itself.

    The manager of requests is the interface of kubeobjects/requests.go, see Velero.  The
    execution of a hook (package hooks) is a parameter, and so are JSON and YAML.  Of a
    result only [Requeue] is kept, not a delay; the times of requests that are only logged
    are left out. *)

From Stdlib Require Import ZArith Ascii.
From stdpp Require Import pretty.
From S2P Require Import Prelude Meta Names Conditions Api VRGStatus PeerClasses PolicyPeers Events Telemetry Workflows Volumes VolRepStatus VolRepClasses.
From S2P Require Import VolRep ObjectStores VRGAggregate VirtualMachines Velero.
#[local] Open Scope record_scope.

Definition vrgGenerationKey : string := "ramendr.openshift.io/vrg-generation".
Definition RecipeMaxAttempts : Z := 10.
Definition KubeObjectProtectionCaptureIntervalDefault : Z := 300 * Second.
Definition VeleroKubevirtMetadataOnlyBackupLabel : string := "velero.kubevirt.io/metadataBackup".
Definition EventReasonVrgUploadFailed : string := "VrgUploadFailed".
Definition vrgS3ObjectNameSuffix : string := "a".

(** The configuration, the codecs of a recipe and the VM recipe that is built in, and the
    execution of a hook. *)
Class KubeEnv := {
  ke_Disabled : bool;
  ke_MultiNamespace : bool;
  ke_Marshal : RecipeSpec → string + GoError;
  ke_Unmarshal : string → RecipeSpec → RecipeSpec + GoError;
  ke_VMRecipe : RecipeSpec + GoError;
  ke_Execute : HookSpec → VOp (option GoError);
}.

(** ** The selector of the claims (vrg_pvc_selector.go) *)

Section recipes.
Context `{VolEnv} `{VRGConfig} `{KubeEnv}.

(** A VRG in the operands' namespace has protected namespaces. *)
Definition pvcNamespaceNamesDefault (v : VolumeReplicationGroup) : list string :=
  if om_Namespace (vrg_Meta v) =? v_ramenOperandsNamespace then default [] (vsp_ProtectedNamespaces (vrg_Spec v))
  else [om_Namespace (vrg_Meta v)].

(** The selector, the namespaces, and whether the selector is the VRG's. *)
Definition getPVCSelector (v : VolumeReplicationGroup) (recipeVolNamespaces : list string)
    (recipeVolLabelSelector : option LabelSelector) : LabelSelector * list string * bool :=
  (default (vsp_PVCSelector (vrg_Spec v)) recipeVolLabelSelector,
   if bool_decide (recipeVolNamespaces ≠ []) then recipeVolNamespaces else pvcNamespaceNamesDefault v,
   bool_decide (recipeVolLabelSelector = None)).

(** ** Recipes (vrg_recipe.go) *)

Definition default_kubespec (v : VolumeReplicationGroup) : KubeSpec :=
  zero_kubespec <| ks_IncludedNamespaces := pvcNamespaceNamesDefault v |>
                <| ks_LabelSelector := (λ _, OwnSelector) <$> (vsp_KubeObjectProtection (vrg_Spec v) ≫= kop_KubeObjectSelector) |>.
Definition captureWorkflowDefault (v : VolumeReplicationGroup) : list CaptureSpec := [mkCaptureSpec "" (default_kubespec v)].
Definition recoverWorkflowDefault (v : VolumeReplicationGroup) : list RecoverSpec := [mkRecoverSpec "" (default_kubespec v) None].

Definition to_lower (c : ascii) : ascii :=
  let n := nat_of_ascii c in if bool_decide (65 ≤ n) && bool_decide (n ≤ 90) then ascii_of_nat (n + 32) else c.
Fixpoint ToLower (s : string) : string :=
  match s with EmptyString => "" | String c s' => String (to_lower c) (ToLower s') end.

Definition isRecipeReconcileToStop (parameters : gmap string (list string)) : bool :=
  match parameters !! "STOP_RECIPE_RECONCILE" with
  | Some (x :: _) => ToLower x =? "true"
  | Some [] | None => false
  end.

(** The recipe of virtual machines that is built in. *)
Definition is_vm_recipe (ref : RecipeRef) : bool := (rr_Namespace ref =? v_ramenOperandsNamespace) && (rr_Name ref =? VMRecipeName).

(** The parameter is added to the map of the VRG itself. *)
Definition getRecipeParameters (ref : RecipeRef) : VOp (gmap string (list string)) :=
  v ← gets v_instance;
  (if is_vm_recipe ref
   then modify_vrg (λ v, v <| vrg_Spec ::= λ s, s <| vsp_KubeObjectProtection ::= fmap (λ k,
          k <| kop_RecipeParameters ::= λ m, <[ProtectedVMNamespace :=
            default [] (m !! ProtectedVMNamespace) ++ default [] (vsp_ProtectedNamespaces s)]> m |>) |> |>)
   else mret tt);;
  v ← gets v_instance;
  mret (default ∅ (kop_RecipeParameters <$> vsp_KubeObjectProtection (vrg_Spec v))).

Definition getRecipeObj (v : VolumeReplicationGroup) (ref : RecipeRef) : VOp (RecipeSpec + GoError) :=
  if is_vm_recipe ref then
    mret (if bool_decide (default [] (vsp_ProtectedNamespaces (vrg_Spec v)) = [])
          then inr (Errorf ("recipe " +:+ rr_Name ref +:+ " should have atleast one protected namespace specified") None)
          else match ke_VMRecipe with
               | inl r => inl r
               | inr e => inr (Errorf ("recipe unmarshal error: " +:+ error_text e) (Some e))
               end)
  else
    let n := (rr_Namespace ref, rr_Name ref) in
    get? _ok := (err? vapi_err then e => mret (inr e); mret (inl tt))
    then e => mret (inr (Errorf ("recipe " +:+ nn_string n +:+ " get error: " +:+ error_text e) (Some e)));
    recipes ← gets k_recipes;
    mret (match recipes !! n with
          | Some r => inl r
          | None => inr (Errorf ("recipe " +:+ nn_string n +:+ " get error: " +:+ error_text (absent n.2)) (Some (absent n.2)))
          end).

(** [os.Expand]: the name that follows a dollar, and how many characters it takes. *)
Definition is_special (c : ascii) : bool :=
  let n := nat_of_ascii c in
  (n =? 42) || (n =? 35) || (n =? 36) || (n =? 64) || (n =? 33) || (n =? 63) || (n =? 45) ||
  (bool_decide (48 ≤ n) && bool_decide (n ≤ 57)).
Definition is_alnum (c : ascii) : bool :=
  let n := nat_of_ascii c in
  (n =? 95) || (bool_decide (48 ≤ n) && bool_decide (n ≤ 57)) || (bool_decide (65 ≤ n) && bool_decide (n ≤ 90)) ||
  (bool_decide (97 ≤ n) && bool_decide (n ≤ 122)).
(** Up to a closing brace, and what follows it. *)
Fixpoint to_brace (s : string) : option (string * string) :=
  match s with
  | EmptyString => None
  | String c s' => if Ascii.eqb c "}" then Some ("", s') else p ← to_brace s'; Some (String c p.1, p.2)
  end.
Fixpoint to_non_alnum (s : string) : string * string :=
  match s with
  | String c s' => if is_alnum c then let p := to_non_alnum s' in (String c p.1, p.2) else ("", s)
  | EmptyString => ("", "")
  end.
(** What replaces a dollar followed by [s], not empty, and what is left; [None] leaves the
    dollar.  Bad syntax after a brace is dropped. *)
Definition expand_name (mapping : string → string) (s : string) : option (string * string) :=
  match s with
  | String "{" s' =>
      match to_brace s' with
      | Some ("", s'') => Some ("", s'')
      | Some (name, s'') => Some (mapping name, s'')
      | None => Some ("", s')
      end
  | String c s' =>
      if is_special c then Some (mapping (String c ""), s')
      else match to_non_alnum s with ("", _) => None | (name, s'') => Some (mapping name, s'') end
  | EmptyString => None
  end.
(** A dollar at the end stays.  The fuel is the length of the text. *)
Fixpoint expand (fuel : nat) (mapping : string → string) (s : string) : string :=
  match fuel, s with
  | S fuel', String c s' =>
      if Ascii.eqb c "$" then
        match expand_name mapping s' with
        | Some (x, rest) => x +:+ expand fuel' mapping rest
        | None => String c (expand fuel' mapping s')
        end
      else String c (expand fuel' mapping s')
  | _, _ => ""
  end.

Definition parametersExpand (s : string) (parameters : gmap string (list string)) : string :=
  expand (String.length s) (λ key, String.concat (dquote +:+ "," +:+ dquote) (default [] (parameters !! key))) s.

Definition RecipeParametersExpand (recipe : RecipeSpec) (parameters : gmap string (list string)) : RecipeSpec + GoError :=
  match ke_Marshal recipe with
  | inr e => inr (Errorf ("recipe json marshal error: " +:+ error_text e) (Some e))
  | inl s1 =>
      let s2 := parametersExpand s1 parameters in
      match ke_Unmarshal s2 recipe with
      | inr e => inr (Errorf ("recipe spec " +:+ s2 +:+ " json unmarshal error: " +:+ error_text e) (Some e))
      | inl r => inl r
      end
  end.

Definition recipeWorkflowsGet (recipe : RecipeSpec) (v : VolumeReplicationGroup) (stop : bool) : RecipeElements + GoError :=
  match getCaptureGroups recipe with
  | Some (inr e) => inr (Errorf ("failed to get groups from capture workflow: " +:+ error_text e) (Some e))
  | capture =>
      let '(captures, captureFailOn) := match capture with Some (inl c) => c | _ => (captureWorkflowDefault v, WorkflowAnyError) end in
      match getRecoverGroups recipe with
      | Some (inr e) => inr (Errorf ("failed to get groups from recovery workflow: " +:+ error_text e) (Some e))
      | recover =>
          let '(recovers, restoreFailOn) := match recover with Some (inl r) => r | _ => (recoverWorkflowDefault v, WorkflowAnyError) end in
          inl (mkRecipeElements captures recovers captureFailOn restoreFailOn stop)
      end
  end.

Definition recipeNamespaceNames (namespaces : list string) (elements : RecipeElements) : gset string :=
  list_to_set (namespaces ++ (c ← re_CaptureWorkflow elements; ks_IncludedNamespaces (cs_Spec c)) ++
               (r ← re_RecoverWorkflow elements; ks_IncludedNamespaces (rs_Spec r))).

(** The lists of namespaces in the texts are left out. *)
Definition recipeNamespacesValidate (namespaces : list string) (elements : RecipeElements) (v : VolumeReplicationGroup) : option GoError :=
  let extra := recipeNamespaceNames namespaces elements ∖ {[om_Namespace (vrg_Meta v)]} in
  if bool_decide (extra = ∅) then None
  else if negb ke_MultiNamespace then
    errorf "requested protection of other namespaces when MultiNamespace feature is disabled"
  else if negb (vrgInAdminNamespace v) then
    errorf ("vrg namespace: " +:+ om_Namespace (vrg_Meta v) +:+ " needs to be in admin namespaces to protect other namespaces")
  else if (om_Namespace (vrg_Meta v) =? v_ramenOperandsNamespace) &&
          negb (bool_decide (extra ⊆ list_to_set (default [] (vsp_ProtectedNamespaces (vrg_Spec v))))) then
    errorf "recipe mentions namespace which is not in protected namespaces"
  else None.

Definition set_elements (selector : LabelSelector * list string * bool) (recipe : option RecipeSpec) (elements : RecipeElements) : VOp unit :=
  modify (λ w, w <| v_pvcSelector := selector.1.1 |> <| v_pvcNamespaces := selector.1.2 |> <| v_selectorShared := selector.2 |>
                 <| v_recipe := recipe |> <| v_recipeElements := elements |>).

(** The namespaces are validated once the elements are set.  On an error the caller stops
    and does not use them. *)
Definition RecipeElementsGet : VOp (option GoError) :=
  v ← gets v_instance;
  match vsp_KubeObjectProtection (vrg_Spec v) with
  | None => set_elements (getPVCSelector v [] None) None zero_elements;; mret None
  | Some kop =>
      match kop_RecipeRef kop with
      | None =>
          set_elements (getPVCSelector v [] None) None
            (mkRecipeElements (captureWorkflowDefault v) (recoverWorkflowDefault v) WorkflowAnyError WorkflowAnyError false);;
          mret None
      | Some ref =>
          let name := rr_Namespace ref +:+ "/" +:+ rr_Name ref in
          get? recipe := getRecipeObj v ref then e => mret (Some e);
          parameters ← getRecipeParameters ref;
          get? recipe := mret (RecipeParametersExpand recipe parameters)
          then e => mret (wrapf ("recipe " +:+ name +:+ " parameters expansion error: " +:+ error_text e) e);
          let selector := match rsp_Volumes recipe with
                          | None => getPVCSelector v [] None
                          | Some volumes => getPVCSelector v (grp_IncludedNamespaces volumes) (grp_LabelSelector volumes)
                          end in
          get? elements := mret (recipeWorkflowsGet recipe v (isRecipeReconcileToStop parameters))
          then e => mret (wrapf ("recipe " +:+ name +:+ " workflows get error: " +:+ error_text e) e);
          set_elements selector (Some recipe) elements;;
          err? mret (recipeNamespacesValidate selector.1.2 elements v)
          then e => mret (wrapf ("recipe " +:+ name +:+ " namespaces validation error: " +:+ error_text e) e);
          mret None
      end
  end.
End recipes.

(** ** Stores and the upload of the VRG (s3_store_accessors.go, vrg_vrgobject.go) *)

Section kube_objects.
Context `{VolEnv} `{VRGConfig} `{VMEnv} `{RequestsManager} `{KubeEnv}.

(** None if one of them cannot be accessed. *)
Fixpoint store_accessors (profiles acc : list string) : VOp (list string) :=
  match profiles with
  | [] => mret acc
  | s3ProfileName :: profiles' =>
      if s3ProfileName =? NoS3Store then store_accessors profiles' acc
      else
        t ← vtick;
        match kenv_ObjectStore t s3ProfileName with
        | Some _ => mret []
        | None => store_accessors profiles' (acc ++ [s3ProfileName])
        end
  end.

Definition s3StoreAccessorsGet : VOp unit :=
  v ← gets v_instance;
  accessors ← store_accessors (vsp_S3Profiles (vrg_Spec v)) [];
  modify (λ w, w <| v_s3StoreAccessors := accessors |>).

Definition vrg_key (v : VolumeReplicationGroup) : string :=
  typedKey (s3KeyPrefix v) vrgS3ObjectNameSuffix "v1alpha1.VolumeReplicationGroup".

Definition VrgObjectProtect (s : string) (v : VolumeReplicationGroup) : VOp (option GoError) := UploadObject s (vrg_key v) (S3VRG v).

(** The version is remembered after each store that has the VRG. *)
Fixpoint vrgObjectProtectThrottled (accessors : list string) (success failure : VOp unit) : VOp unit :=
  match accessors with
  | [] => success
  | s :: accessors' =>
      v ← gets v_instance;
      let generation := om_Generation (vrg_Meta v) in
      err? VrgObjectProtect s v
      then e => (report_event EventTypeWarning EventReasonVrgUploadFailed (error_text e);;
                 modify (λ w, w <| v_vrgObjectProtected := Some (newVRGClusterDataUnprotectedCondition generation
                   "VolumeReplicationGroupObjectCaptureError" "VRG Kube object protect error") |>);;
                 requeue;;
                 failure);
      modify (λ w, w <| v_vrgLastUploadVersion := Some (om_ResourceVersion (vrg_Meta v)) |>
                     <| v_vrgObjectProtected := Some (newVRGClusterDataProtectedCondition generation
                          vrgClusterDataProtectedTrueMessage) |>);;
      vrgObjectProtectThrottled accessors' success failure
  end.

Definition vrgObjectProtect : VOp unit :=
  v ← gets v_instance;
  last ← gets v_vrgLastUploadVersion;
  if vsp_DryRun (vrg_Spec v) then mret tt
  else if last =? Some (om_ResourceVersion (vrg_Meta v)) then mret tt
  else accessors ← gets v_s3StoreAccessors; vrgObjectProtectThrottled accessors (mret tt) (mret tt).

(** ** Names and conditions *)

Definition kubeObjectProtectionDisabled (v : VolumeReplicationGroup) : bool :=
  (vsp_KubeObjectProtection (vrg_Spec v) =? None) || ke_Disabled.

Definition kubeObjectsCaptureStatus (status : ConditionStatus) (reason message : string) : VOp unit :=
  modify (λ w, w <| v_kubeObjectsProtected := Some (new_condition VRGConditionTypeClusterDataProtected status reason
                      (om_Generation (vrg_Meta (v_instance w))) message) |>).
Definition kubeObjectsCaptureStatusFalse : string → string → VOp unit := kubeObjectsCaptureStatus ConditionFalse.
Definition kubeObjectsCaptureStatusTrue : string → string → VOp unit := kubeObjectsCaptureStatus ConditionTrue.
Definition kubeObjectsCaptureStatusNil : VOp unit := modify (λ w, w <| v_kubeObjectsProtected := None |>).

Definition kubeObjectsCaptureInterval (kop : option KubeObjectProtectionSpec) : Z :=
  default KubeObjectProtectionCaptureIntervalDefault (kop ≫= kop_CaptureInterval).

(** The path of a capture, the path of its requests, and the prefix of their names. *)
Definition kubeObjectsCapturePathNamesAndNamePrefix (v : VolumeReplicationGroup) (captureNumber : Z) : string * string * string :=
  let number := pretty captureNumber in
  let pathName := s3KeyPrefix v +:+ "kube-objects/" +:+ number +:+ "/" in
  (pathName, pathName +:+ rm_ProtectsPath, om_Namespace (vrg_Meta v) +:+ "--" +:+ om_Name (vrg_Meta v) +:+ "--" +:+ number).

Definition kubeObjectsCaptureName (pfx groupName s3ProfileName : string) : string :=
  pfx +:+ "--" +:+ groupName +:+ "--" +:+ s3ProfileName.
Definition kubeObjectsRecoverNamePrefix (v : VolumeReplicationGroup) : string :=
  om_Namespace (vrg_Meta v) +:+ "--" +:+ om_Name (vrg_Meta v).
Definition kubeObjectsRecoverName (pfx : string) (groupNumber : nat) : string := pfx +:+ "--" +:+ pretty (Z.of_nat groupNumber).

(** ** Machines that are newly listed *)

Definition protectedVMsCacheKey (v : VolumeReplicationGroup) (protectedNamespace : string) : string :=
  om_Namespace (vrg_Meta v) +:+ "/" +:+ om_Name (vrg_Meta v) +:+ "/" +:+ protectedNamespace.

(** Compared once sorted. *)
Definition stringSlicesEqualIgnoreOrder (a b : list string) : bool :=
  bool_decide (length a = length b) && forallb (λ x, bool_decide (count_occ String.string_dec a x = count_occ String.string_dec b x)) (a ++ b).

(** The key of the cache, for a VM recipe. *)
Definition protected_vms_key (v : VolumeReplicationGroup) : option string :=
  if IsVMRecipe (vsp_KubeObjectProtection (vrg_Spec v)) then
    match recipe_parameter v ProtectedVMNamespace with
    | ns :: _ => Some (protectedVMsCacheKey v ns)
    | [] => None
    end
  else None.

Definition isProtectedVMsListUpdated : VOp bool :=
  v ← gets v_instance;
  seen ← gets v_lastSeenProtectedVMsList;
  mret (match protected_vms_key v with
        | None => false
        | Some key =>
            match seen !! key with
            | None => true
            | Some lastSeenVMs => negb (stringSlicesEqualIgnoreOrder (recipe_parameter v VMList) lastSeenVMs)
            end
        end).

Definition acknowledgeProtectedVMsList : VOp unit :=
  v ← gets v_instance;
  match protected_vms_key v with
  | None => mret tt
  | Some key => modify (λ w, w <| v_lastSeenProtectedVMsList ::= <[key := recipe_parameter v VMList]> |>)
  end.

(** ** Hooks *)

(** [hooksSucceeded], [anyHookFailed] and the message of the last failure. *)
Record HookFlags := mkHookFlags { hf_succeeded : bool; hf_failed : bool; hf_message : string }.
#[export] Instance eta_HookFlags : Eta HookFlags := λ x, mkHookFlags (hf_succeeded x) (hf_failed x) (hf_message x).

Definition GetHookExecutor (hook : HookSpec) : bool :=
  (hs_Type hook =? "check") || (hs_Type hook =? "exec") || (hs_Type hook =? "scale") || (hs_Type hook =? "job").

(** The flags, whether to skip the step, and the error. *)
Definition kubeObjectsHookExecute (hook : HookSpec) (failOn : string) (isEssentialStep : bool) (flags : HookFlags)
    : VOp (HookFlags * bool * option GoError) :=
  if negb (GetHookExecutor hook)
  then mret (flags, true, errorf ("unsupported hook type: " +:+ hs_Type hook))
  else
    err ← ke_Execute hook;
    match err with
    | Some e =>
        let message := "Hook '" +:+ hs_Name hook +:+ "' failed: " +:+ error_text e in
        (if shouldStopExecution failOn isEssentialStep
         then modify_conditions (λ now v conditions, setVRGHookFailedCondition now conditions (om_Generation (vrg_Meta v)) message)
         else mret tt);;
        mret (flags <| hf_failed := true |> <| hf_message := message |>, false, Some e)
    | None => mret (flags <| hf_succeeded := true |>, false, None)
    end.

Definition kubeObjectsHookWorkflowResult (flags : HookFlags) (hooksSucceededMessage : string) : VOp unit :=
  if hf_succeeded flags && negb (hf_failed flags) then
    modify_conditions (λ now v conditions, setVRGHookExecutedCondition now conditions (om_Generation (vrg_Meta v)) hooksSucceededMessage)
  else if hf_failed flags then
    modify_conditions (λ now v conditions, setVRGHookFailedCondition now conditions (om_Generation (vrg_Meta v)) (hf_message flags))
  else mret tt.

(** ** Capture *)

Fixpoint unique (seen : gset string) (l : list string) : list string :=
  match l with
  | [] => []
  | x :: l' => if bool_decide (x ∈ seen) then unique seen l' else x :: unique ({[x]} ∪ seen) l'
  end.

Definition mergeExcludedResources (spec : KubeSpec) : VOp KubeSpec :=
  defaults ← gets v_cachedExcludedResources;
  mret (if bool_decide (defaults = []) then spec
        else spec <| ks_ExcludedResources := unique ∅ (defaults ++ ks_ExcludedResources spec) |>).

(** The location of a capture's requests in a store is [mkStorageLocation], of its profile. *)
Definition createCaptureRequest (captureGroup : CaptureSpec) (pathName s requestName : string)
    (labels annotations : gmap string string) : VOp (option GoError) :=
  spec ← mergeExcludedResources (cs_Spec captureGroup);
  err? rm_ProtectRequestCreate (mkStorageLocation s pathName) spec vme_veleroNamespaceName requestName labels annotations
  then e => (requeue;; mret (errorf ("kube objects group capture error: " +:+ error_text e)));
  mret None.

Definition kubeObjectsCaptureAndCaptureRequestDelete (request : Request) (s pathName : string) : VOp unit :=
  _err ← DeleteObjectsWithKeyPrefix s (pathName +:+ rq_Name request +:+ "/");
  _err ← rq_Deallocate request;
  mret tt.

Definition processCaptureRequestStatus (request : Request) (s capturePathName : string) : VOp (bool + GoError) :=
  match rq_Status request with
  | None => mret (inl true)
  | Some (Processing _) => mret (inl false)
  | Some e =>
      kubeObjectsCaptureAndCaptureRequestDelete request s capturePathName;;
      kubeObjectsCaptureStatusFalse "KubeObjectsCaptureError" (request_error_text e);;
      requeue;;
      mret (inr (Errorf ("kube objects group capture error: " +:+ request_error_text e) None))
  end.

(** The requests that are complete, and the last error. *)
Fixpoint kubeObjectsGroupCapture (accessors : list string) (captureGroup : CaptureSpec) (pathName capturePathName namePrefix : string)
    (labels annotations : gmap string string) (requests : gmap string Request) : VOp (nat * option GoError) :=
  match accessors with
  | [] => mret (0, None)
  | s :: accessors' =>
      let requestName := kubeObjectsCaptureName namePrefix (cs_Name captureGroup) s in
      r ← match requests !! requestName with
          | None =>
              err ← createCaptureRequest captureGroup pathName s requestName labels annotations;
              mret (match err with Some e => inr e | None => inl false end)
          | Some request => processCaptureRequestStatus request s capturePathName
          end;
      rest ← kubeObjectsGroupCapture accessors' captureGroup pathName capturePathName namePrefix labels annotations requests;
      mret (match r with
            | inl true => (S rest.1, rest.2)
            | inl false => rest
            | inr e => (rest.1, match rest.2 with Some e' => Some e' | None => Some e end)
            end)
  end.

(** errKubeObjectsGroupCaptureIncomplete, and other errors. *)
Inductive CaptureError := CaptureIncomplete | CaptureFailed (e : GoError).

(** The variables of the loop. *)
Record StepCounts := mkStepCounts {
  st_allEssentialStepsFailed : bool;
  st_essentialStepsCount : nat;
  st_requestsProcessedCount : nat;
  st_requestsCompletedCount : nat;
  st_hooks : HookFlags;
}.
#[export] Instance eta_StepCounts : Eta StepCounts := λ x,
  mkStepCounts (st_allEssentialStepsFailed x) (st_essentialStepsCount x) (st_requestsProcessedCount x)
    (st_requestsCompletedCount x) (st_hooks x).
Definition first_counts : StepCounts := mkStepCounts true 0 0 0 (mkHookFlags false false "").

Definition step_failed (essential : bool) (n : StepCounts) : StepCounts :=
  n <| st_allEssentialStepsFailed := st_allEssentialStepsFailed n && essential |>.
Definition step_done (essential : bool) (n : StepCounts) : StepCounts :=
  if essential then n <| st_allEssentialStepsFailed := false |> <| st_essentialStepsCount ::= S |> else n.

Definition is_essential (spec : KubeSpec) : bool :=
  default false (if ks_IsHook spec then hs_Essential (ks_Hook spec) else ks_GroupEssential spec).

(** A step: the hooks' flags, whether to skip the rest, the requests that are complete and
    the error. *)
Definition capture_step (group : CaptureSpec) (failOn pathName capturePathName namePrefix : string)
    (labels annotations : gmap string string) (requests : gmap string Request) (flags : HookFlags)
    : VOp (HookFlags * bool * nat * option GoError) :=
  if ks_IsHook (cs_Spec group) then
    r ← kubeObjectsHookExecute (ks_Hook (cs_Spec group)) failOn (is_essential (cs_Spec group)) flags;
    mret (r.1.1, r.1.2, 0, r.2)
  else
    accessors ← gets v_s3StoreAccessors;
    r ← kubeObjectsGroupCapture accessors group pathName capturePathName namePrefix labels annotations requests;
    mret (flags, false, r.1, r.2).

Fixpoint capture_steps (groups : list CaptureSpec) (failOn pathName capturePathName namePrefix : string)
    (labels annotations : gmap string string) (requests : gmap string Request) (n : StepCounts)
    : VOp (bool * option CaptureError) :=
  match groups with
  | [] =>
      kubeObjectsHookWorkflowResult (st_hooks n) "Capture hooks executed successfully";;
      mret (if bool_decide (st_essentialStepsCount n = 0) then false else st_allEssentialStepsFailed n, None)
  | group :: groups' =>
      let continue := λ n, capture_steps groups' failOn pathName capturePathName namePrefix labels annotations requests n in
      let essential := is_essential (cs_Spec group) in
      r ← capture_step group failOn pathName capturePathName namePrefix labels annotations requests (st_hooks n);
      let '(flags, skip, completed, err) := r in
      let n := n <| st_hooks := flags |> <| st_requestsCompletedCount ::= Nat.add completed |> in
      if (skip : bool) then continue n
      else match err with
           | Some e =>
               if shouldStopExecution failOn essential then
                 kubeObjectsCaptureStatusFalse "KubeObjectsWorkflowError" (error_text e);;
                 mret (false, Some (CaptureFailed e))
               else continue (step_failed essential n)
           | None =>
               accessors ← gets v_s3StoreAccessors;
               let n := step_done essential n in
               if ks_IsHook (cs_Spec group) then continue n
               else
                 let n := n <| st_requestsProcessedCount ::= Nat.add (length accessors) |> in
                 if bool_decide (st_requestsCompletedCount n < st_requestsProcessedCount n)
                 then mret (st_allEssentialStepsFailed n, Some CaptureIncomplete)
                 else continue n
           end
  end.

Definition executeCaptureSteps (pathName capturePathName namePrefix : string) (annotations : gmap string string)
    (requests : gmap string Request) : VOp (bool * option CaptureError) :=
  v ← gets v_instance;
  elements ← gets v_recipeElements;
  let labels := <[VeleroKubevirtMetadataOnlyBackupLabel := "true"]> (OwnerLabels (vrg_Meta v)) in
  capture_steps (re_CaptureWorkflow elements) (re_CaptureFailOn elements) pathName capturePathName namePrefix labels annotations
    requests first_counts.

(** Of the first step that is not a hook. *)
Definition getFirstRequest (groups : list CaptureSpec) (requests : gmap string Request) (namePrefix s3ProfileName : string) : option Request :=
  group ← find_first (λ g, negb (ks_IsHook (cs_Spec g))) groups;
  requests !! kubeObjectsCaptureName namePrefix (cs_Name group) s3ProfileName.

Definition kubeObjectsCaptureRetryLimitExceeded (err : CaptureError) : VOp bool :=
  match err with
  | CaptureIncomplete => mret false
  | CaptureFailed _ =>
      retries ← gets v_recipeRetries;
      let val := match retries with Some n => (n + 1)%Z | None => 0%Z end in
      modify (λ w, w <| v_recipeRetries := Some val |>);;
      mret (bool_decide (RecipeMaxAttempts < val)%Z)
  end.

(** [strconv.ParseInt] of base 10 and 64 bits: 0 on a syntax error, the closest on overflow. *)
Definition ParseInt (s : string) : Z :=
  let digits := λ l, match l with [] => None | _ => parse_digits 0 l end in
  match String.list_ascii_of_string s with
  | "-"%char :: l => Z.max (- 2 ^ 63) (default 0 (Z.opp <$> digits l))
  | "+"%char :: l => Z.min (2 ^ 63 - 1) (default 0 (digits l))
  | l => Z.min (2 ^ 63 - 1) (default 0 (digits l))
  end%Z.

Definition kubeObjectsCaptureIdentifierUpdateComplete (labels : gmap string string) : VOp unit :=
  err? rm_ProtectRequestsDelete vme_veleroNamespaceName labels
  then e => (kubeObjectsCaptureStatusFalse "KubeObjectsCaptureRequestsDeleteError" (error_text e);; requeue);
  modify (λ w, w <| v_recipeRetries := Some 0%Z |>);;
  acknowledgeProtectedVMsList;;
  kubeObjectsCaptureStatusTrue VRGConditionReasonUploaded kubeObjectsClusterDataProtectedTrueMessage;;
  _now ← vnow;
  mret tt.

Definition set_capture (id : option KubeObjectsCaptureIdentifier) : VOp unit :=
  modify_vrg (λ v, v <| vrg_Status ::= λ s, s <| vst_CaptureToRecoverFrom := id |> |>).

Definition kubeObjectsCaptureComplete (captureNumber : Z) (labels : gmap string string) (startTime : Z)
    (annotations : gmap string string) : VOp unit :=
  v ← gets v_instance;
  now ← vnow;
  let current := vst_CaptureToRecoverFrom (vrg_Status v) in
  set_capture (Some (mkKubeObjectsCaptureIdentifier captureNumber startTime now (ParseInt (map_get annotations vrgGenerationKey))));;
  accessors ← gets v_s3StoreAccessors;
  vrgObjectProtectThrottled accessors (kubeObjectsCaptureIdentifierUpdateComplete labels) (set_capture current).

Definition kubeObjectsCaptureStartOrResume (captureNumber : Z) (pathName capturePathName namePrefix : string) (interval generation : Z)
    (requests : gmap string Request) : VOp unit :=
  v ← gets v_instance;
  elements ← gets v_recipeElements;
  if re_StopRecipeReconcile elements then
    kubeObjectsCaptureStatusFalse "KubeObjectsCaptureError" "user stopped recipe reconciliation using recipe parameters"
  else
    r ← executeCaptureSteps pathName capturePathName namePrefix {[vrgGenerationKey := pretty generation]} requests;
    match r.2 with
    | Some err =>
        exceeded ← kubeObjectsCaptureRetryLimitExceeded err;
        if (exceeded : bool)
        then kubeObjectsCaptureStatusFalse "KubeObjectsCaptureError" "recipe reconcile failed for more than max attempts"
        else
          requeue;;
          v ← gets v_instance;
          now ← vnow;
          match vst_CaptureToRecoverFrom (vrg_Status v) with
          | Some c => if bool_decide (now - kc_StartTime c ≤ 2 * interval)%Z
                      then kubeObjectsCaptureStatusTrue VRGConditionReasonUploading "Kube objects capture in-progress" else mret tt
          | None => mret tt
          end
    | None =>
        if (r.1 : bool) then requeue;; kubeObjectsCaptureStatusFalse "KubeObjectsCaptureError" "Kube objects capture failed"
        else
          accessors ← gets v_s3StoreAccessors;
          match getFirstRequest (re_CaptureWorkflow elements) requests namePrefix (default "" (head accessors)) with
          | None => requeue
          | Some request =>
              startTime ← rq_StartTime request;
              kubeObjectsCaptureComplete captureNumber (OwnerLabels (vrg_Meta v)) startTime (rq_Annotations request)
          end
    end.

Fixpoint kubeObjectsCapturesDelete (accessors : list string) (pathName : string) : VOp (option GoError) :=
  match accessors with
  | [] => mret None
  | s :: accessors' =>
      err? DeleteObjectsWithKeyPrefix s pathName
      then e => (kubeObjectsCaptureStatusFalse "KubeObjectsReplicaDeleteError" (error_text e);; requeue;; mret (Some e));
      kubeObjectsCapturesDelete accessors' pathName
  end.

(** The capture after the one to recover from, of the other number. *)
Definition kubeObjectsCaptureStartOrResumeOrDelay : VOp unit :=
  v ← gets v_instance;
  let interval := kubeObjectsCaptureInterval (vsp_KubeObjectProtection (vrg_Spec v)) in
  let captureToRecoverFrom := vst_CaptureToRecoverFrom (vrg_Status v) in
  let number := (1 - default 0 (kc_Number <$> captureToRecoverFrom))%Z in
  let '(pathName, capturePathName, namePrefix) := kubeObjectsCapturePathNamesAndNamePrefix v number in
  get? requests := rm_ProtectRequestsGet vme_veleroNamespaceName (OwnerLabels (vrg_Meta v))
  then e => (kubeObjectsCaptureStatusFalse "KubeObjectsCaptureRequestsQueryError" (error_text e);; requeue);
  match requests with
  | request :: _ =>
      kubeObjectsCaptureStartOrResume number pathName capturePathName namePrefix interval (rq_Generation request)
        (RequestsMapKeyedByName requests)
  | [] =>
      updated ← isProtectedVMsListUpdated;
      delayed ← (if (updated : bool) then mret false
                 else now ← vnow;
                      mret (match captureToRecoverFrom with
                            | Some c => bool_decide (0 < interval - (now - kc_StartTime c))%Z
                            | None => false
                            end));
      if (delayed : bool) then kubeObjectsCaptureStatusTrue VRGConditionReasonUploaded kubeObjectsClusterDataProtectedTrueMessage
      else
        accessors ← gets v_s3StoreAccessors;
        err? kubeObjectsCapturesDelete accessors capturePathName then _e => mret tt;
        kubeObjectsCaptureStartOrResume number pathName capturePathName namePrefix interval (om_Generation (vrg_Meta v)) ∅
  end.

Definition kubeObjectsProtect : VOp unit :=
  v ← gets v_instance;
  if kubeObjectProtectionDisabled v then mret tt
  else
    accessors ← gets v_s3StoreAccessors;
    if bool_decide (accessors = []) then requeue
    else
      (if vst_CaptureToRecoverFrom (vrg_Status v) =? None
       then kubeObjectsCaptureStatusFalse VRGConditionReasonUploading "Kube objects initial capture in-progress" else mret tt);;
      kubeObjectsCaptureStartOrResumeOrDelay.

Definition kubeObjectsProtectPrimary : VOp unit :=
  v ← gets v_instance;
  if vsp_DryRun (vrg_Spec v) || vsp_PrepareForFinalSync (vrg_Spec v) || vsp_RunFinalSync (vrg_Spec v) then mret tt
  else kubeObjectsProtect.

(** ** Recovery *)

Definition getVRGFromS3Profile (s3ProfileName : string) : VOp (VolumeReplicationGroup + GoError) :=
  v ← gets v_instance;
  t ← vtick;
  match kenv_ObjectStore t s3ProfileName with
  | Some e => mret (inr (Errorf ("object store inaccessible for profile " +:+ s3ProfileName +:+ ": " +:+ error_text e) None))
  | None =>
      let failed := λ text, mret (inr (Errorf ("vrg download failed, vrg namespace:" +:+ om_Namespace (vrg_Meta v) +:+
            ", vrg name: " +:+ om_Name (vrg_Meta v) +:+ ", s3Profile: " +:+ s3ProfileName +:+ ", error: " +:+ text) None)) in
      get? vrg := DownloadObject kenv_json_VRG s3ProfileName (vrg_key v) then e => failed (error_text e);
      mret (inl vrg)
  end.

(** The name of the recovery of a step, with its request if there is one. *)
Definition recover_name (v : VolumeReplicationGroup) (groupNumber : nat) : string :=
  kubeObjectsRecoverName (kubeObjectsRecoverNamePrefix v) groupNumber.

(** The creation in [getRecoverOrProtectRequest]. *)
Definition submit_recover (captureRequests : gmap string Request) (s : string) (captureNumber : Z) (groupNumber : nat)
    (recoverGroup : RecoverSpec) (labels : gmap string string) : VOp (option RequestError) :=
  v ← gets v_instance;
  let '(pathName, _, captureNamePrefix) := kubeObjectsCapturePathNamesAndNamePrefix v captureNumber in
  let captureName := kubeObjectsCaptureName captureNamePrefix (rs_BackupName recoverGroup) s in
  rm_RecoverRequestCreate (mkStorageLocation s pathName) recoverGroup vme_veleroNamespaceName captureName
    (captureRequests !! captureName) (recover_name v groupNumber) labels ∅.

(** A restore of nothing is retried where there was something to restore. *)
Definition handleRecoverRequestStatus (request : Request) : VOp (option RequestError) :=
  v ← gets v_instance;
  match rq_Status request with
  | Some ZeroResources =>
      if isSingleGroupRestore v then
        _err ← rq_Deallocate request;
        requeue;;
        mret (Some (Processing "restore completed with 0 resources when resources were expected to be restored - retrying restore"))
      else mret None
  | status => mret status
  end.

Definition handleRecoverError (err : RequestError) (request : option Request) : VOp GoError :=
  match err with
  | Processing state => mret (Errorf state None)
  | _ =>
      (match request with Some r => _err ← rq_Deallocate r; mret tt | None => mret tt end);;
      requeue;;
      mret (Errorf (request_error_text err) None)
  end.

Definition executeRecoverGroup (s : string) (captureNumber : Z) (captureRequests recoverRequests : gmap string Request)
    (labels : gmap string string) (groupNumber : nat) (rg : RecoverSpec) : VOp (option GoError) :=
  v ← gets v_instance;
  let rg := if hasStaticIPTranslation v && (rs_ResourceModifier rg =? None)
            then rg <| rs_ResourceModifier := Some (resourceModifierConfigMapName v) |> else rg in
  match recoverRequests !! recover_name v groupNumber with
  | None =>
      err ← submit_recover captureRequests s captureNumber groupNumber rg labels;
      match err with
      | None => mret (errorf "kube objects group recover request submitted")
      | Some e => e ← handleRecoverError e None; mret (Some e)
      end
  | Some request =>
      err ← handleRecoverRequestStatus request;
      match err with
      | None => mret None
      | Some e => e ← handleRecoverError e (Some request); mret (Some e)
      end
  end.

Definition recover_step (group : RecoverSpec) (groupNumber : nat) (failOn s : string) (captureNumber : Z)
    (captureRequests recoverRequests : gmap string Request) (labels : gmap string string) (flags : HookFlags)
    : VOp (HookFlags * bool * option GoError) :=
  if ks_IsHook (rs_Spec group) then kubeObjectsHookExecute (ks_Hook (rs_Spec group)) failOn (is_essential (rs_Spec group)) flags
  else
    err ← executeRecoverGroup s captureNumber captureRequests recoverRequests labels groupNumber group;
    mret (flags, false, err).

Fixpoint recover_steps (groups : list RecoverSpec) (groupNumber : nat) (failOn s : string) (captureNumber : Z)
    (captureRequests recoverRequests : gmap string Request) (labels : gmap string string) (n : StepCounts) : VOp (bool + GoError) :=
  match groups with
  | [] =>
      kubeObjectsHookWorkflowResult (st_hooks n) "Recovery hooks executed successfully";;
      mret (inl (if bool_decide (st_essentialStepsCount n = 0) then false else st_allEssentialStepsFailed n))
  | group :: groups' =>
      let continue := λ n, recover_steps groups' (S groupNumber) failOn s captureNumber captureRequests recoverRequests labels n in
      let essential := is_essential (rs_Spec group) in
      r ← recover_step group groupNumber failOn s captureNumber captureRequests recoverRequests labels (st_hooks n);
      let '(flags, skip, err) := r in
      let n := n <| st_hooks := flags |> in
      if (skip : bool) then continue n
      else match err with
           | Some e => if shouldStopExecution failOn essential then mret (inr e) else continue (step_failed essential n)
           | None => continue (step_done essential n)
           end
  end.

Definition executeRecoverSteps (s : string) (captureNumber : Z) (captureRequests recoverRequests : gmap string Request)
    : VOp (bool + GoError) :=
  v ← gets v_instance;
  elements ← gets v_recipeElements;
  recover_steps (re_RecoverWorkflow elements) 0 (re_RestoreFailOn elements) s captureNumber captureRequests recoverRequests
    (OwnerLabels (vrg_Meta v)) first_counts.

Definition get_requests (get : string → gmap string string → VOp (list Request + GoError)) (what : string)
    : VOp (gmap string Request + GoError) :=
  v ← gets v_instance;
  get? l := get vme_veleroNamespaceName (OwnerLabels (vrg_Meta v))
  then e => mret (inr (Errorf ("kube objects " +:+ what +:+ " requests query error: " +:+ error_text e) None));
  mret (inl (RequestsMapKeyedByName l)).
Definition getCaptureRequests : VOp (gmap string Request + GoError) := get_requests rm_ProtectRequestsGet "capture".
Definition getRecoverRequests : VOp (gmap string Request + GoError) := get_requests rm_RecoverRequestsGet "recover".

Definition kubeObjectsRecoveryStartOrResume (s : string) (captureNumber : Z) : VOp (option GoError) :=
  get? captureRequests := getCaptureRequests then e => mret (Some e);
  get? recoverRequests := getRecoverRequests then e => mret (Some e);
  v ← gets v_instance;
  accessors ← gets v_s3StoreAccessors;
  if negb (bool_decide (s ∈ accessors)) then
    mret (errorf ("kube objects recovery couldn't build s3StoreAccessor: s3StoreProfile (" +:+ s +:+ ") not found in s3StoreAccessor list"))
  else
    get? allEssentialStepsFailed := executeRecoverSteps s captureNumber captureRequests recoverRequests
    then e => (requeue;; mret (wrapf ("kube objects recovery error: " +:+ error_text e) e));
    if (allEssentialStepsFailed : bool) then requeue;; mret (errorf "workflow execution failed during restore")
    else
      err? rm_RecoverRequestsDelete vme_veleroNamespaceName (OwnerLabels (vrg_Meta v)) then e => (requeue;; mret (Some e));
      mret None.

Definition kubeObjectsRecoverFromS3 (s : string) : VOp (option GoError) :=
  get? sourceVrg := getVRGFromS3Profile s then e => mret (errorf ("kube objects source VRG get error: " +:+ error_text e));
  match vst_CaptureToRecoverFrom (vrg_Status sourceVrg) with
  | None => mret (errorf "kube objects source VRG capture-to-recover-from identifier nil: <nil>")
  | Some id => set_capture (Some id);; kubeObjectsRecoveryStartOrResume s (kc_Number id)
  end.

Fixpoint recover_from_stores (accessors : list string) : VOp (option GoError) :=
  match accessors with
  | [] => requeue;; mret (errorf "kube objects restore error, will retry")
  | s :: accessors' =>
      err ← kubeObjectsRecoverFromS3 s;
      match err with Some _ => recover_from_stores accessors' | None => mret None end
  end.

Definition kubeObjectsRecover : VOp (option GoError) :=
  v ← gets v_instance;
  if kubeObjectProtectionDisabled v then mret None
  else if vsp_Action (vrg_Spec v) =? VRGActionNone then mret None
  else
    accessors ← gets v_s3StoreAccessors;
    if bool_decide (accessors = []) then requeue;; mret (errorf "no S3Profiles configured")
    else if bool_decide (NoS3Store ∈ vsp_S3Profiles (vrg_Spec v)) then mret None
    else
      r ← (if hasStaticIPTranslation v then ensureResourceModifierCM else mret (false, None));
      (if (r.1 : bool) then requeue else mret tt);;
      match r.2 with
      | Some e => requeue;; mret (Some e)
      | None => recover_from_stores accessors
      end.

(** ** Deletion *)

(** Whether to requeue, and the error. *)
Definition kubeObjectsProtectionDelete : VOp (bool * option GoError) :=
  v ← gets v_instance;
  if kubeObjectProtectionDisabled v then mret (false, None)
  else
    err? rm_RecoverRequestsDelete vme_veleroNamespaceName (OwnerLabels (vrg_Meta v)) then e => mret (true, Some e);
    err? rm_ProtectBSLsDelete vme_veleroNamespaceName (OwnerLabels (vrg_Meta v)) then e => mret (true, Some e);
    mret (false, None).

Fixpoint delete_backups (backups : list Backup) : VOp nat :=
  match backups with
  | [] => mret 0
  | b :: backups' =>
      err ← Delete_backup (om_Namespace (bk_Meta b), om_Name (bk_Meta b));
      n ← delete_backups backups';
      mret (match err with Some e => if IsNotFound e then n else S n | None => n end)
  end.

Definition deleteVeleroBackups (backups : list Backup) : VOp (option GoError) :=
  errorCount ← delete_backups backups;
  mret (if bool_decide (0 < errorCount)
        then errorf ("failed to delete " +:+ pretty (Z.of_nat errorCount) +:+ " out of " +:+
                     pretty (Z.of_nat (length backups)) +:+ " backup CRs")
        else None).

Definition cleanupVeleroBackupsForSecondary : VOp (option GoError) :=
  v ← gets v_instance;
  if kubeObjectProtectionDisabled v then mret None
  else
    get? backups := list_labelled k_backups bk_Meta vme_veleroNamespaceName (OwnerLabels (vrg_Meta v)) then e => mret (Some e);
    if bool_decide (backups = []) then mret None else deleteVeleroBackups backups.
End kube_objects.
