(* ===== verification/VRGReconcile.v ===== *)
(** * The VRG controller

    internal/controller/volumereplicationgroup_controller.go: one reconcile of a VRG, from
    the read of it to the result: its validation, the processing as primary, as secondary
    and on deletion.

    VolSync's handler is an interface, see VolSyncReconcile, and so is the manager of
    requests to capture Kubernetes objects, see Velero.  Of a result only [Requeue] is
    kept, not a delay. *)

From Stdlib Require Import ZArith.
From stdpp Require Import pretty.
From S2P Require Import Prelude Meta Names Conditions Api VRGStatus PolicyPeers Events Telemetry Workflows Volumes VolRepStatus VolRepClasses.
From S2P Require Import VolRep ObjectStores VolGroupRep VolRepReconcile VolRepRestore VRGAggregate ClaimSelection VirtualMachines VolSyncReconcile Velero KubeObjects.
#[local] Open Scope record_scope.

Definition vrgFinalizerName : string := "volumereplicationgroups.ramendr.openshift.io/vrg-protection".
Definition EventReasonValidationFailed : string := "FailedValidation".
Definition EventReasonPrimarySuccess : string := "PrimaryVRGProcessSuccess".
Definition EventReasonSecondarySuccess : string := "SecondaryVRGProcessSuccess".
Definition EventReasonDeleteSuccess : string := "VRGDeleteSuccess".

(** The read of the configuration at a tick, and whether Velero's resources are watched. *)
Class LoopEnv := {
  le_ConfigMapGet : nat → option GoError;
  le_veleroCRsAreWatched : bool;
}.

Definition fmt_bool (b : bool) : string := if b then "true" else "false".

Definition validateVRGState (v : VolumeReplicationGroup) : option GoError :=
  match vsp_ReplicationState (vrg_Spec v) with
  | Primary | Secondary => None
  | ReplicationUnset =>
      errorf ("invalid or unknown replication state detected (deleted " +:+ fmt_bool (ResourceIsDeleted (vrg_Meta v)) +:+
              ", desired replicationState " +:+ ReplicationState_string (vsp_ReplicationState (vrg_Spec v)) +:+ ")")
  end.

Definition validateVRGMode (v : VolumeReplicationGroup) : option GoError :=
  if (vsp_Sync (vrg_Spec v) =? None) && (vsp_Async (vrg_Spec v) =? None)
  then errorf ("neither of sync or async mode is enabled (deleted " +:+ fmt_bool (ResourceIsDeleted (vrg_Meta v)) +:+ ")")
  else None.

Section vrg.
Context `{VolEnv} `{VRGConfig} `{VMEnv} `{VSHandler} `{RequestsManager} `{KubeEnv} `{ListCodec} `{LoopEnv}.

Definition update_conditions_and_status : VOp bool :=
  again ← gets v_requeue; updateVRGConditionsAndStatus validateVMsForStandaloneProtection again.

(** ** Errors *)

Definition errorConditionLogAndSet (err : GoError) (msg : string)
    (conditionSet : Z → list Condition → Z → string → list Condition) : VOp unit :=
  modify_conditions (λ now v conditions,
    conditionSet now conditions (om_Generation (vrg_Meta v)) (msg +:+ ": " +:+ error_text err)).

Definition dataError (err : GoError) (msg : string) (again : bool) : VOp bool :=
  errorConditionLogAndSet err msg setVRGDataErrorCondition;; updateVRGStatus again.

Definition clusterDataError (err : GoError) (msg : string) (again : bool) : VOp bool :=
  errorConditionLogAndSet err msg setVRGClusterDataErrorCondition;; updateVRGStatus again.

Definition invalid (err : GoError) (msg : string) (again : bool) : VOp bool :=
  report_event EventTypeWarning EventReasonValidationFailed (error_text err);;
  dataError err msg again.

(** ** The finalizer of the VRG *)

(** [update] keeps the status in memory, which [Update] replaces. *)
Definition update_vrg_keeping_status : VOp (option GoError) :=
  v ← gets v_instance;
  err? Update_vrg then e => mret (Some e);
  modify_vrg (λ v', v' <| vrg_Status := vrg_Status v |>);;
  mret None.

Definition addFinalizer (finalizer : string) : VOp (option GoError) :=
  v ← gets v_instance;
  if ContainsFinalizer (vrg_Meta v) finalizer then mret None
  else
    modify_vrg (λ v, v <| vrg_Meta ::= λ m, m <| om_Finalizers ::= λ l, l ++ [finalizer] |> |>);;
    err? update_vrg_keeping_status
    then e => mret (wrapf ("failed to add finalizer to VolumeReplicationGroup resource (" +:+ vrg_nn v +:+ ")") e);
    mret None.

Definition removeFinalizer (finalizer : string) : VOp (option GoError) :=
  v ← gets v_instance;
  modify_vrg (λ v, v <| vrg_Meta ::= λ m, RemoveFinalizer m finalizer |>);;
  err? update_vrg_keeping_status
  then e => mret (wrapf ("failed to remove finalizer from VolumeReplicationGroup resource (" +:+ vrg_nn v +:+ ")") e);
  mret None.

(** ** Kubernetes objects *)

Definition resetKubeObjectsCaptureStatusIfRequired : VOp unit :=
  v ← gets v_instance;
  if kubeObjectProtectionDisabled v then kubeObjectsCaptureStatusNil
  else if vsp_PrepareForFinalSync (vrg_Spec v) || vsp_RunFinalSync (vrg_Spec v) then mret tt
  else kubeObjectsCaptureStatusFalse "KubeObjectsCaptureNotStarted" "Kube objects capture has not started".

(** ** Claims that are no longer selected *)

Fixpoint unprotect_deselected (pvcsOwned : list PersistentVolumeClaim) (selected deselected : gset NamespacedName)
    : VOp (gset NamespacedName) :=
  match pvcsOwned with
  | [] => mret deselected
  | pvc :: pvcsOwned' =>
      if bool_decide (pvc_nn pvc ∈ selected) then unprotect_deselected pvcsOwned' selected deselected
      else
        (if ContainsFinalizer (pvc_Meta pvc) PvcVRFinalizerProtected then pvcUnprotectVolRep pvc else pvcUnprotectVolSync pvc);;
        unprotect_deselected pvcsOwned' selected ({[pvc_nn pvc]} ∪ deselected)
  end.

Definition pvcsDeselectedUnprotect : VOp (option GoError) :=
  v ← gets v_instance;
  if negb ((vsp_ReplicationState (vrg_Spec v) =? Primary) && negb (vsp_PrepareForFinalSync (vrg_Spec v)) &&
           negb (vsp_RunFinalSync (vrg_Spec v))) then mret None
  else
    get? pvcsOwned := listPVCsOwnedByVrg then e => mret (Some e);
    pvcsVr ← claims_of v_volRepPVCs;
    pvcsVs ← claims_of v_volSyncPVCs;
    deselected ← unprotect_deselected pvcsOwned (list_to_set (pvc_nn <$> pvcsVr ++ pvcsVs)) ∅;
    cleanupProtectedPVCs deselected;;
    mret None.

(** ** As primary *)

(** The number of restored resources, and the error. *)
Definition clusterDataRestore : VOp (nat * option GoError) :=
  vs ← restorePVsAndPVCsForVolSync;
  match vs.2 with
  | Some e => mret (vs.1, wrapf ("failed to restore PV/PVC for VolSync (" +:+ error_text e +:+ ")") e)
  | None =>
      vr ← restorePVsAndPVCsForVolRep;
      let n := vs.1 + vr.1 in
      match vr.2 with
      | Some e => mret (n, wrapf ("failed to restore PV/PVC for VolRep (" +:+ error_text e +:+ ")") e)
      | None =>
          let msg := if bool_decide (n = 0) then "Nothing to restore"
                     else "Restored " +:+ pretty (Z.of_nat vs.1) +:+ " volsync PVs/PVCs and " +:+
                          pretty (Z.of_nat vr.1) +:+ " volrep PVs/PVCs" in
          err? restoreVGRsAndVGRCsForVolRep
          then e => mret (n, wrapf ("failed to restore VGR/VGRC for VolRep (" +:+ error_text e +:+ ")") e);
          modify_conditions (λ now v conditions,
            setVRGClusterDataReadyCondition now conditions (om_Generation (vrg_Meta v)) msg);;
          mret (n, None)
      end
  end.

Definition reconcileAsPrimary : VOp unit :=
  r ← reconcileVolSyncAsPrimary;
  (if (r.1 : bool) then requeue else mret tt);;
  reconcileVolRepsAsPrimary;;
  modify_vrg (λ v, if vsp_PrepareForFinalSync (vrg_Spec v)
                   then v <| vrg_Status ::= λ s, s <| vst_PrepareForFinalSyncComplete := r.2 |> |> else v);;
  v ← gets v_instance;
  again ← gets v_requeue;
  if negb again && IsVMRecipe (vsp_KubeObjectProtection (vrg_Spec v)) then
    err? validateVMsForStandaloneProtection then _e => requeue;
    mret tt
  else mret tt.

(** What follows once the data is ready. *)
Definition protect_kube_objects : VOp bool :=
  kubeObjectsProtectPrimary;;
  again ← gets v_requeue;
  if (again : bool) then update_conditions_and_status
  else
    vrgObjectProtect;;
    again ← gets v_requeue;
    if (again : bool) then update_conditions_and_status
    else
      report_event EventTypeNormal EventReasonPrimarySuccess "Primary Success";;
      update_conditions_and_status.

Definition process_ready_primary : VOp bool :=
  restore ← shouldRestoreKubeObjects;
  if (restore : bool) then
    err? kubeObjectsRecover
    then e => (errorConditionLogAndSet e "Failed to restore kube objects" setVRGKubeObjectsErrorCondition;;
               update_conditions_and_status);
    modify_conditions (λ now v conditions,
      setVRGKubeObjectsReadyCondition now conditions (om_Generation (vrg_Meta v)) "Kube objects restored");;
    requeue;;
    update_conditions_and_status
  else protect_kube_objects.

(** What follows once the cluster data is ready. *)
Definition process_restored_primary : VOp bool :=
  err? pvcsDeselectedUnprotect
  then e => (again ← gets v_requeue; dataError e "PVCs deselected unprotect failed" again);
  reconcileAsPrimary;;
  updateVRGDataReadyCondition;;
  v ← gets v_instance;
  if negb (isConditionDataReady v) then update_conditions_and_status else process_ready_primary.

Definition processAsPrimary : VOp bool :=
  v ← gets v_instance;
  (if hasGlobalVGRLabel v
   then setGlobalSecondaryCondition ConditionTrue VRGConditionReasonUnused "Not applicable when Primary" else mret tt);;
  resetKubeObjectsCaptureStatusIfRequired;;
  restore ← shouldRestoreClusterData;
  if (restore : bool) then
    requeue;;
    r ← clusterDataRestore;
    match r.2 with
    | Some e => again ← gets v_requeue; clusterDataError e "Failed to restore PVs/PVCs" again
    | None =>
        if bool_decide (r.1 ≠ 0) then update_conditions_and_status
        else modify (λ w, w <| v_requeue := false |>);; process_restored_primary
    end
  else process_restored_primary.

(** ** As secondary *)

(** Whether to requeue. *)
Definition ensureSecondaryState : VOp bool :=
  err? cleanupVeleroBackupsForSecondary then _e => mret true;
  HandleSecondaryConflictsAndCleanup.

Definition reconcileAsSecondary : VOp bool :=
  r1 ← ensureSecondaryState;
  r2 ← reconcileVolSyncAsSecondary;
  r3 ← reconcileVolRepsAsSecondary;
  r4 ← staticIPResourceModifierReconcile;
  mret (r4 || (r3 || (r2 || r1))).

Definition processAsSecondary : VOp bool :=
  modify_vrg (λ v, v <| vrg_Status ::= λ s, s <| vst_LastGroupSyncTime := None |> |>);;
  result ← reconcileAsSecondary;
  (if negb result then report_event EventTypeNormal EventReasonSecondarySuccess "Secondary Success" else mret tt);;
  reset ← resetInitialStatusAsSecondary;
  if (reset : bool) then requeue;; mret true
  else updateVRGConditionsAndStatus validateVMsForStandaloneProtection result.

(** ** On deletion *)

Definition reconcileVRsForDeletion : VOp unit :=
  pvcs ← gets v_volRepPVCs;
  pvcsUnprotectVolRep pvcs;;
  pvcs ← gets v_volSyncPVCs;
  pvcsUnprotectVolSync pvcs.

Definition deleteVRGHandleMode : VOp unit := reconcileVRsForDeletion.

(** The last steps, once the replication is gone. *)
Definition finalize_vrg : VOp bool :=
  r ← kubeObjectsProtectionDelete;
  match r.2 with
  | Some _ => mret r.1
  | None =>
      err? deleteResourceModifierCM then _e => mret true;
      v ← gets v_instance;
      err? (if vsp_ReplicationState (vrg_Spec v) =? Primary then deleteClusterDataInS3Stores else mret None)
      then _e => mret true;
      err? removeFinalizer vrgFinalizerName then _e => mret true;
      report_event EventTypeNormal EventReasonDeleteSuccess "Deletion Success";;
      mret false
  end.

Definition processForDeletion : VOp bool :=
  err? undoPVRetentionForVolSyncPVCs then _e => mret true;
  err? pvcsDeselectedUnprotect then _e => mret true;
  err? cleanupResources then _e => mret true;
  v ← gets v_instance;
  if negb (ContainsFinalizer (vrg_Meta v) vrgFinalizerName) then mret false
  else
    deleteVRGHandleMode;;
    again ← gets v_requeue;
    if (again : bool) then mret true
    else
      err? deleteLeftBehindPVs then _e => mret true;
      again ← (if hasGlobalVGRLabel v then deleteGlobalVGR else mret false);
      if (again : bool) then mret true else finalize_vrg.

(** ** The loop *)

Definition not_in_admin_namespace (v : VolumeReplicationGroup) : bool :=
  vrg_isDiscoveredApp v && (om_Namespace (vrg_Meta v) ≠? v_ramenOperandsNamespace).

(** A VRG whose claims are known. *)
Definition process_selected : VOp bool :=
  s3StoreAccessorsGet;;
  v ← gets v_instance;
  if ResourceIsDeleted (vrg_Meta v) then processForDeletion
  else
    err? addFinalizer vrgFinalizerName
    then e => dataError e "Failed to add finalizer to VolumeReplicationGroup" true;
    updateVRGAutoCleanupCondition;;
    v ← gets v_instance;
    if vsp_ReplicationState (vrg_Spec v) =? Primary then processAsPrimary else processAsSecondary.

Definition processVRG : VOp bool :=
  v ← gets v_instance;
  err? mret (validateVRGState v) then e => invalid e "VolumeReplicationGroup state is invalid" false;
  err? mret (validateVRGMode v) then e => invalid e "VolumeReplicationGroup mode is invalid" false;
  if not_in_admin_namespace v then
    invalid (Errorf "VolumeReplicationGroup is not allowed to protect namespaces" None)
      "VolumeReplicationGroup is not in the admin namespace" false
  else
    err? RecipeElementsGet then e => invalid e "Failed to get recipe" false;
    err? updatePVCList then e => invalid e "Failed to process list of PVCs to protect" true;
    process_selected.

(** [VRGInstance{...}] for the VRG that was read. *)
Definition new_instance (v : VolumeReplicationGroup) (w : Volumes) : Volumes :=
  w <| v_instance := v |> <| v_savedInstanceStatus := vrg_Status v |> <| v_pvcSelector := zero_selector |>
    <| v_recipe := None |> <| v_recipeElements := zero_elements |> <| v_pvcNamespaces := [] |> <| v_selectorShared := false |>
    <| v_heap := [] |> <| v_volRepPVCs := [] |> <| v_volSyncPVCs := [] |>
    <| v_replClassList := [] |> <| v_grpReplClassList := [] |> <| v_vrcUpdated := false |>
    <| v_storageClassCache := ∅ |> <| v_vacCache := ∅ |> <| v_snapshotClassList := None |>
    <| v_objectStorers := ∅ |> <| v_s3StoreAccessors := [] |> <| v_workloadStatus := "" |>
    <| v_vrgObjectProtected := None |> <| v_kubeObjectsProtected := None |> <| v_requeue := false |>.

(** Requeue, and the error. *)
Definition VRG_Reconcile (name namespace : string) : VOp (bool * option GoError) :=
  let request := namespace +:+ "/" +:+ name in
  get? v := (err? vapi_err then e => mret (inr e);
             vrgs ← gets k_vrgs;
             mret (match find_first (λ o, (om_Name (vrg_Meta o) =? name) && (om_Namespace (vrg_Meta o) =? namespace)) vrgs with
                   | Some v => inl v
                   | None => inr (absent name)
                   end))
  then e => mret (false, if IsNotFound e then None
                         else wrapf ("failed to reconcile VolumeReplicationGroup (" +:+ request +:+ "), " +:+ error_text e) e);
  t ← vtick;
  err? mret (le_ConfigMapGet t) then e => mret (false, wrapf ("failed to get Ramen configmap: " +:+ error_text e) e);
  if vrgInAdminNamespace v && negb le_veleroCRsAreWatched then
    mret (false, errorf ("VRG {" +:+ vrg_nn v +:+ "} with kube object protection doesn't work if velero/oadp is not installed. " +:+
                         "Please install velero/oadp and restart the operator"))
  else
    ensureExcludedResourcesCM ke_Disabled;;
    modify (new_instance v);;
    modify_vrg vrgStatusPvcNamespacesSetIfUnset;;
    modify_conditions (λ now v conditions,
      setVRGInitialCondition now conditions (om_Generation (vrg_Meta v)) "Initializing VolumeReplicationGroup");;
    again ← processVRG;
    mret (again, None).
End vrg.
