(* ===== verification/VolScenario.v ===== *)
(** * A managed cluster to evaluate on

    A VRG with one replicated claim, its volume and its VolumeReplication, on a cluster
    where no call fails, for the witnesses of the theorems on volumes. *)

From Stdlib Require Import ZArith.
From S2P Require Import Prelude Meta Names Conditions Api VRGStatus PolicyPeers Events Workflows Volumes VolRepStatus VolRepClasses.
From S2P Require Import VolRep.
#[local] Open Scope record_scope.

Definition default_vrgconfig : VRGConfig := {|
  v_ramenOperatorNamespace := "ramen-system";
  v_ramenOperandsNamespace := "ramen-ops";
  v_VolumeUnprotectionEnabled := true;
|}.

Definition the_condition (type : string) (status : ConditionStatus) (reason : string) : Condition :=
  mkCondition type status 1 0 reason "m".

(** The entry of the claim in the VRG's status. *)
Definition the_entry : ProtectedPVC :=
  new_protected_pvc "app" "data" <| pp_Conditions :=
    [the_condition VRGConditionTypeDataReady ConditionTrue VRGConditionReasonReplicated;
     the_condition VRGConditionTypeDataProtected ConditionTrue VRGConditionReasonDataProtected] |>
    <| pp_LastSyncTime := Some 7%Z |> <| pp_LastSyncBytes := Some 4096%Z |>.

Definition the_async : VRGAsyncSpec := mkVRGAsyncSpec zero_selector zero_selector zero_selector "5m" [].

Definition the_vrg (state : ReplicationState) (action : VRGAction) : VolumeReplicationGroup :=
  mkVolumeReplicationGroup "VolumeReplicationGroup" "ramendr.openshift.io/v1alpha1"
    (named_meta "vrg" "app" <| om_Generation := 1%Z |> <| om_UID := "vrg-uid" |>)
    (zero_vrgspec <| vsp_ReplicationState := state |> <| vsp_Action := action |> <| vsp_Async := Some the_async |>
                  <| vsp_S3Profiles := ["s3"] |>)
    (zero_vrgstatus <| vst_ProtectedPVCs := [the_entry] |>).

Definition the_pvc : PersistentVolumeClaim :=
  mkPVC (named_meta "data" "app" <| om_Finalizers := [PvcVRFinalizerProtected] |>
           <| om_Annotations := {[pvcVRAnnotationProtectedKey := pvcVRAnnotationProtectedValue]} |>)
    (mkPVCSpec "pv-1" (Some "rbd") ["ReadWriteOnce"] "1Gi" None None) ClaimBound 0.

Definition the_pv : PersistentVolume :=
  mkPV (named_meta "pv-1" "")
    (mkPVSpec ReclaimDelete (Some (mkObjectReference "PersistentVolumeClaim" "app" "data" "u" "v1" "3")) "rbd"
       (Some (mkCSI "rbd.csi" "handle-1" "ext4" ∅ None None None None None)) ["ReadWriteOnce"] None) VolumeBound.

(** A codec of the volume and the claim, by their names; other objects are encoded, but
    not decoded.  A closed writer has put a mark before the text. *)
Definition calm_json (x : S3Object) : string + GoError :=
  inl (match x with
       | S3PV pv => "PV " +:+ om_Name (pv_Meta pv)
       | S3PVC pvc => "PVC " +:+ om_Namespace (pvc_Meta pvc) +:+ "/" +:+ om_Name (pvc_Meta pvc)
       | S3VGR _ => "VGR"
       | S3VGRC _ => "VGRC"
       | S3VRG vrg => "VRG " +:+ om_Name (vrg_Meta vrg)
       end).
Definition calm_decode {A} (name : string) (x : A) (stream : GzipStream) : A + GoError :=
  match stream.2 with
  | Some e => inr e
  | None => if stream.1 =? name then inl x else inr (Errorf "invalid character" None)
  end.
Definition no_decode {A} (stream : GzipStream) : A + GoError := inr (Errorf "invalid character" None).

Definition gzip_marked (g : GzipWriter) : string := (if gw_closed g then "C" else "O") +:+ gw_text g.
Definition gunzip_marked (bytes : string) : GzipStream :=
  match bytes with
  | String c text => if String c "" =? "C" then (text, None) else ("", Some (Errorf "unexpected EOF" None))
  | EmptyString => ("", Some (Errorf "EOF" None))
  end.
Definition gzip_header (bytes : string) : option GoError :=
  match bytes with EmptyString => errorf "EOF" | _ => None end.

Program Definition calm_volenv : VolEnv := {|
  kenv_now := Z.of_nat;
  kenv_api_err := λ _, None;
  kenv_resourceVersion := λ _, "1";
  kenv_hash := pvcs_VolumeName;
  kenv_storageRequest := λ _, 0%Z;
  kenv_ObjectStore := λ _ _, None;
  kenv_s3_err := λ _, None;
  kenv_s3_page := λ _, 0;
  kenv_json := calm_json;
  kenv_json_PV := calm_decode "PV pv-1" the_pv;
  kenv_json_PVC := calm_decode "PVC app/data" the_pvc;
  kenv_json_VGR := no_decode;
  kenv_json_VGRC := no_decode;
  kenv_json_VRG := no_decode;
  kenv_gzip := gzip_marked;
  kenv_gzip_Close := λ _, None;
  kenv_gzip_NewReader := gzip_header;
  kenv_gunzip := gunzip_marked;
  kenv_gunzip_Close := λ _, None;
  kenv_range := λ _ m, map_to_list m;
  kenv_range_keys := λ _ s, elements s;
  kenv_LabelSelectorAsSelector := λ s, inl (λ labels, bool_decide (ls_MatchLabels s ⊆ labels));
|}.
Solve Obligations with done.

(** In sync as a secondary. *)
Definition the_vr (state : VRReplicationState) : VolumeReplication :=
  mkVR (named_meta "data" "app" <| om_Generation := 1%Z |>)
    (mkVRSpec "vrc" state ("PersistentVolumeClaim", "data") false)
    (mkVRStatus (if bool_decide (state = VRPrimary) then PrimaryState else SecondaryState)
       [the_condition VRConditionCompleted ConditionTrue "Demoted";
        the_condition VRConditionResyncing ConditionFalse "NotResyncing";
        the_condition VRConditionDegraded ConditionFalse "Healthy"] 1 (Some 7%Z) None None "").

Definition the_storageClass : StorageClass := mkStorageClass (named_meta "rbd" "") "rbd.csi" ∅.
Definition the_replicationClass : ReplicationClass :=
  mkReplicationClass (named_meta "vrc" "") "rbd.csi" {[ReplicationClassScheduleKey := "5m"]}.

Definition no_volumes (v : VolumeReplicationGroup) : Volumes :=
  mkVolumes ∅ ∅ ∅ ∅ ∅ ∅ [] [] ∅ ∅ [] [] ∅ [] ∅ ∅ ∅ ∅ ∅ ∅ ∅ ∅ ∅ ∅ [v] ∅ v (vrg_Status v) None zero_elements
    ["app"] true zero_selector [] [] [] [] [] false ∅ ∅ None ∅ [] None None ∅ [] None "" None None
    NewEventReporter false 0.

Definition the_volumes (state : ReplicationState) (action : VRGAction) (vr : VRReplicationState) : Volumes :=
  no_volumes (the_vrg state action)
    <| k_pvcs := {[("app", "data") := the_pvc]} |>
    <| k_pvs := {[("", "pv-1") := the_pv]} |>
    <| k_vrs := {[("app", "data") := the_vr vr]} |>
    <| k_storageClasses := {[("", "rbd") := the_storageClass]} |>
    <| k_vrClasses := [the_replicationClass] |>
    <| v_heap := [the_pvc] |>
    <| v_volRepPVCs := [0] |>.
