(* ===== verification/VRGAggregateSpec.v ===== *)
(** * What the state of a VRG says of its claims

    The hub relocates on the state a VRG reports.  The theorems relate the state, and the
    times and sizes of the last synchronisation, to the claims. *)

From Stdlib Require Import ZArith Lia.
From S2P Require Import Prelude Meta Names Conditions Api VRGStatus PolicyPeers Events Volumes VolRepStatus VolRepClasses.
From S2P Require Import VRGAggregate VolRep VolScenario.
#[local] Open Scope record_scope.

(** ** The last synchronisation *)

Lemma least_sync_time_some l m t :
  least_sync_time l (Some m) = Some t ↔
  (t ≤ m)%Z ∧ Forall (λ p, ∃ t', pp_LastSyncTime p = Some t' ∧ (t ≤ t')%Z) l ∧
  (t = m ∨ Exists (λ p, pp_LastSyncTime p = Some t) l).
Proof.
  revert m. induction l as [|p l IH]; intros m; simpl.
  { rewrite Forall_nil, Exists_nil. split; [intros [= ->]; split_and!; auto; lia|].
    intros (? & _ & [->|[]]). done. }
  rewrite Forall_cons, Exists_cons.
  destruct (pp_LastSyncTime p) as [s|]; [|split; [done|intros (_ & [(? & [=] & _) _] & _)]].
  transitivity (least_sync_time l (Some (Z.min s m)) = Some t).
  { case_bool_decide; [rewrite Z.min_l by lia|rewrite Z.min_r by lia]; done. }
  rewrite IH. split.
  - intros (? & ? & [->|?]); split_and!; eauto with lia. destruct (Z.min_dec s m) as [->| ->]; auto.
  - intros (? & [(? & [= <-] & ?) ?] & [->|[[= ->]|?]]); split_and!; auto; try lia; left; lia.
Qed.

Lemma least_sync_time_none l m :
  least_sync_time l (Some m) = None ↔ Exists (λ p, pp_LastSyncTime p = None) l.
Proof.
  revert m. induction l as [|p l IH]; intros m; simpl; [by rewrite Exists_nil|].
  rewrite Exists_cons. destruct (pp_LastSyncTime p) as [s|]; [|by split; auto].
  case_bool_decide; rewrite IH; naive_solver.
Qed.

(** the time of the last synchronisation of a group is the oldest one of its claims;
    there is none if there is no claim, or one that was never synchronised. *)
Theorem group_sync_time_exact v :
  match vst_LastGroupSyncTime (vrg_Status (updateVRGLastGroupSyncTime v)) with
  | Some t =>
      (∀ p, p ∈ vst_ProtectedPVCs (vrg_Status v) → ∃ t', pp_LastSyncTime p = Some t' ∧ (t ≤ t')%Z) ∧
      (∃ p, p ∈ vst_ProtectedPVCs (vrg_Status v) ∧ pp_LastSyncTime p = Some t)
  | None =>
      vst_ProtectedPVCs (vrg_Status v) = [] ∨
      ∃ p, p ∈ vst_ProtectedPVCs (vrg_Status v) ∧ pp_LastSyncTime p = None
  end.
Proof.
  simpl. destruct (vst_ProtectedPVCs (vrg_Status v)) as [|p l]; simpl; [by left|].
  destruct (pp_LastSyncTime p) as [s|] eqn:Ep; [|right; exists p; set_solver].
  destruct (least_sync_time l (Some s)) as [t|] eqn:E.
  - apply least_sync_time_some in E as (H1 & H2 & H3). rewrite Forall_forall in H2. split.
    + intros q [->|Hq]%elem_of_cons; [by exists s|by apply H2].
    + destruct H3 as [->|(q & ? & ?)%Exists_exists]; [exists p|exists q]; set_solver.
  - apply least_sync_time_none in E as (q & ? & ?)%Exists_exists. right. exists q. set_solver.
Qed.

(** *** Sizes *)

Definition sum (l : list Z) : Z := foldr Z.add 0%Z l.
Definition is_int64 (z : Z) : Prop := (- 2 ^ 63 ≤ z < 2 ^ 63)%Z.

Lemma int64_id z : is_int64 z → int64 z = z.
Proof. unfold is_int64, int64. intros ?. rewrite Z.mod_small by lia. lia. Qed.

Lemma int64_range z : is_int64 (int64 z).
Proof. unfold is_int64, int64. pose proof (Z.mod_pos_bound (z + 2 ^ 63) (2 ^ 64)). lia. Qed.

Lemma int64_add a b : int64 (int64 a + b) = int64 (a + b).
Proof.
  unfold int64. f_equal.
  replace ((a + 2 ^ 63) mod 2 ^ 64 - 2 ^ 63 + b + 2 ^ 63)%Z with ((a + 2 ^ 63) mod 2 ^ 64 + b)%Z by lia.
  rewrite Zplus_mod_idemp_l. f_equal. lia.
Qed.

Lemma add_bytes_from l t :
  foldl add_bytes (Some (int64 t)) l = Some (int64 (t + sum (omap pp_LastSyncBytes l))).
Proof.
  revert t. induction l as [|p l IH]; intros t; simpl; [by rewrite Z.add_0_r|].
  destruct (pp_LastSyncBytes p) as [b|]; simpl; [|apply IH].
  rewrite int64_add, IH. by rewrite Z.add_assoc.
Qed.

(** the size of the last synchronisation of a group is the sum of those of its claims,
    in 64-bit arithmetic: their sum as long as it fits, and none if no claim has one. *)
Theorem group_sync_bytes_exact v
    (Hint64 : ∀ p b, p ∈ vst_ProtectedPVCs (vrg_Status v) → pp_LastSyncBytes p = Some b → is_int64 b) :
  let sizes := omap pp_LastSyncBytes (vst_ProtectedPVCs (vrg_Status v)) in
  vst_LastGroupSyncBytes (vrg_Status (updateLastGroupSyncBytes v)) =
    (if sizes is [] then None else Some (int64 (sum sizes))) ∧
  (is_int64 (sum sizes) → int64 (sum sizes) = sum sizes).
Proof.
  intros sizes. split; [|apply int64_id]. subst sizes. simpl.
  induction (vst_ProtectedPVCs (vrg_Status v)) as [|p l IH]; simpl; [done|].
  destruct (pp_LastSyncBytes p) as [b|] eqn:E; simpl.
  - rewrite <- (int64_id b) at 1 by (eapply Hint64; [left|done]). by rewrite add_bytes_from.
  - apply IH. intros q c Hq. apply Hint64. by right.
Qed.

Lemma group_sync_bytes_exact_witness :
  vst_LastGroupSyncBytes (vrg_Status (updateLastGroupSyncBytes (the_vrg Secondary VRGActionRelocate))) = Some 4096%Z.
Proof.
  destruct (group_sync_bytes_exact (the_vrg Secondary VRGActionRelocate)) as [-> _]; [|reflexivity].
  intros p b ->%list_elem_of_singleton [= <-]. by vm_compute.
Defined.

(** ** The conditions of the claims *)

Definition entry_ready (v : VolumeReplicationGroup) (p : ProtectedPVC) : Prop :=
  ∃ c, FindCondition (pp_Conditions p) VRGConditionTypeDataReady = Some c ∧
       (hasGlobalVGRLabel v = true → cond_ObservedGeneration c = om_Generation (vrg_Meta v)) ∧
       cond_Reason c ∉ [VRGConditionReasonProgressing; VRGConditionReasonError; VRGConditionReasonErrorUnknown].

Definition entry_protected (p : ProtectedPVC) : Prop :=
  ∃ c, FindCondition (pp_Conditions p) VRGConditionTypeDataProtected = Some c ∧
       cond_Reason c ∉ [VRGConditionReasonReplicating; VRGConditionReasonReady; VRGConditionReasonError;
                        VRGConditionReasonErrorUnknown].

Lemma data_ready_of_true v l b :
  (data_ready_of v l b).1 = true ↔ b = true ∧ Forall (entry_ready v) l.
Proof.
  induction l as [|p l IH]; simpl; [rewrite Forall_nil; tauto|]. rewrite Forall_cons. unfold entry_ready at 1.
  destruct (FindCondition (pp_Conditions p) VRGConditionTypeDataReady) as [c|]; simpl;
    [|split; [done|naive_solver]].
  destruct (hasGlobalVGRLabel v); simpl; repeat case_bool_decide; simpl; rewrite ?IH; set_solver.
Qed.

Lemma data_protected_of_true l b r :
  (data_protected_of l b r).1 = true ↔ b = true ∧ Forall entry_protected l.
Proof.
  revert b r. induction l as [|p l IH]; intros b r; simpl; [rewrite Forall_nil; tauto|].
  rewrite Forall_cons. unfold entry_protected at 1.
  destruct (FindCondition (pp_Conditions p) VRGConditionTypeDataProtected) as [c|]; simpl;
    [|split; [done|naive_solver]].
  repeat case_bool_decide; simpl; rewrite ?IH; set_solver.
Qed.

(** An aggregate that is not false has every claim ready, or protected. *)
Lemma aggregate_ready v n :
  n ≠ 0 → cond_Status (aggregateVolRepDataReadyCondition v n) ≠ ConditionFalse →
  Forall (entry_ready v) (volrep_entries v).
Proof.
  intros Hn. unfold aggregateVolRepDataReadyCondition. rewrite bool_decide_eq_false_2 by done.
  destruct (data_ready_of _ _ _) as [b q] eqn:E. destruct b; [|by destruct q].
  intros _. by eapply (data_ready_of_true v _ _); rewrite E.
Qed.

Lemma aggregate_protected v n :
  n ≠ 0 → cond_Status (aggregateVolRepDataProtectedCondition v n) ≠ ConditionFalse →
  Forall entry_protected (volrep_entries v).
Proof.
  intros Hn. unfold aggregateVolRepDataProtectedCondition. rewrite bool_decide_eq_false_2 by done.
  destruct (data_protected_of _ _ _) as [b q] eqn:E. destruct b; [|by destruct q].
  intros _. by eapply (data_protected_of_true _ true false); rewrite E.
Qed.

(** ** Merging into the conditions of the VRG *)

Definition of_type (t : string) (subs : list (option Condition)) : Prop :=
  Forall (λ c, cond_Type c = t) (omap id subs).

Lemma merge_fold_type t m l :
  cond_Type m = t → t ≠ "" → Forall (λ c, cond_Type c = t) l →
  cond_Type (foldl (merge_step [VRGConditionReasonUnused]) m l) = t.
Proof.
  intros Hm Ht. revert m Hm. induction l as [|c l IH]; intros m Hm; [done|]. rewrite Forall_cons. intros [Hc Hl].
  simpl. apply IH; [|done]. unfold merge_step. repeat case_bool_decide; simpl; done.
Qed.

Lemma merged_type t l :
  l ≠ [] → t ≠ "" → Forall (λ c, cond_Type c = t) l → cond_Type (mergedCondition l [VRGConditionReasonUnused]) = t.
Proof.
  destruct l as [|c l]; [done|]. rewrite Forall_cons. intros _ Ht [Hc Hl]. unfold mergedCondition. simpl. by apply merge_fold_type.
Qed.

Lemma of_type_cons t o l : of_type t (o :: l) ↔ (∀ c, o = Some c → cond_Type c = t) ∧ of_type t l.
Proof.
  unfold of_type. destruct o as [c|]; simpl; [rewrite Forall_cons|]; naive_solver.
Qed.

Section merge.
Context (t : string) (Ht : t ≠ "") (subs : list (option Condition)) (Hsubs : of_type t subs).

Lemma oldest_of_type s : Forall (λ c, cond_Type c = t) (oldest (with_status s subs)).
Proof.
  apply Forall_forall. intros c [Hc _]%oldest_elem. apply list_elem_of_filter in Hc as [_ Hc].
  by eapply Forall_forall in Hsubs.
Qed.

Lemma merged_status s ig : worst subs = Some s → cond_Status (mergedCondition (oldest (with_status s subs)) ig) = s.
Proof.
  intros E. assert (Forall (λ c, cond_Type c ≠ "") (omap id subs)) as Htyped.
  { eapply Forall_impl; [exact Hsubs|]. by intros c ->. }
  destruct (MergeConditions_worst_oldest (λ l c, (c, l)) [] ig subs s E Htyped) as (c & Hc & Hs & _).
  destruct (MergeConditions_pick (λ l c, (c, l)) [] ig subs s E) as [Hm _].
  rewrite Hm in Hc. by injection Hc as ->.
Qed.

(** What is merged, if anything is. *)
Lemma merge_cases now conds :
  worst subs = None ∧ (MergeConditions (SetStatusCondition now) conds [VRGConditionReasonUnused] subs).2 = conds ∨
  ∃ c, worst subs = Some (cond_Status c) ∧ cond_Type c = t ∧
       MergeConditions (SetStatusCondition now) conds [VRGConditionReasonUnused] subs = SetStatusCondition now conds c.
Proof.
  destruct (worst subs) as [s|] eqn:E.
  - right. destruct (MergeConditions_pick (SetStatusCondition now) conds [VRGConditionReasonUnused] subs s E) as [-> Hne].
    eexists. split_and!; [by rewrite merged_status| |done].
    apply merged_type; [by apply oldest_nil_iff|done|apply oldest_of_type].
  - left. split; [done|]. revert E. unfold worst, MergeConditions. rewrite merge_buckets.
    rewrite !(bool_decide_ext _ _ (oldest_nil_iff _)). by repeat case_bool_decide.
Qed.

Lemma merge_other now conds t' :
  t' ≠ t →
  FindCondition (MergeConditions (SetStatusCondition now) conds [VRGConditionReasonUnused] subs).2 t' =
  FindCondition conds t'.
Proof.
  intros Hne. destruct (merge_cases now conds) as [[_ ->]|(c & _ & Hc & ->)]; [done|].
  apply SetStatusCondition_other. by rewrite Hc.
Qed.

(** A sub-condition that is false makes the condition false. *)
Lemma merge_false now conds c :
  Some c ∈ subs → cond_Status c = ConditionFalse →
  ∃ c', FindCondition (MergeConditions (SetStatusCondition now) conds [VRGConditionReasonUnused] subs).2 t = Some c' ∧
        cond_Status c' = ConditionFalse.
Proof.
  intros Hin Hs. assert (worst subs = Some ConditionFalse) as Hw.
  { unfold worst. rewrite bool_decide_eq_true_2; [done|]. intros Hnil.
    eapply (not_elem_of_nil c). rewrite <- Hnil. apply list_elem_of_filter. split; [done|].
    apply list_elem_of_omap. by exists (Some c). }
  destruct (merge_cases now conds) as [[Hw' _]|(c0 & Hw' & Ht0 & ->)]; [congruence|].
  eexists. rewrite <- Ht0, SetStatusCondition_find. split; [done|]. rewrite Hw in Hw'. injection Hw' as Hw'.
  unfold SetStatusCondition. destruct (FindCondition conds (cond_Type c0)) as [e|]; simpl; [|done].
  rewrite Hw'. unfold overwrite_condition. repeat case_bool_decide; simpl in *; congruence.
Qed.
End merge.

(** ** From the claims to the state *)

Section summary.
Context `{VolEnv} `{VRGConfig}.

Abbreviation conds w := (vst_Conditions (vrg_Status (v_instance w))).

(** What the summary does not change: the VRG's spec and claims. *)
Record kept_claims (w w' : Volumes) : Prop := {
  kc_meta : vrg_Meta (v_instance w') = vrg_Meta (v_instance w);
  kc_spec : vrg_Spec (v_instance w') = vrg_Spec (v_instance w);
  kc_entries : vst_ProtectedPVCs (vrg_Status (v_instance w')) = vst_ProtectedPVCs (vrg_Status (v_instance w));
  kc_volrep : v_volRepPVCs w' = v_volRepPVCs w;
  kc_volsync : v_volSyncPVCs w' = v_volSyncPVCs w;
  kc_object : v_vrgObjectProtected w' = v_vrgObjectProtected w;
  kc_kube : v_kubeObjectsProtected w' = v_kubeObjectsProtected w;
}.
#[local] Instance kept_claims_order : PreOrder kept_claims.
Proof. split; [by split|]. intros ??? [] []. split; congruence. Qed.

(** Nor does it change a condition that is of another type than the one it sets. *)
Definition kept_condition (t : string) (w w' : Volumes) : Prop :=
  kept_claims w w' ∧ FindCondition (conds w') t = FindCondition (conds w) t.
#[local] Instance kept_condition_order t : PreOrder (kept_condition t).
Proof. split; [by split|]. intros ??? [] []. split; [by etransitivity|congruence]. Qed.

Lemma vnow_kept_condition t : preserves (kept_condition t) vnow.
Proof. by intros w. Qed.

Lemma logAndSetConditions_kept subs : preserves kept_claims (logAndSetConditions subs).
Proof. by intros w. Qed.

Lemma logAndSetConditions_other t t' subs :
  of_type t subs → t ≠ "" → t' ≠ t → preserves (kept_condition t') (logAndSetConditions subs).
Proof. intros Hs Ht Hne w. split; [by split|]. by apply (merge_other t). Qed.

Lemma logAndSetConditions_false t subs c w :
  of_type t subs → t ≠ "" → Some c ∈ subs → cond_Status c = ConditionFalse →
  ∃ c', FindCondition (conds (logAndSetConditions subs w).2) t = Some c' ∧ cond_Status c' = ConditionFalse.
Proof. intros. by apply (merge_false t) with c. Qed.

(** *** VolSync's part only reads *)

Definition only_ticks (w w' : Volumes) : Prop := ∃ n, w' = w <| v_tick := n |>.
#[export] Instance only_ticks_order : PreOrder only_ticks.
Proof.
  split; [intros w; exists (v_tick w); by destruct w|]. intros ? ? ? [n ->] [m ->]. by exists m.
Qed.

Lemma vapi_err_ticks : preserves only_ticks vapi_err.
Proof. intros w. by eexists. Qed.

Lemma kGet_ticks {A} (proj : Volumes → gmap NamespacedName A) wm n : preserves only_ticks (kGet proj wm n).
Proof. unfold kGet. repeat frame_step ltac:(apply vapi_err_ticks). Qed.

Lemma kList_ticks {A} (proj : Volumes → list A) f : preserves only_ticks (kList proj f).
Proof. unfold kList. repeat frame_step ltac:(apply vapi_err_ticks). Qed.

Lemma IsCRDInstalled_ticks n : preserves only_ticks (IsCRDInstalled n).
Proof. unfold IsCRDInstalled. repeat frame_step ltac:(apply vapi_err_ticks). Qed.

Lemma IsRSDataProtected_ticks n ns : preserves only_ticks (IsRSDataProtected n ns).
Proof. unfold IsRSDataProtected. repeat frame_step ltac:(apply kGet_ticks). Qed.

Lemma volsync_protected_ticks l n : preserves only_ticks (volsync_protected l n).
Proof.
  revert n. induction l as [|p l IH]; intros n; simpl; [by apply preserves_ret; apply _|].
  repeat frame_step ltac:(first [apply IH | apply IsRSDataProtected_ticks]).
Qed.

Lemma buildDataProtectedCondition_ticks : preserves only_ticks buildDataProtectedCondition.
Proof. unfold buildDataProtectedCondition, claims_of. repeat frame_step ltac:(apply volsync_protected_ticks). Qed.

Lemma buildDataProtectedCondition_type w :
  cond_Type (buildDataProtectedCondition w).1 = VRGConditionTypeDataProtected.
Proof.
  unfold buildDataProtectedCondition, claims_of. rewrite !run_bind. cbn [gets fst snd].
  repeat (case_match; [done|]). rewrite run_bind. cbn [fst snd mret M_ret]. by case_match.
Qed.

Lemma ticks_kept t w w' : only_ticks w w' → kept_condition t w w'.
Proof. intros [n ->]. by split. Qed.

(** *** The summary *)

Context (vmErr : VOp (option GoError)) (Hvm : ∀ t, preserves (kept_condition t) vmErr).

(** The conditions of the VRG object and of the Kubernetes objects are of their type. *)
Definition object_conditions (w : Volumes) : Prop :=
  of_type VRGConditionTypeClusterDataProtected [v_vrgObjectProtected w; v_kubeObjectsProtected w].

Lemma ClusterDataProtected_type v n :
  n ≠ 0 → cond_Type (aggregateVolRepClusterDataProtectedCondition v n) = VRGConditionTypeClusterDataProtected.
Proof.
  intros Hn. unfold aggregateVolRepClusterDataProtectedCondition. rewrite (bool_decide_eq_false_2 (n = 0)) by done.
  by repeat case_match.
Qed.

Lemma conflict_type v err l c :
  aggregateVRGNoClusterDataConflictCondition v err l = Some c → cond_Type c = VRGConditionTypeNoClusterDataConflict.
Proof.
  unfold aggregateVRGNoClusterDataConflictCondition, aggregateVMNoClusterDataConflictCondition, clusterDataConflict,
    aggregateVolRepClusterDataConflictCondition, validateSecondaryPVCConflictForVolRep,
    PrioritizePrimaryClusterDataConflictCondition.
  intros Hc. repeat (case_match; simplify_eq; simpl; try done).
Qed.

Lemma cleanup_type v n c :
  aggregateVRGAutoCleanupCondition v n = Some c → cond_Type c = VRGConditionTypeAutoCleanup.
Proof.
  unfold aggregateVRGAutoCleanupCondition. intros Hc.
  repeat (case_match; simplify_eq; simpl; try done); by eapply FindCondition_type.
Qed.

Lemma modify_vrg_kept_condition t f :
  (∀ v, vrg_Meta (f v) = vrg_Meta v ∧ vrg_Spec (f v) = vrg_Spec v ∧
        vst_ProtectedPVCs (vrg_Status (f v)) = vst_ProtectedPVCs (vrg_Status v) ∧
        vst_Conditions (vrg_Status (f v)) = vst_Conditions (vrg_Status v)) →
  preserves (kept_condition t) (modify_vrg f).
Proof. intros Hf w. destruct (Hf (v_instance w)) as (? & ? & ? & Hc). split; [by split|]. simpl. by rewrite Hc. Qed.

Lemma log_one t (c : option Condition) t' :
  (∀ x, c = Some x → cond_Type x = t') → t' ≠ "" → t ≠ t' → preserves (kept_condition t) (logAndSetConditions [c]).
Proof.
  intros Hc. apply logAndSetConditions_other. unfold of_type. destruct c as [x|]; simpl; [|done].
  repeat constructor. by apply Hc.
Qed.

Lemma destination_type v c :
  aggregateVolRepDestinationInfoAvailableCondition v = Some c → cond_Type c = VRGConditionTypeDestinationInfoAvailable.
Proof. unfold aggregateVolRepDestinationInfoAvailableCondition. intros Hc. by repeat (case_match; simplify_eq). Qed.

Lemma healthy_type v c :
  aggregateVolRepReplicationHealthyCondition v = Some c → cond_Type c = VRGConditionTypeReplicationHealthy.
Proof. unfold aggregateVolRepReplicationHealthyCondition. intros Hc. by repeat (case_match; simplify_eq). Qed.

Lemma kept_then {A B} t (m : VOp A) (f : A → VOp B) w :
  kept_condition t w (m w).2 → (∀ a, preserves (kept_condition t) (f a)) → kept_condition t w ((m ≫= f) w).2.
Proof. intros Hm Hf. rewrite run_bind. etransitivity; [exact Hm|apply Hf]. Qed.

(** After the two, nothing changes DataReady or DataProtected. *)
Lemma update_other_conditions_kept t v volRepPVCs volSyncPVCs volSync w :
  t ∈ [VRGConditionTypeDataReady; VRGConditionTypeDataProtected] → volRepPVCs ≠ [] → object_conditions w →
  (∀ c, volSync = Some c → cond_Type c = VRGConditionTypeClusterDataProtected) →
  kept_condition t w (update_other_conditions vmErr v volRepPVCs volSyncPVCs volSync w).2.
Proof.
  intros Ht Hn Ho Hv.
  assert (Hdiff : ∀ t', t' ∈ [VRGConditionTypeClusterDataProtected; VRGConditionTypeNoClusterDataConflict;
      VRGConditionTypeAutoCleanup; VRGConditionTypeDestinationInfoAvailable; VRGConditionTypeReplicationHealthy] → t ≠ t').
  { intros t' Ht' ->. set_solver. }
  unfold update_other_conditions. rewrite run_bind. cbn [gets fst snd]. rewrite run_bind. cbn [gets fst snd].
  apply kept_then.
  { apply (logAndSetConditions_other VRGConditionTypeClusterDataProtected); [|done|apply Hdiff; set_solver].
    apply of_type_cons. split; [done|]. apply of_type_cons. split; [|done].
    intros c [= <-]. apply ClusterDataProtected_type. by destruct volRepPVCs. }
  intros _. apply preserves_bind; [apply _|by case_match; [apply Hvm|apply preserves_ret; apply _]|intros err].
  apply preserves_bind; [apply _| |intros _].
  { apply (logAndSetConditions_other VRGConditionTypeNoClusterDataConflict); [|done|apply Hdiff; set_solver].
    apply of_type_cons. split; [unfold aggregateVolSyncClusterDataConflictCondition; intros c Hc; by repeat (case_match; simplify_eq)|].
    apply of_type_cons. split; [|constructor]. intros c. apply conflict_type. }
  apply preserves_bind; [apply _|by apply preserves_gets; apply _|intros v'].
  apply preserves_bind; [apply _|eapply log_one; [apply cleanup_type|done|apply Hdiff; set_solver]|intros _].
  apply preserves_bind; [apply _| |intros _].
  { case_match eqn:E; [|apply preserves_ret; apply _]. rewrite <- E.
    eapply log_one; [apply destination_type|done|apply Hdiff; set_solver]. }
  apply preserves_bind; [apply _| |intros _].
  { case_match eqn:E; [|apply preserves_ret; apply _]. rewrite <- E.
    eapply log_one; [apply healthy_type|done|apply Hdiff; set_solver]. }
  repeat (apply preserves_bind; [apply _|by apply modify_vrg_kept_condition|intros _]).
  by apply modify_vrg_kept_condition.
Qed.


Lemma volSync_step w :
  let volSync := volSync_conditions (v_instance w) w in
  only_ticks w volSync.2 ∧ of_type VRGConditionTypeDataProtected [fst <$> volSync.1] ∧
  ∀ c, snd <$> volSync.1 = Some c → cond_Type c = VRGConditionTypeClusterDataProtected.
Proof.
  unfold volSync_conditions. case_match; [by split; [exists (v_tick w); destruct w|split; [constructor|]]|]. simpl.
  unfold aggregateVolSyncDataProtectedConditions. rewrite !run_bind. cbn [fst snd mret M_ret]. split_and!.
  - apply buildDataProtectedCondition_ticks.
  - repeat constructor. simpl. apply buildDataProtectedCondition_type.
  - by intros c [= <-].
Qed.

(** DataReady follows the claims. *)
Lemma updateVRGDataReadyCondition_claims w :
  v_volRepPVCs w ≠ [] →
  let w' := (updateVRGDataReadyCondition w).2 in
  kept_claims w w' ∧
  (Forall (entry_ready (v_instance w)) (volrep_entries (v_instance w)) ∨
   ∃ c, FindCondition (conds w') VRGConditionTypeDataReady = Some c ∧ cond_Status c = ConditionFalse).
Proof.
  intros Hn. unfold updateVRGDataReadyCondition. do 4 (rewrite run_bind; cbn [gets fst snd]).
  split; [apply logAndSetConditions_kept|].
  set (c := aggregateVolRepDataReadyCondition (v_instance w) (length (v_volRepPVCs w))).
  destruct (decide (cond_Status c = ConditionFalse)) as [Hf|Hf]; [right|left].
  - apply (logAndSetConditions_false _ _ c); [|done|set_solver|done].
    apply of_type_cons. split.
    { unfold aggregateVolSyncDataReadyCondition. intros x Hx. by repeat (case_match; simplify_eq). }
    apply of_type_cons. split; [|constructor]. intros x [= <-]. unfold c, aggregateVolRepDataReadyCondition, vrgReadyStatus.
    by repeat case_match.
  - apply (aggregate_ready _ (length (v_volRepPVCs w))); [by destruct (v_volRepPVCs w)|done].
Qed.

(** DataProtected as well. *)
Lemma set_DataProtected_claims v n o w :
  n ≠ 0 → of_type VRGConditionTypeDataProtected [o] →
  let w' := (logAndSetConditions [o; Some (aggregateVolRepDataProtectedCondition v n)] w).2 in
  kept_condition VRGConditionTypeDataReady w w' ∧
  (Forall entry_protected (volrep_entries v) ∨
   ∃ c, FindCondition (conds w') VRGConditionTypeDataProtected = Some c ∧ cond_Status c = ConditionFalse).
Proof.
  intros Hn Ho. set (c := aggregateVolRepDataProtectedCondition v n).
  assert (of_type VRGConditionTypeDataProtected [o; Some c]) as Htype.
  { apply of_type_cons in Ho as [Ho _]. apply of_type_cons. split; [done|]. apply of_type_cons. split; [|constructor].
    intros x [= <-]. unfold c, aggregateVolRepDataProtectedCondition. by repeat case_match. }
  split; [by apply (logAndSetConditions_other VRGConditionTypeDataProtected)|].
  destruct (decide (cond_Status c = ConditionFalse)) as [Hf|Hf]; [right|left].
  - by apply (logAndSetConditions_false _ _ c); [| |set_solver|].
  - by apply (aggregate_protected _ n).
Qed.

(** The claims that are not ready, or not protected, show in the conditions. *)
Lemma updateVRGConditions_claims w :
  v_volRepPVCs w ≠ [] → object_conditions w →
  let w' := (updateVRGConditions vmErr w).2 in
  kept_claims w w' ∧
  (Forall (entry_ready (v_instance w)) (volrep_entries (v_instance w)) ∨
   ∃ c, FindCondition (conds w') VRGConditionTypeDataReady = Some c ∧ cond_Status c = ConditionFalse) ∧
  (Forall entry_protected (volrep_entries (v_instance w)) ∨
   ∃ c, FindCondition (conds w') VRGConditionTypeDataProtected = Some c ∧ cond_Status c = ConditionFalse).
Proof.
  intros Hn Ho. unfold updateVRGConditions, claims_of. do 3 (rewrite run_bind; cbn [gets fst snd]). rewrite run_bind.
  pose proof (volSync_step w) as ([tick Et] & Hp & Hc).
  set (volSync := volSync_conditions (v_instance w) w) in *. clearbody volSync. rewrite Et, length_fmap.
  set (w1 := w <| v_tick := tick |>). rewrite run_bind.
  destruct (updateVRGDataReadyCondition_claims w1 Hn) as [K1 D1]. set (w2 := (updateVRGDataReadyCondition w1).2) in *.
  clearbody w2. rewrite run_bind.
  destruct (set_DataProtected_claims (v_instance w) (length (v_volRepPVCs w)) (fst <$> volSync.1) w2) as [K2 D2];
    [by destruct (v_volRepPVCs w)|done|].
  set (w3 := (logAndSetConditions _ w2).2) in *. clearbody w3.
  assert (kept_claims w w3) as K3 by (transitivity w2; [by destruct K1; split|apply K2]).
  assert (object_conditions w3) as Ho3 by (unfold object_conditions; by rewrite (kc_object _ _ K3), (kc_kube _ _ K3)).
  set (w4 := (update_other_conditions _ _ _ _ _ w3).2).
  assert (K4 : ∀ t, t ∈ [VRGConditionTypeDataReady; VRGConditionTypeDataProtected] → kept_condition t w3 w4).
  { intros t Ht. apply update_other_conditions_kept; [done| |done|done]. by destruct (v_volRepPVCs w). }
  split_and!.
  - transitivity w3; [done|]. apply (K4 VRGConditionTypeDataReady). set_solver.
  - destruct D1 as [D1|(c & Hc' & Hf)]; [by left|right; exists c]. split; [|done].
    rewrite (proj2 (K4 VRGConditionTypeDataReady ltac:(set_solver))), (proj2 K2). done.
  - destruct D2 as [D2|(c & Hc' & Hf)]; [by left|right; exists c]. split; [|done].
    by rewrite (proj2 (K4 VRGConditionTypeDataProtected ltac:(set_solver))).
Qed.

(** *** The state *)

Lemma updateProtectedCGsForVolRep_ticks : preserves only_ticks updateProtectedCGsForVolRep.
Proof. unfold updateProtectedCGsForVolRep. repeat frame_step ltac:(apply kList_ticks). Qed.
Lemma updateProtectedCGsForVolSync_ticks : preserves only_ticks updateProtectedCGsForVolSync.
Proof. unfold updateProtectedCGsForVolSync. repeat frame_step ltac:(apply kList_ticks). Qed.
Lemma IsCGEnabledForVolSync_ticks : preserves only_ticks IsCGEnabledForVolSync.
Proof. unfold IsCGEnabledForVolSync. repeat frame_step ltac:(apply IsCRDInstalled_ticks). Qed.

(** A call that only ticks, on the way to a result. *)
Ltac after_ticks m lem :=
  let E := fresh "E" in
  match goal with |- context [m ?w] =>
    let r := fresh "r" in
    assert (only_ticks w (m w).2) as [? E] by (apply lem);
    set (r := m w) in *; clearbody r; destruct r as [r ?]; cbn [fst snd] in *; subst
  end.

Lemma update_vrg_status_instance w : v_instance (update_vrg_status w).2 = v_instance w.
Proof.
  unfold update_vrg_status. rewrite or_return_run. destruct (vapi_err w).1; [done|].
  do 2 (rewrite run_bind; cbn [gets fst snd]). by case_match.
Qed.

Lemma updateVRGStatus_state w :
  (updateVRGStatus false w).1 = false →
  let w' := (updateVRGStatus false w).2 in
  vst_State (vrg_Status (v_instance w')) = updateStatusState (v_instance w) (length (v_volRepPVCs w)) ∧
  conds w' = conds w ∧ vrg_Meta (v_instance w') = vrg_Meta (v_instance w).
Proof.
  unfold updateVRGStatus. rewrite run_bind. after_ticks IsCGEnabledForVolRep IsCRDInstalled_ticks.
  rewrite result_or_return_run.
  set (m := if r then _ else _) in *.
  assert (preserves only_ticks m) as Hm
    by (subst m; destruct r; [apply updateProtectedCGsForVolRep_ticks|apply preserves_ret; apply _]).
  after_ticks m Hm. destruct r0 as [g|e]; [|done].
  rewrite run_bind. after_ticks IsCGEnabledForVolSync IsCGEnabledForVolSync_ticks.
  rewrite result_or_return_run. set (m' := if r0 then _ else _) in *.
  assert (preserves only_ticks m') as Hm'
    by (subst m'; destruct r0; [apply updateProtectedCGsForVolSync_ticks|apply preserves_ret; apply _]).
  after_ticks m' Hm'. destruct r1 as [g'|e]; [|done].
  rewrite run_bind. cbn [gets fst snd]. do 2 (rewrite run_bind; cbn [modify_vrg modify fst snd]).
  do 2 (rewrite run_bind; cbn [gets fst snd]). case_match; [done|].
  rewrite run_bind. cbn [vnow vtick mbind M_bind mret M_ret fst snd]. rewrite run_bind, or_return_run.
  match goal with |- context [update_vrg_status ?x] => pose proof (update_vrg_status_instance x) as Hu end.
  case_match; [done|]. intros _. cbn [snd mret M_ret]. by rewrite Hu.
Qed.

(** The VRG's condition of this type is true, and of the VRG's generation. *)
Definition true_now (v : VolumeReplicationGroup) (t : string) : Prop :=
  ∃ c, FindCondition (vst_Conditions (vrg_Status v)) t = Some c ∧
       cond_Status c = ConditionTrue ∧ cond_ObservedGeneration c = om_Generation (vrg_Meta v).

Lemma is_true_now_true v c :
  is_true_now v c = true → cond_Status c = ConditionTrue ∧ cond_ObservedGeneration c = om_Generation (vrg_Meta v).
Proof. unfold is_true_now. intros E. by bools. Qed.

Lemma state_is_secondary v n :
  n ≠ 0 → vsp_ReplicationState (vrg_Spec v) = Secondary → updateStatusState v n = SecondaryState →
  true_now v VRGConditionTypeDataReady ∧
  (vsp_Action (vrg_Spec v) = VRGActionRelocate → true_now v VRGConditionTypeDataProtected).
Proof.
  intros Hn Hs. unfold updateStatusState, updateStatusStateForSecondary, true_now. rewrite Hs.
  destruct (FindCondition _ VRGConditionTypeDataReady) as [c|]; [|done].
  destruct (is_true_now v c) eqn:Et; [|done]. cbn [negb]. intros Hst. split.
  - exists c. split; [done|]. by apply is_true_now_true.
  - intros Ha. revert Hst. rewrite Ha. simpl. destruct (FindCondition _ VRGConditionTypeDataProtected) as [c'|].
    + destruct (is_true_now v c') eqn:Et'; [|done]. intros _. exists c'. split; [done|]. by apply is_true_now_true.
    + by rewrite bool_decide_eq_false_2.
Qed.
End summary.

(** C10: a VRG with replicated claims reports itself secondary, in a status update that
    asks for no further reconcile, only if its DataReady condition is true at the VRG's
    generation and every replicated claim has a DataReady condition that is neither
    progressing nor in error (and, for a VRG of a shared group, is of the VRG's
    generation). When the VRG is being relocated, moreover, only if its DataProtected
    condition is true at the VRG's generation and every replicated claim has a
    DataProtected condition that says its data is protected: not that it is still
    replicating, ready for use as a primary, or in error. *)
Theorem secondary_reported_soundly `{VolEnv} `{VRGConfig} (vmErr : VOp (option GoError)) w
    (Hvm : ∀ t, preserves (kept_condition t) vmErr)
    (Hclaims : v_volRepPVCs w ≠ []) (Htypes : object_conditions w)
    (Hsecondary : vsp_ReplicationState (vrg_Spec (v_instance w)) = Secondary) :
  let r := updateVRGConditionsAndStatus vmErr false w in
  r.1 = false → vst_State (vrg_Status (v_instance r.2)) = SecondaryState →
  (true_now (v_instance r.2) VRGConditionTypeDataReady ∧
   Forall (entry_ready (v_instance w)) (volrep_entries (v_instance w))) ∧
  (vsp_Action (vrg_Spec (v_instance w)) = VRGActionRelocate →
   true_now (v_instance r.2) VRGConditionTypeDataProtected ∧ Forall entry_protected (volrep_entries (v_instance w))).
Proof.
  intros r. subst r. unfold updateVRGConditionsAndStatus. rewrite run_bind. intros Hr Hstate.
  destruct (updateVRGConditions_claims vmErr Hvm w Hclaims Htypes) as (K & Hready & Hprotected).
  set (w1 := (updateVRGConditions vmErr w).2) in *. clearbody w1.
  destruct (updateVRGStatus_state w1 Hr) as (Es & Ec & Em). rewrite Es in Hstate.
  apply state_is_secondary in Hstate as [Hd Hp];
    [|rewrite (kc_volrep _ _ K); by destruct (v_volRepPVCs w)|by rewrite (kc_spec _ _ K)].
  rewrite (kc_spec _ _ K) in Hp. unfold true_now in *. rewrite Ec, Em. split.
  - split; [done|]. destruct Hready as [|(c & Hc & Hf)]; [done|]. destruct Hd as (c' & Hc' & Ht & _). congruence.
  - intros Ha. specialize (Hp Ha). split; [done|]. destruct Hprotected as [|(c & Hc & Hf)]; [done|].
    destruct Hp as (c' & Hc' & Ht & _). congruence.
Qed.

#[local] Existing Instance calm_volenv.
#[local] Existing Instance default_vrgconfig.

Lemma secondary_reported_soundly_witness :
  true_now (v_instance (updateVRGConditionsAndStatus (mret None) false (the_volumes Secondary VRGActionRelocate VRSecondary)).2)
    VRGConditionTypeDataProtected ∧
  Forall entry_protected (volrep_entries (the_vrg Secondary VRGActionRelocate)).
Proof.
  apply (secondary_reported_soundly (mret None) (the_volumes Secondary VRGActionRelocate VRSecondary)).
  - intros t w. split; [by split|done].
  - done.
  - constructor.
  - done.
  - vm_compute. reflexivity.
  - vm_compute. reflexivity.
  - done.
Defined.
