(* ===== verification/VolRepStatusSpec.v ===== *)
(** * When a replication resource has reached its state

    An abstract reading of the status of a VolumeReplication, and that [checkVRStatus]
    implements it: the verdict it returns, and the conditions of the claim it leaves. *)

From Stdlib Require Import ZArith.
From S2P Require Import Prelude Meta Names Conditions Api VRGStatus PolicyPeers Events Volumes VolRepStatus VolRepClasses.
From S2P Require Import VolRep VRGAggregate VolScenario VRGAggregateSpec.
#[local] Open Scope record_scope.

(** ** The reading *)

Section reading.
Context (generation : Z) (status : VolumeReplicationStatus).

(** A condition at the generation of the resource, with the status given. *)
Definition shows (type : string) (s : ConditionStatus) : bool :=
  match FindCondition (vrs_Conditions status) type with
  | None => false
  | Some c => (generation =? cond_ObservedGeneration c) && (cond_Status c =? s)
  end.

Definition demoted_in_sync : bool :=
  shows VRConditionCompleted ConditionTrue && shows VRConditionResyncing ConditionFalse &&
  shows VRConditionDegraded ConditionFalse && (vrs_State status =? SecondaryState).
Definition demoted_resyncing : bool :=
  shows VRConditionCompleted ConditionTrue && shows VRConditionResyncing ConditionTrue &&
  shows VRConditionDegraded ConditionTrue.
Definition promoted : bool :=
  shows VRConditionCompleted ConditionTrue &&
  (shows VRConditionValidated ConditionTrue || (FindCondition (vrs_Conditions status) VRConditionValidated =? None)).
(** The storage refuses, and says so at the current generation. *)
Definition refused : bool :=
  match FindCondition (vrs_Conditions status) VRConditionValidated with
  | None => false
  | Some c => (generation =? cond_ObservedGeneration c) && (cond_Status c ≠? ConditionUnknown) &&
              (cond_Status c ≠? ConditionTrue)
  end.

(** The state the storage reports, whatever the generation. *)
Definition reports (state : ReplicationState) : Prop :=
  (state = Primary ∧ vrs_State status = PrimaryState) ∨ (state = Secondary ∧ vrs_State status = SecondaryState).

Definition reached (shared : bool) (state : ReplicationState) (deleted : bool) : Prop :=
  (shared = true ∧ reports state) ∨
  (generation = vrs_ObservedGeneration status ∧
   match state with
   | Primary => promoted = true ∨ (refused = true ∧ deleted = true)
   | Secondary => demoted_in_sync = true ∨ demoted_resyncing = true
   | ReplicationUnset => False
   end).

Lemma condition_met type s :
  s ∈ [ConditionTrue; ConditionFalse] → (isVRConditionMet generation status type s).1.1 = shows type s.
Proof.
  intros Hs. assert (s ≠ ConditionUnknown) by (intros ->; set_solver). unfold isVRConditionMet, shows.
  destruct (FindCondition _ _) as [c|]; [|done]. repeat case_bool_decide; simpl; congruence.
Qed.

Lemma shows_one type : shows type ConditionTrue && shows type ConditionFalse = false.
Proof.
  unfold shows. destruct (FindCondition _ _) as [c|]; [|done]. destruct (cond_Status c); by rewrite ?andb_false_r.
Qed.
End reading.

(** ** What the check changes *)

Section check.
Context `{VolEnv}.

Record same_vrg_spec (w w' : Volumes) : Prop := {
  sv_meta : vrg_Meta (v_instance w') = vrg_Meta (v_instance w);
  sv_spec : vrg_Spec (v_instance w') = vrg_Spec (v_instance w);
  sv_heap : v_heap w' = v_heap w;
}.
#[export] Instance same_vrg_spec_order : PreOrder same_vrg_spec.
Proof. split; [by split|]. intros ??? [] []. split; congruence. Qed.

Lemma with_protected_pvc_kept v ns n f :
  vrg_Meta (with_protected_pvc v ns n f) = vrg_Meta v ∧ vrg_Spec (with_protected_pvc v ns n f) = vrg_Spec v.
Proof. unfold with_protected_pvc. by case_match. Qed.

Lemma update_entry_same ns n f :
  preserves same_vrg_spec (modify_vrg (λ v, with_protected_pvc v ns n (f v))).
Proof.
  intros w. destruct (with_protected_pvc_kept (v_instance w) ns n (f (v_instance w))). by split.
Qed.

Lemma update_pvc_status_same ns n set : preserves same_vrg_spec (update_pvc_status ns n set).
Proof.
  unfold update_pvc_status. apply preserves_bind; [apply _|by intros w|intros now].
  apply (update_entry_same ns n (λ v p, set now p (om_Generation (vrg_Meta v)))).
Qed.

Lemma load_same p : preserves same_vrg_spec (load p).
Proof. apply preserves_gets. apply _. Qed.

Lemma for_each_preserves {A} (R : relation Volumes) `{!PreOrder R} (f : A → VOp unit) l :
  (∀ x, preserves R (f x)) → preserves R (for_each f l).
Proof. intros Hf. induction l as [|x l IH]; simpl; [apply preserves_ret; apply _|by apply preserves_bind]. Qed.

Lemma IsCRDInstalled_same n : preserves same_vrg_spec (IsCRDInstalled n).
Proof. intros w. unfold IsCRDInstalled, vapi_err. by split. Qed.

Lemma isCGEnabled_same pvc : preserves same_vrg_spec (isCGEnabled pvc).
Proof. unfold isCGEnabled. repeat frame_step ltac:(apply IsCRDInstalled_same). Qed.

Lemma updatePVCLastSyncCounters_same p st : preserves same_vrg_spec (updatePVCLastSyncCounters p st).
Proof.
  unfold updatePVCLastSyncCounters.
  repeat frame_step ltac:(first [apply load_same | apply isCGEnabled_same | apply (update_entry_same _ _ (λ _, _))]).
Qed.

Lemma data_ready_and_protected_all_same pvcs r1 r2 msg :
  preserves same_vrg_spec (data_ready_and_protected_all pvcs r1 r2 msg).
Proof.
  apply for_each_preserves; [apply _|]. intros p.
  repeat frame_step ltac:(first [apply load_same | apply update_pvc_status_same]).
Qed.

(** ** The verdict *)

Section verdict.
Context (pvcs : list ptr) (generation : Z) (status : VolumeReplicationStatus).
Abbreviation shown := (shows generation status).

(** [isVRConditionMet] as its reading. *)
Ltac read_condition :=
  match goal with
  | |- context [isVRConditionMet generation status ?t ?s] =>
      rewrite <- ?(condition_met generation status t s) by set_solver;
      destruct (isVRConditionMet generation status t s) as [[[] ?] ?]; cbn [fst snd negb]; cbv zeta
  end.

Lemma validateVRCompletedStatus_result state w :
  (validateVRCompletedStatus pvcs generation state status w).1 = shown VRConditionCompleted ConditionTrue.
Proof. unfold validateVRCompletedStatus. read_condition; [done|]. destruct state; by rewrite run_bind. Qed.

Lemma checkResyncCompletionAsSecondary_result w :
  (checkResyncCompletionAsSecondary pvcs generation status w).1 =
  shown VRConditionResyncing ConditionFalse && shown VRConditionDegraded ConditionFalse &&
  (vrs_State status =? SecondaryState).
Proof.
  unfold checkResyncCompletionAsSecondary. read_condition; [|by rewrite run_bind].
  read_condition; [|by rewrite run_bind]. case_bool_decide; cbn [negb]; by rewrite !run_bind.
Qed.

Lemma validateAdditionalVRStatusForSecondary_result w :
  (validateAdditionalVRStatusForSecondary pvcs generation status w).1 =
  if shown VRConditionResyncing ConditionTrue then shown VRConditionDegraded ConditionTrue
  else shown VRConditionResyncing ConditionFalse && shown VRConditionDegraded ConditionFalse &&
       (vrs_State status =? SecondaryState).
Proof.
  unfold validateAdditionalVRStatusForSecondary. rewrite run_bind. read_condition.
  - read_condition; rewrite !run_bind; done.
  - apply checkResyncCompletionAsSecondary_result.
Qed.

Lemma validate_completed_result state w :
  (validate_completed pvcs generation state status w).1 =
  shown VRConditionCompleted ConditionTrue &&
  (if state =? Secondary then
     if shown VRConditionResyncing ConditionTrue then shown VRConditionDegraded ConditionTrue
     else shown VRConditionResyncing ConditionFalse && shown VRConditionDegraded ConditionFalse &&
          (vrs_State status =? SecondaryState)
   else true).
Proof.
  unfold validate_completed. rewrite run_bind, validateVRCompletedStatus_result.
  destruct (shown VRConditionCompleted ConditionTrue); [|done]. cbn [negb andb].
  case_bool_decide; [apply validateAdditionalVRStatusForSecondary_result|by rewrite !run_bind].
Qed.

Definition validated_state : conditionState :=
  match FindCondition (vrs_Conditions status) VRConditionValidated with
  | None => conditionMissing
  | Some c => if generation ≠? cond_ObservedGeneration c then conditionStale
              else if cond_Status c =? ConditionUnknown then conditionUnknown else conditionKnown
  end.

Lemma validateVRValidatedStatus_result w :
  let r := validateVRValidatedStatus pvcs generation status w in
  same_vrg_spec w r.2 ∧ r.1 = (shown VRConditionValidated ConditionTrue, validated_state).
Proof.
  intros r. subst r. split.
  - revert w. assert (preserves same_vrg_spec (validateVRValidatedStatus pvcs generation status)) as Hp; [|exact Hp].
    unfold validateVRValidatedStatus. destruct (isVRConditionMet _ _ _ _) as [[[] ?] ?]; [by apply preserves_ret; apply _|].
    repeat frame_step ltac:(apply data_ready_and_protected_all_same).
  - assert (validated_state = (isVRConditionMet generation status VRConditionValidated ConditionTrue).1.2) as ->.
    { unfold validated_state, isVRConditionMet. by repeat case_match. }
    unfold validateVRValidatedStatus. read_condition; [done|by rewrite run_bind].
Qed.

Lemma validated_cases :
  refused generation status =
    negb (shown VRConditionValidated ConditionTrue) && (validated_state =? conditionKnown) ∧
  (FindCondition (vrs_Conditions status) VRConditionValidated =? None) = (validated_state =? conditionMissing).
Proof.
  unfold refused, shows, validated_state. destruct (FindCondition _ _) as [c|]; [|done]. split.
  - destruct (generation =? cond_ObservedGeneration c); [|done]. by destruct (cond_Status c).
  - by repeat case_match.
Qed.

Lemma validateVRStatus_primary w :
  (validateVRStatus pvcs generation Primary status w).1 =
  promoted generation status || (refused generation status && ResourceIsDeleted (vrg_Meta (v_instance w))).
Proof.
  unfold validateVRStatus, promoted. rewrite bool_decide_eq_true_2 by done. rewrite run_bind.
  destruct (validateVRValidatedStatus_result w) as [Hs ->]. cbn [fst snd].
  set (w1 := (validateVRValidatedStatus _ _ _ w).2) in *. clearbody w1.
  destruct validated_cases as [-> ->]. rewrite <- (sv_meta _ _ Hs).
  destruct (shown VRConditionValidated ConditionTrue); cbn [negb andb orb].
  - rewrite validate_completed_result. by rewrite !andb_true_r, orb_false_r.
  - destruct validated_state; try by rewrite andb_false_r.
    cbv iota beta. rewrite (bool_decide_eq_true_2 (conditionMissing = _)) by done. cbn [negb].
    rewrite validate_completed_result. by rewrite orb_false_r.
Qed.

Lemma validateVRStatus_secondary w :
  (validateVRStatus pvcs generation Secondary status w).1 =
  demoted_in_sync generation status || demoted_resyncing generation status.
Proof.
  unfold validateVRStatus, demoted_in_sync, demoted_resyncing. cbn [bool_decide]. 
  rewrite bool_decide_eq_false_2 by done. rewrite validate_completed_result, bool_decide_eq_true_2 by done.
  pose proof (shows_one generation status VRConditionResyncing) as Hone.
  destruct (shown VRConditionCompleted ConditionTrue), (shown VRConditionResyncing ConditionTrue),
    (shown VRConditionResyncing ConditionFalse); try done; by rewrite ?orb_false_r.
Qed.
End verdict.
End check.

(** ** The conditions of a claim *)

Section claim.
Context `{VolEnv} (ns n : string).

Lemma find_from_first i l : (find_from ns n i l).1 = find_first (is_pvc ns n) l.
Proof. revert i. induction l as [|p l IH]; intros i; simpl; [done|]. by destruct (is_pvc ns n p). Qed.

Lemma FindProtectedPVC_first v :
  FindProtectedPVC v ns n = find_first (is_pvc ns n) (vst_ProtectedPVCs (vrg_Status v)).
Proof. apply find_from_first. Qed.

Lemma is_new : is_pvc ns n (new_protected_pvc ns n) = true.
Proof. unfold is_pvc. simpl. by rewrite !bool_decide_eq_true_2. Qed.

(** The entry that an update works on. *)
Lemma with_protected_pvc_find v f :
  (∀ p, is_pvc ns n p = true → is_pvc ns n (f p) = true) →
  FindProtectedPVC (with_protected_pvc v ns n f) ns n =
  Some (f (default (new_protected_pvc ns n) (FindProtectedPVC v ns n))).
Proof.
  intros Hf. unfold with_protected_pvc. rewrite !FindProtectedPVC_first.
  destruct (find_first (is_pvc ns n) (vst_ProtectedPVCs (vrg_Status v))) as [e|] eqn:E; simpl.
  - rewrite find_first_update; [by rewrite E|done].
  - rewrite find_first_update; [|done]. rewrite find_first_app, E. simpl. by rewrite is_new.
Qed.

(** The reasons of the two conditions. *)
Definition reasons (w : Volumes) : option string * option string :=
  let e := FindProtectedPVC (v_instance w) ns n in
  let reason t := cond_Reason <$> (e ≫= λ p, FindCondition (pp_Conditions p) t) in
  (reason VRGConditionTypeDataReady, reason VRGConditionTypeDataProtected).

Lemma set_condition_reason now conds c t :
  cond_Reason c ≠ "" →
  cond_Reason <$> FindCondition (set_condition now conds c) t =
  if decide (t = cond_Type c) then Some (cond_Reason c) else cond_Reason <$> FindCondition conds t.
Proof.
  intros Hr. unfold set_condition. case_decide as Ht.
  - subst t. rewrite SetStatusCondition_find. simpl. f_equal. unfold SetStatusCondition.
    destruct (FindCondition _ _) as [x|]; simpl; [|done]. unfold overwrite_condition.
    rewrite (bool_decide_eq_false_2 (cond_Reason c = "")) by done. by repeat case_bool_decide.
  - by rewrite SetStatusCondition_other.
Qed.

(** What a reason given sets of the condition of the type. *)
Definition sets (set : Z → ProtectedPVC → string → string → Z → ProtectedPVC) (type reason r : string) : Prop :=
  ∃ st, ∀ now p msg g, set now p reason msg g =
    p <| pp_Conditions ::= λ l, set_condition now l (new_condition type st r g msg) |>.

Lemma data_ready_sets reason :
  reason ∈ [VRGConditionReasonError; VRGConditionReasonReplicating; VRGConditionReasonReplicated;
            VRGConditionReasonReady; VRGConditionReasonProgressing] →
  sets setPVCDataReadyCondition VRGConditionTypeDataReady reason reason.
Proof. intros Hr. repeat (apply elem_of_cons in Hr as [->|Hr]; [by eexists|]). by apply not_elem_of_nil in Hr. Qed.

Lemma data_protected_sets reason :
  reason ∈ [VRGConditionReasonError; VRGConditionReasonReplicating; VRGConditionReasonDataProtected] →
  sets setPVCDataProtectedCondition VRGConditionTypeDataProtected reason reason.
Proof. intros Hr. repeat (apply elem_of_cons in Hr as [->|Hr]; [by eexists|]). by apply not_elem_of_nil in Hr. Qed.

Lemma update_reasons set type reason r msg w :
  sets set type reason r → r ≠ "" →
  let w' := (update_pvc_status ns n (λ now p, set now p reason msg) w).2 in
  reasons w' = (if decide (VRGConditionTypeDataReady = type) then Some r else (reasons w).1,
                if decide (VRGConditionTypeDataProtected = type) then Some r else (reasons w).2).
Proof.
  intros [st Hst] Hr. unfold update_pvc_status, reasons. rewrite run_bind. cbn.
  rewrite with_protected_pvc_find by (intros p; by rewrite Hst). cbn. rewrite Hst. cbn.
  repeat match goal with |- context [find_first (has_type ?t) ?l] => change (find_first (has_type t) l) with (FindCondition l t) end.
  change (v_instance (vnow w).2) with (v_instance w). rewrite !set_condition_reason by done. cbn [cond_Type new_condition cond_Reason].
  destruct (FindProtectedPVC (v_instance w) ns n); done.
Qed.

(** Neither of the two conditions of the claim changes. *)
Definition same_reasons (w w' : Volumes) : Prop := same_vrg_spec w w' ∧ reasons w' = reasons w.
#[local] Instance same_reasons_order : PreOrder same_reasons.
Proof. split; [by split|]. intros ??? [] []. split; [by etransitivity|congruence]. Qed.

(** What sets another condition of the claim, or none. *)
Lemma update_other_reasons f :
  (∀ v p, is_pvc ns n p = true → is_pvc ns n (f v p) = true) →
  (∀ v p t, t ∈ [VRGConditionTypeDataReady; VRGConditionTypeDataProtected] →
            FindCondition (pp_Conditions (f v p)) t = FindCondition (pp_Conditions p) t) →
  preserves same_reasons (modify_vrg (λ v, with_protected_pvc v ns n (f v))).
Proof.
  intros Hf Hc w. split; [apply update_entry_same|]. unfold reasons.
  simpl. rewrite with_protected_pvc_find by apply Hf. simpl.
  rewrite !Hc by set_solver. by destruct (FindProtectedPVC (v_instance w) ns n).
Qed.

Lemma update_other_condition set type :
  (∀ now p g, set now p g = p ∨ ∃ c, cond_Type c = type ∧
     set now p g = p <| pp_Conditions ::= λ l, set_condition now l c |>) →
  type ∉ [VRGConditionTypeDataReady; VRGConditionTypeDataProtected] →
  preserves same_reasons (update_pvc_status ns n set).
Proof.
  intros Hset Ht. unfold update_pvc_status. apply preserves_bind; [apply _|by intros w|intros now].
  apply (update_other_reasons (λ v p, set now p (om_Generation (vrg_Meta v)))).
  - intros v p Hp. destruct (Hset now p (om_Generation (vrg_Meta v))) as [->|(c & _ & ->)]; done.
  - intros v p t Hin. destruct (Hset now p (om_Generation (vrg_Meta v))) as [->|(c & Hc & ->)]; [done|].
    cbn. apply SetStatusCondition_other. rewrite Hc. set_solver.
Qed.

(** *** One claim *)

Context (p : ptr).

Definition is_claim (w : Volumes) : Prop := pvc_nn (default zero_pvc (v_heap w !! p)) = (ns, n).

Lemma is_claim_kept w w' : same_vrg_spec w w' → is_claim w → is_claim w'.
Proof. intros Hs. unfold is_claim. by rewrite (sv_heap _ _ Hs). Qed.

Lemma is_claim_names w :
  is_claim w → pvc_namespace (default zero_pvc (v_heap w !! p)) = ns ∧ pvc_name (default zero_pvc (v_heap w !! p)) = n.
Proof. by intros [= -> ->]. Qed.

(** [same_reasons] for a state with the claim. *)
Definition keeps_reasons (w w' : Volumes) : Prop := is_claim w → same_reasons w w'.
#[local] Instance keeps_reasons_order : PreOrder keeps_reasons.
Proof.
  split; [by split|]. intros w1 w2 w3 H1 H2 Hc. transitivity w2; [by apply H1|].
  apply H2, (is_claim_kept w1); [|done]. by apply H1.
Qed.

Lemma load_then {A} (R : relation Volumes) (f : PersistentVolumeClaim → VOp A) w :
  R w (f (default zero_pvc (v_heap w !! p)) w).2 → R w ((load p ≫= f) w).2.
Proof. by rewrite run_bind. Qed.

(** A loop over the one claim. *)
Lemma for_each_one (f : ptr → VOp unit) w : (for_each f [p] w).2 = (f p w).2.
Proof. simpl. by rewrite run_bind. Qed.

Lemma each_keeps (f : PersistentVolumeClaim → VOp unit) :
  (∀ pvc, pvc_nn pvc = (ns, n) → preserves same_reasons (f pvc)) →
  preserves keeps_reasons (for_each (λ q, pvc ← load q; f pvc) [p]).
Proof. intros Hf w Hc. rewrite for_each_one. apply load_then. by apply Hf. Qed.

Lemma checkAndUpdateDestinationInfoAvailable_keeps status :
  preserves keeps_reasons (checkAndUpdateDestinationInfoAvailable [p] status).
Proof.
  unfold checkAndUpdateDestinationInfoAvailable. destruct (FindCondition _ _); [|apply preserves_ret; apply _].
  apply each_keeps. intros pvc [= Hns Hn]. unfold updatePVCDestinationInfoAvailableCondition. rewrite Hns, Hn.
  case_match; (apply (update_other_condition _ VRGConditionTypeDestinationInfoAvailable);
    [intros now q g; right; eexists; split; [|reflexivity]; done|set_solver]).
Qed.

Lemma checkAndUpdateReplicationHealthy_keeps status :
  preserves keeps_reasons (checkAndUpdateReplicationHealthy [p] status).
Proof.
  unfold checkAndUpdateReplicationHealthy. destruct (FindCondition _ _); [|apply preserves_ret; apply _].
  apply each_keeps. intros pvc [= Hns Hn]. unfold updatePVCReplicationHealthyCondition. rewrite Hns, Hn.
  apply (update_other_condition _ VRGConditionTypeReplicationHealthy);
    [intros now q g; right; eexists; split; [|reflexivity]; done|set_solver].
Qed.

Lemma set_sync_reasons t d b :
  preserves same_reasons (modify_vrg (λ v, with_protected_pvc v ns n (set_sync t d b))).
Proof.
  apply (update_other_reasons (λ _, set_sync t d b)); unfold set_sync; intros v q; simpl; [by case_match|].
  intros; by case_match.
Qed.

Lemma updatePVCLastSyncCounters_keeps status : preserves keeps_reasons (updatePVCLastSyncCounters p status).
Proof.
  intros w Hc. unfold updatePVCLastSyncCounters. apply load_then. destruct (is_claim_names w Hc) as [-> ->].
  rewrite run_bind. cbn [gets fst snd]. destruct (FindProtectedPVC _ _ _); [|done].
  destruct status as [status|]; [|apply set_sync_reasons]. rewrite run_bind.
  set (w1 := (isCGEnabled _ w).2). assert (same_reasons w w1) as Hs.
  { split; [apply isCGEnabled_same|]. unfold w1, isCGEnabled. by case_match. }
  transitivity w1; [done|]. clearbody w1. rewrite run_bind. cbn [gets fst snd].
  case_match; [done|apply set_sync_reasons].
Qed.

Lemma data_ready_reasons r msg w :
  is_claim w → r ∈ [VRGConditionReasonError; VRGConditionReasonReplicating; VRGConditionReasonReplicated;
                    VRGConditionReasonReady; VRGConditionReasonProgressing] →
  same_vrg_spec w (data_ready_all [p] r msg w).2 ∧ reasons (data_ready_all [p] r msg w).2 = (Some r, (reasons w).2).
Proof.
  intros Hc Hr. destruct (is_claim_names w Hc) as [Hns Hn]. unfold data_ready_all, updatePVCDataReadyCondition. rewrite for_each_one.
  rewrite run_bind. cbn [load gets fst snd]. rewrite Hns, Hn. split; [apply update_pvc_status_same|].
  rewrite (update_reasons setPVCDataReadyCondition VRGConditionTypeDataReady r r) by
    (first [by apply data_ready_sets | intros ->; set_solver]). done.
Qed.

Lemma data_ready_and_protected_reasons r1 r2 msg w :
  is_claim w → r1 ∈ [VRGConditionReasonError; VRGConditionReasonReplicating; VRGConditionReasonReplicated;
                     VRGConditionReasonReady; VRGConditionReasonProgressing] →
  r2 ∈ [VRGConditionReasonError; VRGConditionReasonReplicating; VRGConditionReasonDataProtected] →
  reasons (data_ready_and_protected_all [p] r1 r2 msg w).2 = (Some r1, Some r2).
Proof.
  intros Hc Hr1 Hr2. destruct (is_claim_names w Hc) as [Hns Hn]. unfold data_ready_and_protected_all,
    updatePVCDataReadyCondition, updatePVCDataProtectedCondition. rewrite for_each_one. do 2 rewrite run_bind. cbn [load gets fst snd]. rewrite Hns, Hn.
  rewrite (update_reasons setPVCDataProtectedCondition VRGConditionTypeDataProtected r2 r2) by
    (first [by apply data_protected_sets | intros ->; set_solver]).
  rewrite (update_reasons setPVCDataReadyCondition VRGConditionTypeDataReady r1 r1) by
    (first [by apply data_ready_sets | intros ->; set_solver]). done.
Qed.

Lemma protected_then_ready_reasons msg w :
  is_claim w →
  reasons (for_each (λ q, pvc ← load q;
    updatePVCDataProtectedCondition (pvc_namespace pvc) (pvc_name pvc) VRGConditionReasonError msg;;
    updatePVCDataReadyCondition (pvc_namespace pvc) (pvc_name pvc) VRGConditionReasonError msg) [p] w).2 =
  (Some VRGConditionReasonError, Some VRGConditionReasonError).
Proof.
  intros Hc. destruct (is_claim_names w Hc) as [Hns Hn].
  unfold updatePVCDataReadyCondition, updatePVCDataProtectedCondition. rewrite for_each_one.
  do 2 rewrite run_bind. cbn [load gets fst snd]. rewrite Hns, Hn.
  rewrite (update_reasons setPVCDataReadyCondition VRGConditionTypeDataReady _ VRGConditionReasonError) by
    (first [by apply data_ready_sets; set_solver | done]).
  rewrite (update_reasons setPVCDataProtectedCondition VRGConditionTypeDataProtected _ VRGConditionReasonError) by
    (first [by apply data_protected_sets; set_solver | done]). done.
Qed.

(** The checks that follow a verdict. *)
Lemma after_checks_reasons st w :
  is_claim w →
  reasons ((checkAndUpdateDestinationInfoAvailable [p] st;; checkAndUpdateReplicationHealthy [p] st;; mret true) w).2 =
  reasons w.
Proof.
  intros Hc. rewrite run_bind. destruct (checkAndUpdateDestinationInfoAvailable_keeps st w Hc) as [Hs Hr].
  set (w1 := (checkAndUpdateDestinationInfoAvailable [p] st w).2) in *. clearbody w1. rewrite run_bind. cbn [snd mret M_ret].
  destruct (checkAndUpdateReplicationHealthy_keeps st w1) as [_ ->]; [by apply (is_claim_kept w)|done].
Qed.

(** *** The conditions after a check of a secondary *)

(** The reasons count for the state of the VRG. *)
Definition counts (r : option string * option string) : Prop :=
  ∃ a b, (r = (Some a, Some b)) ∧
    (a ∉ [VRGConditionReasonProgressing; VRGConditionReasonError; VRGConditionReasonErrorUnknown]) ∧
    (b ∉ [VRGConditionReasonReplicating; VRGConditionReasonReady; VRGConditionReasonError; VRGConditionReasonErrorUnknown]).

Lemma error_counts_not msg w :
  is_claim w → ¬ counts (reasons (data_ready_and_protected_all [p] VRGConditionReasonError VRGConditionReasonError msg w).2).
Proof. intros Hc. rewrite data_ready_and_protected_reasons by set_solver. intros (? & ? & [= <- <-] & ? & _). set_solver. Qed.

Context (generation : Z) (status : VolumeReplicationStatus).
Abbreviation shown := (shows generation status).

Lemma checkResyncCompletionAsSecondary_counts w :
  is_claim w → counts (reasons (checkResyncCompletionAsSecondary [p] generation status w).2) →
  (checkResyncCompletionAsSecondary [p] generation status w).1 = true.
Proof.
  intros Hc. unfold checkResyncCompletionAsSecondary.
  destruct (isVRConditionMet _ _ VRConditionResyncing _) as [[[] ?] ?]; cbn [negb]; cbv zeta;
    [|rewrite run_bind; by intros ?%error_counts_not].
  destruct (isVRConditionMet _ _ VRConditionDegraded _) as [[[] ?] ?]; cbn [negb]; cbv zeta;
    [|rewrite run_bind; by intros ?%error_counts_not].
  case_bool_decide; cbn [negb]; [|rewrite run_bind; by intros ?%error_counts_not].
  by rewrite !run_bind.
Qed.

Lemma validateAdditional_counts w :
  is_claim w → counts (reasons (validateAdditionalVRStatusForSecondary [p] generation status w).2) →
  shown VRConditionResyncing ConditionFalse && shown VRConditionDegraded ConditionFalse &&
  (vrs_State status =? SecondaryState) = true.
Proof.
  intros Hc. unfold validateAdditionalVRStatusForSecondary. rewrite run_bind, for_each_one.
  destruct (updatePVCLastSyncCounters_keeps None w Hc) as [Hs _].
  set (w1 := (updatePVCLastSyncCounters p None w).2) in *. clearbody w1. apply (is_claim_kept w w1 Hs) in Hc.
  destruct (isVRConditionMet _ _ VRConditionResyncing _) as [[[] ?] ?]; cbn [fst snd negb].
  - destruct (isVRConditionMet _ _ VRConditionDegraded _) as [[[] ?] ?]; cbn [negb]; cbv zeta.
    + rewrite run_bind.
      assert (Hr : same_vrg_spec w1 (data_ready_and_protected_all [p] VRGConditionReasonReplicating
        VRGConditionReasonReplicating "VolumeReplication resource for the pvc is syncing as Secondary" w1).2)
        by apply data_ready_and_protected_all_same.
      pose proof (data_ready_and_protected_reasons VRGConditionReasonReplicating VRGConditionReasonReplicating
        "VolumeReplication resource for the pvc is syncing as Secondary" w1 Hc ltac:(set_solver) ltac:(set_solver)) as E.
      set (w2 := (data_ready_and_protected_all _ _ _ _ w1).2) in *. clearbody w2.
      rewrite (after_checks_reasons status w2) by (by apply (is_claim_kept w1)). rewrite E.
      intros (? & ? & [= <- <-] & _ & ?). set_solver.
    + rewrite run_bind. cbn [snd mret M_ret]. rewrite protected_then_ready_reasons by done.
      intros (? & ? & [= <- <-] & ? & _). set_solver.
  - intros Hr. rewrite <- (checkResyncCompletionAsSecondary_result [p] generation status w1).
    by apply checkResyncCompletionAsSecondary_counts.
Qed.

Lemma validate_completed_counts w :
  is_claim w → counts (reasons (validate_completed [p] generation Secondary status w).2) →
  demoted_in_sync generation status = true.
Proof.
  intros Hc. unfold validate_completed, demoted_in_sync. rewrite run_bind, validateVRCompletedStatus_result.
  unfold validateVRCompletedStatus. rewrite <- (condition_met generation status VRConditionCompleted) by set_solver.
  destruct (isVRConditionMet _ _ VRConditionCompleted _) as [[[] ?] ?]; cbn [fst snd negb]; cbv zeta.
  - rewrite bool_decide_eq_true_2 by done. by apply validateAdditional_counts.
  - rewrite run_bind. by intros ?%error_counts_not.
Qed.
End claim.

(** after the check of the replication resource of a claim, for a secondary VRG that
    shares no group, the claim counts as ready and as protected, which is what the VRG's
    report of its state needs of it, only if the resource shows at its current
    generation that it is demoted, not resynchronising, not degraded, and in the secondary
    state. *)
Theorem claim_protected_soundly `{VolEnv} p generation status w
    (Hglobal : hasGlobalVGRLabel (v_instance w) = false)
    (Hsecondary : vsp_ReplicationState (vrg_Spec (v_instance w)) = Secondary) e :
  let w' := (checkVRStatus [p] generation status w).2 in
  let pvc := default zero_pvc (v_heap w !! p) in
  FindProtectedPVC (v_instance w') (pvc_namespace pvc) (pvc_name pvc) = Some e →
  entry_ready (v_instance w') e → entry_protected e →
  generation = vrs_ObservedGeneration status ∧ demoted_in_sync generation status = true.
Proof.
  intros w' pvc He (a & Ha & _ & Hra) (b & Hb & Hrb). set (ns := pvc_namespace pvc) in *. set (n := pvc_name pvc) in *.
  assert (is_claim ns n p w) as Hc by done.
  assert (counts (reasons ns n w')) as Hcount.
  { exists (cond_Reason a), (cond_Reason b). split_and!; [|done|done]. unfold reasons. by rewrite He; simpl; rewrite Ha, Hb. }
  clear He Ha Hb. revert Hcount. unfold w', checkVRStatus. rewrite run_bind. cbn [gets fst snd].
  rewrite Hglobal, run_bind. cbn [mret M_ret fst snd]. case_bool_decide as Hg; cbn [negb].
  - rewrite Hsecondary. unfold validateVRStatus. rewrite bool_decide_eq_false_2 by done. intros Hcount.
    split; [done|]. by eapply validate_completed_counts.
  - rewrite run_bind. cbn [snd mret M_ret].
    destruct (data_ready_reasons ns n p VRGConditionReasonProgressing
      "VolumeReplication generation not updated in status" w Hc ltac:(set_solver)) as [_ ->].
    intros (? & ? & [= <- ?] & ? & _). set_solver.
Qed.

Lemma isGlobalVGRStateMatched_reports status state : isGlobalVGRStateMatched status state = true ↔ reports status state.
Proof. unfold reports. destruct state; simpl; rewrite ?bool_decide_eq_true; naive_solver. Qed.

Lemma validateGlobalVGRStatus_result `{VolEnv} pvcs status state w :
  hasGlobalVGRLabel (v_instance w) = true →
  (validateGlobalVGRStatus pvcs status state w).1 = isGlobalVGRStateMatched status state ∧
  (isGlobalVGRStateMatched status state = false → (validateGlobalVGRStatus pvcs status state w).2 = w).
Proof.
  intros Hg. unfold validateGlobalVGRStatus. rewrite run_bind. cbn [gets fst snd]. rewrite Hg. cbn [negb].
  destruct (isGlobalVGRStateMatched status state); cbn [negb]; [|done]. by rewrite run_bind.
Qed.

(** C16: the check of a replication resource reports that the state asked for is reached
    exactly if the status is of the resource's generation, and shows it demoted and in
    sync or resynchronising as a secondary, or promoted as a primary, or, of a deleted
    primary VRG, refused by the storage; or if the VRG shares a group with others and
    the status reports the state asked for, of whatever generation it is. *)
Theorem checkVRStatus_exact `{VolEnv} pvcs generation status w :
  (checkVRStatus pvcs generation status w).1 = true ↔
  reached generation status (hasGlobalVGRLabel (v_instance w)) (vsp_ReplicationState (vrg_Spec (v_instance w)))
    (ResourceIsDeleted (vrg_Meta (v_instance w))).
Proof.
  unfold checkVRStatus, reached. rewrite run_bind. cbn [gets fst snd].
  set (state := vsp_ReplicationState (vrg_Spec (v_instance w))).
  set (shared := (if hasGlobalVGRLabel (v_instance w) then validateGlobalVGRStatus pvcs status state
                  else mret false) : VOp bool).
  assert (Hv : ((shared w).1 = true ↔ hasGlobalVGRLabel (v_instance w) = true ∧ reports status state) ∧
               ((shared w).1 = false → (shared w).2 = w)).
  { unfold shared. destruct (hasGlobalVGRLabel (v_instance w)) eqn:Eg; [|by split; [split; [|intros []]|]].
    destruct (validateGlobalVGRStatus_result pvcs status state w Eg) as [-> Hw].
    rewrite isGlobalVGRStateMatched_reports. split; [tauto|done]. }
  change (if hasGlobalVGRLabel (v_instance w) then _ else _) with shared. clearbody shared.
  rewrite run_bind. destruct (shared w) as [[] w1]; cbn [fst snd] in *.
  { split; [|done]. left. by apply Hv. }
  destruct Hv as [Hnot Hw]. specialize (Hw eq_refl) as ->. rewrite <- Hnot. case_bool_decide as Hgen; cbn [negb].
  - destruct state eqn:Est; unfold state in Est.
    + rewrite run_bind. cbn [fst mret M_ret]. naive_solver.
    + rewrite validateVRStatus_primary, orb_true_iff, andb_true_iff. naive_solver.
    + rewrite validateVRStatus_secondary, orb_true_iff. naive_solver.
  - rewrite run_bind. cbn [fst mret M_ret]. naive_solver.
Qed.

#[local] Existing Instance calm_volenv.

Lemma claim_protected_soundly_witness :
  demoted_in_sync 1 (vr_Status (the_vr VRSecondary)) = true.
Proof.
  apply (claim_protected_soundly 0 1 (vr_Status (the_vr VRSecondary))
           (the_volumes Secondary VRGActionRelocate VRSecondary) eq_refl eq_refl
           (default the_entry (FindProtectedPVC (v_instance (checkVRStatus [0] 1 (vr_Status (the_vr VRSecondary))
              (the_volumes Secondary VRGActionRelocate VRSecondary)).2) "app" "data"))).
  - vm_compute. reflexivity.
  - eexists. split; [vm_compute; reflexivity|]. split; [done|]. apply (bool_decide_unpack _). vm_compute. exact I.
  - eexists. split; [vm_compute; reflexivity|]. apply (bool_decide_unpack _). vm_compute. exact I.
Defined.
