(* ===== verification/VolFrames.v ===== *)
(** * What the operations on volumes may change

    [touches S m]: of the tables of the cluster and the stores, [m] changes only those in
    [S].  The facts compose along the bodies; [frames] does it with those in the hint
    database. *)

From Stdlib Require Import ZArith.
From S2P Require Import Prelude Meta Names Conditions Api VRGStatus PolicyPeers Events Volumes VolRepStatus VolRepClasses.
From S2P Require Import VolRep VRGAggregate VolScenario VRGAggregateSpec VolRepStatusSpec.
#[local] Open Scope record_scope.

Inductive table := T_pvc | T_pv | T_vr | T_vgr | T_vgrc | T_snapshot | T_s3 | T_vrg | T_heap.
#[export] Instance table_eq : EqDecision table.
Proof. solve_decision. Defined.

Definition agree (t : table) (w w' : Volumes) : Prop :=
  match t with
  | T_pvc => k_pvcs w' = k_pvcs w
  | T_pv => k_pvs w' = k_pvs w
  | T_vr => k_vrs w' = k_vrs w
  | T_vgr => k_vgrs w' = k_vgrs w
  | T_vgrc => k_vgrcs w' = k_vgrcs w
  | T_snapshot => k_snapshots w' = k_snapshots w
  | T_s3 => k_s3 w' = k_s3 w
  | T_vrg => k_vrgs w' = k_vrgs w
  | T_heap => v_heap w' = v_heap w
  end.

(** The workload and the classes are not the VRG's to change. *)
Record touched (S : list table) (w w' : Volumes) : Prop := {
  tc_tables : ∀ t, t ∉ S → agree t w w';
  tc_pods : k_pods w' = k_pods w;
  tc_attachments : k_attachments w' = k_attachments w;
  tc_meta : vrg_Meta (v_instance w') = vrg_Meta (v_instance w);
  tc_state : vsp_ReplicationState (vrg_Spec (v_instance w')) = vsp_ReplicationState (vrg_Spec (v_instance w));
  tc_action : vsp_Action (vrg_Spec (v_instance w')) = vsp_Action (vrg_Spec (v_instance w));
  tc_async : vsp_Async (vrg_Spec (v_instance w')) = vsp_Async (vrg_Spec (v_instance w));
  tc_sync : vsp_Sync (vrg_Spec (v_instance w')) = vsp_Sync (vrg_Spec (v_instance w));
}.

Lemma agree_refl t w : agree t w w.
Proof. by destruct t. Qed.
Lemma agree_trans t w1 w2 w3 : agree t w1 w2 → agree t w2 w3 → agree t w1 w3.
Proof. destruct t; simpl; congruence. Qed.

#[export] Instance touched_order S : PreOrder (touched S).
Proof.
  split.
  - intros w. split; try done. intros t _. apply agree_refl.
  - intros w1 w2 w3 [] []. split; try congruence. intros t Ht. eauto using agree_trans.
Qed.

Abbreviation touches S := (preserves (touched S)).

Create HintDb touch discriminated.
#[export] Hint Constants Opaque : touch.
#[export] Hint Extern 0 (_ ∈ _) => set_solver : touch.
#[export] Hint Extern 0 (_ ⊆ _) => set_solver : touch.
Ltac touch_solver := solve [auto with touch nocore].
Ltac frames := repeat frame_step touch_solver.

(** A local step: of the instance, the heap, a cache. *)
Lemma touches_local S f :
  (∀ w, agree T_pvc w (f w) ∧ agree T_pv w (f w) ∧ agree T_vr w (f w) ∧ agree T_vgr w (f w) ∧ agree T_vgrc w (f w) ∧
        agree T_snapshot w (f w) ∧ agree T_s3 w (f w) ∧ agree T_vrg w (f w) ∧ agree T_heap w (f w) ∧
        k_pods (f w) = k_pods w ∧ k_attachments (f w) = k_attachments w ∧ v_instance (f w) = v_instance w) →
  touches S (modify f).
Proof.
  intros Hf w. destruct (Hf w) as (? & ? & ? & ? & ? & ? & ? & ? & ? & ? & ? & Hi).
  split; cbn [modify snd]; try done; try by rewrite Hi. intros [] _; done.
Qed.

Definition same_identity (f : VolumeReplicationGroup → VolumeReplicationGroup) : Prop :=
  ∀ v, vrg_Meta (f v) = vrg_Meta v ∧ vsp_ReplicationState (vrg_Spec (f v)) = vsp_ReplicationState (vrg_Spec v) ∧
       vsp_Action (vrg_Spec (f v)) = vsp_Action (vrg_Spec v) ∧ vsp_Async (vrg_Spec (f v)) = vsp_Async (vrg_Spec v) ∧
       vsp_Sync (vrg_Spec (f v)) = vsp_Sync (vrg_Spec v).

Lemma modify_vrg_touches S f : same_identity f → touches S (modify_vrg f).
Proof. intros Hf w. destruct (Hf (v_instance w)) as (? & ? & ? & ? & ?). split; try done. intros t _. by destruct t. Qed.

Lemma with_protected_pvc_identity ns n f : same_identity (λ v, with_protected_pvc v ns n (f v)).
Proof. intros v. unfold with_protected_pvc. by case_match. Qed.

Section calls.
Context `{VolEnv} `{VRGConfig} {S : list table}.

Lemma vtick_touches : touches S vtick.
Proof. intros w. split; try done. intros [] _; done. Qed.
#[local] Hint Resolve vtick_touches : touch.
Lemma vnow_touches : touches S vnow.
Proof. unfold vnow. frames. Qed.
Lemma vapi_err_touches : touches S vapi_err.
Proof. unfold vapi_err. frames. Qed.
#[local] Hint Resolve vnow_touches vapi_err_touches : touch.
Lemma kGet_touches {A} (proj : Volumes → gmap NamespacedName A) wm n : touches S (kGet proj wm n).
Proof. unfold kGet. frames. Qed.
Lemma kList_touches {A} (proj : Volumes → list A) f : touches S (kList proj f).
Proof. unfold kList. frames. Qed.

(** A call on a table touches that table. *)
Section kind.
Context {A : Type} (proj : Volumes → gmap NamespacedName A) `{!Setter proj}.
Context (Hproj : ∀ f, touches S (modify (λ w, w <| proj ::= f |>))).

Lemma kCreate_touches meta wm born x : touches S (kCreate proj meta wm born x).
Proof using Hproj. unfold kCreate. frames. Qed.
Lemma kUpdate_touches meta wm merge x : touches S (kUpdate proj meta wm merge x).
Proof using Hproj. unfold kUpdate. frames. Qed.
Lemma kDelete_touches meta wm n : touches S (kDelete proj meta wm n).
Proof using Hproj. unfold kDelete. frames. Qed.
End kind.

Ltac touches_table :=
  let w := fresh "w" in intros w; split; try done; intros [] Ht; solve [done | by exfalso; apply Ht].
Lemma modify_pvcs_touches f : T_pvc ∈ S → touches S (modify (λ w, w <| k_pvcs ::= f |>)).
Proof. intros Hs. touches_table. Qed.
Lemma modify_pvs_touches f : T_pv ∈ S → touches S (modify (λ w, w <| k_pvs ::= f |>)).
Proof. intros Hs. touches_table. Qed.
Lemma modify_vrs_touches f : T_vr ∈ S → touches S (modify (λ w, w <| k_vrs ::= f |>)).
Proof. intros Hs. touches_table. Qed.
Lemma modify_heap_touches f : T_heap ∈ S → touches S (modify (λ w, w <| v_heap ::= f |>)).
Proof. intros Hs. touches_table. Qed.
End calls.
#[export] Hint Resolve vtick_touches vnow_touches vapi_err_touches kGet_touches kList_touches : touch.

Section operations.
Context `{VolEnv} `{VRGConfig} {S : list table}.

Lemma Get_vr_touches n : touches S (Get_vr n).
Proof. apply kGet_touches. Qed.
Lemma Get_pv_touches n : touches S (Get_pv n).
Proof. apply kGet_touches. Qed.
Lemma Update_pvc_touches x : T_pvc ∈ S → touches S (Update_pvc x).
Proof. intros Hs. apply kUpdate_touches. intros f. by apply modify_pvcs_touches. Qed.
Lemma Update_pv_touches x : T_pv ∈ S → touches S (Update_pv x).
Proof. intros Hs. apply kUpdate_touches. intros f. by apply modify_pvs_touches. Qed.
Lemma Create_vr_touches x : T_vr ∈ S → touches S (Create_vr x).
Proof. intros Hs. apply kCreate_touches. intros f. by apply modify_vrs_touches. Qed.
Lemma Update_vr_touches x : T_vr ∈ S → touches S (Update_vr x).
Proof. intros Hs. apply kUpdate_touches. intros f. by apply modify_vrs_touches. Qed.
Lemma Delete_vr_touches n : T_vr ∈ S → touches S (Delete_vr n).
Proof. intros Hs. apply kDelete_touches. intros f. by apply modify_vrs_touches. Qed.
Lemma load_touches p : touches S (load p).
Proof. apply preserves_gets. apply _. Qed.
Lemma store_touches p x : T_heap ∈ S → touches S (store p x).
Proof. intros Hs. by apply modify_heap_touches. Qed.
End operations.
#[export] Hint Resolve Get_vr_touches Get_pv_touches Update_pvc_touches Update_pv_touches Create_vr_touches
  Update_vr_touches Delete_vr_touches load_touches store_touches : touch.
#[export] Hint Extern 3 (touches _ (modify _)) =>
  apply touches_local; intros ?; repeat split : touch.

Section bodies.
Context `{VolEnv} `{VRGConfig} {S : list table}.

Lemma Update_pvc_at_touches p : T_pvc ∈ S → T_heap ∈ S → touches S (Update_pvc_at p).
Proof. intros Hc Hh. unfold Update_pvc_at. frames. Qed.
Lemma report_event_touches a b c : touches S (report_event a b c).
Proof. unfold report_event. frames. Qed.
#[local] Hint Resolve Update_pvc_at_touches report_event_touches : touch.

Lemma update_entry_touches ns n f : touches S (modify_vrg (λ v, with_protected_pvc v ns n (f v))).
Proof. apply modify_vrg_touches, with_protected_pvc_identity. Qed.
#[local] Hint Resolve update_entry_touches : touch.
Lemma update_pvc_status_touches ns n set : touches S (update_pvc_status ns n set).
Proof.
  unfold update_pvc_status. apply preserves_bind; [apply _|touch_solver|intros now].
  apply (update_entry_touches ns n (λ v p, set now p (om_Generation (vrg_Meta v)))).
Qed.
#[local] Hint Resolve update_pvc_status_touches : touch.
Lemma updatePVCDataReadyCondition_touches ns n r m : touches S (updatePVCDataReadyCondition ns n r m).
Proof. apply update_pvc_status_touches. Qed.
Lemma updatePVCDataProtectedCondition_touches ns n r m : touches S (updatePVCDataProtectedCondition ns n r m).
Proof. apply update_pvc_status_touches. Qed.
Lemma pvc_error_touches pvc m : touches S (pvc_error pvc m).
Proof. apply update_pvc_status_touches. Qed.
#[local] Hint Resolve updatePVCDataReadyCondition_touches updatePVCDataProtectedCondition_touches pvc_error_touches : touch.

Lemma IsCRDInstalled_touches n : touches S (IsCRDInstalled n).
Proof. unfold IsCRDInstalled. frames. Qed.
#[local] Hint Resolve IsCRDInstalled_touches : touch.
Lemma isCGEnabled_touches pvc : touches S (isCGEnabled pvc).
Proof. unfold isCGEnabled, IsCGEnabledForVolRep. frames. Qed.
#[local] Hint Resolve isCGEnabled_touches : touch.
Lemma updatePVCLastSyncCounters_touches p st : touches S (updatePVCLastSyncCounters p st).
Proof. unfold updatePVCLastSyncCounters. frames; apply (update_entry_touches _ _ (λ _, _)). Qed.
#[local] Hint Resolve updatePVCLastSyncCounters_touches : touch.
Lemma for_each_touches {A} (f : A → VOp unit) l : (∀ x, touches S (f x)) → touches S (for_each f l).
Proof. apply for_each_preserves. apply _. Qed.

Lemma checkVRStatus_touches ptrs g st : touches S (checkVRStatus ptrs g st).
Proof.
  unfold checkVRStatus, validateGlobalVGRStatus, validateVRStatus, validate_completed, validateVRValidatedStatus,
    validateVRCompletedStatus, validateAdditionalVRStatusForSecondary, checkResyncCompletionAsSecondary,
    data_ready_all, data_ready_and_protected_all, checkAndUpdateDestinationInfoAvailable, checkAndUpdateReplicationHealthy.
  repeat first [progress frames | apply for_each_touches; intros ? | apply update_pvc_status_touches].
Qed.
End bodies.
#[export] Hint Resolve Update_pvc_at_touches report_event_touches update_entry_touches update_pvc_status_touches
  updatePVCDataReadyCondition_touches updatePVCDataProtectedCondition_touches pvc_error_touches
  IsCRDInstalled_touches isCGEnabled_touches updatePVCLastSyncCounters_touches checkVRStatus_touches : touch.

Section claims.
Context `{VolEnv} `{VRGConfig} {S : list table}.

Lemma updateReplicationClassList_touches : touches S updateReplicationClassList.
Proof. unfold updateReplicationClassList, IsCGEnabledForVolRep. frames. Qed.
Lemma getStorageClass_touches pvc : touches S (getStorageClass pvc).
Proof. unfold getStorageClass, getStorageClassFromSCName. frames. Qed.
#[local] Hint Resolve updateReplicationClassList_touches getStorageClass_touches : touch.
Lemma selectVolumeReplicationClass_touches pvc b : touches S (selectVolumeReplicationClass pvc b).
Proof. unfold selectVolumeReplicationClass. frames. Qed.
#[local] Hint Resolve selectVolumeReplicationClass_touches : touch.

Lemma isPVCInUse_touches pvc op : touches S (isPVCInUse pvc op).
Proof. unfold isPVCInUse, IsPVCInUseByPod, IsPVAttachedToNode. frames. Qed.
#[local] Hint Resolve isPVCInUse_touches : touch.
Lemma isPVCReadyForSecondary_touches pvc : touches S (isPVCReadyForSecondary pvc).
Proof. unfold isPVCReadyForSecondary. frames. Qed.

Lemma createVR_touches n st : T_vr ∈ S → touches S (createVR n st).
Proof. intros Hs. unfold createVR, getPVCForVRNSName. frames. Qed.
Lemma updateVR_touches p vr st : T_vr ∈ S → touches S (updateVR p vr st).
Proof. intros Hs. unfold updateVR. frames. Qed.
#[local] Hint Resolve createVR_touches updateVR_touches : touch.
Lemma createOrUpdateVR_touches n p st : T_vr ∈ S → touches S (createOrUpdateVR n p st).
Proof. intros Hs. unfold createOrUpdateVR. frames. Qed.
#[local] Hint Resolve createOrUpdateVR_touches : touch.
Lemma processVRAsPrimary_touches n p : T_vr ∈ S → touches S (processVRAsPrimary n p).
Proof. intros Hs. unfold processVRAsPrimary. frames. Qed.
Lemma processVRAsSecondary_touches n p : T_vr ∈ S → touches S (processVRAsSecondary n p).
Proof. intros Hs. unfold processVRAsSecondary. frames. Qed.
#[local] Hint Resolve processVRAsSecondary_touches isPVCReadyForSecondary_touches : touch.
Lemma reconcileVRAsSecondary_touches p : T_vr ∈ S → touches S (reconcileVRAsSecondary p).
Proof. intros Hs. unfold reconcileVRAsSecondary. frames. Qed.

Lemma deleteVR_touches n : T_vr ∈ S → touches S (deleteVR n).
Proof. intros Hs. unfold deleteVR, ensureVRDeletedFromAPIServer. frames. Qed.

Lemma pvcStatusDelete_identity ns n : same_identity (λ v, pvcStatusDeleteIfPresent v ns n).
Proof. intros v. unfold pvcStatusDeleteIfPresent. by destruct (FindProtectedPvcAndIndex v ns n) as [[] ?]. Qed.
Lemma preparePVCForVRDeletion_touches p : T_pvc ∈ S → T_pv ∈ S → T_heap ∈ S → touches S (preparePVCForVRDeletion p).
Proof.
  intros Hc Hv Hh. unfold preparePVCForVRDeletion, getPVFromPVC, pvc_status_delete. frames;
    apply modify_vrg_touches, pvcStatusDelete_identity.
Qed.
End claims.
#[export] Hint Resolve selectVolumeReplicationClass_touches isPVCInUse_touches isPVCReadyForSecondary_touches
  createOrUpdateVR_touches processVRAsPrimary_touches processVRAsSecondary_touches reconcileVRAsSecondary_touches
  deleteVR_touches preparePVCForVRDeletion_touches : touch.
