(* ===== verification/VolRepSpec.v ===== *)
(** Theorems about replicated claims and the groups they share. *)

From Stdlib Require Import ZArith.
From S2P Require Import Prelude Meta Names Conditions Api VRGStatus PolicyPeers Events Volumes VolRepStatus.
From S2P Require Import VolRepClasses VolRep ObjectStores VolGroupRep VRGAggregate VolScenario VRGAggregateSpec.
From S2P Require Import VolRepStatusSpec VolFrames.
#[local] Open Scope record_scope.

(** * Taking a claim to secondary and giving it up

    When a VolumeReplication is demoted, when a claim's protection is removed, and what
    happens to the reclaim policy of its volume in between. *)

(** The claim behind a pointer. *)
Definition claim (w : Volumes) (p : ptr) : PersistentVolumeClaim := default zero_pvc (v_heap w !! p).

Definition used_by_pod (pvc : PersistentVolumeClaim) (pod : Pod) : Prop :=
  pod_Namespace pod = pvc_namespace pvc ∧ pvc_name pvc ∈ pod_ClaimNames pod.

Section demotion.
Context `{VolEnv} `{VRGConfig}.

(** No call of the API server fails / a failed call does not look like a missing object. *)
Definition no_failures : Prop := ∀ t, kenv_api_err t = None.
Definition failures_not_NotFound : Prop := ∀ t e, kenv_api_err t = Some e → IsNotFound e = false.

Lemma filter_nil {A} (f : A → bool) l x : List.filter f l = [] → x ∈ l → f x = false.
Proof.
  intros Hf Hx. destruct (f x) eqn:Hfx; [|done].
  assert (List.In x (List.filter f l)) as Hin by (apply filter_In; split; [by apply list_elem_of_In|done]).
  by rewrite Hf in Hin.
Qed.

Lemma IsPVCInUseByPod_false n w :
  (IsPVCInUseByPod n false w).1 = (false, None) →
  ∀ pod, pod ∈ k_pods w → ¬ (pod_Namespace pod = n.1 ∧ n.2 ∈ pod_ClaimNames pod).
Proof.
  unfold IsPVCInUseByPod, kList. rewrite run_bind, or_return_run.
  destruct (vapi_err w).1; [done|]. rewrite run_bind. cbn [gets mret fst snd].
  destruct (List.filter _ _) eqn:Hf; [|done]. intros _ pod Hpod [Hns Hn].
  pose proof (filter_nil _ _ _ Hf Hpod) as Hfalse. cbn in Hfalse.
  by rewrite !bool_decide_eq_true_2 in Hfalse by done.
Qed.

(** A failure to list the attachments counts as none. *)
Lemma IsPVAttachedToNode_false pvc w :
  no_failures → (IsPVAttachedToNode pvc w).1 = (false, None) → pvcs_VolumeName (pvc_Spec pvc) ≠ "" →
  ∀ a, a ∈ k_attachments w → att_Source a ≠ Some (pvcs_VolumeName (pvc_Spec pvc)).
Proof.
  intros Hcalm Hr Hname a Ha Hsrc. revert Hr. unfold IsPVAttachedToNode, kList.
  rewrite bool_decide_eq_false_2 by done. rewrite run_bind, or_return_run.
  assert ((vapi_err w).1 = None) as -> by apply Hcalm. rewrite run_bind. cbn [gets mret fst snd].
  destruct (List.filter _ _) eqn:Hf; [|done]. intros _. pose proof (filter_nil _ _ _ Hf Ha) as Hfalse. cbn in Hfalse.
  by rewrite bool_decide_eq_true_2 in Hfalse.
Qed.

(** What [isPVCInUse] looked at before it said no. *)
Record unused (pvc : PersistentVolumeClaim) (w : Volumes) : Prop := {
  un_pods : ∀ pod, pod ∈ k_pods w → ¬ used_by_pod pvc pod;
  un_attached : no_failures → pvcs_VolumeName (pvc_Spec pvc) ≠ "" →
    ∀ a, a ∈ k_attachments w → att_Source a ≠ Some (pvcs_VolumeName (pvc_Spec pvc));
}.

Lemma flagged (r : bool * option GoError) : (r.2 ≠? None) || r.1 = false → r = (false, None).
Proof. destruct r as [[] []]; done. Qed.

Lemma isPVCInUse_false pvc op w : (isPVCInUse pvc op w).1 = false → unused pvc w.
Proof.
  unfold isPVCInUse. rewrite run_bind. destruct (_ || _) eqn:Hp; [by rewrite run_bind|].
  apply flagged in Hp. rewrite run_bind. destruct (_ || _) eqn:Ha; [by rewrite run_bind|]. intros _.
  apply flagged in Ha.
  assert (touches [] (IsPVCInUseByPod (pvc_nn pvc) false)) as Ht by (unfold IsPVCInUseByPod; frames).
  specialize (Ht w). split.
  - intros pod Hpod. by apply (IsPVCInUseByPod_false _ _ Hp).
  - intros Hcalm Hname a Hatt. apply (IsPVAttachedToNode_false _ _ Hcalm Ha Hname a).
    by rewrite (tc_attachments _ _ _ Ht).
Qed.

Lemma isPVCReadyForSecondary_true pvc w :
  (isPVCReadyForSecondary pvc w).1 = true →
  (vsp_Action (vrg_Spec (v_instance w)) = VRGActionFailover ∨ ResourceIsDeleted (pvc_Meta pvc) = true) ∧ unused pvc w.
Proof.
  unfold isPVCReadyForSecondary. rewrite run_bind. cbn [gets fst snd].
  destruct (_ && _) eqn:Hg; [by rewrite run_bind|]. rewrite run_bind. cbn [mret fst]. intros Hu.
  split; [|apply (isPVCInUse_false pvc "Secondary transition"); by destruct (isPVCInUse _ _ w).1].
  revert Hg. case_bool_decide; cbn [negb andb]; [by left|]. right. by destruct (ResourceIsDeleted _).
Qed.

(** C17: While a VRG is taken to secondary, the VolumeReplication of a claim is created or
    demoted only once the workload has let go of the claim: it is being deleted, or the
    action is a failover; no pod on the cluster uses it; and, as long as the calls of the
    API server succeed, its volume is attached to no node. *)
Theorem demoted_only_when_unused p w :
  let w' := (reconcileVRAsSecondary p w).2 in
  k_vrs w' ≠ k_vrs w →
  (vsp_Action (vrg_Spec (v_instance w)) = VRGActionFailover ∨ ResourceIsDeleted (pvc_Meta (claim w p)) = true) ∧
  (∀ pod, pod ∈ k_pods w → ¬ used_by_pod (claim w p) pod) ∧
  (no_failures → pvcs_VolumeName (pvc_Spec (claim w p)) ≠ "" →
   ∀ a, a ∈ k_attachments w → att_Source a ≠ Some (pvcs_VolumeName (pvc_Spec (claim w p)))).
Proof.
  intros w' Hch. subst w'. revert Hch. unfold reconcileVRAsSecondary. rewrite !run_bind. cbn [load gets fst snd].
  fold (claim w p). destruct (isPVCReadyForSecondary (claim w p) w).1 eqn:Hr; cbn [negb]; intros Hch.
  - apply isPVCReadyForSecondary_true in Hr as [? []]. done.
  - exfalso. apply Hch. cbn [mret snd].
    by apply (tc_tables [] w _ (isPVCReadyForSecondary_touches (claim w p) w) T_vr), not_elem_of_nil.
Qed.
End demotion.

(** ** Giving a claim up *)

Section release.
Context `{VolEnv} `{VRGConfig} (Herr : failures_not_NotFound).

Lemma kGet_NotFound {A} (proj : Volumes → gmap NamespacedName A) wm n w e :
  (kGet proj wm n w).1 = inr e → IsNotFound e = true → proj (w <| v_tick ::= S |>) !! n = None.
Proof using Herr.
  unfold kGet. rewrite or_return_run. destruct (vapi_err w).1 as [e'|] eqn:He; cbn [mret fst].
  - intros [= ->]. by rewrite (Herr (v_tick w)).
  - rewrite run_bind. cbn [gets fst snd mret]. change (vapi_err w).2 with (w <| v_tick ::= S |>).
    by destruct (proj _ !! n).
Qed.

Lemma Get_vr_NotFound n w e : (Get_vr n w).1 = inr e → IsNotFound e = true → k_vrs w !! n = None.
Proof using Herr. apply kGet_NotFound. Qed.

Lemma Delete_vr_NotFound n w e :
  (Delete_vr n w).1 = Some e → IsNotFound e = true → k_vrs w !! n = None.
Proof using Herr.
  unfold Delete_vr, kDelete. rewrite or_return_run. destruct (vapi_err w).1 as [e'|] eqn:He; cbn [mret fst].
  - intros [= ->]. by rewrite (Herr (v_tick w)).
  - rewrite run_bind. cbn [gets fst snd]. change (k_vrs (vapi_err w).2) with (k_vrs w).
    destruct (k_vrs w !! n); [|done]. rewrite !run_bind. by destruct (bool_decide _).
Qed.

(** A failed deletion changes nothing. *)
Lemma Delete_vr_failed n w e : (Delete_vr n w).1 = Some e → k_vrs (Delete_vr n w).2 = k_vrs w.
Proof.
  unfold Delete_vr, kDelete. rewrite or_return_run. destruct (vapi_err w).1 as [e'|] eqn:He; [done|].
  rewrite run_bind. cbn [gets fst snd]. change (k_vrs (vapi_err w).2) with (k_vrs w).
  destruct (k_vrs w !! n); [|done]. rewrite !run_bind. by destruct (bool_decide _).
Qed.

Lemma deleteVR_gone n w : (deleteVR n w).1 = None → k_vrs (deleteVR n w).2 !! n = None.
Proof using Herr.
  unfold deleteVR. rewrite run_bind. destruct (Delete_vr n w).1 as [e|] eqn:Hd.
  - cbn [mret fst snd]. destruct (IsNotFound e) eqn:Hnf; [|done]. intros _.
    change (k_vrs (Delete_vr n w).2 !! n = None). rewrite (Delete_vr_failed _ _ _ Hd). by apply (Delete_vr_NotFound n w e).
  - unfold ensureVRDeletedFromAPIServer. rewrite run_bind. cbn [mret fst snd].
    destruct (Get_vr n (Delete_vr n w).2).1 as [|e] eqn:Hg; [done|]. destruct (IsNotFound e) eqn:Hnf; [|done]. intros _.
    change (k_vrs (Get_vr n (Delete_vr n w).2).2 !! n = None).
    assert (k_vrs (Get_vr n (Delete_vr n w).2).2 = k_vrs (Delete_vr n w).2) as ->.
    { apply (tc_tables [] _ _ (Get_vr_touches n _) T_vr), not_elem_of_nil. }
    by apply (Get_vr_NotFound n _ e).
Qed.

(** The claims of [w] are still there, or the replication of the one at [p] is gone. *)
Definition released_cleanly (p : ptr) (w w' : Volumes) : Prop :=
  k_pvcs w' = k_pvcs w ∨ k_vrs w' !! pvc_nn (claim w p) = None.

Lemma touched_pvcs S w w' : touched S w w' → T_pvc ∉ S → k_pvcs w' = k_pvcs w.
Proof. intros [Ht] Hs. by apply (Ht T_pvc). Qed.
Lemma touched_vrs S w w' : touched S w w' → T_vr ∉ S → k_vrs w' = k_vrs w.
Proof. intros [Ht] Hs. by apply (Ht T_vr). Qed.
Lemma touched_claim S w w' p : touched S w w' → T_heap ∉ S → claim w' p = claim w p.
Proof. intros [Ht] Hs. unfold claim. by rewrite (Ht T_heap). Qed.

Lemma released_after S p w w1 w2 :
  touched S w w1 → T_pvc ∉ S → T_heap ∉ S → released_cleanly p w1 w2 → released_cleanly p w w2.
Proof.
  intros Ht Hc Hh. unfold released_cleanly. by rewrite (touched_pvcs _ _ _ Ht Hc), (touched_claim _ _ _ _ Ht Hh).
Qed.

Lemma undo_releases p w : released_cleanly p w (undoPVCFinalizersAndPVRetention p w).2.
Proof using Herr.
  unfold undoPVCFinalizersAndPVRetention. rewrite run_bind. cbn [load gets fst snd]. fold (claim w p).
  rewrite or_return_run. pose proof (deleteVR_touches (S := [T_vr]) (pvc_nn (claim w p)) ltac:(set_solver) w) as Hdel.
  destruct (deleteVR _ w).1 eqn:Hd; [left; by apply (touched_pvcs _ _ _ Hdel); set_solver|]. right.
  apply deleteVR_gone in Hd. set (w1 := (deleteVR _ w).2) in *. rewrite or_return_run.
  pose proof (preparePVCForVRDeletion_touches (S := [T_pvc; T_pv; T_heap]) p ltac:(set_solver) ltac:(set_solver)
                ltac:(set_solver) w1) as Hprep.
  destruct (preparePVCForVRDeletion p w1).1; rewrite run_ret; cbn [snd]; by rewrite (touched_vrs _ _ _ Hprep ltac:(set_solver)).
Qed.

Lemma unchanged_release S p w w' : touched S w w' → T_pvc ∉ S → released_cleanly p w w'.
Proof. intros Ht Hs. left. by apply (touched_pvcs _ _ _ Ht). Qed.

(** [reconcileMissingVR] gives the claim up when the replication is already gone, and says so. *)
Lemma reconcileMissingVR_releases p w :
  let r := reconcileMissingVR p w in
  released_cleanly p w r.2 ∧ (r.1.1 || r.1.2 = false → touched [] w r.2).
Proof using Herr.
  intros r. subst r. unfold reconcileMissingVR. rewrite run_bind. cbn [gets fst snd].
  destruct (_ =? _); [split; [by left|done]|]. rewrite !run_bind. cbn [load gets fst snd]. fold (claim w p).
  pose proof (Get_vr_touches (S := []) (pvc_nn (claim w p)) w) as Hget.
  destruct (Get_vr _ w).1 as [volRep|e] eqn:Hg.
  { split; [|done]. rewrite run_ret. by apply (unchanged_release _ _ _ _ Hget), not_elem_of_nil. }
  destruct (IsNotFound e) eqn:Hnf; cbn [negb].
  2:{ split; [|done]. rewrite run_ret. by apply (unchanged_release _ _ _ _ Hget), not_elem_of_nil. }
  pose proof (Get_vr_NotFound _ _ _ Hg Hnf) as Hgone. rewrite or_return_run. set (w1 := (Get_vr _ w).2) in *.
  pose proof (preparePVCForVRDeletion_touches (S := [T_pvc; T_pv; T_heap]) p ltac:(set_solver) ltac:(set_solver)
                ltac:(set_solver) w1) as Hprep.
  split; [|by destruct (preparePVCForVRDeletion p w1).1; rewrite run_ret]. right.
  assert (k_vrs (preparePVCForVRDeletion p w1).2 !! pvc_nn (claim w p) = None) as Hend.
  { by rewrite (touched_vrs _ _ _ Hprep ltac:(set_solver)), (touched_vrs _ _ _ Hget ltac:(set_solver)). }
  by destruct (preparePVCForVRDeletion p w1).1; rewrite run_ret.
Qed.

Lemma reconcilePVCVRAsSecondary_releases p w : released_cleanly p w (reconcilePVCVRAsSecondary p w).2.
Proof using Herr.
  unfold reconcilePVCVRAsSecondary. rewrite run_bind.
  destruct (reconcileMissingVR_releases p w) as [Hrel Hsame]. destruct (_ || _) eqn:Hm; [by rewrite run_ret|].
  specialize (Hsame eq_refl). eapply released_after; [exact Hsame|set_solver|set_solver|].
  generalize (reconcileMissingVR p w).2. clear w Hrel Hsame Hm. intros w. rewrite run_bind.
  pose proof (reconcileVRAsSecondary_touches (S := [T_vr]) p ltac:(set_solver) w) as Hrec.
  destruct (reconcileVRAsSecondary p w).1 as [[requeue ready] skip]. destruct (_ || _ || _).
  - rewrite run_ret. by apply (unchanged_release _ _ _ _ Hrec); set_solver.
  - eapply released_after; [exact Hrec|set_solver|set_solver|apply undo_releases].
Qed.

Lemma reconcileVRForDeletion_releases p w : released_cleanly p w (reconcileVRForDeletion p w).2.
Proof using Herr.
  unfold reconcileVRForDeletion. rewrite !run_bind. cbn [load gets fst snd]. fold (claim w p).
  destruct (_ =? _); rewrite run_bind.
  - pose proof (reconcileVRAsSecondary_touches (S := [T_vr]) p ltac:(set_solver) w) as Hrec.
    destruct (reconcileVRAsSecondary p w).1 as [[[] ready] skip]; [|destruct (_ || _)].
    1, 2: rewrite run_ret; by apply (unchanged_release _ _ _ _ Hrec); set_solver.
    eapply released_after; [exact Hrec|set_solver|set_solver|apply undo_releases].
  - pose proof (processVRAsPrimary_touches (S := [T_vr]) (pvc_nn (claim w p)) p ltac:(set_solver) w) as Hrec.
    destruct (processVRAsPrimary _ p w).1 as [[requeue ready] err]. destruct (_ || _ || _).
    + rewrite run_ret. by apply (unchanged_release _ _ _ _ Hrec); set_solver.
    + eapply released_after; [exact Hrec|set_solver|set_solver|apply undo_releases].
Qed.

End release.

(** C18: A claim is given up, its finalizer, owner and marks removed, only after its
    VolumeReplication is gone from the API server: both when a VRG goes to secondary and
    when it is deleted, the stored claims change only if no VolumeReplication of the name
    is left.  (A call that fails does not fail with NotFound, which is kept for objects
    that are not there.) *)
Theorem released_after_replication_is_gone `{VolEnv} `{VRGConfig} p w m :
  failures_not_NotFound → m ∈ [reconcilePVCVRAsSecondary p; reconcileVRForDeletion p] →
  k_pvcs (m w).2 ≠ k_pvcs w → k_vrs (m w).2 !! pvc_nn (claim w p) = None.
Proof.
  intros Herr Hm Hch. assert (released_cleanly p w (m w).2) as [?|?]; [|done..].
  apply elem_of_cons in Hm as [->|Hm]; [by apply reconcilePVCVRAsSecondary_releases|].
  apply list_elem_of_singleton in Hm as ->. by apply reconcileVRForDeletion_releases.
Qed.

(** ** The reclaim policy *)

Section retention.
Context `{VolEnv} `{VRGConfig} (Hcalm : no_failures).

Lemma Get_pv_found name pv w :
  k_pvs w !! ("", name) = Some pv → om_Namespace (pv_Meta pv) = "" → om_Name (pv_Meta pv) = name →
  Get_pv name w = (inl pv, w <| v_tick ::= S |>).
Proof using Hcalm.
  intros Hpv Hns Hn. unfold Get_pv, kGet. rewrite or_return_run. assert ((vapi_err w).1 = None) as -> by apply Hcalm.
  rewrite run_bind. cbn [gets fst snd]. change (k_pvs (vapi_err w).2) with (k_pvs w). rewrite Hpv. cbn [fst snd].
  rewrite run_ret. by destruct pv as [[] ? ?]; simpl in *; subst.
Qed.

(** An update of a volume that is not being deleted is stored. *)
Lemma Update_pv_stored (x old : PersistentVolume) w :
  k_pvs w !! object_key pv_Meta x = Some old → ResourceIsDeleted (pv_Meta old) = false →
  let r := Update_pv x w in
  let x' := merge_pv old x <| pv_Meta ::= λ m, m <| om_ResourceVersion := kenv_resourceVersion (S (v_tick w)) |> |> in
  r.1 = inl x' ∧ k_pvs r.2 = <[object_key pv_Meta x := x']> (k_pvs w).
Proof using Hcalm.
  intros Hold Hdel r x'. subst r. unfold Update_pv, kUpdate. rewrite or_return_run.
  assert ((vapi_err w).1 = None) as -> by apply Hcalm. rewrite run_bind. cbn [gets fst snd].
  change (k_pvs (vapi_err w).2) with (k_pvs w). rewrite Hold, !run_bind.
  destruct (_ && _) eqn:Hb; [|done]. exfalso. revert Hb. unfold ResourceIsDeleted in *. cbn in *.
  by rewrite Hdel.
Qed.

(** Retaining the volume of a claim and undoing it give the volume back: while the
    claim is protected its volume has the policy Retain, and [undoPVRetention] makes of
    it the volume there was (but for the version the API server gave it), the policy and
    the annotations included.  The volume is bound and had the policy Retain or Delete and
    no mark of an earlier retention. *)
Theorem retention_round_trip pvc pv w :
  let name := pvcs_VolumeName (pvc_Spec pvc) in
  k_pvs w !! ("", name) = Some pv → om_Namespace (pv_Meta pv) = "" → om_Name (pv_Meta pv) = name →
  ResourceIsDeleted (pv_Meta pv) = false → om_Annotations (pv_Meta pv) !! pvVRAnnotationRetentionKey = None →
  pvs_ReclaimPolicy (pv_Spec pv) ∈ [ReclaimRetain; ReclaimDelete] →
  let r := retainPVForPVC pvc w in
  r.1 = None ∧
  ∃ pv', k_pvs r.2 = <[("", name) := pv']> (k_pvs w) ∧ pvs_ReclaimPolicy (pv_Spec pv') = ReclaimRetain ∧
    undoPVRetention pv' = pv <| pv_Meta ::= λ m, m <| om_ResourceVersion := om_ResourceVersion (pv_Meta pv') |> |>.
Proof using Hcalm.
  intros name Hpv Hns Hn Hdel Hmark Hpol r. subst r. unfold retainPVForPVC. rewrite run_bind. cbn [gets fst snd].
  rewrite result_or_return_run. fold name. rewrite (Get_pv_found name pv w) by done. cbn [fst snd].
  apply elem_of_cons in Hpol as [Hp|Hp%list_elem_of_singleton].
  - rewrite bool_decide_eq_true_2 by done. split; [done|]. exists pv. split; [by rewrite run_ret, insert_id|]. split; [done|].
    unfold undoPVRetention. rewrite Hmark. by destruct pv as [[] ? ?].
  - rewrite bool_decide_eq_false_2 by congruence. unfold addAnnotationForResource.
    change (om_Annotations (pv_Meta (pv <| pv_Spec ::= _ |>))) with (om_Annotations (pv_Meta pv)).
    rewrite Hmark, bool_decide_eq_false_2, !run_bind by done. unfold update_pv_meta. rewrite !run_bind.
    set (x := pv <| pv_Spec ::= _ |> <| pv_Meta := _ |>).
    assert (object_key pv_Meta x = ("", name)) as Hkey by (unfold object_key; cbn; congruence).
    destruct (Update_pv_stored x pv (w <| v_tick ::= S |>)) as [-> Hstored]; [by rewrite Hkey|done|].
    rewrite Hkey in Hstored. split; [done|]. eexists. split; [exact Hstored|]. split; [done|].
    unfold undoPVRetention, x. cbn. rewrite lookup_insert, bool_decide_eq_true_2 by done. cbn.
    destruct pv as [[] [] ?]. cbn in *. by rewrite delete_insert_id, Hp.
Qed.
End retention.

(** ** Evaluated *)

Section witnesses.
#[local] Existing Instance calm_volenv.
#[local] Existing Instance default_vrgconfig.

(** A claim that is being deleted. *)
Definition leaving_pvc : PersistentVolumeClaim := the_pvc <| pvc_Meta ::= λ m, m <| om_DeletionTimestamp := Some 5%Z |> |>.
Definition leaving (vr : VRReplicationState) : Volumes :=
  the_volumes Secondary VRGActionRelocate vr
    <| k_pvcs := {[("app", "data") := leaving_pvc]} |> <| v_heap := [leaving_pvc] |>.

Lemma demoted_only_when_unused_witness :
  k_vrs (reconcileVRAsSecondary 0 (leaving VRPrimary)).2 ≠ k_vrs (leaving VRPrimary) ∧
  (VRGActionRelocate = VRGActionFailover ∨ ResourceIsDeleted (pvc_Meta leaving_pvc) = true).
Proof.
  assert (k_vrs (reconcileVRAsSecondary 0 (leaving VRPrimary)).2 ≠ k_vrs (leaving VRPrimary)) as Hch.
  { intros Heq.
    apply (f_equal (λ m : gmap _ VolumeReplication, vrp_ReplicationState ∘ vr_Spec <$> m !! ("app", "data"))) in Heq.
    vm_compute in Heq. discriminate. }
  exact (conj Hch (proj1 (demoted_only_when_unused 0 (leaving VRPrimary) Hch))).
Defined.

Lemma released_after_replication_is_gone_witness :
  k_vrs (reconcilePVCVRAsSecondary 0 (leaving VRSecondary)).2 !! ("app", "data") = None.
Proof.
  apply (released_after_replication_is_gone 0 (leaving VRSecondary) (reconcilePVCVRAsSecondary 0)).
  - done.
  - apply elem_of_cons. by left.
  - intros Heq.
    apply (f_equal (λ m : gmap _ PersistentVolumeClaim, om_Finalizers ∘ pvc_Meta <$> m !! ("app", "data"))) in Heq.
    vm_compute in Heq. discriminate.
Defined.

Lemma retention_round_trip_witness :
  (retainPVForPVC the_pvc (the_volumes Primary VRGActionNone VRPrimary)).1 = None.
Proof.
  apply (retention_round_trip (H := calm_volenv) (λ _, eq_refl) the_pvc the_pv (the_volumes Primary VRGActionNone VRPrimary));
    try by vm_compute.
  apply elem_of_cons. right. by apply list_elem_of_singleton.
Defined.
End witnesses.

(** * Agreement on a shared group

    A global VolumeGroupReplication is shared between VRGs: when one of them may change
    it, and when it may delete it. *)

Definition sharing (v o : VolumeReplicationGroup) : Prop :=
  om_Labels (vrg_Meta o) !! GlobalVGRLabel = Some (globalVGRLabel v).

Section consensus.
Context `{VolEnv} `{VRGConfig}.

Lemma set_vrg_condition_touches S t st r m : touches S (set_vrg_condition t st r m).
Proof.
  unfold set_vrg_condition. apply preserves_bind; [apply _|touch_solver|intros now]. by apply modify_vrg_touches.
Qed.
Lemma isGlobalStateInConsensus_touches : touches [] isGlobalStateInConsensus.
Proof.
  unfold isGlobalStateInConsensus, list_sharing, setGlobalStateCondition.
  repeat first [progress frames | apply set_vrg_condition_touches].
Qed.

(** The VRGs that share the label, if the list succeeds. *)
Lemma list_sharing_run v w vrgs :
  (list_sharing v w).1 = inl vrgs → ∀ o, o ∈ k_vrgs w → sharing v o → o ∈ vrgs.
Proof.
  unfold list_sharing, kList. rewrite or_return_run. destruct (vapi_err w).1; [done|]. rewrite run_bind. cbn [gets fst snd].
  rewrite run_ret. intros [= <-] o Ho Hs. change (k_vrgs (vapi_err w).2) with (k_vrgs w).
  apply list_elem_of_In, filter_In. split; [by apply list_elem_of_In|]. by rewrite bool_decide_eq_true_2.
Qed.

Lemma isGlobalStateInConsensus_true w :
  (isGlobalStateInConsensus w).1 = true →
  ∀ o, o ∈ k_vrgs w → sharing (v_instance w) o →
    same_vrg o (v_instance w) = true ∨
    vsp_ReplicationState (vrg_Spec o) = vsp_ReplicationState (vrg_Spec (v_instance w)).
Proof.
  unfold isGlobalStateInConsensus. rewrite run_bind. cbn [gets fst snd]. cbv zeta. rewrite result_or_return_run.
  pose proof (list_sharing_run (v_instance w) w) as Hl. destruct (list_sharing _ w).1 as [vrgs|]; [|done].
  specialize (Hl vrgs eq_refl). destruct (List.filter _ vrgs) eqn:Hf; [|by rewrite run_bind]. intros _ o Ho Hs.
  pose proof (filter_nil _ _ _ Hf (Hl o Ho Hs)) as Hno. cbn in Hno.
  destruct (same_vrg o (v_instance w)); [by left|]. right. revert Hno. by case_bool_decide.
Qed.

Lemma isGlobalDeleteInConsensus_true w :
  (isGlobalDeleteInConsensus w).1 = true →
  ∀ o, o ∈ k_vrgs w → sharing (v_instance w) o → ResourceIsDeleted (vrg_Meta o) = true.
Proof.
  unfold isGlobalDeleteInConsensus. rewrite run_bind. cbn [gets fst snd]. rewrite result_or_return_run.
  pose proof (list_sharing_run (v_instance w) w) as Hl. destruct (list_sharing _ w).1 as [vrgs|]; [|done].
  specialize (Hl vrgs eq_refl). rewrite run_ret. cbn [fst]. rewrite forallb_forall. intros Hall o Ho Hs.
  apply Hall. by apply list_elem_of_In, Hl.
Qed.

Lemma unchanged_vgrs S w w' : touched S w w' → T_vgr ∉ S → k_vgrs w' = k_vgrs w.
Proof. intros [Ht] Hs. by apply (Ht T_vgr). Qed.

(** Either the group is as it was or the VRGs agree. *)
Definition agreed (w w' : Volumes) : Prop := k_vgrs w' = k_vgrs w ∨ (isGlobalStateInConsensus w).1 = true.

Lemma primary_agreed g w : hasGlobalVGRLabel (v_instance w) = true → agreed w (reconcileVolGroupRepsAsPrimary g w).2.
Proof.
  intros Hg. unfold agreed, reconcileVolGroupRepsAsPrimary. rewrite !run_bind. cbn [gets fst snd]. cbv zeta. rewrite Hg.
  destruct (isGlobalStateInConsensus w).1; [by right|]. left.
  exact (unchanged_vgrs _ _ _ (isGlobalStateInConsensus_touches w) (not_elem_of_nil _)).
Qed.

Lemma secondary_agreed b g w :
  hasGlobalVGRLabel (v_instance w) = true → agreed w (reconcileVolGroupRepsAsSecondary b g w).2.
Proof.
  intros Hg. unfold agreed, reconcileVolGroupRepsAsSecondary. rewrite run_bind. cbn [gets fst snd]. rewrite Hg.
  cbn [andb]. case_bool_decide.
  - left. rewrite run_bind. exact (unchanged_vgrs _ _ _ (set_vrg_condition_touches [] _ _ _ _ w) (not_elem_of_nil _)).
  - rewrite run_bind. destruct (isGlobalStateInConsensus w).1; [by right|]. left.
    exact (unchanged_vgrs _ _ _ (isGlobalStateInConsensus_touches w) (not_elem_of_nil _)).
Qed.

(** C37: the reconciles of a VRG as a primary and as a secondary change a global
    VolumeGroupReplication that it shares, or any other, only if every other VRG with the
    same label asks for the same replication state; and [deleteGlobalVGR] deletes one only
    if every VRG with the label is being deleted.  (The steps of a VRG's own deletion,
    [reconcileVGRForDeletion] and [deleteVGRIfUnused], ask nobody.) *)
Theorem shared_group_changes_by_consensus b g w :
  hasGlobalVGRLabel (v_instance w) = true →
  (∀ w', w' ∈ [(reconcileVolGroupRepsAsPrimary g w).2; (reconcileVolGroupRepsAsSecondary b g w).2] →
     k_vgrs w' ≠ k_vgrs w →
     ∀ o, o ∈ k_vrgs w → sharing (v_instance w) o → same_vrg o (v_instance w) = false →
       vsp_ReplicationState (vrg_Spec o) = vsp_ReplicationState (vrg_Spec (v_instance w))) ∧
  (k_vgrs (deleteGlobalVGR w).2 ≠ k_vgrs w →
   ∀ o, o ∈ k_vrgs w → sharing (v_instance w) o → ResourceIsDeleted (vrg_Meta o) = true).
Proof.
  intros Hg. split.
  - intros w' Hw' Hch o Ho Hs Hother. assert (agreed w w') as [?|Hcons]; [|done|].
    { apply elem_of_cons in Hw' as [->|Hw']; [by apply primary_agreed|].
      apply list_elem_of_singleton in Hw' as ->. by apply secondary_agreed. }
    destruct (isGlobalStateInConsensus_true w Hcons o Ho Hs) as [Hsame|Hst]; [congruence|done].
  - unfold deleteGlobalVGR. rewrite run_bind. destruct (isGlobalDeleteInConsensus w).1 eqn:Hcons; cbn [negb].
    + intros _. by apply isGlobalDeleteInConsensus_true.
    + intros Hch. exfalso. apply Hch. rewrite run_ret. cbn [snd].
      assert (touches [] isGlobalDeleteInConsensus) as Ht by (unfold isGlobalDeleteInConsensus, list_sharing; frames).
      exact (unchanged_vgrs _ _ _ (Ht w) (not_elem_of_nil _)).
Qed.
End consensus.

(** ** Evaluated *)

Section consensus_witness.
#[local] Existing Instance calm_volenv.
#[local] Existing Instance default_vrgconfig.

(** Two VRGs, both to be primary, and a group that is secondary. *)
Definition labelled (name : string) : VolumeReplicationGroup :=
  the_vrg Primary VRGActionFailover
    <| vrg_Meta ::= λ m, m <| om_Name := name |> <| om_Labels := {[GlobalVGRLabel := "gvgr"]} |> |>.
Definition the_group : VolumeGroupReplication :=
  mkVGR (named_meta "gvgr" "ramen-system") (mkVGRSpec VRSecondary "" "vgrc-class" "" true false None) zero_vrstatus [].
Definition shared : Volumes :=
  no_volumes (labelled "vrg") <| k_vrgs := [labelled "vrg"; labelled "vrg2"] |>
    <| k_vgrs := {[("ramen-system", "gvgr") := the_group]} |>
    <| k_pvcs := {[("app", "data") := the_pvc]} |> <| v_heap := [the_pvc] |>.
Definition the_groups : gmap NamespacedName (list ptr) := {[("ramen-system", "gvgr") := [0]]}.

Lemma shared_group_changes_by_consensus_witness :
  vsp_ReplicationState (vrg_Spec (labelled "vrg2")) = Primary.
Proof.
  refine (proj1 (shared_group_changes_by_consensus false the_groups shared _) _ (list_elem_of_here _ _) _ _ _ _ _).
  - by vm_compute.
  - intros Heq. apply (f_equal (λ m : gmap _ VolumeGroupReplication,
      vgp_ReplicationState ∘ vgr_Spec <$> m !! ("ramen-system", "gvgr"))) in Heq. vm_compute in Heq. discriminate.
  - apply elem_of_cons. right. apply list_elem_of_here.
  - by vm_compute.
  - by vm_compute.
Defined.
End consensus_witness.
