(* ===== verification/ClusterDataSpec.v ===== *)
(** Theorems about the cluster data of a VRG: what a restore and an upload achieve. *)

From Stdlib Require Import ZArith.
From stdpp Require Import sorting.
From S2P Require Import Prelude Meta Names Conditions Api VRGStatus PolicyPeers Events Volumes VolRepStatus.
From S2P Require Import VolRepClasses VolRep ObjectStores VolGroupRep VolRepRestore VRGAggregate VolScenario.
From S2P Require Import VRGAggregateSpec VolRepStatusSpec VolFrames VolRepSpec.
#[local] Open Scope record_scope.

(** * What restoring achieves

    A restore of claims that succeeds has every claim of the store on the cluster, of
    the volume it had; and what becomes of a store whose volumes and claims do not match. *)

(** ** Claims *)

Abbreviation volume_of x := (pvcs_VolumeName (pvc_Spec x)).

(** A claim of the name of [pvc] is there, of the same volume. *)
Definition on_cluster (w : Volumes) (pvc : PersistentVolumeClaim) : Prop :=
  ∃ x, k_pvcs w !! pvc_nn pvc = Some x ∧ volume_of x = volume_of pvc.

(** No claim leaves, or moves to another volume. *)
Definition claims_kept (w w' : Volumes) : Prop :=
  ∀ n x, k_pvcs w !! n = Some x → ∃ x', k_pvcs w' !! n = Some x' ∧ volume_of x' = volume_of x.
#[export] Instance claims_kept_order : PreOrder claims_kept.
Proof.
  split; [by intros w n x Hx; exists x|]. intros w1 w2 w3 H12 H23 n x Hx.
  destruct (H12 n x Hx) as (x' & Hx' & Hv). destruct (H23 n x' Hx') as (x'' & ? & ?). exists x''. split; congruence.
Qed.

Lemma on_cluster_kept w w' pvc : claims_kept w w' → on_cluster w pvc → on_cluster w' pvc.
Proof. intros Hk (x & Hx & Hv). destruct (Hk _ _ Hx) as (x' & ? & ?). exists x'. split; congruence. Qed.

Lemma same_pvcs_kept w w' : k_pvcs w' = k_pvcs w → claims_kept w w'.
Proof. intros Heq n x Hx. exists x. by rewrite Heq. Qed.

Section restore_claims.
Context `{VolEnv} `{VRGConfig}.

Lemma touched_kept S w w' : touched S w w' → T_pvc ∉ S → claims_kept w w'.
Proof. intros Ht Hs. by apply same_pvcs_kept, (touched_pvcs _ _ _ Ht). Qed.

(** The table after a write, as an insertion. *)
Ltac stored Hst :=
  match goal with
  | |- claims_kept ?w ?after ∧ _ =>
      eassert (k_pvcs after = <[_ := _]> (k_pvcs w)) as Hst by reflexivity;
      let w' := fresh "w'" in generalize dependent after; intros w' Hst
  end.

Lemma Create_pvc_run pvc w :
  let r := Create_pvc pvc w in
  claims_kept w r.2 ∧ (r.1 = None → on_cluster r.2 pvc).
Proof.
  intros r. subst r. unfold Create_pvc, kCreate. rewrite or_return_run.
  destruct (vapi_err w).1; [split; [by apply same_pvcs_kept|done]|]. rewrite run_bind. cbn [gets fst snd].
  change (k_pvcs (vapi_err w).2) with (k_pvcs w). destruct (k_pvcs w !! _) as [old|] eqn:Hold.
  { split; [by apply same_pvcs_kept|done]. }
  rewrite !run_bind. stored Hst. split.
  - intros n x Hx. exists x. split; [|done]. rewrite Hst. rewrite lookup_insert_ne; congruence.
  - intros _. unfold on_cluster. rewrite Hst. eexists. split; [apply lookup_insert_eq|done].
Qed.

(** An update of a claim that is there, not being deleted, and of the same volume. *)
Lemma Update_pvc_run pvc old w :
  k_pvcs w !! pvc_nn pvc = Some old → ResourceIsDeleted (pvc_Meta old) = false → volume_of old = volume_of pvc →
  let r := Update_pvc pvc w in claims_kept w r.2 ∧ on_cluster r.2 pvc.
Proof.
  intros Hold Hdel Hvol r. subst r. unfold Update_pvc, kUpdate. rewrite or_return_run.
  change (object_key pvc_Meta pvc) with (pvc_nn pvc).
  destruct (vapi_err w).1; [split; [by apply same_pvcs_kept|by exists old]|]. rewrite run_bind. cbn [gets fst snd].
  change (k_pvcs (vapi_err w).2) with (k_pvcs w). rewrite Hold, !run_bind.
  destruct (_ && _) eqn:Hb; [exfalso; revert Hb; unfold ResourceIsDeleted in *; cbn in *; by rewrite Hdel|].
  stored Hst. unfold on_cluster, claims_kept.
  rewrite Hst. split.
  - intros n x Hx. destruct (decide (n = pvc_nn pvc)) as [->|Hne].
    + eexists. split; [apply lookup_insert_eq|]. cbn. congruence.
    + exists x. by rewrite lookup_insert_ne.
  - eexists. split; [apply lookup_insert_eq|done].
Qed.

Lemma validateExistingPVC_None pvc w :
  let r := validateExistingPVC pvc w in
  k_pvcs r.2 = k_pvcs w ∧
  (r.1 = None → ∃ old, k_pvcs w !! pvc_nn pvc = Some old ∧ ResourceIsDeleted (pvc_Meta old) = false ∧
                       volume_of old = volume_of pvc ∧ pvc_Phase old = ClaimBound).
Proof.
  intros r. subst r. unfold validateExistingPVC. rewrite result_or_return_run.
  unfold Get_pvc, kGet. rewrite or_return_run. destruct (vapi_err w).1; [done|]. rewrite run_bind. cbn [gets fst snd].
  change (k_pvcs (vapi_err w).2) with (k_pvcs w). rewrite run_ret.
  destruct (k_pvcs w !! pvc_nn pvc) as [old|] eqn:Hold; cbn [fst snd]; [|done]. rewrite run_ret. split; [done|].
  cbn [fst]. case_bool_decide; [|done]. cbn [negb]. destruct (ResourceIsDeleted _) eqn:Hdel; [done|].
  case_bool_decide; [|done]. intros _. exists old. eauto.
Qed.

Abbreviation annotated pvc := (rs_annotate restorable_pvc (cleanupPVCForRestore pvc)).

Lemma handleExistingObject_run pvc w :
  let r := handleExistingObject restorable_pvc pvc w in
  claims_kept w r.2 ∧ (r.1 = true → on_cluster r.2 pvc).
Proof.
  intros r. subst r. unfold handleExistingObject, restorable_pvc. cbn [rs_validate rs_update]. rewrite or_return_run.
  destruct (validateExistingPVC_None pvc w) as [Hsame Hnone].
  destruct (validateExistingPVC pvc w).1; [split; [by apply same_pvcs_kept|done]|].
  destruct (Hnone eq_refl) as (old & Hold & Hdel & Hvol & _). set (w1 := (validateExistingPVC pvc w).2) in *.
  rewrite or_return_run, run_bind.
  destruct (Update_pvc_run pvc old w1) as [Hk Hon]; [by rewrite Hsame|done|done|].
  assert (claims_kept w (Update_pvc pvc w1).2) as Hk' by (etransitivity; [by apply same_pvcs_kept|done]).
  by destruct (Update_pvc pvc w1).1.
Qed.

Lemma cleanup_pvc_run pvc w : ∃ w', cleanup_pvc pvc w = (inl (cleanupPVCForRestore pvc), w') ∧ k_pvcs w' = k_pvcs w.
Proof.
  unfold cleanup_pvc. rewrite run_bind, run_ret. eexists. split; [done|].
  assert (touches [] (validateVolumeAttributesClassForRestore (cleanupPVCForRestore pvc))) as Ht.
  { unfold validateVolumeAttributesClassForRestore, validateVolumeAttributeClassExists. frames. }
  by apply (touched_pvcs _ _ _ (Ht w)), not_elem_of_nil.
Qed.

(** The loop counts the claims it finds on the cluster in the end. *)
Lemma restore_claims_run l c w n e w' :
  restore_objects restorable_pvc l c w = ((n, e), w') →
  claims_kept w w' ∧ n ≤ c + length l ∧ (n = c + length l → Forall (on_cluster w') l).
Proof.
  revert c w. induction l as [|pvc l IH]; intros c w; cbn [restore_objects length].
  { rewrite run_ret. intros [= -> <- <-]. split; [done|]. split; [lia|constructor]. }
  rewrite result_or_return_run. change (rs_cleanup restorable_pvc) with cleanup_pvc.
  destruct (cleanup_pvc_run pvc w) as (w1 & -> & Hsame). cbn [fst snd]. cbv zeta.
  change (rs_create restorable_pvc) with Create_pvc.
  rewrite run_bind. destruct (Create_pvc_run (annotated pvc) w1) as [Hk Hon].
  assert (claims_kept w (Create_pvc (annotated pvc) w1).2) as Hk1 by (etransitivity; [by apply same_pvcs_kept|done]).
  clear Hk Hsame. change (pvc_nn (annotated pvc)) with (pvc_nn pvc) in *. set (w2 := (Create_pvc _ w1).2) in *.
  destruct (Create_pvc (annotated pvc) w1).1 as [e1|] eqn:Hc.
  - destruct (IsAlreadyExists e1).
    + rewrite run_bind. destruct (handleExistingObject_run (annotated pvc) w2) as [Hk2 Hon2].
      set (w3 := (handleExistingObject _ _ w2).2) in *. destruct (handleExistingObject _ _ w2).1; intros Hr.
      * apply IH in Hr as (Hk3 & Hle & Hall). split; [by do 2 (etransitivity; [done|])|]. split; [lia|].
        intros Hn. constructor; [|apply Hall; lia]. by apply (on_cluster_kept w3), Hon2.
      * apply IH in Hr as (Hk3 & Hle & _). split; [by do 2 (etransitivity; [done|])|]. split; lia.
    + intros Hr. apply IH in Hr as (Hk3 & Hle & _). split; [by etransitivity|]. split; lia.
  - intros Hr. apply IH in Hr as (Hk3 & Hle & Hall). split; [by etransitivity|]. split; [lia|].
    intros Hn. constructor; [|apply Hall; lia]. by apply (on_cluster_kept w2), Hon.
Qed.
End restore_claims.

Section restored.
Context `{VolEnv} `{VRGConfig}.

Lemma append_claims_pvcs l : preserves (λ w w', k_pvcs w' = k_pvcs w) (append_claims l).
Proof.
  assert (PreOrder (λ w w', k_pvcs w' = k_pvcs w)) by (split; [by intros ?|intros ??? ? ?; congruence]).
  induction l as [|pvc l IH]; cbn [append_claims]; [by intros w|].
  apply preserves_bind; [done|by intros w|intros p]. apply preserves_bind; [done|by intros w|done].
Qed.

Lemma list_pages_touches S fuel s pfx token keys : touches S (list_pages fuel s pfx token keys).
Proof.
  revert token keys. induction fuel as [|fuel IH]; intros token keys; cbn [list_pages]; unfold ListObjectsV2, s3_err; [frames|].
  repeat first [progress frames | apply IH].
Qed.
Lemma download_keys_touches {A} S (decode : GzipStream → A + GoError) s keys : touches S (download_keys decode s keys).
Proof.
  induction keys as [|key keys IH]; cbn [download_keys]; unfold DownloadObject, s3_err; [frames|].
  repeat first [progress frames | exact IH].
Qed.
Lemma downloadPVCs_touches s pfx : touches [] (downloadPVCs s pfx).
Proof.
  unfold downloadPVCs, DownloadTypedObjects, ListKeys.
  repeat first [progress frames | apply download_keys_touches | apply list_pages_touches].
Qed.

(** C36: A restore of the claims of a store that succeeds has read the store and has every
    claim of it on the cluster, of the volume it was stored with; and neither it nor a
    restore that fails part-way takes a claim away from the cluster or moves one to
    another volume. *)
Theorem restored_claims_on_cluster s w :
  let r := restorePVCsFromObjectStore s w in
  claims_kept w r.2 ∧
  (r.1.2 = None →
   ∃ l, (downloadPVCs s (s3KeyPrefix (v_instance w)) w).1 = inl l ∧ r.1.1 = length l ∧ Forall (on_cluster r.2) l).
Proof.
  intros r. subst r. unfold restorePVCsFromObjectStore. rewrite run_bind. cbn [gets fst snd]. rewrite result_or_return_run.
  pose proof (touched_kept _ _ _ (downloadPVCs_touches s (s3KeyPrefix (v_instance w)) w) ltac:(set_solver)) as Hd.
  destruct (downloadPVCs _ _ w).1 as [l|e]; [|by rewrite run_ret].
  rewrite run_bind. pose proof (same_pvcs_kept _ _ (append_claims_pvcs l (downloadPVCs s (s3KeyPrefix (v_instance w)) w).2)) as Ha.
  set (w1 := (append_claims l _).2) in *. unfold restoreClusterDataObjects. rewrite run_bind, run_ret.
  destruct (restore_objects restorable_pvc l 0 w1) as [[n e] w2] eqn:Hr.
  apply restore_claims_run in Hr as (Hk & Hle & Hall). cbn [fst snd]. split; [by do 2 (etransitivity; [done|])|].
  destruct e; [done|]. case_bool_decide as Hn; [done|]. intros _. exists l. cbn [fst].
  assert (n = length l) as -> by lia. eauto.
Qed.

(** A restore from the only store of a VRG in which the volumes and the claims are not
    equally many, each kind restored without an error, returns no error and the count
    zero, as if the store were empty: the mismatch is only logged. *)
Theorem restore_mismatch_looks_empty s a b w w1 :
  vsp_S3Profiles (vrg_Spec (v_instance w)) = [s] → s ≠ NoS3Store → kenv_ObjectStore (v_tick w) s = None →
  restorePVsFromObjectStore s s (w <| v_tick ::= S |>) = ((a, None), w1) →
  (restorePVCsFromObjectStore s w1).1 = (b, None) → a ≠ b →
  (restorePVsAndPVCsForVolRep w).1 = (0, None).
Proof.
  intros Hprof Hs Hstore Hpv Hpvc Hne. unfold restorePVsAndPVCsForVolRep. rewrite run_bind. cbn [gets fst snd].
  rewrite Hprof, run_bind. unfold restorePVsAndPVCsFromS3. rewrite run_bind. cbn [gets fst snd]. rewrite Hprof.
  cbn [restore_profiles]. rewrite bool_decide_eq_false_2 by done. rewrite run_bind. cbn [vtick fst snd].
  rewrite Hstore, run_bind. unfold restore_both. rewrite run_bind, Hpv. cbn [fst snd]. rewrite ?run_bind, ?run_ret.
  rewrite Hpvc, bool_decide_eq_false_2 by done. done.
Qed.
End restored.

(** ** Evaluated *)

Section restore_witnesses.
#[local] Existing Instance calm_volenv.
#[local] Existing Instance default_vrgconfig.

(** A store with a volume whose claim is missing. *)
Definition half_stored : Volumes :=
  let w := the_volumes Primary VRGActionFailover VRPrimary in
  w <| k_pvs := ∅ |> <| k_pvcs := ∅ |> <| v_heap := [] |> <| v_volRepPVCs := [] |>
    <| k_s3 := {["s3" := {[typedKey (s3KeyPrefix (v_instance w)) "pv-1" type_PV := "CPV pv-1"]}]} |>.

Lemma restore_mismatch_looks_empty_witness :
  (restorePVsAndPVCsForVolRep half_stored).1 = (0, None).
Proof.
  apply (restore_mismatch_looks_empty "s3" 1 0 half_stored
           (restorePVsFromObjectStore "s3" "s3" (half_stored <| v_tick ::= S |>)).2); try (by vm_compute).
Defined.
End restore_witnesses.

(** * What uploading achieves

    An upload of a claim that succeeds has the claim and its volume in every store of the
    VRG, and a download reads back what was uploaded. *)

(** ** Keys *)

Lemma append_inj (p a b : string) : p +:+ a = p +:+ b → a = b.
Proof. induction p as [|c p IH]; simpl; [done|]. intros [= ?]. auto. Qed.

Lemma typed_keys_differ pfx a b : typedKey pfx a type_PV ≠ typedKey pfx b type_PVC.
Proof. unfold typedKey. intros Heq%append_inj. discriminate. Qed.

(** ** A store *)

Section store.
Context `{VolEnv} `{VRGConfig}.

(** The bytes of a closed gzip writer, to which the JSON text of the object was written. *)
Definition holds (stored : option string) (x : S3Object) : Prop :=
  ∃ text, kenv_json x = inl text ∧ stored = Some (kenv_gzip (mkGzipWriter text true)).

Lemma encode_object_holds what x bytes : encode_object what x = inl bytes → holds (Some bytes) x.
Proof.
  unfold encode_object. destruct (kenv_json x) as [text|e] eqn:E; [|done]. cbn [gw_text].
  destruct (kenv_gzip_Close _); [done|]. intros [= <-]. by exists text.
Qed.

Lemma UploadObject_run s k x w :
  let r := UploadObject s k x w in
  v_objectStorers r.2 = v_objectStorers w ∧ v_heap r.2 = v_heap w ∧ v_instance r.2 = v_instance w ∧
  v_s3StoreAccessors r.2 = v_s3StoreAccessors w ∧
  match r.1 with
  | Some _ => k_s3 r.2 = k_s3 w
  | None => holds (bucket s r.2 !! k) x ∧ ∀ s' k', ¬ (s' = s ∧ k' = k) → bucket s' r.2 !! k' = bucket s' w !! k'
  end.
Proof.
  intros r. subst r. unfold UploadObject. destruct (encode_object _ x) as [bytes|e] eqn:Ee; [|done].
  apply encode_object_holds in Ee. rewrite or_return_run. destruct (s3_err w).1; [done|]. rewrite run_bind, run_ret.
  cbn [fst snd]. split_and!; [done..| |].
  - unfold bucket. cbn. rewrite lookup_insert_eq. cbn. by rewrite lookup_insert_eq.
  - intros s' k' Hne. unfold bucket at 1. cbn. destruct (decide (s' = s)) as [->|Hs].
    + rewrite lookup_insert_eq. cbn. rewrite lookup_insert_ne; [done|naive_solver].
    + by rewrite lookup_insert_ne.
Qed.

(** The claim and its volume are in the store. *)
Definition stored_in (v : VolumeReplicationGroup) (pv : PersistentVolume) (pvc : PersistentVolumeClaim)
    (w : Volumes) (s : string) : Prop :=
  holds (bucket s w !! typedKey (s3KeyPrefix v) (pv_name pv) type_PV) (S3PV pv) ∧
  holds (bucket s w !! typedKey (s3KeyPrefix v) (nn_string (pvc_nn pvc)) type_PVC) (S3PVC pvc).

(** A cached store is that of its profile. *)
Definition cache_ok (w : Volumes) : Prop :=
  map_Forall (λ s c, cos_storer c = None ∨ cos_storer c = Some s) (v_objectStorers w).

Lemma UploadPVAndPVCtoS3_run s name pv pvc w :
  let r := UploadPVAndPVCtoS3 name s pv pvc w in
  r.1 = None →
  v_objectStorers r.2 = v_objectStorers w ∧ v_heap r.2 = v_heap w ∧ v_instance r.2 = v_instance w ∧
  stored_in (v_instance w) pv pvc r.2 s ∧
  (∀ s', stored_in (v_instance w) pv pvc w s' → stored_in (v_instance w) pv pvc r.2 s').
Proof.
  intros r. subst r. unfold UploadPVAndPVCtoS3. rewrite run_bind. cbn [gets fst snd]. rewrite or_return_run.
  pose proof (UploadObject_run s (typedKey (s3KeyPrefix (v_instance w)) (pv_name pv) type_PV) (S3PV pv) w)
    as (Hc1 & Hh1 & Hi1 & _ & Hb1).
  unfold UploadPV. destruct (UploadObject _ _ _ w) as [[e|] w1]; cbn [fst snd] in *; [by rewrite run_bind; destruct (is_aws_error _)|].
  destruct Hb1 as [Hst1 Hb1]. rewrite or_return_run.
  pose proof (UploadObject_run s (typedKey (s3KeyPrefix (v_instance w)) (nn_string (pvc_nn pvc)) type_PVC) (S3PVC pvc) w1)
    as (Hc2 & Hh2 & Hi2 & _ & Hb2).
  unfold UploadPVC. destruct (UploadObject _ _ _ w1) as [[e|] w2]; cbn [fst snd] in *; [by rewrite run_ret|].
  destruct Hb2 as [Hst2 Hb2]. rewrite run_ret. cbn [fst snd]. intros _.
  split; [congruence|]. split; [congruence|]. split; [congruence|]. unfold stored_in.
  pose proof (typed_keys_differ (s3KeyPrefix (v_instance w)) (pv_name pv) (nn_string (pvc_nn pvc))) as Hne.
  assert (Hst1' : holds (bucket s w2 !! typedKey (s3KeyPrefix (v_instance w)) (pv_name pv) type_PV) (S3PV pv)).
  { rewrite Hb2; [done|naive_solver]. }
  split; [done|]. intros s' [Hpv Hpvc]. destruct (decide (s' = s)) as [->|Hs]; [done|].
  by rewrite !Hb2, !Hb1 by naive_solver.
Qed.

Lemma getObjectStorer_run name w :
  let r := getObjectStorer name w in
  cache_ok w → cache_ok r.2 ∧ v_heap r.2 = v_heap w ∧ v_instance r.2 = v_instance w ∧ k_s3 r.2 = k_s3 w ∧
    (r.1.2 = None → r.1.1 = Some name).
Proof.
  intros r Hok. subst r. unfold getObjectStorer, getCachedObjectStorer. rewrite !run_bind. cbn [gets fst snd].
  rewrite run_ret. cbn [fst snd]. set (r := match v_objectStorers w !! name with Some _ => _ | None => _ end).
  assert (r.1 = None ∨ r.1 = Some name) as Hr.
  { subst r. destruct (v_objectStorers w !! name) as [c|] eqn:Hc; [|by left]. exact (Hok _ _ Hc). }
  destruct (_ || _) eqn:Hany.
  { rewrite run_ret. cbn [fst snd]. repeat split; [done|]. intros Hnone. destruct Hr as [Hr|Hr]; [|done].
    by rewrite Hr, Hnone in Hany. }
  rewrite !run_bind. cbn [vtick cacheObjectStorer modify fst snd]. rewrite run_ret. cbn [fst snd]. split.
  - change (map_Forall (λ s c, cos_storer c = None ∨ cos_storer c = Some s)
      (<[name := mkCachedObjectStorer (match kenv_ObjectStore (v_tick w) name with
                                       | Some e => (None, Some (Errorf ("error creating object store for s3Profile " +:+ name) (Some e)))
                                       | None => (Some name, None)
                                       end).1
                   (match kenv_ObjectStore (v_tick w) name with
                    | Some e => (None, Some (Errorf ("error creating object store for s3Profile " +:+ name) (Some e)))
                    | None => (Some name, None)
                    end).2]> (v_objectStorers w))).
    apply map_Forall_insert_2; [|done]. cbn. destruct (kenv_ObjectStore _ _); cbn; auto.
  - repeat split. by destruct (kenv_ObjectStore _ _).
Qed.

Lemma UploadPVandPVCtoS3Store_run name pv pvc w :
  let r := UploadPVandPVCtoS3Store name pvc pv w in
  cache_ok w → r.1 = None →
  cache_ok r.2 ∧ v_heap r.2 = v_heap w ∧ v_instance r.2 = v_instance w ∧
  stored_in (v_instance w) pv pvc r.2 name ∧
  (∀ s', stored_in (v_instance w) pv pvc w s' → stored_in (v_instance w) pv pvc r.2 s').
Proof.
  intros r Hok. subst r. unfold UploadPVandPVCtoS3Store. destruct (name =? ""); [by rewrite run_ret|].
  rewrite run_bind. destruct (getObjectStorer_run name w Hok) as (Hok1 & Hh1 & Hi1 & Hs1 & Hsome).
  destruct (getObjectStorer name w) as [[store [e|]] w1]; cbn [fst snd] in *; [by rewrite run_ret|].
  rewrite (Hsome eq_refl). cbn [from_option id]. intros Hnone.
  destruct (UploadPVAndPVCtoS3_run name name pv pvc w1 Hnone) as (Hc & Hh & Hi & Hst & Hmono).
  rewrite Hi1 in Hst, Hmono. split; [by unfold cache_ok; rewrite Hc|]. do 2 (split; [congruence|]). split; [done|].
  intros s' Hs'. apply Hmono. unfold stored_in, bucket in *. by rewrite Hs1.
Qed.

Lemma upload_profiles_run p pv profiles succeeded w :
  let r := upload_profiles p pv profiles succeeded w in
  cache_ok w → r.1.2 = None →
  cache_ok r.2 ∧ v_heap r.2 = v_heap w ∧ v_instance r.2 = v_instance w ∧
  Forall (stored_in (v_instance w) pv (claim w p) r.2) profiles ∧
  (∀ s', stored_in (v_instance w) pv (claim w p) w s' → stored_in (v_instance w) pv (claim w p) r.2 s').
Proof.
  revert succeeded w. induction profiles as [|name profiles IH]; intros succeeded w; cbn [upload_profiles].
  { rewrite run_ret. cbn [fst snd]. intros Hok _. do 3 (split; [done|]). by split. }
  intros Hok. rewrite run_bind. cbn [load gets fst snd]. fold (claim w p). rewrite or_return_run.
  destruct (UploadPVandPVCtoS3Store name (claim w p) pv w).1 eqn:Hup; [by rewrite !run_bind|]. intros Hnone.
  destruct (UploadPVandPVCtoS3Store_run name pv (claim w p) w Hok Hup) as (Hok1 & Hh1 & Hi1 & Hst1 & Hmono1).
  set (w1 := (UploadPVandPVCtoS3Store name (claim w p) pv w).2) in *.
  destruct (IH (succeeded ++ [name]) w1 Hok1 Hnone) as (Hok2 & Hh2 & Hi2 & Hall & Hmono2).
  assert (claim w1 p = claim w p) as Hcl by (unfold claim; by rewrite Hh1).
  rewrite Hcl, Hi1 in Hall, Hmono2. split; [done|]. split; [congruence|]. split; [congruence|]. split; [|by eauto].
  constructor; auto.
Qed.
End store.

(** ** The upload of a claim *)

Section upload.
Context `{VolEnv} `{VRGConfig}.

Lemma addAnnotationForResource_touches S m t k x update :
  (∀ m', touches S (update m')) → touches S (addAnnotationForResource m t k x update).
Proof. intros Hu. unfold addAnnotationForResource. frames. Qed.

Lemma addArchivedAnnotationForPVC_touches p : touches [T_pvc; T_pv; T_heap] (addArchivedAnnotationForPVC p).
Proof.
  unfold addArchivedAnnotationForPVC, getPVFromPVC.
  repeat first [progress frames | apply addAnnotationForResource_touches; intros ?; unfold update_pvc_meta, update_pv_meta].
Qed.

Lemma isArchivedAlready_touches pvc : touches [] (isArchivedAlready pvc).
Proof. unfold isArchivedAlready, getPVFromPVC. frames. Qed.

Lemma set_cluster_data_touches ns n r m : touches [] (updatePVCClusterDataProtectedCondition ns n r m).
Proof. apply update_pvc_status_touches. Qed.

Lemma touched_stored v pv pvc S w w' s : touched S w w' → T_s3 ∉ S → stored_in v pv pvc w s → stored_in v pv pvc w' s.
Proof. intros [Ht] Hs. unfold stored_in, bucket. by rewrite (Ht T_s3 Hs). Qed.

(** The volume of a claim as the API server has it. *)
Definition volume_on (w : Volumes) (pvc : PersistentVolumeClaim) (pv : PersistentVolume) : Prop :=
  ∃ x, k_pvs w !! ("", volume_of pvc) = Some x ∧ pv_Spec pv = pv_Spec x ∧ pv_name pv = volume_of pvc ∧
       om_Annotations (pv_Meta pv) = om_Annotations (pv_Meta x).

Lemma getPVFromPVC_run pvc w pv :
  (getPVFromPVC pvc w).1 = inl pv → volume_on w pvc pv.
Proof.
  unfold getPVFromPVC, Get_pv, kGet. rewrite run_bind, run_ret, or_return_run. destruct (vapi_err w).1; [done|].
  rewrite run_bind. cbn [gets fst snd]. change (k_pvs (vapi_err w).2) with (k_pvs w). rewrite run_ret. cbn [fst snd].
  destruct (k_pvs w !! _) as [x|] eqn:Hx; [|done]. intros [= <-]. by exists x.
Qed.

Lemma getPVFromPVC_ticks pvc : preserves only_ticks (getPVFromPVC pvc).
Proof. unfold getPVFromPVC, Get_pv. repeat frame_step ltac:(apply kGet_ticks). Qed.
Lemma isArchivedAlready_ticks pvc : preserves only_ticks (isArchivedAlready pvc).
Proof. unfold isArchivedAlready. repeat frame_step ltac:(apply getPVFromPVC_ticks). Qed.

Lemma UploadPVandPVCtoS3Stores_run p w :
  let r := UploadPVandPVCtoS3Stores p w in
  cache_ok w → r.1.2 = None →
  ∃ pv, volume_on w (claim w p) pv ∧
    Forall (stored_in (v_instance w) pv (claim w p) r.2) (vsp_S3Profiles (vrg_Spec (v_instance w))).
Proof.
  intros r Hok. subst r. unfold UploadPVandPVCtoS3Stores. rewrite !run_bind. cbn [load gets fst snd].
  fold (claim w p). rewrite result_or_return_run. pose proof (getPVFromPVC_run (claim w p) w) as Hpv.
  destruct (getPVFromPVC_ticks (claim w p) w) as [t Ht].
  destruct (getPVFromPVC (claim w p) w).1 as [pv|e]; [|by rewrite run_ret]. rewrite Ht. set (w1 := w <| v_tick := t |>). intros Hnone.
  destruct (upload_profiles_run p pv _ _ w1 Hok Hnone) as (_ & _ & _ & Hall & _). exists pv. auto.
Qed.

(** C4: an upload of a claim that succeeds, outside a dry run and where the claim was not
    archived before, has put the claim and its volume as the cluster has it, each encoded
    and compressed under its key, into every store of the VRG, of which there is at least
    one; as long as a store that is cached is that of its profile. *)
Theorem uploaded_everywhere p w :
  cache_ok w → vsp_DryRun (vrg_Spec (v_instance w)) = false → (isArchivedAlready (claim w p) w).1 = false →
  let r := uploadPVandPVCtoS3Stores p w in
  r.1 = None →
  vsp_S3Profiles (vrg_Spec (v_instance w)) ≠ [] ∧
  ∃ pv, volume_on w (claim w p) pv ∧
    Forall (stored_in (v_instance w) pv (claim w p) r.2) (vsp_S3Profiles (vrg_Spec (v_instance w))).
Proof.
  intros Hok Hdry Harch r. subst r. unfold uploadPVandPVCtoS3Stores. rewrite !run_bind. cbn [load gets fst snd].
  fold (claim w p). cbv zeta. rewrite Hdry, run_bind, Harch.
  destruct (isArchivedAlready_ticks (claim w p) w) as [t ->]. destruct (isPVCResizeCompleted _); cbn [negb]; [|by rewrite run_ret].
  case_bool_decide as Hlen; [by unfold handleNoS3ProfilesError; rewrite run_bind, run_ret|].
  rewrite run_bind. set (w0 := w <| v_tick := t |>). pose proof (UploadPVandPVCtoS3Stores_run p w0 Hok) as Hup.
  destruct (UploadPVandPVCtoS3Stores p w0) as [[profiles [e|]] w1]; cbn [fst snd] in *; [by rewrite run_ret|].
  destruct (Hup eq_refl) as (pv & Hpv & Hall). clear Hup. intros Hnone.
  split; [by intros Hnil; rewrite Hnil in Hlen|]. exists pv. split; [exact Hpv|]. revert Hnone.
  case_bool_decide; [by rewrite run_bind, run_ret|]. rewrite or_return_run.
  pose proof (addArchivedAnnotationForPVC_touches p w1) as Harc.
  destruct (addArchivedAnnotationForPVC p w1).1; [by rewrite run_bind, run_ret|]. rewrite run_bind, run_ret. intros _.
  eapply Forall_impl; [exact Hall|]. intros s Hs. cbn [snd].
  eapply touched_stored; [apply set_cluster_data_touches|set_solver|].
  eapply touched_stored; [exact Harc|set_solver|exact Hs].
Qed.
End upload.

(** ** Reading back *)

Section download.
Context `{VolEnv} `{VRGConfig}.

Definition no_s3_failures : Prop := ∀ t, kenv_s3_err t = None.

Lemma prefix_append p a b : String.prefix (p +:+ a) (p +:+ b) = String.prefix a b.
Proof.
  induction p as [|c p IH]; [done|].
  change (String.prefix (String c (p +:+ a)) (String c (p +:+ b)) = String.prefix a b). cbn [String.prefix].
  by destruct (Ascii.ascii_dec c c).
Qed.

Lemma typedKey_prefix pfx suffix typ : String.prefix (typedKey pfx "" typ) (typedKey pfx suffix typ) = true.
Proof. unfold typedKey. rewrite !prefix_append. by destruct suffix. Qed.

(** What the decoder of a type reads from bytes. *)
Definition reads_as {A} (decode : GzipStream → A + GoError) (bytes : string) (x : A) : Prop :=
  kenv_gzip_NewReader bytes = None ∧ decode (kenv_gunzip bytes) = inl x ∧ kenv_gunzip_Close bytes = None.

Lemma decode_object_reads {A} (decode : GzipStream → A + GoError) what bytes x :
  decode_object decode what bytes = inl x ↔ reads_as decode bytes x.
Proof.
  unfold decode_object, reads_as. destruct (kenv_gzip_NewReader bytes) as [e|].
  { split; [by destruct (is_EOF e)|by intros [? _]]. }
  destruct (decode _) as [y|e], (kenv_gunzip_Close bytes); naive_solver.
Qed.

Lemma download_keys_run {A} (decode : GzipStream → A + GoError) s keys w :
  no_s3_failures →
  Forall (λ k, ∃ bytes x, bucket s w !! k = Some bytes ∧ reads_as decode bytes x) keys →
  ∃ l, (download_keys decode s keys w).1 = inl l ∧
    Forall2 (λ k x, ∃ bytes, bucket s w !! k = Some bytes ∧ reads_as decode bytes x) keys l.
Proof.
  intros Hcalm. revert w. induction keys as [|k keys IH]; intros w Hall; cbn [download_keys].
  { exists []. by rewrite run_ret. }
  apply Forall_cons in Hall as [(bytes & x & Hk & Hx) Hall]. rewrite result_or_return_run. unfold DownloadObject.
  rewrite or_return_run. assert ((s3_err w).1 = None) as -> by apply Hcalm. rewrite run_bind. cbn [gets fst snd].
  rewrite run_ret. change (bucket s (s3_err w).2) with (bucket s w). rewrite Hk. cbn [fst snd].
  rewrite (proj2 (decode_object_reads decode _ bytes x) Hx), result_or_return_run.
  destruct (IH (s3_err w).2 Hall) as (l & Hl & Hf). rewrite Hl, run_ret. exists (x :: l). split; [done|].
  constructor; [by exists bytes|exact Hf].
Qed.

(** *** Pages *)

Lemma keys_after_app k l1 l2 : k ∉ l1 → keys_after k (l1 ++ k :: l2) = l2.
Proof.
  induction l1 as [|k' l1 IH]; intros Hk; cbn [keys_after app].
  - by rewrite bool_decide_eq_true_2.
  - rewrite bool_decide_eq_false_2 by set_solver. apply IH. set_solver.
Qed.

(** After the keys [before], the token for them asks for the keys that follow. *)
Lemma list_page_run before rest n :
  NoDup (before ++ rest) →
  let r := list_page (before ++ rest) (last before) (S n) in
  lo_Contents r = take (S n) rest ∧ lo_IsTruncated r = bool_decide (S n < length rest) ∧
  (lo_IsTruncated r = true → lo_NextContinuationToken r = last (before ++ take (S n) rest)).
Proof.
  intros Hnd. unfold list_page.
  assert (match last before with Some k => keys_after k (before ++ rest) | None => before ++ rest end = rest) as ->.
  { destruct before as [|k before _] using rev_ind; [done|]. rewrite last_snoc, <- app_assoc.
    apply keys_after_app. rewrite <- app_assoc in Hnd. apply NoDup_app in Hnd as (_ & Hd & _). intros Hk. apply (Hd k Hk).
    apply list_elem_of_here. }
  case_bool_decide as Hl; cbn [lo_Contents lo_IsTruncated lo_NextContinuationToken]; split_and!; try done.
  intros _. destruct rest as [|k rest]; [simpl in Hl; lia|]. cbn [take]. rewrite last_app_cons.
  by destruct (take n rest).
Qed.

Definition keys_with (s pfx : string) (w : Volumes) : list string :=
  List.filter (String.prefix pfx) (set_List (dom (bucket s w))).

Lemma list_pages_run fuel s pfx before rest w :
  keys_with s pfx w = before ++ rest → NoDup (before ++ rest) → length rest < fuel →
  let r := list_pages fuel s pfx (last before) before w in
  (∃ n, r.2 = w <| v_tick := n |>) ∧ (∀ keys, r.1 = inl keys → keys = before ++ rest) ∧
  (no_s3_failures → r.1 = inl (before ++ rest)).
Proof.
  revert before rest w. induction fuel as [|fuel IH]; intros before rest w Hk Hnd Hf; [lia|]. cbv zeta. cbn [list_pages].
  rewrite result_or_return_run. unfold ListObjectsV2. rewrite or_return_run.
  destruct (s3_err w).1 as [e|] eqn:Ee.
  { rewrite run_ret. cbn [fst snd]. rewrite run_ret. split_and!; [by eexists|done|].
    intros Hcalm. change ((s3_err w).1) with (kenv_s3_err (v_tick w)) in Ee. by rewrite Hcalm in Ee. }
  rewrite !run_bind. cbn [vtick gets fst snd mret M_ret].
  set (w1 := (s3_err w).2 <| v_tick ::= S |>). change (bucket s w1) with (bucket s w).
  fold (keys_with s pfx w). rewrite Hk. set (n := kenv_s3_page _).
  destruct (list_page_run before rest n Hnd) as (Ec & Et & En).
  set (page := list_page _ _ _) in *. clearbody page. rewrite Ec, Et in *. case_bool_decide as Hl.
  - rewrite (En eq_refl). clear page Ec Et En.
    assert (Hsplit : before ++ rest = (before ++ take (S n) rest) ++ drop (S n) rest) by (by rewrite <- app_assoc, take_drop).
    destruct (IH (before ++ take (S n) rest) (drop (S n) rest) w1) as ((m & Hm) & I2 & I3).
    + by rewrite <- Hsplit.
    + by rewrite <- Hsplit.
    + rewrite length_drop. lia.
    + rewrite Hsplit. split_and!; [|done|done]. exists m. by rewrite Hm.
  - rewrite run_ret. cbn [fst snd]. rewrite take_ge by lia. split_and!; [|by intros ? [= <-]|done].
    by exists (v_tick w1).
Qed.

(** All keys under the prefix are listed, each once, whatever the pages; or the list fails,
    with the store. *)
Lemma ListKeys_run s pfx w :
  let r := ListKeys s pfx w in
  (∃ n, r.2 = w <| v_tick := n |>) ∧
  (∀ keys, r.1 = inl keys → NoDup keys ∧ ∀ k, k ∈ keys ↔ String.prefix pfx k = true ∧ is_Some (bucket s w !! k)) ∧
  (no_s3_failures → ∃ keys, r.1 = inl keys).
Proof.
  cbv zeta. unfold ListKeys. rewrite run_bind. cbn [gets fst snd].
  assert (Hnd : NoDup (keys_with s pfx w)).
  { apply NoDup_ListNoDup, List.NoDup_filter, NoDup_ListNoDup. unfold set_List. rewrite merge_sort_Permutation. apply NoDup_elements. }
  destruct (list_pages_run (S (size (bucket s w))) s pfx [] (keys_with s pfx w) w) as (I1 & I2 & I3); [done|done| |].
  { unfold keys_with. pose proof (List.filter_length_le (String.prefix pfx) (set_List (dom (bucket s w)))) as Hle.
    assert (length (set_List (dom (bucket s w))) = size (bucket s w)) as Hs; [|lia].
    unfold set_List. rewrite merge_sort_Permutation. apply size_dom. }
  split_and!; [done| |eauto]. intros keys Hr. rewrite (I2 _ Hr). split; [done|]. intros k. cbn [app]. unfold keys_with.
  rewrite list_elem_of_In, filter_In, <- list_elem_of_In, elem_of_set_List, elem_of_dom. naive_solver.
Qed.

(** What is relied on of encoding/json and compress/gzip: a claim that is encoded is decoded
    as it was, and what was written to a writer that is closed then can be read. *)
Class CodecLaws : Prop := {
  json_claims pvc text : kenv_json (S3PVC pvc) = inl text → kenv_json_PVC (text, None) = inl pvc;
  gzip_closed text :
    let bytes := kenv_gzip (mkGzipWriter text true) in
    kenv_gzip_NewReader bytes = None ∧ kenv_gunzip bytes = (text, None) ∧ kenv_gunzip_Close bytes = None;
}.

Lemma holds_reads_as `{CodecLaws} stored pvc :
  holds stored (S3PVC pvc) → ∃ bytes, stored = Some bytes ∧ reads_as kenv_json_PVC bytes pvc.
Proof.
  intros (text & Hj & ->). destruct (gzip_closed text) as (Hr & Hg & Hc). eexists. split; [done|].
  split; [done|]. rewrite Hg. split; [by apply json_claims|done].
Qed.

(** C35: What is uploaded can be read back.  With a codec that keeps its laws and a store
    that does not fail, where each object under the claims' prefix of the store can be read
    as a claim, a download succeeds after a successful upload of a claim and gives, for each
    key under the prefix once, the claim that is read from its object, and the claim just
    uploaded for its key; over however many pages the keys are listed. *)
Theorem downloaded_as_uploaded `{CodecLaws} s pfx suffix pvc w w' :
  let in_prefix k := String.prefix (typedKey pfx "" type_PVC) k = true in
  no_s3_failures →
  (∀ k bytes, bucket s w !! k = Some bytes → in_prefix k → ∃ x, reads_as kenv_json_PVC bytes x) →
  UploadPVC s pfx suffix pvc w = (None, w') →
  ∃ keys l, (downloadPVCs s pfx w').1 = inl l ∧
    NoDup keys ∧ (∀ k, k ∈ keys ↔ in_prefix k ∧ is_Some (bucket s w' !! k)) ∧
    Forall2 (λ k x, ∃ bytes, bucket s w' !! k = Some bytes ∧ reads_as kenv_json_PVC bytes x) keys l ∧
    (typedKey pfx suffix type_PVC, pvc) ∈ zip keys l.
Proof.
  intros in_prefix Hcalm Hdec Hup. unfold UploadPVC in Hup.
  pose proof (UploadObject_run s (typedKey pfx suffix type_PVC) (S3PVC pvc) w) as (_ & _ & _ & _ & Hb).
  rewrite Hup in Hb. cbn [fst snd] in Hb. destruct Hb as [(bytes & Hbytes & Hpvc)%holds_reads_as Hb].
  unfold downloadPVCs, DownloadTypedObjects. rewrite result_or_return_run.
  destruct (ListKeys_run s (typedKey pfx "" type_PVC) w') as ((n & Hn) & Hkeys & Hlist).
  destruct (Hlist Hcalm) as [keys Ek]. destruct (Hkeys keys Ek) as [Hnd Hin]. rewrite Ek, Hn.
  set (w1 := w' <| v_tick := n |>). change (bucket s w') with (bucket s w1) in *.
  destruct (download_keys_run kenv_json_PVC s keys w1 Hcalm) as (l & Hl & Hf).
  { apply Forall_forall. intros k [Hp [b Hk]]%Hin. destruct (decide (k = typedKey pfx suffix type_PVC)) as [->|Hne].
    - exists bytes, pvc. by rewrite Hbytes.
    - destruct (Hdec k b) as [x Hx]; [|done|by exists b, x]. rewrite <- Hb; [done|naive_solver]. }
  exists keys, l. split_and!; [done|done|done|done|].
  assert (Hkey : typedKey pfx suffix type_PVC ∈ keys) by (apply Hin; split; [apply typedKey_prefix|by rewrite Hbytes]).
  apply list_elem_of_lookup in Hkey as [i Hi]. destruct (Forall2_lookup_l _ _ _ _ _ Hf Hi) as (x & Hx & b & Hb' & Hr).
  rewrite Hbytes in Hb'. injection Hb' as <-. destruct Hpvc as (_ & Hd1 & _), Hr as (_ & Hd2 & _).
  assert (x = pvc) as -> by congruence. apply (list_elem_of_lookup_2 _ i), lookup_zip_with_Some. by eexists _, _.
Qed.
End download.

(** ** Evaluated *)

Section upload_witnesses.
#[local] Existing Instance calm_volenv.
#[local] Existing Instance default_vrgconfig.

Abbreviation protecting := (the_volumes Primary VRGActionNone VRPrimary).

Lemma uploaded_everywhere_witness :
  ∃ pv, volume_on protecting the_pvc pv ∧
    Forall (stored_in (the_vrg Primary VRGActionNone) pv the_pvc (uploadPVandPVCtoS3Stores 0 protecting).2) ["s3"].
Proof. apply (uploaded_everywhere 0 protecting); [apply map_Forall_empty|by vm_compute..]. Defined.

(** A codec of two claims, which it tells apart by their text, with pages of one key. *)
Definition second_pvc : PersistentVolumeClaim := the_pvc <| pvc_Meta ::= λ m, m <| om_Name := "logs" |> |>.
Definition two_claims_json (x : S3Object) : string + GoError :=
  match x with
  | S3PVC pvc => if bool_decide (pvc = the_pvc) then inl "claim data"
                 else if bool_decide (pvc = second_pvc) then inl "claim logs" else inr (Errorf "unsupported value" None)
  | _ => inr (Errorf "unsupported type" None)
  end.
Definition two_claims_decode (stream : GzipStream) : PersistentVolumeClaim + GoError :=
  match stream with
  | (text, None) => if text =? "claim data" then inl the_pvc
                    else if text =? "claim logs" then inl second_pvc else inr (Errorf "invalid character" None)
  | (_, Some e) => inr e
  end.
Program Definition two_claims : VolEnv := {|
  kenv_now := Z.of_nat;
  kenv_api_err := λ _, None;
  kenv_resourceVersion := λ _, "1";
  kenv_hash := pvcs_VolumeName;
  kenv_storageRequest := λ _, 0%Z;
  kenv_ObjectStore := λ _ _, None;
  kenv_s3_err := λ _, None;
  kenv_s3_page := λ _, 0;
  kenv_json := two_claims_json;
  kenv_json_PV := no_decode;
  kenv_json_PVC := two_claims_decode;
  kenv_json_VGR := no_decode;
  kenv_json_VGRC := no_decode;
  kenv_json_VRG := no_decode;
  kenv_gzip := gzip_marked;
  kenv_gzip_Close := λ _, None;
  kenv_gzip_NewReader := gzip_header;
  kenv_gunzip := gunzip_marked;
  kenv_gunzip_Close := λ _, None;
  kenv_range := λ _ m, map_to_list m;
  kenv_range_keys := λ _ s, elements s;
  kenv_LabelSelectorAsSelector := λ s, inl (λ labels, bool_decide (ls_MatchLabels s ⊆ labels));
|}.
Solve Obligations with done.

Lemma two_claims_laws : CodecLaws (H := two_claims).
Proof.
  split; [|done]. intros pvc text. cbn. unfold two_claims_json, two_claims_decode.
  case_bool_decide as E1; [by intros [= <-]; subst|]. case_bool_decide as E2; [by intros [= <-]; subst|done].
Qed.

(** The second claim is in the store when the first is uploaded. *)
Definition one_stored : Volumes :=
  protecting <| k_s3 := {["s3" := {[typedKey "app/vrg/" "app/logs" type_PVC := "Cclaim logs"]}]} |>.

Lemma downloaded_as_uploaded_witness :
  let w' := (@UploadPVC two_claims "s3" "app/vrg/" "app/data" the_pvc one_stored).2 in
  ∃ keys l, (@downloadPVCs two_claims "s3" "app/vrg/" w').1 = inl l ∧
    (typedKey "app/vrg/" "app/data" type_PVC, the_pvc) ∈ zip keys l.
Proof.
  cbv zeta.
  destruct (@downloaded_as_uploaded two_claims two_claims_laws "s3" "app/vrg/" "app/data" the_pvc one_stored
              (@UploadPVC two_claims "s3" "app/vrg/" "app/data" the_pvc one_stored).2) as (keys & l & Hl & _ & _ & _ & Hin).
  - done.
  - intros k bytes Hk _. assert (k = typedKey "app/vrg/" "app/logs" type_PVC ∧ bytes = "Cclaim logs") as [-> ->].
    { change (bucket "s3" one_stored) with ({[typedKey "app/vrg/" "app/logs" type_PVC := "Cclaim logs"]} : gmap string string) in Hk.
      apply lookup_singleton_Some in Hk as [<- <-]. done. }
    exists second_pvc. repeat split.
  - apply injective_projections; [by vm_compute|done].
  - exact (ex_intro _ keys (ex_intro _ l (conj Hl Hin))).
Defined.

(** Two pages of one key each. *)
Example both_pages_read :
  (@downloadPVCs two_claims "s3" "app/vrg/" (@UploadPVC two_claims "s3" "app/vrg/" "app/data" the_pvc one_stored).2).1
  = inl [the_pvc; second_pvc].
Proof. vm_compute. reflexivity. Qed.
End upload_witnesses.
