(* ===== verification/VolInvariant.v ===== *)
(** * The shape of a VRG's status

    An entry per claim and a condition per type: an invariant of the reconcile of the
    replicated claims, of a primary, a secondary and a deleted VRG, through every operation
    and every failure. *)

From Stdlib Require Import ZArith.
From S2P Require Import Prelude Meta Names Conditions Api VRGStatus PolicyPeers Events Volumes VolRepStatus VolRepClasses.
From S2P Require Import VolRep ObjectStores VolGroupRep VolRepReconcile VRGAggregate VolScenario VRGAggregateSpec VolRepStatusSpec.
#[local] Open Scope record_scope.

Definition entry_key (p : ProtectedPVC) : string * string := (pp_Namespace p, pp_Name p).

Record well_formed (v : VolumeReplicationGroup) : Prop := {
  wf_entries : NoDup (entry_key <$> vst_ProtectedPVCs (vrg_Status v));
  wf_entry_conditions : Forall (wf_conds ∘ pp_Conditions) (vst_ProtectedPVCs (vrg_Status v));
  wf_conditions : wf_conds (vst_Conditions (vrg_Status v));
}.

(** The selectors are apart: a reconcile adds to them through pointers that it shares. *)
Definition bare_spec (v : VolumeReplicationGroup) : VolumeReplicationGroupSpec :=
  vrg_Spec v <| vsp_PVCSelector := zero_selector |> <| vsp_KubeObjectProtection := None |>.

(** The same VRG with another status, of the same shape. *)
Record evolves (v v' : VolumeReplicationGroup) : Prop := {
  ev_meta : vrg_Meta v' = vrg_Meta v;
  ev_spec : bare_spec v' = bare_spec v;
  ev_shape : well_formed v → well_formed v';
}.
#[export] Instance evolves_order : PreOrder evolves.
Proof. split; [by intros v|]. intros v1 v2 v3 [] []. split; [congruence..|auto]. Qed.

(** No VRG on the server changes, and the one in memory only in its status. *)
Definition typed (w w' : Volumes) : Prop := k_vrgs w' = k_vrgs w ∧ evolves (v_instance w) (v_instance w').
#[export] Instance typed_order : PreOrder typed.
Proof.
  split; [by intros w|]. intros w1 w2 w3 [Hk12 H12] [Hk23 H23]. split; [congruence|by etransitivity].
Qed.

Create HintDb typed discriminated.
#[export] Hint Constants Opaque : typed.
Ltac typed_solver := solve [auto with typed nocore].
Ltac typing := repeat frame_step typed_solver.

(** ** The list of entries *)

Lemma wf_set_condition now l c : wf_conds l → wf_conds (set_condition now l c).
Proof. apply SetStatusCondition_wf. Qed.

(** A setter keeps the key of an entry and its conditions one per type. *)
Definition sound_setter (f : ProtectedPVC → ProtectedPVC) : Prop :=
  ∀ p, entry_key (f p) = entry_key p ∧ (wf_conds (pp_Conditions p) → wf_conds (pp_Conditions (f p))).

Lemma update_first_key P f (l : list ProtectedPVC) :
  sound_setter f → entry_key <$> update_first P f l = entry_key <$> l.
Proof.
  intros Hf. induction l as [|p l IH]; cbn [update_first]; [done|].
  destruct (P p); rewrite !fmap_cons; [by rewrite (proj1 (Hf p))|by rewrite IH].
Qed.

Lemma update_first_conds P f (l : list ProtectedPVC) :
  sound_setter f → Forall (wf_conds ∘ pp_Conditions) l → Forall (wf_conds ∘ pp_Conditions) (update_first P f l).
Proof.
  intros Hf. induction l as [|p l IH]; simpl; [done|]. rewrite Forall_cons. intros [Hp Hl].
  case_match; constructor; auto. by apply Hf.
Qed.

Lemma not_found_key ns n l : (find_from ns n 0 l).1 = None → (ns, n) ∉ entry_key <$> l.
Proof.
  rewrite find_from_first. induction l as [|p l IH]; simpl; [intros _; apply not_elem_of_nil|].
  destruct (is_pvc ns n p) eqn:Hp; [done|]. intros Hl. apply not_elem_of_cons. split; [|auto].
  intros Hk. unfold is_pvc in Hp. unfold entry_key in Hk. simplify_eq. by rewrite !bool_decide_eq_true_2 in Hp.
Qed.

Lemma with_protected_pvc_wf v ns n f :
  sound_setter f → well_formed v → well_formed (with_protected_pvc v ns n f).
Proof.
  intros Hf [Hk Hc Hv]. unfold with_protected_pvc, FindProtectedPVC, FindProtectedPvcAndIndex.
  destruct (find_from ns n 0 _).1 eqn:Hfind; (split; [|apply update_first_conds; [done|]|done]).
  - rewrite <- (update_first_key (is_pvc ns n) f _ Hf) in Hk. exact Hk.
  - done.
  - cbn -[fmap]. rewrite update_first_key by done. rewrite fmap_app. apply NoDup_app. split; [done|].
    split; [|apply NoDup_singleton]. intros k Hin Hnew. apply list_elem_of_singleton in Hnew as ->.
    by apply (not_found_key ns n) in Hfind.
  - apply Forall_app. split; [done|]. apply Forall_singleton. apply NoDup_nil_2.
Qed.

(** The last element takes the place of the one deleted. *)
Lemma sliceUnorderedElementDelete_perm {A} (l : list A) i x :
  l !! i = Some x → x :: sliceUnorderedElementDelete l i ≡ₚ l.
Proof.
  intros Hi. unfold sliceUnorderedElementDelete. destruct (last l) as [y|] eqn:Hy.
  2:{ apply last_None in Hy as ->. done. }
  apply last_Some in Hy as [l' ->]. rewrite length_app. cbn [length]. rewrite Nat.add_sub.
  destruct (decide (i < length l')) as [Hlt|Hge].
  - rewrite lookup_app_l in Hi by done. rewrite insert_app_l, take_app_length' by (by rewrite ?length_insert).
    rewrite insert_take_drop by done. rewrite <- (take_drop_middle l' i x Hi) at 3. solve_Permutation.
  - pose proof (lookup_lt_Some _ _ _ Hi) as Hlt. rewrite length_app in Hlt. cbn in Hlt.
    assert (i = length l') as -> by lia. rewrite lookup_app_r, Nat.sub_diag in Hi by done. simplify_eq/=.
    rewrite list_insert_id by (by rewrite lookup_app_r, Nat.sub_diag). rewrite take_app_length. solve_Permutation.
Qed.

Lemma find_from_index ns n i l p j :
  find_from ns n i l = (Some p, j) → i ≤ j ∧ l !! (j - i) = Some p.
Proof.
  revert i. induction l as [|q l IH]; intros i; simpl; [done|]. destruct (is_pvc ns n q).
  - intros [= <- <-]. by rewrite Nat.sub_diag.
  - intros Hf. apply IH in Hf as [Hle Hl]. split; [lia|]. by replace (j - i) with (S (j - S i)) by lia.
Qed.

Lemma pvcStatusDelete_wf v ns n : well_formed v → well_formed (pvcStatusDeleteIfPresent v ns n).
Proof.
  intros [Hk Hc Hv]. unfold pvcStatusDeleteIfPresent, FindProtectedPvcAndIndex.
  destruct (find_from ns n 0 _) as [[p|] i] eqn:Hf; [|by split]. apply find_from_index in Hf as [_ Hi].
  rewrite Nat.sub_0_r in Hi. pose proof (sliceUnorderedElementDelete_perm _ _ _ Hi) as Hperm. split; [| |done].
  - rewrite <- Hperm in Hk. rewrite fmap_cons in Hk. by apply NoDup_cons in Hk as [_ Hk].
  - rewrite <- Hperm in Hc. by apply Forall_cons in Hc as [_ Hc].
Qed.

(** ** The steps *)

Lemma modify_typed f : (∀ w, k_vrgs (f w) = k_vrgs w ∧ v_instance (f w) = v_instance w) → preserves typed (modify f).
Proof. intros Hf w. destruct (Hf w) as [Hk Hi]. split; [done|]. cbn [modify snd]. by rewrite Hi. Qed.

Lemma modify_vrg_typed f : (∀ v, evolves v (f v)) → preserves typed (modify_vrg f).
Proof. intros Hf w. split; [done|]. apply Hf. Qed.

Lemma entry_typed ns n f :
  (∀ v, sound_setter (f v)) → preserves typed (modify_vrg (λ v, with_protected_pvc v ns n (f v))).
Proof.
  intros Hf. apply modify_vrg_typed. intros v. split; [| |intros Hv; by apply with_protected_pvc_wf];
    unfold with_protected_pvc; by case_match.
Qed.

Lemma for_each_typed {A} (f : A → VOp unit) l : (∀ x, preserves typed (f x)) → preserves typed (for_each f l).
Proof. apply for_each_preserves. apply _. Qed.

#[export] Hint Extern 2 (preserves typed (modify _)) => apply modify_typed; intros ?; split; reflexivity : typed.
#[export] Hint Extern 2 (preserves typed (for_each _ _)) => apply for_each_typed; intros ?; typing : typed.
#[export] Hint Extern 3 (preserves typed (λ w, (_, w <| _ ::= _ |>))) => intros ?; split; reflexivity : typed.

(** A goal on a defined operation: its body. *)
Ltac typed_body := repeat first [progress typing | progress cbn beta].

Section calls.
Context `{VolEnv} `{VRGConfig}.

Lemma vtick_typed : preserves typed vtick.
Proof. by intros w. Qed.
#[local] Hint Resolve vtick_typed : typed.
Lemma vnow_typed : preserves typed vnow.
Proof. unfold vnow. typing. Qed.
Lemma vapi_err_typed : preserves typed vapi_err.
Proof. unfold vapi_err. typing. Qed.
#[local] Hint Resolve vnow_typed vapi_err_typed : typed.
Lemma s3_err_typed : preserves typed s3_err.
Proof. unfold s3_err. typing. Qed.
Lemma requeue_typed : preserves typed requeue.
Proof. unfold requeue. typing. Qed.
Lemma load_typed p : preserves typed (load p).
Proof. unfold load. typing. Qed.
Lemma store_typed p x : preserves typed (store p x).
Proof. unfold store. typing. Qed.
Lemma alloc_typed x : preserves typed (alloc x).
Proof. by intros w. Qed.
Lemma kGet_typed {A} (proj : Volumes → gmap NamespacedName A) wm n : preserves typed (kGet proj wm n).
Proof. unfold kGet. typing. Qed.
Lemma kList_typed {A} (proj : Volumes → list A) f : preserves typed (kList proj f).
Proof. unfold kList. typing. Qed.
End calls.
#[export] Hint Resolve vtick_typed vnow_typed vapi_err_typed s3_err_typed requeue_typed load_typed store_typed alloc_typed
  kGet_typed kList_typed : typed.

(** *** Tables *)
Section tables.
Context `{VolEnv} `{VRGConfig}.

Lemma Create_pvc_typed x : preserves typed (Create_pvc x).
Proof. unfold Create_pvc, kCreate. typed_body. Qed.
Lemma Create_pv_typed x : preserves typed (Create_pv x).
Proof. unfold Create_pv, kCreate. typed_body. Qed.
Lemma Create_vr_typed x : preserves typed (Create_vr x).
Proof. unfold Create_vr, kCreate. typed_body. Qed.
Lemma Create_vgr_typed x : preserves typed (Create_vgr x).
Proof. unfold Create_vgr, kCreate. typed_body. Qed.
Lemma Create_vgrc_typed x : preserves typed (Create_vgrc x).
Proof. unfold Create_vgrc, kCreate. typed_body. Qed.
Lemma Create_snapshot_typed x : preserves typed (Create_snapshot x).
Proof. unfold Create_snapshot, kCreate. typed_body. Qed.
Lemma Update_pvc_typed x : preserves typed (Update_pvc x).
Proof. unfold Update_pvc, kUpdate. typed_body. Qed.
Lemma Update_pv_typed x : preserves typed (Update_pv x).
Proof. unfold Update_pv, kUpdate. typed_body. Qed.
Lemma Update_vr_typed x : preserves typed (Update_vr x).
Proof. unfold Update_vr, kUpdate. typed_body. Qed.
Lemma Update_vgr_typed x : preserves typed (Update_vgr x).
Proof. unfold Update_vgr, kUpdate. typed_body. Qed.
Lemma Update_vgrc_typed x : preserves typed (Update_vgrc x).
Proof. unfold Update_vgrc, kUpdate. typed_body. Qed.
Lemma Delete_pv_typed n : preserves typed (Delete_pv n).
Proof. unfold Delete_pv, kDelete. typed_body. Qed.
Lemma Delete_vr_typed n : preserves typed (Delete_vr n).
Proof. unfold Delete_vr, kDelete. typed_body. Qed.
Lemma Delete_vgr_typed n : preserves typed (Delete_vgr n).
Proof. unfold Delete_vgr, kDelete. typed_body. Qed.
Lemma Delete_snapshot_typed n : preserves typed (Delete_snapshot n).
Proof. unfold Delete_snapshot, kDelete. typed_body. Qed.
Lemma Get_pvc_typed n : preserves typed (Get_pvc n).
Proof. apply kGet_typed. Qed.
Lemma Get_pv_typed n : preserves typed (Get_pv n).
Proof. apply kGet_typed. Qed.
Lemma Get_vr_typed n : preserves typed (Get_vr n).
Proof. apply kGet_typed. Qed.
Lemma Get_vgr_typed n : preserves typed (Get_vgr n).
Proof. apply kGet_typed. Qed.
Lemma Get_vgrc_typed n : preserves typed (Get_vgrc n).
Proof. apply kGet_typed. Qed.
#[local] Hint Resolve Create_pvc_typed Create_pv_typed Create_vr_typed Create_vgr_typed Create_vgrc_typed Create_snapshot_typed Update_pvc_typed Update_pv_typed Update_vr_typed Update_vgr_typed Update_vgrc_typed Delete_pv_typed Delete_vr_typed Delete_vgr_typed Delete_snapshot_typed Get_pvc_typed Get_pv_typed Get_vr_typed Get_vgr_typed Get_vgrc_typed : typed.
Lemma Update_pvc_at_typed p : preserves typed (Update_pvc_at p).
Proof. unfold Update_pvc_at. typed_body. Qed.
Lemma report_event_typed a b c : preserves typed (report_event a b c).
Proof. unfold report_event. typed_body. Qed.
#[local] Hint Resolve Update_pvc_at_typed report_event_typed : typed.
End tables.
#[export] Hint Resolve
  Create_pvc_typed Create_pv_typed Create_vr_typed Create_vgr_typed Create_vgrc_typed Create_snapshot_typed
  Update_pvc_typed Update_pv_typed Update_vr_typed Update_vgr_typed Update_vgrc_typed Delete_pv_typed
  Delete_vr_typed Delete_vgr_typed Delete_snapshot_typed Get_pvc_typed Get_pv_typed Get_vr_typed Get_vgr_typed
  Get_vgrc_typed Update_pvc_at_typed report_event_typed : typed.

(** *** Conditions of claims *)
Section verdicts.
Context `{VolEnv} `{VRGConfig}.

Lemma sound_conditions (set : list Condition → list Condition) :
  (∀ l, wf_conds l → wf_conds (set l)) → sound_setter (λ p, p <| pp_Conditions ::= set |>).
Proof. intros Hs p. split; [done|]. apply Hs. Qed.
Lemma data_ready_sound now r m g : sound_setter (λ p, setPVCDataReadyCondition now p r m g).
Proof. apply sound_conditions. intros l Hl. repeat case_match; by apply wf_set_condition. Qed.
Lemma data_protected_sound now r m g : sound_setter (λ p, setPVCDataProtectedCondition now p r m g).
Proof. apply sound_conditions. intros l Hl. repeat case_match; by apply wf_set_condition. Qed.
Lemma cluster_data_sound now r m g : sound_setter (λ p, setPVCClusterDataProtectedCondition now p r m g).
Proof. apply sound_conditions. intros l Hl. repeat case_match; by apply wf_set_condition. Qed.
Lemma set_sync_sound t d b : sound_setter (set_sync t d b).
Proof. intros p. unfold set_sync. by destruct (pp_ProtectedByVolSync _). Qed.

Lemma update_pvc_status_typed ns n set :
  (∀ now g, sound_setter (λ p, set now p g)) → preserves typed (update_pvc_status ns n set).
Proof.
  intros Hs. unfold update_pvc_status. apply preserves_bind; [apply _|typed_solver|intros now].
  apply (entry_typed ns n (λ v p, set now p (om_Generation (vrg_Meta v)))). intros v. apply Hs.
Qed.
Lemma updatePVCDataReadyCondition_typed ns n r m : preserves typed (updatePVCDataReadyCondition ns n r m).
Proof. apply update_pvc_status_typed. intros now g. apply data_ready_sound. Qed.
Lemma updatePVCDataProtectedCondition_typed ns n r m : preserves typed (updatePVCDataProtectedCondition ns n r m).
Proof. apply update_pvc_status_typed. intros now g. apply data_protected_sound. Qed.
Lemma updatePVCClusterDataProtectedCondition_typed ns n r m : preserves typed (updatePVCClusterDataProtectedCondition ns n r m).
Proof. apply update_pvc_status_typed. intros now g. apply cluster_data_sound. Qed.
Lemma updatePVCDestinationInfoAvailableCondition_typed ns n r m : preserves typed (updatePVCDestinationInfoAvailableCondition ns n r m).
Proof. apply update_pvc_status_typed. intros now g. apply sound_conditions. intros l. apply wf_set_condition. Qed.
Lemma updatePVCReplicationHealthyCondition_typed ns n st r m : preserves typed (updatePVCReplicationHealthyCondition ns n st r m).
Proof. apply update_pvc_status_typed. intros now g. apply sound_conditions. intros l. apply wf_set_condition. Qed.
#[local] Hint Resolve updatePVCDataReadyCondition_typed updatePVCDataProtectedCondition_typed updatePVCClusterDataProtectedCondition_typed updatePVCDestinationInfoAvailableCondition_typed updatePVCReplicationHealthyCondition_typed : typed.
Lemma data_ready_all_typed l r m : preserves typed (data_ready_all l r m).
Proof. unfold data_ready_all. typed_body. Qed.
Lemma data_ready_and_protected_all_typed l r1 r2 m : preserves typed (data_ready_and_protected_all l r1 r2 m).
Proof. unfold data_ready_and_protected_all. typed_body. Qed.
Lemma checkAndUpdateDestinationInfoAvailable_typed l st : preserves typed (checkAndUpdateDestinationInfoAvailable l st).
Proof. unfold checkAndUpdateDestinationInfoAvailable. typed_body. Qed.
Lemma checkAndUpdateReplicationHealthy_typed l st : preserves typed (checkAndUpdateReplicationHealthy l st).
Proof. unfold checkAndUpdateReplicationHealthy. typed_body. Qed.
Lemma IsCRDInstalled_typed n : preserves typed (IsCRDInstalled n).
Proof. unfold IsCRDInstalled. typed_body. Qed.
#[local] Hint Resolve data_ready_all_typed data_ready_and_protected_all_typed checkAndUpdateDestinationInfoAvailable_typed checkAndUpdateReplicationHealthy_typed IsCRDInstalled_typed : typed.
Lemma isCGEnabled_typed pvc : preserves typed (isCGEnabled pvc).
Proof. unfold isCGEnabled, IsCGEnabledForVolRep. typed_body. Qed.
Lemma IsCGEnabledForVolRep_typed : preserves typed IsCGEnabledForVolRep.
Proof. unfold IsCGEnabledForVolRep. typed_body. Qed.
#[local] Hint Resolve isCGEnabled_typed : typed.
Lemma updatePVCLastSyncCounters_typed p st : preserves typed (updatePVCLastSyncCounters p st).
Proof. unfold updatePVCLastSyncCounters. typed_body; (apply (entry_typed _ _ (λ _, _)); intros ?; apply set_sync_sound). Qed.
#[local] Hint Resolve isCGEnabled_typed IsCGEnabledForVolRep_typed updatePVCLastSyncCounters_typed : typed.
Lemma validateGlobalVGRStatus_typed l st r : preserves typed (validateGlobalVGRStatus l st r).
Proof. unfold validateGlobalVGRStatus. typed_body. Qed.
Lemma validateVRValidatedStatus_typed l g st : preserves typed (validateVRValidatedStatus l g st).
Proof. unfold validateVRValidatedStatus. typed_body. Qed.
Lemma validateVRCompletedStatus_typed l g r st : preserves typed (validateVRCompletedStatus l g r st).
Proof. unfold validateVRCompletedStatus. typed_body. Qed.
Lemma checkResyncCompletionAsSecondary_typed l g st : preserves typed (checkResyncCompletionAsSecondary l g st).
Proof. unfold checkResyncCompletionAsSecondary. typed_body. Qed.
#[local] Hint Resolve validateGlobalVGRStatus_typed validateVRValidatedStatus_typed validateVRCompletedStatus_typed checkResyncCompletionAsSecondary_typed : typed.
Lemma validateAdditionalVRStatusForSecondary_typed l g st : preserves typed (validateAdditionalVRStatusForSecondary l g st).
Proof. unfold validateAdditionalVRStatusForSecondary. typed_body. Qed.
#[local] Hint Resolve validateAdditionalVRStatusForSecondary_typed : typed.
Lemma validate_completed_typed l g r st : preserves typed (validate_completed l g r st).
Proof. unfold validate_completed. typed_body. Qed.
#[local] Hint Resolve validate_completed_typed : typed.
Lemma validateVRStatus_typed l g r st : preserves typed (validateVRStatus l g r st).
Proof. unfold validateVRStatus. typed_body. Qed.
#[local] Hint Resolve validateVRStatus_typed : typed.
Lemma checkVRStatus_typed l g st : preserves typed (checkVRStatus l g st).
Proof. unfold checkVRStatus. typed_body. Qed.
#[local] Hint Resolve checkVRStatus_typed : typed.
End verdicts.
#[export] Hint Resolve
  updatePVCDataReadyCondition_typed updatePVCDataProtectedCondition_typed
  updatePVCClusterDataProtectedCondition_typed updatePVCDestinationInfoAvailableCondition_typed
  updatePVCReplicationHealthyCondition_typed data_ready_all_typed data_ready_and_protected_all_typed
  checkAndUpdateDestinationInfoAvailable_typed checkAndUpdateReplicationHealthy_typed IsCRDInstalled_typed
  isCGEnabled_typed IsCGEnabledForVolRep_typed updatePVCLastSyncCounters_typed validateGlobalVGRStatus_typed
  validateVRValidatedStatus_typed validateVRCompletedStatus_typed checkResyncCompletionAsSecondary_typed
  validateAdditionalVRStatusForSecondary_typed validate_completed_typed validateVRStatus_typed
  checkVRStatus_typed : typed.

(** *** Classes, volumes and claims *)
Section claims.
Context `{VolEnv} `{VRGConfig}.

Lemma updateReplicationClassList_typed : preserves typed updateReplicationClassList.
Proof. unfold updateReplicationClassList. typed_body. Qed.
Lemma getStorageClassFromSCName_typed n : preserves typed (getStorageClassFromSCName n).
Proof. unfold getStorageClassFromSCName. typed_body. Qed.
#[local] Hint Resolve updateReplicationClassList_typed getStorageClassFromSCName_typed : typed.
Lemma getStorageClass_typed pvc : preserves typed (getStorageClass pvc).
Proof. unfold getStorageClass. typed_body. Qed.
#[local] Hint Resolve getStorageClass_typed : typed.
Lemma selectVolumeReplicationClass_typed pvc b : preserves typed (selectVolumeReplicationClass pvc b).
Proof. unfold selectVolumeReplicationClass. typed_body. Qed.
#[local] Hint Resolve selectVolumeReplicationClass_typed : typed.
Lemma setPVCStorageIdentifiers_typed sc pvc : preserves typed (setPVCStorageIdentifiers sc pvc).
Proof. unfold setPVCStorageIdentifiers. typed_body. by apply (entry_typed _ _ (λ _, _)). Qed.
#[local] Hint Resolve setPVCStorageIdentifiers_typed : typed.
Lemma updateProtectedPVCs_typed pvc : preserves typed (updateProtectedPVCs pvc).
Proof. unfold updateProtectedPVCs. typed_body. by apply (entry_typed _ _ (λ _, _)). Qed.
#[local] Hint Resolve updateProtectedPVCs_typed : typed.
Lemma pvc_status_delete_typed pvc : preserves typed (pvc_status_delete pvc).
Proof.
  apply modify_vrg_typed. intros v. split; [| |apply pvcStatusDelete_wf]; unfold pvcStatusDeleteIfPresent;
    by destruct (FindProtectedPvcAndIndex _ _ _) as [[] ?].
Qed.
Lemma isPVCInUse_typed pvc op : preserves typed (isPVCInUse pvc op).
Proof. unfold isPVCInUse, IsPVCInUseByPod, IsPVAttachedToNode. typed_body. Qed.
Lemma getPVFromPVC_typed pvc : preserves typed (getPVFromPVC pvc).
Proof. unfold getPVFromPVC. typed_body. Qed.
Lemma update_pv_meta_typed pv m : preserves typed (update_pv_meta pv m).
Proof. unfold update_pv_meta. typed_body. Qed.
Lemma update_pvc_meta_typed p m : preserves typed (update_pvc_meta p m).
Proof. unfold update_pvc_meta. typed_body. Qed.
Lemma pvc_error_typed pvc m : preserves typed (pvc_error pvc m).
Proof. apply updatePVCDataReadyCondition_typed. Qed.
#[local] Hint Resolve pvc_status_delete_typed isPVCInUse_typed getPVFromPVC_typed update_pv_meta_typed update_pvc_meta_typed pvc_error_typed : typed.
Lemma isPVCReadyForSecondary_typed pvc : preserves typed (isPVCReadyForSecondary pvc).
Proof. unfold isPVCReadyForSecondary. typed_body. Qed.
Lemma addAnnotationForResource_typed m t k x update :
  (∀ m', preserves typed (update m')) → preserves typed (addAnnotationForResource m t k x update).
Proof. intros Hu. unfold addAnnotationForResource. typed_body. Qed.
#[local] Hint Resolve addAnnotationForResource_typed : typed.
#[local] Hint Resolve isPVCReadyForSecondary_typed : typed.
Lemma retainPVForPVC_typed pvc : preserves typed (retainPVForPVC pvc).
Proof. unfold retainPVForPVC. typed_body. Qed.
Lemma addProtectedAnnotationForPVC_typed p : preserves typed (addProtectedAnnotationForPVC p).
Proof. unfold addProtectedAnnotationForPVC. typed_body. Qed.
Lemma preparePVCForVRDeletion_typed p : preserves typed (preparePVCForVRDeletion p).
Proof. unfold preparePVCForVRDeletion. typed_body. Qed.
#[local] Hint Resolve retainPVForPVC_typed addProtectedAnnotationForPVC_typed preparePVCForVRDeletion_typed : typed.
Lemma protectPVC_typed p : preserves typed (protectPVC p).
Proof. unfold protectPVC. typed_body. Qed.
#[local] Hint Resolve protectPVC_typed : typed.
Lemma preparePVCForVRProtection_typed p : preserves typed (preparePVCForVRProtection p).
Proof. unfold preparePVCForVRProtection. typed_body. Qed.
#[local] Hint Resolve preparePVCForVRProtection_typed : typed.
Lemma createVR_typed n st : preserves typed (createVR n st).
Proof. unfold createVR, getPVCForVRNSName. typed_body. Qed.
Lemma updateVR_typed p vr st : preserves typed (updateVR p vr st).
Proof. unfold updateVR. typed_body. Qed.
#[local] Hint Resolve createVR_typed updateVR_typed : typed.
Lemma createOrUpdateVR_typed n p st : preserves typed (createOrUpdateVR n p st).
Proof. unfold createOrUpdateVR. typed_body. Qed.
#[local] Hint Resolve createOrUpdateVR_typed : typed.
Lemma processVRAsPrimary_typed n p : preserves typed (processVRAsPrimary n p).
Proof. unfold processVRAsPrimary. typed_body. Qed.
Lemma processVRAsSecondary_typed n p : preserves typed (processVRAsSecondary n p).
Proof. unfold processVRAsSecondary. typed_body. Qed.
#[local] Hint Resolve processVRAsPrimary_typed processVRAsSecondary_typed : typed.
Lemma reconcileVRAsSecondary_typed p : preserves typed (reconcileVRAsSecondary p).
Proof. unfold reconcileVRAsSecondary. typed_body. Qed.
Lemma deleteVR_typed n : preserves typed (deleteVR n).
Proof. unfold deleteVR, ensureVRDeletedFromAPIServer. typed_body. Qed.
#[local] Hint Resolve reconcileVRAsSecondary_typed deleteVR_typed : typed.
Lemma undoPVCFinalizersAndPVRetention_typed p : preserves typed (undoPVCFinalizersAndPVRetention p).
Proof. unfold undoPVCFinalizersAndPVRetention. typed_body. Qed.
#[local] Hint Resolve undoPVCFinalizersAndPVRetention_typed : typed.
Lemma reconcileMissingVR_typed p : preserves typed (reconcileMissingVR p).
Proof. unfold reconcileMissingVR. typed_body. Qed.
Lemma reconcileVRForDeletion_typed p : preserves typed (reconcileVRForDeletion p).
Proof. unfold reconcileVRForDeletion. typed_body. Qed.
#[local] Hint Resolve reconcileMissingVR_typed reconcileVRForDeletion_typed : typed.
Lemma reconcilePVCVRAsSecondary_typed p : preserves typed (reconcilePVCVRAsSecondary p).
Proof. unfold reconcilePVCVRAsSecondary. typed_body. Qed.
#[local] Hint Resolve reconcilePVCVRAsSecondary_typed : typed.
End claims.
#[export] Hint Resolve
  updateReplicationClassList_typed getStorageClassFromSCName_typed getStorageClass_typed
  selectVolumeReplicationClass_typed setPVCStorageIdentifiers_typed updateProtectedPVCs_typed
  pvc_status_delete_typed isPVCInUse_typed getPVFromPVC_typed update_pv_meta_typed update_pvc_meta_typed
  pvc_error_typed isPVCReadyForSecondary_typed retainPVForPVC_typed addProtectedAnnotationForPVC_typed
  preparePVCForVRDeletion_typed protectPVC_typed preparePVCForVRProtection_typed createVR_typed updateVR_typed
  createOrUpdateVR_typed processVRAsPrimary_typed processVRAsSecondary_typed reconcileVRAsSecondary_typed
  deleteVR_typed undoPVCFinalizersAndPVRetention_typed reconcileMissingVR_typed reconcileVRForDeletion_typed
  reconcilePVCVRAsSecondary_typed : typed.
#[export] Hint Resolve addAnnotationForResource_typed : typed.

(** *** Stores *)
Section stores.
Context `{VolEnv} `{VRGConfig}.

Lemma UploadObject_typed s k x : preserves typed (UploadObject s k x).
Proof. unfold UploadObject. typed_body. Qed.
Lemma getObjectStorer_typed s : preserves typed (getObjectStorer s).
Proof. unfold getObjectStorer, getCachedObjectStorer, cacheObjectStorer. typed_body. Qed.
Lemma cacheObjectStorer_typed a b c : preserves typed (cacheObjectStorer a b c).
Proof. unfold cacheObjectStorer. typed_body. Qed.
Lemma list_pages_typed fuel s k token l : preserves typed (list_pages fuel s k token l).
Proof.
  revert token l. induction fuel as [|fuel IH]; intros; cbn [list_pages]; unfold ListObjectsV2;
    repeat first [progress typed_body | apply IH].
Qed.
#[local] Hint Resolve list_pages_typed : typed.
Lemma ListKeys_typed s k : preserves typed (ListKeys s k).
Proof. unfold ListKeys. typed_body. Qed.
Lemma DeleteObjects_typed s l : preserves typed (DeleteObjects s l).
Proof. unfold DeleteObjects. typed_body. Qed.
#[local] Hint Resolve UploadObject_typed getObjectStorer_typed cacheObjectStorer_typed ListKeys_typed DeleteObjects_typed : typed.
Lemma UploadPVAndPVCtoS3_typed s o pv pvc : preserves typed (UploadPVAndPVCtoS3 s o pv pvc).
Proof. unfold UploadPVAndPVCtoS3, UploadPV, UploadPVC. typed_body. Qed.
Lemma UploadVGRAndVGRCtoS3_typed s o vgr vgrc : preserves typed (UploadVGRAndVGRCtoS3 s o vgr vgrc).
Proof. unfold UploadVGRAndVGRCtoS3, UploadVGR, UploadVGRC. typed_body. Qed.
#[local] Hint Resolve UploadPVAndPVCtoS3_typed UploadVGRAndVGRCtoS3_typed : typed.
Lemma UploadPVandPVCtoS3Store_typed s pvc pv : preserves typed (UploadPVandPVCtoS3Store s pvc pv).
Proof. unfold UploadPVandPVCtoS3Store. typed_body. Qed.
Lemma UploadVGRandVGRCtoS3Store_typed s vgr vgrc : preserves typed (UploadVGRandVGRCtoS3Store s vgr vgrc).
Proof. unfold UploadVGRandVGRCtoS3Store. typed_body. Qed.
#[local] Hint Resolve UploadPVandPVCtoS3Store_typed UploadVGRandVGRCtoS3Store_typed : typed.
Lemma upload_profiles_typed p pv profiles succeeded : preserves typed (upload_profiles p pv profiles succeeded).
Proof. revert succeeded. induction profiles as [|? ? IH]; intros;  cbn [upload_profiles]; repeat first [progress typed_body | apply IH]. Qed.
#[local] Hint Resolve upload_profiles_typed : typed.
Lemma UploadPVandPVCtoS3Stores_typed p : preserves typed (UploadPVandPVCtoS3Stores p).
Proof. unfold UploadPVandPVCtoS3Stores. typed_body. Qed.
Lemma isArchivedAlready_typed pvc : preserves typed (isArchivedAlready pvc).
Proof. unfold isArchivedAlready. typed_body. Qed.
Lemma addArchivedAnnotationForPVC_typed p : preserves typed (addArchivedAnnotationForPVC p).
Proof. unfold addArchivedAnnotationForPVC. typed_body. Qed.
#[local] Hint Resolve UploadPVandPVCtoS3Stores_typed isArchivedAlready_typed addArchivedAnnotationForPVC_typed : typed.
Lemma uploadPVandPVCtoS3Stores_typed p : preserves typed (uploadPVandPVCtoS3Stores p).
Proof. unfold uploadPVandPVCtoS3Stores, handleNoS3ProfilesError. typed_body. Qed.
Lemma s3StoresDo_typed do msg profiles : (∀ s, preserves typed (do s)) → preserves typed (s3StoresDo do msg profiles).
Proof. intros Hd. induction profiles as [|s l IH]; cbn [s3StoresDo]; repeat first [progress typed_body | apply IH]. Qed.
#[local] Hint Resolve s3StoresDo_typed : typed.
#[local] Hint Resolve uploadPVandPVCtoS3Stores_typed : typed.
Lemma pvAndPvcObjectReplicasDelete_typed pvc : preserves typed (pvAndPvcObjectReplicasDelete pvc).
Proof. unfold pvAndPvcObjectReplicasDelete. typed_body. Qed.
Lemma applyDestinationVolumeHandleToPV_typed pv h : preserves typed (applyDestinationVolumeHandleToPV pv h).
Proof. unfold applyDestinationVolumeHandleToPV. typed_body. Qed.
#[local] Hint Resolve pvAndPvcObjectReplicasDelete_typed applyDestinationVolumeHandleToPV_typed : typed.
Lemma annotateWithDestinationVolumeHandleForVolRep_typed pvc : preserves typed (annotateWithDestinationVolumeHandleForVolRep pvc).
Proof. unfold annotateWithDestinationVolumeHandleForVolRep. typed_body. Qed.
#[local] Hint Resolve annotateWithDestinationVolumeHandleForVolRep_typed : typed.
End stores.
#[export] Hint Resolve
  UploadObject_typed getObjectStorer_typed cacheObjectStorer_typed ListKeys_typed DeleteObjects_typed
  UploadPVAndPVCtoS3_typed UploadVGRAndVGRCtoS3_typed UploadPVandPVCtoS3Store_typed
  UploadVGRandVGRCtoS3Store_typed upload_profiles_typed UploadPVandPVCtoS3Stores_typed isArchivedAlready_typed
  addArchivedAnnotationForPVC_typed uploadPVandPVCtoS3Stores_typed pvAndPvcObjectReplicasDelete_typed
  applyDestinationVolumeHandleToPV_typed annotateWithDestinationVolumeHandleForVolRep_typed : typed.

(** *** Consistency groups *)
Section groups.
Context `{VolEnv} `{VRGConfig}.

Lemma set_vrg_condition_typed t st r m : preserves typed (set_vrg_condition t st r m).
Proof. unfold set_vrg_condition. typed_body. apply modify_vrg_typed. intros v. split; [done|done|]. intros [Hk Hc Hv]. split; [done|done|]. by apply wf_set_condition. Qed.
Lemma list_sharing_typed v : preserves typed (list_sharing v).
Proof. unfold list_sharing. typed_body. Qed.
#[local] Hint Resolve set_vrg_condition_typed list_sharing_typed : typed.
Lemma setGlobalStateCondition_typed st r m : preserves typed (setGlobalStateCondition st r m).
Proof. apply set_vrg_condition_typed. Qed.
Lemma setGlobalSecondaryCondition_typed st r m : preserves typed (setGlobalSecondaryCondition st r m).
Proof. apply set_vrg_condition_typed. Qed.
#[local] Hint Resolve setGlobalStateCondition_typed setGlobalSecondaryCondition_typed : typed.
Lemma isGlobalStateInConsensus_typed : preserves typed isGlobalStateInConsensus.
Proof. unfold isGlobalStateInConsensus. typed_body. Qed.
Lemma areSiblingVRGsReadyForGlobalSecondary_typed : preserves typed areSiblingVRGsReadyForGlobalSecondary.
Proof. unfold areSiblingVRGsReadyForGlobalSecondary. typed_body. Qed.
Lemma isGlobalDeleteInConsensus_typed : preserves typed isGlobalDeleteInConsensus.
Proof. unfold isGlobalDeleteInConsensus. typed_body. Qed.
Lemma deleteVGR_typed n : preserves typed (deleteVGR n).
Proof. unfold deleteVGR, ensureVRDeletedFromAPIServer. typed_body. Qed.
Lemma getVGRClassReplicationID_typed pvc : preserves typed (getVGRClassReplicationID pvc).
Proof. unfold getVGRClassReplicationID. typed_body. Qed.
Lemma update_pvc_label_typed p k x : preserves typed (update_pvc_label p k x).
Proof. unfold update_pvc_label. typed_body. Qed.
#[local] Hint Resolve isGlobalStateInConsensus_typed areSiblingVRGsReadyForGlobalSecondary_typed isGlobalDeleteInConsensus_typed deleteVGR_typed getVGRClassReplicationID_typed update_pvc_label_typed : typed.
Lemma labelPVCsWithVGROwner_typed l name : preserves typed (labelPVCsWithVGROwner l name).
Proof. induction l as [|? ? IH]; intros;  cbn [labelPVCsWithVGROwner]; repeat first [progress typed_body | apply IH]. Qed.
Lemma add_label_to_selector_typed k x : preserves typed (add_label_to_selector k x).
Proof. unfold add_label_to_selector. typed_body. apply modify_vrg_typed. intros v. split; [done|done|]. by intros []. Qed.
#[local] Hint Resolve labelPVCsWithVGROwner_typed add_label_to_selector_typed : typed.
Lemma createVGR_typed n l st : preserves typed (createVGR n l st).
Proof. unfold createVGR. typed_body. Qed.
Lemma updateVGR_typed l vgr st : preserves typed (updateVGR l vgr st).
Proof. unfold updateVGR. typed_body. Qed.
#[local] Hint Resolve createVGR_typed updateVGR_typed : typed.
Lemma createOrUpdateVGR_typed n l st : preserves typed (createOrUpdateVGR n l st).
Proof. unfold createOrUpdateVGR. typed_body. Qed.
#[local] Hint Resolve createOrUpdateVGR_typed : typed.
Lemma processVGRAsPrimary_typed n l : preserves typed (processVGRAsPrimary n l).
Proof. unfold processVGRAsPrimary. typed_body. Qed.
Lemma processVGRAsSecondary_typed n l : preserves typed (processVGRAsSecondary n l).
Proof. unfold processVGRAsSecondary. typed_body. Qed.
Lemma all_ready_for_secondary_typed l : preserves typed (all_ready_for_secondary l).
Proof. induction l as [|? ? IH]; intros;  cbn [all_ready_for_secondary]; repeat first [progress typed_body | apply IH]. Qed.
#[local] Hint Resolve processVGRAsPrimary_typed processVGRAsSecondary_typed all_ready_for_secondary_typed : typed.
Lemma reconcileVGRAsSecondary_typed n l : preserves typed (reconcileVGRAsSecondary n l).
Proof. unfold reconcileVGRAsSecondary. typed_body. Qed.
Lemma prepare_all_for_deletion_typed l : preserves typed (prepare_all_for_deletion l).
Proof. induction l as [|? ? IH]; intros;  cbn [prepare_all_for_deletion]; repeat first [progress typed_body | apply IH]. Qed.
#[local] Hint Resolve reconcileVGRAsSecondary_typed prepare_all_for_deletion_typed : typed.
Lemma reconcileMissingVGR_typed n l : preserves typed (reconcileMissingVGR n l).
Proof. unfold reconcileMissingVGR. typed_body. Qed.
Lemma undoPVCFinalizersAndPVRetentionForVGR_typed n l : preserves typed (undoPVCFinalizersAndPVRetentionForVGR n l).
Proof. unfold undoPVCFinalizersAndPVRetentionForVGR. typed_body. Qed.
#[local] Hint Resolve reconcileMissingVGR_typed undoPVCFinalizersAndPVRetentionForVGR_typed : typed.
Lemma reconcileVGRForDeletion_typed n l : preserves typed (reconcileVGRForDeletion n l).
Proof. unfold reconcileVGRForDeletion. typed_body. Qed.
Lemma range_groups_typed g : preserves typed (range_groups g).
Proof. unfold range_groups. typed_body. Qed.
#[local] Hint Resolve reconcileVGRForDeletion_typed range_groups_typed : typed.
Lemma pvcsUnprotectVolGroupRep_typed g : preserves typed (pvcsUnprotectVolGroupRep g).
Proof. unfold pvcsUnprotectVolGroupRep. typed_body. Qed.
Lemma secondary_groups_typed l again : preserves typed (secondary_groups l again).
Proof. revert again. induction l as [|? ? IH]; intros;  cbn [secondary_groups]; repeat first [progress typed_body | apply IH]. Qed.
#[local] Hint Resolve pvcsUnprotectVolGroupRep_typed secondary_groups_typed : typed.
Lemma reconcileVolGroupRepsAsSecondary_typed again g : preserves typed (reconcileVolGroupRepsAsSecondary again g).
Proof. unfold reconcileVolGroupRepsAsSecondary. typed_body. Qed.
Lemma getVGRCFromVGR_typed vgr : preserves typed (getVGRCFromVGR vgr).
Proof. unfold getVGRCFromVGR. typed_body. Qed.
Lemma update_vgr_meta_typed vgr m : preserves typed (update_vgr_meta vgr m).
Proof. unfold update_vgr_meta. typed_body. Qed.
Lemma update_vgrc_meta_typed vgrc m : preserves typed (update_vgrc_meta vgrc m).
Proof. unfold update_vgrc_meta. typed_body. Qed.
#[local] Hint Resolve reconcileVolGroupRepsAsSecondary_typed getVGRCFromVGR_typed update_vgr_meta_typed update_vgrc_meta_typed : typed.
Lemma annotateWithDestinationVolumeHandleForVolGroupRep_typed n pvc : preserves typed (annotateWithDestinationVolumeHandleForVolGroupRep n pvc).
Proof. unfold annotateWithDestinationVolumeHandleForVolGroupRep, findAndApplyPVMapping. typed_body. Qed.
Lemma annotateWithDestinationVolumeGroupHandle_typed n : preserves typed (annotateWithDestinationVolumeGroupHandle n).
Proof. unfold annotateWithDestinationVolumeGroupHandle, findAndApplyVolumeGroupHandle. typed_body. Qed.
Lemma isVGRandVGRCArchivedAlready_typed vgr : preserves typed (isVGRandVGRCArchivedAlready vgr).
Proof. unfold isVGRandVGRCArchivedAlready. typed_body. Qed.
Lemma addArchivedAnnotationForVGRandVGRC_typed vgr : preserves typed (addArchivedAnnotationForVGRandVGRC vgr).
Proof. unfold addArchivedAnnotationForVGRandVGRC. typed_body. Qed.
Lemma upload_group_profiles_typed vgr vgrc profiles succeeded : preserves typed (upload_group_profiles vgr vgrc profiles succeeded).
Proof. revert succeeded. induction profiles as [|? ? IH]; intros;  cbn [upload_group_profiles]; repeat first [progress typed_body | apply IH]. Qed.
#[local] Hint Resolve annotateWithDestinationVolumeHandleForVolGroupRep_typed annotateWithDestinationVolumeGroupHandle_typed isVGRandVGRCArchivedAlready_typed addArchivedAnnotationForVGRandVGRC_typed upload_group_profiles_typed : typed.
Lemma UploadVGRandVGRCtoS3Stores_typed vgr : preserves typed (UploadVGRandVGRCtoS3Stores vgr).
Proof. unfold UploadVGRandVGRCtoS3Stores. typed_body. Qed.
#[local] Hint Resolve UploadVGRandVGRCtoS3Stores_typed : typed.
Lemma uploadVGRandVGRCtoS3Stores_typed n : preserves typed (uploadVGRandVGRCtoS3Stores n).
Proof. unfold uploadVGRandVGRCtoS3Stores. typed_body. Qed.
Lemma protect_group_claim_typed n p : preserves typed (protect_group_claim n p).
Proof. unfold protect_group_claim. typed_body. Qed.
#[local] Hint Resolve uploadVGRandVGRCtoS3Stores_typed protect_group_claim_typed : typed.
Lemma primary_group_typed b g : preserves typed (primary_group b g).
Proof. unfold primary_group. typed_body. Qed.
#[local] Hint Resolve primary_group_typed : typed.
Lemma reconcileVolGroupRepsAsPrimary_typed g : preserves typed (reconcileVolGroupRepsAsPrimary g).
Proof. unfold reconcileVolGroupRepsAsPrimary. typed_body. Qed.
Lemma resetCGLabelValue_typed p : preserves typed (resetCGLabelValue p).
Proof. unfold resetCGLabelValue. typed_body. Qed.
Lemma getVGRUsingSCLabel_typed pvc : preserves typed (getVGRUsingSCLabel pvc).
Proof. unfold getVGRUsingSCLabel. typed_body. Qed.
Lemma deleteVGRIfUnused_typed vgr : preserves typed (deleteVGRIfUnused vgr).
Proof. unfold deleteVGRIfUnused. typed_body. Qed.
#[local] Hint Resolve reconcileVolGroupRepsAsPrimary_typed resetCGLabelValue_typed getVGRUsingSCLabel_typed deleteVGRIfUnused_typed : typed.
Lemma pvcUnprotectVolGroupRep_typed p : preserves typed (pvcUnprotectVolGroupRep p).
Proof. unfold pvcUnprotectVolGroupRep. typed_body. Qed.
#[local] Hint Resolve pvcUnprotectVolGroupRep_typed : typed.
End groups.
#[export] Hint Resolve
  set_vrg_condition_typed list_sharing_typed setGlobalStateCondition_typed setGlobalSecondaryCondition_typed
  isGlobalStateInConsensus_typed areSiblingVRGsReadyForGlobalSecondary_typed isGlobalDeleteInConsensus_typed
  deleteVGR_typed getVGRClassReplicationID_typed update_pvc_label_typed labelPVCsWithVGROwner_typed
  add_label_to_selector_typed createVGR_typed updateVGR_typed createOrUpdateVGR_typed processVGRAsPrimary_typed
  processVGRAsSecondary_typed all_ready_for_secondary_typed reconcileVGRAsSecondary_typed
  prepare_all_for_deletion_typed reconcileMissingVGR_typed undoPVCFinalizersAndPVRetentionForVGR_typed
  reconcileVGRForDeletion_typed range_groups_typed pvcsUnprotectVolGroupRep_typed secondary_groups_typed
  reconcileVolGroupRepsAsSecondary_typed getVGRCFromVGR_typed update_vgr_meta_typed update_vgrc_meta_typed
  annotateWithDestinationVolumeHandleForVolGroupRep_typed annotateWithDestinationVolumeGroupHandle_typed
  isVGRandVGRCArchivedAlready_typed addArchivedAnnotationForVGRandVGRC_typed upload_group_profiles_typed
  UploadVGRandVGRCtoS3Stores_typed uploadVGRandVGRCtoS3Stores_typed protect_group_claim_typed
  primary_group_typed reconcileVolGroupRepsAsPrimary_typed resetCGLabelValue_typed getVGRUsingSCLabel_typed
  deleteVGRIfUnused_typed pvcUnprotectVolGroupRep_typed : typed.

(** *** Snapshots *)
Section snapshots.
Context `{VolEnv} `{VRGConfig}.

Lemma list_snapshots_typed ns n : preserves typed (list_snapshots ns n).
Proof. unfold list_snapshots. typed_body. Qed.
Lemma GetVolumeSnapshotClasses_typed : preserves typed GetVolumeSnapshotClasses.
Proof. unfold GetVolumeSnapshotClasses. typed_body. Qed.
#[local] Hint Resolve list_snapshots_typed GetVolumeSnapshotClasses_typed : typed.
Lemma GetVolumeSnapshotClassFromPVCStorageClass_typed n : preserves typed (GetVolumeSnapshotClassFromPVCStorageClass n).
Proof. unfold GetVolumeSnapshotClassFromPVCStorageClass, getVolumeSnapshotClassFromPVCStorageClass. typed_body. Qed.
Lemma createSnapshot_typed pvc n : preserves typed (createSnapshot pvc n).
Proof. unfold createSnapshot. typed_body. Qed.
#[local] Hint Resolve GetVolumeSnapshotClassFromPVCStorageClass_typed createSnapshot_typed : typed.
Lemma createSnapshotForPVC_typed p : preserves typed (createSnapshotForPVC p).
Proof. unfold createSnapshotForPVC. typed_body. Qed.
#[local] Hint Resolve createSnapshotForPVC_typed : typed.
Lemma createSnapshotsForPVCs_typed l : preserves typed (createSnapshotsForPVCs l).
Proof. induction l as [|? ? IH]; intros;  cbn [createSnapshotsForPVCs]; repeat first [progress typed_body | apply IH]. Qed.
Lemma filter_non_cephfs_typed l : preserves typed (filter_non_cephfs l).
Proof. induction l as [|? ? IH]; intros;  cbn [filter_non_cephfs]; repeat first [progress typed_body | apply IH]. Qed.
Lemma collect_snapshots_typed n l m : preserves typed (collect_snapshots n l m).
Proof. revert m. induction l as [|? ? IH]; intros;  cbn [collect_snapshots]; repeat first [progress typed_body | apply IH]. Qed.
Lemma delete_snapshots_typed l n : preserves typed (delete_snapshots l n).
Proof. revert n. induction l as [|? ? IH]; intros;  cbn [delete_snapshots]; repeat first [progress typed_body | apply IH]. Qed.
#[local] Hint Resolve createSnapshotsForPVCs_typed filter_non_cephfs_typed collect_snapshots_typed delete_snapshots_typed : typed.
Lemma ensureSnapshotsForDryRun_typed : preserves typed ensureSnapshotsForDryRun.
Proof. unfold ensureSnapshotsForDryRun, filterNonCephFSPVCs. typed_body. Qed.
Lemma cleanupDryRunSnapshots_typed : preserves typed cleanupDryRunSnapshots.
Proof. unfold cleanupDryRunSnapshots. typed_body. Qed.
#[local] Hint Resolve ensureSnapshotsForDryRun_typed cleanupDryRunSnapshots_typed : typed.
End snapshots.
#[export] Hint Resolve
  list_snapshots_typed GetVolumeSnapshotClasses_typed GetVolumeSnapshotClassFromPVCStorageClass_typed
  createSnapshot_typed createSnapshotForPVC_typed createSnapshotsForPVCs_typed filter_non_cephfs_typed
  collect_snapshots_typed delete_snapshots_typed ensureSnapshotsForDryRun_typed cleanupDryRunSnapshots_typed : typed.

(** *** The loops *)
Section reconciles.
Context `{VolEnv} `{VRGConfig}.

Lemma unprotect_claims_typed l g : preserves typed (unprotect_claims l g).
Proof. revert g. induction l as [|? ? IH]; intros;  cbn [unprotect_claims]; repeat first [progress typed_body | apply IH]. Qed.
#[local] Hint Resolve unprotect_claims_typed : typed.
Lemma pvcsUnprotectVolRep_typed l : preserves typed (pvcsUnprotectVolRep l).
Proof. unfold pvcsUnprotectVolRep. typed_body. Qed.
#[local] Hint Resolve pvcsUnprotectVolRep_typed : typed.
Lemma pvcUnprotectVolRep_typed pvc : preserves typed (pvcUnprotectVolRep pvc).
Proof. unfold pvcUnprotectVolRep. typed_body. Qed.
#[local] Hint Resolve pvcUnprotectVolRep_typed : typed.
Lemma pvcUnprotectVolRepIfDeleted_typed pvc : preserves typed (pvcUnprotectVolRepIfDeleted pvc).
Proof. unfold pvcUnprotectVolRepIfDeleted. typed_body. Qed.
#[local] Hint Resolve pvcUnprotectVolRepIfDeleted_typed : typed.
Lemma process_pvc_as_primary_typed p g : preserves typed (process_pvc_as_primary p g).
Proof. unfold process_pvc_as_primary. typed_body. Qed.
#[local] Hint Resolve process_pvc_as_primary_typed : typed.
Lemma process_pvcs_as_primary_typed l g : preserves typed (process_pvcs_as_primary l g).
Proof. revert g. induction l as [|? ? IH]; intros;  cbn [process_pvcs_as_primary]; repeat first [progress typed_body | apply IH]. Qed.
#[local] Hint Resolve process_pvcs_as_primary_typed : typed.
Lemma processPVCAsSecondary_typed p g : preserves typed (processPVCAsSecondary p g).
Proof. unfold processPVCAsSecondary. typed_body. Qed.
#[local] Hint Resolve processPVCAsSecondary_typed : typed.
Lemma process_pvcs_as_secondary_typed l again g : preserves typed (process_pvcs_as_secondary l again g).
Proof. revert again g. induction l as [|? ? IH]; intros;  cbn [process_pvcs_as_secondary]; repeat first [progress typed_body | apply IH]. Qed.
#[local] Hint Resolve process_pvcs_as_secondary_typed : typed.
End reconciles.
#[export] Hint Resolve
  unprotect_claims_typed pvcsUnprotectVolRep_typed pvcUnprotectVolRep_typed pvcUnprotectVolRepIfDeleted_typed
  process_pvc_as_primary_typed process_pvcs_as_primary_typed processPVCAsSecondary_typed
  process_pvcs_as_secondary_typed : typed.

Section invariant.
Context `{VolEnv} `{VRGConfig}.

(** C38: The status of a VRG keeps its shape through a reconcile of the replicated claims, of
    a primary, of a secondary, and of a VRG that gives its claims up, whatever fails on the
    way: a claim has one entry, and an entry and the VRG have one condition of a type. *)
Theorem reconcile_keeps_status_shape w :
  well_formed (v_instance w) →
  well_formed (v_instance (reconcileVolRepsAsPrimary w).2) ∧
  well_formed (v_instance (reconcileVolRepsAsSecondary w).2) ∧
  (∀ l, well_formed (v_instance (pvcsUnprotectVolRep l w).2)).
Proof.
  intros Hw.
  assert (preserves typed reconcileVolRepsAsPrimary) as Hp by (unfold reconcileVolRepsAsPrimary, processPVCsAsPrimary; typed_body).
  assert (preserves typed reconcileVolRepsAsSecondary) as Hs by (unfold reconcileVolRepsAsSecondary; typed_body).
  split; [by apply Hp|]. split; [by apply Hs|]. intros l. by apply pvcsUnprotectVolRep_typed.
Qed.
End invariant.

(** ** Evaluated *)

Section invariant_witness.
#[local] Existing Instance calm_volenv.
#[local] Existing Instance default_vrgconfig.

Lemma reconcile_keeps_status_shape_witness :
  well_formed (v_instance (reconcileVolRepsAsPrimary (the_volumes Primary VRGActionFailover VRPrimary)).2).
Proof.
  refine (proj1 (reconcile_keeps_status_shape (the_volumes Primary VRGActionFailover VRPrimary) _)).
  split; [apply NoDup_singleton|apply Forall_singleton|apply NoDup_nil_2].
  apply (bool_decide_unpack (NoDup _)). by vm_compute.
Defined.
End invariant_witness.
