(* ===== verification/VirtualMachinesSpec.v ===== *)
(** * Who owns a claim, and which machines are deleted

    The walk from a claim up to the machine that owns it: that it ends when ownership is
    acyclic, how much fuel it needs, what it decides, and that it never ends on a cycle.
    Then which machines the clean-up of a secondary deletes, and when. *)

From Stdlib Require Import ZArith.
From S2P Require Import Prelude Meta Names Conditions Api VRGStatus PolicyPeers Events Telemetry Volumes VolRepStatus VolRepClasses.
From S2P Require Import VolRep VolRepReconcile VRGAggregate VolScenario VRGAggregateSpec VolRepStatusSpec VolFrames VolRepSpec VirtualMachines.
#[local] Open Scope record_scope.

(** What the server has for an owner reference of an object in a namespace. *)
Definition owner_meta (w : Volumes) (ns : string) (o : OwnerReference) : option ObjectMeta :=
  if isKubeVirtVM o then vm_Meta <$> k_vms w !! (ns, or_Name o)
  else k_objects w !! ((or_APIVersion o, or_Kind o), (ns, or_Name o)).

(** The reference leads to the machine, each object on the way being the one referred to. *)
Inductive owned_by_vm (w : Volumes) (ns : string) : OwnerReference → ObjectMeta → Prop :=
  | owned_directly o m :
      owner_meta w ns o = Some m → om_UID m = or_UID o → isKubeVirtVM o = true → owned_by_vm w ns o m
  | owned_through o m o' vm :
      owner_meta w ns o = Some m → om_UID m = or_UID o → isKubeVirtVM o = false →
      o' ∈ om_OwnerReferences m → owned_by_vm w ns o' vm → owned_by_vm w ns o vm.

(** Ownership is acyclic, with at most [b] owners each: [rank] goes down along it. *)
Record ranked (w : Volumes) (ns : string) (b : nat) (rank : OwnerReference → nat) : Prop := {
  rk_down : ∀ o m o', owner_meta w ns o = Some m → o' ∈ om_OwnerReferences m → rank o' < rank o;
  rk_breadth : ∀ o m, owner_meta w ns o = Some m → length (om_OwnerReferences m) ≤ b;
}.

(** The steps the walk takes from an owner of a rank, and from a stack. *)
Fixpoint steps_from (b rank : nat) : nat :=
  match rank with 0 => 1 | S r => S (b * steps_from b r) end.
Definition stack_steps (b : nat) (rank : OwnerReference → nat) (stack : list OwnerReference) : nat :=
  sum_list_with (λ o, steps_from b (rank o)) stack.

(** The same machines and objects. *)
Definition same_owners (w w' : Volumes) : Prop := k_vms w' = k_vms w ∧ k_objects w' = k_objects w.
#[export] Instance same_owners_order : PreOrder same_owners.
Proof. split; [by intros w|]. intros w1 w2 w3 [? ?] [? ?]. split; congruence. Qed.

Lemma owner_meta_same w w' ns o : same_owners w w' → owner_meta w' ns o = owner_meta w ns o.
Proof. intros [Hv Ho]. unfold owner_meta. by rewrite Hv, Ho. Qed.

Lemma owned_by_vm_same w w' ns o m : same_owners w w' → owned_by_vm w ns o m → owned_by_vm w' ns o m.
Proof.
  intros Hs. induction 1 as [o m Hm|o m o' vm Hm ? ? ? _ IH].
  - apply owned_directly; [by rewrite (owner_meta_same w)|done..].
  - eapply owned_through; [by rewrite (owner_meta_same w)|done..].
Qed.

Lemma same_owners_sym w w' : same_owners w w' → same_owners w' w.
Proof. by intros [? ?]. Qed.

Lemma ranked_same w w' ns b rank : same_owners w w' → ranked w ns b rank → ranked w' ns b rank.
Proof.
  intros Hs [Hd Hb]. split.
  - intros o m o'. rewrite (owner_meta_same w w') by done. apply Hd.
  - intros o m. rewrite (owner_meta_same w w') by done. apply Hb.
Qed.

Lemma steps_from_mono b r r' : 1 ≤ b → r ≤ r' → steps_from b r ≤ steps_from b r'.
Proof.
  intros Hb. revert r'. induction r as [|r IH]; intros [|r'] Hle; simpl; [lia|nia|lia|].
  pose proof (IH r'). nia.
Qed.

Lemma stack_steps_rev b rank l : stack_steps b rank (rev l) = stack_steps b rank l.
Proof.
  unfold stack_steps. rewrite rev_alt. change (rev_append l []) with (reverse l). apply sum_list_with_reverse.
Qed.

(** The owners of an object cost less than the object. *)
Lemma owners_steps w ns b rank o m :
  1 ≤ b → ranked w ns b rank → owner_meta w ns o = Some m →
  stack_steps b rank (rev (om_OwnerReferences m)) < steps_from b (rank o).
Proof.
  intros Hb [Hdown Hbreadth] Hm. specialize (Hdown o m). specialize (Hbreadth o m Hm).
  rewrite stack_steps_rev. unfold stack_steps.
  assert (∀ l, (∀ o', o' ∈ l → rank o' < rank o) →
            sum_list_with (λ o, steps_from b (rank o)) l ≤ length l * steps_from b (rank o - 1)) as Hl.
  { induction l as [|x l IH]; intros Hx; simpl; [lia|].
    assert (rank x < rank o) by (apply Hx, list_elem_of_here).
    pose proof (steps_from_mono b (rank x) (rank o - 1) Hb ltac:(lia)).
    assert (Hl : ∀ o', o' ∈ l → rank o' < rank o) by (by intros o' Ho; apply Hx, list_elem_of_further).
    specialize (IH Hl). lia. }
  specialize (Hl (om_OwnerReferences m) (λ o', Hdown o' Hm)).
  destruct (om_OwnerReferences m) as [|x l] eqn:He; [destruct (rank o); simpl; lia|].
  specialize (Hdown x Hm (list_elem_of_here _ _)). destruct (rank o) as [|r]; [lia|]. simpl steps_from.
  replace (S r - 1) with r in Hl by lia. nia.
Qed.

Lemma stack_steps_app b rank l k : stack_steps b rank (l ++ k) = stack_steps b rank l + stack_steps b rank k.
Proof. apply sum_list_with_app. Qed.

Section walk.
Context `{VolEnv}.

Lemma calm_api_err w : no_failures → (vapi_err w).1 = None.
Proof. intros Hc. apply Hc. Qed.

Lemma fetchPartialMeta_run ns o w :
  same_owners w (fetchPartialMeta ns o w).2 ∧
  (∀ m, (fetchPartialMeta ns o w).1 = inl m → owner_meta w ns o = Some m) ∧
  (no_failures → ∀ m, owner_meta w ns o = Some m → (fetchPartialMeta ns o w).1 = inl m).
Proof.
  unfold fetchPartialMeta. rewrite or_return_run. destruct (vapi_err w).1 as [e|] eqn:He.
  - split; [done|]. split; [done|]. intros Hc. by rewrite calm_api_err in He.
  - rewrite !run_bind. cbn [gets fst snd mret M_ret]. unfold owner_meta.
    change (k_vms (vapi_err w).2) with (k_vms w). change (k_objects (vapi_err w).2) with (k_objects w).
    split; [done|]. destruct (if isKubeVirtVM o then _ else _) as [x|]; split; intros; simplify_eq; done.
Qed.

(** What the walk is to return: a machine the stack leads to, and one if there is one and
    every call succeeds. *)
Definition decides_owner (w : Volumes) (ns : string) (stack : list OwnerReference) (r : ObjectMeta + GoError) : Prop :=
  (∀ vm, r = inl vm → ∃ o, o ∈ stack ∧ owned_by_vm w ns o vm) ∧
  (no_failures → (∃ o vm, o ∈ stack ∧ owned_by_vm w ns o vm) → ∃ vm, r = inl vm).

Lemma decides_owner_rev w ns stack r : decides_owner w ns (rev stack) r → decides_owner w ns stack r.
Proof.
  assert (Hin : ∀ o, o ∈ rev stack ↔ o ∈ stack) by (intros o; rewrite !list_elem_of_In; symmetry; apply in_rev).
  intros [Hs Hc]. split.
  - intros vm Hr. destruct (Hs vm Hr) as (o & Ho & Hvm). exists o. by rewrite <-Hin.
  - intros Hcalm (o & vm & Ho & Hvm). apply (Hc Hcalm). exists o, vm. by rewrite Hin.
Qed.

Lemma walk_owners_S fuel ns stack :
  walk_owners (S fuel) ns stack =
  match stack with
  | [] => mret (Some (inr (Errorf "no VM found in ownership chain" None)))
  | cur :: stack' =>
      r ← fetchPartialMeta ns cur;
      match r with
      | inr _ => walk_owners fuel ns stack'
      | inl m =>
          if om_UID m ≠? or_UID cur then walk_owners fuel ns stack'
          else if isKubeVirtVM cur then mret (Some (inl m))
          else walk_owners fuel ns (rev (om_OwnerReferences m) ++ stack')
      end
  end.
Proof. done. Qed.

Lemma decides_owner_skip w w1 ns cur stack r :
  same_owners w w1 → (no_failures → ∀ vm, ¬ owned_by_vm w ns cur vm) →
  decides_owner w1 ns stack r → decides_owner w ns (cur :: stack) r.
Proof.
  intros Hs Hnone [Hsound Hcomplete]. split.
  - intros vm ->. destruct (Hsound vm eq_refl) as (o & Ho & Hvm). exists o. split; [set_solver|].
    by apply (owned_by_vm_same w1 w); [apply same_owners_sym|].
  - intros Hc (o & vm & Ho & Hvm). apply (Hcomplete Hc). apply elem_of_cons in Ho as [->|Ho]; [by apply Hnone in Hvm|].
    exists o, vm. split; [done|by apply (owned_by_vm_same w)].
Qed.

Lemma decides_owner_push w w1 ns cur m stack r :
  same_owners w w1 → owner_meta w ns cur = Some m → om_UID m = or_UID cur → isKubeVirtVM cur = false →
  decides_owner w1 ns (rev (om_OwnerReferences m) ++ stack) r → decides_owner w ns (cur :: stack) r.
Proof.
  intros Hs Hm Huid Hk [Hsound Hcomplete]. split.
  - intros vm ->. destruct (Hsound vm eq_refl) as (o & Ho & Hvm).
    apply (owned_by_vm_same w1 w) in Hvm; [|by apply same_owners_sym].
    apply elem_of_app in Ho as [Ho%list_elem_of_In%in_rev%list_elem_of_In|Ho].
    + exists cur. split; [set_solver|]. by apply (owned_through w ns cur m o).
    + exists o. split; [set_solver|done].
  - intros Hc (o & vm & Ho & Hvm). apply (Hcomplete Hc). apply elem_of_cons in Ho as [->|Ho].
    + inversion Hvm as [|? m' o' ? Hm' ? ? Ho' Hvm']; [congruence|]. rewrite Hm in Hm'. injection Hm' as <-.
      exists o', vm. split; [|by apply (owned_by_vm_same w)].
      apply elem_of_app. left. by apply list_elem_of_In; rewrite <-in_rev; apply list_elem_of_In.
    + exists o, vm. split; [by apply elem_of_app; right|by apply (owned_by_vm_same w)].
Qed.

(** Whatever the walk returns is right. *)
Lemma walk_owners_right fuel ns stack w r :
  (walk_owners fuel ns stack w).1 = Some r → decides_owner w ns stack r.
Proof.
  revert stack w. induction fuel as [|fuel IH]; intros stack w; [done|]. rewrite walk_owners_S.
  destruct stack as [|cur stack].
  { intros [= <-]. split; [done|]. intros _ (o & vm & Ho & _). set_solver. }
  rewrite run_bind. destruct (fetchPartialMeta_run ns cur w) as (Hsame & Hfound & Hcalm).
  destruct (fetchPartialMeta ns cur w) as [[m|e] w1]; cbn [fst snd] in *.
  - specialize (Hfound m eq_refl). destruct (decide (om_UID m = or_UID cur)) as [Huid|Huid].
    + rewrite bool_decide_eq_true_2 by done. cbn [negb]. destruct (isKubeVirtVM cur) eqn:Hvm.
      * intros [= <-]. split; [|by eauto]. intros vm [= <-]. exists cur. split; [set_solver|by apply owned_directly].
      * intros Hr%IH. by apply (decides_owner_push w w1 _ _ m).
    + rewrite bool_decide_eq_false_2 by done. intros Hr%IH. apply (decides_owner_skip w w1); [done| |done].
      intros _ vm Hvm. inversion Hvm; congruence.
  - intros Hr%IH. apply (decides_owner_skip w w1); [done| |done]. intros Hc vm Hvm. inversion Hvm; naive_solver.
Qed.

Lemma walk_owners_ends fuel ns b rank stack w :
  1 ≤ b → ranked w ns b rank → stack_steps b rank stack < fuel → is_Some (walk_owners fuel ns stack w).1.
Proof.
  intros Hb. revert stack w. induction fuel as [|fuel IH]; intros stack w Hrank Hfuel; [lia|]. rewrite walk_owners_S.
  destruct stack as [|cur stack]; [by eexists|].
  change (stack_steps b rank (cur :: stack)) with (steps_from b (rank cur) + stack_steps b rank stack) in Hfuel.
  assert (Hpos : 1 ≤ steps_from b (rank cur)) by (destruct (rank cur); simpl; lia).
  rewrite run_bind. destruct (fetchPartialMeta_run ns cur w) as (Hsame & Hfound & _).
  destruct (fetchPartialMeta ns cur w) as [[m|e] w1]; cbn [fst snd] in *;
    specialize (λ l, IH l w1 (ranked_same _ _ _ _ _ Hsame Hrank)); [|apply IH; lia].
  destruct (om_UID m ≠? or_UID cur); [apply IH; lia|]. destruct (isKubeVirtVM cur); [by eexists|].
  apply IH. rewrite stack_steps_app. pose proof (owners_steps _ _ _ _ _ _ Hb Hrank (Hfound m eq_refl)). lia.
Qed.

Lemma walk_owners_more fuel ns stack w r :
  (walk_owners fuel ns stack w).1 = Some r → walk_owners (S fuel) ns stack w = walk_owners fuel ns stack w.
Proof.
  revert stack w. induction fuel as [|fuel IH]; intros stack w; [done|].
  intros Hr. rewrite walk_owners_S in Hr |- *. rewrite (walk_owners_S fuel).
  destruct stack as [|cur stack]; [done|]. rewrite run_bind in Hr. rewrite !run_bind.
  destruct (fetchPartialMeta ns cur w) as [[m|e] w1]; cbn [fst snd] in *; [|by apply IH].
  destruct (om_UID m ≠? or_UID cur); [by apply IH|]. destruct (isKubeVirtVM cur); [done|]. by apply IH.
Qed.

Lemma walk_owners_enough fuel fuel' ns stack w r :
  (walk_owners fuel ns stack w).1 = Some r → fuel ≤ fuel' → (walk_owners fuel' ns stack w).1 = Some r.
Proof.
  intros Hr. induction 1 as [|fuel' _ IH]; [done|]. by rewrite (walk_owners_more _ _ _ _ _ IH).
Qed.

(** The last owner of each of these references is again one of them. *)
Definition cyclic (w : Volumes) (ns : string) (P : OwnerReference → Prop) : Prop :=
  ∀ o, P o → isKubeVirtVM o = false ∧
    ∃ m o', owner_meta w ns o = Some m ∧ om_UID m = or_UID o ∧ last (om_OwnerReferences m) = Some o' ∧ P o'.

Lemma walk_owners_cyclic fuel ns P o stack w :
  no_failures → cyclic w ns P → P o → (walk_owners fuel ns (o :: stack) w).1 = None.
Proof.
  intros Hc. revert o stack w. induction fuel as [|fuel IH]; intros o stack w Hcyc Ho; [done|].
  destruct (Hcyc o Ho) as (Hk & m & o' & Hm & Huid & Hlast & Ho').
  destruct (fetchPartialMeta_run ns o w) as (Hsame & _ & Hcalm). specialize (Hcalm Hc m Hm).
  rewrite walk_owners_S, run_bind. destruct (fetchPartialMeta ns o w) as [r w1]; cbn [fst snd] in *. subst r.
  rewrite bool_decide_eq_true_2 by done. rewrite Hk. cbn [negb]. apply last_Some in Hlast as [l ->].
  rewrite rev_app_distr. apply IH; [|done]. intros x Hx. destruct (Hcyc x Hx) as (? & mx & x' & ? & ? & ? & ?).
  split; [done|]. exists mx, x'. by rewrite (owner_meta_same w).
Qed.

(** C15: The walk of [IsOwnedByVM] ends where ownership is acyclic.  If a rank goes down from
    each object to its owners and no object has more than [b] of them, one result comes out
    for every fuel above the number of steps the ranks bound; it is a machine that a chain
    of owner references, each with the right UID, leads to, and it is one if there is one
    and no call fails. *)
Theorem owner_walk_terminates obj b rank w :
  1 ≤ b → ranked w (om_Namespace obj) b rank →
  ∃ r, decides_owner w (om_Namespace obj) (om_OwnerReferences obj) r ∧
    ∀ fuel, stack_steps b rank (om_OwnerReferences obj) < fuel →
      (walk_owners fuel (om_Namespace obj) (rev (om_OwnerReferences obj)) w).1 = Some r.
Proof.
  intros Hb Hrank. rewrite <-stack_steps_rev.
  destruct (walk_owners_ends _ _ _ _ (rev (om_OwnerReferences obj)) _ Hb Hrank (Nat.lt_succ_diag_r _)) as [r Hr].
  exists r. split; [by apply decides_owner_rev, (walk_owners_right _ _ _ _ _ Hr)|].
  intros fuel Hf. apply (walk_owners_enough _ _ _ _ _ _ Hr). lia.
Qed.

(** On a cycle of owner references the loop of [IsOwnedByVM], which keeps no record of
    what it visited, never ends: if the last owner of the object is in a set of objects,
    none a machine, whose last owners are in the set, no fuel gives a result. *)
Theorem owner_cycle_never_ends obj P o w :
  no_failures → cyclic w (om_Namespace obj) P → last (om_OwnerReferences obj) = Some o → P o →
  ∀ fuel, (walk_owners fuel (om_Namespace obj) (rev (om_OwnerReferences obj)) w).1 = None.
Proof.
  intros Hc Hcyc [l ->]%last_Some Ho fuel. rewrite rev_app_distr. by apply (walk_owners_cyclic _ _ P).
Qed.
End walk.

(** ** The clean-up of a secondary *)

(** The same machines, owners and claims, of the same VRG: only its status and the clock
    may differ. *)
Record same_claims (w w' : Volumes) : Prop := {
  sc_owners : same_owners w w';
  sc_heap : v_heap w' = v_heap w;
  sc_volRep : v_volRepPVCs w' = v_volRepPVCs w;
  sc_volSync : v_volSyncPVCs w' = v_volSyncPVCs w;
  sc_meta : vrg_Meta (v_instance w') = vrg_Meta (v_instance w);
  sc_spec : vrg_Spec (v_instance w') = vrg_Spec (v_instance w);
  sc_state : vst_State (vrg_Status (v_instance w')) = vst_State (vrg_Status (v_instance w));
}.
#[export] Instance same_claims_order : PreOrder same_claims.
Proof.
  split; [by intros w|]. intros w1 w2 w3 [] []. split; try congruence. by etransitivity.
Qed.

Create HintDb reading discriminated.
#[export] Hint Constants Opaque : reading.
Ltac reading_solver := solve [auto with reading nocore].
Ltac reading := repeat frame_step reading_solver.

(** The claims that the VRG protects. *)
Definition protected_claims (w : Volumes) : list PersistentVolumeClaim :=
  (claim w <$> v_volRepPVCs w) ++ (claim w <$> v_volSyncPVCs w).

Lemma Delete_vm_others `{VolEnv} k w n : n ≠ k → k_vms (Delete_vm k w).2 !! n = k_vms w !! n.
Proof.
  intros Hne. unfold Delete_vm, kDelete. rewrite or_return_run. destruct (vapi_err w).1; [done|].
  rewrite run_bind. cbn [gets fst snd]. case_match; [|done]. rewrite run_bind, run_bind.
  case_bool_decide; cbn; [by rewrite lookup_delete_ne|by rewrite lookup_insert_ne].
Qed.

Section cleanup.
Context `{VolEnv} `{VRGConfig} `{VMEnv}.
Abbreviation reads := (preserves same_claims).

Lemma vtick_reads : reads vtick.
Proof. by intros w. Qed.
#[local] Hint Resolve vtick_reads : reading.
Lemma vapi_err_reads : reads vapi_err.
Proof. unfold vapi_err. reading. Qed.
#[local] Hint Resolve vapi_err_reads : reading.
Lemma kGet_reads {A} (proj : Volumes → gmap NamespacedName A) wm n : reads (kGet proj wm n).
Proof. unfold kGet. reading. Qed.
Lemma kList_reads {A} (proj : Volumes → list A) f : reads (kList proj f).
Proof. unfold kList. reading. Qed.
#[local] Hint Resolve kGet_reads kList_reads : reading.
Lemma modify_conditions_reads f : reads (modify_conditions f).
Proof. by intros w. Qed.
#[local] Hint Resolve modify_conditions_reads : reading.
Lemma set_auto_cleanup_reads f st r m : reads (set_auto_cleanup f st r m).
Proof. apply modify_conditions_reads. Qed.
Lemma fetchPartialMeta_reads ns o : reads (fetchPartialMeta ns o).
Proof. unfold fetchPartialMeta. reading. Qed.
#[local] Hint Resolve set_auto_cleanup_reads fetchPartialMeta_reads : reading.
Lemma walk_owners_reads fuel ns stack : reads (walk_owners fuel ns stack).
Proof. revert stack. induction fuel as [|fuel IH]; intros stack; simpl; reading; apply IH. Qed.
#[local] Hint Resolve walk_owners_reads : reading.
Lemma IsOwnedByVM_reads m : reads (IsOwnedByVM m).
Proof. unfold IsOwnedByVM. reading. Qed.
#[local] Hint Resolve IsOwnedByVM_reads : reading.
Lemma verify_reads pvc : reads (verifyVMPVCOwnershipAndUsage pvc).
Proof. unfold verifyVMPVCOwnershipAndUsage, handleExistingOwnerRef. reading. Qed.
#[local] Hint Resolve verify_reads : reading.
Lemma validate_ownership_reads pvcs b : reads (validate_ownership pvcs b).
Proof. revert b. induction pvcs as [|pvc pvcs IH]; intros b; simpl; reading; apply IH. Qed.
#[local] Hint Resolve validate_ownership_reads : reading.
Lemma validatePVCOwnershipOnVMs_reads : reads validatePVCOwnershipOnVMs.
Proof. unfold validatePVCOwnershipOnVMs, collectProtectedPVCs, claims_of. reading. Qed.

Lemma find_vms_reads l seen : reads (find_vms l seen).
Proof. revert seen. induction l as [|n l IH]; intros seen; simpl; unfold Get_vm; reading; apply IH. Qed.
#[local] Hint Resolve find_vms_reads : reading.
Lemma list_by_labels_reads ns l : reads (list_by_labels ns l).
Proof. induction l as [|x l IH]; simpl; reading; apply IH. Qed.
#[local] Hint Resolve list_by_labels_reads : reading.
Lemma ListVMsByLabelSelector_reads l ns : reads (ListVMsByLabelSelector l ns).
Proof. induction ns as [|x ns IH]; simpl; reading; apply IH. Qed.
Lemma buildDiscoveredResources_reads l : reads (buildDiscoveredResources l).
Proof. induction l as [|x l IH]; simpl; reading; apply IH. Qed.
#[local] Hint Resolve ListVMsByLabelSelector_reads buildDiscoveredResources_reads : reading.
Lemma isResourceConflict_reads : reads isResourceConflict.
Proof.
  unfold isResourceConflict, validateVMsForStandaloneProtection, CheckForVMConflictOnPrimary, CheckForVMConflictOnSecondary,
    CheckForVMNameConflictOnSecondary, validateAndRecordStaticIPDiscovery, ValidateStaticIPNetworkMapping, ListVMsByVMNamespace.
  reading. by intros w.
Qed.
Lemma skipVMCleanup_reads : reads skipVMCleanupVerificationCheck.
Proof. unfold skipVMCleanupVerificationCheck, IsVMDeletionInProgress, ListVMsByVMNamespace. reading. Qed.

(** Each machine found is one that was looked for. *)
Lemma find_vms_found l seen w vms vm :
  (find_vms l seen w).1 = inl vms → vm ∈ vms → (om_Namespace (vm_Meta vm), om_Name (vm_Meta vm)) ∈ l.
Proof.
  revert seen w vms. induction l as [|n l IH]; intros seen w vms; simpl; [intros [= <-]; by intros ?%not_elem_of_nil|].
  case_bool_decide; [intros Hr Hvm; right; by eapply IH|]. rewrite run_bind.
  unfold Get_vm, kGet at 1. rewrite or_return_run. destruct (vapi_err w).1 as [e|].
  { cbn [fst snd mret M_ret]. case_match; [intros Hr Hvm; right; by eapply IH|done]. }
  rewrite run_bind. cbn [gets fst snd mret M_ret]. destruct (k_vms _ !! n) as [x|].
  - rewrite result_or_return_run. destruct (find_vms _ _ _).1 as [more|e] eqn:Hmore; [|done].
    intros [= <-] [->|Hvm]%elem_of_cons; [cbn; rewrite <-surjective_pairing; by left|]. right. by eapply IH.
  - change (IsNotFound (absent n.2)) with true. cbv iota. intros Hr Hvm. right. by eapply IH.
Qed.

(** Only the machines given are deleted. *)
Lemma DeleteVMs_others vms w n :
  k_vms (DeleteVMs vms w).2 !! n ≠ k_vms w !! n → ∃ vm, vm ∈ vms ∧ n = (om_Namespace (vm_Meta vm), om_Name (vm_Meta vm)).
Proof.
  revert w. induction vms as [|vm vms IH]; intros w; [done|]. simpl. rewrite or_return_run.
  set (k := (om_Namespace (vm_Meta vm), om_Name (vm_Meta vm))). intros Hn.
  destruct (decide (n = k)) as [->|Hne]; [by exists vm; split; [left|]|].
  assert (Hk : k_vms (Delete_vm k w).2 !! n = k_vms w !! n) by by apply Delete_vm_others.
  rewrite <-Hk in Hn. destruct (Delete_vm k w).1; [done|]. destruct (IH _ Hn) as (vm' & ? & ?).
  exists vm'. split; [by right|done].
Qed.

(** A reference of the claim leads to a machine. *)
Definition machine_owned (w : Volumes) (pvc : PersistentVolumeClaim) : Prop :=
  ∃ o vm, o ∈ om_OwnerReferences (pvc_Meta pvc) ∧ owned_by_vm w (pvc_namespace pvc) o vm.

Lemma verify_owned pvc w :
  ppr_skip (verifyVMPVCOwnershipAndUsage pvc w).1 = false → machine_owned w pvc.
Proof.
  unfold verifyVMPVCOwnershipAndUsage. case_bool_decide; [done|]. unfold handleExistingOwnerRef, IsOwnedByVM.
  rewrite !run_bind. cbn [fst snd mret M_ret]. destruct (walk_owners _ _ _ w).1 as [[vm|e]|] eqn:Hr; [|done..].
  intros _. apply walk_owners_right, decides_owner_rev in Hr as [Hs _]. destruct (Hs vm eq_refl) as (o & ? & ?).
  by exists o, vm.
Qed.

Lemma validate_ownership_owned pvcs b w :
  (validate_ownership pvcs b w).1 = true →
  ∀ pvc, pvc ∈ pvcs → ResourceIsDeleted (pvc_Meta pvc) = false → machine_owned w pvc.
Proof.
  revert b w. induction pvcs as [|p pvcs IH]; intros b w; [by intros _ ? ?%not_elem_of_nil|]. simpl.
  destruct (ResourceIsDeleted (pvc_Meta p)) eqn:Hd.
  { intros Hr pvc [->|Hp]%elem_of_cons Hpd; [congruence|]. by eapply IH. }
  rewrite run_bind. destruct (ppr_skip (verifyVMPVCOwnershipAndUsage p w).1) eqn:Hskip; [done|].
  case_match; [done|]. intros Hr pvc [->|Hp]%elem_of_cons Hpd; [by apply verify_owned|].
  destruct (IH _ _ Hr pvc Hp Hpd) as (o & vm & Ho & Hvm). exists o, vm. split; [done|].
  eapply owned_by_vm_same; [|exact Hvm]. apply same_owners_sym, verify_reads.
Qed.

Lemma validatePVCOwnership_owned w :
  (validatePVCOwnershipOnVMs w).1 = true →
  ∀ pvc, pvc ∈ protected_claims w → ResourceIsDeleted (pvc_Meta pvc) = false → machine_owned w pvc.
Proof. apply validate_ownership_owned. Qed.

Lemma protected_claims_same w w' : same_claims w w' → protected_claims w' = protected_claims w.
Proof. intros [_ Hh Hr Hv _ _ _]. unfold protected_claims, claim. by rewrite Hh, Hr, Hv. Qed.
Lemma machine_owned_same w w' pvc : same_claims w w' → machine_owned w' pvc → machine_owned w pvc.
Proof.
  intros [Hs _ _ _ _ _ _] (o & vm & ? & Hvm). exists o, vm. split; [done|].
  by eapply owned_by_vm_same; [apply same_owners_sym|].
Qed.

(** What has to hold of the VRG and its claims for the machine [n] to be deleted. *)
Record deletable (w : Volumes) (n : NamespacedName) : Prop := {
  dl_namespace : n.1 ∈ recipe_parameter (v_instance w) ProtectedVMNamespace;
  dl_listed : n.2 ∈ recipe_parameter (v_instance w) VMList;
  dl_owned : ∀ pvc, pvc ∈ protected_claims w → ResourceIsDeleted (pvc_Meta pvc) = false → machine_owned w pvc;
}.

Lemma deletable_same w w' n : same_claims w w' → deletable w' n → deletable w n.
Proof.
  intros Hs [Hn Hl Ho]. unfold recipe_parameter in *. rewrite (sc_spec _ _ Hs) in Hn, Hl. split; [done..|].
  intros pvc Hp Hd. apply (machine_owned_same _ _ _ Hs). apply Ho; [|done]. by rewrite (protected_claims_same _ _ Hs).
Qed.

Lemma vms_same w w' : same_claims w w' → k_vms w' = k_vms w.
Proof. by intros [[] _ _ _ _ _ _]. Qed.

Lemma skip_found w :
  ∀ vm, vm ∈ (skipVMCleanupVerificationCheck w).1.1 →
  om_Namespace (vm_Meta vm) ∈ recipe_parameter (v_instance w) ProtectedVMNamespace ∧
  om_Name (vm_Meta vm) ∈ recipe_parameter (v_instance w) VMList.
Proof.
  unfold skipVMCleanupVerificationCheck, IsVMDeletionInProgress, ListVMsByVMNamespace. rewrite run_bind. cbn [gets fst snd].
  case_bool_decide; [by intros vm ?%not_elem_of_nil|]. rewrite run_bind, result_or_return_run.
  destruct (find_vms _ _ w).1 as [vms|e] eqn:Hf; [|by intros vm ?%not_elem_of_nil]. cbn.
  intros vm Hvm. pose proof (find_vms_found _ _ _ _ _ Hf Hvm) as Hin.
  apply list_elem_of_bind in Hin as (ns & Hin & Hns). apply list_elem_of_bind in Hin as (x & [=-> ->]%list_elem_of_singleton & Hx).
  done.
Qed.

Lemma ShouldCleanup_deletes w n :
  k_vms (ShouldCleanupVMForSecondary w).2 !! n ≠ k_vms w !! n → deletable w n.
Proof.
  unfold ShouldCleanupVMForSecondary. cbv zeta. rewrite run_bind.
  pose proof (skipVMCleanup_reads w) as H1'. pose proof (skip_found w) as Hfound.
  destruct (skipVMCleanupVerificationCheck w) as [[vms skip] w1]; cbn [fst snd] in *.
  destruct skip; [by cbn [mret M_ret snd]; rewrite (vms_same _ _ H1')|]. case_bool_decide.
  { rewrite run_bind. cbn [snd mret M_ret]. rewrite (vms_same w1) by apply set_auto_cleanup_reads. by rewrite (vms_same _ _ H1'). }
  rewrite run_bind. pose proof (validatePVCOwnershipOnVMs_reads w1) as H2'.
  pose proof (validatePVCOwnership_owned w1) as Howned.
  destruct (validatePVCOwnershipOnVMs w1) as [[|] w2]; cbn [fst snd negb] in *.
  - rewrite run_bind. cbn [snd mret M_ret]. rewrite <-(vms_same _ _ H1'), <-(vms_same _ _ H2').
    intros (vm & Hvm & ->)%DeleteVMs_others. destruct (Hfound vm Hvm). split; [done..|].
    intros pvc Hp Hd. apply (machine_owned_same _ _ _ H1'), Howned; [done| |done]. by rewrite (protected_claims_same _ _ H1').
  - rewrite run_bind. cbn [snd mret M_ret]. rewrite (vms_same w2) by apply set_auto_cleanup_reads.
    by rewrite (vms_same _ _ H2'), (vms_same _ _ H1').
Qed.

(** C14: The clean-up of a secondary deletes, or marks for deletion, a virtual machine only if
    the VRG is of the VM recipe with a DR action in progress, the machine is one that the
    recipe's parameters list, and every claim that the VRG protects and that is not already
    being deleted is owned by a machine on the cluster, through references of the right
    UIDs. *)
Theorem machines_deleted_only_if_owned w n :
  k_vms (HandleSecondaryConflictsAndCleanup w).2 !! n ≠ k_vms w !! n →
  IsVMRecipe (vsp_KubeObjectProtection (vrg_Spec (v_instance w))) = true ∧ IsDRActionInProgress (v_instance w) = true ∧
  deletable w n.
Proof.
  unfold HandleSecondaryConflictsAndCleanup. cbv zeta. rewrite run_bind. cbn [gets fst snd].
  destruct (IsVMRecipe _) eqn:Hvm; cbn [negb]; cycle 1.
  { rewrite run_bind. cbn [snd mret M_ret]. by rewrite (vms_same w) by apply set_auto_cleanup_reads. }
  rewrite run_bind. pose proof (isResourceConflict_reads w) as Hs.
  destruct (isResourceConflict w) as [[|] w1]; cbn [fst snd] in *; [by cbn [mret M_ret snd]; rewrite (vms_same _ _ Hs)|].
  rewrite !run_bind. cbn [gets fst snd].
  assert (Hdr : IsDRActionInProgress (v_instance w1) = IsDRActionInProgress (v_instance w)).
  { unfold IsDRActionInProgress. by rewrite (sc_spec _ _ Hs), (sc_meta _ _ Hs), (sc_state _ _ Hs). }
  rewrite Hdr. destruct (IsDRActionInProgress (v_instance w)); cbn [negb]; cycle 1.
  { rewrite run_bind. cbn [snd mret M_ret].
    case_bool_decide; by rewrite (vms_same w1), (vms_same _ _ Hs) by apply set_auto_cleanup_reads. }
  case_match; [by cbn [mret M_ret snd]; rewrite (vms_same _ _ Hs)|]. rewrite !run_bind. cbn [fst snd mret M_ret].
  intros Hn. split; [done|]. split; [done|]. apply (deletable_same _ _ _ Hs), ShouldCleanup_deletes.
  rewrite (vms_same _ _ Hs). revert Hn. destruct (ShouldCleanupVMForSecondary w1) as [[|] w2]; cbn [fst snd]; [|done].
  by rewrite (vms_same w2) by apply set_auto_cleanup_reads.
Qed.
End cleanup.

(** ** A machine with one claim

    The claim [data] belongs to the DataVolume [dv], which belongs to the machine [vm]. *)

Program Definition the_vmenv : VMEnv := {|
  vme_ParseAddresses := λ _, None;
  vme_range := λ _ m, map_to_list m;
  vme_Marshal := λ _, inl "";
  vme_veleroNamespaceName := "velero";
  vme_fuel := 10;
|}.
Solve Obligations with done.

Definition vm_ref : OwnerReference := mkOwnerReference KubeVirtAPIVersion KindVirtualMachine "vm" "vm-uid" true.
Definition dv_ref : OwnerReference := mkOwnerReference "cdi.kubevirt.io/v1beta1" "DataVolume" "dv" "dv-uid" true.
Definition the_dv (owners : list OwnerReference) : ObjectMeta :=
  named_meta "dv" "app" <| om_UID := "dv-uid" |> <| om_OwnerReferences := owners |>.
Definition vm_claim : PersistentVolumeClaim := the_pvc <| pvc_Meta ::= λ m, m <| om_OwnerReferences := [dv_ref] |> |>.

Definition vm_protection : KubeObjectProtectionSpec :=
  mkKubeObjectProtectionSpec None (Some (mkRecipeRef "ramen-ops" VMRecipeName))
    {[VMList := ["vm"]; ProtectedVMNamespace := ["app"]; K8SLabelSelector := ["vm"]]} None.

(** The VRG is to leave the cluster; [owners] are those of the DataVolume. *)
Definition vm_cluster (owners : list OwnerReference) : Volumes :=
  let w := the_volumes Secondary VRGActionRelocate VRSecondary in
  w <| v_heap := [vm_claim] |>
    <| v_instance ::= λ v, v <| vrg_Spec ::= λ s, s <| vsp_KubeObjectProtection := Some vm_protection |> |>
                             <| vrg_Status ::= λ s, s <| vst_State := PrimaryState |> |> |>
    <| k_vms := {[("app", "vm") := mkVirtualMachine (named_meta "vm" "app" <| om_UID := "vm-uid" |>) None]} |>
    <| k_objects := {[(("cdi.kubevirt.io/v1beta1", "DataVolume"), ("app", "dv")) := the_dv owners]} |>.

Definition vm_rank (o : OwnerReference) : nat := if isKubeVirtVM o then 0 else 1.

Section witnesses.
#[local] Existing Instance calm_volenv.
#[local] Existing Instance default_vrgconfig.
#[local] Existing Instance the_vmenv.

Lemma vm_cluster_owners o m :
  owner_meta (vm_cluster [vm_ref]) "app" o = Some m →
  om_OwnerReferences m = if isKubeVirtVM o then [] else [vm_ref].
Proof.
  unfold owner_meta. destruct (isKubeVirtVM o).
  - intros (x & Hx & ->)%fmap_Some. by destruct (proj1 (lookup_singleton_Some (M := gmap NamespacedName) _ _ _ _) Hx) as [_ <-].
  - intros Hx. by destruct (proj1 (lookup_singleton_Some (M := gmap (GVK * NamespacedName)) _ _ _ _) Hx) as [_ <-].
Qed.

Lemma vm_cluster_ranked : ranked (vm_cluster [vm_ref]) "app" 1 vm_rank.
Proof.
  split; [intros o m o' Hm%vm_cluster_owners|intros o m Hm%vm_cluster_owners];
    rewrite Hm; unfold vm_rank; destruct (isKubeVirtVM o).
  - by intros ?%not_elem_of_nil.
  - intros ->%list_elem_of_singleton. exact Nat.lt_0_1.
  - cbn. lia.
  - cbn. lia.
Qed.

Lemma owner_walk_terminates_witness :
  ∃ r, decides_owner (vm_cluster [vm_ref]) "app" [dv_ref] r ∧
    ∀ fuel, 2 < fuel → (walk_owners fuel "app" [dv_ref] (vm_cluster [vm_ref])).1 = Some r.
Proof.
  exact (owner_walk_terminates (pvc_Meta vm_claim) 1 vm_rank (vm_cluster [vm_ref]) (le_n 1) vm_cluster_ranked).
Defined.

Lemma owner_cycle_never_ends_witness :
  ∀ fuel, (walk_owners fuel "app" [dv_ref] (vm_cluster [dv_ref])).1 = None.
Proof.
  apply (owner_cycle_never_ends (pvc_Meta vm_claim) (λ o, o = dv_ref) dv_ref); [done| |done..].
  intros o ->. split; [done|]. by exists (the_dv [dv_ref]), dv_ref.
Defined.

Lemma machines_deleted_only_if_owned_witness :
  k_vms (HandleSecondaryConflictsAndCleanup (vm_cluster [vm_ref])).2 !! ("app", "vm") = None ∧
  deletable (vm_cluster [vm_ref]) ("app", "vm").
Proof.
  assert (Hgone : k_vms (HandleSecondaryConflictsAndCleanup (vm_cluster [vm_ref])).2 !! ("app", "vm") = None) by by vm_compute.
  split; [exact Hgone|].
  refine (proj2 (proj2 (machines_deleted_only_if_owned (vm_cluster [vm_ref]) ("app", "vm") _))).
  rewrite Hgone. intros Heq. discriminate Heq.
Defined.
End witnesses.
