(* ===== verification/KubeObjectsSpec.v ===== *)
(** * What a capture leaves alone, and what it reports

    Theorems about the protection of Kubernetes objects, against the interface of the manager
    of requests: a capture spares the stored objects of the capture to recover from, and
    advances it only with the VRG in every store; and what becomes of failed steps. *)

From Stdlib Require Import ZArith Ascii.
From stdpp Require Import pretty.
From S2P Require Import Prelude Meta Names Conditions Api VRGStatus PeerClasses PolicyPeers Events Telemetry Workflows Volumes VolRepStatus VolRepClasses.
From S2P Require Import VolRep ObjectStores VolRepReconcile VRGAggregate VirtualMachines Velero KubeObjects VolScenario VirtualMachinesSpec.
From S2P Require Import VRGAggregateSpec VolRepStatusSpec VolFrames VolRepSpec ClusterDataSpec.
#[local] Open Scope record_scope.

(** ** Failed steps *)

Section steps.
Context `{VolEnv} `{VRGConfig} `{VMEnv} `{RequestsManager} `{KubeEnv}.

(** An essential step that succeeded, and so not all failed; or none that succeeded. *)
Definition counted (n : StepCounts) : Prop := st_essentialStepsCount n = 0 ∨ st_allEssentialStepsFailed n = false.

Lemma step_failed_counted b n : counted n → counted (step_failed b n).
Proof. intros [Hn|Hn]; [by left|right]. cbn. by rewrite Hn. Qed.
Lemma step_done_counted b n : counted n → counted (step_done b n).
Proof. destruct b; [by right|done]. Qed.
Lemma counted_verdict n : counted n → (if bool_decide (st_essentialStepsCount n = 0) then false else st_allEssentialStepsFailed n) = false.
Proof. intros [Hn|Hn]; [by rewrite bool_decide_eq_true_2|]. by case_bool_decide. Qed.

Lemma capture_steps_verdict groups failOn p cp np labels annotations requests n w :
  counted n → (capture_steps groups failOn p cp np labels annotations requests n w).1.2 = None →
  (capture_steps groups failOn p cp np labels annotations requests n w).1.1 = false.
Proof.
  revert n w. induction groups as [|g groups IH]; intros n w Hn; simpl.
  { rewrite run_bind. intros _. by apply counted_verdict. }
  rewrite run_bind. destruct (capture_step _ _ _ _ _ _ _ _ _ w).1 as [[[flags skip] completed] err].
  destruct skip; [by apply IH|]. destruct err as [e|].
  - destruct (shouldStopExecution _ _); [by rewrite run_bind; cbn|]. apply IH. by apply step_failed_counted.
  - rewrite run_bind. destruct (ks_IsHook _); [apply IH; by apply step_done_counted|].
    case_bool_decide; [done|]. apply IH. unfold counted. cbn [st_essentialStepsCount st_allEssentialStepsFailed].
    by apply step_done_counted.
Qed.

Lemma recover_steps_verdict groups i failOn s number captures recovers labels n w b :
  counted n → (recover_steps groups i failOn s number captures recovers labels n w).1 = inl b → b = false.
Proof.
  revert i n w. induction groups as [|g groups IH]; intros i n w Hn; simpl.
  { rewrite run_bind. intros [= <-]. by apply counted_verdict. }
  rewrite run_bind. destruct (recover_step _ _ _ _ _ _ _ _ _ w).1 as [[flags skip] err].
  destruct skip; [by apply IH|]. destruct err as [e|].
  - destruct (shouldStopExecution _ _); [done|]. apply IH. by apply step_failed_counted.
  - apply IH. by apply step_done_counted.
Qed.

(** C23: A workflow whose steps end without an error is never reported as failed: whatever steps
    failed, and however essential, [allEssentialStepsFailed] comes out false, of a capture
    and of a recovery, because an essential step is counted only when it succeeds.  So with
    [failOn: full-error] a capture of which every group failed goes on to completion. *)
Theorem essential_failures_are_not_reported w :
  (∀ p cp np annotations requests,
     (executeCaptureSteps p cp np annotations requests w).1.2 = None →
     (executeCaptureSteps p cp np annotations requests w).1.1 = false) ∧
  (∀ s number captures recovers,
     (executeRecoverSteps s number captures recovers w).1 ≠ inl true).
Proof.
  split.
  - intros p cp np annotations requests. unfold executeCaptureSteps. rewrite !run_bind.
    apply capture_steps_verdict. by left.
  - intros s number captures recovers. unfold executeRecoverSteps. rewrite !run_bind. intros Hr.
    apply recover_steps_verdict in Hr; [done|]. by left.
Qed.
End steps.

(** ** Frames

    [aside]: neither the stores, nor what of the VRG a capture is about. *)

Record aside (w w' : Volumes) : Prop := {
  as_s3 : k_s3 w' = k_s3 w;
  as_accessors : v_s3StoreAccessors w' = v_s3StoreAccessors w;
  as_elements : v_recipeElements w' = v_recipeElements w;
  as_meta : vrg_Meta (v_instance w') = vrg_Meta (v_instance w);
  as_capture : vst_CaptureToRecoverFrom (vrg_Status (v_instance w')) = vst_CaptureToRecoverFrom (vrg_Status (v_instance w));
}.
#[export] Instance aside_order : PreOrder aside.
Proof. split; [by intros w|]. intros w1 w2 w3 [] []. split; congruence. Qed.

(** What is asked of the manager of requests and of the hooks: they leave the stores and the
    VRG's identity and capture alone. *)
Class KubeFrame `{VolEnv} `{RequestsManager} `{KubeEnv} : Prop := {
  kf_StartTime : ∀ r, preserves aside (rq_StartTime r);
  kf_Deallocate : ∀ r, preserves aside (rq_Deallocate r);
  kf_ProtectRequestCreate : ∀ loc spec ns n l a, preserves aside (rm_ProtectRequestCreate loc spec ns n l a);
  kf_ProtectRequestsGet : ∀ ns l, preserves aside (rm_ProtectRequestsGet ns l);
  kf_ProtectRequestsDelete : ∀ ns l, preserves aside (rm_ProtectRequestsDelete ns l);
  kf_Execute : ∀ hook, preserves aside (ke_Execute hook);
}.

(** The objects under the keys [P] are spared. *)
Record spares (P : string → Prop) (w w' : Volumes) : Prop := {
  sp_keys : ∀ s k, P k → bucket s w' !! k = bucket s w !! k;
  sp_accessors : v_s3StoreAccessors w' = v_s3StoreAccessors w;
  sp_elements : v_recipeElements w' = v_recipeElements w;
  sp_meta : vrg_Meta (v_instance w') = vrg_Meta (v_instance w);
  sp_capture : vst_CaptureToRecoverFrom (vrg_Status (v_instance w')) = vst_CaptureToRecoverFrom (vrg_Status (v_instance w));
}.
#[export] Instance spares_order P : PreOrder (spares P).
Proof.
  split; [by intros w|]. intros w1 w2 w3 [Hk1] [Hk2]. split; try congruence. intros s k Hk. by rewrite Hk2, Hk1.
Qed.
Lemma aside_spares P w w' : aside w w' → spares P w w'.
Proof. intros [Hs]. split; try done. intros s k _. unfold bucket. by rewrite Hs. Qed.

Create HintDb sparing discriminated.
#[export] Hint Constants Opaque : sparing.
Ltac sparing_solver := solve [auto with sparing nocore].
Ltac sparing := repeat frame_step sparing_solver.

(** Only the stores and the clock. *)
Record only_stores (w w' : Volumes) : Prop := {
  os_accessors : v_s3StoreAccessors w' = v_s3StoreAccessors w;
  os_elements : v_recipeElements w' = v_recipeElements w;
  os_instance : v_instance w' = v_instance w;
}.

(** A deletion takes all under the prefix, or fails, and nothing else. *)
Lemma DeleteObjectsWithKeyPrefix_run `{VolEnv} s pfx w :
  let r := DeleteObjectsWithKeyPrefix s pfx w in
  only_stores w r.2 ∧
  (∀ s' k, ¬ (s' = s ∧ String.prefix pfx k = true) → bucket s' r.2 !! k = bucket s' w !! k) ∧
  (r.1 = None → ∀ k, String.prefix pfx k = true → bucket s r.2 !! k = None).
Proof.
  intros r. subst r. unfold DeleteObjectsWithKeyPrefix. rewrite result_or_return_run.
  destruct (ListKeys_run s pfx w) as ((n & Hn) & Hlist & _).
  destruct (ListKeys s pfx w) as [[keys|e] w0]; cbn [fst snd] in *; subst w0; [|by rewrite run_ret; split_and!].
  destruct (Hlist keys eq_refl) as [_ Hkeys]. clear Hlist. set (w0 := w <| v_tick := n |>).
  unfold DeleteObjects. rewrite !or_return_run. destruct (s3_err _).1 as [e|]; [by split_and!|].
  rewrite run_bind. cbn [fst snd mret M_ret modify]. split; [done|]. set (w1 := _ <| k_s3 ::= _ |>).
  assert (Hs3 : k_s3 w1 = <[s := foldr delete (bucket s w) keys]> (k_s3 w)) by reflexivity. clearbody w1.
  assert (Hb : ∀ s' k, bucket s' w1 !! k = if decide (s' = s ∧ k ∈ keys) then None else bucket s' w !! k).
  { intros s' k. unfold bucket at 1. rewrite Hs3. destruct (decide (s' = s)) as [->|Hne].
    - rewrite lookup_insert_eq. cbn [default from_option]. case_decide as Hk.
      + by apply lookup_foldr_delete, Hk.
      + apply lookup_foldr_delete_not_elem_of. naive_solver.
    - rewrite lookup_insert_ne by done. by rewrite decide_False by naive_solver. }
  split.
  - intros s' k Hk. rewrite Hb. rewrite decide_False; [done|]. rewrite Hkeys. naive_solver.
  - intros _ k Hk. rewrite Hb. case_decide as Hd; [done|]. rewrite Hkeys in Hd. destruct (bucket s w !! k); naive_solver.
Qed.

Section frames.
Context `{VolEnv} `{VRGConfig} `{VMEnv} `{RequestsManager} `{KubeEnv} `{!KubeFrame} (P : string → Prop).

Lemma aside_op {A} (m : VOp A) : preserves aside m → preserves (spares P) m.
Proof. apply preserves_mono. intros w w'. apply aside_spares. Qed.

Lemma StartTime_spares r : preserves (spares P) (rq_StartTime r).
Proof. apply aside_op, kf_StartTime. Qed.
Lemma Deallocate_spares r : preserves (spares P) (rq_Deallocate r).
Proof. apply aside_op, kf_Deallocate. Qed.
Lemma ProtectRequestCreate_spares loc spec ns n l a : preserves (spares P) (rm_ProtectRequestCreate loc spec ns n l a).
Proof. apply aside_op, kf_ProtectRequestCreate. Qed.
Lemma ProtectRequestsGet_spares ns l : preserves (spares P) (rm_ProtectRequestsGet ns l).
Proof. apply aside_op, kf_ProtectRequestsGet. Qed.
Lemma ProtectRequestsDelete_spares ns l : preserves (spares P) (rm_ProtectRequestsDelete ns l).
Proof. apply aside_op, kf_ProtectRequestsDelete. Qed.
Lemma Execute_spares hook : preserves (spares P) (ke_Execute hook).
Proof. apply aside_op, kf_Execute. Qed.
Lemma vnow_spares : preserves (spares P) vnow.
Proof. by intros w. Qed.
Lemma requeue_spares : preserves (spares P) requeue.
Proof. by intros w. Qed.
Lemma modify_conditions_spares f : preserves (spares P) (modify_conditions f).
Proof. by intros w. Qed.
Lemma status_spares st r m : preserves (spares P) (kubeObjectsCaptureStatus st r m).
Proof. by intros w. Qed.
Lemma statusFalse_spares r m : preserves (spares P) (kubeObjectsCaptureStatusFalse r m).
Proof. by intros w. Qed.
Lemma statusTrue_spares r m : preserves (spares P) (kubeObjectsCaptureStatusTrue r m).
Proof. by intros w. Qed.
#[local] Hint Resolve StartTime_spares Deallocate_spares ProtectRequestCreate_spares ProtectRequestsGet_spares
  ProtectRequestsDelete_spares Execute_spares vnow_spares requeue_spares modify_conditions_spares statusFalse_spares
  statusTrue_spares : sparing.

(** A deletion spares what is not under its prefix. *)
Definition apart (pfx : string) : Prop := ∀ k, P k → String.prefix pfx k = false.

Lemma DeleteObjectsWithKeyPrefix_spares s pfx : apart pfx → preserves (spares P) (DeleteObjectsWithKeyPrefix s pfx).
Proof.
  intros Hp w. destruct (DeleteObjectsWithKeyPrefix_run s pfx w) as (Hsame & Hothers & _).
  destruct Hsame as [Ha He Hi]. split; try congruence. intros s' k Hk. apply Hothers. rewrite (Hp k Hk). naive_solver.
Qed.
#[local] Hint Resolve DeleteObjectsWithKeyPrefix_spares : sparing.

Lemma prefix_of_append a b k : String.prefix (a +:+ b) k = true → String.prefix a k = true.
Proof.
  revert k. induction a as [|c a IH]; intros k; [by destruct k|].
  change (String c a +:+ b) with (String c (a +:+ b)). destruct k as [|c' k]; [done|]. cbn [String.prefix].
  destruct (Ascii.ascii_dec c c'); [apply IH|done].
Qed.
Lemma apart_append pfx x : apart pfx → apart (pfx +:+ x).
Proof.
  intros Hp k Hk. destruct (String.prefix (pfx +:+ x) k) eqn:Hx; [|done]. apply prefix_of_append in Hx. by rewrite Hp in Hx.
Qed.
#[local] Hint Resolve apart_append : sparing.

Lemma mergeExcludedResources_spares spec : preserves (spares P) (mergeExcludedResources spec).
Proof. unfold mergeExcludedResources. sparing. Qed.
#[local] Hint Resolve mergeExcludedResources_spares : sparing.
Lemma createCaptureRequest_spares g p s n l a : preserves (spares P) (createCaptureRequest g p s n l a).
Proof. unfold createCaptureRequest. sparing. Qed.
Lemma capture_delete_spares r s p : apart p → preserves (spares P) (kubeObjectsCaptureAndCaptureRequestDelete r s p).
Proof. intros Hp. unfold kubeObjectsCaptureAndCaptureRequestDelete. sparing. Qed.
#[local] Hint Resolve createCaptureRequest_spares capture_delete_spares : sparing.
Lemma processCaptureRequestStatus_spares r s p : apart p → preserves (spares P) (processCaptureRequestStatus r s p).
Proof. intros Hp. unfold processCaptureRequestStatus. sparing. Qed.
#[local] Hint Resolve processCaptureRequestStatus_spares : sparing.
Lemma kubeObjectsGroupCapture_spares l g p cp np la a reqs :
  apart cp → preserves (spares P) (kubeObjectsGroupCapture l g p cp np la a reqs).
Proof. intros Hp. induction l as [|s l IH]; cbn [kubeObjectsGroupCapture]; sparing; apply IH. Qed.
Lemma kubeObjectsHookExecute_spares hook f b fl : preserves (spares P) (kubeObjectsHookExecute hook f b fl).
Proof. unfold kubeObjectsHookExecute. sparing. Qed.
Lemma kubeObjectsHookWorkflowResult_spares fl m : preserves (spares P) (kubeObjectsHookWorkflowResult fl m).
Proof. unfold kubeObjectsHookWorkflowResult. sparing. Qed.
#[local] Hint Resolve kubeObjectsGroupCapture_spares kubeObjectsHookExecute_spares kubeObjectsHookWorkflowResult_spares : sparing.
Lemma capture_step_spares g f p cp np la a reqs fl : apart cp → preserves (spares P) (capture_step g f p cp np la a reqs fl).
Proof. intros Hp. unfold capture_step. sparing. Qed.
#[local] Hint Resolve capture_step_spares : sparing.
Lemma capture_steps_spares gs f p cp np la a reqs n : apart cp → preserves (spares P) (capture_steps gs f p cp np la a reqs n).
Proof.
  intros Hp. revert n. induction gs as [|g gs IH]; intros n; cbn [capture_steps]; [sparing|].
  apply preserves_bind; [apply _|sparing_solver|intros [[[fl sk] c] err]]. cbv zeta beta. sparing; apply IH.
Qed.
#[local] Hint Resolve capture_steps_spares : sparing.
Lemma executeCaptureSteps_spares p cp np a reqs : apart cp → preserves (spares P) (executeCaptureSteps p cp np a reqs).
Proof. intros Hp. unfold executeCaptureSteps. sparing. Qed.
Lemma retryLimit_spares err : preserves (spares P) (kubeObjectsCaptureRetryLimitExceeded err).
Proof. destruct err; by intros w. Qed.
Lemma kubeObjectsCapturesDelete_spares l p : apart p → preserves (spares P) (kubeObjectsCapturesDelete l p).
Proof. intros Hp. induction l as [|s l IH]; cbn [kubeObjectsCapturesDelete]; sparing. Qed.
#[local] Hint Resolve executeCaptureSteps_spares retryLimit_spares kubeObjectsCapturesDelete_spares : sparing.
Lemma isProtectedVMsListUpdated_spares : preserves (spares P) isProtectedVMsListUpdated.
Proof. unfold isProtectedVMsListUpdated. sparing. Qed.
#[local] Hint Resolve isProtectedVMsListUpdated_spares : sparing.

(** *** A capture that completes *)

(** The stores differ only in where the VRG is; it is in those of [l]. *)
Record vrg_uploaded (l : list string) (w w' : Volumes) : Prop := {
  vu_others : ∀ s k, k ≠ vrg_key (v_instance w) → bucket s w' !! k = bucket s w !! k;
  vu_stored : ∀ s, s ∈ l → holds (bucket s w' !! vrg_key (v_instance w)) (S3VRG (v_instance w));
  vu_kept : ∀ s, holds (bucket s w !! vrg_key (v_instance w)) (S3VRG (v_instance w)) →
                 holds (bucket s w' !! vrg_key (v_instance w)) (S3VRG (v_instance w));
  vu_instance : v_instance w' = v_instance w;
  vu_accessors : v_s3StoreAccessors w' = v_s3StoreAccessors w;
}.

Lemma vrg_uploaded_step s l w1 w2 w :
  vrg_uploaded [s] w w1 → vrg_uploaded l w1 w2 → vrg_uploaded (s :: l) w w2.
Proof.
  intros [Ho1 Hs1 Hk1 Hi1 Ha1] [Ho2 Hs2 Hk2 Hi2 Ha2]. rewrite Hi1 in *. split; try congruence.
  - intros s' k Hk. by rewrite Ho2, Ho1.
  - intros s' [->|Hs']%elem_of_cons; [apply Hk2, Hs1; by left|by apply Hs2].
  - intros s' Hs'. by apply Hk2, Hk1.
Qed.

Lemma throttled_cases l success failure w :
  ∃ w1, ((vrg_uploaded l w w1 ∧ (vrgObjectProtectThrottled l success failure w).2 = (success w1).2) ∨
         (vrg_uploaded [] w w1 ∧ (vrgObjectProtectThrottled l success failure w).2 = (failure w1).2)).
Proof.
  revert w. induction l as [|s l IH]; intros w; cbn [vrgObjectProtectThrottled].
  { exists w. left. split; [|done]. by split; try intros ? ?%not_elem_of_nil. }
  rewrite run_bind. cbn [gets fst snd]. rewrite or_return_run. unfold VrgObjectProtect.
  pose proof (UploadObject_run s (vrg_key (v_instance w)) (S3VRG (v_instance w)) w) as (_ & _ & Hi & Ha & Hb).
  destruct (UploadObject s _ _ w) as [[e|] w1] eqn:Hu; cbn [fst snd] in *.
  - rewrite !run_bind. eexists. right. split; [|reflexivity].
    assert (Hbucket : ∀ s', bucket s' w1 = bucket s' w) by (intros s'; unfold bucket; by rewrite Hb).
    split; [intros s' k _|by intros ? ?%not_elem_of_nil|intros s'|exact Hi|exact Ha].
    + exact (f_equal (.!! k) (Hbucket s')).
    + change (holds (bucket s' w !! vrg_key (v_instance w)) (S3VRG (v_instance w)) →
              holds (bucket s' w1 !! vrg_key (v_instance w)) (S3VRG (v_instance w))). by rewrite Hbucket.
  - destruct Hb as [Hst Hb]. rewrite run_bind. cbn [modify fst snd].
    set (w1' := w1 <| v_vrgLastUploadVersion := _ |> <| v_vrgObjectProtected := _ |>).
    assert (H1' : vrg_uploaded [s] w w1').
    { assert (Hb' : ∀ s', bucket s' w1' = bucket s' w1) by done. split; [| | |done..].
      - intros s' k Hk. rewrite Hb', Hb; [done|naive_solver].
      - intros s' ->%list_elem_of_singleton. by rewrite Hb'.
      - intros s' Hs'. rewrite Hb'. destruct (decide (s' = s)) as [->|Hne]; [done|]. rewrite Hb; [done|naive_solver]. }
    destruct (IH w1') as (w2 & Hw2). exists w2. destruct Hw2 as [[Hup Heq]|[Hup Heq]]; [left|right]; (split; [|exact Heq]).
    + by apply (vrg_uploaded_step s l w1').
    + destruct (vrg_uploaded_step s [] w1' w2 w H1' Hup) as [? ? ? ? ?]. split; try done. by intros ? ?%not_elem_of_nil.
Qed.

Lemma acknowledge_spares : preserves (spares P) acknowledgeProtectedVMsList.
Proof.
  unfold acknowledgeProtectedVMsList. sparing. by intros w.
Qed.
#[local] Hint Resolve acknowledge_spares : sparing.
Lemma identifierUpdateComplete_spares l : preserves (spares P) (kubeObjectsCaptureIdentifierUpdateComplete l).
Proof.
  unfold kubeObjectsCaptureIdentifierUpdateComplete. sparing. by intros w.
Qed.

Lemma start_or_resume_cases number p cp np interval gen reqs w :
  apart cp →
  let w' := (kubeObjectsCaptureStartOrResume number p cp np interval gen reqs w).2 in
  spares P w w' ∨
  ∃ w1 labels start annotations, spares P w w1 ∧ w' = (kubeObjectsCaptureComplete number labels start annotations w1).2.
Proof.
  intros Hp. unfold kubeObjectsCaptureStartOrResume. rewrite !run_bind. cbn [gets fst snd].
  destruct (re_StopRecipeReconcile _); [left; apply statusFalse_spares|]. rewrite run_bind.
  pose proof (executeCaptureSteps_spares p cp np {[vrgGenerationKey := pretty gen]} reqs Hp w) as H1'.
  destruct (executeCaptureSteps _ _ _ _ _ w) as [[failed [err|]] w1]; cbn [fst snd] in *.
  - left. etransitivity; [exact H1'|]. clear H1'. revert w1.
    change (preserves (spares P) (exceeded ← kubeObjectsCaptureRetryLimitExceeded err;
      if (exceeded : bool) then kubeObjectsCaptureStatusFalse "KubeObjectsCaptureError" "recipe reconcile failed for more than max attempts"
      else requeue;; v ← gets v_instance; now ← vnow;
           match vst_CaptureToRecoverFrom (vrg_Status v) with
           | Some c => if bool_decide (now - kc_StartTime c ≤ 2 * interval)%Z
                       then kubeObjectsCaptureStatusTrue VRGConditionReasonUploading "Kube objects capture in-progress" else mret tt
           | None => mret tt
           end)). sparing.
  - destruct failed; [left; etransitivity; [exact H1'|]; by split|]. rewrite run_bind. cbn [gets fst snd].
    destruct (getFirstRequest _ _ _ _) as [request|]; [|left; etransitivity; [exact H1'|]; by split].
    rewrite run_bind. right. do 4 eexists. split; [|reflexivity].
    etransitivity; [exact H1'|]. apply StartTime_spares.
Qed.
End frames.

(** ** The capture to recover from *)

Definition capture_path (v : VolumeReplicationGroup) (number : Z) : string :=
  s3KeyPrefix v +:+ "kube-objects/" +:+ pretty number +:+ "/".
Abbreviation capture_of v := (vst_CaptureToRecoverFrom (vrg_Status v)).

Lemma prefixes_differ b c1 c2 s1 s2 k :
  String.prefix (b +:+ String c1 s1) k = true → String.prefix (b +:+ String c2 s2) k = true → c1 = c2.
Proof.
  revert k. induction b as [|c b IH]; intros k.
  - destruct k as [|c k]; [done|]. change ("" +:+ ?s) with s. cbn [String.prefix].
    destruct (Ascii.ascii_dec c1 c), (Ascii.ascii_dec c2 c); congruence.
  - change (String c b +:+ ?s) with (String c (b +:+ s)). destruct k as [|c' k]; [done|]. cbn [String.prefix].
    destruct (Ascii.ascii_dec c c'); [apply IH|done].
Qed.

Lemma append_assoc a b c : (a +:+ b) +:+ c = a +:+ b +:+ c.
Proof. induction a as [|x a IH]; [done|]. change (String x ((a +:+ b) +:+ c) = String x (a +:+ b +:+ c)). by rewrite IH. Qed.

(** Of the keys under the VRG's prefix, those of the two captures and the VRG's own differ in
    one character. *)
Lemma other_capture_apart v n :
  n = 0%Z ∨ n = 1%Z → apart (λ k, String.prefix (capture_path v n) k = true) (capture_path v (1 - n)).
Proof.
  assert (Heq : ∀ m, capture_path v m = (s3KeyPrefix v +:+ "kube-objects/") +:+ pretty m +:+ "/")
    by (intros m; by rewrite append_assoc).
  intros Hn k. rewrite !Heq. destruct (String.prefix (_ +:+ pretty (1 - n)%Z +:+ "/") k) eqn:Hx; [|done].
  intros Hk. exfalso. destruct Hn as [-> | ->].
  - by pose proof (prefixes_differ _ "0" "1" _ _ k Hk Hx).
  - by pose proof (prefixes_differ _ "1" "0" _ _ k Hk Hx).
Qed.

Lemma prefix_self a b : String.prefix a (a +:+ b) = true.
Proof.
  induction a as [|c a IH]; [by destruct b|]. change (String c a +:+ b) with (String c (a +:+ b)). cbn [String.prefix].
  by destruct (Ascii.ascii_dec c c).
Qed.

Lemma vrg_key_apart v n k : String.prefix (capture_path v n) k = true → k ≠ vrg_key v.
Proof.
  intros Hk ->. unfold capture_path, vrg_key, typedKey in Hk.
  pose proof (prefix_self (s3KeyPrefix v +:+ "v1alpha1.VolumeReplicationGroup/") vrgS3ObjectNameSuffix) as Hp.
  rewrite append_assoc in Hp. by pose proof (prefixes_differ (s3KeyPrefix v) "k" "v" _ _ _ Hk Hp).
Qed.

Section protection.
Context `{VolEnv} `{VRGConfig} `{VMEnv} `{RequestsManager} `{KubeEnv} `{!KubeFrame}.

(** The number of the next capture is the other of two. *)
Definition next_number (v : VolumeReplicationGroup) : Z := (1 - default 0 (kc_Number <$> capture_of v))%Z.

(** The capture to recover from is as it was, or it is the next and in every store. *)
Definition advanced (w w' : Volumes) : Prop :=
  capture_of (v_instance w') = capture_of (v_instance w) ∨
  ∃ id, capture_of (v_instance w') = Some id ∧ kc_Number id = next_number (v_instance w) ∧
    ∀ s, s ∈ v_s3StoreAccessors w → ∃ v, holds (bucket s w' !! vrg_key (v_instance w)) (S3VRG v) ∧ capture_of v = Some id.

(** The objects of [P] are spared as it advances. *)
Record protects (P : string → Prop) (w w' : Volumes) : Prop := {
  pr_keys : ∀ s k, P k → bucket s w' !! k = bucket s w !! k;
  pr_advanced : advanced w w';
}.

Lemma spares_protects P w w' : spares P w w' → protects P w w'.
Proof. intros [? ? ? ? ?]. split; [done|]. by left. Qed.

Lemma vrg_key_meta v v' : vrg_Meta v' = vrg_Meta v → vrg_key v' = vrg_key v.
Proof. intros Hm. unfold vrg_key, s3KeyPrefix, vrg_nn. by rewrite Hm. Qed.

(** What comes before does not matter. *)
Lemma protects_after P w w1 w' : spares P w w1 → protects P w1 w' → protects P w w'.
Proof.
  intros [Hk Ha He Hm Hc] [Hk1 Hadv]. split; [intros s k Hp; by rewrite Hk1, Hk|].
  unfold advanced, next_number in *. rewrite Hc, Ha, (vrg_key_meta _ _ Hm) in Hadv. exact Hadv.
Qed.

Lemma complete_protects P labels start annotations w :
  (∀ k, P k → k ≠ vrg_key (v_instance w)) →
  protects P w (kubeObjectsCaptureComplete (next_number (v_instance w)) labels start annotations w).2.
Proof.
  intros HP. unfold kubeObjectsCaptureComplete. rewrite !run_bind. cbn [gets fst snd vnow].
  set (id := mkKubeObjectsCaptureIdentifier _ _ _ _). cbn [gets fst snd]. unfold set_capture, modify_vrg. cbn [modify fst snd].
  set (w0 := _ <| v_instance ::= _ |>).
  assert (Hkey : vrg_key (v_instance w0) = vrg_key (v_instance w)) by reflexivity.
  assert (Hb : ∀ s, bucket s w0 = bucket s w) by reflexivity.
  match goal with |- context [vrgObjectProtectThrottled ?l ?success ?failure w0] =>
    destruct (throttled_cases l success failure w0) as (w1 & [[[Ho Hs _ Hi _] ->]|[[Ho _ _ Hi _] ->]]) end.
  - destruct (identifierUpdateComplete_spares (λ _, True) labels w1) as [Hk _ _ _ Hc]. split.
    + intros s k Hp. rewrite Hk, Ho, Hb; [done| |done]. rewrite Hkey. by apply HP.
    + right. exists id. rewrite Hc, Hi. split_and!; [done..|]. intros s Hs'. exists (v_instance w0). split; [|done].
      rewrite Hk by done. rewrite <-Hkey. by apply Hs.
  - split; [|by left]. intros s k Hp. change (bucket s w1 !! k = bucket s w !! k). rewrite Ho, Hb; [done|].
    rewrite Hkey. by apply HP.
Qed.

(** The capture that is not to be recovered from, and the VRG, are not in [P]. *)
Definition elsewhere (P : string → Prop) (v : VolumeReplicationGroup) : Prop :=
  apart P (capture_path v (next_number v)) ∧ (∀ k, P k → k ≠ vrg_key v).
Lemma elsewhere_after P w w' : spares P w w' → elsewhere P (v_instance w) → elsewhere P (v_instance w').
Proof.
  intros [_ _ _ Hm Hc] He. unfold elsewhere, next_number, capture_path, s3KeyPrefix, vrg_nn.
  by rewrite (vrg_key_meta _ _ Hm), Hm, Hc.
Qed.

Lemma resume_protects P np interval gen reqs w w1 :
  elsewhere P (v_instance w) → spares P w w1 →
  let number := next_number (v_instance w) in let path := capture_path (v_instance w) number in
  protects P w (kubeObjectsCaptureStartOrResume number path (path +:+ rm_ProtectsPath) np interval gen reqs w1).2.
Proof.
  intros [Hp HP] Hs1 number path.
  edestruct (start_or_resume_cases P number) as [Hs|(w2 & labels & start & annotations & Hs2 & ->)];
    [by apply apart_append|apply spares_protects; by etransitivity|].
  assert (Hs : spares P w w2) by (by etransitivity). apply (protects_after P w w2); [done|].
  destruct Hs as [_ _ _ Hm Hc]. replace number with (next_number (v_instance w2)) by (unfold number, next_number; by rewrite Hc).
  apply complete_protects. by rewrite (vrg_key_meta _ _ Hm).
Qed.

Lemma delay_protects P w : elsewhere P (v_instance w) → protects P w (kubeObjectsCaptureStartOrResumeOrDelay w).2.
Proof.
  intros He. unfold kubeObjectsCaptureStartOrResumeOrDelay. rewrite run_bind. cbn [gets fst snd].
  unfold kubeObjectsCapturePathNamesAndNamePrefix. cbv zeta beta iota. rewrite result_or_return_run.
  fold (next_number (v_instance w)). fold (capture_path (v_instance w) (next_number (v_instance w))).
  pose proof (ProtectRequestsGet_spares P vme_veleroNamespaceName (OwnerLabels (vrg_Meta (v_instance w))) w) as Hs1.
  destruct (rm_ProtectRequestsGet _ _ w) as [[requests|e] w1]; cbn [fst snd] in *; [|apply spares_protects; etransitivity; [exact Hs1|by split]].
  destruct requests as [|request requests]; [|by apply resume_protects].
  rewrite run_bind. pose proof (isProtectedVMsListUpdated_spares P w1) as Hs2.
  destruct (isProtectedVMsListUpdated w1) as [updated w2]; cbn [fst snd] in *. rewrite run_bind.
  match goal with |- protects P w ((if (?m w2).1 then _ else _) _).2 =>
    assert (Hs3 : spares P w2 (m w2).2) by (destruct updated; by split); destruct (m w2) as [delayed w3] end.
  cbn [fst snd] in *. assert (Hs : spares P w w3) by (do 2 (etransitivity; [eassumption|]); done). clear Hs1 Hs2 Hs3.
  destruct delayed; [apply spares_protects; etransitivity; [exact Hs|by split]|].
  rewrite run_bind. cbn [gets fst snd]. rewrite or_return_run.
  assert (Hs4 := kubeObjectsCapturesDelete_spares P (v_s3StoreAccessors w3) _ (apart_append P _ rm_ProtectsPath (proj1 He)) w3).
  destruct (kubeObjectsCapturesDelete _ _ w3) as [[e|] w4]; cbn [fst snd] in *.
  - apply spares_protects. by etransitivity.
  - apply resume_protects; [done|]. by etransitivity.
Qed.

Lemma protect_protects P w : elsewhere P (v_instance w) → protects P w (kubeObjectsProtectPrimary w).2.
Proof.
  intros He. unfold kubeObjectsProtectPrimary. rewrite run_bind. cbn [gets fst snd].
  destruct (_ || _ || _); [by apply spares_protects|]. unfold kubeObjectsProtect. rewrite run_bind. cbn [gets fst snd].
  destruct (kubeObjectProtectionDisabled _); [by apply spares_protects|]. rewrite run_bind. cbn [gets fst snd].
  case_bool_decide; [apply spares_protects, requeue_spares|]. rewrite run_bind.
  match goal with |- context [(?m w).2] => assert (Hs : spares P w (m w).2) by (destruct (_ =? _); by split); destruct (m w) as [u w1] end. cbn [fst snd] in *.
  apply (protects_after P w w1); [done|]. by apply delay_protects, (elsewhere_after P w).
Qed.

(** C12: The protection of Kubernetes objects by a primary never touches the capture to recover
    from: with a capture numbered 0 or 1 recorded in the VRG's status, every object under
    that capture's path, in every store, is unchanged; the number stays 0 or 1. *)
Theorem capture_to_recover_from_is_spared w id :
  capture_of (v_instance w) = Some id → kc_Number id ∈ [0%Z; 1%Z] →
  let w' := (kubeObjectsProtectPrimary w).2 in
  (∀ s k, String.prefix (capture_path (v_instance w) (kc_Number id)) k = true → bucket s w' !! k = bucket s w !! k) ∧
  ∃ id', capture_of (v_instance w') = Some id' ∧ kc_Number id' ∈ [0%Z; 1%Z].
Proof.
  intros Hid Hn. cbv zeta.
  assert (Hnext : next_number (v_instance w) = (1 - kc_Number id)%Z) by (unfold next_number; by rewrite Hid).
  assert (Hn' : kc_Number id = 0%Z ∨ kc_Number id = 1%Z) by (rewrite !elem_of_cons in Hn; set_solver).
  destruct (protect_protects (λ k, String.prefix (capture_path (v_instance w) (kc_Number id)) k = true) w) as [Hk Ha].
  { split; [rewrite Hnext; by apply other_capture_apart|]. intros k. apply vrg_key_apart. }
  split; [exact Hk|]. destruct Ha as [Ha|(id' & Hid' & Hnum & _)].
  - exists id. by rewrite Ha.
  - exists id'. split; [done|]. rewrite Hnum, Hnext. destruct Hn' as [-> | ->]; [right; by left|by left].
Qed.

(** C13: The capture to recover from advances only once it can be recovered from: when the
    protection of Kubernetes objects by a primary changes the capture recorded in the status,
    the new one has the other number, and every store the VRG has an accessor of holds a
    VRG that records it. *)
Theorem capture_advances_with_the_stores w :
  let w' := (kubeObjectsProtectPrimary w).2 in
  capture_of (v_instance w') = capture_of (v_instance w) ∨
  ∃ id, capture_of (v_instance w') = Some id ∧ kc_Number id = (1 - default 0 (kc_Number <$> capture_of (v_instance w)))%Z ∧
    ∀ s, s ∈ v_s3StoreAccessors w → ∃ v, holds (bucket s w' !! vrg_key (v_instance w)) (S3VRG v) ∧ capture_of v = Some id.
Proof. destruct (protect_protects (λ _, False) w) as [_ Ha]; [split; by intros k|exact Ha]. Qed.
End protection.

(** ** Velero's manager is such a manager *)

(** A write to one table that is not the stores. *)
Definition table_aside {A} (proj : Volumes → gmap NamespacedName A) `{!Setter proj} : Prop :=
  ∀ f, preserves aside (modify (λ w, w <| proj ::= f |>)).

Ltac aside_leaf := first
  [ match goal with H : table_aside _ |- preserves aside (modify _) => apply H end
  | solve [auto with sparing nocore]
  | by intros ? ].
Ltac asides := repeat frame_step aside_leaf.

Section velero_frame.
Context `{VolEnv}.

Lemma set_selector_at_aside p s : preserves aside (set_selector_at p s).
Proof. by destruct p; intros w. Qed.
#[local] Hint Resolve set_selector_at_aside : sparing.

Section table.
Context {A} (proj : Volumes → gmap NamespacedName A) `{!Setter proj} (Htable : table_aside proj).
Lemma kGet_aside with_meta n : preserves aside (kGet proj with_meta n).
Proof. unfold kGet. asides. Qed.
Lemma kCreate_aside meta with_meta born x : preserves aside (kCreate proj meta with_meta born x).
Proof. unfold kCreate. asides. Qed.
Lemma kUpdate_aside meta with_meta merge x : preserves aside (kUpdate proj meta with_meta merge x).
Proof. unfold kUpdate. asides. Qed.
Lemma kDelete_aside meta with_meta n : preserves aside (kDelete proj meta with_meta n).
Proof. unfold kDelete. asides. Qed.
Lemma kDeleteAllOf_aside meta with_meta ns labels : preserves aside (kDeleteAllOf proj meta with_meta ns labels).
Proof. unfold kDeleteAllOf. asides. Qed.
Lemma list_labelled_aside meta ns labels : preserves aside (list_labelled proj meta ns labels).
Proof. unfold list_labelled, kList. asides. Qed.
End table.
#[local] Hint Resolve kGet_aside kCreate_aside kUpdate_aside kDelete_aside kDeleteAllOf_aside list_labelled_aside : sparing.
#[local] Hint Extern 0 (table_aside _) => (intros ? ?; split; reflexivity) : sparing.

Lemma backupRequestCreate_aside loc spec n l a : preserves aside (backupRequestCreate loc spec n l a).
Proof.
  unfold backupRequestCreate, bslCreateOrUpdate, checkBSLAvailability, Get_bsl, Create_bsl, Update_bsl, Create_backup. asides.
Qed.
#[local] Hint Resolve backupRequestCreate_aside : sparing.
Lemma Deallocate_aside r : preserves aside (Deallocate r).
Proof.
  destruct r; cbn [Deallocate]; unfold restoreRequestDelete, backupRequestDelete, objectDelete, Delete_restore, Delete_backup; asides.
Qed.
Lemma StartTime_aside r : preserves aside (StartTime r).
Proof. unfold StartTime. asides. Qed.
Lemma ProtectRequestCreate_aside loc spec ns n l a : preserves aside (ProtectRequestCreate loc spec ns n l a).
Proof. unfold ProtectRequestCreate, getBackupSpecFromObjectsSpec. asides. Qed.
Lemma ProtectRequestsGet_aside ns l : preserves aside (ProtectRequestsGet ns l).
Proof. unfold ProtectRequestsGet. asides. Qed.
Lemma ProtectRequestsDelete_aside ns l : preserves aside (ProtectRequestsDelete ns l).
Proof. unfold ProtectRequestsDelete. asides. Qed.

(** With any hooks that are as asked. *)
Lemma velero_frame `{KubeEnv} : (∀ hook, preserves aside (ke_Execute hook)) → @KubeFrame _ velero_requests _.
Proof.
  intros Hhooks. split; [apply StartTime_aside|apply Deallocate_aside|apply ProtectRequestCreate_aside|apply ProtectRequestsGet_aside
    |apply ProtectRequestsDelete_aside|exact Hhooks].
Qed.
End velero_frame.

(** ** A capture that completes

    The VRG's status records capture 0; the backup of capture 1 is complete. *)

Definition the_kubeenv : KubeEnv := {|
  ke_Disabled := false;
  ke_MultiNamespace := true;
  ke_Marshal := λ _, inl "";
  ke_Unmarshal := λ _ r, inl r;
  ke_VMRecipe := inr (Errorf "none" None);
  ke_Execute := λ _, mret None;
|}.

Definition capture_0 : KubeObjectsCaptureIdentifier := mkKubeObjectsCaptureIdentifier 0 0 0 1.
Definition capture_vrg : VolumeReplicationGroup :=
  the_vrg Primary VRGActionNone
    <| vrg_Spec ::= λ s, s <| vsp_KubeObjectProtection := Some (mkKubeObjectProtectionSpec None None ∅ None) |> |>
    <| vrg_Status ::= λ s, s <| vst_CaptureToRecoverFrom := Some capture_0 |> |>.
Definition backup_1 (phase : BackupPhase) : Backup :=
  backupRequest ("velero", "app--vrg--1----s3") (mkBackupSpec ["app"] [] [] zero_selector [] false "app--vrg--1----s3")
    (OwnerLabels (vrg_Meta capture_vrg)) {[vrgGenerationKey := "1"]} <| bk_Phase := phase |> <| bk_StartTimestamp := Some 5%Z |>.
Definition captures (failOn : string) (phase : BackupPhase) : Volumes :=
  no_volumes capture_vrg
    <| k_backups := {[("velero", "app--vrg--1----s3") := backup_1 phase]} |>
    <| k_s3 := {["s3" := {["app/vrg/kube-objects/0/velero/backups/x" := "x";
                            "app/vrg/kube-objects/1/velero/backups/app--vrg--1----s3/y" := "y"]}]} |>
    <| v_s3StoreAccessors := ["s3"] |>
    <| v_recipeElements := mkRecipeElements [mkCaptureSpec "" (zero_kubespec <| ks_GroupEssential := Some true |>)] []
                             failOn failOn false |>.

Section witnesses.
#[local] Existing Instance calm_volenv.
#[local] Existing Instance default_vrgconfig.
#[local] Existing Instance the_vmenv.
#[local] Existing Instance velero_requests.
#[local] Existing Instance the_kubeenv.

#[local] Instance the_frame : KubeFrame := velero_frame (λ _ w, reflexivity w).

Definition after_capture (failOn : string) (phase : BackupPhase) : Volumes := (kubeObjectsProtectPrimary (captures failOn phase)).2.

Lemma capture_to_recover_from_is_spared_witness :
  bucket "s3" (after_capture WorkflowAnyError BackupPhaseCompleted) !! "app/vrg/kube-objects/0/velero/backups/x" = Some ("x") ∧
  kc_Number <$> capture_of (v_instance (after_capture WorkflowAnyError BackupPhaseCompleted)) = Some 1%Z.
Proof.
  split; [|by vm_compute].
  apply (proj1 (capture_to_recover_from_is_spared (captures WorkflowAnyError BackupPhaseCompleted) capture_0 eq_refl
    (list_elem_of_here _ _)) "s3"). by vm_compute.
Defined.

Lemma capture_advances_with_the_stores_witness :
  ∃ v, holds (bucket "s3" (after_capture WorkflowAnyError BackupPhaseCompleted) !! vrg_key capture_vrg) (S3VRG v) ∧
       kc_Number <$> capture_of v = Some 1%Z.
Proof.
  destruct (capture_advances_with_the_stores (captures WorkflowAnyError BackupPhaseCompleted)) as [Hc|(id & _ & Hnum & Hs)].
  - by vm_compute in Hc.
  - destruct (Hs "s3" (list_elem_of_here _ _)) as (v & Hv & Hid). exists v. split; [exact Hv|]. by rewrite Hid; cbn; rewrite Hnum.
Defined.

(** A failed backup stops a workflow that is to stop on any error; one that is to stop on
    full errors records the capture of which the only group failed, and was deleted. *)
Example failed_capture :
  let outcome w := (kc_Number <$> capture_of (v_instance w), elements (dom (bucket "s3" w))) in
  outcome (after_capture WorkflowAnyError BackupPhaseFailed) = (Some 0%Z, ["app/vrg/kube-objects/0/velero/backups/x"]) ∧
  outcome (after_capture WorkflowFullError BackupPhaseFailed) =
    (Some 1%Z, ["app/vrg/kube-objects/0/velero/backups/x"; "app/vrg/v1alpha1.VolumeReplicationGroup/a"]).
Proof. by vm_compute. Qed.
End witnesses.
