(* ===== verification/VRGReconcileSpec.v ===== *)
(** * The deletion of a VRG

    When a VRG that is deleted gives its finalizer up: not before its data is out of every
    store, and whenever the reconcile does not ask for another.  Against the interfaces of
    VolSync's handler and of the manager of requests. *)

From Stdlib Require Import ZArith.
From S2P Require Import Prelude Meta Names Conditions Api VRGStatus PolicyPeers Events Telemetry Workflows Volumes VolRepStatus VolRepClasses.
From S2P Require Import VolRep ObjectStores VolGroupRep VolRepReconcile VolRepRestore VRGAggregate ClaimSelection VirtualMachines VolSyncReconcile Velero KubeObjects VRGReconcile.
From S2P Require Import VolScenario VRGAggregateSpec VolRepStatusSpec VolFrames VolRepSpec ClusterDataSpec VolInvariant VirtualMachinesSpec KubeObjectsSpec.
#[local] Open Scope record_scope.

(** What is asked of the handler and of the manager of requests: they do not write VRGs. *)
Class DeletionFrame `{VolEnv} `{VSHandler} `{RequestsManager} : Prop := {
  df_UndoPVRetentionForPVC : ∀ pvc, preserves typed (vsh_UndoPVRetentionForPVC pvc);
  df_UnprotectVolSyncPVC : ∀ pvc, preserves typed (vsh_UnprotectVolSyncPVC pvc);
  df_DeleteRS : ∀ n ns, preserves typed (vsh_DeleteRS n ns);
  df_DeleteRD : ∀ n ns, preserves typed (vsh_DeleteRD n ns);
  df_DeleteSnapshots : ∀ ns, preserves typed (vsh_DeleteSnapshots ns);
  df_DeleteRGS : ∀ n ns, preserves typed (cgh_DeleteRGS n ns);
  df_DeleteRGD : ∀ n ns, preserves typed (cgh_DeleteRGD n ns);
  df_RecoverRequestsDelete : ∀ ns l, preserves typed (rm_RecoverRequestsDelete ns l);
  df_ProtectBSLsDelete : ∀ ns l, preserves typed (rm_ProtectBSLsDelete ns l);
}.

Section deletion.
Context `{VolEnv} `{VRGConfig} `{VMEnv} `{VSHandler} `{RequestsManager} `{KubeEnv} `{!DeletionFrame}.
#[local] Hint Extern 1 (preserves typed (vsh_UndoPVRetentionForPVC _)) => apply df_UndoPVRetentionForPVC : typed.
#[local] Hint Extern 1 (preserves typed (vsh_UnprotectVolSyncPVC _)) => apply df_UnprotectVolSyncPVC : typed.
#[local] Hint Extern 1 (preserves typed (vsh_DeleteRS _ _)) => apply df_DeleteRS : typed.
#[local] Hint Extern 1 (preserves typed (vsh_DeleteRD _ _)) => apply df_DeleteRD : typed.
#[local] Hint Extern 1 (preserves typed (vsh_DeleteSnapshots _)) => apply df_DeleteSnapshots : typed.
#[local] Hint Extern 1 (preserves typed (cgh_DeleteRGS _ _)) => apply df_DeleteRGS : typed.
#[local] Hint Extern 1 (preserves typed (cgh_DeleteRGD _ _)) => apply df_DeleteRGD : typed.
#[local] Hint Extern 1 (preserves typed (rm_RecoverRequestsDelete _ _)) => apply df_RecoverRequestsDelete : typed.
#[local] Hint Extern 1 (preserves typed (rm_ProtectBSLsDelete _ _)) => apply df_ProtectBSLsDelete : typed.

(** ** What comes before *)

Lemma undo_retention_typed l : preserves typed (undo_retention l).
Proof. induction l as [|p l IH]; cbn [undo_retention]; typing. Qed.
Lemma IsCGEnabledForVolSync_typed : preserves typed IsCGEnabledForVolSync.
Proof. unfold IsCGEnabledForVolSync. typing. Qed.
Lemma markRGSResourceForDeletion_typed n ns : preserves typed (markRGSResourceForDeletion n ns).
Proof. unfold markRGSResourceForDeletion, Get_rgs, Update_rgs, kUpdate. typed_body. Qed.
#[local] Hint Resolve undo_retention_typed IsCGEnabledForVolSync_typed markRGSResourceForDeletion_typed : typed.
Lemma pvcUnprotectVolSync_typed pvc : preserves typed (pvcUnprotectVolSync pvc).
Proof. unfold pvcUnprotectVolSync. typing. Qed.
#[local] Hint Resolve pvcUnprotectVolSync_typed : typed.
Lemma pvcsUnprotectVolSync_typed l : preserves typed (pvcsUnprotectVolSync l).
Proof. induction l as [|p l IH]; cbn [pvcsUnprotectVolSync]; typing. Qed.
Lemma unprotect_deselected_typed l selected deselected : preserves typed (unprotect_deselected l selected deselected).
Proof. revert deselected. induction l as [|pvc l IH]; intros d; cbn [unprotect_deselected]; typing; apply IH. Qed.
Lemma filter_fmap_NoDup {A B} (key : A → B) f l : NoDup (key <$> l) → NoDup (key <$> List.filter f l).
Proof.
  induction l as [|p l IH]; [done|]. rewrite fmap_cons, NoDup_cons. intros [Hp Hn]. cbn [List.filter].
  destruct (f p); [|by apply IH]. rewrite fmap_cons, NoDup_cons. split; [|by apply IH]. contradict Hp.
  apply list_elem_of_fmap in Hp as (q & Hq & Hin). apply list_elem_of_In, filter_In in Hin as [Hin _].
  apply list_elem_of_fmap. exists q. split; [done|]. by apply list_elem_of_In.
Qed.
Lemma filter_entries_wf f v :
  well_formed v → well_formed (v <| vrg_Status ::= λ s, s <| vst_ProtectedPVCs ::= List.filter f |> |>).
Proof.
  intros [Hn He Hc]. split; [by apply filter_fmap_NoDup| |exact Hc].
  apply Forall_forall. intros p [Hp _]%list_elem_of_In%filter_In. rewrite Forall_forall in He. by apply He, list_elem_of_In.
Qed.
Lemma cleanupProtectedPVCs_typed deselected : preserves typed (cleanupProtectedPVCs deselected).
Proof.
  unfold cleanupProtectedPVCs, claims_of. typing. apply modify_vrg_typed. intros v. split; [done..|apply filter_entries_wf].
Qed.
Lemma listPVCsOwnedByVrg_typed : preserves typed listPVCsOwnedByVrg.
Proof. unfold listPVCsOwnedByVrg, listPVCsByPVCSelector, ListPVCsByPVCSelector. typed_body. Qed.
#[local] Hint Resolve pvcsUnprotectVolSync_typed unprotect_deselected_typed cleanupProtectedPVCs_typed listPVCsOwnedByVrg_typed : typed.
Lemma pvcsDeselectedUnprotect_typed : preserves typed pvcsDeselectedUnprotect.
Proof. unfold pvcsDeselectedUnprotect, claims_of. typing. Qed.
Lemma doCleanupResources_typed n ns : preserves typed (doCleanupResources n ns).
Proof. unfold doCleanupResources. typing. Qed.
Lemma Delete_pvc_typed n : preserves typed (Delete_pvc n).
Proof. unfold Delete_pvc, kDelete. typed_body. Qed.
Lemma remove_volsync_finalizer_typed p : preserves typed (remove_volsync_finalizer p).
Proof. unfold remove_volsync_finalizer, write_claim. typing. Qed.
#[local] Hint Resolve pvcsDeselectedUnprotect_typed doCleanupResources_typed Delete_pvc_typed remove_volsync_finalizer_typed : typed.
Lemma deleteDestinationPVC_typed n ns : preserves typed (deleteDestinationPVC n ns).
Proof. unfold deleteDestinationPVC. typing. Qed.
#[local] Hint Resolve deleteDestinationPVC_typed : typed.
Lemma cleanup_claims_typed l : preserves typed (cleanup_claims l).
Proof. induction l as [|p l IH]; cbn [cleanup_claims]; typing. Qed.
Lemma cleanup_destinations_typed st l : preserves typed (cleanup_destinations st l).
Proof. induction l as [|rd l IH]; cbn [cleanup_destinations]; typing. Qed.
#[local] Hint Resolve cleanup_claims_typed cleanup_destinations_typed : typed.
Lemma cleanupResources_typed : preserves typed cleanupResources.
Proof. unfold cleanupResources. typing. Qed.
Lemma delete_left_behind_typed v l : preserves typed (delete_left_behind v l).
Proof. induction l as [|pv l IH]; cbn [delete_left_behind]; typing. Qed.
#[local] Hint Resolve delete_left_behind_typed : typed.
Lemma deleteLeftBehindPVs_typed : preserves typed deleteLeftBehindPVs.
Proof. unfold deleteLeftBehindPVs. typing. Qed.
Lemma deleteGlobalVGR_typed : preserves typed deleteGlobalVGR.
Proof. unfold deleteGlobalVGR. typing. Qed.
Lemma deleteResourceModifierCM_typed : preserves typed deleteResourceModifierCM.
Proof. unfold deleteResourceModifierCM, Get_cm, Delete_cm, kDelete. typed_body. Qed.
Lemma kubeObjectsProtectionDelete_typed : preserves typed kubeObjectsProtectionDelete.
Proof. unfold kubeObjectsProtectionDelete. typing. Qed.
Lemma DeleteObjectsWithKeyPrefix_typed s pfx : preserves typed (DeleteObjectsWithKeyPrefix s pfx).
Proof. unfold DeleteObjectsWithKeyPrefix. typing. Qed.
#[local] Hint Resolve DeleteObjectsWithKeyPrefix_typed : typed.
Lemma deleteClusterData_typed : preserves typed deleteClusterDataInS3Stores.
Proof. unfold deleteClusterDataInS3Stores. typing. apply s3StoresDo_typed. intros s. typing. Qed.
#[local] Hint Resolve cleanupResources_typed deleteLeftBehindPVs_typed deleteGlobalVGR_typed deleteResourceModifierCM_typed
  kubeObjectsProtectionDelete_typed deleteClusterData_typed : typed.
Lemma undoPVRetention_typed : preserves typed undoPVRetentionForVolSyncPVCs.
Proof. unfold undoPVRetentionForVolSyncPVCs. typing. Qed.
Lemma deleteVRGHandleMode_typed : preserves typed deleteVRGHandleMode.
Proof. unfold deleteVRGHandleMode, reconcileVRsForDeletion. typing. Qed.
#[local] Hint Resolve undoPVRetention_typed deleteVRGHandleMode_typed : typed.

(** ** The stores *)

Lemma delete_stores_run pfx msg profiles w s k :
  (s3StoresDo (λ s, DeleteObjectsWithKeyPrefix s pfx) msg profiles w).1 = None →
  String.prefix pfx k = true → (s ∈ profiles ∧ s ≠ NoS3Store) ∨ bucket s w !! k = None →
  bucket s (s3StoresDo (λ s, DeleteObjectsWithKeyPrefix s pfx) msg profiles w).2 !! k = None.
Proof.
  revert w. induction profiles as [|s1 profiles IH]; intros w; cbn [s3StoresDo].
  { intros _ _ [[?%not_elem_of_nil _]|Hb]; done. }
  destruct (s1 =? NoS3Store) eqn:Hno.
  { intros Hr Hk Hs. apply IH; [done..|]. apply bool_decide_eq_true_1 in Hno. rewrite elem_of_cons in Hs. naive_solver. }
  rewrite or_return_run, run_bind. cbn [vtick fst snd]. destruct (kenv_ObjectStore (v_tick w) s1) as [e|]; [done|].
  set (w0 := w <| v_tick ::= S |>). destruct (DeleteObjectsWithKeyPrefix_run s1 pfx w0) as (_ & Hothers & Hnone).
  destruct (DeleteObjectsWithKeyPrefix s1 pfx w0) as [[e|] w1]; [done|]. cbn [fst snd] in *.
  intros Hr Hk Hs. apply IH; [done..|]. destruct (decide (s = s1)) as [->|Hne]; [right; by apply Hnone|].
  rewrite Hothers by naive_solver. rewrite elem_of_cons in Hs. naive_solver.
Qed.

(** ** The finalizer *)

Definition released (v : VolumeReplicationGroup) (w : Volumes) : Prop :=
  ∀ o, o ∈ k_vrgs w → is_instance v o = true → ContainsFinalizer (vrg_Meta o) vrgFinalizerName = false.
(** No object of the VRG in the stores of its profiles. *)
Definition stores_clean (v : VolumeReplicationGroup) (w : Volumes) : Prop :=
  ∀ s k, s ∈ vsp_S3Profiles (vrg_Spec v) → s ≠ NoS3Store → String.prefix (s3KeyPrefix v) k = true → bucket s w !! k = None.

Lemma RemoveFinalizer_gone m f : ContainsFinalizer (RemoveFinalizer m f) f = false.
Proof.
  unfold ContainsFinalizer, RemoveFinalizer. cbn. apply bool_decide_eq_false. intros [_ Hf]%list_elem_of_In%filter_In.
  by rewrite bool_decide_eq_true_2 in Hf.
Qed.

Lemma Update_vrg_run w :
  let r := Update_vrg w in
  k_s3 r.2 = k_s3 w ∧ (r.1 ≠ None → k_vrgs r.2 = k_vrgs w) ∧
  (r.1 = None → ∀ o, o ∈ k_vrgs r.2 → is_instance (v_instance w) o = true →
     om_Finalizers (vrg_Meta o) = om_Finalizers (vrg_Meta (v_instance w))).
Proof.
  cbv zeta. unfold Update_vrg. rewrite or_return_run. destruct (vapi_err w).1 as [e|]; [done|].
  rewrite !run_bind. cbn [gets fst snd]. set (v := v_instance (vapi_err w).2). change (v_instance w) with v.
  destruct (find_first _ _) as [old|]; [|done]. rewrite run_bind. cbn [vtick fst snd].
  set (v' := merge_vrg old v <| vrg_Meta ::= _ |>).
  assert (Hf : om_Finalizers (vrg_Meta v') = om_Finalizers (vrg_Meta v)).
  { unfold v', merge_vrg, next_generation, server_meta. cbn. by destruct (_ =? _). }
  clearbody v'. rewrite run_bind. destruct (_ && _); cbn [modify fst snd]; rewrite run_bind; cbn [modify_vrg modify fst snd mret M_ret];
    (split; [done|]); (split; [done|]); intros _ o; cbn [k_vrgs].
  - intros [_ Ho]%list_elem_of_In%filter_In Hi. by rewrite Hi in Ho.
  - intros (o' & -> & Hin)%list_elem_of_fmap. destruct (is_instance v o') eqn:Ho'; [done|congruence].
Qed.

Lemma removeFinalizer_run w :
  let r := removeFinalizer vrgFinalizerName w in
  k_s3 r.2 = k_s3 w ∧ (r.1 ≠ None → k_vrgs r.2 = k_vrgs w) ∧ (r.1 = None → released (v_instance w) r.2).
Proof.
  cbv zeta. unfold removeFinalizer. rewrite !run_bind. cbn [gets fst snd modify_vrg modify]. rewrite or_return_run.
  unfold update_vrg_keeping_status. rewrite run_bind. cbn [gets fst snd]. rewrite or_return_run.
  set (w0 := w <| v_instance ::= _ |>). destruct (Update_vrg_run w0) as (Hs & Hsame & Hr).
  destruct (Update_vrg w0) as [[e|] w1]; cbn [fst snd] in *.
  { split; [done|]. split; [|done]. intros _. by apply Hsame. }
  rewrite run_bind. cbn [modify_vrg modify fst snd mret M_ret]. split; [exact Hs|]. split; [done|]. intros _ o Ho Hi.
  unfold ContainsFinalizer. rewrite (Hr eq_refl o Ho Hi). apply RemoveFinalizer_gone.
Qed.

(** How a deletion ends: no VRG is written and there is another reconcile, or the VRG is
    released and there is none, the stores being clean if it is a primary. *)
Definition ends (w : Volumes) (r : bool * Volumes) : Prop :=
  (r.1 = true ∧ k_vrgs r.2 = k_vrgs w) ∨
  (r.1 = false ∧ released (v_instance w) r.2 ∧
   (vsp_ReplicationState (vrg_Spec (v_instance w)) = Primary → stores_clean (v_instance w) r.2)).

Lemma typed_spec w w' :
  typed w w' → vrg_Meta (v_instance w') = vrg_Meta (v_instance w) ∧
  vsp_ReplicationState (vrg_Spec (v_instance w')) = vsp_ReplicationState (vrg_Spec (v_instance w)) ∧
  vsp_S3Profiles (vrg_Spec (v_instance w')) = vsp_S3Profiles (vrg_Spec (v_instance w)).
Proof. intros [_ [Hm Hs _]]. split; [done|]. by split; [apply (f_equal vsp_ReplicationState) in Hs|apply (f_equal vsp_S3Profiles) in Hs]. Qed.

Lemma ends_after w w1 r : typed w w1 → ends w1 r → ends w r.
Proof.
  intros Ht. destruct (typed_spec _ _ Ht) as (Hm & Hs & Hp). destruct Ht as [Hk _].
  unfold ends, released, stores_clean, is_instance, s3KeyPrefix, vrg_nn. by rewrite Hk, Hm, Hs, Hp.
Qed.
Lemma ends_again w w1 : typed w w1 → ends w (true, w1).
Proof. intros [Hk _]. by left. Qed.

(** A step that may fail, which is tried again. *)
Lemma ends_step (m : VOp (option GoError)) k w :
  preserves typed m → (∀ w1, typed w w1 → (m w).1 = None → w1 = (m w).2 → ends w1 (k w1)) →
  ends w ((err? m then _e => mret true; k) w).
Proof.
  intros Hm Hk. specialize (Hm w). rewrite or_return_run. destruct (m w) as [[e|] w1]; cbn [fst snd] in *.
  - by apply ends_again.
  - apply (ends_after w w1); [done|]. by apply Hk.
Qed.

Lemma release_ends w : 
  (vsp_ReplicationState (vrg_Spec (v_instance w)) = Primary → stores_clean (v_instance w) w) →
  ends w ((err? removeFinalizer vrgFinalizerName then _e => mret true;
           report_event EventTypeNormal EventReasonDeleteSuccess "Deletion Success";; mret false) w).
Proof.
  intros Hc. rewrite or_return_run. destruct (removeFinalizer_run w) as (Hs3 & Hsame & Hr).
  destruct (removeFinalizer vrgFinalizerName w) as [[e|] w1]; cbn [fst snd] in *; [left; split; [done|by apply Hsame]|].
  right. split; [done|]. split; [by apply Hr|]. intros Hp s k Hin Hno Hk.
  specialize (Hc Hp s k Hin Hno Hk). unfold bucket in *. by rewrite <-Hs3 in Hc.
Qed.

Lemma finalize_ends w : ends w (finalize_vrg w).
Proof.
  unfold finalize_vrg. rewrite run_bind. assert (Ht := kubeObjectsProtectionDelete_typed w).
  assert (Hr : (kubeObjectsProtectionDelete w).1.2 ≠ None → (kubeObjectsProtectionDelete w).1.1 = true).
  { unfold kubeObjectsProtectionDelete. rewrite run_bind. cbn [gets fst snd]. destruct (kubeObjectProtectionDisabled _); [done|].
    rewrite or_return_run. destruct (rm_RecoverRequestsDelete _ _ w).1; [done|]. rewrite or_return_run. by destruct (rm_ProtectBSLsDelete _ _ _).1. }
  destruct (kubeObjectsProtectionDelete w) as [[again [e|]] w1]; cbn [fst snd] in *.
  { rewrite Hr by done. by apply ends_again. }
  apply (ends_after w w1); [done|]. apply ends_step; [typed_solver|]. intros w2 _ _ _.
  rewrite run_bind. cbn [gets fst snd]. apply ends_step; [typing|]. intros w3 Ht3 Hnone ->. apply release_ends.
  intros Hp. destruct (typed_spec _ _ Ht3) as (Hm & Hs & Hprof). rewrite Hs in Hp. rewrite Hp in *.
  unfold stores_clean. rewrite Hprof. unfold s3KeyPrefix, vrg_nn. rewrite Hm. intros s k Hin Hno Hk.
  change (if Primary =? Primary then ?x else _) with x in *.
  unfold deleteClusterDataInS3Stores in *. rewrite !run_bind in *. cbn [gets fst snd] in *. apply delete_stores_run; [done..|]. by left.
Qed.

(** C11: A VRG that is deleted keeps its finalizer until it is done with: a reconcile of the
    deletion either asks for another and writes no VRG, or asks for none and has taken the
    finalizer off the VRG on the server, and then, of a primary, no object is left under the
    VRG's prefix in any store of its profiles. *)
Theorem deleted_vrg_is_released_when_clean w :
  ContainsFinalizer (vrg_Meta (v_instance w)) vrgFinalizerName = true →
  let r := processForDeletion w in
  (r.1 = true ∧ k_vrgs r.2 = k_vrgs w) ∨
  (r.1 = false ∧ released (v_instance w) r.2 ∧
   (vsp_ReplicationState (vrg_Spec (v_instance w)) = Primary → stores_clean (v_instance w) r.2)).
Proof.
  intros Hf. change (ends w (processForDeletion w)). unfold processForDeletion.
  apply ends_step; [typed_solver|]. intros w1 Ht1 _ _. apply ends_step; [typed_solver|]. intros w2 Ht2 _ _.
  apply ends_step; [typed_solver|]. intros w3 Ht3 _ _.
  assert (Ht : typed w w3) by (do 2 (etransitivity; [eassumption|]); done).
  rewrite run_bind. cbn [gets fst snd]. rewrite (proj1 (typed_spec _ _ Ht)), Hf. cbn [negb].
  rewrite run_bind. apply (ends_after w3 (deleteVRGHandleMode w3).2); [apply deleteVRGHandleMode_typed|].
  rewrite run_bind. cbn [gets fst snd]. destruct (v_requeue _); [by apply ends_again|].
  apply ends_step; [typed_solver|]. intros w4 _ _ _. rewrite run_bind.
  set (m := if hasGlobalVGRLabel _ then _ else _). assert (Hm : preserves typed m) by (subst m; typing). specialize (Hm w4).
  destruct (m w4) as [[|] w5]; cbn [fst snd] in *; [by apply ends_again|]. apply (ends_after w4 w5); [done|]. apply finalize_ends.
Qed.
End deletion.

(** ** A deletion that completes

    With Velero's manager and a handler that has nothing to do. *)

Definition the_handler : VSHandler := {|
  vsh_IsCopyMethodDirect := false;
  vsh_EnsurePVCfromRD _ _ := mret None;
  vsh_CleanupRDNotInSpecList _ _ := mret None;
  vsh_PreparePVC _ _ _ _ _ _ := mret None;
  vsh_RetainPVForPVC _ := mret None;
  vsh_StripPVCOwnerReferences _ := mret None;
  vsh_ReconcileRS _ _ _ := mret (inl (true, None));
  vsh_ReconcileRD _ _ := mret (inl (false, None));
  vsh_CleanupPVClaimRefForPVCDeletion _ := mret None;
  vsh_IsPVCInUseByNonRDPod _ := mret (inl false);
  vsh_UndoPVRetentionForPVC _ := mret None;
  vsh_UnprotectVolSyncPVC _ := mret None;
  vsh_DeleteRS _ _ := mret None;
  vsh_DeleteRD _ _ := mret None;
  vsh_DeleteSnapshots _ := mret None;
  cgh_EnsurePVCfromRGD _ _ _ := mret None;
  cgh_CreateOrUpdateReplicationGroupSource _ _ _ := mret (inl (None, true));
  cgh_CreateOrUpdateReplicationGroupDestination _ _ _ _ := mret (inl (named_meta "" ""));
  cgh_DeleteRGS _ _ := mret None;
  cgh_DeleteRGD _ _ := mret None;
  cgh_IsReplicationGroupDestinationReady _ := mret (inl true);
|}.

Definition deleted_vrg : VolumeReplicationGroup :=
  capture_vrg <| vrg_Meta ::= λ m, m <| om_Finalizers := [vrgFinalizerName] |> <| om_DeletionTimestamp := Some 3%Z |> |>.
Definition deleted_cluster : Volumes :=
  the_volumes Primary VRGActionNone VRPrimary
    <| v_instance := deleted_vrg |> <| k_vrgs := [deleted_vrg] |> <| k_s3 := k_s3 (captures WorkflowAnyError BackupPhaseCompleted) |>.

Section witnesses.
#[local] Existing Instance calm_volenv.
#[local] Existing Instance default_vrgconfig.
#[local] Existing Instance the_vmenv.
#[local] Existing Instance velero_requests.
#[local] Existing Instance the_kubeenv.
#[local] Existing Instance the_handler.

#[local] Instance the_deletion_frame : DeletionFrame.
Proof. split; by intros; intros w. Qed.

Lemma deleted_vrg_is_released_when_clean_witness :
  released deleted_vrg (processForDeletion deleted_cluster).2 ∧ stores_clean deleted_vrg (processForDeletion deleted_cluster).2.
Proof.
  destruct (deleted_vrg_is_released_when_clean deleted_cluster) as [[Hr _]|(_ & Hrel & Hclean)].
  - by vm_compute.
  - by vm_compute in Hr.
  - split; [exact Hrel|]. by apply Hclean.
Defined.
End witnesses.
