(* ===== verification/ClusterConfigs.v ===== *)
(** * The DRClusterConfig controller

    internal/controller/drclusterconfig_controller.go: on a managed cluster, the report of
    the storage, snapshot, replication and fence classes that are marked for disaster
    recovery, of the addresses of storage clients and of network attachments, in the status
    of the cluster's one DRClusterConfig, from which the hub computes peer classes
    (ClassViews.v).  Watches other than their mapping to a request are left out. *)

From stdpp Require Import sorting.
From S2P Require Import Prelude Meta Conditions Api Telemetry Hub PolicyPeers Views Reconcile PolicySecrets.

Definition drCConfigFinalizerName : string := "drclusterconfigs.ramendr.openshift.io/finalizer".
Definition drCConfigOwnerLabel : string := "drclusterconfigs.ramendr.openshift.io/owner".
Definition drCConfigOwnerName : string := "ramen".
Definition clusterIDClusterClaimName : string := "id.k8s.io".

Definition DRClusterConfigConditionReasonInitializing : string := "Initializing".
Definition DRClusterConfigConditionConfigurationProcessed : string := "Succeeded".
Definition DRClusterConfigConditionConfigurationFailed : string := "Failed".
Definition NADCRDMissing : string := "NADCRDMissing".
Definition NADWatchNotRegistered : string := "NADWatchNotRegistered".
Definition StaticIPDiscoveryEnabled : string := "StaticIPDiscoveryEnabled".
Definition NADDRNetworkLabel : string := "ramendr.openshift.io/dr-network".
Definition NADResourceName : string := "network-attachment-definitions.k8s.cni.cncf.io".
Definition StaticIPDiscoveryReady : string := "StaticIPDiscoveryReady".

(** ** Other operators' objects, as far as they are read *)

(** clusterv1alpha1.ClusterClaim *)
Record ClusterClaim := mkClusterClaim { clm_Meta : ObjectMeta; clm_Value : string }.
#[export] Instance eta_ClusterClaim : Eta ClusterClaim := λ x, mkClusterClaim (clm_Meta x) (clm_Value x).

(** csiaddonsv1alpha1.NetworkFenceClientStatus, with the CIDRs of each client, and the
    CSIAddonsNode whose status has a list of them. *)
Record NetworkFenceClientStatus := mkNetworkFenceClientStatus {
  nfcs_NetworkFenceClassName : string;
  nfcs_ClientDetails : list (list string);
}.
#[export] Instance NetworkFenceClientStatus_eq : EqDecision NetworkFenceClientStatus.
Proof. solve_decision. Defined.

Record CSIAddonsNode := mkCSIAddonsNode {
  can_Meta : ObjectMeta;
  can_NetworkFenceClientStatus : list NetworkFenceClientStatus;
}.

(** netattdefv1.NetworkAttachmentDefinition *)
Record NetworkAttachmentDefinition := mkNAD { nad_Meta : ObjectMeta; nad_Config : string }.

(** What [parseCNIType] decodes: the type, and those of the plugins. *)
Record CNIConfig := mkCNIConfig { cni_Type : string; cni_Plugins : list string }.

(** ** The cluster

    The controller writes the DRClusterConfigs and deletes ClusterClaims; [kw_config] is the
    object in memory.  The other objects are other programs': the environment has what a
    call at a tick finds. *)

Record ConfigWorld := mkConfigWorld {
  kw_config : DRClusterConfig;
  kw_configs : gmap string DRClusterConfig;
  kw_claims : gmap string ClusterClaim;
  kw_NadWatchRegistered : bool;
  kw_tick : nat;
}.
#[export] Instance eta_ConfigWorld : Eta ConfigWorld := λ x,
  mkConfigWorld (kw_config x) (kw_configs x) (kw_claims x) (kw_NadWatchRegistered x) (kw_tick x).

Abbreviation KOp := (M ConfigWorld).

Class ManagedCluster := {
  mce_now : nat → Z;
  mce_err : nat → option GoError;
  mce_version : nat → string;
  mce_storageClasses : nat → list StorageClass;
  mce_snapshotClasses : nat → list SnapshotClass;
  mce_replicationClasses : nat → list ReplicationClass;
  mce_groupReplicationClasses : nat → list ReplicationClass;
  mce_groupSnapshotClasses : bool → nat → list SnapshotClass;
  mce_fenceClasses : nat → list NetworkFenceClass;
  mce_nodes : nat → list CSIAddonsNode;
  mce_nads : nat → list NetworkAttachmentDefinition;
  mce_crds : nat → list string;
  mce_UsePublicVGSAPI : bool;
  mce_unmarshal : string → CNIConfig + GoError;
}.

Section controller.
Context `{ManagedCluster} `{KeyOrder}.

Definition config_tick : KOp nat := λ w, (kw_tick w, w <| kw_tick ::= S |>).
Definition config_now : KOp Z := gets (λ w, mce_now (kw_tick w)).

(** [client.List] of a kind the controller does not write. *)
Definition list_kind {A} (items : nat → list A) : KOp (list A + GoError) :=
  t ← config_tick;
  mret (match mce_err t with Some e => inr e | None => inl (items t) end).

Definition modify_status (f : DRClusterConfigStatus → DRClusterConfigStatus) : KOp unit :=
  modify (λ w, w <| kw_config ::= λ c, c <| dcc_Status ::= f |> |>).

(** *** Writes of the DRClusterConfig

    A write with a resource version that is not the server's is a conflict.  Neither of the
    two changes what the other writes: an update leaves the server's status, and the status
    in memory, as they are. *)
Definition write_config (f : DRClusterConfig → DRClusterConfig → DRClusterConfig) : KOp (option GoError) :=
  t ← config_tick;
  match mce_err t with
  | Some e => mret (Some e)
  | None =>
      c ← gets kw_config;
      servers ← gets kw_configs;
      match servers !! om_Name (dcc_Meta c) with
      | None => mret (Some (not_found "drclusterconfig"))
      | Some s =>
          if bool_decide (om_ResourceVersion (dcc_Meta s) ≠ om_ResourceVersion (dcc_Meta c))
          then mret (Some (StatusError ReasonConflict "the object has been modified"))
          else
            let new := f c s <| dcc_Meta ::= λ m, m <| om_ResourceVersion := mce_version t |> |> in
            let gone := ResourceIsDeleted (dcc_Meta new) && bool_decide (om_Finalizers (dcc_Meta new) = []) in
            _ ← modify (λ w, w <| kw_config ::= λ c, c <| dcc_Meta := dcc_Meta new |> |>
                               <| kw_configs ::= λ l, if gone then delete (om_Name (dcc_Meta c)) l
                                                      else <[om_Name (dcc_Meta c) := new]> l |>);
            mret None
      end
  end.

Definition update_config : KOp (option GoError) :=
  write_config (λ c s, s <| dcc_Meta := dcc_Meta c |> <| dcc_Spec := dcc_Spec c |>).
Definition update_config_status : KOp (option GoError) :=
  write_config (λ c s, s <| dcc_Status := dcc_Status c |>).

(** [util.NewResourceUpdater(drCConfig)...Update]. *)
Definition update_config_meta (change : ResourceUpdater → ResourceUpdater) : KOp (option GoError) :=
  c ← gets kw_config;
  let u := change (NewResourceUpdater (dcc_Meta c)) in
  _ ← modify (λ w, w <| kw_config ::= λ c, c <| dcc_Meta := ru_obj u |> |>);
  match ru_err u with
  | Some e => mret (Some e)
  | None => if ru_objModified u then update_config else mret None
  end.

(** [DeepEqual] is given a status and a pointer to one, which are never equal: the status
    is written by every reconcile. *)
Definition statusUpdate : KOp (option GoError) :=
  err ← update_config_status;
  c ← gets kw_config;
  mret (match err with
        | Some _ => errorf ("failed to update drClusterConfig status (" +:+ om_Name (dcc_Meta c) +:+ "/" +:+
                            om_Namespace (dcc_Meta c) +:+ ")")
        | None => None
        end).

(** ** Conditions *)

Definition setDRClusterConfigInitialCondition (message : string) : KOp unit :=
  now ← config_now;
  c ← gets kw_config;
  let initial := λ t, mkCondition t ConditionUnknown (om_Generation (dcc_Meta c)) now
                        DRClusterConfigConditionReasonInitializing message in
  modify_status (λ s, s <| dcct_Conditions ::= λ l,
    let l := SetStatusConditionIfNotFound now l (initial DRClusterConfigConfigurationProcessed) in
    SetStatusConditionIfNotFound now l (initial DRClusterConfigS3Reachable) |>).

Definition setDRClusterConfigConfigurationProcessedCondition (message : string) (status : ConditionStatus)
    (reason : string) : KOp unit :=
  now ← config_now;
  c ← gets kw_config;
  modify_status (λ s, s <| dcct_Conditions ::= λ l,
    (SetStatusCondition now l (mkCondition DRClusterConfigConfigurationProcessed status
       (om_Generation (dcc_Meta c)) now reason message)).2 |>).

(** No generation is given: it is 0. *)
Definition setStaticIPDiscoveryCondition (status : ConditionStatus) (reason message : string) : KOp unit :=
  now ← config_now;
  modify_status (λ s, s <| dcct_Conditions ::= λ l,
    (SetStatusCondition now l (mkCondition StaticIPDiscoveryReady status 0 now reason message)).2 |>).

(** ** The cluster's one DRClusterConfig *)

Definition GetDRClusterConfig : KOp (DRClusterConfig + GoError) :=
  t ← config_tick;
  match mce_err t with
  | Some e => mret (inr (Errorf ("failed to list DRClusterConfig, " +:+ error_text e) (Some e)))
  | None =>
      servers ← gets kw_configs;
      mret (match (map_to_list servers).*2 with
            | [] => inr (Errorf "failed to find DRClusterConfig" None)
            | [c] => inl c
            | _ => inr (Errorf "multiple DRClusterConfigs found" None)
            end)
  end.

(** A change of any watched class asks for a reconcile of it. *)
Definition drccMapFn : KOp (list string) :=
  r ← GetDRClusterConfig;
  mret (match r with inl c => [om_Name (dcc_Meta c)] | inr _ => [] end).

Definition processDeletion : KOp (Result * option GoError) :=
  err? update_config_meta (λ u, ru_RemoveFinalizer u drCConfigFinalizerName)
    then e => mret (requeue_now, wrapf ("failed to remove finalizer for DRClusterConfig resource, " +:+ error_text e) e);
  mret (no_requeue, None).

(** ** ClusterClaims *)

Definition delete_claim (name : string) : KOp (option GoError) :=
  t ← config_tick;
  match mce_err t with
  | Some e => mret (Some e)
  | None =>
      claims ← gets kw_claims;
      match claims !! name with
      | None => mret (Some (not_found "clusterclaim"))
      | Some c =>
          _ ← modify (λ w, w <| kw_claims ::= λ l,
                if bool_decide (om_Finalizers (clm_Meta c) = []) then delete name l
                else <[name := c <| clm_Meta ::= λ m,
                         m <| om_DeletionTimestamp ::= λ d, Some (default (mce_now t) d) |> |>]> l |>);
          mret None
      end
  end.

Fixpoint delete_claims (survivors names : list string) : KOp (option GoError) :=
  match names with
  | [] => mret None
  | name :: names' =>
      if bool_decide (name ∈ survivors) then delete_claims survivors names'
      else
        err? delete_claim name
          then e => mret (wrapf ("failed to delete ClusterClaim " +:+ name +:+ ", " +:+ error_text e) e);
        delete_claims survivors names'
  end.

Definition owned_claim (c : ClusterClaim) : bool :=
  HasLabelWithValue (clm_Meta c) drCConfigOwnerLabel drCConfigOwnerName.

(** The list has the claims with the owner's label, in any order. *)
Definition pruneClusterClaims (survivors : list string) : KOp (option GoError) :=
  t ← config_tick;
  match mce_err t with
  | Some e => mret (wrapf ("failed to list ClusterClaims, " +:+ error_text e) e)
  | None =>
      claims ← gets kw_claims;
      delete_claims survivors (env_keys t (dom (filter (λ kv, owned_claim kv.2 = true) claims)))
  end.

Definition getClusterID : KOp (string + GoError) :=
  t ← config_tick;
  let get_error := λ e, Errorf ("failed to get ClusterClaim " +:+ quoted clusterIDClusterClaimName +:+ ": " +:+
                                error_text e) (Some e) in
  match mce_err t with
  | Some e => mret (inr (get_error e))
  | None =>
      claims ← gets kw_claims;
      mret (match claims !! clusterIDClusterClaimName with
            | None => inr (get_error (not_found "clusterclaim"))
            | Some claim =>
                if bool_decide (clm_Value claim = "")
                then inr (Errorf ("ClusterClaim " +:+ quoted clusterIDClusterClaimName +:+
                                  " has an empty cluster ID value") None)
                else inl (clm_Value claim)
            end)
  end.

Definition validateClusterIDFromClaim : KOp (option GoError) :=
  get? clusterID := getClusterID
    then e => mret (wrapf ("failed to get cluster ID claim: " +:+ error_text e) e);
  c ← gets kw_config;
  mret (if bool_decide (dccs_ClusterID (dcc_Spec c) ≠ clusterID)
        then errorf ("cluster ID claim value " +:+ quoted clusterID +:+ " differs from DRClusterConfig ClusterID " +:+
                     quoted (dccs_ClusterID (dcc_Spec c)))
        else None).

(** ** Classes *)

(** The names of the items of a list that are marked. *)
Definition marked_names {A} (marked : A → bool) (meta : A → ObjectMeta) (items : list A) : list string :=
  (λ x, om_Name (meta x)) <$> List.filter marked items.

Definition list_marked {A} (plural : string) (items : nat → list A) (marked : A → bool) (meta : A → ObjectMeta)
    : KOp (list string + GoError) :=
  get? l := list_kind items
    then e => mret (inr (Errorf ("failed to list " +:+ plural +:+ ", " +:+ error_text e) (Some e)));
  mret (inl (marked_names marked meta l)).

Definition listDRSupportedSCs : KOp (list string + GoError) :=
  list_marked "StorageClasses" mce_storageClasses (λ x, HasLabel (sc_Meta x) StorageIDLabel) sc_Meta.
Definition listDRSupportedVSCs : KOp (list string + GoError) :=
  list_marked "VolumeSnapshotClasses" mce_snapshotClasses (λ x, HasLabel (ssc_Meta x) StorageIDLabel) ssc_Meta.
Definition listDRSupportedVRCs : KOp (list string + GoError) :=
  list_marked "VolumeReplicationClasses" mce_replicationClasses
    (λ x, HasLabel (rc_Meta x) ReplicationIDLabel) rc_Meta.
Definition listDRSupportedVGRCs : KOp (list string + GoError) :=
  list_marked "VolumeGroupReplicationClasses" mce_groupReplicationClasses
    (λ x, HasLabel (rc_Meta x) GroupReplicationIDLabel) rc_Meta.

(** util/vgs_wrapper.go: the API that was found at start-up, the private one if none was.
    The selector is empty, so everything is selected. *)
Definition listVolumeGroupSnapshotClasses (public : bool) : KOp (list SnapshotClass + GoError) :=
  get? l := list_kind (mce_groupSnapshotClasses public)
    then e => mret (inr (Errorf ("error listing volumegroupsnapshotclasses (" +:+ error_text e +:+ ")") (Some e)));
  mret (inl l).
Definition GetVolumeGroupSnapshotClasses : KOp (list SnapshotClass + GoError) :=
  if mce_UsePublicVGSAPI then listVolumeGroupSnapshotClasses true else listVolumeGroupSnapshotClasses false.

Definition listDRSupportedVGSCs : KOp (list string + GoError) :=
  get? l := GetVolumeGroupSnapshotClasses
    then e => mret (inr (Errorf ("failed to list VolumeGroupSnapshotClasses, " +:+ error_text e) (Some e)));
  mret (inl (marked_names (λ x, bool_decide (is_Some (om_Labels (ssc_Meta x) !! StorageIDLabel))) ssc_Meta l)).

(** Fence classes are marked by an annotation. *)
Definition listDRSupportedNFCs : KOp (list string + GoError) :=
  list_marked "NetworkFenceClasses" mce_fenceClasses (λ x, HasAnnotation (nfc_Meta x) StorageIDLabel) nfc_Meta.

(** [x, err = list(); if err != nil { return err }; slices.Sort(x)]: with an error the
    field is nil. *)
Definition assign_sorted (list_ : KOp (list string + GoError))
    (field : DRClusterConfigStatus → list string) `{!Setter field} : KOp (option GoError) :=
  r ← list_;
  match r with
  | inr e => _ ← modify_status (λ s, s <| field := [] |>); mret (Some e)
  | inl l => _ ← modify_status (λ s, s <| field := merge_sort string_le l |>); mret None
  end.

Definition updateStorageClassesStatus : KOp (option GoError) :=
  err? assign_sorted listDRSupportedSCs dcct_StorageClasses then e => mret (Some e);
  err? assign_sorted listDRSupportedVSCs dcct_VolumeSnapshotClasses then e => mret (Some e);
  err? assign_sorted listDRSupportedVRCs dcct_VolumeReplicationClasses then e => mret (Some e);
  err? assign_sorted listDRSupportedVGRCs dcct_VolumeGroupReplicationClasses then e => mret (Some e);
  err? assign_sorted listDRSupportedVGSCs dcct_VolumeGroupSnapshotClasses then e => mret (Some e);
  err? assign_sorted listDRSupportedNFCs dcct_NetworkFenceClasses then e => mret (Some e);
  mret None.

(** ** Addresses of storage clients *)

(** A status is taken once per fence class with its class's name. *)
Definition listMatchingNFCClientStatus : KOp (list NetworkFenceClientStatus + GoError) :=
  get? nfcs := listDRSupportedNFCs then e => mret (inr e);
  get? nodes := list_kind mce_nodes
    then e => mret (inr (Errorf ("failed to list CSIAddonsNodes, " +:+ error_text e) (Some e)));
  mret (inl (nodes ≫= λ node, can_NetworkFenceClientStatus node ≫= λ status,
               nfcs ≫= λ nfc, if bool_decide (nfcs_NetworkFenceClassName status = nfc) then [status] else [])).

Definition get_fence_class (name : string) : KOp (NetworkFenceClass + GoError) :=
  get? l := list_kind mce_fenceClasses then e => mret (inr e);
  mret (match find_first (λ c, bool_decide (om_Name (nfc_Meta c) = name)) l with
        | Some c => inl c
        | None => inr (not_found "networkfenceclass")
        end).

(** [m[k] = append(m[k], v...)]. *)
Definition append_at (k : string) (m : gmap string (list string)) (v : list string) : gmap string (list string) :=
  <[k := default [] (m !! k) ++ v]> m.

Fixpoint provisioner_cidrs (statuses : list NetworkFenceClientStatus) (m : gmap string (list string))
    : KOp (gmap string (list string)) :=
  match statuses with
  | [] => mret m
  | status :: statuses' =>
      r ← get_fence_class (nfcs_NetworkFenceClassName status);
      provisioner_cidrs statuses'
        match r with
        | inl nf => foldl (append_at (nfc_Provisioner nf)) m (nfcs_ClientDetails status)
        | inr _ => m
        end
  end.

(** The map is ranged over: the order of the details is not determined. *)
Definition listStorageAccessDetails : KOp (list StorageAccessDetail + GoError) :=
  get? statuses := listMatchingNFCClientStatus then e => mret (inr e);
  provisionerCIDRs ← provisioner_cidrs statuses ∅;
  t ← gets kw_tick;
  mret (inl ((λ p, mkStorageAccessDetail p (default [] (provisionerCIDRs !! p))) <$>
               env_keys t (dom provisionerCIDRs))).

Definition updateStorageAccessDetailsStatus : KOp (option GoError) :=
  get? details := listStorageAccessDetails then e => mret (Some e);
  _ ← modify_status (λ s, s <| dcct_StorageAccessDetails := details |>);
  mret None.

(** ** Network attachments *)

(** util.IsCRDInstalled: an error reads as no. *)
Definition nadCRDInstalled : KOp bool :=
  t ← config_tick;
  mret (match mce_err t with Some _ => false | None => bool_decide (NADResourceName ∈ mce_crds t) end).

Definition parseCNIType (nad : NetworkAttachmentDefinition) : string * option GoError :=
  if bool_decide (nad_Config nad = "") then ("unknown", errorf "spec.config is empty")
  else
    match mce_unmarshal (nad_Config nad) with
    | inr e => ("unknown", wrapf ("spec.config is not valid JSON: " +:+ error_text e) e)
    | inl cfg =>
        if bool_decide (cni_Type cfg ≠ "") then (cni_Type cfg, None)
        else match cni_Plugins cfg with
             | p :: _ => if bool_decide (p ≠ "") then (p, None) else ("unknown", None)
             | [] => ("unknown", None)
             end
    end.

Definition network_attachment (item : NetworkAttachmentDefinition) : NetworkAttachment :=
  let '(cniType, err) := parseCNIType item in
  mkNetworkAttachment (om_Name (nad_Meta item)) (om_Namespace (nad_Meta item))
    (match err with Some _ => "unknown" | None => cniType end).

(** [slices.SortFunc]: the keys of two objects are never equal. *)
Definition attachment_key (a : NetworkAttachment) : string := na_Namespace a +:+ "/" +:+ na_Name a.
Definition attachment_le (a b : NetworkAttachment) : Prop := string_le (attachment_key a) (attachment_key b).
#[export] Instance attachment_le_dec : RelDecision attachment_le.
Proof. intros a b. unfold attachment_le. apply _. Defined.

Definition dr_network (nad : NetworkAttachmentDefinition) : bool :=
  HasLabelWithValue (nad_Meta nad) NADDRNetworkLabel "true".

Definition listDRSupportedNADs : KOp (list NetworkAttachment + GoError) :=
  installed ← nadCRDInstalled;
  if negb (installed : bool) then mret (inl [])
  else
    get? l := list_kind mce_nads
      then e => mret (inr (Errorf ("failed to list NADs with label " +:+ NADDRNetworkLabel +:+ "=true: " +:+
                                   error_text e) (Some e)));
    mret (inl (merge_sort attachment_le (network_attachment <$> List.filter dr_network l))).

Definition updateNetworkAttachmentsStatus : KOp (option GoError) :=
  get? nads := listDRSupportedNADs then e => mret (Some e);
  _ ← modify_status (λ s, s <| dcct_NetworkAttachments := nads |>);
  mret None.

(** The watch is registered at start-up, if the CRD is there. *)
Definition updateStaticIPDiscoveryCondition : KOp unit :=
  installed ← nadCRDInstalled;
  if negb (installed : bool) then
    _ ← modify (λ w, w <| kw_NadWatchRegistered := false |>);
    setStaticIPDiscoveryCondition ConditionFalse NADCRDMissing
      "NetworkAttachmentDefinition CRD is not installed on the cluster"
  else
    registered ← gets kw_NadWatchRegistered;
    if negb (registered : bool) then
      setStaticIPDiscoveryCondition ConditionFalse NADWatchNotRegistered
        "NetworkAttachmentDefinition CRD is available, but NAD monitoring is disabled until the controller is restarted"
    else
      setStaticIPDiscoveryCondition ConditionTrue StaticIPDiscoveryEnabled
        "NetworkAttachmentDefinition monitoring is enabled and static IP discovery is operational".

(** ** The loop *)

Definition UpdateStatus : KOp (option GoError) :=
  err? updateStorageClassesStatus then e => mret (Some e);
  err? updateStorageAccessDetailsStatus then e => mret (Some e);
  err? updateNetworkAttachmentsStatus then e => mret (Some e);
  mret None.

(** The condition has the error; the caller is given another. *)
Definition config_failed (e : GoError) (returned : option GoError) : KOp (Result * option GoError) :=
  _ ← setDRClusterConfigConfigurationProcessedCondition (error_text e) ConditionFalse
        DRClusterConfigConditionConfigurationFailed;
  mret (requeue_now, returned).

Definition processCreateOrUpdate : KOp (Result * option GoError) :=
  err? validateClusterIDFromClaim then e => config_failed e (Some e);
  err? update_config_meta (λ u, ru_AddFinalizer u drCConfigFinalizerName)
    then e => config_failed e (wrapf ("failed to add finalizer for DRClusterConfig resource, " +:+ error_text e) e);
  err? UpdateStatus then e => config_failed e (Some e);
  err? pruneClusterClaims [] then e => config_failed e (Some e);
  _ ← setDRClusterConfigConfigurationProcessedCondition "Configuration processed and validated" ConditionTrue
        DRClusterConfigConditionConfigurationProcessed;
  _ ← updateStaticIPDiscoveryCondition;
  mret (no_requeue, None).

(** The object that was read; a status that cannot be written is only logged. *)
Definition reconcile_config : KOp (Result * option GoError) :=
  c ← gets kw_config;
  _ ← (if bool_decide (dcct_Conditions (dcc_Status c) = [])
       then setDRClusterConfigInitialCondition "Initializing DRClusterConfig" else mret ());
  if ResourceIsDeleted (dcc_Meta c) then processDeletion
  else
    r ← processCreateOrUpdate;
    _ ← statusUpdate;
    mret r.

(** The server answers with the object of the requested name. *)
Definition DRClusterConfig_Reconcile (name : string) : KOp (Result * option GoError) :=
  t ← config_tick;
  let failed := λ e, (no_requeue, if IsNotFound e then None else wrapf ("get: " +:+ error_text e) e) in
  match mce_err t with
  | Some e => mret (failed e)
  | None =>
      servers ← gets kw_configs;
      match servers !! name with
      | None => mret (failed (not_found "drclusterconfig"))
      | Some drCConfig =>
          _ ← modify (λ w, w <| kw_config := drCConfig <| dcc_Meta ::= λ m, m <| om_Name := name |> |> |>);
          get? c := GetDRClusterConfig then e => mret (no_requeue, Some e);
          reconcile_config
      end
  end.
End controller.
