(* ===== verification/ClusterConfigsSpec.v ===== *)
(** * What a cluster's DRClusterConfig reports

    Theorems about ClusterConfigs.v. *)

From stdpp Require Import sorting.
From S2P Require Import Prelude Meta Conditions Api Hub PolicyPeers Views ClassViews Reconcile PolicySecrets ClusterConfigs.

Create HintDb config_frames.

(** ** Reports *)

Section reports.
Context `{ManagedCluster} `{KeyOrder}.

(** A list that has, in order, the names of the marked items found by a call between two
    ticks. *)
Definition names_found {A} (items : nat → list A) (marked : A → bool) (meta : A → ObjectMeta)
    (t t' : nat) (l : list string) : Prop :=
  ∃ u, t ≤ u < t' ∧ mce_err u = None ∧ l ≡ₚ marked_names marked meta (items u) ∧ Sorted string_le l.

Definition fence_class_marked (x : NetworkFenceClass) : bool := HasAnnotation (nfc_Meta x) StorageIDLabel.

Definition classes_found (t t' : nat) (s : DRClusterConfigStatus) : Prop :=
  names_found mce_storageClasses (λ x, HasLabel (sc_Meta x) StorageIDLabel) sc_Meta t t' (dcct_StorageClasses s) ∧
  names_found mce_snapshotClasses (λ x, HasLabel (ssc_Meta x) StorageIDLabel) ssc_Meta t t'
    (dcct_VolumeSnapshotClasses s) ∧
  names_found mce_replicationClasses (λ x, HasLabel (rc_Meta x) ReplicationIDLabel) rc_Meta t t'
    (dcct_VolumeReplicationClasses s) ∧
  names_found mce_groupReplicationClasses (λ x, HasLabel (rc_Meta x) GroupReplicationIDLabel) rc_Meta t t'
    (dcct_VolumeGroupReplicationClasses s) ∧
  names_found (mce_groupSnapshotClasses mce_UsePublicVGSAPI) (λ x, HasLabel (ssc_Meta x) StorageIDLabel) ssc_Meta t t'
    (dcct_VolumeGroupSnapshotClasses s) ∧
  names_found mce_fenceClasses fence_class_marked nfc_Meta t t' (dcct_NetworkFenceClasses s).

(** An address of a storage client whose fence class is marked, and the provisioner of the
    class. *)
Definition client_address (t t' : nat) (provisioner cidr : string) : Prop :=
  ∃ u node status nf cidrs,
    (∃ v, t ≤ v < t' ∧ mce_err v = None ∧
          nfcs_NetworkFenceClassName status ∈ marked_names fence_class_marked nfc_Meta (mce_fenceClasses v)) ∧
    (∃ v, t ≤ v < t' ∧ mce_err v = None ∧ node ∈ mce_nodes v) ∧ status ∈ can_NetworkFenceClientStatus node ∧
    t ≤ u < t' ∧ mce_err u = None ∧ nf ∈ mce_fenceClasses u ∧
    om_Name (nfc_Meta nf) = nfcs_NetworkFenceClassName status ∧ nfc_Provisioner nf = provisioner ∧
    cidrs ∈ nfcs_ClientDetails status ∧ cidr ∈ cidrs.

Definition addresses_found (t t' : nat) (s : DRClusterConfigStatus) : Prop :=
  NoDup (sad_StorageProvisioner <$> dcct_StorageAccessDetails s) ∧
  ∀ d cidr, d ∈ dcct_StorageAccessDetails s → cidr ∈ sad_CIDRs d → client_address t t' (sad_StorageProvisioner d) cidr.

(** The attachments, unless their kind was not found to be installed. *)
Definition attachments_found (t t' : nat) (s : DRClusterConfigStatus) : Prop :=
  (dcct_NetworkAttachments s = [] ∧
   ∃ u, t ≤ u < t' ∧ (mce_err u ≠ None ∨ NADResourceName ∉ mce_crds u)) ∨
  (∃ u, t ≤ u < t' ∧ mce_err u = None ∧ Sorted attachment_le (dcct_NetworkAttachments s) ∧
        dcct_NetworkAttachments s ≡ₚ network_attachment <$> List.filter dr_network (mce_nads u)).

Definition found (t t' : nat) (s : DRClusterConfigStatus) : Prop :=
  classes_found t t' s ∧ addresses_found t t' s ∧ attachments_found t t' s.

Definition processed (s : DRClusterConfigStatus) : Prop :=
  cond_Status <$> FindCondition (dcct_Conditions s) DRClusterConfigConfigurationProcessed = Some ConditionTrue.

Definition claims_pruned (w : ConfigWorld) : Prop :=
  ∀ name claim, kw_claims w !! name = Some claim → owned_claim claim = true →
    ResourceIsDeleted (clm_Meta claim) = true.

(** The ranges of the moments may grow, and conditions are not among what is found. *)
Lemma names_found_mono {A} (items : nat → list A) marked meta t t' u u' l :
  u ≤ t → t' ≤ u' → names_found items marked meta t t' l → names_found items marked meta u u' l.
Proof. intros ?? (v & ? & ?). exists v. split; [lia|done]. Qed.

Lemma client_address_mono t t' u u' p x : u ≤ t → t' ≤ u' → client_address t t' p x → client_address u u' p x.
Proof.
  intros ?? (v & node & status & nf & cidrs & (v1 & ? & ?) & (v2 & ? & ?) & ? & ? & ?).
  exists v, node, status, nf, cidrs. split_and!; try (eexists; split; [|done]); naive_solver lia.
Qed.

Lemma found_mono t t' u u' s : u ≤ t → t' ≤ u' → found t t' s → found u u' s.
Proof.
  intros ?? ((?&?&?&?&?&?) & [??] & Hn). split_and!; [unfold classes_found|split|].
  - split_and!; by eapply names_found_mono.
  - done.
  - intros. eapply client_address_mono; eauto.
  - destruct Hn as [(? & v & ? & ?)|(v & ? & ?)]; [left; split; [done|]|right];
      exists v; split; [lia|done|lia|done].
Qed.

Lemma found_conditions t t' s l : found t t' s → found t t' (s <| dcct_Conditions := l |>).
Proof. done. Qed.

(** ** Listing *)

#[local] Instance string_le_total : Total string_le.
Proof. intros a b. unfold string_le. destruct (String.leb_total a b); auto. Qed.
#[local] Instance attachment_le_total : Total attachment_le.
Proof. intros a b. apply string_le_total. Qed.

Definition at_tick (n : nat) (w : ConfigWorld) : ConfigWorld := w <| kw_tick ::= Nat.add n |>.
Definition on_status (f : DRClusterConfigStatus → DRClusterConfigStatus) (w : ConfigWorld) : ConfigWorld :=
  w <| kw_config ::= λ c, c <| dcc_Status ::= f |> |>.

Lemma list_kind_run {A} (items : nat → list A) w :
  list_kind items w = (match mce_err (kw_tick w) with Some e => inr e | None => inl (items (kw_tick w)) end, at_tick 1 w).
Proof. done. Qed.

Lemma list_marked_run {A} plural (items : nat → list A) marked meta w :
  list_marked plural items marked meta w =
  (match mce_err (kw_tick w) with
   | Some e => inr (Errorf ("failed to list " +:+ plural +:+ ", " +:+ error_text e) (Some e))
   | None => inl (marked_names marked meta (items (kw_tick w)))
   end, at_tick 1 w).
Proof. unfold list_marked. rewrite result_or_return_run, list_kind_run. simpl. by destruct (mce_err (kw_tick w)). Qed.

(** A listing of names takes one call. *)
Definition lists {A} (m : KOp (list string + GoError)) (items : nat → list A) marked meta : Prop :=
  ∀ w, (m w).2 = at_tick 1 w ∧
       (∀ e, mce_err (kw_tick w) = Some e → ∃ e', (m w).1 = inr e') ∧
       (mce_err (kw_tick w) = None → (m w).1 = inl (marked_names marked meta (items (kw_tick w)))).

Lemma list_marked_lists {A} plural (items : nat → list A) marked meta :
  lists (list_marked plural items marked meta) items marked meta.
Proof. intros w. rewrite list_marked_run. simpl. destruct (mce_err (kw_tick w)); naive_solver. Qed.

Lemma listDRSupportedVGSCs_lists :
  lists listDRSupportedVGSCs (mce_groupSnapshotClasses mce_UsePublicVGSAPI)
    (λ x, HasLabel (ssc_Meta x) StorageIDLabel) ssc_Meta.
Proof.
  intros w. unfold listDRSupportedVGSCs, GetVolumeGroupSnapshotClasses, listVolumeGroupSnapshotClasses.
  destruct mce_UsePublicVGSAPI; rewrite !result_or_return_run; simpl;
    destruct (mce_err (kw_tick w)); naive_solver.
Qed.

Lemma assign_sorted_ok {A} m (items : nat → list A) marked meta field `{!Setter field} w :
  lists m items marked meta → (assign_sorted m field w).1 = None →
  ∃ l, (assign_sorted m field w).2 = on_status (upd_field field (λ _, l)) (at_tick 1 w) ∧
       names_found items marked meta (kw_tick w) (S (kw_tick w)) l.
Proof.
  intros Hm. specialize (Hm w) as (Hw & He & Hn). unfold assign_sorted. rewrite run_bind, Hw.
  destruct (mce_err (kw_tick w)) as [e|] eqn:E.
  - destruct (He e eq_refl) as [e' ->]. done.
  - rewrite (Hn eq_refl). intros _. eexists. split; [done|]. exists (kw_tick w).
    split_and!; [lia|lia|done|apply merge_sort_Permutation|apply Sorted_merge_sort, _].
Qed.

(** *** What reading and reporting leave alone *)

Definition reads_only (w w' : ConfigWorld) : Prop := kw_tick w ≤ kw_tick w' ∧ w' = w <| kw_tick := kw_tick w' |>.
#[local] Instance reads_only_preorder : PreOrder reads_only.
Proof.
  split; [by intros []|]. intros a b c [? Hb] [? Hc]. split; [lia|]. rewrite Hc, Hb. done.
Qed.

Definition status_only (w w' : ConfigWorld) : Prop :=
  kw_configs w' = kw_configs w ∧ kw_claims w' = kw_claims w ∧
  dcc_Meta (kw_config w') = dcc_Meta (kw_config w) ∧ dcc_Spec (kw_config w') = dcc_Spec (kw_config w) ∧
  dcct_Conditions (dcc_Status (kw_config w')) = dcct_Conditions (dcc_Status (kw_config w)) ∧ kw_tick w ≤ kw_tick w'.
#[local] Instance status_only_preorder : PreOrder status_only.
Proof. split; [by repeat split|]. intros a b c (?&?&?&?&?&?) (?&?&?&?&?&?). repeat split; congruence || lia. Qed.

Lemma reads_keep_status {A} (m : KOp A) : preserves reads_only m → preserves status_only m.
Proof. apply preserves_mono. intros w w' [? ->]. by repeat split. Qed.

Lemma config_tick_reads : preserves reads_only config_tick.
Proof. intros w. split; [simpl; lia|done]. Qed.

Lemma list_kind_reads {A} (items : nat → list A) : preserves reads_only (list_kind items).
Proof. unfold list_kind. repeat frame_step ltac:(apply config_tick_reads). Qed.
Hint Resolve config_tick_reads list_kind_reads : config_frames.

Ltac config_frame := repeat frame_step ltac:(solve [eauto with config_frames]).

Lemma list_marked_reads {A} plural (items : nat → list A) marked meta :
  preserves reads_only (list_marked plural items marked meta).
Proof. unfold list_marked. config_frame. Qed.

Lemma listDRSupportedVGSCs_reads : preserves reads_only listDRSupportedVGSCs.
Proof. unfold listDRSupportedVGSCs, GetVolumeGroupSnapshotClasses, listVolumeGroupSnapshotClasses. config_frame. Qed.

Lemma get_fence_class_reads n : preserves reads_only (get_fence_class n).
Proof. unfold get_fence_class. config_frame. Qed.
Hint Resolve list_marked_reads listDRSupportedVGSCs_reads get_fence_class_reads : config_frames.

Lemma provisioner_cidrs_reads l : ∀ m, preserves reads_only (provisioner_cidrs l m).
Proof. induction l; intros m; simpl; config_frame. Qed.

Lemma listMatchingNFCClientStatus_reads : preserves reads_only listMatchingNFCClientStatus.
Proof. unfold listMatchingNFCClientStatus, listDRSupportedNFCs. config_frame. Qed.
Hint Resolve provisioner_cidrs_reads listMatchingNFCClientStatus_reads : config_frames.

Lemma listStorageAccessDetails_reads : preserves reads_only listStorageAccessDetails.
Proof. unfold listStorageAccessDetails. config_frame. Qed.

Lemma nadCRDInstalled_reads : preserves reads_only nadCRDInstalled.
Proof. unfold nadCRDInstalled. config_frame. Qed.
Hint Resolve listStorageAccessDetails_reads nadCRDInstalled_reads : config_frames.

Lemma listDRSupportedNADs_reads : preserves reads_only listDRSupportedNADs.
Proof. unfold listDRSupportedNADs. config_frame. Qed.
Hint Resolve listDRSupportedNADs_reads reads_keep_status : config_frames.

Lemma modify_status_only f :
  (∀ s, dcct_Conditions (f s) = dcct_Conditions s) → preserves status_only (modify_status f).
Proof. intros Hf w. repeat split; simpl; auto. Qed.

Lemma assign_sorted_only m field `{!Setter field} :
  preserves reads_only m → (∀ l s, dcct_Conditions (upd_field field (λ _, l) s) = dcct_Conditions s) →
  preserves status_only (assign_sorted m field).
Proof.
  intros Hm Hf. unfold assign_sorted.
  repeat frame_step ltac:(first [by apply reads_keep_status | apply modify_status_only, Hf]).
Qed.

Lemma UpdateStatus_only : preserves status_only UpdateStatus.
Proof.
  unfold UpdateStatus, updateStorageClassesStatus, updateStorageAccessDetailsStatus, updateNetworkAttachmentsStatus.
  repeat frame_step ltac:(first [apply assign_sorted_only; [solve [eauto with config_frames]|done]
    | by apply modify_status_only | solve [eauto with config_frames]]).
Qed.

(** ** Reporting *)

Lemma assign_step {A} m (items : nat → list A) marked meta field `{!Setter field} k w r :
  lists m items marked meta → or_return (assign_sorted m field) (λ e, mret (Some e)) k w = (None, r) →
  ∃ l, names_found items marked meta (kw_tick w) (S (kw_tick w)) l ∧
       k (on_status (upd_field field (λ _, l)) (at_tick 1 w)) = (None, r).
Proof.
  intros Hm. rewrite or_return_run. destruct (assign_sorted m field w).1 eqn:E; [done|].
  destruct (assign_sorted_ok m items marked meta field w Hm E) as (l & -> & ?). eauto.
Qed.

(** The next listing of a sequence of them that succeeds. *)
Ltac next_listing :=
  match goal with
  | E : or_return (assign_sorted _ _) _ _ _ = _ |- _ =>
      eapply assign_step in E as (? & ? & E); [|first [apply list_marked_lists|apply listDRSupportedVGSCs_lists]]
  end.

Lemma updateStorageClassesStatus_ok w w' :
  updateStorageClassesStatus w = (None, w') → classes_found (kw_tick w) (kw_tick w') (dcc_Status (kw_config w')).
Proof.
  intros E. unfold updateStorageClassesStatus in E. do 6 next_listing. injection E as <-. simpl in *.
  split_and!; simpl; (eapply names_found_mono; [| |eassumption]; lia).
Qed.

(** *** Addresses *)

Definition addressed (Q : string → string → Prop) (m : gmap string (list string)) : Prop :=
  ∀ p cidrs x, m !! p = Some cidrs → x ∈ cidrs → Q p x.

Lemma append_all_addressed (Q : string → string → Prop) p l :
  ∀ m, addressed Q m → (∀ cidrs x, cidrs ∈ l → x ∈ cidrs → Q p x) → addressed Q (foldl (append_at p) m l).
Proof.
  induction l as [|c l IH]; intros m Hm Hl; simpl; [done|]. apply IH; [|set_solver].
  intros p' cidrs x. unfold append_at. destruct (decide (p = p')) as [<-|?].
  - rewrite lookup_insert_eq. intros [= <-] [Hx|Hx]%elem_of_app; [|by eapply Hl; [left|]].
    destruct (m !! p) as [l'|] eqn:E; [|set_solver]. by eapply Hm.
  - rewrite lookup_insert_ne by done. apply Hm.
Qed.

Lemma get_fence_class_ok name w nf :
  (get_fence_class name w).1 = inl nf →
  mce_err (kw_tick w) = None ∧ nf ∈ mce_fenceClasses (kw_tick w) ∧ om_Name (nfc_Meta nf) = name.
Proof.
  unfold get_fence_class. rewrite result_or_return_run. simpl. destruct (mce_err (kw_tick w)); [done|]. simpl.
  destruct (find_first _ _) as [c|] eqn:E; [|done]. intros [= ->].
  apply find_first_Some in E as [? ?%bd_true]. done.
Qed.

Lemma get_fence_class_tick name w : (get_fence_class name w).2 = at_tick 1 w.
Proof.
  unfold get_fence_class. rewrite result_or_return_run. simpl. by destruct (mce_err (kw_tick w)).
Qed.

Lemma provisioner_cidrs_addressed (Q : string → string → Prop) l : ∀ m w,
  addressed Q m →
  (∀ status nf cidrs x u, status ∈ l → kw_tick w ≤ u < kw_tick (provisioner_cidrs l m w).2 →
     mce_err u = None → nf ∈ mce_fenceClasses u → om_Name (nfc_Meta nf) = nfcs_NetworkFenceClassName status →
     cidrs ∈ nfcs_ClientDetails status → x ∈ cidrs → Q (nfc_Provisioner nf) x) →
  addressed Q (provisioner_cidrs l m w).1.
Proof.
  induction l as [|status l IH]; intros m w Hm Hl; simpl; [done|]. simpl in Hl. rewrite run_bind in *.
  rewrite get_fence_class_tick in *. revert Hl. set (m' := match (get_fence_class _ w).1 with inl _ => _ | inr _ => _ end).
  intros Hl.
  assert (kw_tick (at_tick 1 w) ≤ kw_tick (provisioner_cidrs l m' (at_tick 1 w)).2) as Ht
    by apply provisioner_cidrs_reads.
  simpl in Ht. apply IH.
  - subst m'. destruct (get_fence_class _ w).1 as [nf|] eqn:E; [|done].
    apply get_fence_class_ok in E as (? & ? & ?). apply append_all_addressed; [done|]. intros cidrs x ??.
    eapply (Hl status nf cidrs x (kw_tick w)); eauto; first [lia|left].
  - intros status' nf cidrs x u ? Hu. eapply Hl; [by right|]. simpl in Hu. lia.
Qed.

Lemma listMatchingNFCClientStatus_ok w l w' :
  listMatchingNFCClientStatus w = (inl l, w') →
  w' = at_tick 2 w ∧ ∀ status, status ∈ l →
    (∃ v, kw_tick w ≤ v < kw_tick w' ∧ mce_err v = None ∧
          nfcs_NetworkFenceClassName status ∈ marked_names fence_class_marked nfc_Meta (mce_fenceClasses v)) ∧
    ∃ node, (∃ v, kw_tick w ≤ v < kw_tick w' ∧ mce_err v = None ∧ node ∈ mce_nodes v) ∧
            status ∈ can_NetworkFenceClientStatus node.
Proof.
  unfold listMatchingNFCClientStatus, listDRSupportedNFCs. rewrite result_or_return_run, list_marked_run. simpl.
  destruct (mce_err (kw_tick w)) eqn:E1; [done|]. rewrite result_or_return_run, list_kind_run. simpl.
  destruct (mce_err (S (kw_tick w))) eqn:E2; [done|]. intros [= <- <-]. split; [done|]. simpl.
  intros status (node & (status' & (nfc & Hs & Hn)%list_elem_of_bind & Hst)%list_elem_of_bind & Hnode)%list_elem_of_bind.
  case_bool_decide; [|set_solver]. apply list_elem_of_singleton in Hs as ->. subst nfc. split.
  - exists (kw_tick w). split_and!; [lia|lia|done|done].
  - exists node. split; [|done]. exists (S (kw_tick w)). split_and!; [lia|lia|done|done].
Qed.

Lemma updateStorageAccessDetailsStatus_ok w w' :
  updateStorageAccessDetailsStatus w = (None, w') →
  ∃ ds, dcc_Status (kw_config w') = dcc_Status (kw_config w) <| dcct_StorageAccessDetails := ds |> ∧
        kw_tick w ≤ kw_tick w' ∧ addresses_found (kw_tick w) (kw_tick w') (dcc_Status (kw_config w')).
Proof.
  unfold updateStorageAccessDetailsStatus, listStorageAccessDetails. rewrite !result_or_return_run.
  destruct (listMatchingNFCClientStatus w) as [[l|e] w1] eqn:E; [|done]. simpl.
  apply listMatchingNFCClientStatus_ok in E as [-> Hl]. rewrite run_bind.
  destruct (provisioner_cidrs l ∅ _) as [m w2] eqn:Em. simpl. intros [= <-]. eexists. simpl.
  pose proof (provisioner_cidrs_reads l ∅ (at_tick 2 w)) as [Ht Hw2]. rewrite Em in Ht, Hw2. simpl in Ht, Hw2.
  split_and!; [by rewrite Hw2|lia|split; simpl].
  - rewrite <-list_fmap_compose. simpl. rewrite list_fmap_id, env_keys_perm. apply NoDup_elements.
  - intros d x (p & -> & Hp)%list_elem_of_fmap. rewrite env_keys_perm, elem_of_elements, elem_of_dom in Hp.
    destruct Hp as [cidrs Hp]. simpl. rewrite Hp. simpl. intros Hx. revert p cidrs x Hp Hx.
    change (addressed (client_address (kw_tick w) (kw_tick w2)) m).
    replace m with (provisioner_cidrs l ∅ (at_tick 2 w)).1 by by rewrite Em.
    apply provisioner_cidrs_addressed; [done|]. rewrite Em. simpl.
    intros status nf cidrs x u Hs ?????. destruct (Hl _ Hs) as ((v & ? & ?) & node & (v' & ? & ?) & ?). simpl in *.
    exists u, node, status, nf, cidrs.
    split_and!; try done; try lia; eexists; (split; [|eassumption]); lia.
Qed.

(** *** Attachments *)

Lemma updateNetworkAttachmentsStatus_ok w w' :
  updateNetworkAttachmentsStatus w = (None, w') →
  ∃ l, dcc_Status (kw_config w') = dcc_Status (kw_config w) <| dcct_NetworkAttachments := l |> ∧
       kw_tick w ≤ kw_tick w' ∧ attachments_found (kw_tick w) (kw_tick w') (dcc_Status (kw_config w')).
Proof.
  unfold updateNetworkAttachmentsStatus, listDRSupportedNADs. rewrite result_or_return_run, run_bind. simpl.
  destruct (match mce_err (kw_tick w) with Some _ => _ | None => _ end) eqn:E; simpl.
  - rewrite result_or_return_run, list_kind_run. simpl.
    destruct (mce_err (S (kw_tick w))) eqn:E2; [done|]. intros [= <-]. eexists. simpl. split_and!; [done|lia|].
    right. exists (S (kw_tick w)). simpl. split_and!; [lia|lia|done|apply Sorted_merge_sort, _|apply merge_sort_Permutation].
  - intros [= <-]. eexists. simpl. split_and!; [done|lia|]. left. split; [done|]. exists (kw_tick w).
    split; [simpl; lia|]. destruct (mce_err (kw_tick w)); [by left|right; by apply bd_false in E].
Qed.

Lemma found_parts t t1 t2 t3 s :
  t1 ≤ t2 → t2 ≤ t3 → classes_found t t1 s → addresses_found t1 t2 s → attachments_found t2 t3 s →
  t ≤ t3 ∧ found t t3 s.
Proof.
  intros ?? Hc [Hd Ha] Hn. assert (t ≤ t1) by (destruct Hc as [(u & ? & _) _]; lia). split; [lia|]. split_and!.
  - destruct Hc as (?&?&?&?&?&?). split_and!; (eapply names_found_mono; [| |eassumption]; lia).
  - split; [done|]. intros. eapply client_address_mono; [| |by apply Ha]; lia.
  - destruct Hn as [(? & v & ? & ?)|(v & ? & ?)]; [left; split; [done|]|right];
      exists v; split; [lia|done|lia|done].
Qed.

Lemma UpdateStatus_ok w w' :
  UpdateStatus w = (None, w') → kw_tick w ≤ kw_tick w' ∧ found (kw_tick w) (kw_tick w') (dcc_Status (kw_config w')).
Proof.
  unfold UpdateStatus. rewrite or_return_run. destruct (updateStorageClassesStatus w) as [[e|] w1] eqn:E1; [done|]. simpl.
  apply updateStorageClassesStatus_ok in E1 as Hc.
  rewrite or_return_run. destruct (updateStorageAccessDetailsStatus w1) as [[e|] w2] eqn:E2; [done|]. simpl.
  apply updateStorageAccessDetailsStatus_ok in E2 as (ds & Hs2 & ? & Ha).
  rewrite or_return_run. destruct (updateNetworkAttachmentsStatus w2) as [[e|] w3] eqn:E3; [done|]. simpl.
  apply updateNetworkAttachmentsStatus_ok in E3 as (nads & Hs3 & ? & Hn). intros [= <-].
  rewrite Hs3 in Hn |- *. rewrite Hs2 in Ha, Hn |- *.
  eapply found_parts; [| |exact Hc|exact Ha|exact Hn]; done.
Qed.

(** ** Claims *)

Definition claims_only (w w' : ConfigWorld) : Prop :=
  kw_config w' = kw_config w ∧ kw_configs w' = kw_configs w ∧ kw_tick w ≤ kw_tick w'.
#[local] Instance claims_only_preorder : PreOrder claims_only.
Proof. split; [by repeat split|]. intros a b c (?&?&?) (?&?&?). repeat split; congruence || lia. Qed.

Lemma delete_claim_only name : preserves claims_only (delete_claim name).
Proof. unfold delete_claim. repeat frame_step ltac:(by intros w; repeat split; simpl; lia). Qed.

Lemma delete_claims_only survivors names : preserves claims_only (delete_claims survivors names).
Proof. induction names; simpl; repeat frame_step ltac:(first [done|apply delete_claim_only]). Qed.

Lemma pruneClusterClaims_only survivors : preserves claims_only (pruneClusterClaims survivors).
Proof.
  unfold pruneClusterClaims.
  repeat frame_step ltac:(first [apply delete_claims_only | by intros w; repeat split; simpl; lia]).
Qed.

(** A claim that is deleted is gone, or waits for its finalizers. *)
Lemma delete_claim_ok name w w' :
  delete_claim name w = (None, w') →
  (∀ c, kw_claims w' !! name = Some c → ResourceIsDeleted (clm_Meta c) = true) ∧
  (∀ n c, kw_claims w' !! n = Some c → n ≠ name → kw_claims w !! n = Some c).
Proof.
  unfold delete_claim. rewrite run_bind. simpl. destruct (mce_err (kw_tick w)); [done|].
  rewrite run_bind. simpl. destruct (kw_claims w !! name) as [c|] eqn:E; [|done]. rewrite run_bind. intros [= <-]. simpl.
  split.
  - intros c'. case_bool_decide; [by rewrite lookup_delete_eq|]. rewrite lookup_insert_eq. by intros [= <-].
  - intros n c' Hc Hne. revert Hc. case_bool_decide; [by rewrite lookup_delete_ne|by rewrite lookup_insert_ne].
Qed.

Lemma delete_claims_ok names : ∀ w w',
  delete_claims [] names w = (None, w') →
  ∀ n c, kw_claims w' !! n = Some c → ResourceIsDeleted (clm_Meta c) = true ∨ ((n ∉ names) ∧ kw_claims w !! n = Some c).
Proof.
  induction names as [|name names IH]; intros w w'; simpl.
  - intros [= ->]. right. split; [set_solver|done].
  - rewrite or_return_run. destruct (delete_claim name w) as [[e|] w1] eqn:E; [done|]. simpl.
    apply delete_claim_ok in E as [Hd Ho]. intros Hr n c Hn. destruct (IH _ _ Hr n c Hn) as [?|[? Hn1]]; [by left|].
    destruct (decide (n = name)) as [->|?]; [left; by apply Hd|]. right. split; [set_solver|by apply Ho].
Qed.

Lemma pruneClusterClaims_ok w w' : pruneClusterClaims [] w = (None, w') → claims_pruned w'.
Proof.
  unfold pruneClusterClaims. rewrite run_bind. simpl. destruct (mce_err (kw_tick w)); [done|].
  rewrite run_bind. simpl. intros Hr n c Hn Ho. destruct (delete_claims_ok _ _ _ Hr n c Hn) as [?|[Hk Hn']]; [done|].
  exfalso. apply Hk. rewrite env_keys_perm, elem_of_elements, elem_of_dom. exists c. by apply map_lookup_filter_Some.
Qed.

(** ** Conditions and the status on the server *)

Definition processed_status (w : ConfigWorld) : option ConditionStatus :=
  cond_Status <$> FindCondition (dcct_Conditions (dcc_Status (kw_config w))) DRClusterConfigConfigurationProcessed.

Lemma set_processed_run m st r w :
  let w' := (setDRClusterConfigConfigurationProcessedCondition m st r w).2 in
  processed_status w' = Some st ∧ ∃ l, w' = on_status (λ s, s <| dcct_Conditions := l |>) w.
Proof.
  cbv zeta. split; [|by eexists]. unfold processed_status. simpl.
  rewrite (SetStatusCondition_find _ _ (mkCondition DRClusterConfigConfigurationProcessed st _ _ r m)). simpl. f_equal.
  unfold SetStatusCondition. destruct (FindCondition _ _); [|done]. unfold overwrite_condition. simpl.
  repeat case_bool_decide; simpl in *; try done; by apply dec_stable.
Qed.

Lemma set_static_run st r m w :
  let w' := (setStaticIPDiscoveryCondition st r m w).2 in
  processed_status w' = processed_status w ∧ ∃ l, w' = on_status (λ s, s <| dcct_Conditions := l |>) w.
Proof.
  cbv zeta. split; [|by eexists]. unfold processed_status. simpl. f_equal. by apply SetStatusCondition_other.
Qed.

(** A reconcile up to the write of the status: the statuses on the server stay. *)
Definition statuses_stay (w w' : ConfigWorld) : Prop :=
  (∀ n c', kw_configs w' !! n = Some c' → ∃ c, kw_configs w !! n = Some c ∧ dcc_Status c' = dcc_Status c) ∧
  om_Name (dcc_Meta (kw_config w')) = om_Name (dcc_Meta (kw_config w)) ∧ kw_tick w ≤ kw_tick w'.
#[local] Instance statuses_stay_preorder : PreOrder statuses_stay.
Proof.
  split; [by repeat split; eauto|]. intros a b c (Hab & ? & ?) (Hbc & ? & ?). split_and!; [|congruence|lia].
  intros n c' (cb & (ca & ? & ?)%Hab & ?)%Hbc. exists ca. split; congruence.
Qed.

Lemma same_configs_stay w w' :
  kw_configs w' = kw_configs w → om_Name (dcc_Meta (kw_config w')) = om_Name (dcc_Meta (kw_config w)) →
  kw_tick w ≤ kw_tick w' → statuses_stay w w'.
Proof. intros Hc ??. split_and!; [|done|done]. intros n c'. rewrite Hc. eauto. Qed.

Lemma status_only_stays {A} (m : KOp A) : preserves status_only m → preserves statuses_stay m.
Proof. apply preserves_mono. intros w w' (?&?&Hm&?&?&?). apply same_configs_stay; [done|by rewrite Hm|done]. Qed.

Lemma claims_only_stays {A} (m : KOp A) : preserves claims_only m → preserves statuses_stay m.
Proof. apply preserves_mono. intros w w' (Hc&?&?). apply same_configs_stay; [done|by rewrite Hc|done]. Qed.

Lemma modify_status_stays f : preserves statuses_stay (modify_status f).
Proof. intros w. by apply same_configs_stay. Qed.

Lemma config_tick_stays : preserves statuses_stay config_tick.
Proof. apply status_only_stays, reads_keep_status, config_tick_reads. Qed.
Hint Resolve config_tick_stays modify_status_stays : config_frames.

Lemma update_config_stays : preserves statuses_stay update_config.
Proof.
  intros w. unfold update_config, write_config. rewrite run_bind. simpl.
  assert (statuses_stay w (at_tick 1 w)) by (apply same_configs_stay; simpl; [done|done|lia]).
  destruct (mce_err (kw_tick w)); [done|]. rewrite run_bind. simpl. rewrite run_bind. simpl.
  destruct (kw_configs w !! _) as [c|] eqn:E; [|done]. case_bool_decide; [done|]. rewrite run_bind. simpl.
  split_and!; simpl; [|done|lia]. intros n c'. destruct (ResourceIsDeleted _ && _).
  - intros [_ ?]%lookup_delete_Some. eauto.
  - intros [[<- <-]|[_ ?]]%lookup_insert_Some; eauto.
Qed.

Lemma update_config_meta_stays change :
  (∀ u, om_Name (ru_obj (change u)) = om_Name (ru_obj u)) → preserves statuses_stay (update_config_meta change).
Proof.
  intros Hn w. unfold update_config_meta. rewrite run_bind. simpl. rewrite run_bind. simpl.
  match goal with |- statuses_stay _ (_ ?x).2 => set (w1 := x) end.
  assert (statuses_stay w w1) by (apply same_configs_stay; [done|apply Hn|done]).
  destruct (ru_err _); [done|]. destruct (ru_objModified _); [|done].
  etransitivity; [eassumption|apply update_config_stays].
Qed.

Lemma ru_AddFinalizer_name u f : om_Name (ru_obj (ru_AddFinalizer u f)) = om_Name (ru_obj u).
Proof. unfold ru_AddFinalizer, AddFinalizer. simpl. by case_bool_decide. Qed.

Lemma validateClusterIDFromClaim_only : preserves status_only validateClusterIDFromClaim.
Proof.
  apply reads_keep_status. unfold validateClusterIDFromClaim, getClusterID. config_frame.
Qed.

Lemma set_processed_stays m st r : preserves statuses_stay (setDRClusterConfigConfigurationProcessedCondition m st r).
Proof. unfold setDRClusterConfigConfigurationProcessedCondition, config_now. config_frame. Qed.
Hint Resolve set_processed_stays : config_frames.

Lemma config_failed_stays e r : preserves statuses_stay (config_failed e r).
Proof. unfold config_failed. config_frame. Qed.
Hint Resolve config_failed_stays : config_frames.

Lemma updateStaticIPDiscoveryCondition_stays : preserves statuses_stay updateStaticIPDiscoveryCondition.
Proof.
  unfold updateStaticIPDiscoveryCondition, setStaticIPDiscoveryCondition, config_now.
  repeat frame_step ltac:(first [solve [eauto using status_only_stays with config_frames]
    | by intros w; apply same_configs_stay]).
Qed.

Lemma processCreateOrUpdate_stays : preserves statuses_stay processCreateOrUpdate.
Proof.
  unfold processCreateOrUpdate.
  repeat frame_step ltac:(first [solve [eauto with config_frames]
    | apply status_only_stays, validateClusterIDFromClaim_only
    | apply update_config_meta_stays; intros; apply ru_AddFinalizer_name
    | apply status_only_stays, UpdateStatus_only | apply claims_only_stays, pruneClusterClaims_only
    | apply updateStaticIPDiscoveryCondition_stays]).
Qed.

(** ** The loop *)

Lemma config_failed_run e r w :
  (config_failed e (Some r) w).1.2 ≠ None ∧ processed_status (config_failed e (Some r) w).2 = Some ConditionFalse.
Proof. split; [done|]. unfold config_failed. rewrite run_bind. apply set_processed_run. Qed.

(** Static addresses are reported in a condition of their own. *)
Definition conditions_only (w w' : ConfigWorld) : Prop :=
  processed_status w' = processed_status w ∧ kw_claims w' = kw_claims w ∧ kw_tick w ≤ kw_tick w' ∧
  ∃ l, dcc_Status (kw_config w') = dcc_Status (kw_config w) <| dcct_Conditions := l |>.
#[local] Instance conditions_only_preorder : PreOrder conditions_only.
Proof.
  split; [intros w; split_and!; [done..|]; by exists (dcct_Conditions (dcc_Status (kw_config w))); destruct (dcc_Status _)|].
  intros a b c (?&?&?&l&Hl) (?&?&?&l'&Hl'). split_and!; [congruence|congruence|lia|]. exists l'. by rewrite Hl', Hl.
Qed.

Lemma setStaticIPDiscoveryCondition_only st r m : preserves conditions_only (setStaticIPDiscoveryCondition st r m).
Proof.
  intros w. destruct (set_static_run st r m w) as [? [l Hl]]. split_and!; [done|by rewrite Hl..|]. exists l. by rewrite Hl.
Qed.

Lemma reads_conditions_only {A} (m : KOp A) : preserves reads_only m → preserves conditions_only m.
Proof.
  apply preserves_mono. intros w w' [? ->]. split_and!; [done|done|done|]. simpl.
  exists (dcct_Conditions (dcc_Status (kw_config w))). by destruct (dcc_Status _).
Qed.

Lemma updateStaticIPDiscoveryCondition_only : preserves conditions_only updateStaticIPDiscoveryCondition.
Proof.
  unfold updateStaticIPDiscoveryCondition.
  repeat frame_step ltac:(first [apply setStaticIPDiscoveryCondition_only
    | apply reads_conditions_only, nadCRDInstalled_reads]).
Qed.

Lemma validateClusterIDFromClaim_ok w :
  (validateClusterIDFromClaim w).1 = None →
  ∃ claim, kw_claims w !! clusterIDClusterClaimName = Some claim ∧ clm_Value claim ≠ "" ∧
           dccs_ClusterID (dcc_Spec (kw_config w)) = clm_Value claim.
Proof.
  unfold validateClusterIDFromClaim, getClusterID. rewrite result_or_return_run, run_bind. simpl.
  destruct (mce_err (kw_tick w)); [done|]. simpl.
  destruct (kw_claims w !! _) as [claim|]; [|done]. case_bool_decide; [done|]. simpl.
  case_bool_decide as Hid; [done|]. intros _. exists claim. split_and!; [done|done|done].
Qed.

(** A pass over a live DRClusterConfig is reported as processed exactly if it succeeds, and
    then the report is what was found, the claims are pruned and the cluster's ID agrees. *)
Definition valid_report (w w' : ConfigWorld) : Prop :=
  found (kw_tick w) (kw_tick w') (dcc_Status (kw_config w')) ∧ claims_pruned w' ∧
  ∃ claim, kw_claims w !! clusterIDClusterClaimName = Some claim ∧ clm_Value claim ≠ "" ∧
           dccs_ClusterID (dcc_Spec (kw_config w)) = clm_Value claim.

Lemma processed_then_static m r w :
  let w' := (updateStaticIPDiscoveryCondition
               (setDRClusterConfigConfigurationProcessedCondition m ConditionTrue r w).2).2 in
  processed_status w' = Some ConditionTrue ∧ kw_claims w' = kw_claims w ∧ kw_tick w ≤ kw_tick w' ∧
  ∃ l, dcc_Status (kw_config w') = dcc_Status (kw_config w) <| dcct_Conditions := l |>.
Proof.
  cbv zeta. destruct (set_processed_run m ConditionTrue r w) as [Hp [l Hl]].
  set (w1 := (setDRClusterConfigConfigurationProcessedCondition m ConditionTrue r w).2) in *.
  destruct (updateStaticIPDiscoveryCondition_only w1) as (-> & -> & Ht & l' & ->).
  rewrite Hl in Ht |- *. split_and!; [by rewrite <-Hl|done|done|by exists l'].
Qed.

Lemma processCreateOrUpdate_run w :
  let r := processCreateOrUpdate w in
  (r.1.2 = None ∧ processed_status r.2 = Some ConditionTrue ∧ valid_report w r.2) ∨
  (r.1.2 ≠ None ∧ processed_status r.2 = Some ConditionFalse).
Proof.
  cbv zeta. unfold processCreateOrUpdate.
  rewrite or_return_run. pose proof (validateClusterIDFromClaim_ok w) as Hid.
  pose proof (status_only_stays _ validateClusterIDFromClaim_only w) as (_ & _ & Ht1).
  destruct (validateClusterIDFromClaim w) as [[e|] w1]; simpl in *; [right; apply config_failed_run|].
  rewrite or_return_run.
  pose proof (update_config_meta_stays (λ u, ru_AddFinalizer u drCConfigFinalizerName)
                ltac:(intros; apply ru_AddFinalizer_name) w1) as (_ & _ & Ht2).
  destruct (update_config_meta _ w1) as [[e|] w2]; simpl in *; [right; apply config_failed_run|].
  rewrite or_return_run.
  destruct (UpdateStatus w2) as [[e|] w3] eqn:E3; simpl in *; [right; apply config_failed_run|].
  apply UpdateStatus_ok in E3 as [Ht3 Hf].
  rewrite or_return_run. pose proof (pruneClusterClaims_only [] w3) as (Hc & _ & Ht4).
  destruct (pruneClusterClaims [] w3) as [[e|] w4] eqn:E4; simpl in *; [right; apply config_failed_run|].
  apply pruneClusterClaims_ok in E4. left. rewrite !run_bind.
  match goal with |- context[setDRClusterConfigConfigurationProcessedCondition ?m _ ?r _] =>
    destruct (processed_then_static m r w4) as (Hp & Hcl & Ht5 & l & Hl) end.
  split_and!; [done|exact Hp|split_and!; [|intros n c Hn; apply (E4 n c); by rewrite <-Hcl|by apply Hid]].
  eapply (eq_ind_r (found _ _)); [|exact Hl]. apply found_conditions. rewrite Hc.
  eapply found_mono; [|transitivity (kw_tick w4); [done|exact Ht5]|exact Hf]; lia.
Qed.

(** The write of the status stores it as it is in memory, or nothing. *)
Lemma update_config_status_run w :
  let w' := (update_config_status w).2 in
  dcc_Status (kw_config w') = dcc_Status (kw_config w) ∧ kw_claims w' = kw_claims w ∧ kw_tick w ≤ kw_tick w' ∧
  ∀ c', kw_configs w' !! om_Name (dcc_Meta (kw_config w)) = Some c' →
    dcc_Status c' = dcc_Status (kw_config w) ∨ kw_configs w !! om_Name (dcc_Meta (kw_config w)) = Some c'.
Proof.
  cbv zeta. unfold update_config_status, write_config. rewrite run_bind. simpl.
  destruct (mce_err (kw_tick w)); [split_and!; simpl; [done|done|lia|tauto]|]. rewrite !run_bind. simpl.
  destruct (kw_configs w !! _) as [c|] eqn:E; [|split_and!; simpl; [done|done|lia|by rewrite E]].
  case_bool_decide; [split_and!; simpl; [done|done|lia|rewrite E; tauto]|]. rewrite run_bind. simpl.
  split_and!; simpl; [done|done|lia|].
  intros c'. destruct (_ && _); [by rewrite lookup_delete_eq|]. rewrite lookup_insert_eq. intros [= <-]. by left.
Qed.

Lemma statusUpdate_state w : (statusUpdate w).2 = (update_config_status w).2.
Proof. unfold statusUpdate. rewrite !run_bind. done. Qed.

Lemma initial_conditions_stay m : preserves statuses_stay (setDRClusterConfigInitialCondition m).
Proof. unfold setDRClusterConfigInitialCondition, config_now. config_frame. Qed.

Lemma valid_report_from w0 w w' :
  kw_tick w0 ≤ kw_tick w → kw_claims w = kw_claims w0 → dcc_Spec (kw_config w) = dcc_Spec (kw_config w0) →
  valid_report w w' → valid_report w0 w'.
Proof.
  intros ? Hc Hs (Hf & ? & Hid). split_and!; [by eapply found_mono; [| |exact Hf]|done|by rewrite <-Hc, <-Hs].
Qed.

(** A pass over a live DRClusterConfig in memory, with the write of its status. *)
Lemma reconcile_config_run w :
  ResourceIsDeleted (dcc_Meta (kw_config w)) = false →
  let r := reconcile_config w in
  let name := om_Name (dcc_Meta (kw_config w)) in
  (r.1.2 = None → valid_report w r.2) ∧
  (processed (dcc_Status (kw_config r.2)) ↔ r.1.2 = None) ∧
  ∀ c', kw_configs r.2 !! name = Some c' →
    dcc_Status c' = dcc_Status (kw_config r.2) ∨
    ∃ c, kw_configs w !! name = Some c ∧ dcc_Status c' = dcc_Status c.
Proof.
  intros Hd. cbv zeta. unfold reconcile_config. rewrite run_bind. cbn [gets fst snd]. rewrite run_bind.
  match goal with |- context[(if ?b then ?x else ?y) w] => set (w1 := ((if b then x else y) w).2) end.
  assert (statuses_stay w w1 ∧ kw_claims w1 = kw_claims w ∧ dcc_Spec (kw_config w1) = dcc_Spec (kw_config w)) as (Hs1 & Hc1 & Hsp1).
  { subst w1. case_bool_decide; [|done]. split_and!; [apply initial_conditions_stay|done|done]. }
  rewrite Hd, run_bind. pose proof (processCreateOrUpdate_run w1) as Hp. pose proof (processCreateOrUpdate_stays w1) as Hs2.
  destruct (processCreateOrUpdate w1) as [r w2]. simpl in Hp, Hs2. cbn [fst snd]. rewrite run_bind. cbn [mret M_ret fst snd].
  rewrite statusUpdate_state.
  destruct (update_config_status_run w2) as (Hst & Hcl & Ht & Hw). set (w3 := (update_config_status w2).2) in *.
  assert (statuses_stay w w2) as (Hss & Hn & ?) by (by transitivity w1). rewrite Hn in Hw.
  assert (processed_status w2 = Some ConditionTrue ↔ processed (dcc_Status (kw_config w3))) as Hpr
    by (unfold processed, processed_status; by rewrite Hst).
  split_and!.
  - intros Hr. destruct Hp as [(_ & _ & Hv)|[Hne _]]; [|done]. eapply valid_report_from; [by apply Hs1|done|done|].
    destruct Hv as (Hf & Hpr' & Hid). split_and!; [|unfold claims_pruned; by rewrite Hcl|done].
    rewrite Hst. by eapply found_mono; [| |exact Hf].
  - rewrite <-Hpr. destruct Hp as [(? & ? & _)|[? ->]]; naive_solver.
  - intros c' Hc'. rewrite Hst. destruct (Hw c' Hc') as [?|?]; [by left|right; by apply Hss].
Qed.

(** After the object was read, and the list of all was. *)
Definition read_config (name : string) (c : DRClusterConfig) (w : ConfigWorld) : ConfigWorld :=
  w <| kw_tick ::= S |> <| kw_config := c <| dcc_Meta ::= λ m, m <| om_Name := name |> |> |>.

Lemma GetDRClusterConfig_tick w : (GetDRClusterConfig w).2 = at_tick 1 w.
Proof.
  unfold GetDRClusterConfig. rewrite run_bind. cbn [config_tick fst snd].
  destruct (mce_err (kw_tick w)); [done|]. by rewrite run_bind.
Qed.

Lemma DRClusterConfig_Reconcile_run name w c :
  mce_err (kw_tick w) = None → kw_configs w !! name = Some c →
  DRClusterConfig_Reconcile name w =
  match (GetDRClusterConfig (read_config name c w)).1 with
  | inl _ => reconcile_config (at_tick 1 (read_config name c w))
  | inr e => ((no_requeue, Some e), at_tick 1 (read_config name c w))
  end.
Proof.
  intros He Hc. unfold DRClusterConfig_Reconcile. rewrite run_bind. cbn [config_tick fst snd]. rewrite He.
  rewrite run_bind. cbn [gets fst snd]. simpl (kw_configs _). rewrite Hc, run_bind. cbn [modify fst snd].
  rewrite result_or_return_run, GetDRClusterConfig_tick. by destruct (GetDRClusterConfig _).1.
Qed.

(** C27: After a reconcile of a live DRClusterConfig the status that the server has of it is
    the one it had, or a new one, which says that the configuration was processed exactly
    if the reconcile succeeded.  If it succeeded, the cluster's ID claim has the configured
    ID, no ClusterClaim of the controller is left but those being deleted, and the status
    has, in order and without others, the names of the marked classes of each kind that a
    successful call of this reconcile found, addresses of storage clients of marked fence
    classes only, each under one provisioner, and the marked network attachments, if their
    kind was found to be installed. *)
Theorem processed_report_is_exact name w c :
  mce_err (kw_tick w) = None → kw_configs w !! name = Some c → ResourceIsDeleted (dcc_Meta c) = false →
  let r := DRClusterConfig_Reconcile name w in
  (r.1.2 = None → valid_report (w <| kw_config := c |>) r.2) ∧
  ∀ c', kw_configs r.2 !! name = Some c' →
    dcc_Status c' = dcc_Status c ∨
    dcc_Status c' = dcc_Status (kw_config r.2) ∧ (processed (dcc_Status c') ↔ r.1.2 = None).
Proof.
  intros He Hc Hd. cbv zeta. rewrite (DRClusterConfig_Reconcile_run name w c) by done.
  destruct (GetDRClusterConfig _).1 as [c0|e].
  - destruct (reconcile_config_run (at_tick 1 (read_config name c w))) as (Hv & Hp & Hs); [done|]. split.
    + intros Hr. eapply valid_report_from; [| | |by apply Hv]; simpl; [lia|done|done].
    + intros c' Hc'. destruct (Hs c' Hc') as [Heq|(c1 & Hc1 & ->)].
      * right. split; [done|]. by rewrite Heq.
      * left. simpl in Hc1. congruence.
  - split; [done|]. simpl. intros c'. rewrite Hc. intros [= ->]. by left.
Qed.

(** *** A listing that fails *)

Lemma validateClusterIDFromClaim_run w claim :
  mce_err (kw_tick w) = None → kw_claims w !! clusterIDClusterClaimName = Some claim → clm_Value claim ≠ "" →
  dccs_ClusterID (dcc_Spec (kw_config w)) = clm_Value claim →
  validateClusterIDFromClaim w = (None, at_tick 1 w).
Proof.
  intros He Hc Hv Hid. unfold validateClusterIDFromClaim, getClusterID.
  rewrite result_or_return_run, run_bind. cbn [config_tick fst snd]. rewrite He, run_bind. cbn [gets fst snd].
  simpl (kw_claims _). rewrite Hc, bool_decide_eq_false_2 by done. cbn [mret M_ret fst snd].
  rewrite run_bind. cbn [gets fst snd]. simpl (kw_config _). rewrite bool_decide_eq_false_2 by (intros []; done). done.
Qed.

Lemma update_config_meta_unchanged w :
  drCConfigFinalizerName ∈ om_Finalizers (dcc_Meta (kw_config w)) →
  update_config_meta (λ u, ru_AddFinalizer u drCConfigFinalizerName) w = (None, w).
Proof.
  intros Hf. unfold update_config_meta. rewrite run_bind. cbn [gets fst snd]. rewrite run_bind. cbn [modify fst snd].
  unfold ru_AddFinalizer, AddFinalizer. simpl. rewrite bool_decide_eq_true_2 by done. simpl.
  by destruct w as [[] ? ? ? ?].
Qed.

Lemma UpdateStatus_fails w e :
  mce_err (kw_tick w) = Some e →
  ∃ e', UpdateStatus w = (Some e', on_status (λ s, s <| dcct_StorageClasses := [] |>) (at_tick 1 w)).
Proof.
  intros He. unfold UpdateStatus, updateStorageClassesStatus, assign_sorted, listDRSupportedSCs.
  rewrite !or_return_run, run_bind, list_marked_run, He. by eexists.
Qed.

(** The status keeps everything but its storage classes and conditions. *)
Definition erased (s s' : DRClusterConfigStatus) : Prop :=
  ∃ l, s' = s <| dcct_Conditions := l |> <| dcct_StorageClasses := [] |> ∧ ¬ processed s'.

Lemma processCreateOrUpdate_fails w claim e :
  mce_err (kw_tick w) = None → mce_err (S (kw_tick w)) = Some e →
  kw_claims w !! clusterIDClusterClaimName = Some claim → clm_Value claim ≠ "" →
  dccs_ClusterID (dcc_Spec (kw_config w)) = clm_Value claim →
  drCConfigFinalizerName ∈ om_Finalizers (dcc_Meta (kw_config w)) →
  let r := processCreateOrUpdate w in
  r.1.2 ≠ None ∧
  ∃ s, r.2 = on_status (λ _, s) (at_tick 2 w) ∧ erased (dcc_Status (kw_config w)) s.
Proof.
  intros He1 He2 Hc Hv Hid Hf. cbv zeta. unfold processCreateOrUpdate.
  rewrite or_return_run, (validateClusterIDFromClaim_run w claim) by done. cbn [fst snd].
  rewrite or_return_run, update_config_meta_unchanged by done. cbn [fst snd].
  rewrite or_return_run. destruct (UpdateStatus_fails (at_tick 1 w) e He2) as [e' ->]. cbn [fst snd].
  set (w1 := on_status _ _). split; [done|]. unfold config_failed. rewrite run_bind.
  destruct (set_processed_run (error_text e') ConditionFalse DRClusterConfigConditionConfigurationFailed w1) as [Hp [l Hl]].
  exists (dcc_Status (kw_config w1) <| dcct_Conditions := l |>). split; [exact Hl|]. exists l. split; [done|].
  rewrite Hl in Hp. unfold processed. intros Hp'. unfold processed_status in Hp. simpl in Hp, Hp'. congruence.
Qed.

Lemma update_config_status_stores w c :
  mce_err (kw_tick w) = None → kw_configs w !! om_Name (dcc_Meta (kw_config w)) = Some c →
  om_ResourceVersion (dcc_Meta c) = om_ResourceVersion (dcc_Meta (kw_config w)) →
  ResourceIsDeleted (dcc_Meta c) = false →
  ∃ c', kw_configs (update_config_status w).2 !! om_Name (dcc_Meta (kw_config w)) = Some c' ∧
        dcc_Status c' = dcc_Status (kw_config w).
Proof.
  intros He Hc Hv Hd. unfold update_config_status, write_config. rewrite run_bind. cbn [config_tick fst snd].
  rewrite He, run_bind. cbn [gets fst snd]. rewrite run_bind. cbn [gets fst snd]. simpl (kw_configs _). simpl (kw_config _).
  rewrite Hc, bool_decide_eq_false_2 by (intros []; done). rewrite run_bind. simpl.
  unfold ResourceIsDeleted in *. simpl. rewrite Hd. simpl. eexists. by rewrite lookup_insert_eq.
Qed.

Lemma reconcile_config_fails w c claim e :
  mce_err (kw_tick w) = None → mce_err (1 + kw_tick w) = Some e → mce_err (2 + kw_tick w) = None →
  kw_configs w !! om_Name (dcc_Meta (kw_config w)) = Some c →
  om_ResourceVersion (dcc_Meta c) = om_ResourceVersion (dcc_Meta (kw_config w)) →
  ResourceIsDeleted (dcc_Meta c) = false → ResourceIsDeleted (dcc_Meta (kw_config w)) = false →
  drCConfigFinalizerName ∈ om_Finalizers (dcc_Meta (kw_config w)) →
  kw_claims w !! clusterIDClusterClaimName = Some claim → clm_Value claim ≠ "" →
  dccs_ClusterID (dcc_Spec (kw_config w)) = clm_Value claim →
  let r := reconcile_config w in
  r.1.2 ≠ None ∧
  ∃ c', kw_configs r.2 !! om_Name (dcc_Meta (kw_config w)) = Some c' ∧
        erased (dcc_Status (kw_config w)) (dcc_Status c').
Proof.
  intros He0 He1 He2 Hc Hrv Hd Hd' Hf Hcl Hv Hid. cbv zeta. unfold reconcile_config. rewrite run_bind.
  cbn [gets fst snd]. rewrite run_bind.
  match goal with |- context[(if ?b then ?x else ?y) w] => set (w1 := ((if b then x else y) w).2) end.
  assert (∃ l, w1 = on_status (λ s, s <| dcct_Conditions := l |>) w) as [l ->].
  { subst w1. case_bool_decide; [by eexists|]. exists (dcct_Conditions (dcc_Status (kw_config w))).
    by destruct w as [[? ? []] ? ? ? ?]. }
  rewrite Hd', run_bind. set (w1 := on_status _ w).
  destruct (processCreateOrUpdate_fails w1 claim e) as (Hr & s & Hw & l' & Hs & Hp); [done..|].
  destruct (processCreateOrUpdate w1) as [r w2]. simpl in Hr, Hw. subst w2. cbn [fst snd]. rewrite run_bind, statusUpdate_state.
  split; [done|]. edestruct (update_config_status_stores (on_status (λ _, s) (at_tick 2 w1)) c) as (c' & Hc' & Hst); [done..|].
  exists c'. split; [exact Hc'|]. exists l'. rewrite Hst. split; [by rewrite Hs|done].
Qed.

(** C34: When the storage classes cannot be listed, the reconcile of an otherwise valid
    DRClusterConfig stores a status that names no storage class, all else but the
    conditions as it was, and is not processed.  The hub does not look at the condition: it
    takes the cluster for one without storage classes, and no error. *)
Theorem failed_listing_erases_the_report name w c claim e :
  (∀ i, i ∈ [0; 1; 2; 4] → mce_err (i + kw_tick w) = None) → mce_err (3 + kw_tick w) = Some e →
  kw_configs w = {[name := c]} → ResourceIsDeleted (dcc_Meta c) = false →
  drCConfigFinalizerName ∈ om_Finalizers (dcc_Meta c) →
  kw_claims w !! clusterIDClusterClaimName = Some claim → clm_Value claim ≠ "" →
  dccs_ClusterID (dcc_Spec c) = clm_Value claim →
  let r := DRClusterConfig_Reconcile name w in
  r.1.2 ≠ None ∧
  ∃ c', kw_configs r.2 !! name = Some c' ∧ erased (dcc_Status c) (dcc_Status c') ∧
    ∀ (hub : Env) (codec : ViewCodec) cluster hw, GetSClassesFromCluster c' cluster hw = (([], None), hw).
Proof.
  intros He He3 Hcs Hd Hf Hclaim Hv Hid. cbv zeta.
  pose proof (He 0 ltac:(set_solver)) as He0. pose proof (He 1 ltac:(set_solver)) as He1.
  pose proof (He 2 ltac:(set_solver)) as He2. pose proof (He 4 ltac:(set_solver)) as He4. clear He.
  rewrite (DRClusterConfig_Reconcile_run name w c) by (done || by rewrite Hcs, lookup_singleton_eq).
  assert ((GetDRClusterConfig (read_config name c w)).1 = inl c) as ->.
  { unfold GetDRClusterConfig. rewrite run_bind. cbn [config_tick fst snd]. simpl (kw_tick _). simpl in He1.
    rewrite He1, run_bind. cbn [gets fst snd]. simpl (kw_configs _). by rewrite Hcs, map_to_list_singleton. }
  destruct (reconcile_config_fails (at_tick 1 (read_config name c w)) c claim e) as (Hr & c' & Hc' & Her);
    try done; [by simpl; rewrite Hcs, lookup_singleton_eq|].
  split; [exact Hr|]. exists c'. split_and!; [exact Hc'|exact Her|]. intros hub codec cluster hw.
  destruct Her as (l & Hs & _). unfold GetSClassesFromCluster, classes_or_none. by rewrite Hs.
Qed.
End reports.

(** ** A cluster *)

Definition key_order : KeyOrder := {| env_keys := λ _ s, elements s; env_keys_perm := λ _ _, Permutation_refl _ |}.

Definition marked_meta (name label : string) : ObjectMeta :=
  named_meta name "" <| om_Labels := {[label := "id"]} |> <| om_Annotations := {[label := "id"]} |>.

(** Two storage classes are marked and one is not; a fence class has a client; a network is
    attached.  The call at the tick may fail. *)
Definition example_cluster (failing : option nat) : ManagedCluster := {|
  mce_now := Z.of_nat;
  mce_err := λ t, if bool_decide (failing = Some t) then Some (StatusError ReasonOther "unavailable") else None;
  mce_version := λ _, "2";
  mce_storageClasses := λ _, [mkStorageClass (marked_meta "rbd" StorageIDLabel) "ceph" ∅;
    mkStorageClass (named_meta "local" "") "local" ∅; mkStorageClass (marked_meta "cephfs" StorageIDLabel) "ceph" ∅];
  mce_snapshotClasses := λ _, [];
  mce_replicationClasses := λ _, [mkReplicationClass (marked_meta "5m" ReplicationIDLabel) "ceph" ∅];
  mce_groupReplicationClasses := λ _, [];
  mce_groupSnapshotClasses := λ _ _, [];
  mce_fenceClasses := λ _, [mkNetworkFenceClass (marked_meta "fence" StorageIDLabel) "ceph"];
  mce_nodes := λ _, [mkCSIAddonsNode (named_meta "node" "") [mkNetworkFenceClientStatus "fence" [["10.0.0.1/32"]]]];
  mce_nads := λ _, [mkNAD (marked_meta "net" NADDRNetworkLabel <| om_Labels := {[NADDRNetworkLabel := "true"]} |>) "{}"];
  mce_crds := λ _, [NADResourceName];
  mce_UsePublicVGSAPI := true;
  mce_unmarshal := λ _, inl (mkCNIConfig "" ["bridge"]);
|}.

Definition example_config : DRClusterConfig :=
  mkDRClusterConfig (named_meta "config" "" <| om_Finalizers := [drCConfigFinalizerName] |>)
    (mkDRClusterConfigSpec [] "east") (zero_dccstatus <| dcct_StorageClasses := ["rbd"] |>).
Definition example_claim : ClusterClaim := mkClusterClaim (named_meta clusterIDClusterClaimName "") "east".
Definition stale_claim : ClusterClaim := mkClusterClaim (marked_meta "old" drCConfigOwnerLabel
  <| om_Labels := {[drCConfigOwnerLabel := drCConfigOwnerName]} |>) "x".

Definition example_config_world : ConfigWorld :=
  mkConfigWorld example_config {["config" := example_config]}
    (<[clusterIDClusterClaimName := example_claim]> {["old" := stale_claim]}) true 0.

Definition reconciled (failing : option nat) : Result * option GoError * ConfigWorld :=
  @DRClusterConfig_Reconcile (example_cluster failing) key_order "config" example_config_world.

(** Reported in order, pruned, and stored. *)
Example example_report :
  let s := default zero_dccstatus (dcc_Status <$> kw_configs (reconciled None).2 !! "config") in
  dcct_StorageClasses s = ["cephfs"; "rbd"] ∧ dcct_NetworkAttachments s = [mkNetworkAttachment "net" "" "bridge"] ∧
  dcct_StorageAccessDetails s = [mkStorageAccessDetail "ceph" ["10.0.0.1/32"]] ∧
  kw_claims (reconciled None).2 !! "old" = None.
Proof. vm_compute. done. Qed.

Lemma processed_report_is_exact_witness :
  (reconciled None).1.2 = None ∧ @valid_report (example_cluster None) example_config_world (reconciled None).2.
Proof.
  split; [vm_compute; reflexivity|].
  destruct (@processed_report_is_exact (example_cluster None) key_order "config" example_config_world example_config
              ltac:(vm_compute; reflexivity) ltac:(vm_compute; reflexivity) ltac:(vm_compute; reflexivity)) as [Hv _].
  apply Hv. vm_compute. reflexivity.
Defined.

Lemma failed_listing_erases_the_report_witness :
  (reconciled (Some 3)).1.2 ≠ None ∧
  ∃ c', kw_configs (reconciled (Some 3)).2 !! "config" = Some c' ∧ dcct_StorageClasses (dcc_Status c') = [].
Proof.
  destruct (@failed_listing_erases_the_report (example_cluster (Some 3)) key_order "config" example_config_world example_config
              example_claim (StatusError ReasonOther "unavailable")) as (Hr & c' & Hc' & (l & Hs & _) & _).
  - intros i Hi. repeat (apply elem_of_cons in Hi as [->|Hi]; [vm_compute; reflexivity|]). by apply not_elem_of_nil in Hi.
  - vm_compute. reflexivity.
  - vm_compute. reflexivity.
  - vm_compute. reflexivity.
  - by left.
  - vm_compute. reflexivity.
  - done.
  - vm_compute. reflexivity.
  - split; [exact Hr|]. exists c'. split; [exact Hc'|by rewrite Hs].
Defined.
